(* ===== verification/_CoqProject ===== *)
-Q . S2P
Prelude.v
Sql.v
Interfaces.v
RuntimeAdapters.v
ReconciliationJob.v
ReconciliationJobSafety.v
StateMetadata.v
SourceIngest.v
StateTrade.v
EvidenceHistory.v
JsonText.v
TradeIngest.v
SourceState.v
SourceFetch.v
SourceCommit.v
ReconciliationAttempt.v
ReconciliationReplay.v
ReconciliationManifest.v
ReconciliationReducer.v
ReconciliationCommit.v
ReconciliationCommitSafety.v
Publication.v
PublicationState.v
PublicationSubmission.v
PublicationExecution.v
PublicationViews.v
PublicationRefine.v
PublicationHistory.v
PublicationSafety.v
FinalizationState.v
ReconciliationFinalization.v
ReconciliationAttestation.v
FinalizationCommit.v
FinalizationCommitSafety.v
StateConfig.v
StateConfigSafety.v
PresenceState.v
PresenceDesired.v
PresenceDesiredSafety.v
PresencePublication.v
PresenceRecords.v
PresenceDelivery.v
PresenceViews.v
PresenceHistory.v
PresenceRefine.v
PresenceDeliverySafety.v
JsonTree.v
Admin.v
Base64Url.v
AdminRequest.v
AdminSafety.v
AdminRequestSafety.v
AdminJournal.v
AdminJournalSafety.v
AdminCursor.v
AdminCursorSafety.v
AdminPages.v
AdminPagesSafety.v
AdminCommands.v
AdminCommandsSafety.v
