(* ===== verification/Prelude.v ===== *)
(** * rhi: a verified model of the service core

    [rhi] is a single-writer daemon that reads trade evidence from Nostr relays,
    reduces it, signs an attestation of what it found and publishes that attestation
    and its own presence.  Everything it decides is kept in one SQLite database, and
    every decision is one transaction.  This development models that core: the tables
    with their constraints and triggers, the operations on them, the digests that
    bind them to a configuration, and the pure admission logic at the boundaries.
    Definitions keep the names of the source and are executable; records stand for
    structs, inductive types for enums, [result] and [let?] for [Result] and [?].

    ** The parts and how they interact

    A configuration is bound to the state ([StateConfig]); it grants sources, a
    publication authority ([Publication]) and a presence authority
    ([PresenceDesired]).  A dirty trade schedules a job ([ReconciliationJob]); a
    worker claims it under a lease, plans one request per source
    ([ReconciliationAttempt]) and commits what the sources returned, canonicalised
    ([ReconciliationReplay]), together with the evidence, the dirty generation and
    the checkpoints ([ReconciliationCommit]).  An attempt that found nothing new is
    frozen as a manifest ([ReconciliationManifest]), reduced and judged
    ([ReconciliationReducer]), passes the fence ([ReconciliationFinalization]), is
    signed ([ReconciliationAttestation]) and finalized ([FinalizationCommit]), which
    queues a publication that [PublicationExecution] delivers.  Independently, a
    source worker ingests pages or single events ([SourceFetch], [SourceCommit])
    through the admission of [TradeIngest], and the presence of the service is
    desired ([PresenceDesired]), signed and committed ([PresenceRecords]) and
    delivered ([PresenceDelivery]).  An operator watches and nudges all of it through
    the administration boundary ([AdminRequest]): requests are checked against the
    operator contract ([Admin]), mutations are recorded in a journal
    ([AdminJournal]) and change the tables of the components above
    ([AdminCommands]), listings are paged ([AdminPages]).

    ** Files and the code they model

    Shared:
    - [Prelude]: [result], checked and wrapping arithmetic at 16 and 64 bits, bytes,
      stable sorting with comparison functions ([Ordering]), hints and tactics;
    - [Sql]: tables, [UPDATE] and [INSERT] with rows affected, uniqueness, and the
      interface [TransactionHost] of the transaction runner, whose laws say that a
      call commits as a whole or leaves the state, and that a caller may see an
      error although the commit happened;
    - [Interfaces]: SHA-256 and the normalized JSON document;
    - [RuntimeAdapters] (Module [Adapters], [runtime_adapters.rs]): clock and jitter;
    - [StateMetadata] (Module [Metadata], [state_metadata.rs]): the state digests.

    Reconciliation:
    - [ReconciliationJob] and [ReconciliationJobSafety] (Modules [Job], [JobSafety];
      [reconciliation_job.rs] and the table [reconciliation_jobs] of
      [state_catalog.rs]);
    - [ReconciliationAttempt] (Module [Attempt]; [reconciliation_attempt.rs]),
      [ReconciliationReplay] (Module [Replay]; [reconciliation_replay.rs]),
      [ReconciliationManifest] (Module [Manifest]; [reconciliation_manifest.rs]),
      [ReconciliationReducer] (Module [Reducer]; [reconciliation_reducer.rs]);
    - [ReconciliationCommit] and [ReconciliationCommitSafety] (Modules [Commit],
      [CommitSafety]; [reconciliation_commit.rs]);
    - [FinalizationState] (Module [FinalState], the finalization tables of
      [state_catalog.rs]), [ReconciliationFinalization] (Module [Finalization];
      [reconciliation_finalization.rs]), [ReconciliationAttestation] (Module
      [Attestation]; [reconciliation_attestation.rs]), [FinalizationCommit] and
      [FinalizationCommitSafety] (Modules [FinalCommit], [FinalSafety];
      [reconciliation_finalization_commit.rs]).

    Evidence and sources:
    - [StateTrade] (Module [Evidence]; [state_trade.rs]) and [EvidenceHistory]
      (Module [History], what its clients rely on);
    - [JsonText] (Module [JsonText]) and [TradeIngest] (Module [TradeIngest];
      [trade_ingest.rs]): the bounded JSON scanners and the admission of an event;
    - [SourceIngest], [SourceState], [SourceFetch], [SourceCommit] (Modules [Source],
      [SourceState], [SourceFetch], [SourceCommit]; [source_ingest.rs]): results and
      cursors, checkpoints and generations, the page loop, the fenced commit.

    Publication:
    - [Publication] (Module [Authority]; [publication.rs]), [PublicationState]
      (Module [PubState], the publication tables), [PublicationSubmission] (Module
      [Submission]; [publication_submission.rs], [publication_attempt.rs]),
      [PublicationExecution] (Module [Execution]; [publication_execution.rs]);
    - [PublicationViews], [PublicationRefine], [PublicationHistory],
      [PublicationSafety] (Modules [Views], [Refine], [History], [Safety]): records
      and rows, the abstract updates of one outbox, growth of histories, theorems.

    Configuration and presence:
    - [StateConfig] and [StateConfigSafety] (Modules [Config], [ConfigSafety];
      [state_config.rs]);
    - [PresenceState] (the presence tables), [PresenceDesired] and
      [PresenceDesiredSafety] (Modules [Presence], [PresenceSafety];
      [presence_desired.rs]);
    - [PresencePublication], [PresenceRecords], [PresenceDelivery]
      ([presence_publication.rs] in three parts: signed documents, the commit of a
      generation, the executor);
    - [PresenceViews], [PresenceHistory], [PresenceRefine], [PresenceDeliverySafety]
      (the last as Module [Delivery]): rows and records, growth, exact effects,
      theorems.

    Administration:
    - [JsonTree]: the members, tests and equality of JSON values beyond [Interfaces];
    - [Admin] (Module [Admin]; [admin_v1.rs]): the routes and the validation of values
      against the operator contract; [Base64Url]: reference base64url;
    - [AdminRequest] (Module [AdminRequest]; [admin_v1.rs]): queries, strict JSON,
      admission of requests and responses, dispatch;
    - [AdminSafety], [AdminRequestSafety]: what it is to have a type of the contract,
      theorems;
    - [AdminJournal] and [AdminJournalSafety] (Modules [Journal], [JournalSafety];
      [state_admin.rs] and the table [rhi_admin_operations]): the idempotency of
      mutations;
    - [AdminCursor] and [AdminCursorSafety] (Modules [Cursor], [CursorSafety]),
      [AdminPages] and [AdminPagesSafety] (Modules [Pages], [PagesSafety]),
      [AdminCommands] and [AdminCommandsSafety] (Modules [Commands],
      [CommandsSafety]), all of [runtime_admin.rs]: authenticated page cursors, the
      listings, and the mutations that run on the journal beside the tables of
      [Job], [PubState] and [PresenceState].

    Each component's state is the list of rows of its tables, in a record
    ([job_db], [evidence_db], [source_db], [reconciliation_db], [publication_db],
    [finalization_db], [config_db], [presence_db], [admin_db]); an operation is a function from
    that record to a [result], composed of the statements in the order of the code,
    and [Sql.transaction] runs it on a host.  Injected capabilities (clock, entropy,
    transport, sink, signer) are classes over a world [W] that the operations thread.

    ** What the theorems show

    - Queue: the job table stays well formed under every history of the queue's
      operations and of the completion by a finalization, a stale lease can do nothing,
      a job is leased boundedly often, [claim_next] completes.
    - Evidence: persisting is exact and append-only, conflicts are refused with
      nothing written.
    - Sources: a fetch ends within its budgets and loses nothing; the commit refines
      its specification, is fenced against concurrent writers, and a complete
      ingestion stores everything that was admitted.
    - Attempts: plans are bounded as they are configured; the commit is atomic, fenced and idempotent;
      committed manifests reduce exactly when their contents decode; evaluation is
      fail closed; only quiescent attempts finalize; attestations are verified and
      reload; finalization is atomic, exact on retry, happens once, and queues work
      the executor can claim.
    - Publication and presence: bytes reach a sink only after their submission is
      durable, outcomes and recovery are atomic and final, histories are monotone,
      due work makes progress; a presence generation is committed atomically with
      verified bytes; desired state is a compare-and-swap that identifies its
      authority.
    - Configuration: changes are atomic, the history is consecutive, and a change of
      the evidence policy fences every attempt planned before it, whatever work on
      trades happens afterwards.

    What a statement promises is written on the stored rows and columns, with
    predicates of its own ([moves_to], [document_stored], [due_target], [denotes],
    [source_configures], ...), and not with the selections the code makes.
    - Administration: a request is dispatched exactly when it fits its route's model,
      responses are typed and canonical, a query reads back what it was written from;
      a mutation and its receipt are one step, run once, bounded in number, and never
      reuse an identity; retries and refreshes are exact atomic resets; cursors are
      exact, and following them lists everything once while the rows stand still.
    - What the code does not achieve is proved too: [unresolved_operations_block_mutations],
      [retry_cannot_help_exhausted_workflow], [refreshed_rejected_target_is_never_due],
      [dirty_generation_is_never_not_found], [refresh_replay_needs_its_generation],
      [changed_job_hides_another].
    Digest theorems are stated up to a SHA-256 collision: equal digests give equal
    inputs, or two different inputs with one digest are exhibited.

    ** Bounds and fuel

    - [fetch_loop] has [maximum_events + 1] rounds: every round but the last delivers
      at least one event or ends the attempt, so the fuel is never the reason to stop
      ([fetch_source_total]).
    - [JsonText.decode_utf8] and [scan] have the length of their input; every step
      consumes a byte.
    - [binary_search] has the length of the list plus one; the interval halves.
    - [json_pointer] has the length of the pointer, which bounds its tokens.
    - [jitter_loop] makes the source's 16 draws; running out is the source's error.
    - [validate_type] has [type_fuel] (26) rounds: depth 25 is refused by the code, so
      the fuel is never the reason ([validate_type_rounds]).
    - [walk], the client of a listing, has one round per item and one more; a page
      with a successor is not empty.
    - Integers are [Z] with their width written out where the code depends on it:
      [u64_checked_add], [u16_checked_add], [try_from], [wrapping_neg], and the signed
      64-bit columns of SQLite ([i64_value]).

    ** What is not modelled

    - The crates the source calls: JSON and TOML parsing, Nostr events and signing,
      the trade reducer, SQLite itself.  They are classes with the documented laws
      that the theorems use, each with an instance that shows the laws can hold.
    - Configuration parsing and loading, the command line, the doctor and status
      documents: long chains of field checks and rendering around third-party parsers
      and the file system; they do not change the durable state.
    - Of the administration: the Unix socket and router, and the answers that render
      what other components hold (status, identity, reports, projections, sources,
      metrics); backup and presence render, whose effects are SQLite's and the
      presence component's.
    - Identity envelopes and credentials: AEAD and memory hygiene of other crates.
    - The daemon runtime, signals, sockets, the relay adapter and process results: the
      model covers any interleaving of the modelled operations instead.
    - Opening, migrating and backing up the database file, and the digests of the
      schema catalogue; the tables themselves are modelled with their components.
    - Deadlines of tasks: a clock reading is an input of each operation.
    - The repository tasks ([tools/xtask]) and tests. *)

From Stdlib Require Import ZArith Lia.
From stdpp Require Export base tactics list option strings numbers.
From stdpp Require Import sorting.

#[global] Open Scope Z_scope.

Declare Scope rhi_scope.
Delimit Scope rhi_scope with rhi.
#[global] Open Scope rhi_scope.

(** ** Fallible code: Rust's [Result] and the [?] operator *)

Inductive result (E A : Type) : Type :=
| Ok (a : A)
| Err (e : E).
Arguments Ok {E A} _.
Arguments Err {E A} _.

Definition and_then {E A B} (c : result E A) (k : A → result E B) : result E B :=
  match c with Ok a => k a | Err e => Err e end.

Notation "'let?' x ':=' c 'in' k" := (and_then c (λ x, k))
  (at level 10, x pattern, k at level 200) : rhi_scope.
Notation "c ';?' k" := (and_then c (λ _, k))
  (at level 199, right associativity) : rhi_scope.

Definition map_err {E F A} (f : E → F) (c : result E A) : result F A :=
  match c with Ok a => Ok a | Err e => Err (f e) end.

Definition ok_or {E A} (o : option A) (e : E) : result E A :=
  match o with Some a => Ok a | None => Err e end.

(** [if cond { return Err(e) }] *)
Definition reject_if {E} (cond : bool) (e : E) : result E unit :=
  if cond then Err e else Ok tt.

(** [Option::filter] *)
Definition filter_opt {A} (p : A → bool) (o : option A) : option A :=
  match o with Some a => if p a then Some a else None | None => None end.

(** [Option::is_some_and] and [Option::is_none_or] *)
Definition is_some_and {A} (p : A → bool) (o : option A) : bool :=
  match o with Some a => p a | None => false end.
Definition is_none_or {A} (p : A → bool) (o : option A) : bool :=
  match o with Some a => p a | None => true end.

(** [iter.map(f).collect::<Result<Vec<_>, _>>()] *)
Fixpoint collect {E A B} (f : A → result E B) (l : list A) : result E (list B) :=
  match l with
  | [] => Ok []
  | x :: l => let? y := f x in let? ys := collect f l in Ok (y :: ys)
  end.

#[global] Instance result_eq_dec {E A} `{EqDecision E, EqDecision A} : EqDecision (result E A).
Proof. solve_decision. Defined.

Definition is_ok {E A} (r : result E A) : Prop := ∃ a, r = Ok a.

Section result_lemmas.
Context {E A B : Type}.

Lemma and_then_Ok (c : result E A) (k : A → result E B) b :
  and_then c k = Ok b ↔ ∃ a, c = Ok a ∧ k a = Ok b.
Proof. destruct c; simpl; naive_solver. Qed.

Lemma and_then_Err (c : result E A) (k : A → result E B) e :
  and_then c k = Err e ↔ c = Err e ∨ ∃ a, c = Ok a ∧ k a = Err e.
Proof. destruct c; simpl; naive_solver. Qed.

Lemma ok_or_Ok (o : option A) (e : E) a : ok_or o e = Ok a ↔ o = Some a.
Proof. destruct o; naive_solver. Qed.

Lemma ok_or_Err (o : option A) (e e' : E) : ok_or o e = Err e' ↔ o = None ∧ e = e'.
Proof. destruct o; naive_solver. Qed.

Lemma reject_if_Ok c (e : E) u : reject_if c e = Ok u ↔ c = false.
Proof. destruct c, u; naive_solver. Qed.

Lemma reject_if_Err c (e e' : E) : reject_if c e = Err e' ↔ c = true ∧ e = e'.
Proof. destruct c; naive_solver. Qed.

Lemma map_err_Ok {F} (f : E → F) (c : result E A) a : map_err f c = Ok a ↔ c = Ok a.
Proof. destruct c; naive_solver. Qed.

Lemma map_err_Err {F} (f : E → F) (c : result E A) e' :
  map_err f c = Err e' ↔ ∃ e, c = Err e ∧ f e = e'.
Proof. destruct c; naive_solver. Qed.

Lemma filter_opt_Some (p : A → bool) o a :
  filter_opt p o = Some a ↔ o = Some a ∧ p a = true.
Proof. destruct o as [x|]; simpl; [destruct (p x) eqn:?|]; split; naive_solver congruence. Qed.

End result_lemmas.

Section collect_lemmas.
Context {E A B : Type}.

Lemma collect_Ok (f : A → result E B) l ys :
  collect f l = Ok ys ↔ Forall2 (λ x y, f x = Ok y) l ys.
Proof.
  revert ys; induction l as [|x l IH]; intros ys; simpl.
  - split; [intros [= <-]; constructor|by inversion 1].
  - split.
    + intros (y & ? & (ys' & Hys & [= <-])%and_then_Ok)%and_then_Ok.
      constructor; [done|]. by apply IH.
    + inversion 1 as [|? y ? ys' Hy Hys]; subst. rewrite Hy; simpl.
      apply IH in Hys. by rewrite Hys.
Qed.

Lemma collect_total (f : A → result E B) l :
  Forall (λ x, is_ok (f x)) l → is_ok (collect f l).
Proof.
  unfold is_ok. induction 1 as [|x l [y Hy] _ [ys IH]]; simpl; [by eauto|].
  rewrite Hy, IH; simpl; eauto.
Qed.

(** Mapping both sides of a successful [collect]. *)
Lemma collect_map (f : A → result E B) g h l ys :
  (∀ x y, x ∈ l → f x = Ok y → f (g x) = Ok (h y)) →
  collect f l = Ok ys → collect f (map g l) = Ok (map h ys).
Proof.
  intros Hgh. rewrite !collect_Ok. induction 1 as [|x y l ys Hxy Hall IH]; simpl; constructor.
  - apply Hgh; [by left|done].
  - apply IH. intros x' y' Hx. apply Hgh. by right.
Qed.
End collect_lemmas.

Create HintDb rhi discriminated.

(** Inverts every successful [let?] chain in the context. *)
Ltac inv_ok :=
  repeat match goal with
  | H : and_then _ _ = Ok _ |- _ => apply and_then_Ok in H as (? & ? & H)
  | H : reject_if _ _ = Ok _ |- _ => apply reject_if_Ok in H
  | H : ok_or _ _ = Ok _ |- _ => apply ok_or_Ok in H
  | H : map_err _ _ = Ok _ |- _ => apply map_err_Ok in H
  | H : filter_opt _ _ = Some _ |- _ => apply filter_opt_Some in H as [H ?]
  | H : Ok _ = Ok _ |- _ => injection H as H; subst
  | H : Err _ = Ok _ |- _ => discriminate H
  | H : Ok _ = Err _ |- _ => discriminate H
  | H : Some _ = Some _ |- _ => injection H as H; subst
  end; simplify_eq.

(** Inverts one step [let? x := _ in _] of a successful computation. *)
Tactic Notation "bind" hyp(H) "as" simple_intropattern(x) ident(Hx) :=
  apply and_then_Ok in H as (x & Hx & H).

(** Splits boolean connectives in the context into arithmetic facts. *)
Ltac to_prop :=
  repeat match goal with
  | H : (_ || _) = false |- _ => apply orb_false_iff in H as [? ?]
  | H : (_ && _) = true |- _ => apply andb_true_iff in H as [? ?]
  | H : negb _ = true |- _ => apply negb_true_iff in H
  | H : negb _ = false |- _ => apply negb_false_iff in H
  | H : (_ =? _) = true |- _ => apply Z.eqb_eq in H
  | H : (_ =? _) = false |- _ => apply Z.eqb_neq in H
  | H : (_ <=? _) = true |- _ => apply Z.leb_le in H
  | H : (_ <=? _) = false |- _ => apply Z.leb_gt in H
  | H : (_ <? _) = true |- _ => apply Z.ltb_lt in H
  | H : (_ <? _) = false |- _ => apply Z.ltb_ge in H
  | H : bool_decide _ = true |- _ => apply bool_decide_eq_true in H
  | H : bool_decide _ = false |- _ => apply bool_decide_eq_false in H
  end.

(** ** Machine integers *)

Definition U8_MAX : Z := 2 ^ 8 - 1.
Definition U16_MAX : Z := 2 ^ 16 - 1.
Definition U32_MAX : Z := 2 ^ 32 - 1.
Definition U64_MAX : Z := 2 ^ 64 - 1.
Definition I64_MAX : Z := 2 ^ 63 - 1.

(** [(lo..=hi).contains(&x)] and SQL's [x BETWEEN lo AND hi] *)
Definition between (lo hi x : Z) : bool := (lo <=? x) && (x <=? hi).

Definition u64_checked_add (x y : Z) : option Z :=
  if x + y <=? U64_MAX then Some (x + y) else None.
Definition u64_checked_mul (x y : Z) : option Z :=
  if x * y <=? U64_MAX then Some (x * y) else None.
Definition u64_saturating_sub (x y : Z) : Z := Z.max 0 (x - y).
Definition u64_saturating_mul (x y : Z) : Z := Z.min U64_MAX (x * y).
(** [1_u64.checked_shl(e)] is [None] exactly when the shift is 64 or more *)
Definition u64_checked_shl (x e : Z) : option Z :=
  if e <? 64 then Some (Z.shiftl x e mod 2 ^ 64) else None.
Definition u32_checked_add (x y : Z) : option Z :=
  if x + y <=? U32_MAX then Some (x + y) else None.
Definition u16_checked_add (x y : Z) : option Z :=
  if x + y <=? U16_MAX then Some (x + y) else None.

(** [T::try_from(v)] for an unsigned [T] with maximum [m] *)
Definition try_from (m v : Z) : option Z := if between 0 m v then Some v else None.

Lemma between_true lo hi x : between lo hi x = true ↔ lo ≤ x ≤ hi.
Proof. unfold between. rewrite andb_true_iff, !Z.leb_le. lia. Qed.
Lemma between_false lo hi x : between lo hi x = false ↔ x < lo ∨ hi < x.
Proof. unfold between. rewrite andb_false_iff, !Z.leb_gt. lia. Qed.

Lemma u64_checked_add_Some x y z :
  u64_checked_add x y = Some z ↔ z = x + y ∧ x + y ≤ U64_MAX.
Proof. unfold u64_checked_add. destruct (Z.leb_spec (x + y) U64_MAX); naive_solver lia. Qed.

Lemma u64_checked_add_None x y : u64_checked_add x y = None ↔ U64_MAX < x + y.
Proof. unfold u64_checked_add. destruct (Z.leb_spec (x + y) U64_MAX); naive_solver lia. Qed.

Lemma u16_checked_add_Some x y z :
  u16_checked_add x y = Some z ↔ z = x + y ∧ x + y ≤ U16_MAX.
Proof. unfold u16_checked_add. destruct (Z.leb_spec (x + y) U16_MAX); naive_solver lia. Qed.

Lemma try_from_Some m v w : try_from m v = Some w ↔ w = v ∧ 0 ≤ v ≤ m.
Proof.
  unfold try_from. destruct (between 0 m v) eqn:Hb.
  - apply between_true in Hb. naive_solver.
  - apply between_false in Hb. naive_solver lia.
Qed.

Ltac inv_int :=
  repeat match goal with
  | H : between _ _ _ = true |- _ => apply between_true in H
  | H : between _ _ _ = false |- _ => apply between_false in H
  | H : u64_checked_add _ _ = Some _ |- _ => apply u64_checked_add_Some in H as [-> ?]
  | H : u64_checked_add _ _ = None |- _ => apply u64_checked_add_None in H
  | H : u16_checked_add _ _ = Some _ |- _ => apply u16_checked_add_Some in H as [-> ?]
  | H : try_from _ _ = Some _ |- _ => apply try_from_Some in H as [-> ?]
  end.

Ltac unfold_max := unfold U8_MAX, U16_MAX, U32_MAX, U64_MAX, I64_MAX in *.

(** ** Bytes *)

Abbreviation bytes := (list Z).

(** [s.as_bytes()] *)
Fixpoint as_bytes (s : string) : bytes :=
  match s with
  | EmptyString => []
  | String c s => Z.of_N (Ascii.N_of_ascii c) :: as_bytes s
  end.

(** [x.to_be_bytes()] for an [n]-byte unsigned integer *)
Fixpoint to_be_bytes (n : nat) (x : Z) : bytes :=
  match n with
  | O => []
  | S n => Z.shiftr x (8 * Z.of_nat n) mod 256 :: to_be_bytes n x
  end.

Fixpoint of_be_bytes (acc : Z) (l : bytes) : Z :=
  match l with [] => acc | b :: l => of_be_bytes (acc * 256 + b) l end.

Lemma length_to_be_bytes n x : length (to_be_bytes n x) = n.
Proof. induction n; simpl; congruence. Qed.

#[global] Arguments to_be_bytes : simpl never.

Lemma to_be_bytes_S n x :
  to_be_bytes (S n) x = Z.shiftr x (8 * Z.of_nat n) mod 256 :: to_be_bytes n x.
Proof. done. Qed.

Lemma to_be_bytes_mod n x y :
  to_be_bytes n x = to_be_bytes n y → x mod 2 ^ (8 * Z.of_nat n) = y mod 2 ^ (8 * Z.of_nat n).
Proof.
  induction n as [|n IH]; [by rewrite !Z.mod_1_r|].
  rewrite !to_be_bytes_S. intros [= Hhd Htl]. specialize (IH Htl).
  rewrite !Z.shiftr_div_pow2 in Hhd by lia.
  replace (8 * Z.of_nat (S n)) with (8 * Z.of_nat n + 8) by lia.
  rewrite Z.pow_add_r by lia. change (2 ^ 8) with 256.
  pose proof (Z.pow_pos_nonneg 2 (8 * Z.of_nat n) ltac:(lia) ltac:(lia)).
  rewrite !Z.rem_mul_r by lia. by rewrite IH, Hhd.
Qed.

(** Fixed-width big-endian encoding loses nothing on in-range integers. *)
Lemma to_be_bytes_inj n x y :
  0 ≤ x < 2 ^ (8 * Z.of_nat n) → 0 ≤ y < 2 ^ (8 * Z.of_nat n) →
  to_be_bytes n x = to_be_bytes n y → x = y.
Proof. intros Hx Hy H%to_be_bytes_mod. by rewrite !Z.mod_small in H by lia. Qed.

(** Decoding an encoded integer gives it back modulo the width. *)
Lemma of_be_bytes_to_be_bytes n acc x :
  of_be_bytes acc (to_be_bytes n x) =
    acc * 2 ^ (8 * Z.of_nat n) + x mod 2 ^ (8 * Z.of_nat n).
Proof.
  revert acc; induction n as [|n IH]; intros acc.
  - change (to_be_bytes 0 x) with (@nil Z). simpl of_be_bytes. rewrite Z.mod_1_r. lia.
  - rewrite to_be_bytes_S. simpl of_be_bytes. rewrite IH.
    rewrite Z.shiftr_div_pow2 by lia.
    replace (8 * Z.of_nat (S n)) with (8 * Z.of_nat n + 8) by lia.
    rewrite Z.pow_add_r by lia. change (2 ^ 8) with 256.
    pose proof (Z.pow_pos_nonneg 2 (8 * Z.of_nat n) ltac:(lia) ltac:(lia)).
    rewrite (Z.rem_mul_r x) by lia. lia.
Qed.

Lemma as_bytes_inj s t : as_bytes s = as_bytes t → s = t.
Proof.
  revert t; induction s as [|c s IH]; intros [|d t]; simpl; try done.
  intros [= Hc Hs]. f_equal; [|by apply IH].
  apply N2Z.inj in Hc. rewrite <- (Ascii.ascii_N_embedding c), <- (Ascii.ascii_N_embedding d).
  by rewrite Hc.
Qed.

Lemma length_as_bytes s : length (as_bytes s) = String.length s.
Proof. induction s; simpl; congruence. Qed.

Lemma take_short {A} (n : nat) (l : list A) : (length (take n l) < n)%nat → take n l = l.
Proof. rewrite length_take. intros Hl. apply take_ge. lia. Qed.

(** Injectivity of a concatenation whose first component has a fixed length. *)
Lemma app_inj_fixed {A} (l1 l2 k1 k2 : list A) :
  length l1 = length l2 → l1 ++ k1 = l2 ++ k2 → l1 = l2 ∧ k1 = k2.
Proof. intros; by apply app_inj_1. Qed.

(** The length-prefixed frame both hashing and decoding rely on. *)
Definition framed (l : bytes) : bytes := to_be_bytes 8 (Z.of_nat (length l)) ++ l.

Lemma framed_app_inj l1 l2 k1 k2 :
  Z.of_nat (length l1) ≤ U64_MAX → Z.of_nat (length l2) ≤ U64_MAX →
  framed l1 ++ k1 = framed l2 ++ k2 → l1 = l2 ∧ k1 = k2.
Proof.
  unfold framed. intros H1 H2. rewrite <- !app_assoc. intros H.
  apply app_inj_fixed in H as [Hlen H]; [|by rewrite !length_to_be_bytes].
  apply to_be_bytes_inj in Hlen; [|unfold_max; simpl; lia..].
  apply app_inj_fixed in H; [done|lia].
Qed.

Lemma elem_of_Forall {A} (P : A → Prop) l x : Forall P l → x ∈ l → P x.
Proof. rewrite List.Forall_forall, list_elem_of_In. auto. Qed.

Lemma filter_map_same {A} (p : A → bool) (g : A → A) l :
  (∀ x, x ∈ l → p (g x) = p x) → List.filter p (map g l) = map g (List.filter p l).
Proof.
  induction l as [|x l IH]; simpl; intros Hg; [done|]. rewrite Hg by left. rewrite IH.
  - by destruct (p x).
  - intros y Hy. apply Hg. by right.
Qed.

Lemma map_id_on {A} (g : A → A) l : (∀ x, x ∈ l → g x = x) → map g l = l.
Proof.
  induction l as [|x l IH]; simpl; intros Hg; [done|]. rewrite Hg by left. f_equal.
  apply IH. intros y Hy. apply Hg. by right.
Qed.

(** ** Orderings: Rust's [Ord] as [comparison]-valued functions *)

Class Ordering {A} (cmp : A → A → comparison) : Prop := {
  cmp_swap x y : cmp y x = CompOpp (cmp x y);
  cmp_trans c x y z : cmp x y = c → cmp y z = c → cmp x z = c;
  cmp_eq_left x y z : cmp x y = Eq → cmp x z = cmp y z;
}.

Class EqOrdering {A} (cmp : A → A → comparison) : Prop := {
  eq_ordering :: Ordering cmp;
  cmp_eq x y : cmp x y = Eq → x = y;
}.

(** [a.then_with(|| b)] *)
Definition then_with (a b : comparison) : comparison :=
  match a with Eq => b | _ => a end.

Definition cmp_on {A B} (f : A → B) (cmp : B → B → comparison) (x y : A) : comparison :=
  cmp (f x) (f y).

Definition cmp_then {A} (c1 c2 : A → A → comparison) (x y : A) : comparison :=
  then_with (c1 x y) (c2 x y).

Fixpoint bytes_cmp (l k : bytes) : comparison :=
  match l, k with
  | [], [] => Eq
  | [], _ => Lt
  | _, [] => Gt
  | x :: l, y :: k => then_with (x ?= y) (bytes_cmp l k)
  end.

Definition is_lt (c : comparison) : bool := match c with Lt => true | _ => false end.
Definition is_le (c : comparison) : bool := match c with Gt => false | _ => true end.

Lemma cmp_refl `{Ordering A cmp} x : cmp x x = Eq.
Proof. pose proof (cmp_swap x x). by destruct (cmp x x). Qed.

Lemma cmp_eq_right `{Ordering A cmp} x y z : cmp y z = Eq → cmp x y = cmp x z.
Proof.
  intros E. rewrite (cmp_swap y x), (cmp_swap z x). by rewrite (cmp_eq_left y z x E).
Qed.

#[export] Instance Z_cmp_eq : EqOrdering Z.compare.
Proof.
  split; [split|]; intros *; rewrite ?Z.compare_eq_iff; [|destruct c|..]; try naive_solver.
  - by rewrite Z.compare_antisym.
  - rewrite ?Z.compare_eq_iff; congruence.
  - rewrite ?Z.compare_lt_iff; lia.
  - rewrite ?Z.compare_gt_iff; lia.
Qed.

#[export] Instance cmp_on_ordering {A B} (f : A → B) `{Ordering B cmp} : Ordering (cmp_on f cmp).
Proof.
  split; unfold cmp_on; intros *; [apply cmp_swap|apply cmp_trans|apply cmp_eq_left].
Qed.

#[export] Instance cmp_then_ordering {A} (c1 c2 : A → A → comparison)
  `{Ordering A c1, Ordering A c2} : Ordering (cmp_then c1 c2).
Proof.
  split; unfold cmp_then.
  - intros x y. rewrite (cmp_swap (cmp := c1) x y), (cmp_swap (cmp := c2) x y). by destruct (c1 x y).
  - intros c x y z. destruct (c1 x y) eqn:E1, (c1 y z) eqn:E2; simpl;
      rewrite ?(cmp_eq_left x y z E1), ?E2, <- ?(cmp_eq_right x y z E2), ?E1; simpl;
      try congruence; try apply cmp_trans;
      intros <-; rewrite (cmp_trans _ x y z E1 E2); done.
  - intros x y z. destruct (c1 x y) eqn:E1; simpl; [|done..]. intros E2.
    rewrite (cmp_eq_left x y z E1). by rewrite (cmp_eq_left x y z E2).
Qed.

#[export] Instance bytes_cmp_eq : EqOrdering bytes_cmp.
Proof.
  assert (∀ l k, bytes_cmp l k = Eq → l = k) as Heq.
  { induction l as [|x l IH]; intros [|y k]; simpl; try done.
    destruct (Z.compare_spec x y); simpl; try done. intros ?; f_equal; eauto. }
  split; [split|done].
  - induction x as [|x l IH]; intros [|y k]; simpl; try done.
    rewrite (cmp_swap (cmp := Z.compare) x y), IH. by destruct (x ?= y).
  - intros c x; revert c. induction x as [|x l IH]; intros c [|y k] [|z m]; simpl; try congruence.
    destruct (x ?= y) eqn:E1, (y ?= z) eqn:E2; simpl;
      rewrite ?(cmp_eq_left (cmp := Z.compare) x y z E1), ?E2,
        <- ?(cmp_eq_right (cmp := Z.compare) x y z E2), ?E1; simpl;
      try congruence; try apply IH;
      intros <-; rewrite (cmp_trans (cmp := Z.compare) _ x y z E1 E2); done.
  - intros x y z E. by rewrite (Heq _ _ E).
Qed.

(** [a <= b] and [a < b] of an ordering are [is_le (cmp a b)] and [is_lt (cmp a b)]. *)
Section order_lemmas.
Context `{Ordering A cmp}.

Lemma is_le_trans x y z : is_le (cmp x y) → is_le (cmp y z) → is_le (cmp x z).
Proof.
  destruct (cmp x y) eqn:E1, (cmp y z) eqn:E2; simpl; try done; intros _ _;
    rewrite ?(cmp_eq_left x y z E1), ?E2, <- ?(cmp_eq_right x y z E2), ?E1; try done.
  by rewrite (cmp_trans _ x y z E1 E2).
Qed.

Lemma is_le_total x y : is_le (cmp x y) ∨ is_le (cmp y x).
Proof. rewrite (cmp_swap x y). destruct (cmp x y); simpl; auto. Qed.

Lemma is_lt_irrefl x : is_lt (cmp x x) = false.
Proof. by rewrite cmp_refl. Qed.

Lemma is_lt_le x y : is_lt (cmp x y) → is_le (cmp x y).
Proof. by destruct (cmp x y). Qed.

Lemma is_lt_swap x y : is_lt (cmp x y) = negb (is_le (cmp y x)).
Proof. rewrite (cmp_swap x y). by destruct (cmp x y). Qed.

Lemma is_lt_le_trans x y z : is_lt (cmp x y) → is_le (cmp y z) → is_lt (cmp x z).
Proof.
  rewrite !is_lt_swap, !negb_True. intros Hxy Hyz Hzx. apply Hxy. by eapply is_le_trans.
Qed.

Lemma is_le_lt_trans x y z : is_le (cmp x y) → is_lt (cmp y z) → is_lt (cmp x z).
Proof.
  rewrite !is_lt_swap, !negb_True. intros Hxy Hyz Hzx. apply Hyz. by eapply is_le_trans.
Qed.
End order_lemmas.

(** ** Stable sorting: [slice::sort_by] and SQL's [ORDER BY] *)

Section sorting.
Context {A : Type} (cmp : A → A → comparison).

Fixpoint sort_insert (x : A) (l : list A) : list A :=
  match l with
  | [] => [x]
  | y :: l => if is_le (cmp x y) then x :: y :: l else y :: sort_insert x l
  end.

Definition sort_by (l : list A) : list A := foldr sort_insert [] l.

Definition sorted_by : list A → Prop := StronglySorted (λ x y, is_le (cmp x y)).

Lemma sort_insert_perm x l : sort_insert x l ≡ₚ x :: l.
Proof.
  induction l as [|y l IH]; simpl; [done|]. destruct (is_le _); [done|]. rewrite IH. constructor.
Qed.

Lemma sort_by_perm l : sort_by l ≡ₚ l.
Proof. induction l as [|x l IH]; simpl; [done|]. by rewrite sort_insert_perm, IH. Qed.

(** A map that keeps the sort keys commutes with sorting. *)
Lemma sort_by_map (g : A → A) l :
  (∀ x y, cmp (g x) (g y) = cmp x y) → sort_by (map g l) = map g (sort_by l).
Proof.
  intros Hg. induction l as [|x l IH]; simpl; [done|]. rewrite IH.
  generalize (sort_by l) as k. induction k as [|y k IHk]; simpl; [done|]. rewrite Hg.
  destruct (is_le (cmp x y)); simpl; [done|]. by rewrite IHk.
Qed.

Context `{!Ordering cmp}.

Lemma sort_insert_sorted x l : sorted_by l → sorted_by (sort_insert x l).
Proof.
  unfold sorted_by. induction 1 as [|y l Hl IH Hy]; simpl; [by repeat constructor|].
  destruct (is_le (cmp x y)) eqn:E.
  - constructor; [by constructor|]. constructor; [by rewrite E|].
    eapply Forall_impl; [exact Hy|]. intros z; simpl. apply is_le_trans. by rewrite E.
  - constructor; [done|]. rewrite sort_insert_perm. constructor; [|done].
    destruct (is_le_total x y) as [H|H]; [by rewrite E in H|done].
Qed.

Lemma sort_by_sorted l : sorted_by (sort_by l).
Proof. induction l; simpl; [constructor|]. by apply sort_insert_sorted. Qed.

(** [ORDER BY ... LIMIT 1] returns a minimum, and returns a row whenever there is one. *)
Lemma sort_by_head l x :
  head (sort_by l) = Some x → x ∈ l ∧ ∀ y, y ∈ l → is_le (cmp x y).
Proof.
  pose proof (sort_by_sorted l) as Hs. pose proof (sort_by_perm l) as Hp.
  destruct (sort_by l) as [|z k]; simpl; [done|]. intros [= <-].
  split; [rewrite <- Hp; left|]. intros y. rewrite <- Hp, elem_of_cons.
  inversion Hs as [|? ? _ Hall]; subst. rewrite Forall_forall in Hall.
  intros [->|?]; [by rewrite cmp_refl|]. by apply Hall.
Qed.

Lemma sort_by_head_None l : head (sort_by l) = None ↔ l = [].
Proof.
  pose proof (sort_by_perm l) as Hp. split; [|by intros ->].
  destruct (sort_by l); [|done]. intros _. by apply Permutation_nil.
Qed.
End sorting.

#[export] Hint Resolve is_le_trans is_lt_le : rhi.
