(* ===== verification/Sql.v ===== *)
(** * Tables, statements and transactions

    The SQL statements of [src/src/*.rs] run against SQLite tables whose
    constraints and triggers are declared in [src/src/state_catalog.rs].  This
    file gives the statements their meaning once, for every table of the model:

    - a table is the list of its rows, and a [Table] instance collects what the
      schema says of one table: the [CHECK]/[NOT NULL]/[STRICT] constraints
      ([row_check]), the [BEFORE UPDATE] triggers ([row_guard]) and the
      [PRIMARY KEY]/[UNIQUE] constraints ([row_conflict]);
    - [update_rows] is [UPDATE ... SET ... WHERE ...]: it changes every matching
      row in turn, fails as a whole when a row violates a constraint or a trigger
      aborts, and reports [rows_affected];
    - [insert_row] is [INSERT INTO ... VALUES ...];
    - [TransactionHost] is the interface of [radroots_service_sqlite]'s
      transaction runner, which is not part of the repository: an operation
      commits as a whole or leaves the state as it was. *)

From stdpp Require Import list.
From S2P Require Import Prelude.

Class Table (row : Type) : Type := {
  row_check : row → bool;
  row_guard : row → row → bool;
  row_conflict : row → row → bool;
}.

(** The constraint failure a statement reports; the callers map all of them to
    one error class. *)
Inductive sql_error : Type := ConstraintViolation.

(** SQL's three-valued logic: [None] is [NULL].  A [CHECK] constraint fails only
    when its condition is false, so a [NULL] condition passes. *)
Definition sql_and (a b : option bool) : option bool :=
  match a, b with
  | Some false, _ | _, Some false => Some false
  | Some true, Some true => Some true
  | _, _ => None
  end.
Definition sql_or (a b : option bool) : option bool :=
  match a, b with
  | Some true, _ | _, Some true => Some true
  | Some false, Some false => Some false
  | _, _ => None
  end.
Definition sql_between (lo hi : Z) (v : option Z) : option bool := between lo hi <$> v.
Definition is_null {A} (v : option A) : bool := match v with None => true | _ => false end.
Definition check_passes (c : option bool) : bool := negb (bool_decide (c = Some false)).

(** [col <= ?] and [col = ?] in a [WHERE] clause: [NULL] does not match. *)
Definition col_le (v : option Z) (x : Z) : bool := is_some_and (λ v, v <=? x) v.
Definition col_gt (v : option Z) (x : Z) : bool := is_some_and (λ v, x <? v) v.
Definition col_eq (v : option Z) (x : Z) : bool := is_some_and (λ v, v =? x) v.
Definition bytes_eqb (x y : bytes) : bool := bool_decide (x = y).
Definition col_blob_eq (v : option bytes) (x : bytes) : bool := is_some_and (λ v, bytes_eqb v x) v.

Lemma bytes_eqb_true x y : bytes_eqb x y = true ↔ x = y.
Proof. apply bool_decide_eq_true. Qed.

Lemma bytes_eqb_refl x : bytes_eqb x x = true.
Proof. by apply bytes_eqb_true. Qed.

Lemma bytes_eqb_sym x y : bytes_eqb x y = bytes_eqb y x.
Proof. apply bool_decide_ext. naive_solver. Qed.

Section table.
Context `{Table row}.

Definition row_admissible (others : list row) (r : row) : bool :=
  row_check r && forallb (λ o, negb (row_conflict r o)) others.

(** [before] holds the rows already visited, in order. *)
Fixpoint update_rows_from (before : list row) (p : row → bool) (f : row → row)
    (rows : list row) : result sql_error (list row * Z) :=
  match rows with
  | [] => Ok (before, 0)
  | r :: rows =>
      if p r then
        reject_if (negb (row_guard r (f r) && row_admissible (before ++ rows) (f r)))
          ConstraintViolation ;?
        let? (rows, affected) := update_rows_from (before ++ [f r]) p f rows in
        Ok (rows, affected + 1)
      else update_rows_from (before ++ [r]) p f rows
  end.

Definition update_rows (p : row → bool) (f : row → row) (rows : list row) :
    result sql_error (list row * Z) :=
  update_rows_from [] p f rows.

Definition insert_row (references : row → bool) (r : row) (rows : list row) :
    result sql_error (list row) :=
  reject_if (negb (references r && row_admissible rows r)) ConstraintViolation ;?
  Ok (rows ++ [r]).

(** Every row satisfies its constraints and no two rows conflict. *)
Fixpoint rows_ok (rows : list row) : bool :=
  match rows with
  | [] => true
  | r :: rows => row_admissible rows r && rows_ok rows
  end.

Definition apply_where (p : row → bool) (f : row → row) (r : row) : row :=
  if p r then f r else r.


Lemma update_rows_from_Ok before p f rows rows' n :
  update_rows_from before p f rows = Ok (rows', n) →
  rows' = before ++ map (apply_where p f) rows ∧
  n = Z.of_nat (length (List.filter p rows)) ∧
  Forall (λ r, p r = true → row_guard r (f r) = true ∧ row_check (f r) = true) rows.
Proof.
  revert before n; induction rows as [|r rows IH]; intros before n Hup; simpl in Hup.
  - inv_ok. by rewrite app_nil_r.
  - simpl. unfold apply_where at 1. destruct (p r) eqn:Hp.
    + inv_ok. destruct x0 as [rows1 n1]. inv_ok. to_prop. unfold row_admissible in *. to_prop.
      apply IH in H1 as (-> & -> & Hall). rewrite <- app_assoc; simpl.
      split_and!; [done|lia|]. by constructor.
    + apply IH in Hup as (-> & -> & Hall). rewrite <- app_assoc; simpl.
      split_and!; [done|done|]. constructor; [by rewrite Hp|done].
Qed.

Lemma update_rows_Ok p f rows rows' n :
  update_rows p f rows = Ok (rows', n) →
  rows' = map (apply_where p f) rows ∧ n = Z.of_nat (length (List.filter p rows)) ∧
  Forall (λ r, p r = true → row_guard r (f r) = true ∧ row_check (f r) = true) rows.
Proof. apply update_rows_from_Ok. Qed.

Lemma update_rows_none p f rows :
  Forall (λ r, p r = false) rows → update_rows p f rows = Ok (rows, 0).
Proof.
  unfold update_rows. intros Hall. rewrite <- (app_nil_l rows) at 2. generalize (@nil row).
  induction Hall as [|r rows Hr _ IH]; intros before; simpl; [by rewrite app_nil_r|].
  by rewrite Hr, IH, <- app_assoc.
Qed.

Lemma insert_row_Ok refs r rows rows' :
  insert_row refs r rows = Ok rows' →
  rows' = rows ++ [r] ∧ refs r = true ∧ row_admissible rows r = true.
Proof. unfold insert_row. intros. inv_ok. by to_prop. Qed.

Lemma insert_row_intro refs r rows :
  refs r = true → row_admissible rows r = true → insert_row refs r rows = Ok (rows ++ [r]).
Proof. unfold insert_row. by intros -> ->. Qed.

Lemma rows_ok_check rows r : rows_ok rows = true → r ∈ rows → row_check r = true.
Proof.
  induction rows as [|x rows IH]; simpl; [by intros _ ?%elem_of_nil|].
  unfold row_admissible. intros Hok. to_prop. intros [->|?]%elem_of_cons; eauto.
Qed.

Lemma rows_ok_unique rows r o :
  (∀ r o, row_conflict r o = row_conflict o r) →
  rows_ok rows = true → r ∈ rows → o ∈ rows → row_conflict r o = true → r = o.
Proof.
  intros Hsym. induction rows as [|x rows IH]; simpl; [by intros _ ?%elem_of_nil|].
  unfold row_admissible. intros Hok. to_prop. rewrite forallb_forall in H2.
  rewrite !elem_of_cons. intros [->|Hr] [->|Ho] Hc; [done|..|by apply IH].
  - apply list_elem_of_In in Ho. specialize (H2 _ Ho). by rewrite Hc in H2.
  - apply list_elem_of_In in Hr. specialize (H2 _ Hr). by rewrite Hsym, Hc in H2.
Qed.

(** A [WHERE] clause whose matches all conflict with each other selects at most one row. *)
Lemma filter_unique p rows :
  rows_ok rows = true →
  (∀ r o, p r = true → p o = true → row_conflict r o = true) →
  List.filter p rows = [] ∨ ∃ r, r ∈ rows ∧ p r = true ∧ List.filter p rows = [r].
Proof.
  intros Hok Hp. induction rows as [|x rows IH]; simpl in *; [by left|].
  unfold row_admissible in Hok. to_prop. rewrite forallb_forall in H2.
  destruct (p x) eqn:Hx.
  - right. exists x. split_and!; [by left|done|]. f_equal.
    destruct (IH H1) as [->|(r & Hr & Hpr & _)]; [done|].
    apply list_elem_of_In in Hr. specialize (H2 _ Hr). by rewrite Hp in H2.
  - destruct (IH H1) as [->|(r & Hr & Hpr & ->)]; [by left|].
    right. exists r. split_and!; [by right|done|done].
Qed.

(** Uniqueness constraints compare two rows, so they are symmetric. *)
Context (row_conflict_sym : ∀ r o, row_conflict r o = row_conflict o r).

Lemma rows_ok_middle l1 r l2 :
  rows_ok (l1 ++ r :: l2) = row_admissible (l1 ++ l2) r && rows_ok (l1 ++ l2).
Proof.
  induction l1 as [|x l1 IH]; simpl; [done|]. rewrite IH. unfold row_admissible; simpl.
  rewrite !forallb_app; simpl. rewrite (row_conflict_sym x r).
  destruct (row_check x), (row_check r), (negb (row_conflict r x)); simpl;
    rewrite ?andb_false_r; try done.
  all: destruct (forallb _ l1), (forallb _ l2), (forallb _ l1), (forallb _ l2); simpl;
    rewrite ?andb_false_r; done.
Qed.

Lemma update_rows_from_rows_ok before p f rows rows' n :
  rows_ok (before ++ rows) = true →
  update_rows_from before p f rows = Ok (rows', n) → rows_ok rows' = true.
Proof.
  revert before n; induction rows as [|r rows IH]; intros before n Hok Hup; simpl in Hup.
  - inv_ok. by rewrite app_nil_r in Hok.
  - rewrite rows_ok_middle in Hok. to_prop. destruct (p r).
    + inv_ok. destruct x0 as [rows1 n1]. inv_ok. to_prop.
      eapply IH; [|done]. rewrite <- app_assoc; simpl. rewrite rows_ok_middle.
      by apply andb_true_iff.
    + eapply IH; [|done]. rewrite <- app_assoc; simpl. rewrite rows_ok_middle.
      by apply andb_true_iff.
Qed.

(** A statement that succeeds leaves a well-formed table well-formed. *)
Lemma update_rows_ok p f rows rows' n :
  rows_ok rows = true → update_rows p f rows = Ok (rows', n) → rows_ok rows' = true.
Proof. apply (update_rows_from_rows_ok []). Qed.

Lemma insert_row_ok refs r rows rows' :
  rows_ok rows = true → insert_row refs r rows = Ok rows' → rows_ok rows' = true.
Proof.
  intros Hok (-> & _ & Hadm)%insert_row_Ok. rewrite rows_ok_middle, app_nil_r.
  by apply andb_true_iff.
Qed.

(** An update that meets every row constraint and takes no new unique key succeeds. *)
Lemma update_rows_intro p f rows :
  rows_ok rows = true →
  (∀ r, r ∈ rows → p r = true → row_guard r (f r) = true ∧ row_check (f r) = true) →
  (∀ r o, p r = true → row_conflict (f r) o = true → row_conflict r o = true) →
  update_rows p f rows = Ok (map (apply_where p f) rows, Z.of_nat (length (List.filter p rows))).
Proof.
  unfold update_rows. rewrite <- (app_nil_l (map _ _)).
  intros Hok. rewrite <- (app_nil_l rows) in Hok. revert Hok. generalize (@nil row).
  induction rows as [|r rows IH]; intros before Hok Hrow Hconf; simpl; [by rewrite app_nil_r|].
  rewrite rows_ok_middle in Hok. to_prop. unfold apply_where at 1.
  assert (∀ r, r ∈ rows → p r = true → row_guard r (f r) = true ∧ row_check (f r) = true)
    as Hrow' by (intros; apply Hrow; [by right|done]).
  destruct (p r) eqn:Hp; simpl.
  - destruct (Hrow r) as [Hg Hc]; [by left|done|].
    assert (row_admissible (before ++ rows) (f r) = true) as Hadm.
    { unfold row_admissible in *. to_prop. rewrite Hc; simpl.
      rewrite forallb_forall in *. intros o Ho. specialize (H2 o Ho).
      destruct (row_conflict (f r) o) eqn:E; [|done]. by rewrite (Hconf r o) in H2. }
    rewrite Hg, Hadm; simpl. rewrite IH; [|rewrite <- app_assoc; simpl; rewrite rows_ok_middle;
      by apply andb_true_iff|done|done]. simpl. rewrite <- app_assoc; simpl. do 2 f_equal. lia.
  - rewrite IH; [by rewrite <- app_assoc| |done|done].
    rewrite <- app_assoc; simpl; rewrite rows_ok_middle. by apply andb_true_iff.
Qed.

(** *** Compare and swap on the one row a key selects *)

Lemma find_map_where k p f rows :
  (∀ r, p r = true → k (f r) = k r) →
  List.find k (map (apply_where p f) rows) = apply_where p f <$> List.find k rows.
Proof.
  intros Hk. induction rows as [|r rows IH]; simpl; [done|].
  assert (k (apply_where p f r) = k r) as ->.
  { unfold apply_where. destruct (p r) eqn:Hp; auto. }
  by destruct (k r).
Qed.

Lemma swap_row_Ok k p f rows rows' :
  rows_ok rows = true → update_rows p f rows = Ok (rows', 1) →
  (∀ r o, k r = true → k o = true → row_conflict r o = true) →
  (∀ r, p r = true → k r = true ∧ k (f r) = true) →
  ∃ r, List.find k rows = Some r ∧ r ∈ rows ∧ p r = true ∧ row_guard r (f r) = true ∧
    row_check (f r) = true ∧ rows_ok rows' = true ∧ List.find k rows' = Some (f r) ∧
    ∀ k', (∀ x, k x = true → k' x = false) → List.find k' rows' = List.find k' rows.
Proof.
  intros Hok Hup Hk Hp. pose proof (update_rows_ok _ _ _ _ _ Hok Hup) as Hok'.
  apply update_rows_Ok in Hup as (-> & Hn & Hall).
  assert (∃ r, r ∈ rows ∧ p r = true) as (r & Hr & Hpr).
  { destruct (List.filter p rows) as [|r l] eqn:E; simpl in Hn; [lia|]. exists r.
    assert (In r (List.filter p rows)) as Hin by (rewrite E; by left).
    apply filter_In in Hin as [? ?]. by rewrite list_elem_of_In. }
  assert (List.find k rows = Some r) as Hf.
  { destruct (List.find k rows) as [o|] eqn:Hf.
    - apply find_some in Hf as [Ho Hko]. f_equal. symmetry.
      apply (rows_ok_unique rows r o row_conflict_sym Hok Hr); [by apply list_elem_of_In|].
      apply Hk; [by apply Hp|done].
    - apply list_elem_of_In in Hr. pose proof (find_none _ _ Hf _ Hr) as Hkr.
      by rewrite (proj1 (Hp r Hpr)) in Hkr. }
  rewrite List.Forall_forall in Hall.
  destruct (Hall r (proj1 (list_elem_of_In _ _) Hr) Hpr) as [Hg Hc].
  exists r. split_and!; try done.
  - rewrite find_map_where, Hf; simpl; [unfold apply_where; by rewrite Hpr|].
    intros x Hx. destruct (Hp x Hx) as [-> ->]. done.
  - intros k' Hk'. rewrite find_map_where.
    + destruct (List.find k' rows) as [o|] eqn:Ho; simpl; [|done]. unfold apply_where.
      destruct (p o) eqn:Hpo; [|done]. apply find_some in Ho as [_ Ho].
      by rewrite (Hk' o) in Ho by apply (Hp o Hpo).
    + intros x Hx. destruct (Hp x Hx) as [H1 H2]. by rewrite !Hk'.
Qed.

Lemma insert_row_find refs r rows rows' :
  rows_ok rows = true → insert_row refs r rows = Ok rows' →
  row_check r = true ∧ rows_ok rows' = true ∧
  (∀ k, List.find k rows = None → k r = true → List.find k rows' = Some r) ∧
  (∀ k, k r = false → List.find k rows' = List.find k rows).
Proof.
  intros Hok Hi. pose proof (insert_row_ok _ _ _ _ Hok Hi) as Hok'.
  apply insert_row_Ok in Hi as (-> & _ & Hadm). unfold row_admissible in Hadm. to_prop.
  assert (∀ k, List.find k (rows ++ [r]) =
    match List.find k rows with Some x => Some x | None => if k r then Some r else None end) as Hf.
  { intros k. clear. induction rows as [|x rows IH]; simpl; [done|]. by destruct (k x). }
  split_and!; try done; intros k Hk; rewrite Hf.
  - rewrite Hk. by intros ->.
  - rewrite Hk. by destruct (List.find k rows).
Qed.
End table.

(** ** The rows of an update, one by one *)

(** Exactly the rows of which [P] holds become [f] of themselves. *)
Definition rewrites {row} (P : row → Prop) (f : row → row) : list row → list row → Prop :=
  Forall2 (λ r r', (P r → r' = f r) ∧ (¬ P r → r' = r)).

Lemma apply_rewrites {row} (P : row → Prop) (p : row → bool) f rows :
  (∀ r, r ∈ rows → p r = true ↔ P r) → rewrites P f rows (map (apply_where p f) rows).
Proof.
  intros Hp. apply Forall2_fmap_r, Forall_Forall2_diag, list.Forall_forall. intros r Hr.
  unfold apply_where. split; intros HP; [by rewrite (proj2 (Hp r Hr) HP)|].
  destruct (p r) eqn:E; [by destruct HP; apply Hp|done].
Qed.

Lemma rewrites_after {row} (P : row → Prop) f rows rows' :
  rewrites P f rows rows' → ∀ r, r ∈ rows → ∃ r', r' ∈ rows' ∧ (P r → r' = f r) ∧ (¬ P r → r' = r).
Proof.
  intros Hall r Hr. destruct (list_elem_of_lookup_1 _ _ Hr) as [i Hi].
  destruct (Forall2_lookup_l _ _ _ _ _ Hall Hi) as (r' & Hi' & Hr'). exists r'. split; [|done].
  by eapply list_elem_of_lookup_2.
Qed.

Lemma rewrites_before {row} (P : row → Prop) f rows rows' :
  rewrites P f rows rows' → ∀ r', r' ∈ rows' → ∃ r, r ∈ rows ∧ (P r → r' = f r) ∧ (¬ P r → r' = r).
Proof.
  intros Hall r' Hr'. destruct (list_elem_of_lookup_1 _ _ Hr') as [i Hi].
  destruct (Forall2_lookup_r _ _ _ _ _ Hall Hi) as (r & Hi' & Hr). exists r. split; [|done].
  by eapply list_elem_of_lookup_2.
Qed.

#[global] Arguments apply_where : simpl never.

(** *** Point lookups by key *)

Section find_by_key.
Context {row key : Type} (k : row → key) (eqb : key → key → bool).

Definition find_by (i : key) (rows : list row) : option row :=
  List.find (λ r, eqb (k r) i) rows.

Lemma find_by_apply p f i rows :
  (∀ r, p r = true → k (f r) = k r) →
  find_by i (map (apply_where p f) rows) = apply_where p f <$> find_by i rows.
Proof.
  intros Hk. unfold find_by. induction rows as [|r rows IH]; simpl; [done|].
  assert (k (apply_where p f r) = k r) as ->.
  { unfold apply_where. destruct (p r) eqn:Hp; auto. }
  by destruct (eqb (k r) i).
Qed.

Lemma find_by_app i l1 l2 :
  find_by i (l1 ++ l2) = match find_by i l1 with Some r => Some r | None => find_by i l2 end.
Proof. unfold find_by. induction l1 as [|r l1 IH]; simpl; [done|]. by destruct (eqb (k r) i). Qed.

Lemma find_by_elem i rows r : find_by i rows = Some r → r ∈ rows ∧ eqb (k r) i = true.
Proof. unfold find_by. intros [? ?]%find_some. by rewrite list_elem_of_In. Qed.

Lemma find_by_None i rows r : find_by i rows = None → r ∈ rows → eqb (k r) i = false.
Proof. unfold find_by. rewrite list_elem_of_In. intros Hn Hin. exact (find_none _ _ Hn _ Hin). Qed.
End find_by_key.

(** *** Transactions *)

Record tx_error (E : Type) : Type := TxError {
  commit_outcome_unknown : bool;
  operation_error : option E;
}.
Arguments TxError {E} _ _.
Arguments commit_outcome_unknown {E} _.
Arguments operation_error {E} _.

(** [ServiceSqliteHost::transaction]: runs an operation on the state. *)
Class TransactionHost (DB : Type) : Type := {
  transaction {E A} : (DB → result E (A * DB)) → DB → result (tx_error E) A * DB;
}.

Class TransactionLaws (DB : Type) `{TransactionHost DB} : Prop := {
  tx_committed {E A} (op : DB → result E (A * DB)) db a db' :
    transaction op db = (Ok a, db') → op db = Ok (a, db');
  tx_unknown {E A} (op : DB → result E (A * DB)) db (e : tx_error E) db' :
    transaction op db = (Err e, db') → commit_outcome_unknown e = true →
    ∃ a db1, op db = Ok (a, db1) ∧ (db' = db ∨ db' = db1);
  tx_rolled_back {E A} (op : DB → result E (A * DB)) db (e : tx_error E) db' :
    transaction op db = (Err e, db') → commit_outcome_unknown e = false →
    db' = db ∧ ∀ oe, operation_error e = Some oe → op db = Err oe;
}.

(** A host that always commits a successful operation: the laws are satisfiable. *)
Definition reliable_transaction {DB E A} (op : DB → result E (A * DB)) (db : DB) :
    result (tx_error E) A * DB :=
  match op db with
  | Ok (a, db') => (Ok a, db')
  | Err e => (Err (TxError false (Some e)), db)
  end.

Definition reliable_host (DB : Type) : TransactionHost DB :=
  {| transaction := λ E A, reliable_transaction |}.

Lemma reliable_host_laws (DB : Type) : @TransactionLaws DB (reliable_host DB).
Proof.
  split; unfold transaction, reliable_host, reliable_transaction; intros E A op db *;
    destruct (op db) as [[? ?]|?]; naive_solver.
Qed.

(** A host that loses the answer of every successful commit: the operation took
    effect, and the caller is told that the outcome is unknown. *)
Definition doubtful_transaction {DB E A} (op : DB → result E (A * DB)) (db : DB) :
    result (tx_error E) A * DB :=
  match op db with
  | Ok (_, db') => (Err (TxError true None), db')
  | Err e => (Err (TxError false (Some e)), db)
  end.

Definition doubtful_host (DB : Type) : TransactionHost DB :=
  {| transaction := λ E A, doubtful_transaction |}.

Lemma doubtful_host_laws (DB : Type) : @TransactionLaws DB (doubtful_host DB).
Proof.
  split; unfold transaction, doubtful_host, doubtful_transaction; intros E A op db *;
    destruct (op db) as [[? ?]|?]; naive_solver.
Qed.
