(* ===== verification/Interfaces.v ===== *)
(** * Interfaces of the crates the source only calls

    [sha2] (message digests) and [serde_json] (the normalized configuration
    document) are not part of the repository.  Each appears as a class of the
    operations the source uses with the documented laws it relies on, and with
    one concrete instance showing that the laws can hold. *)

From Stdlib Require Import Ascii.
From stdpp Require Import list strings.
From S2P Require Import Prelude.

(** ** [sha2::Sha256] *)

(** [Sha256::new()], a chain of [update]s and [finalize]: the digest of the
    concatenation of the updates. *)
Class Sha256 : Type := sha256 : bytes → bytes.

(** [finalize] returns 32 bytes. *)
Class Sha256Laws `{Sha256} : Prop := sha256_length : ∀ l, length (sha256 l) = 32%nat.

(** Two different messages with one digest. *)
Definition sha256_collision `{Sha256} : Prop := ∃ x y, x ≠ y ∧ sha256 x = sha256 y.

(** A polynomial checksum in the digest's output format, for evaluation. *)
Definition checksum_mask : Z := Eval vm_compute in Z.ones 256.
Definition checksum : Sha256 :=
  λ l, to_be_bytes 32 (fold_left (λ acc b, Z.land (acc * 257 + b + 1) checksum_mask) l 0).

Lemma checksum_laws : @Sha256Laws checksum.
Proof. intros l. apply length_to_be_bytes. Qed.

Lemma sha256_inj_or_collision `{Sha256} x y : sha256 x = sha256 y → x = y ∨ sha256_collision.
Proof.
  intros Heq. destruct (decide (x = y)) as [|Hne]; [by left|]. right. by exists x, y.
Qed.

(** ** [serde_json::Value] *)

Class JsonValue (V : Type) : Type := {
  pointer : V → string → option V;
  as_u64 : V → option Z;
  as_str : V → option string;
  as_bool : V → option bool;
  as_array : V → option (list V);
}.

(** [as_u64] returns a [u64]. *)
Class JsonLaws (V : Type) `{JsonValue V} : Prop :=
  as_u64_range v n : as_u64 v = Some n → 0 ≤ n ≤ U64_MAX.

(** A value tree: an object holds its members under their pointer tokens. *)
Inductive json : Type :=
| JNull
| JNumber (n : Z)
| JString (s : string)
| JBool (b : bool)
| JArray (l : list json)
| JObject (members : list (string * json)).

Fixpoint member (key : string) (members : list (string * json)) : option json :=
  match members with
  | [] => None
  | (k, v) :: members => if String.eqb k key then Some v else member key members
  end.

Fixpoint token (s : string) : string * string :=
  match s with
  | EmptyString => (EmptyString, EmptyString)
  | String "/"%char _ => (EmptyString, s)
  | String c s => let '(t, rest) := token s in (String c t, rest)
  end.

(** Resolves ["/a/b"] one token at a time; [fuel] bounds the number of tokens. *)
Fixpoint json_pointer (fuel : nat) (v : json) (p : string) : option json :=
  match p, fuel with
  | EmptyString, _ => Some v
  | String "/"%char p, S fuel =>
      let '(t, rest) := token p in
      match v with
      | JObject members =>
          match member t members with Some v => json_pointer fuel v rest | None => None end
      | _ => None
      end
  | _, _ => None
  end.

Definition json_value : JsonValue json := {|
  pointer := λ v p, json_pointer (String.length p) v p;
  as_u64 := λ v, match v with JNumber n => try_from U64_MAX n | _ => None end;
  as_str := λ v, match v with JString s => Some s | _ => None end;
  as_bool := λ v, match v with JBool b => Some b | _ => None end;
  as_array := λ v, match v with JArray l => Some l | _ => None end;
|}.

Lemma json_laws : @JsonLaws json json_value.
Proof. intros [|m| | | |] n; simpl; try done. intros (-> & ?)%try_from_Some. lia. Qed.

(** The values the [json!] macro builds and [serde_json::to_vec]. *)
Class JsonWriter (V : Type) : Type := {
  json_object : list (string * V) → V;
  json_array : list V → V;
  json_string : string → V;
  json_u64 : Z → V;
  json_bool : bool → V;
  to_vec : V → option bytes;
}.

(** Decimal digits, least significant last; [fuel] bounds their number. *)
Fixpoint decimal (fuel : nat) (n : Z) (acc : bytes) : bytes :=
  match fuel with
  | O => acc
  | S fuel =>
      let acc := 48 + n mod 10 :: acc in
      if n <? 10 then acc else decimal fuel (n / 10) acc
  end.

(** A writer for the value tree, without string escapes. *)
Fixpoint write_json (v : json) : bytes :=
  let quoted s := [34] ++ as_bytes s ++ [34] in
  match v with
  | JNull => as_bytes "null"
  | JNumber n => decimal 20 n []
  | JString s => quoted s
  | JBool b => as_bytes (if b then "true" else "false")
  | JArray l =>
      as_bytes "[" ++
      (fix items (first : bool) (l : list json) : bytes :=
         match l with
         | [] => []
         | v :: l => (if first then [] else as_bytes ",") ++ write_json v ++ items false l
         end) true l ++ as_bytes "]"
  | JObject members =>
      as_bytes "{" ++
      (fix fields (first : bool) (l : list (string * json)) : bytes :=
         match l with
         | [] => []
         | (k, v) :: l =>
             (if first then [] else as_bytes ",") ++ quoted k ++ as_bytes ":" ++ write_json v
             ++ fields false l
         end) true members ++ as_bytes "}"
  end.

Definition json_writer : JsonWriter json := {|
  json_object := JObject;
  json_array := JArray;
  json_string := JString;
  json_u64 := JNumber;
  json_bool := JBool;
  to_vec := λ v, Some (write_json v);
|}.
