(* ===== verification/RuntimeAdapters.v ===== *)
(** * Injected time and entropy: [src/src/runtime_adapters.rs]

    The wall clock and the entropy source are injected capabilities, so they are
    classes here ([WallClock], [EntropySource]) with what their documentation
    promises as laws.  The file models the two computations the repository makes
    with them: the millisecond clock reading and the full-jitter sampler, whose
    multiply-high rejection sampling is proved exact on 64-bit words. *)

From Stdlib Require Import ZArith Lia.
From stdpp Require Import list strings.
From S2P Require Import Prelude.
From S2P Require Import Interfaces.

(** ** The injected capabilities *)

(** [WallClock::now_utc]: whole UTC seconds, or an unavailable clock. *)
Class WallClock (W : Type) : Type := wall_now_utc : W → option Z * W.

(** [EntropySource::fill_bytes] on a buffer of [n] bytes. *)
Class EntropySource (W : Type) : Type := fill_bytes : nat → W → option bytes * W.

(** [UnixTimeSeconds] is a [u64]. *)
Class WallClockLaws (W : Type) `{WallClock W} : Prop :=
  wall_range s v s' : wall_now_utc s = (Some v, s') → 0 ≤ v ≤ U64_MAX.

(** A filled buffer holds [n] bytes. *)
Class EntropyLaws (W : Type) `{EntropySource W} : Prop :=
  entropy_bytes n s b s' : fill_bytes n s = (Some b, s') → length b = n ∧ Forall (λ x, 0 ≤ x ≤ 255) b.

(** A scripted environment: clock readings and 64-bit entropy words in order. *)
Record scripted : Type := Scripted { readings : list Z; words : list Z }.

#[export] Instance scripted_clock : WallClock scripted :=
  λ s, match readings s with
       | v :: l => (try_from U64_MAX v, Scripted l (words s))
       | [] => (None, s)
       end.

#[export] Instance scripted_entropy : EntropySource scripted :=
  λ n s, match words s with
         | w :: l => (Some (to_be_bytes n w), Scripted (readings s) l)
         | [] => (None, s)
         end.

Module Adapters.

Definition RHI_RUNTIME_JITTER_MAX_MILLISECONDS : Z := 3600000.
Definition RHI_RUNTIME_JITTER_MAX_ENTROPY_DRAWS : nat := 16.

Inductive RhiRuntimeAdapterErrorKind : Type :=
| InvalidJitterBound | EntropyUnavailable | WallClockUnavailable | MonotonicDeadlineInvalid
| CredentialAccess | IdentityAccess.

Definition jitter_bound_new (milliseconds : Z) : result RhiRuntimeAdapterErrorKind Z :=
  if RHI_RUNTIME_JITTER_MAX_MILLISECONDS <? milliseconds then Err InvalidJitterBound
  else Ok milliseconds.

Definition now_utc `{WallClock W} (s : W) : result RhiRuntimeAdapterErrorKind Z * W :=
  let '(v, s) := wall_now_utc s in (ok_or v WallClockUnavailable, s).

Definition now_utc_milliseconds `{WallClock W} (s : W) :
    result RhiRuntimeAdapterErrorKind Z * W :=
  let '(now, s) := now_utc s in
  (let? now := now in
   ok_or (filter_opt (λ v, v <=? I64_MAX) (u64_checked_mul now 1000)) WallClockUnavailable, s).

(** One draw: [None] rejects it.  [product] is a [u128]. *)
Definition jitter_of_draw (range draw : Z) : option Z :=
  let rejection_threshold := ((2 ^ 64 - range) mod 2 ^ 64) mod range in
  let product := draw * range in
  let low := Z.land product U64_MAX in
  if rejection_threshold <=? low then Some (Z.shiftr product 64) else None.

Fixpoint jitter_loop `{EntropySource W} (draws : nat) (range : Z) (s : W) :
    result RhiRuntimeAdapterErrorKind Z * W :=
  match draws with
  | O => (Err EntropyUnavailable, s)
  | S draws =>
      match fill_bytes 8 s with
      | (None, s) => (Err EntropyUnavailable, s)
      | (Some b, s) =>
          match jitter_of_draw range (of_be_bytes 0 b) with
          | Some sampled => (Ok sampled, s)
          | None => jitter_loop draws range s
          end
      end
  end.

Definition sample_full_jitter `{EntropySource W} (maximum : Z) (s : W) :
    result RhiRuntimeAdapterErrorKind Z * W :=
  jitter_loop RHI_RUNTIME_JITTER_MAX_ENTROPY_DRAWS (maximum + 1) s.

(** ** Lemmas *)

Lemma wrapping_neg_mod range :
  1 ≤ range ≤ U64_MAX → ((2 ^ 64 - range) mod 2 ^ 64) mod range = 2 ^ 64 mod range.
Proof.
  intros Hr. unfold_max. rewrite (Z.mod_small (2 ^ 64 - range)) by lia.
  replace (2 ^ 64 - range) with (2 ^ 64 + (-1) * range) by lia. apply Z_mod_plus_full.
Qed.

Lemma jitter_of_draw_eq range draw :
  1 ≤ range ≤ U64_MAX →
  jitter_of_draw range draw =
    if 2 ^ 64 mod range <=? (draw * range) mod 2 ^ 64
    then Some (draw * range / 2 ^ 64) else None.
Proof.
  intros Hr. unfold jitter_of_draw. rewrite wrapping_neg_mod by done.
  change U64_MAX with (Z.ones 64). rewrite Z.land_ones, Z.shiftr_div_pow2 by lia. done.
Qed.

(** The draws accepted with result [v] form one interval of [2^64 / range] words. *)
Lemma jitter_of_draw_interval range v :
  1 ≤ range ≤ U64_MAX → 0 ≤ v < range →
  ∃ lo, 0 ≤ lo ∧ lo + 2 ^ 64 / range ≤ 2 ^ 64 ∧
    ∀ draw, jitter_of_draw range draw = Some v ↔ lo ≤ draw < lo + 2 ^ 64 / range.
Proof.
  intros Hr Hv. set (M := 2 ^ 64). set (k := M / range). set (t := M mod range).
  assert (HM : M = range * k + t) by (apply Z.div_mod; lia).
  assert (Ht : 0 ≤ t < range) by (apply Z.mod_pos_bound; lia).
  assert (HMp : 0 < M) by (unfold M; lia).
  (* the least draw whose product reaches [v * M + t] *)
  set (lo := (v * M + t + range - 1) / range).
  pose proof (Z.div_mod (v * M + t + range - 1) range ltac:(lia)) as Hlo. fold lo in Hlo.
  pose proof (Z.mod_pos_bound (v * M + t + range - 1) range ltac:(lia)) as Hlob.
  assert (0 ≤ k) by (apply Z.div_pos; lia).
  assert (∀ d, lo ≤ d < lo + k ↔ v * M + t ≤ d * range < (v + 1) * M) as Hint.
  { intros d. split; intros Hd; split; nia. }
  exists lo. split_and!.
  - apply Z.div_pos; nia.
  - assert (v * M + M ≤ range * M) by nia.
    destruct (Z_le_gt_dec (lo + k) M); [done|].
    assert (k = 0 ∨ 0 < k) as [Hk|Hk] by lia; [nia|].
    pose proof (proj1 (Hint (lo + k - 1)) ltac:(lia)). nia.
  - intros d. rewrite Hint, jitter_of_draw_eq by done. fold M t.
    pose proof (Z.div_mod (d * range) M ltac:(lia)) as Hd.
    pose proof (Z.mod_pos_bound (d * range) M HMp) as Hm.
    destruct (Z.leb_spec t ((d * range) mod M)); split; try done.
    + intros [= Hq]. rewrite Hq in Hd. nia.
    + intros Hd'. f_equal. symmetry. apply (Z.div_unique_pos _ _ _ (d * range - v * M)); lia.
    + intros Hd'. assert (d * range / M = v) as Hq; [|rewrite Hq in Hd; lia].
      symmetry. apply (Z.div_unique_pos _ _ _ (d * range - v * M)); lia.
Qed.

Lemma jitter_of_draw_range range draw v :
  1 ≤ range ≤ U64_MAX → 0 ≤ draw < 2 ^ 64 → jitter_of_draw range draw = Some v → 0 ≤ v < range.
Proof.
  intros Hr Hd. rewrite jitter_of_draw_eq by done. destruct (_ <=? _); [|done]. intros [= <-].
  split; [apply Z.div_pos; lia|]. apply Z.div_lt_upper_bound; nia.
Qed.

Lemma of_be_bytes_range acc b :
  Forall (λ x, 0 ≤ x ≤ 255) b → 0 ≤ acc →
  acc * 256 ^ Z.of_nat (length b) ≤ of_be_bytes acc b < (acc + 1) * 256 ^ Z.of_nat (length b).
Proof.
  intros Hb; revert acc; induction Hb as [|x b Hx Hb IH]; intros acc Hacc; simpl; [lia|].
  specialize (IH (acc * 256 + x) ltac:(lia)).
  rewrite Nat2Z.inj_succ, Z.pow_succ_r by lia.
  pose proof (Z.pow_pos_nonneg 256 (Z.of_nat (length b)) ltac:(lia) ltac:(lia)). nia.
Qed.

Lemma of_be_bytes_word b :
  length b = 8%nat → Forall (λ x, 0 ≤ x ≤ 255) b → 0 ≤ of_be_bytes 0 b < 2 ^ 64.
Proof.
  intros Hlen Hb. pose proof (of_be_bytes_range 0 b Hb ltac:(lia)) as H. rewrite Hlen in H.
  change (2 ^ 64) with (256 ^ 8). lia.
Qed.

Lemma jitter_loop_Ok `{EntropyLaws W} draws range s v s' :
  1 ≤ range ≤ U64_MAX → jitter_loop draws range s = (Ok v, s') → 0 ≤ v < range.
Proof.
  intros Hr. revert s; induction draws as [|draws IH]; intros s; simpl; [done|].
  destruct (fill_bytes 8 s) as [[b|] s1] eqn:Hf; [|done].
  apply (entropy_bytes (W := W)) in Hf as [Hlen Hb].
  destruct (jitter_of_draw _ _) as [w|] eqn:Hw; [|by apply IH].
  intros [= <- _]. eapply jitter_of_draw_range; [done| |done]. by apply of_be_bytes_word.
Qed.

Lemma sample_full_jitter_Ok `{EntropyLaws W} maximum s v s' :
  0 ≤ maximum ≤ RHI_RUNTIME_JITTER_MAX_MILLISECONDS →
  sample_full_jitter maximum s = (Ok v, s') → 0 ≤ v ≤ maximum.
Proof.
  unfold RHI_RUNTIME_JITTER_MAX_MILLISECONDS. intros Hm Hs%jitter_loop_Ok; [lia|unfold_max; lia].
Qed.

(** ** Theorems *)

(** Full jitter is unbiased: for an admitted bound, every delay
    [0..=maximum] is produced by exactly [floor (2^64 / (maximum + 1))] of the
    64-bit entropy words (they form one interval), and every other word is
    rejected, so no delay is more likely than another. *)
Theorem full_jitter_is_unbiased (maximum bound : Z) :
  0 ≤ maximum → jitter_bound_new maximum = Ok bound →
  (∀ v, 0 ≤ v ≤ maximum →
     ∃ lo, 0 ≤ lo ∧ lo + 2 ^ 64 / (bound + 1) ≤ 2 ^ 64 ∧
       ∀ draw, jitter_of_draw (bound + 1) draw = Some v ↔ lo ≤ draw < lo + 2 ^ 64 / (bound + 1)) ∧
  (∀ draw v, 0 ≤ draw < 2 ^ 64 → jitter_of_draw (bound + 1) draw = Some v → 0 ≤ v ≤ maximum).
Proof.
  unfold jitter_bound_new, RHI_RUNTIME_JITTER_MAX_MILLISECONDS.
  intros Hm Hb. destruct (Z.ltb_spec 3600000 maximum); [done|]. injection Hb as <-.
  assert (1 ≤ maximum + 1 ≤ U64_MAX) by (unfold_max; lia).
  split.
  - intros v Hv. apply jitter_of_draw_interval; lia.
  - intros draw v Hd Hv. apply jitter_of_draw_range in Hv; lia.
Qed.

Lemma full_jitter_is_unbiased_witness :
  0 ≤ 249 ∧ jitter_bound_new 249 = Ok 249 ∧
  jitter_of_draw (249 + 1) (2 ^ 63 + 1) = Some 125 ∧
  (∃ lo, 0 ≤ lo ∧ lo + 2 ^ 64 / (249 + 1) ≤ 2 ^ 64 ∧
    ∀ draw, jitter_of_draw (249 + 1) draw = Some 7 ↔ lo ≤ draw < lo + 2 ^ 64 / (249 + 1)).
Proof.
  split_and!; [lia|reflexivity|vm_compute; reflexivity|].
  exact (proj1 (full_jitter_is_unbiased 249 249 ltac:(lia) eq_refl) 7 ltac:(lia)).
Defined.

(** Draws made by the loop, for the bound on entropy use. *)
Lemma jitter_loop_draws draws range (s : scripted) r s' :
  jitter_loop draws range s = (r, s') →
  ∃ used, words s = used ++ words s' ∧ (length used ≤ draws)%nat ∧ readings s' = readings s ∧
    (∀ v, r = Ok v → ∃ w rejected, used = rejected ++ [w] ∧
       jitter_of_draw range (w mod 2 ^ 64) = Some v ∧
       Forall (λ w, jitter_of_draw range (w mod 2 ^ 64) = None) rejected) ∧
    (r = Err EntropyUnavailable ∨ ∃ v, r = Ok v) ∧
    (r = Err EntropyUnavailable → words s' = [] ∨ length used = draws).
Proof.
  assert (Hword : ∀ w, of_be_bytes 0 (to_be_bytes 8 w) = w mod 2 ^ 64).
  { intros w. by rewrite of_be_bytes_to_be_bytes. }
  revert s; induction draws as [|draws IH]; intros s; simpl.
  - intros [= <- <-]. exists []. split_and!; try done; [by left|by right].
  - unfold fill_bytes, scripted_entropy. destruct (words s) as [|w ws] eqn:Hws.
    + intros [= <- <-]. exists []. rewrite Hws. split_and!; simpl; try done; [lia|by left|by left].
    + rewrite Hword. destruct (jitter_of_draw range (w mod 2 ^ 64)) as [v|] eqn:Hv.
      * intros [= <- <-]. exists [w]. split_and!; simpl; try done; [lia| |by right; eauto].
        intros ? [= <-]. exists w, []. by split_and!.
      * intros (used & Hw & Hlen & Hr & Hok & Hor & Herr)%IH; simpl in *. exists (w :: used).
        split_and!; simpl; [by rewrite Hw|lia|done| |done|intros He; destruct (Herr He); [by left|right; lia]].
        intros v' Hv'. destruct (Hok v' Hv') as (w' & rej & -> & Hw' & Hrej).
        exists w', (w :: rej). split_and!; [done|done|by constructor].
Qed.

(** Sampling terminates within sixteen draws whatever the entropy source
    answers, stays within the bound, and returns the first word that rejection
    sampling accepts; it fails only when entropy runs out or sixteen words in a
    row were rejected. *)
Theorem sampling_is_bounded (maximum : Z) (s : scripted) :
  0 ≤ maximum ≤ RHI_RUNTIME_JITTER_MAX_MILLISECONDS →
  ∃ r s' used, sample_full_jitter maximum s = (r, s') ∧
    words s = used ++ words s' ∧ (length used ≤ 16)%nat ∧
    match r with
    | Ok v => 0 ≤ v ≤ maximum ∧ ∃ w rejected, used = rejected ++ [w] ∧
        jitter_of_draw (maximum + 1) (w mod 2 ^ 64) = Some v ∧
        Forall (λ w, jitter_of_draw (maximum + 1) (w mod 2 ^ 64) = None) rejected
    | Err e => e = EntropyUnavailable ∧ (words s' = [] ∨ length used = 16%nat)
    end.
Proof.
  intros Hm. destruct (sample_full_jitter maximum s) as [r s'] eqn:Hs.
  pose proof (jitter_loop_draws _ _ _ _ _ Hs) as (used & Hw & Hlen & _ & Hok & Hor & Herr).
  exists r, s', used. split_and!; try done. destruct Hor as [->|[v ->]]; [by auto|].
  destruct (Hok v eq_refl) as (w & rej & -> & Hv & Hrej). split; [|by exists w, rej].
  apply jitter_of_draw_range in Hv; [lia| |].
  - unfold RHI_RUNTIME_JITTER_MAX_MILLISECONDS in Hm. unfold_max. lia.
  - apply Z.mod_pos_bound. lia.
Qed.

Lemma sampling_is_bounded_witness :
  0 ≤ 3 ≤ RHI_RUNTIME_JITTER_MAX_MILLISECONDS ∧
  sample_full_jitter 3 (Scripted [] [2 ^ 63; 5]) = (Ok 2, Scripted [] [5]) ∧
  ∃ r s' used, sample_full_jitter 3 (Scripted [] [2 ^ 63; 5]) = (r, s') ∧
    words (Scripted [] [2 ^ 63; 5]) = used ++ words s' ∧ (length used ≤ 16)%nat.
Proof.
  split_and!; [unfold RHI_RUNTIME_JITTER_MAX_MILLISECONDS; lia..|vm_compute; reflexivity|].
  destruct (sampling_is_bounded 3 (Scripted [] [2 ^ 63; 5])) as (r & s' & used & H1 & H2 & H3 & _);
    [unfold RHI_RUNTIME_JITTER_MAX_MILLISECONDS; lia|].
  exists r, s', used. exact (conj H1 (conj H2 H3)).
Defined.

End Adapters.
