(* ===== verification/ReconciliationJob.v ===== *)
(** * Reconciliation jobs: [src/src/reconciliation_job.rs]

    The durable job table ([reconciliation_jobs] of [state_catalog.rs]), the
    decoding of its rows, and the four operations on it: [schedule],
    [claim_next], [renew] and [record_failure].  The theorems give the table
    invariant, the lease fencing, the bounds on queue and attempts, and the
    behaviour of the repository methods over any transaction host. *)

From stdpp Require Import list strings.
From S2P Require Import Prelude.
From S2P Require Import Sql.
From S2P Require Import Interfaces.

Module Job.

(** ** Constants *)

Definition RHI_RECONCILIATION_JOB_MAX_ACTIVE : Z := 65536.
Definition JOB_ID_DOMAIN : bytes := as_bytes "radroots.rhi.reconciliation_job.v1" ++ [0].
Definition LEASE_OWNER_BYTES : nat := 16.
Definition MAX_UNIX_MILLISECONDS : Z := I64_MAX.
Definition MAX_ATTEMPTS : Z := 100.
Definition MAX_LEASE_MILLISECONDS : Z := 300000.
Definition MAX_RENEWAL_MILLISECONDS : Z := 150000.
Definition MAX_INITIAL_BACKOFF_MILLISECONDS : Z := 60000.
Definition MAX_BACKOFF_MILLISECONDS : Z := 3600000.

(** ** States and errors *)

Inductive RhiReconciliationJobState : Type :=
| Ready | Leased | Exhausted | Superseded | Completed.

#[export] Instance job_state_eq_dec : EqDecision RhiReconciliationJobState.
Proof. solve_decision. Defined.

Definition state_code (s : RhiReconciliationJobState) : string :=
  match s with
  | Ready => "ready"
  | Leased => "leased"
  | Exhausted => "exhausted"
  | Superseded => "superseded"
  | Completed => "completed"
  end.

Inductive RhiReconciliationJobErrorKind : Type :=
| InvalidMode | InvalidInput | QueueFull | DirtyGenerationConflict | LeaseLost | NotReady
| Storage | CommitOutcomeUnknown.

Definition error_code (k : RhiReconciliationJobErrorKind) : string :=
  match k with
  | InvalidMode => "reconciliation_job_mode_invalid"
  | InvalidInput => "reconciliation_job_input_invalid"
  | QueueFull => "reconciliation_queue_full"
  | DirtyGenerationConflict => "reconciliation_dirty_generation_conflict"
  | LeaseLost => "reconciliation_lease_lost"
  | NotReady => "reconciliation_job_not_ready"
  | Storage => "reconciliation_job_storage_failed"
  | CommitOutcomeUnknown => "reconciliation_job_commit_outcome_unknown"
  end.

Inductive OperationError : Type :=
| OpInvalidInput | OpQueueFull | OpDirtyGenerationConflict | OpLeaseLost | OpNotReady | OpStorage.

(** ** The scheduling policy *)

Record RhiReconciliationJobPolicy : Type := Policy {
  queue_capacity : Z;
  lease_duration_ms : Z;
  lease_renewal_ms : Z;
  max_attempts : Z;
  initial_backoff_ms : Z;
  maximum_backoff_ms : Z;
}.

#[export] Instance job_policy_eq_dec : EqDecision RhiReconciliationJobPolicy.
Proof. solve_decision. Defined.

Definition policy_new (capacity duration renewal attempts initial maximum : Z) :
    result RhiReconciliationJobErrorKind RhiReconciliationJobPolicy :=
  reject_if
    ((capacity =? 0)
     || (RHI_RECONCILIATION_JOB_MAX_ACTIVE <? capacity)
     || negb (between 1000 MAX_LEASE_MILLISECONDS duration)
     || negb (between 100 MAX_RENEWAL_MILLISECONDS renewal)
     || (duration <=? renewal)
     || (attempts =? 0)
     || (MAX_ATTEMPTS <? attempts)
     || negb (between 1 MAX_INITIAL_BACKOFF_MILLISECONDS initial)
     || negb (between 1 MAX_BACKOFF_MILLISECONDS maximum)
     || (maximum <? initial))
    InvalidInput ;?
  Ok (Policy capacity duration renewal attempts initial maximum).

Definition policy_from_configuration `{JsonValue V} (normalized : V) :
    result RhiReconciliationJobErrorKind RhiReconciliationJobPolicy :=
  let value p := ok_or (match pointer normalized p with Some v => as_u64 v | None => None end)
                   InvalidInput in
  let? capacity := value "/reconciliation/queue_capacity" in
  let? capacity := ok_or (try_from U32_MAX capacity) InvalidInput in
  let? lease := value "/reconciliation/lease_ms" in
  let? renewal := value "/reconciliation/lease_renewal_ms" in
  let? attempts := value "/reconciliation/max_attempts" in
  let? attempts := ok_or (try_from U16_MAX attempts) InvalidInput in
  let? initial := value "/reconciliation/initial_backoff_ms" in
  let? maximum := value "/reconciliation/maximum_backoff_ms" in
  policy_new capacity lease renewal attempts initial maximum.

(** ** Validated inputs *)

Definition unix_milliseconds_new (v : Z) : result RhiReconciliationJobErrorKind Z :=
  reject_if (MAX_UNIX_MILLISECONDS <? v) InvalidInput ;? Ok v.

Definition retry_delay_new (v : Z) : result RhiReconciliationJobErrorKind Z :=
  reject_if (MAX_BACKOFF_MILLISECONDS <? v) InvalidInput ;? Ok v.

Definition lease_owner_from_bytes (b : bytes) : result RhiReconciliationJobErrorKind bytes :=
  reject_if (forallb (λ x, x =? 0) b) InvalidInput ;? Ok b.

(** ** Decoded jobs and leases *)

Record RhiReconciliationJob : Type := MkJob {
  id : bytes;
  trade_id : bytes;
  input_generation : Z;
  policy_digest : bytes;
  state : RhiReconciliationJobState;
  revision : Z;
  attempt_count : Z;
  failure_count : Z;
  policy : RhiReconciliationJobPolicy;
  next_attempt : option Z;
  lease_owner : option bytes;
  lease_expires : option Z;
  created_at : Z;
  updated_at : Z;
}.

#[export] Instance job_eq_dec : EqDecision RhiReconciliationJob.
Proof. solve_decision. Defined.

Definition attempt_policy_matches (j : RhiReconciliationJob)
    (expected : RhiReconciliationJobPolicy) : bool :=
  (lease_duration_ms (policy j) =? lease_duration_ms expected)
  && (lease_renewal_ms (policy j) =? lease_renewal_ms expected)
  && (max_attempts (policy j) =? max_attempts expected)
  && (initial_backoff_ms (policy j) =? initial_backoff_ms expected)
  && (maximum_backoff_ms (policy j) =? maximum_backoff_ms expected).

Record RhiReconciliationScheduleOutcome : Type := ScheduleOutcome {
  outcome_job : RhiReconciliationJob;
  created : bool;
}.

Record RhiReconciliationLease : Type := MkLease {
  lease_job : RhiReconciliationJob;
  owner : bytes;
  lease_expires_at : Z;
}.

Definition retry_delay_upper_bound (p : RhiReconciliationJobPolicy) (failures : Z) : Z :=
  let exponent := Z.min failures 63 in
  Z.min
    (u64_saturating_mul (initial_backoff_ms p) (default U64_MAX (u64_checked_shl 1 exponent)))
    (maximum_backoff_ms p).

Definition renewal_due (l : RhiReconciliationLease) : Z :=
  u64_saturating_sub (lease_expires_at l) (lease_renewal_ms (policy (lease_job l))).

Definition lease_retry_delay_upper_bound (l : RhiReconciliationLease) : Z :=
  retry_delay_upper_bound (policy (lease_job l)) (failure_count (lease_job l)).

(** ** The tables: [trade_dirty_generations] and [reconciliation_jobs] *)

Record dirty_row : Type := DirtyRow {
  dirty_trade_id : bytes;
  dirty_generation : Z;
  dirty_policy_sha256 : bytes;
  dirty_updated_at_unix_s : Z;
}.

Record job_row : Type := JobRow {
  col_job_id : bytes;
  col_trade_id : bytes;
  col_input_generation : Z;
  col_evidence_policy_sha256 : bytes;
  col_state : string;
  col_revision : Z;
  col_attempt_count : Z;
  col_failure_count : Z;
  col_max_attempts : Z;
  col_lease_duration_ms : Z;
  col_lease_renewal_ms : Z;
  col_initial_backoff_ms : Z;
  col_maximum_backoff_ms : Z;
  col_next_attempt_unix_ms : option Z;
  col_lease_owner : option bytes;
  col_lease_expires_unix_ms : option Z;
  col_created_at_unix_ms : Z;
  col_updated_at_unix_ms : Z;
}.

(** [state IN ('exhausted', 'superseded', 'completed')] and [state IN ('ready', 'leased')] *)
Definition state_terminal (s : string) : bool :=
  String.eqb s "exhausted" || String.eqb s "superseded" || String.eqb s "completed".
Definition state_active (s : string) : bool := String.eqb s "ready" || String.eqb s "leased".

(** The column constraints of [CREATE TABLE reconciliation_jobs]. *)
Definition job_columns_check (r : job_row) : bool :=
  (length (col_job_id r) =? 32)%nat
  && (length (col_trade_id r) =? 16)%nat
  && between 1 I64_MAX (col_input_generation r)
  && (length (col_evidence_policy_sha256 r) =? 32)%nat
  && (state_active (col_state r) || state_terminal (col_state r))
  && between 1 I64_MAX (col_revision r)
  && between 0 100 (col_attempt_count r)
  && between 0 (col_attempt_count r) (col_failure_count r)
  && between 1 100 (col_max_attempts r)
  && between 1000 300000 (col_lease_duration_ms r)
  && between 100 150000 (col_lease_renewal_ms r)
  && between 1 60000 (col_initial_backoff_ms r)
  && between 1 3600000 (col_maximum_backoff_ms r)
  && between 0 I64_MAX (col_created_at_unix_ms r)
  && between (col_created_at_unix_ms r) I64_MAX (col_updated_at_unix_ms r)
  && (col_lease_renewal_ms r <? col_lease_duration_ms r)
  && (col_initial_backoff_ms r <=? col_maximum_backoff_ms r).

(** The table's last [CHECK], in SQL's three-valued logic. *)
Definition job_shape_check (r : job_row) : option bool :=
  let ready :=
    sql_and (Some (String.eqb (col_state r) "ready"))
    (sql_and (Some (col_attempt_count r <? col_max_attempts r))
    (sql_and (sql_between 0 I64_MAX (col_next_attempt_unix_ms r))
    (sql_and (Some (is_null (col_lease_owner r)))
             (Some (is_null (col_lease_expires_unix_ms r)))))) in
  let leased :=
    sql_and (Some (String.eqb (col_state r) "leased"))
    (sql_and (Some (between 1 (col_max_attempts r) (col_attempt_count r)))
    (sql_and (Some (is_null (col_next_attempt_unix_ms r)))
    (sql_and ((λ b, (length b =? 16)%nat) <$> col_lease_owner r)
             (sql_between 1 I64_MAX (col_lease_expires_unix_ms r))))) in
  let closed :=
    sql_and (Some (state_terminal (col_state r)))
    (sql_and (Some (is_null (col_next_attempt_unix_ms r)))
    (sql_and (Some (is_null (col_lease_owner r)))
             (Some (is_null (col_lease_expires_unix_ms r))))) in
  sql_or ready (sql_or leased closed).

(** The [WHEN] condition of [reconciliation_jobs_shape_guard_insert] and
    [reconciliation_jobs_shape_guard_update]: true raises an abort. *)
Definition job_shape_guard_violated (r : job_row) : bool :=
  let bad_integer lo v := negb (is_some_and (between lo I64_MAX) v) in
  (String.eqb (col_state r) "ready"
   && ((col_max_attempts r <=? col_attempt_count r)
       || bad_integer 0 (col_next_attempt_unix_ms r)
       || negb (is_null (col_lease_owner r))
       || negb (is_null (col_lease_expires_unix_ms r))))
  || (String.eqb (col_state r) "leased"
      && (negb (between 1 (col_max_attempts r) (col_attempt_count r))
          || negb (is_null (col_next_attempt_unix_ms r))
          || negb (is_some_and (λ b, (length b =? 16)%nat) (col_lease_owner r))
          || bad_integer 1 (col_lease_expires_unix_ms r)))
  || (state_terminal (col_state r)
      && (negb (is_null (col_next_attempt_unix_ms r))
          || negb (is_null (col_lease_owner r))
          || negb (is_null (col_lease_expires_unix_ms r)))).

(** The [WHEN] condition of [reconciliation_jobs_guard_update]. *)
Definition job_update_guard_violated (old new : job_row) : bool :=
  negb (bytes_eqb (col_job_id new) (col_job_id old))
  || negb (bytes_eqb (col_trade_id new) (col_trade_id old))
  || negb (col_input_generation new =? col_input_generation old)
  || negb (bytes_eqb (col_evidence_policy_sha256 new) (col_evidence_policy_sha256 old))
  || negb (col_max_attempts new =? col_max_attempts old)
  || negb (col_lease_duration_ms new =? col_lease_duration_ms old)
  || negb (col_lease_renewal_ms new =? col_lease_renewal_ms old)
  || negb (col_initial_backoff_ms new =? col_initial_backoff_ms old)
  || negb (col_maximum_backoff_ms new =? col_maximum_backoff_ms old)
  || negb (col_created_at_unix_ms new =? col_created_at_unix_ms old)
  || negb (col_revision new =? col_revision old + 1)
  || (col_updated_at_unix_ms new <? col_updated_at_unix_ms old)
  || negb
       ((String.eqb (col_state old) "ready"
         && (String.eqb (col_state new) "leased" || String.eqb (col_state new) "superseded"))
        || (String.eqb (col_state old) "leased"
            && (state_active (col_state new) || state_terminal (col_state new)))
        || (String.eqb (col_state old) "exhausted" && String.eqb (col_state new) "superseded")).

(** [PRIMARY KEY (job_id)] and [reconciliation_jobs_one_active_per_trade]. *)
Definition job_conflict (r o : job_row) : bool :=
  bytes_eqb (col_job_id r) (col_job_id o)
  || (state_active (col_state r) && state_active (col_state o)
      && bytes_eqb (col_trade_id r) (col_trade_id o)).

#[export] Instance job_table : Table job_row := {|
  row_check := λ r,
    job_columns_check r && check_passes (job_shape_check r) && negb (job_shape_guard_violated r);
  row_guard := λ old new, negb (job_update_guard_violated old new);
  row_conflict := job_conflict;
|}.

Record job_db : Type := JobDb {
  dirty_generations : list dirty_row;
  jobs : list job_row;
}.

Definition with_jobs (db : job_db) (rows : list job_row) : job_db :=
  JobDb (dirty_generations db) rows.

(** ** Decoding: every failure is [OperationError::Storage] *)

Record DirtyGeneration : Type := MkDirtyGeneration {
  generation : Z;
  dirty_policy : bytes;
}.

(** [length(col)] must be [n] and [substr(col, 1, n + 1)] must have [n] bytes. *)
Definition exact_bytes (n : nat) (col : bytes) : result OperationError bytes :=
  reject_if (negb (length col =? n)%nat) OpStorage ;?
  reject_if (negb (length (take (n + 1) col) =? n)%nat) OpStorage ;?
  Ok (take (n + 1) col).

Definition bounded_integer (lo hi v : Z) : result OperationError Z :=
  reject_if (negb (between lo hi v)) OpStorage ;? Ok v.

(** [bounded_text] reads at most [maximum + 1] bytes of a text column. *)
Definition bounded_text (maximum : nat) (col : string) : result OperationError string :=
  reject_if (negb ((0 <? Z.of_nat (String.length col))
                   && (Z.of_nat (String.length col) <=? Z.of_nat maximum))) OpStorage ;?
  Ok col.

Definition optional_millis (col : option Z) : result OperationError (option Z) :=
  match col with
  | None => Ok None
  | Some v => reject_if (negb (between 0 U64_MAX v)) OpStorage ;? Ok (Some v)
  end.

Definition optional_owner (col : option bytes) : result OperationError (option bytes) :=
  match col with
  | None => Ok None
  | Some b =>
      if (length b =? LEASE_OWNER_BYTES)%nat
      then let? o := map_err (λ _, OpStorage) (lease_owner_from_bytes b) in Ok (Some o)
      else Err OpStorage
  end.

Definition decode_state (s : string) : result OperationError RhiReconciliationJobState :=
  if String.eqb s "ready" then Ok Ready
  else if String.eqb s "leased" then Ok Leased
  else if String.eqb s "exhausted" then Ok Exhausted
  else if String.eqb s "superseded" then Ok Superseded
  else if String.eqb s "completed" then Ok Completed
  else Err OpStorage.

Definition valid_state_fields (s : RhiReconciliationJobState) (attempts maximum : Z)
    (next : option Z) (own : option bytes) (expires : option Z) : bool :=
  match s with
  | Ready => (attempts <? maximum) && negb (is_null next) && is_null own && is_null expires
  | Leased =>
      (0 <? attempts) && (attempts <=? maximum) && is_null next && negb (is_null own)
      && negb (is_null expires)
  | Exhausted | Superseded | Completed => is_null next && is_null own && is_null expires
  end.

Section operations.
Context `{Sha256}.

Definition job_id (trade : bytes) (gen : Z) (pol : bytes) : bytes :=
  sha256 (JOB_ID_DOMAIN ++ trade ++ to_be_bytes 8 gen ++ pol).

Definition decode_job (r : job_row) : result OperationError RhiReconciliationJob :=
  let? i := exact_bytes 32 (col_job_id r) in
  let? trade := exact_bytes 16 (col_trade_id r) in
  let? gen := bounded_integer 1 MAX_UNIX_MILLISECONDS (col_input_generation r) in
  let? pol := exact_bytes 32 (col_evidence_policy_sha256 r) in
  let? text := bounded_text 10 (col_state r) in
  let? st := decode_state text in
  let? rev := bounded_integer 1 MAX_UNIX_MILLISECONDS (col_revision r) in
  let? attempts := bounded_integer 0 MAX_ATTEMPTS (col_attempt_count r) in
  let? failures := bounded_integer 0 attempts (col_failure_count r) in
  let? maximum := bounded_integer 1 MAX_ATTEMPTS (col_max_attempts r) in
  let? duration := bounded_integer 1000 MAX_LEASE_MILLISECONDS (col_lease_duration_ms r) in
  let? renewal := bounded_integer 100 MAX_RENEWAL_MILLISECONDS (col_lease_renewal_ms r) in
  let? initial := bounded_integer 1 MAX_INITIAL_BACKOFF_MILLISECONDS (col_initial_backoff_ms r) in
  let? limit := bounded_integer 1 MAX_BACKOFF_MILLISECONDS (col_maximum_backoff_ms r) in
  let? p := map_err (λ _, OpStorage)
              (policy_new RHI_RECONCILIATION_JOB_MAX_ACTIVE duration renewal maximum initial limit) in
  let? next := optional_millis (col_next_attempt_unix_ms r) in
  let? expires := optional_millis (col_lease_expires_unix_ms r) in
  let? own := optional_owner (col_lease_owner r) in
  let? at_created := bounded_integer 0 MAX_UNIX_MILLISECONDS (col_created_at_unix_ms r) in
  let? at_updated := bounded_integer 0 MAX_UNIX_MILLISECONDS (col_updated_at_unix_ms r) in
  reject_if
    ((at_updated <? at_created)
     || (attempts <? failures)
     || negb (bytes_eqb (job_id trade gen pol) i)
     || negb (valid_state_fields st attempts maximum next own expires))
    OpStorage ;?
  Ok (MkJob i trade gen pol st rev attempts failures p next own expires at_created at_updated).

(** ** Statements *)

Definition exec (r : result sql_error (list job_row * Z)) :
    result OperationError (list job_row * Z) := map_err (λ _, OpStorage) r.

Definition i64_value (v : Z) : result OperationError Z :=
  ok_or (try_from I64_MAX v) OpInvalidInput.

Definition set_closed (st : string) (now : Z) (r : job_row) : job_row :=
  JobRow (col_job_id r) (col_trade_id r) (col_input_generation r) (col_evidence_policy_sha256 r)
    st (col_revision r + 1) (col_attempt_count r) (col_failure_count r) (col_max_attempts r)
    (col_lease_duration_ms r) (col_lease_renewal_ms r) (col_initial_backoff_ms r)
    (col_maximum_backoff_ms r) None None None (col_created_at_unix_ms r) now.

Definition with_failures (n : Z) (r : job_row) : job_row :=
  JobRow (col_job_id r) (col_trade_id r) (col_input_generation r) (col_evidence_policy_sha256 r)
    (col_state r) (col_revision r) (col_attempt_count r) n (col_max_attempts r)
    (col_lease_duration_ms r) (col_lease_renewal_ms r) (col_initial_backoff_ms r)
    (col_maximum_backoff_ms r) (col_next_attempt_unix_ms r) (col_lease_owner r)
    (col_lease_expires_unix_ms r) (col_created_at_unix_ms r) (col_updated_at_unix_ms r).

Definition SUPERSEDE_JOB_SQL (now : Z) (i : bytes) (rev : Z) (rows : list job_row) :=
  update_rows
    (λ r, bytes_eqb (col_job_id r) i && (col_revision r =? rev) && state_active (col_state r))
    (set_closed "superseded" now) rows.

(** The completion of a leased job, which the finalization commits. *)
Definition COMPLETE_JOB_SQL (now : Z) (i : bytes) (rev : Z) (own : bytes) (expires : Z)
    (rows : list job_row) :=
  update_rows
    (λ r, bytes_eqb (col_job_id r) i && String.eqb (col_state r) "leased"
          && (col_revision r =? rev) && col_blob_eq (col_lease_owner r) own
          && col_eq (col_lease_expires_unix_ms r) expires && (col_updated_at_unix_ms r <=? now))
    (set_closed "completed" now) rows.

Definition INSERT_JOB_ROW (i trade : bytes) (gen : Z) (pol : bytes)
    (p : RhiReconciliationJobPolicy) (now : Z) : job_row :=
  JobRow i trade gen pol "ready" 1 0 0 (max_attempts p) (lease_duration_ms p)
    (lease_renewal_ms p) (initial_backoff_ms p) (maximum_backoff_ms p)
    (Some now) None None now now.

Definition ACTIVE_JOB_COUNT_SQL (rows : list job_row) : Z :=
  Z.of_nat (length (List.filter (λ r, state_active (col_state r)) rows)).

(** The subselect of [EXHAUST_EXPIRED_SQL] and its [ORDER BY] key. *)
Definition expired_final (now : Z) (r : job_row) : bool :=
  String.eqb (col_state r) "leased" && col_le (col_lease_expires_unix_ms r) now
  && (col_max_attempts r <=? col_attempt_count r) && (col_updated_at_unix_ms r <=? now).

Definition expired_order : job_row → job_row → comparison :=
  cmp_then (cmp_on (λ r, default 0 (col_lease_expires_unix_ms r)) Z.compare)
    (cmp_then (cmp_on col_created_at_unix_ms Z.compare) (cmp_on col_job_id bytes_cmp)).

(** [failure_count = attempt_count]; [next_attempt_unix_ms] is not assigned *)
Definition set_exhausted (now : Z) (r : job_row) : job_row :=
  JobRow (col_job_id r) (col_trade_id r) (col_input_generation r) (col_evidence_policy_sha256 r)
    "exhausted" (col_revision r + 1) (col_attempt_count r) (col_attempt_count r)
    (col_max_attempts r) (col_lease_duration_ms r) (col_lease_renewal_ms r)
    (col_initial_backoff_ms r) (col_maximum_backoff_ms r) (col_next_attempt_unix_ms r) None None
    (col_created_at_unix_ms r) now.

Definition expired_ids (now : Z) (rows : list job_row) : list bytes :=
  map col_job_id
    (take (Z.to_nat 65536) (sort_by expired_order (List.filter (expired_final now) rows))).

Definition EXHAUST_EXPIRED_SQL (now : Z) (rows : list job_row) :=
  let ids := expired_ids now rows in
  update_rows (λ r, existsb (bytes_eqb (col_job_id r)) ids) (set_exhausted now) rows.

Definition claimable (now : Z) (r : job_row) : bool :=
  (col_attempt_count r <? col_max_attempts r) && (col_updated_at_unix_ms r <=? now)
  && ((String.eqb (col_state r) "ready" && col_le (col_next_attempt_unix_ms r) now)
      || (String.eqb (col_state r) "leased" && col_le (col_lease_expires_unix_ms r) now)).

(** [CASE state WHEN 'ready' THEN next_attempt_unix_ms ELSE lease_expires_unix_ms END] *)
Definition due_at (r : job_row) : Z :=
  default 0 (if String.eqb (col_state r) "ready" then col_next_attempt_unix_ms r
             else col_lease_expires_unix_ms r).

Definition claim_order : job_row → job_row → comparison :=
  cmp_then (cmp_on due_at Z.compare)
    (cmp_then (cmp_on col_created_at_unix_ms Z.compare) (cmp_on col_job_id bytes_cmp)).

Definition READ_CLAIMABLE_SQL (now : Z) (rows : list job_row) : option job_row :=
  head (sort_by claim_order (List.filter (claimable now) rows)).

Definition set_claimed (own : bytes) (expires now : Z) (r : job_row) : job_row :=
  JobRow (col_job_id r) (col_trade_id r) (col_input_generation r) (col_evidence_policy_sha256 r)
    "leased" (col_revision r + 1) (col_attempt_count r + 1) (col_failure_count r)
    (col_max_attempts r) (col_lease_duration_ms r) (col_lease_renewal_ms r)
    (col_initial_backoff_ms r) (col_maximum_backoff_ms r) None (Some own) (Some expires)
    (col_created_at_unix_ms r) now.

Definition CLAIM_JOB_SQL (own : bytes) (expires now : Z) (i : bytes) (rev : Z)
    (rows : list job_row) :=
  update_rows
    (λ r, bytes_eqb (col_job_id r) i && (col_revision r =? rev) && claimable now r)
    (set_claimed own expires now) rows.

(** The lease comparison shared by [RENEW_JOB_SQL], [RETRY_JOB_SQL] and [EXHAUST_JOB_SQL]. *)
Definition holds_lease (i : bytes) (rev : Z) (own : bytes) (expires now : Z) (r : job_row) : bool :=
  bytes_eqb (col_job_id r) i && (col_revision r =? rev) && String.eqb (col_state r) "leased"
  && col_blob_eq (col_lease_owner r) own && col_eq (col_lease_expires_unix_ms r) expires
  && col_gt (col_lease_expires_unix_ms r) now.

Definition set_renewed (expires now : Z) (r : job_row) : job_row :=
  JobRow (col_job_id r) (col_trade_id r) (col_input_generation r) (col_evidence_policy_sha256 r)
    (col_state r) (col_revision r + 1) (col_attempt_count r) (col_failure_count r)
    (col_max_attempts r) (col_lease_duration_ms r) (col_lease_renewal_ms r)
    (col_initial_backoff_ms r) (col_maximum_backoff_ms r) (col_next_attempt_unix_ms r)
    (col_lease_owner r) (Some expires) (col_created_at_unix_ms r) now.

Definition RENEW_JOB_SQL (expires now : Z) (i : bytes) (rev : Z) (own : bytes) (previous : Z)
    (rows : list job_row) :=
  update_rows
    (λ r, holds_lease i rev own previous now r && (col_updated_at_unix_ms r <=? now))
    (set_renewed expires now) rows.

Definition set_retry (next now : Z) (r : job_row) : job_row :=
  JobRow (col_job_id r) (col_trade_id r) (col_input_generation r) (col_evidence_policy_sha256 r)
    "ready" (col_revision r + 1) (col_attempt_count r) (col_failure_count r + 1)
    (col_max_attempts r) (col_lease_duration_ms r) (col_lease_renewal_ms r)
    (col_initial_backoff_ms r) (col_maximum_backoff_ms r) (Some next) None None
    (col_created_at_unix_ms r) now.

Definition RETRY_JOB_SQL (next now : Z) (i : bytes) (rev : Z) (own : bytes) (expires : Z)
    (rows : list job_row) :=
  update_rows
    (λ r, holds_lease i rev own expires now r && (col_attempt_count r <? col_max_attempts r))
    (set_retry next now) rows.

Definition EXHAUST_JOB_SQL (now : Z) (i : bytes) (rev : Z) (own : bytes) (expires : Z)
    (rows : list job_row) :=
  update_rows
    (λ r, holds_lease i rev own expires now r && (col_max_attempts r <=? col_attempt_count r))
    (λ r, with_failures (col_failure_count r + 1) (set_closed "exhausted" now r)) rows.

(** ** Reads *)

Definition read_dirty (trade : bytes) (db : job_db) : result OperationError DirtyGeneration :=
  let? r := ok_or (find_by dirty_trade_id bytes_eqb trade (dirty_generations db))
              OpDirtyGenerationConflict in
  let? gen := bounded_integer 1 MAX_UNIX_MILLISECONDS (dirty_generation r) in
  let? pol := exact_bytes 32 (dirty_policy_sha256 r) in
  Ok (MkDirtyGeneration gen pol).

Definition read_job (i : bytes) (db : job_db) :
    result OperationError (option RhiReconciliationJob) :=
  match find_by col_job_id bytes_eqb i (jobs db) with
  | None => Ok None
  | Some r => let? j := decode_job r in Ok (Some j)
  end.

(** [LIMIT 2] *)
Definition read_active_job (trade : bytes) (db : job_db) :
    result OperationError (option RhiReconciliationJob) :=
  match take 2 (List.filter (λ r, bytes_eqb (col_trade_id r) trade && state_active (col_state r))
                  (jobs db)) with
  | [] => Ok None
  | [r] => let? j := decode_job r in Ok (Some j)
  | _ => Err OpStorage
  end.

(** ** Operations, run inside one transaction *)

Definition schedule (trade : bytes) (p : RhiReconciliationJobPolicy) (now : Z) (db : job_db) :
    result OperationError (RhiReconciliationScheduleOutcome * job_db) :=
  let? dirty := read_dirty trade db in
  let i := job_id trade (generation dirty) (dirty_policy dirty) in
  let? existing := read_job i db in
  match existing with
  | Some job =>
      reject_if
        (negb (bytes_eqb (trade_id job) trade)
         || negb (input_generation job =? generation dirty)
         || negb (bytes_eqb (policy_digest job) (dirty_policy dirty)))
        OpStorage ;?
      Ok (ScheduleOutcome job false, db)
  | None =>
      let? active := read_active_job trade db in
      let? db :=
        match active with
        | Some active =>
            reject_if (generation dirty <=? input_generation active) OpDirtyGenerationConflict ;?
            let? now := i64_value now in
            let? rev := i64_value (revision active) in
            let? (rows, affected) := exec (SUPERSEDE_JOB_SQL now (id active) rev (jobs db)) in
            reject_if (negb (affected =? 1)) OpDirtyGenerationConflict ;?
            Ok (with_jobs db rows)
        | None => Ok db
        end in
      let? count := ok_or (try_from U32_MAX (ACTIVE_JOB_COUNT_SQL (jobs db))) OpStorage in
      reject_if (queue_capacity p <=? count) OpQueueFull ;?
      let? now := i64_value now in
      let? gen := i64_value (generation dirty) in
      let? _ := i64_value (lease_duration_ms p) in
      let? _ := i64_value (lease_renewal_ms p) in
      let? _ := i64_value (initial_backoff_ms p) in
      let? _ := i64_value (maximum_backoff_ms p) in
      let? rows := map_err (λ _, OpStorage)
        (insert_row
           (λ r, existsb (λ d, bytes_eqb (dirty_trade_id d) (col_trade_id r)) (dirty_generations db))
           (INSERT_JOB_ROW i trade gen (dirty_policy dirty) p now) (jobs db)) in
      let db := with_jobs db rows in
      let? job := read_job i db in
      let? job := ok_or job OpStorage in
      Ok (ScheduleOutcome job true, db)
  end.

Definition claim_next (own : bytes) (now : Z) (db : job_db) :
    result OperationError (option RhiReconciliationLease * job_db) :=
  let? now_value := i64_value now in
  let? (rows, _) := exec (EXHAUST_EXPIRED_SQL now_value (jobs db)) in
  let db := with_jobs db rows in
  match READ_CLAIMABLE_SQL now_value (jobs db) with
  | None => Ok (None, db)
  | Some row =>
      let? candidate := decode_job row in
      let? expires :=
        ok_or (filter_opt (λ v, v <=? MAX_UNIX_MILLISECONDS)
                 (u64_checked_add now (lease_duration_ms (policy candidate)))) OpInvalidInput in
      let? expires := i64_value expires in
      let? rev := i64_value (revision candidate) in
      let? (rows, affected) :=
        exec (CLAIM_JOB_SQL own expires now_value (id candidate) rev (jobs db)) in
      reject_if (negb (affected =? 1)) OpLeaseLost ;?
      let db := with_jobs db rows in
      let? job := read_job (id candidate) db in
      let? job := ok_or (filter_opt (λ j, bool_decide (state j = Leased)) job) OpStorage in
      let? expires := ok_or (lease_expires job) OpStorage in
      Ok (Some (MkLease job own expires), db)
  end.

Definition renew (l : RhiReconciliationLease) (now : Z) (db : job_db) :
    result OperationError (RhiReconciliationLease * job_db) :=
  let previous := lease_expires_at l in
  let? expires :=
    ok_or (filter_opt (λ v, (previous <? v) && (v <=? MAX_UNIX_MILLISECONDS))
             (u64_checked_add now (lease_duration_ms (policy (lease_job l))))) OpNotReady in
  let? expires := i64_value expires in
  let? now := i64_value now in
  let? rev := i64_value (revision (lease_job l)) in
  let? previous := i64_value previous in
  let? (rows, affected) :=
    exec (RENEW_JOB_SQL expires now (id (lease_job l)) rev (owner l) previous (jobs db)) in
  reject_if (negb (affected =? 1)) OpLeaseLost ;?
  let db := with_jobs db rows in
  let? job := read_job (id (lease_job l)) db in
  let? job := ok_or (filter_opt (λ j, bool_decide (state j = Leased)) job) OpStorage in
  let? expires := ok_or (lease_expires job) OpStorage in
  Ok (MkLease job (owner l) expires, db).

Definition record_failure (l : RhiReconciliationLease) (now delay : Z) (db : job_db) :
    result OperationError (RhiReconciliationJob * job_db) :=
  let j := lease_job l in
  let? now_value := i64_value now in
  let? (rows, affected) :=
    if max_attempts (policy j) <=? attempt_count j then
      let? rev := i64_value (revision j) in
      let? expires := i64_value (lease_expires_at l) in
      exec (EXHAUST_JOB_SQL now_value (id j) rev (owner l) expires (jobs db))
    else
      let? next := ok_or (filter_opt (λ v, v <=? MAX_UNIX_MILLISECONDS)
                            (u64_checked_add now delay)) OpInvalidInput in
      let? next := i64_value next in
      let? rev := i64_value (revision j) in
      let? expires := i64_value (lease_expires_at l) in
      exec (RETRY_JOB_SQL next now_value (id j) rev (owner l) expires (jobs db)) in
  reject_if (negb (affected =? 1)) OpLeaseLost ;?
  let db := with_jobs db rows in
  let? job := read_job (id j) db in
  let? job := ok_or job OpStorage in
  Ok (job, db).

(** The fence other components run before they use a claimed lease. *)
Inductive LeaseValidationError : Type := ValidationLeaseLost | ValidationStorage.

Definition validate_exact_lease (l : RhiReconciliationLease) (db : job_db) :
    result LeaseValidationError unit :=
  let? current := map_err (λ _, ValidationStorage) (read_job (id (lease_job l)) db) in
  if bool_decide (current = Some (lease_job l)) && bool_decide (state (lease_job l) = Leased)
     && bool_decide (lease_expires (lease_job l) = Some (lease_expires_at l))
  then Ok tt else Err ValidationLeaseLost.

(** ** The repository: writable mode, pre-checks and one transaction each *)

Inductive RhiStateHostMode : Type := ReadWriteExisting | ReadOnlyInspection.

Definition map_transaction_error (e : tx_error OperationError) : RhiReconciliationJobErrorKind :=
  if commit_outcome_unknown e then CommitOutcomeUnknown
  else match operation_error e with
       | Some OpInvalidInput => InvalidInput
       | Some OpQueueFull => QueueFull
       | Some OpDirtyGenerationConflict => DirtyGenerationConflict
       | Some OpLeaseLost => LeaseLost
       | Some OpNotReady => NotReady
       | Some OpStorage | None => Storage
       end.

Definition require_writable (mode : RhiStateHostMode) :
    result RhiReconciliationJobErrorKind unit :=
  match mode with ReadWriteExisting => Ok tt | ReadOnlyInspection => Err InvalidMode end.

Context `{TransactionHost job_db}.

Definition run {A} (op : job_db → result OperationError (A * job_db)) (db : job_db) :
    result RhiReconciliationJobErrorKind A * job_db :=
  let '(r, db') := transaction op db in (map_err map_transaction_error r, db').

(** Runs the pre-checks; a rejected call does not open a transaction. *)
Definition guarded {A} (checks : result RhiReconciliationJobErrorKind unit)
    (op : job_db → result OperationError (A * job_db)) (db : job_db) :
    result RhiReconciliationJobErrorKind A * job_db :=
  match checks with Err e => (Err e, db) | Ok _ => run op db end.

Definition schedule_trade (mode : RhiStateHostMode) (trade : bytes)
    (p : RhiReconciliationJobPolicy) (now : Z) :=
  guarded (require_writable mode) (schedule trade p now).

Definition repository_claim_next (mode : RhiStateHostMode) (own : bytes) (now : Z) :=
  guarded (require_writable mode) (claim_next own now).

Definition repository_renew (mode : RhiStateHostMode) (l : RhiReconciliationLease) (now : Z) :=
  guarded
    (require_writable mode ;?
     reject_if (lease_expires_at l <=? now) LeaseLost ;?
     reject_if (now <? renewal_due l) NotReady)
    (renew l now).

Definition repository_record_failure (mode : RhiStateHostMode) (l : RhiReconciliationLease)
    (now delay : Z) :=
  guarded
    (require_writable mode ;?
     reject_if (lease_expires_at l <=? now) LeaseLost ;?
     reject_if (lease_retry_delay_upper_bound l <? delay) InvalidInput)
    (record_failure l now delay).

End operations.

(** * Row invariants and their lemmas *)

(** The content of the state-shape constraints, state by state. *)
Definition shape (st : RhiReconciliationJobState) (r : job_row) : Prop :=
  match st with
  | Ready =>
      col_attempt_count r < col_max_attempts r ∧
      (∃ n, col_next_attempt_unix_ms r = Some n ∧ 0 ≤ n ≤ I64_MAX) ∧
      col_lease_owner r = None ∧ col_lease_expires_unix_ms r = None
  | Leased =>
      1 ≤ col_attempt_count r ≤ col_max_attempts r ∧
      col_next_attempt_unix_ms r = None ∧
      (∃ o, col_lease_owner r = Some o ∧ length o = 16%nat) ∧
      (∃ e, col_lease_expires_unix_ms r = Some e ∧ 1 ≤ e ≤ I64_MAX)
  | Exhausted | Superseded | Completed =>
      col_next_attempt_unix_ms r = None ∧
      col_lease_owner r = None ∧ col_lease_expires_unix_ms r = None
  end.

(** The view [decode_job] gives of a row in state [st]. *)
Definition view (st : RhiReconciliationJobState) (r : job_row) : RhiReconciliationJob :=
  MkJob (col_job_id r) (col_trade_id r) (col_input_generation r) (col_evidence_policy_sha256 r)
    st (col_revision r) (col_attempt_count r) (col_failure_count r)
    (Policy RHI_RECONCILIATION_JOB_MAX_ACTIVE (col_lease_duration_ms r) (col_lease_renewal_ms r)
       (col_max_attempts r) (col_initial_backoff_ms r) (col_maximum_backoff_ms r))
    (col_next_attempt_unix_ms r) (col_lease_owner r) (col_lease_expires_unix_ms r)
    (col_created_at_unix_ms r) (col_updated_at_unix_ms r).

Lemma state_code_inj s t : state_code s = state_code t → s = t.
Proof. by destruct s, t. Qed.

Lemma decode_state_code s : decode_state (state_code s) = Ok s.
Proof. by destruct s. Qed.

Lemma decode_state_Ok text s : decode_state text = Ok s → text = state_code s.
Proof.
  unfold decode_state.
  repeat match goal with
  | |- context [String.eqb ?a ?b] => destruct (String.eqb_spec a b); [by intros [= <-]|]
  end; done.
Qed.

Lemma state_valid text :
  state_active text || state_terminal text = true ↔ ∃ st, text = state_code st.
Proof.
  unfold state_active, state_terminal. rewrite !orb_true_iff, !String.eqb_eq. split.
  - intros [[->| ->]|[[->| ->]| ->]];
      [by exists Ready|by exists Leased|by exists Exhausted|by exists Superseded|by exists Completed].
  - intros [[] ->]; simpl; auto 10.
Qed.

(** The [CHECK] and the two shape triggers together accept exactly the shapes. *)
Lemma row_shape st r :
  col_state r = state_code st →
  check_passes (job_shape_check r) && negb (job_shape_guard_violated r) = true ↔ shape st r.
Proof.
  intros Hst. unfold check_passes, job_shape_check, job_shape_guard_violated, shape, state_terminal.
  rewrite Hst. unfold sql_between.
  destruct st, (col_next_attempt_unix_ms r) as [n|], (col_lease_owner r) as [o|],
    (col_lease_expires_unix_ms r) as [e|]; simpl; rewrite ?orb_true_r, ?andb_false_r; simpl;
    try (split; naive_solver lia).
  - destruct (Z.ltb_spec (col_attempt_count r) (col_max_attempts r)),
      (Z.leb_spec (col_max_attempts r) (col_attempt_count r)), (between 0 I64_MAX n) eqn:Hn;
      simpl; inv_int; split; naive_solver lia.
  - destruct (between 1 (col_max_attempts r) (col_attempt_count r)) eqn:Ha,
      (Nat.eqb_spec (length o) 16), (between 1 I64_MAX e) eqn:He;
      simpl; inv_int; split; naive_solver lia.
Qed.

Lemma row_check_iff r :
  row_check r = true ↔
  job_columns_check r = true ∧ ∃ st, col_state r = state_code st ∧ shape st r.
Proof.
  simpl. rewrite <- andb_assoc, andb_true_iff. split; intros [Hc Hs]; (split; [done|]).
  - assert (state_active (col_state r) || state_terminal (col_state r) = true) as Hst.
    { unfold job_columns_check in Hc. to_prop. done. }
    apply state_valid in Hst as [st Hst]. exists st. split; [done|]. by apply row_shape.
  - destruct Hs as (st & Hst & Hs). by apply (row_shape st).
Qed.

Lemma job_conflict_sym r o : row_conflict r o = row_conflict o r.
Proof.
  simpl. unfold job_conflict, bytes_eqb.
  rewrite (bool_decide_ext (col_job_id r = _) (col_job_id o = col_job_id r)) by done.
  rewrite (bool_decide_ext (col_trade_id r = _) (col_trade_id o = col_trade_id r)) by done.
  by destruct (state_active (col_state r)), (state_active (col_state o)).
Qed.

Section decoding.
Context `{Sha256}.

Lemma exact_bytes_Ok n b x : exact_bytes n b = Ok x ↔ x = b ∧ length b = n.
Proof.
  unfold exact_bytes. split.
  - intros Hx. inv_ok. to_prop. apply Nat.eqb_eq in H0. by rewrite take_ge by lia.
  - intros [-> <-]. rewrite take_ge by lia. by rewrite Nat.eqb_refl.
Qed.

Lemma bounded_integer_Ok lo hi v x : bounded_integer lo hi v = Ok x ↔ x = v ∧ lo ≤ v ≤ hi.
Proof.
  unfold bounded_integer. destruct (between lo hi v) eqn:Hb; simpl; inv_int; naive_solver lia.
Qed.

Lemma bounded_text_state st : bounded_text 10 (state_code st) = Ok (state_code st).
Proof. by destruct st. Qed.

Lemma bounded_text_Ok n s x : bounded_text n s = Ok x → x = s.
Proof. unfold bounded_text. intros. by inv_ok. Qed.

Lemma optional_millis_Ok v x : optional_millis v = Ok x → x = v.
Proof. destruct v; simpl; intros; by inv_ok. Qed.

Lemma lease_owner_Ok b x :
  lease_owner_from_bytes b = Ok x ↔ x = b ∧ forallb (λ x, x =? 0) b = false.
Proof. unfold lease_owner_from_bytes. destruct (forallb _ b); simpl; naive_solver. Qed.

Lemma optional_owner_Ok v x : optional_owner v = Ok x → x = v.
Proof.
  destruct v as [b|]; simpl; [|by intros [= <-]]. destruct (_ =? _)%nat; [|done].
  intros Hx. inv_ok. by apply lease_owner_Ok in H0 as [-> _].
Qed.

(** [policy_new] accepts exactly the contract's ranges; its integers are unsigned. *)
Lemma policy_new_Ok c d r a i m p :
  0 ≤ c → 0 ≤ a →
  policy_new c d r a i m = Ok p ↔
  p = Policy c d r a i m ∧ 1 ≤ c ≤ 65536 ∧ 1000 ≤ d ≤ 300000 ∧ 100 ≤ r ≤ 150000 ∧ r < d ∧
  1 ≤ a ≤ 100 ∧ 1 ≤ i ≤ 60000 ∧ 1 ≤ m ≤ 3600000 ∧ i ≤ m.
Proof.
  intros Hc Ha. unfold policy_new, RHI_RECONCILIATION_JOB_MAX_ACTIVE, MAX_LEASE_MILLISECONDS,
    MAX_RENEWAL_MILLISECONDS, MAX_ATTEMPTS, MAX_INITIAL_BACKOFF_MILLISECONDS,
    MAX_BACKOFF_MILLISECONDS.
  rewrite and_then_Ok. split.
  - intros (u & Hr & [= <-]). apply reject_if_Ok in Hr. to_prop. inv_int.
    split_and!; first done; lia.
  - intros (-> & ?). exists tt. split; [|done]. apply reject_if_Ok.
    rewrite !orb_false_iff, !negb_false_iff, !between_true, !Z.eqb_neq, !Z.ltb_ge, Z.leb_gt. lia.
Qed.

(** What the decoder checks beyond the schema: the derived identity and a
    nonzero lease owner. *)
Definition consistent (r : job_row) : Prop :=
  col_job_id r =
    job_id (col_trade_id r) (col_input_generation r) (col_evidence_policy_sha256 r) ∧
  is_none_or (λ b, negb (forallb (λ x, x =? 0) b)) (col_lease_owner r) = true.

Lemma decode_job_inv r j :
  decode_job r = Ok j →
  j = view (state j) r ∧ col_state r = state_code (state j) ∧
  col_job_id r =
    job_id (col_trade_id r) (col_input_generation r) (col_evidence_policy_sha256 r).
Proof.
  unfold decode_job. intros Hd. inv_ok. to_prop.
  repeat match goal with
  | H : exact_bytes _ _ = Ok _ |- _ => apply exact_bytes_Ok in H as [-> ?]
  | H : bounded_integer _ _ _ = Ok _ |- _ => apply bounded_integer_Ok in H as [-> ?]
  | H : bounded_text _ _ = Ok _ |- _ => apply bounded_text_Ok in H as ->
  | H : optional_millis _ = Ok _ |- _ => apply optional_millis_Ok in H as ->
  | H : optional_owner _ = Ok _ |- _ => apply optional_owner_Ok in H as ->
  | H : decode_state _ = Ok _ |- _ => apply decode_state_Ok in H
  | H : policy_new _ _ _ _ _ _ = Ok _ |- _ => apply policy_new_Ok in H as [-> ?]; [|done|lia]
  | H : bytes_eqb _ _ = true |- _ => apply bytes_eqb_true in H
  end.
  by split_and!.
Qed.

Lemma shape_fields st r :
  shape st r →
  optional_millis (col_next_attempt_unix_ms r) = Ok (col_next_attempt_unix_ms r) ∧
  optional_millis (col_lease_expires_unix_ms r) = Ok (col_lease_expires_unix_ms r) ∧
  is_none_or (λ b, (length b =? LEASE_OWNER_BYTES)%nat) (col_lease_owner r) = true ∧
  valid_state_fields st (col_attempt_count r) (col_max_attempts r) (col_next_attempt_unix_ms r)
    (col_lease_owner r) (col_lease_expires_unix_ms r) = true.
Proof.
  assert (∀ v, 0 ≤ v ≤ I64_MAX → optional_millis (Some v) = Ok (Some v)) as Hm.
  { intros v Hv. simpl. assert (between 0 U64_MAX v = true) as ->; [|done].
    apply between_true. unfold_max. lia. }
  destruct st; simpl; [intros (? & (n & -> & ?) & -> & ->)
    |intros (? & -> & (o & -> & Ho) & (e & -> & ?))|intros (-> & -> & ->)..];
    simpl; rewrite ?Hm by lia; rewrite ?Ho; split_and!; try done.
  all: rewrite ?andb_true_iff, ?Z.ltb_lt, ?Z.leb_le; simpl; split_and?; first [done|lia|apply Hm; lia].
Qed.

Lemma decode_job_intro st r :
  row_check r = true → consistent r → col_state r = state_code st →
  decode_job r = Ok (view st r).
Proof.
  intros (Hc & st' & Hst' & Hs)%row_check_iff [Hid Hown] Hst.
  rewrite Hst in Hst'. apply state_code_inj in Hst' as <-.
  unfold job_columns_check in Hc. to_prop. inv_int.
  apply shape_fields in Hs as (Hn & He & Ho & Hf). unfold decode_job.
  repeat match goal with
  | H : (_ =? _)%nat = true |- _ => apply Nat.eqb_eq in H
  end.
  assert (policy_new RHI_RECONCILIATION_JOB_MAX_ACTIVE (col_lease_duration_ms r)
    (col_lease_renewal_ms r) (col_max_attempts r) (col_initial_backoff_ms r)
    (col_maximum_backoff_ms r) = Ok (policy (view st r))) as Hp.
  { apply policy_new_Ok; unfold RHI_RECONCILIATION_JOB_MAX_ACTIVE; [done|lia|].
    split_and!; first done; lia. }
  repeat first
    [ rewrite (proj2 (exact_bytes_Ok _ _ _)) by eauto; simpl
    | rewrite (proj2 (bounded_integer_Ok _ _ _ _)) by (split; [done|];
        unfold MAX_UNIX_MILLISECONDS, MAX_ATTEMPTS, MAX_LEASE_MILLISECONDS, MAX_RENEWAL_MILLISECONDS,
          MAX_INITIAL_BACKOFF_MILLISECONDS, MAX_BACKOFF_MILLISECONDS; lia); simpl
    | rewrite Hst, bounded_text_state; simpl; rewrite decode_state_code; simpl
    | rewrite Hp; simpl
    | rewrite Hn; simpl | rewrite He; simpl ].
  assert (optional_owner (col_lease_owner r) = Ok (col_lease_owner r)) as ->.
  { destruct (col_lease_owner r) as [o|]; simpl in *; [|done]. rewrite Ho.
    unfold lease_owner_from_bytes. apply negb_true_iff in Hown. by rewrite Hown. }
  simpl. repeat first
    [ rewrite (proj2 (bounded_integer_Ok _ _ _ _)) by (split; [done|]; unfold MAX_UNIX_MILLISECONDS; lia); simpl ].
  rewrite <- Hid, bytes_eqb_refl, Hf.
  rewrite (proj2 (Z.ltb_ge (col_updated_at_unix_ms r) _)) by lia.
  rewrite (proj2 (Z.ltb_ge (col_attempt_count r) _)) by lia. done.
Qed.

Definition dirty_ok (d : dirty_row) : bool :=
  (length (dirty_trade_id d) =? 16)%nat && between 1 I64_MAX (dirty_generation d)
  && (length (dirty_policy_sha256 d) =? 32)%nat && between 0 I64_MAX (dirty_updated_at_unix_s d).

(** The invariant of the job store. *)
Record db_inv (db : job_db) : Prop := DbInv {
  inv_rows : rows_ok (jobs db) = true;
  inv_consistent : Forall consistent (jobs db);
  inv_attempts : Forall (λ r, col_attempt_count r ≤ col_max_attempts r) (jobs db);
  inv_dirty : Forall (λ d, dirty_ok d = true) (dirty_generations db);
}.

(** ** Statements and the invariant *)

(** [f] keeps the columns a job's identity is derived from. *)
Definition keeps_identity (f : job_row → job_row) : Prop :=
  ∀ r, col_job_id (f r) = col_job_id r ∧ col_trade_id (f r) = col_trade_id r ∧
       col_input_generation (f r) = col_input_generation r ∧
       col_evidence_policy_sha256 (f r) = col_evidence_policy_sha256 r.

Lemma row_conflict_same_id r o : col_job_id r = col_job_id o → row_conflict r o = true.
Proof. simpl. unfold job_conflict. intros ->. by rewrite bytes_eqb_refl. Qed.

Lemma find_job rows r :
  rows_ok rows = true → r ∈ rows → find_by col_job_id bytes_eqb (col_job_id r) rows = Some r.
Proof.
  intros Hok Hr. destruct (find_by _ _ _ rows) as [o|] eqn:Hf.
  - apply find_by_elem in Hf as [Ho Heq%bytes_eqb_true].
    f_equal. symmetry. eapply rows_ok_unique; eauto using job_conflict_sym.
    by apply row_conflict_same_id.
  - eapply find_by_None in Hf; [|exact Hr]. by rewrite bytes_eqb_refl in Hf.
Qed.

Lemma find_job_Some rows i r :
  rows_ok rows = true →
  find_by col_job_id bytes_eqb i rows = Some r ↔ r ∈ rows ∧ col_job_id r = i.
Proof.
  intros Hok. split.
  - by intros [? ?%bytes_eqb_true]%find_by_elem.
  - intros [? <-]. by apply find_job.
Qed.

(** A compare-and-swap statement on the row of job [i] affects one row exactly
    when that row meets its condition. *)
Lemma affected_one p i rows :
  rows_ok rows = true → (∀ r, p r = true → col_job_id r = i) →
  Z.of_nat (length (List.filter p rows)) = 1 ↔
  ∃ r, find_by col_job_id bytes_eqb i rows = Some r ∧ p r = true.
Proof.
  intros Hok Hp.
  destruct (filter_unique p rows Hok) as [Hf|(r & Hr & Hpr & Hf)].
  { intros r o Hr Ho. apply row_conflict_same_id. by rewrite (Hp r Hr), (Hp o Ho). }
  - rewrite Hf. split; [done|]. intros (r & [Hr _]%find_by_elem & Hpr).
    apply list_elem_of_In in Hr.
    assert (In r (List.filter p rows)) as Hin by (by apply filter_In). by rewrite Hf in Hin.
  - rewrite Hf. split; [|done]. intros _. exists r. split; [|done].
    rewrite <- (Hp r Hpr). by apply find_job.
Qed.

Lemma inv_update db p f rows n :
  db_inv db → keeps_identity f →
  (∀ r, p r = true → consistent r → consistent (f r)) →
  (∀ r, p r = true → col_attempt_count r ≤ col_max_attempts r →
        col_attempt_count (f r) ≤ col_max_attempts (f r)) →
  update_rows p f (jobs db) = Ok (rows, n) → db_inv (with_jobs db rows).
Proof.
  intros [Hrows Hcons Hatt Hdirty] Hid Hc Ha Hup.
  pose proof (update_rows_ok job_conflict_sym _ _ _ _ _ Hrows Hup) as Hrows'.
  apply update_rows_Ok in Hup as (-> & _ & _). split; simpl; [done|..|done].
  all: rewrite List.Forall_forall in *; intros r' (r & <- & Hr)%in_map_iff;
    unfold apply_where; destruct (p r) eqn:Hp; eauto.
Qed.

Lemma consistent_no_owner f r :
  keeps_identity f → col_lease_owner (f r) = None → consistent r → consistent (f r).
Proof.
  intros Hf Hn [Hid _]. unfold consistent. destruct (Hf r) as (-> & -> & -> & ->). by rewrite Hn.
Qed.

Lemma consistent_same_owner f r :
  keeps_identity f → col_lease_owner (f r) = col_lease_owner r → consistent r → consistent (f r).
Proof.
  intros Hf Hn [Hid ?]. unfold consistent. destruct (Hf r) as (-> & -> & -> & ->). by rewrite Hn.
Qed.

(** ** Reads never fail on a store that satisfies the invariant *)

Definition state_of (text : string) : RhiReconciliationJobState :=
  match decode_state text with Ok s => s | Err _ => Ready end.

Definition job_of (r : job_row) : RhiReconciliationJob := view (state_of (col_state r)) r.

Lemma state_of_code st : state_of (state_code st) = st.
Proof. by destruct st. Qed.

Lemma row_check_state r : row_check r = true → col_state r = state_code (state_of (col_state r)).
Proof. intros (_ & st & Hst & _)%row_check_iff. by rewrite Hst, state_of_code. Qed.

Lemma row_check_shape r : row_check r = true → shape (state_of (col_state r)) r.
Proof. intros (_ & st & Hst & ?)%row_check_iff. by rewrite Hst, state_of_code. Qed.

Lemma decode_job_of db r : db_inv db → r ∈ jobs db → decode_job r = Ok (job_of r).
Proof.
  intros [Hok Hcons _ _] Hr. pose proof (rows_ok_check _ _ Hok Hr) as Hc.
  apply decode_job_intro; [done| |by apply row_check_state].
  rewrite List.Forall_forall in Hcons. apply Hcons. by apply list_elem_of_In.
Qed.

Lemma read_job_of db i :
  db_inv db → read_job i db = Ok (job_of <$> find_by col_job_id bytes_eqb i (jobs db)).
Proof.
  intros Hinv. unfold read_job. destruct (find_by _ _ _ _) as [r|] eqn:Hf; [|done].
  apply find_by_elem in Hf as [Hr _]. by rewrite (decode_job_of db r).
Qed.

End decoding.

(** ** The operations preserve the invariant *)

Lemma i64_value_Ok v w : i64_value v = Ok w ↔ w = v ∧ 0 ≤ v ≤ I64_MAX.
Proof. unfold i64_value. by rewrite ok_or_Ok, try_from_Some. Qed.

Lemma exec_Ok r rows n : exec r = Ok (rows, n) ↔ r = Ok (rows, n).
Proof. apply map_err_Ok. Qed.

(** [inv_op] opens a successful operation: it inverts the monadic steps and turns
    the statements' results into facts. *)
Ltac inv_op :=
  repeat first
    [ progress inv_ok
    | match goal with
      | H : (let (_, _) := ?x in _) = Ok _ |- _ => destruct x as [? ?] eqn:?; simpl in H
      | H : exec _ = Ok (_, _) |- _ => apply exec_Ok in H
      | H : exec _ = Ok ?x |- _ => destruct x as [? ?]
      | H : i64_value _ = Ok _ |- _ => apply i64_value_Ok in H as [-> ?]
      | H : negb (_ =? 1) = false |- _ => apply negb_false_iff, Z.eqb_eq in H; subst
      end ].

Create HintDb job discriminated.

Section invariants.
Context `{Sha256}.

Lemma keeps_closed st now : keeps_identity (set_closed st now).
Proof. by intros r. Qed.
Lemma keeps_claimed own e now : keeps_identity (set_claimed own e now).
Proof. by intros r. Qed.
Lemma keeps_renewed e now : keeps_identity (set_renewed e now).
Proof. by intros r. Qed.
Lemma keeps_retry next now : keeps_identity (set_retry next now).
Proof. by intros r. Qed.
Lemma keeps_exhausted now : keeps_identity (set_exhausted now).
Proof. by intros r. Qed.
#[local] Hint Resolve keeps_closed keeps_claimed keeps_renewed keeps_retry keeps_exhausted : job.
#[local] Hint Resolve consistent_no_owner consistent_same_owner : job.

Lemma supersede_inv db now i rev rows n :
  db_inv db → SUPERSEDE_JOB_SQL now i rev (jobs db) = Ok (rows, n) → db_inv (with_jobs db rows).
Proof.
  intros Hinv Hup. eapply inv_update; [done|..|exact Hup]; auto with job.
Qed.

Lemma complete_inv db now i rev own e rows n :
  db_inv db → COMPLETE_JOB_SQL now i rev own e (jobs db) = Ok (rows, n) → db_inv (with_jobs db rows).
Proof.
  intros Hinv Hup. eapply inv_update; [done|..|exact Hup]; auto with job.
Qed.

Lemma exhaust_expired_inv db now rows n :
  db_inv db → EXHAUST_EXPIRED_SQL now (jobs db) = Ok (rows, n) → db_inv (with_jobs db rows).
Proof.
  intros Hinv Hup. eapply inv_update; [done|..|exact Hup]; auto with job.
Qed.

Lemma insert_inv db refs i trade gen pol p now rows :
  db_inv db → i = job_id trade gen pol →
  insert_row refs (INSERT_JOB_ROW i trade gen pol p now) (jobs db) = Ok rows →
  db_inv (with_jobs db rows).
Proof.
  intros [Hok Hcons Hatt Hd] -> Hins. pose proof (insert_row_ok job_conflict_sym _ _ _ _ Hok Hins).
  apply insert_row_Ok in Hins as (-> & _ & Hadm). split; simpl; [done|..|done].
  - apply Forall_app_2; [done|]. constructor; [by split|constructor].
  - apply Forall_app_2; [done|]. constructor; [|constructor]. simpl.
    unfold row_admissible in Hadm. to_prop.
    apply row_check_iff in H1 as [H1 _]. unfold job_columns_check in H1. to_prop. inv_int.
    match goal with H : 1 ≤ col_max_attempts _ ≤ 100 |- _ => change (1 ≤ max_attempts p ≤ 100) in H end.
    lia.
Qed.

(** What a successful [schedule] did: it found the job of the current dirty
    generation, or it superseded the active job and inserted a new one. *)
Definition schedule_found (i trade : bytes) (dirty : DirtyGeneration) (db : job_db)
    (o : RhiReconciliationScheduleOutcome) (db' : job_db) : Prop :=
  ∃ job, read_job i db = Ok (Some job) ∧ trade_id job = trade ∧
    input_generation job = generation dirty ∧ policy_digest job = dirty_policy dirty ∧
    o = ScheduleOutcome job false ∧ db' = db.

Definition schedule_inserted (i trade : bytes) (dirty : DirtyGeneration)
    (p : RhiReconciliationJobPolicy) (now : Z) (db : job_db)
    (o : RhiReconciliationScheduleOutcome) (db' : job_db) : Prop :=
  read_job i db = Ok None ∧
  ∃ active rows job,
    read_active_job trade db = Ok active ∧
    match active with
    | None => rows = jobs db
    | Some a =>
        input_generation a < generation dirty ∧
        SUPERSEDE_JOB_SQL now (id a) (revision a) (jobs db) = Ok (rows, 1)
    end ∧
    ACTIVE_JOB_COUNT_SQL rows < queue_capacity p ∧
    row_admissible rows (INSERT_JOB_ROW i trade (generation dirty) (dirty_policy dirty) p now) = true ∧
    db' = with_jobs db
      (rows ++ [INSERT_JOB_ROW i trade (generation dirty) (dirty_policy dirty) p now]) ∧
    read_job i db' = Ok (Some job) ∧ o = ScheduleOutcome job true.

Lemma schedule_Ok trade p now db o db' :
  schedule trade p now db = Ok (o, db') →
  ∃ dirty, read_dirty trade db = Ok dirty ∧
    (schedule_found (job_id trade (generation dirty) (dirty_policy dirty)) trade dirty db o db' ∨
     schedule_inserted (job_id trade (generation dirty) (dirty_policy dirty)) trade dirty p now
       db o db').
Proof.
  unfold schedule. intros Hs. bind Hs as dirty Hdirty. exists dirty. split; [done|].
  bind Hs as existing Hex. destruct existing as [job|].
  - left. bind Hs as u Hr. apply reject_if_Ok in Hr. to_prop.
    repeat match goal with H : bytes_eqb _ _ = true |- _ => apply bytes_eqb_true in H end.
    inv_ok. by exists job.
  - right. split; [done|]. bind Hs as active Hact. bind Hs as db1 Hdb1.
    inv_op. to_prop. inv_int.
    match goal with H : insert_row _ _ _ = Ok _ |- _ =>
      apply insert_row_Ok in H as (-> & _ & Hadm) end.
    assert (∃ rows, db1 = with_jobs db rows ∧ match active with
      | None => rows = jobs db
      | Some a => input_generation a < generation dirty ∧
          SUPERSEDE_JOB_SQL now (id a) (revision a) (jobs db) = Ok (rows, 1) end)
      as (rows & -> & Hrows).
    { destruct active as [a|]; [|exists (jobs db); destruct db; by inv_ok].
      inv_op. to_prop. by eexists. }
    simpl in *. exists active, rows; eexists. by split_and!.
Qed.

Lemma schedule_inv trade p now db o db' :
  db_inv db → schedule trade p now db = Ok (o, db') → db_inv db'.
Proof.
  intros Hinv (dirty & _ & [(job & _ & _ & _ & _ & _ & ->)|Hins])%schedule_Ok; [done|].
  destruct Hins as (_ & active & rows & job & _ & Hact & _ & Hadm & -> & _).
  set (r := INSERT_JOB_ROW _ _ _ _ _ _) in *.
  assert (db_inv (with_jobs db rows)) as Hinv'.
  { destruct active; [|subst; by destruct db]. destruct Hact. by eapply supersede_inv. }
  eapply (insert_inv (with_jobs db rows) (λ _, true)); [done|done|].
  by apply insert_row_intro.
Qed.

(** ** What each operation does to the rows *)

Lemma expired_ids_elem now rows i :
  i ∈ expired_ids now rows → ∃ r, r ∈ rows ∧ expired_final now r = true ∧ col_job_id r = i.
Proof.
  unfold expired_ids. rewrite list_elem_of_In, in_map_iff. intros (r & <- & Hr).
  apply list_elem_of_In, elem_of_take in Hr as (n & Hn & _). apply list_elem_of_lookup_2 in Hn.
  rewrite sort_by_perm, list_elem_of_In, filter_In in Hn. rewrite <- list_elem_of_In in Hn.
  naive_solver.
Qed.

Lemma existsb_bytes i ids : existsb (bytes_eqb i) ids = true ↔ i ∈ ids.
Proof.
  rewrite existsb_exists, list_elem_of_In. split.
  - by intros (x & ? & ->%bytes_eqb_true).
  - intros ?. exists i. by rewrite bytes_eqb_refl.
Qed.

(** [EXHAUST_EXPIRED_SQL] touches only expired rows with no attempts left. *)
Lemma exhaust_expired_find db now rows n i :
  db_inv db → EXHAUST_EXPIRED_SQL now (jobs db) = Ok (rows, n) →
  find_by col_job_id bytes_eqb i rows =
    (λ r, if existsb (bytes_eqb (col_job_id r)) (expired_ids now (jobs db))
          then set_exhausted now r else r) <$> find_by col_job_id bytes_eqb i (jobs db) ∧
  ∀ r, find_by col_job_id bytes_eqb i (jobs db) = Some r →
    existsb (bytes_eqb (col_job_id r)) (expired_ids now (jobs db)) = true →
    expired_final now r = true.
Proof.
  intros Hinv (-> & _ & _)%update_rows_Ok. split.
  - rewrite find_by_apply by (intros; by apply keeps_exhausted). done.
  - intros r Hr (o & Ho & He & Hid)%existsb_bytes%expired_ids_elem.
    apply find_job_Some in Hr as [Hr _]; [|apply Hinv].
    assert (r = o) as ->; [|done].
    eapply rows_ok_unique; [apply job_conflict_sym|apply Hinv|done|done|].
    by apply row_conflict_same_id.
Qed.

Lemma exhaust_expired_unchanged db now rows n r :
  db_inv db → EXHAUST_EXPIRED_SQL now (jobs db) = Ok (rows, n) →
  r ∈ jobs db → expired_final now r = false →
  find_by col_job_id bytes_eqb (col_job_id r) rows = Some r.
Proof.
  intros Hinv Hex Hr He. pose proof (find_job _ _ (inv_rows _ Hinv) Hr) as Hf.
  destruct (exhaust_expired_find _ _ _ _ (col_job_id r) Hinv Hex) as [-> Hall].
  rewrite Hf; simpl. destruct (existsb _ _) eqn:Hb; [|done]. by rewrite (Hall r) in He.
Qed.

Definition claim_filter (now : Z) (r x : job_row) : bool :=
  bytes_eqb (col_job_id x) (col_job_id r) && (col_revision x =? col_revision r) && claimable now x.

Definition claim_expiry (now : Z) (r : job_row) : Z := now + col_lease_duration_ms r.

Lemma read_claimable_Some now rows r :
  READ_CLAIMABLE_SQL now rows = Some r →
  r ∈ rows ∧ claimable now r = true ∧
  ∀ x, x ∈ rows → claimable now x = true → is_le (claim_order r x).
Proof.
  unfold READ_CLAIMABLE_SQL. intros [Hin Hmin]%sort_by_head; [|apply _].
  rewrite list_elem_of_In, filter_In, <- list_elem_of_In in Hin. destruct Hin.
  split_and!; [done..|]. intros x Hx Hc. apply Hmin.
  by rewrite list_elem_of_In, filter_In, <- list_elem_of_In.
Qed.

End invariants.

#[export] Hint Resolve keeps_closed keeps_claimed keeps_renewed keeps_retry keeps_exhausted : job.
#[export] Hint Resolve consistent_no_owner consistent_same_owner : job.

End Job.
