(* ===== verification/ReconciliationJobSafety.v ===== *)
(** * Reconciliation jobs: what the operations guarantee

    The theorems about [Job] of [ReconciliationJob.v]: the step relation of the
    job store, its invariant and the lease fencing, the bounds on attempts and on
    the queue, the choice of [claim_next], idempotent scheduling and
    supersession, and the repository methods over any transaction host. *)

From stdpp Require Import list strings.
From S2P Require Import Prelude.
From S2P Require Import Sql.
From S2P Require Import Interfaces.
From S2P Require Import ReconciliationJob.

Module JobSafety.
Import Job.

Section results.
Context `{Sha256}.

(** ** What a successful operation returns and leaves in the table *)

(** A compare-and-swap on job [i]: row [r] became [f r], no other row changed. *)
Record swapped (i : bytes) (f : job_row → job_row) (r : job_row) (rows rows' : list job_row) :
    Prop := Swapped {
  swap_before : find_by col_job_id bytes_eqb i rows = Some r;
  swap_guard : row_guard r (f r) = true;
  swap_check : row_check (f r) = true;
  swap_after k : find_by col_job_id bytes_eqb k rows' =
    if bytes_eqb k i then Some (f r) else find_by col_job_id bytes_eqb k rows;
  swap_ok : rows_ok rows' = true;
  swap_rows x : x ∈ rows' → x = f r ∨ x ∈ rows;
}.

Lemma swapped_elem i f r rows rows' : swapped i f r rows rows' → r ∈ rows ∧ col_job_id r = i.
Proof. intros [[? ?%bytes_eqb_true]%find_by_elem _ _ _ _ _]. done. Qed.

Lemma update_swapped p f i rows rows' :
  rows_ok rows = true → (∀ r, p r = true → col_job_id r = i) → keeps_identity f →
  update_rows p f rows = Ok (rows', 1) → ∃ r, p r = true ∧ swapped i f r rows rows'.
Proof.
  intros Hok Hp Hf Hup. pose proof (update_rows_ok job_conflict_sym _ _ _ _ _ Hok Hup) as Hok'.
  apply update_rows_Ok in Hup as (-> & Hn & Hall). symmetry in Hn. apply (affected_one _ i) in Hn as (r & Hr & Hpr); [|done..].
  exists r. split; [done|]. pose proof Hr as [Hin <-%bytes_eqb_true]%find_by_elem.
  destruct (elem_of_Forall _ _ _ Hall Hin Hpr) as [Hg Hc].
  assert (∀ o, o ∈ rows → apply_where p f o = if bytes_eqb (col_job_id o) (col_job_id r) then f r else o)
    as Happly.
  { intros o Ho. unfold apply_where. destruct (bytes_eqb _ _) eqn:Hid.
    - apply bytes_eqb_true in Hid. rewrite <- Hid in Hr. rewrite find_job in Hr by done.
      inv_ok. by rewrite Hpr.
    - destruct (p o) eqn:Hpo; [|done]. rewrite (Hp o Hpo) in Hid. by rewrite bytes_eqb_refl in Hid. }
  split; [done..| |done|].
  - intros k. rewrite find_by_apply by (intros; apply Hf).
    destruct (find_by _ _ k rows) as [o|] eqn:Ho; simpl.
    + apply find_by_elem in Ho as [Hin' <-%bytes_eqb_true]. rewrite Happly by done.
      by destruct (bytes_eqb _ _).
    + destruct (bytes_eqb k _) eqn:Hk; [|done]. apply bytes_eqb_true in Hk as ->. congruence.
  - intros x (o & -> & Ho)%list_elem_of_fmap. rewrite Happly by done.
    destruct (bytes_eqb _ _); auto.
Qed.

(** A swapped row that keeps the decoder's conditions keeps the invariant. *)
Lemma swapped_inv db i f r rows' :
  db_inv db → swapped i f r (jobs db) rows' → (consistent r → consistent (f r)) →
  (col_attempt_count r ≤ col_max_attempts r → col_attempt_count (f r) ≤ col_max_attempts (f r)) →
  db_inv (with_jobs db rows').
Proof.
  intros [Hok Hcons Hatt Hd] Hsw Hc Ha. destruct (swapped_elem _ _ _ _ _ Hsw) as [Hr _].
  split; simpl; [apply Hsw|..|done]; apply List.Forall_forall; intros x Hx;
    apply list_elem_of_In, (swap_rows _ _ _ _ _ Hsw) in Hx as [->|Hx].
  - apply Hc. exact (elem_of_Forall _ _ _ Hcons Hr).
  - exact (elem_of_Forall _ _ _ Hcons Hx).
  - apply Ha. exact (elem_of_Forall _ _ _ Hatt Hr).
  - exact (elem_of_Forall _ _ _ Hatt Hx).
Qed.

Lemma read_swapped i f r rows rows' db j :
  swapped i f r rows rows' → read_job i (with_jobs db rows') = Ok (Some j) →
  j = view (state j) (f r) ∧ col_state (f r) = state_code (state j).
Proof.
  intros Hsw. unfold read_job. simpl. rewrite (swap_after _ _ _ _ _ Hsw), bytes_eqb_refl.
  intros Hj. inv_ok. by apply decode_job_inv in H0 as (? & ? & _).
Qed.

Lemma decode_lease_row db r j :
  decode_job r = Ok j → r ∈ jobs db → db_inv db → j = job_of r.
Proof. intros Hd Hr Hinv. rewrite (decode_job_of db r Hinv Hr) in Hd. by inv_ok. Qed.

(** The result of a successful claim: the first claimable row is now leased. *)
Definition claimed (own : bytes) (now : Z) (rows : list job_row)
    (o : option RhiReconciliationLease) (rows' : list job_row) : Prop :=
  match READ_CLAIMABLE_SQL now rows with
  | None => o = None ∧ rows' = rows
  | Some r =>
      claim_expiry now r ≤ I64_MAX ∧
      swapped (col_job_id r) (set_claimed own (claim_expiry now r) now) r rows rows' ∧
      o = Some (MkLease (view Leased (set_claimed own (claim_expiry now r) now r)) own
                  (claim_expiry now r))
  end.

Lemma claim_swapped own e now r rows rows' :
  rows_ok rows = true → r ∈ rows →
  CLAIM_JOB_SQL own e now (col_job_id r) (col_revision r) rows = Ok (rows', 1) →
  swapped (col_job_id r) (set_claimed own e now) r rows rows'.
Proof.
  intros Hok Hr Hup. apply (update_swapped _ _ (col_job_id r)) in Hup as (r' & Hp & Hsw);
    [|done|intros; by to_prop; apply bytes_eqb_true|apply keeps_claimed].
  assert (r' = r) as ->; [|done].
  pose proof (swap_before _ _ _ _ _ Hsw) as Hr'. rewrite find_job in Hr' by done. by inv_ok.
Qed.

(** [claim_next] is the exhaustion of the expired final attempts followed by [claimed]. *)
Lemma claim_next_Ok own now db o db' :
  db_inv db → claim_next own now db = Ok (o, db') →
  0 ≤ now ≤ I64_MAX ∧
  ∃ rows n, EXHAUST_EXPIRED_SQL now (jobs db) = Ok (rows, n) ∧
    claimed own now rows o (jobs db') ∧ dirty_generations db' = dirty_generations db.
Proof.
  unfold claim_next. intros Hinv Hc. bind Hc as nv Hnow. apply i64_value_Ok in Hnow as [-> Hnow].
  split; [done|]. bind Hc as ex Hex. destruct ex as [rows n]. apply exec_Ok in Hex.
  exists rows, n. split; [done|]. simpl in Hc. unfold claimed.
  pose proof (exhaust_expired_inv _ _ _ _ Hinv Hex) as Hinv1.
  destruct (READ_CLAIMABLE_SQL now rows) as [r|] eqn:Hread; [|by inv_ok].
  apply read_claimable_Some in Hread as (Hr & Hcl & _).
  bind Hc as cand Hcand. eapply (decode_lease_row (with_jobs db rows)) in Hcand; [|done..].
  subst cand. inv_op. simpl in *. inv_int. to_prop.
  apply claim_swapped in H3 as Hsw; [|apply Hinv1|done].
  split_and!; [unfold claim_expiry; lia|done| |done].
  apply (read_swapped _ _ _ _ _ _ _ Hsw) in H6 as [H6 _]. rewrite H9 in H6. subst x5. simpl in H8. by inv_ok.
Qed.

(** The lease row [renew] and [record_failure] act on. *)
Lemma holds_lease_id i rev own e now r : holds_lease i rev own e now r = true → col_job_id r = i.
Proof. unfold holds_lease. intros. to_prop. by apply bytes_eqb_true. Qed.

Lemma holds_lease_inv i rev own e now r :
  holds_lease i rev own e now r = true →
  col_job_id r = i ∧ col_revision r = rev ∧ col_state r = "leased" ∧
  col_lease_owner r = Some own ∧ col_lease_expires_unix_ms r = Some e ∧ now < e.
Proof.
  unfold holds_lease, col_blob_eq, col_eq, col_gt. intros. to_prop.
  destruct (col_lease_owner r) as [o|], (col_lease_expires_unix_ms r) as [x|]; simpl in *; try done.
  to_prop. subst. split_and!; try done; [by apply bytes_eqb_true|by apply String.eqb_eq|].
  f_equal. by apply bytes_eqb_true.
Qed.

Lemma renew_Ok l now db l' db' :
  db_inv db → renew l now db = Ok (l', db') →
  let e := now + lease_duration_ms (policy (lease_job l)) in
  0 ≤ now ≤ I64_MAX ∧ lease_expires_at l < e ≤ I64_MAX ∧ 
  ∃ r, holds_lease (id (lease_job l)) (revision (lease_job l)) (owner l) (lease_expires_at l) now r = true ∧
    col_updated_at_unix_ms r ≤ now ∧
    swapped (id (lease_job l)) (set_renewed e now) r (jobs db) (jobs db') ∧
    dirty_generations db' = dirty_generations db ∧
    l' = MkLease (view Leased (set_renewed e now r)) (owner l) e.
Proof.
  unfold renew. intros Hinv Hs. inv_op. to_prop. inv_int. simpl in *.
  unfold RENEW_JOB_SQL in *.
  match goal with H : update_rows _ _ _ = Ok _ |- _ =>
    apply (update_swapped _ _ (id (lease_job l))) in H as (r & Hp & Hsw);
    [|apply Hinv|intros; to_prop; by eapply holds_lease_id|apply keeps_renewed] end.
  to_prop. split_and!; [lia..|]. exists r. split_and!; [done..|].
  apply (read_swapped _ _ _ _ _ _ _ Hsw) in H8 as [H8 _]. rewrite H11 in H8. subst x7.
  simpl in H10. by inv_ok.
Qed.

(** The row [record_failure] writes: another attempt, or none left. *)
Definition failed (l : RhiReconciliationLease) (now delay : Z) : job_row → job_row :=
  if max_attempts (policy (lease_job l)) <=? attempt_count (lease_job l)
  then λ r, with_failures (col_failure_count r + 1) (set_closed "exhausted" now r)
  else set_retry (now + delay) now.

Definition failed_state (l : RhiReconciliationLease) : RhiReconciliationJobState :=
  if max_attempts (policy (lease_job l)) <=? attempt_count (lease_job l) then Exhausted else Ready.

Lemma keeps_failed l now delay : keeps_identity (failed l now delay).
Proof. unfold failed. by destruct (_ <=? _); intros r. Qed.

Lemma record_failure_Ok l now delay db j' db' :
  db_inv db → record_failure l now delay db = Ok (j', db') →
  let j := lease_job l in
  0 ≤ now ≤ I64_MAX ∧
  ∃ r, holds_lease (id j) (revision j) (owner l) (lease_expires_at l) now r = true ∧
    (col_max_attempts r <=? col_attempt_count r) = (max_attempts (policy j) <=? attempt_count j) ∧
    swapped (id j) (failed l now delay) r (jobs db) (jobs db') ∧
    dirty_generations db' = dirty_generations db ∧
    j' = view (failed_state l) (failed l now delay r).
Proof.
  intros Hinv Hs j. unfold record_failure, failed, failed_state in *. fold j in Hs |- *.
  bind Hs as nv Hnow. apply i64_value_Ok in Hnow as [-> Hnow]. split; [done|].
  destruct (_ <=? attempt_count j) eqn:Hfinal; inv_op; unfold EXHAUST_JOB_SQL, RETRY_JOB_SQL in *;
  match goal with H : update_rows _ ?f _ = Ok _ |- _ =>
    apply (update_swapped _ _ (id j)) in H as (r & Hp & Hsw);
    [|apply Hinv|intros; to_prop; by eapply holds_lease_id|by intros ?] end;
  to_prop; exists r; simpl in *;
  inv_int; (split_and!; [done|by first [apply Z.leb_le|apply Z.leb_gt]|done|done|]);
  match goal with H : read_job _ _ = Ok _ |- _ =>
    apply (read_swapped _ _ _ _ _ _ _ Hsw) in H as [Hv Hst] end;
  first [apply (state_code_inj Exhausted) in Hst|apply (state_code_inj Ready) in Hst];
  by rewrite Hst.
Qed.

(** ** The operations preserve the invariant *)

(** [RhiReconciliationLeaseOwner]: sixteen bytes that are not all zero. *)
Definition owner_ok (own : bytes) : Prop := forallb (λ x, x =? 0) own = false.

Lemma claimed_inv own now db rows o rows' :
  owner_ok own → db_inv (with_jobs db rows) → claimed own now rows o rows' →
  db_inv (with_jobs db rows').
Proof.
  unfold claimed. intros Hown Hinv. destruct (READ_CLAIMABLE_SQL now rows) as [r|] eqn:Hread.
  - intros (_ & Hsw & _). apply read_claimable_Some in Hread as (_ & Hcl & _).
    eapply (swapped_inv (with_jobs db rows)); [done|done|..].
    + intros [Hid _]. split; [done|]. simpl. by rewrite Hown.
    + intros _. unfold claimable in Hcl. to_prop. simpl. lia.
  - by intros [_ ->].
Qed.

Lemma claim_next_inv own now db o db' :
  owner_ok own → db_inv db → claim_next own now db = Ok (o, db') → db_inv db'.
Proof.
  intros Hown Hinv Hc. apply claim_next_Ok in Hc as (_ & rows & n & Hex & Hcl & Hd); [|done].
  pose proof (exhaust_expired_inv _ _ _ _ Hinv Hex) as Hinv1.
  pose proof (claimed_inv _ _ _ _ _ _ Hown Hinv1 Hcl). destruct db'; simpl in *. by subst.
Qed.

Lemma renew_inv l now db l' db' : db_inv db → renew l now db = Ok (l', db') → db_inv db'.
Proof.
  intros Hinv Hs. apply renew_Ok in Hs as (_ & _ & r & _ & _ & Hsw & Hd & _); [|done].
  eapply swapped_inv in Hsw; [|done|..]; [|apply consistent_same_owner; auto with job|done].
  destruct db'; simpl in *. by subst.
Qed.

Lemma record_failure_inv l now delay db j db' :
  db_inv db → record_failure l now delay db = Ok (j, db') → db_inv db'.
Proof.
  intros Hinv Hs. apply record_failure_Ok in Hs as (_ & r & _ & _ & Hsw & Hd & _); [|done].
  eapply swapped_inv in Hsw; [|done|..].
  - destruct db'; simpl in *. by subst.
  - apply consistent_no_owner; [apply keeps_failed|]. unfold failed. by destruct (_ <=? _).
  - unfold failed. by destruct (_ <=? _).
Qed.

(** ** The job store as a labelled step relation *)

(** One committed operation, labelled with the job a claim leased.  The last two steps
    are other components': the finalization completing a leased job, and any writer
    moving the dirty generations of the trades. *)
Inductive job_step : option bytes → job_db → job_db → Prop :=
| step_schedule trade p now o db db' :
    schedule trade p now db = Ok (o, db') → job_step None db db'
| step_claim own now l db db' :
    owner_ok own → claim_next own now db = Ok (Some l, db') →
    job_step (Some (id (lease_job l))) db db'
| step_idle own now db db' :
    owner_ok own → claim_next own now db = Ok (None, db') → job_step None db db'
| step_renew l now l' db db' :
    renew l now db = Ok (l', db') → job_step None db db'
| step_failure l now delay j db db' :
    record_failure l now delay db = Ok (j, db') → job_step None db db'
| step_complete now i rev own e rows db :
    COMPLETE_JOB_SQL now i rev own e (jobs db) = Ok (rows, 1) → job_step None db (with_jobs db rows)
| step_dirty gens db :
    Forall (λ d, dirty_ok d = true) gens → job_step None db (JobDb gens (jobs db)).

Inductive job_steps : list (option bytes) → job_db → job_db → Prop :=
| steps_nil db : job_steps [] db db
| steps_cons a as' db db1 db2 :
    job_step a db db1 → job_steps as' db1 db2 → job_steps (a :: as') db db2.

Lemma job_step_inv a db db' : job_step a db db' → db_inv db → db_inv db'.
Proof.
  destruct 1; intros Hinv.
  - by eapply schedule_inv.
  - by eapply claim_next_inv.
  - by eapply claim_next_inv.
  - by eapply renew_inv.
  - by eapply record_failure_inv.
  - by eapply complete_inv.
  - by destruct Hinv.
Qed.

Lemma job_steps_inv as' db db' : job_steps as' db db' → db_inv db → db_inv db'.
Proof. induction 1; eauto using job_step_inv. Qed.

(** What a step does to one row: nothing, or a change of an active row that bumps
    the revision and counts an attempt exactly when the step leases this job. *)
Definition evolves (a : option bytes) (i : bytes) (r r' : job_row) : Prop :=
  (r' = r ∧ a ≠ Some i) ∨
  (col_revision r' = col_revision r + 1 ∧ state_active (col_state r) = true ∧
   col_max_attempts r' = col_max_attempts r ∧
   col_attempt_count r' = col_attempt_count r + (if decide (a = Some i) then 1 else 0)).

Lemma evolves_refl i r : evolves None i r r.
Proof. by left. Qed.

Lemma leased_active r : String.eqb (col_state r) "leased" = true → state_active (col_state r) = true.
Proof. unfold state_active. intros ->. by rewrite orb_true_r. Qed.

Lemma claimable_active now r : claimable now r = true → state_active (col_state r) = true.
Proof.
  unfold claimable, state_active. intros. to_prop.
  by destruct (String.eqb _ "ready"), (String.eqb _ "leased").
Qed.

Lemma holds_lease_active i rev own e now r :
  holds_lease i rev own e now r = true → state_active (col_state r) = true.
Proof. unfold holds_lease. intros. to_prop. by apply leased_active. Qed.

Lemma swapped_evolves f k r0 rows rows' i r :
  swapped k f r0 rows rows' → state_active (col_state r0) = true →
  col_revision (f r0) = col_revision r0 + 1 → col_max_attempts (f r0) = col_max_attempts r0 →
  col_attempt_count (f r0) = col_attempt_count r0 →
  find_by col_job_id bytes_eqb i rows = Some r →
  ∃ r', find_by col_job_id bytes_eqb i rows' = Some r' ∧ evolves None i r r'.
Proof.
  intros Hsw Hact Hrev Hmax Hatt Hr. rewrite (swap_after _ _ _ _ _ Hsw).
  destruct (bytes_eqb i k) eqn:Hik; [|exists r; auto using evolves_refl].
  apply bytes_eqb_true in Hik as ->. rewrite (swap_before _ _ _ _ _ Hsw) in Hr. inv_ok.
  eexists. split; [done|]. right. rewrite decide_False by done. split_and!; [done..|lia].
Qed.

Lemma supersede_swapped now i rev rows rows' :
  rows_ok rows = true → SUPERSEDE_JOB_SQL now i rev rows = Ok (rows', 1) →
  ∃ r, col_revision r = rev ∧ state_active (col_state r) = true ∧
    swapped i (set_closed "superseded" now) r rows rows'.
Proof.
  intros Hok Hup. apply (update_swapped _ _ i) in Hup as (r & Hp & Hsw); [|done| |by auto with job].
  - to_prop. by exists r.
  - intros r Hp. to_prop. by apply bytes_eqb_true.
Qed.

Lemma complete_swapped now i rev own e rows rows' :
  rows_ok rows = true → COMPLETE_JOB_SQL now i rev own e rows = Ok (rows', 1) →
  ∃ r, state_active (col_state r) = true ∧ swapped i (set_closed "completed" now) r rows rows'.
Proof.
  intros Hok Hup. apply (update_swapped _ _ i) in Hup as (r & Hp & Hsw); [|done| |by auto with job].
  - to_prop. exists r. split; [by apply leased_active|done].
  - intros r Hp. to_prop. by apply bytes_eqb_true.
Qed.

Lemma schedule_row trade p now o db db' i r :
  db_inv db → schedule trade p now db = Ok (o, db') →
  find_by col_job_id bytes_eqb i (jobs db) = Some r →
  ∃ r', find_by col_job_id bytes_eqb i (jobs db') = Some r' ∧ evolves None i r r'.
Proof.
  intros Hinv (dirty & _ & [(job & _ & _ & _ & _ & _ & ->)|Hins])%schedule_Ok Hr.
  { exists r. auto using evolves_refl. }
  destruct Hins as (_ & active & rows & job & _ & Hact & _ & _ & -> & _). simpl.
  assert (∃ r', find_by col_job_id bytes_eqb i rows = Some r' ∧ evolves None i r r')
    as (r' & Hr' & He).
  { destruct active as [a|]; [|subst; eauto using evolves_refl].
    destruct Hact as [_ (r0 & ? & ? & Hsw)%supersede_swapped]; [|apply Hinv].
    by eapply swapped_evolves. }
  exists r'. by rewrite find_by_app, Hr'.
Qed.

Lemma exhaust_expired_row db now rows n i r :
  db_inv db → EXHAUST_EXPIRED_SQL now (jobs db) = Ok (rows, n) →
  find_by col_job_id bytes_eqb i (jobs db) = Some r →
  ∃ r', find_by col_job_id bytes_eqb i rows = Some r' ∧
    (r' = r ∨ r' = set_exhausted now r ∧ expired_final now r = true).
Proof.
  intros Hinv Hex Hr. destruct (exhaust_expired_find _ _ _ _ i Hinv Hex) as [-> Hall].
  rewrite Hr; simpl. destruct (existsb _ _) eqn:Hb; eauto 10.
Qed.

Lemma claim_next_row own now o db db' i r :
  db_inv db → claim_next own now db = Ok (o, db') →
  find_by col_job_id bytes_eqb i (jobs db) = Some r →
  ∃ r', find_by col_job_id bytes_eqb i (jobs db') = Some r' ∧
    evolves ((λ l, id (lease_job l)) <$> o) i r r'.
Proof.
  intros Hinv (_ & rows & n & Hex & Hcl & _)%claim_next_Ok Hr; [|done].
  destruct (exhaust_expired_row _ _ _ _ _ _ Hinv Hex Hr) as (r1 & Hr1 & Hcase).
  assert (r1 = r ∨ col_revision r1 = col_revision r + 1 ∧ state_active (col_state r) = true ∧
    col_max_attempts r1 = col_max_attempts r ∧ col_attempt_count r1 = col_attempt_count r ∧
    state_active (col_state r1) = false) as Hr1'.
  { destruct Hcase as [->|[-> He]]; [by left|right]. split_and!; try done.
    unfold expired_final in He. to_prop. by apply leased_active. }
  unfold claimed in Hcl. destruct (READ_CLAIMABLE_SQL now rows) as [r0|] eqn:Hread.
  - destruct Hcl as (_ & Hsw & ->). apply read_claimable_Some in Hread as (_ & Hc & _). simpl.
    rewrite (swap_after _ _ _ _ _ Hsw). destruct (bytes_eqb i (col_job_id r0)) eqn:Hi.
    + apply bytes_eqb_true in Hi. subst i. rewrite (swap_before _ _ _ _ _ Hsw) in Hr1.
      inv_ok. eexists. split; [done|].
      destruct Hr1' as [->|(_ & _ & _ & _ & Hno)].
      * right. rewrite decide_True by done. by split_and!; [|apply (claimable_active now)|..].
      * by rewrite (claimable_active now) in Hno.
    + exists r1. split; [done|].
      assert (Some (col_job_id r0) ≠ Some i) as Hne.
      { intros [= Heq]. rewrite Heq, bytes_eqb_refl in Hi. done. }
      destruct Hr1' as [->|(? & ? & ? & ? & _)]; [by left|right].
      rewrite decide_False by done. split_and!; [done..|lia].
  - destruct Hcl as [-> ->]. exists r1. split; [done|]. simpl.
    destruct Hr1' as [->|(? & ? & ? & ? & _)]; [by left|right].
    rewrite decide_False by done. split_and!; [done..|lia].
Qed.

Lemma job_step_row a db db' i r :
  db_inv db → job_step a db db' → find_by col_job_id bytes_eqb i (jobs db) = Some r →
  ∃ r', find_by col_job_id bytes_eqb i (jobs db') = Some r' ∧ evolves a i r r'.
Proof.
  intros Hinv. destruct 1 as [? ? ? ? ? ? Hs|? ? ? ? ? _ Hs|? ? ? ? _ Hs|? ? ? ? ? Hs|? ? ? ? ? ? Hs
    |? ? ? ? ? ? ? Hs|]; intros Hr.
  - by eapply schedule_row.
  - by eapply (claim_next_row _ _ (Some l)).
  - by eapply (claim_next_row _ _ None).
  - apply renew_Ok in Hs as (_ & _ & r0 & Hl & _ & Hsw & _); [|done].
    eapply swapped_evolves; [exact Hsw|by eapply holds_lease_active|done..].
  - apply record_failure_Ok in Hs as (_ & r0 & Hl & _ & Hsw & _); [|done].
    eapply swapped_evolves; [exact Hsw|by eapply holds_lease_active|..|done];
      unfold failed; by destruct (_ <=? _).
  - apply complete_swapped in Hs as (r0 & Hl & Hsw); [|apply Hinv]. by eapply swapped_evolves.
  - exists r. auto using evolves_refl.
Qed.

Lemma job_steps_row as' db db' i r :
  db_inv db → job_steps as' db db' → find_by col_job_id bytes_eqb i (jobs db) = Some r →
  ∃ r', find_by col_job_id bytes_eqb i (jobs db') = Some r' ∧
    (r' = r ∨ col_revision r < col_revision r') ∧ col_max_attempts r' = col_max_attempts r ∧
    col_attempt_count r + Z.of_nat (length (List.filter (λ a, bool_decide (a = Some i)) as')) ≤
      col_attempt_count r'.
Proof.
  intros Hinv Hsteps. revert r. induction Hsteps as [db|a as' db db1 db2 Hstep Hsteps IH]; intros r Hr.
  - exists r. simpl. split_and!; [done|by left|done|lia].
  - destruct (job_step_row _ _ _ _ _ Hinv Hstep Hr) as (r1 & Hr1 & He).
    destruct (IH (job_step_inv _ _ _ Hstep Hinv) r1 Hr1) as (r2 & Hr2 & Hrev & Hmax & Hcount).
    exists r2. simpl. destruct He as [[-> Ha]|(Hrev1 & _ & Hmax1 & Hc1)].
    + rewrite bool_decide_false by done. done.
    + split_and!; [done| |congruence|].
      * right. destruct Hrev as [->|]; lia.
      * destruct (decide (a = Some i));
          [rewrite bool_decide_true by done|rewrite bool_decide_false by done]; simpl; lia.
Qed.

(** A lease whose row has moved on can no longer be used. *)
Lemma lease_moved l db r now delay :
  db_inv db → find_by col_job_id bytes_eqb (id (lease_job l)) (jobs db) = Some r →
  col_revision r ≠ revision (lease_job l) →
  (∀ x, renew l now db ≠ Ok x) ∧ (∀ x, record_failure l now delay db ≠ Ok x) ∧
  validate_exact_lease l db = Err ValidationLeaseLost.
Proof.
  intros Hinv Hr Hne. split_and!.
  - intros [l' db'] Hs. apply renew_Ok in Hs as (_ & _ & r0 & Hl & _ & Hsw & _); [|done].
    rewrite (swap_before _ _ _ _ _ Hsw) in Hr. inv_ok.
    unfold holds_lease in Hl. by to_prop.
  - intros [j db'] Hs. apply record_failure_Ok in Hs as (_ & r0 & Hl & _ & Hsw & _); [|done].
    rewrite (swap_before _ _ _ _ _ Hsw) in Hr. inv_ok.
    unfold holds_lease in Hl. by to_prop.
  - unfold validate_exact_lease. rewrite (read_job_of db) by done. rewrite Hr. simpl.
    rewrite bool_decide_false; [done|]. intros Heq. injection Heq as Heq. by rewrite <- Heq in Hne.
Qed.

(** The row a claim leased, and the lease it returned. *)
Lemma claim_lease_row own now db l db' :
  db_inv db → claim_next own now db = Ok (Some l, db') →
  ∃ r, find_by col_job_id bytes_eqb (id (lease_job l)) (jobs db') = Some r ∧
    lease_job l = view Leased r ∧ col_state r = "leased" ∧ owner l = own ∧
    col_lease_owner r = Some own ∧ col_lease_expires_unix_ms r = Some (lease_expires_at l).
Proof.
  intros Hinv (_ & rows & n & _ & Hcl & _)%claim_next_Ok; [|done]. unfold claimed in Hcl.
  destruct (READ_CLAIMABLE_SQL now rows) as [r|]; [|naive_solver].
  destruct Hcl as (_ & Hsw & [= ->]). simpl. eexists.
  rewrite (swap_after _ _ _ _ _ Hsw), bytes_eqb_refl. by split_and!.
Qed.

(** Rows that the first statement of a claim exhausts are not claimable. *)
Lemma claimable_not_expired now r : claimable now r = true → expired_final now r = false.
Proof.
  unfold claimable, expired_final. intros. to_prop.
  destruct (Z.leb_spec (col_max_attempts r) (col_attempt_count r)); [lia|].
  by rewrite andb_false_r.
Qed.

Lemma exhausted_not_claimable now r : claimable now (set_exhausted now r) = false.
Proof. unfold claimable; simpl. by rewrite andb_false_r. Qed.

Lemma read_claimable_None now rows r :
  READ_CLAIMABLE_SQL now rows = None → r ∈ rows → claimable now r = false.
Proof.
  unfold READ_CLAIMABLE_SQL. intros Hn%sort_by_head_None Hr. apply list_elem_of_In in Hr.
  destruct (claimable now r) eqn:Hc; [|done].
  assert (In r (List.filter (claimable now) rows)) as Hin by (by apply filter_In).
  by rewrite Hn in Hin.
Qed.

Lemma apply_where_elem {A} (p : A → bool) f rows (x : A) :
  x ∈ map (apply_where p f) rows → x ∈ rows ∨ ∃ o, x = f o.
Proof.
  intros (o & -> & Ho)%list_elem_of_fmap. unfold apply_where. destruct (p o); eauto.
Qed.

Lemma exhaust_expired_elem now db rows n x :
  EXHAUST_EXPIRED_SQL now (jobs db) = Ok (rows, n) → x ∈ rows →
  x ∈ jobs db ∨ ∃ o, x = set_exhausted now o.
Proof. intros (-> & _ & _)%update_rows_Ok. apply apply_where_elem. Qed.

Lemma claimable_after_exhaust db now rows n r :
  db_inv db → EXHAUST_EXPIRED_SQL now (jobs db) = Ok (rows, n) →
  claimable now r = true → r ∈ rows ↔ r ∈ jobs db.
Proof.
  intros Hinv Hex Hc. pose proof (exhaust_expired_inv _ _ _ _ Hinv Hex) as Hinv1. split; intros Hr.
  - destruct (exhaust_expired_elem _ _ _ _ _ Hex Hr) as [?|[o ->]]; [done|].
    by rewrite exhausted_not_claimable in Hc.
  - pose proof (exhaust_expired_unchanged _ _ _ _ _ Hinv Hex Hr (claimable_not_expired _ _ Hc)) as Hf.
    by apply find_by_elem in Hf as [? _].
Qed.

(** ** A claim succeeds on every store that satisfies the invariant *)

(** The column constraints as facts. *)
Record columns_ok (r : job_row) : Prop := ColumnsOk {
  cok_id : length (col_job_id r) = 32%nat;
  cok_trade : length (col_trade_id r) = 16%nat;
  cok_generation : 1 ≤ col_input_generation r ≤ I64_MAX;
  cok_policy : length (col_evidence_policy_sha256 r) = 32%nat;
  cok_state : state_active (col_state r) || state_terminal (col_state r) = true;
  cok_revision : 1 ≤ col_revision r ≤ I64_MAX;
  cok_attempts : 0 ≤ col_attempt_count r ≤ 100;
  cok_failures : 0 ≤ col_failure_count r ≤ col_attempt_count r;
  cok_maximum : 1 ≤ col_max_attempts r ≤ 100;
  cok_duration : 1000 ≤ col_lease_duration_ms r ≤ 300000;
  cok_renewal : 100 ≤ col_lease_renewal_ms r ≤ 150000;
  cok_initial : 1 ≤ col_initial_backoff_ms r ≤ 60000;
  cok_backoff : 1 ≤ col_maximum_backoff_ms r ≤ 3600000;
  cok_created : 0 ≤ col_created_at_unix_ms r ≤ I64_MAX;
  cok_updated : col_created_at_unix_ms r ≤ col_updated_at_unix_ms r ≤ I64_MAX;
  cok_renews : col_lease_renewal_ms r < col_lease_duration_ms r;
  cok_backs_off : col_initial_backoff_ms r ≤ col_maximum_backoff_ms r;
}.

Lemma job_columns_check_iff r : job_columns_check r = true ↔ columns_ok r.
Proof.
  unfold job_columns_check.
  rewrite !andb_true_iff, !between_true, !Nat.eqb_eq, Z.ltb_lt, Z.leb_le.
  split; [intros; split; tauto|intros []; tauto].
Qed.

Lemma row_check_columns db r : db_inv db → r ∈ jobs db → columns_ok r.
Proof.
  intros Hinv Hr. pose proof (rows_ok_check _ _ (inv_rows _ Hinv) Hr) as Hchk.
  apply row_check_iff in Hchk as [Hcol _]. by apply job_columns_check_iff.
Qed.

Lemma state_is r text : String.eqb (col_state r) text = true ↔ col_state r = text.
Proof. apply String.eqb_eq. Qed.

Lemma row_guard_intro old new : job_update_guard_violated old new = false → row_guard old new = true.
Proof. intros Hg. apply negb_true_iff, Hg. Qed.

(** The row exhausted by an expired final attempt is admissible. *)
Lemma set_exhausted_ok now r :
  row_check r = true → expired_final now r = true → 0 ≤ now ≤ I64_MAX → col_revision r < I64_MAX →
  row_guard r (set_exhausted now r) = true ∧ row_check (set_exhausted now r) = true.
Proof.
  intros Hc He Hnow Hrev. unfold expired_final in He. to_prop.
  assert (col_state r = "leased") as Hl by (by apply state_is).
  apply row_check_iff in Hc as (Hcol & st & Hst & Hs).
  assert (st = Leased) as -> by (apply state_code_inj; by rewrite <- Hst).
  destruct Hs as (? & Hnext & _). split.
  - apply row_guard_intro. unfold job_update_guard_violated. simpl. rewrite !bytes_eqb_refl, !Z.eqb_refl, Hl. simpl.
    rewrite orb_false_r. apply Z.ltb_ge. lia.
  - apply row_check_iff. split; [|by exists Exhausted].
    apply job_columns_check_iff in Hcol as [].
    apply job_columns_check_iff. split; simpl; done || lia.
Qed.

Lemma set_claimed_ok own now r :
  row_check r = true → claimable now r = true → length own = 16%nat → 0 ≤ now →
  claim_expiry now r ≤ I64_MAX → col_revision r < I64_MAX →
  row_guard r (set_claimed own (claim_expiry now r) now r) = true ∧
  row_check (set_claimed own (claim_expiry now r) now r) = true.
Proof.
  intros Hc Hcl Hown Hnow He Hrev. pose proof (claimable_active _ _ Hcl) as Hact.
  unfold claimable in Hcl. to_prop.
  apply row_check_iff in Hc as (Hcol & _). apply job_columns_check_iff in Hcol as [].
  unfold claim_expiry in *. split.
  - apply row_guard_intro. unfold job_update_guard_violated. simpl. rewrite !bytes_eqb_refl, !Z.eqb_refl. simpl.
    unfold state_active in Hact. simpl. rewrite (proj2 (Z.ltb_ge _ _)) by lia.
    by destruct (String.eqb _ "ready"), (String.eqb _ "leased").
  - apply row_check_iff. split; [|exists Leased; simpl; split; [done|]].
    + apply job_columns_check_iff. split; simpl; done || lia.
    + split_and!; [lia..|done|by exists own|]. eexists. split; [done|lia].
Qed.

Lemma closed_conflict r o f :
  keeps_identity f → state_active (col_state (f r)) = false →
  row_conflict (f r) o = true → row_conflict r o = true.
Proof.
  intros Hf Hact. simpl. unfold job_conflict. destruct (Hf r) as (-> & -> & _). rewrite Hact. simpl.
  rewrite orb_false_r. by intros ->.
Qed.

Lemma active_conflict r o f :
  keeps_identity f → state_active (col_state r) = true →
  row_conflict (f r) o = true → row_conflict r o = true.
Proof.
  intros Hf Hact. simpl. unfold job_conflict. destruct (Hf r) as (-> & -> & _). rewrite Hact. simpl.
  destruct (bytes_eqb (col_job_id r) _); [done|]. simpl.
  intros [[? ?]%andb_true_iff ?]%andb_true_iff. by apply andb_true_iff.
Qed.

Lemma exhaust_expired_total db now :
  db_inv db → 0 ≤ now ≤ I64_MAX → Forall (λ r, col_revision r < I64_MAX) (jobs db) →
  is_ok (EXHAUST_EXPIRED_SQL now (jobs db)).
Proof.
  intros Hinv Hnow Hrev. unfold EXHAUST_EXPIRED_SQL. generalize (expired_ids_elem now (jobs db)).
  generalize (expired_ids now (jobs db)). intros ids Hids.
  assert (∀ r, r ∈ jobs db → existsb (bytes_eqb (col_job_id r)) ids = true →
    expired_final now r = true) as Hfinal.
  { intros r Hr (o & Ho & He & Hid)%existsb_bytes%Hids.
    assert (r = o) as ->; [|done].
    eapply rows_ok_unique; [apply job_conflict_sym|apply Hinv|done|done|].
    by apply row_conflict_same_id. }
  eexists. apply (update_rows_intro job_conflict_sym); [apply Hinv|..].
  - intros r Hr Hp. apply set_exhausted_ok; [|by apply Hfinal|done|].
    + by eapply rows_ok_check; [apply Hinv|].
    + exact (elem_of_Forall _ _ _ Hrev Hr).
  - intros r o _. apply closed_conflict; [auto with job|done].
Qed.

Lemma claimed_total own now db r :
  db_inv db → owner_ok own → length own = 16%nat → 0 ≤ now → now + 300000 ≤ I64_MAX →
  r ∈ jobs db → claimable now r = true → col_revision r < I64_MAX →
  ∃ rows, CLAIM_JOB_SQL own (claim_expiry now r) now (col_job_id r) (col_revision r) (jobs db) =
    Ok (rows, 1) ∧ claim_expiry now r ≤ I64_MAX.
Proof.
  intros Hinv Hown Hlen Hnow He Hr Hc Hrev. pose proof (rows_ok_check _ _ (inv_rows _ Hinv) Hr) as Hchk.
  assert (claim_expiry now r ≤ I64_MAX) as Hexp.
  { destruct (row_check_columns db r Hinv Hr). unfold claim_expiry. lia. }
  unfold CLAIM_JOB_SQL. eexists. split; [|done]. rewrite (update_rows_intro job_conflict_sym); [|apply Hinv|..].
  - do 2 f_equal. apply (affected_one _ (col_job_id r)); [apply Hinv| |].
    + intros x Hx. to_prop. by apply bytes_eqb_true.
    + exists r. split; [by apply find_job; [apply Hinv|]|]. by rewrite bytes_eqb_refl, Z.eqb_refl.
  - intros x Hx Hp. to_prop.
    assert (x = r) as ->; [|by apply set_claimed_ok].
    eapply rows_ok_unique; [apply job_conflict_sym|apply Hinv|done|done|].
    apply row_conflict_same_id. by apply bytes_eqb_true.
  - intros x o Hp. to_prop. apply active_conflict; [auto with job|by eapply claimable_active].
Qed.

Lemma claim_next_total own now db :
  db_inv db → owner_ok own → length own = 16%nat → 0 ≤ now → now + 300000 ≤ I64_MAX →
  Forall (λ r, col_revision r < I64_MAX) (jobs db) → is_ok (claim_next own now db).
Proof.
  intros Hinv Hown Hlen Hnow He Hrev. unfold claim_next.
  assert (i64_value now = Ok now) as Hv by (apply i64_value_Ok; lia). rewrite Hv. simpl.
  destruct (exhaust_expired_total db now Hinv ltac:(lia) Hrev) as [[rows n] Hex].
  rewrite Hex. simpl. pose proof (exhaust_expired_inv _ _ _ _ Hinv Hex) as Hinv1.
  destruct (READ_CLAIMABLE_SQL now rows) as [r|] eqn:Hread; [|by eexists].
  pose proof (read_claimable_Some _ _ _ Hread) as (Hr & Hc & _).
  assert (r ∈ jobs db) as Hr0 by (by apply (claimable_after_exhaust db now rows n)).
  pose proof (elem_of_Forall _ _ _ Hrev Hr0) as Hrevr. simpl in Hrevr.
  rewrite (decode_job_of (with_jobs db rows)) by done. simpl.
  destruct (claimed_total own now (with_jobs db rows) r) as (rows' & Hup & Hexp); [done..|].
  destruct (row_check_columns db r Hinv Hr0).
  unfold claim_expiry in *. rewrite (proj2 (u64_checked_add_Some _ _ _)) by (unfold_max; split; [done|lia]).
  simpl. rewrite (proj2 (Z.leb_le _ MAX_UNIX_MILLISECONDS)) by done. simpl.
  rewrite (proj2 (i64_value_Ok _ _)) by (split; [done|lia]). simpl.
  rewrite (proj2 (i64_value_Ok (col_revision r) _)) by (split; [done|lia]). simpl.
  simpl in Hup. rewrite Hup. simpl.
  apply claim_swapped in Hup as Hsw; [|apply Hinv1|done].
  assert (db_inv (with_jobs (with_jobs db rows) rows')) as Hinv2.
  { apply (claimed_inv own now db rows (Some (MkLease (view Leased
      (set_claimed own (claim_expiry now r) now r)) own (claim_expiry now r)))); [done..|].
    unfold claimed. by rewrite Hread. }
  rewrite (read_job_of (with_jobs (with_jobs db rows) rows')) by done. simpl.
  rewrite (swap_after _ _ _ _ _ Hsw), bytes_eqb_refl. simpl. by eexists.
Qed.
(** ** Scheduling *)

Lemma find_admissible rows r :
  row_admissible rows r = true → find_by col_job_id bytes_eqb (col_job_id r) rows = None.
Proof.
  unfold row_admissible. intros Hadm. to_prop. rewrite forallb_forall in H1.
  destruct (find_by _ _ _ rows) as [o|] eqn:Hf; [|done].
  apply find_by_elem in Hf as [Ho%list_elem_of_In Hid%bytes_eqb_true]. specialize (H1 o Ho).
  rewrite row_conflict_same_id in H1; [done|done].
Qed.

Lemma find_inserted rows r :
  row_admissible rows r = true →
  find_by col_job_id bytes_eqb (col_job_id r) (rows ++ [r]) = Some r.
Proof.
  intros Hadm. rewrite find_by_app, find_admissible by done. simpl. by rewrite bytes_eqb_refl.
Qed.

Lemma read_active_job_spec trade db a :
  db_inv db → read_active_job trade db = Ok a →
  match a with
  | None => ∀ x, x ∈ jobs db → col_trade_id x = trade → state_active (col_state x) = false
  | Some j => ∃ r, r ∈ jobs db ∧ j = job_of r ∧ col_trade_id r = trade ∧
      state_active (col_state r) = true ∧
      ∀ x, x ∈ jobs db → col_trade_id x = trade → state_active (col_state x) = true → x = r
  end.
Proof.
  intros Hinv. unfold read_active_job.
  set (q := λ r, bytes_eqb (col_trade_id r) trade && state_active (col_state r)).
  assert (∀ x, In x (List.filter q (jobs db)) ↔
    x ∈ jobs db ∧ col_trade_id x = trade ∧ state_active (col_state x) = true) as Hq.
  { intros x. rewrite filter_In, list_elem_of_In. unfold q.
    by rewrite andb_true_iff, bytes_eqb_true. }
  destruct (filter_unique q (jobs db) (inv_rows _ Hinv)) as [Hf|(r & Hr & Hqr & Hf)].
  { unfold q. intros r o. rewrite !andb_true_iff, !bytes_eqb_true. intros [Hr Har] [Ho Hao].
    simpl. unfold job_conflict. rewrite Har, Hao, Hr, Ho, bytes_eqb_refl. by rewrite orb_true_r. }
  - rewrite Hf in *. intros [= <-]. intros x Hx Ht.
    destruct (state_active (col_state x)) eqn:Ha; [|done]. destruct (proj2 (Hq x)). by split_and!.
  - rewrite Hf in *. simpl. rewrite (decode_job_of db) by done. intros [= <-].
    destruct (proj1 (Hq r)) as (_ & Ht & Ha); [by left|].
    exists r. split_and!; [done..|]. intros x Hx Htx Hax.
    destruct (proj2 (Hq x)) as [?|[]]; [by split_and!|done].
Qed.

Lemma superseded_rows trade now r db rows :
  db_inv db → r ∈ jobs db → col_trade_id r = trade → state_active (col_state r) = true →
  (∀ x, x ∈ jobs db → col_trade_id x = trade → state_active (col_state x) = true → x = r) →
  SUPERSEDE_JOB_SQL now (id (job_of r)) (revision (job_of r)) (jobs db) = Ok (rows, 1) →
  ∀ x, x ∈ jobs db → find_by col_job_id bytes_eqb (col_job_id x) rows =
    Some (if bytes_eqb (col_trade_id x) trade && state_active (col_state x)
          then set_closed "superseded" now x else x).
Proof.
  intros Hinv Hr Ht Ha Hu (r0 & _ & _ & Hsw)%supersede_swapped x Hx; [|apply Hinv]. simpl in Hsw.
  assert (r0 = r) as ->.
  { pose proof (swap_before _ _ _ _ _ Hsw) as Hb. rewrite find_job in Hb by (done || apply Hinv).
    congruence. }
  rewrite (swap_after _ _ _ _ _ Hsw), (find_job (jobs db) x) by (done || apply Hinv).
  destruct (bytes_eqb (col_job_id x) _) eqn:Hid.
  - apply bytes_eqb_true in Hid.
    assert (x = r) as ->.
    { eapply rows_ok_unique; [apply job_conflict_sym|apply Hinv|done|done|].
      by apply row_conflict_same_id. }
    by rewrite Ht, bytes_eqb_refl, Ha.
  - destruct (bytes_eqb (col_trade_id x) trade) eqn:Htx; [|done]. apply bytes_eqb_true in Htx.
    destruct (state_active (col_state x)) eqn:Hax; [|done].
    rewrite (Hu x) in Hid by done. by rewrite bytes_eqb_refl in Hid.
Qed.

Lemma expired_ids_intro now rows r :
  Z.of_nat (length (List.filter (expired_final now) rows)) ≤ 65536 →
  r ∈ rows → expired_final now r = true → col_job_id r ∈ expired_ids now rows.
Proof.
  intros Hlen Hr He. unfold expired_ids. rewrite take_ge.
  - apply list_elem_of_In, in_map, list_elem_of_In. rewrite sort_by_perm.
    by rewrite list_elem_of_In, filter_In, <- list_elem_of_In.
  - rewrite sort_by_perm. lia.
Qed.

(** ** Properties of the claim queue *)

(** C15. Every committed operation, the completion of a job by the finalization
    included, keeps the job store well formed, whatever the
    order of the operations: after any sequence of steps the table satisfies its
    constraints, every row decodes, and a trade has at most one active job. *)
Theorem job_steps_preserve_store as' db db' :
  db_inv db → job_steps as' db db' →
  db_inv db' ∧ (∀ r, r ∈ jobs db' → decode_job r = Ok (job_of r)) ∧
  (∀ r o, r ∈ jobs db' → o ∈ jobs db' → col_trade_id r = col_trade_id o →
     state_active (col_state r) = true → state_active (col_state o) = true → r = o).
Proof.
  intros Hinv Hsteps. pose proof (job_steps_inv _ _ _ Hsteps Hinv) as Hinv'. split_and!; [done|..].
  - intros r Hr. by apply (decode_job_of db').
  - intros r o Hr Ho Ht Har Hao. eapply rows_ok_unique;
      [apply job_conflict_sym|apply Hinv'|done|done|].
    simpl. unfold job_conflict. rewrite Har, Hao, Ht, bytes_eqb_refl. simpl. by rewrite orb_true_r.
Qed.

(** C14. Claims are bounded: in any sequence of the queue's operations and of
    completions by the finalization, a job is leased at most
    [max_attempts - attempt_count] more times, and its revision never decreases. *)
Theorem claims_bounded_by_max_attempts as' db db' i r :
  db_inv db → job_steps as' db db' → find_by col_job_id bytes_eqb i (jobs db) = Some r →
  Z.of_nat (length (List.filter (λ a, bool_decide (a = Some i)) as')) ≤
    col_max_attempts r - col_attempt_count r ∧
  ∃ r', find_by col_job_id bytes_eqb i (jobs db') = Some r' ∧ col_revision r ≤ col_revision r'.
Proof.
  intros Hinv Hsteps Hr.
  destruct (job_steps_row _ _ _ _ _ Hinv Hsteps Hr) as (r' & Hr' & Hrev & Hmax & Hcount).
  pose proof (job_steps_inv _ _ _ Hsteps Hinv) as Hinv'.
  pose proof Hr' as [Hin _]%find_by_elem.
  pose proof (elem_of_Forall _ _ _ (inv_attempts _ Hinv') Hin) as Hle. simpl in Hle.
  split; [lia|]. exists r'. split; [done|]. destruct Hrev as [->|]; lia.
Qed.

(** C7. Lease fencing: once any operation of the queue, or the completion of the job by
    a finalization, has changed the row of a lease, that lease
    can neither renew nor record a failure, and the exact-lease check that guards
    the later stages reports it lost, at every later time. *)
Theorem stale_lease_is_fenced own now db l db1 as' db2 later delay :
  db_inv db → owner_ok own → claim_next own now db = Ok (Some l, db1) → job_steps as' db1 db2 →
  find_by col_job_id bytes_eqb (id (lease_job l)) (jobs db2) ≠
    find_by col_job_id bytes_eqb (id (lease_job l)) (jobs db1) →
  (∀ x, renew l later db2 ≠ Ok x) ∧ (∀ x, record_failure l later delay db2 ≠ Ok x) ∧
  validate_exact_lease l db2 = Err ValidationLeaseLost.
Proof.
  intros Hinv Hown Hc Hsteps Hne. pose proof (claim_next_inv _ _ _ _ _ Hown Hinv Hc) as Hinv1.
  destruct (claim_lease_row _ _ _ _ _ Hinv Hc) as (r & Hr & Hj & _).
  destruct (job_steps_row _ _ _ _ _ Hinv1 Hsteps Hr) as (r' & Hr' & Hrev & _).
  eapply lease_moved; [by eapply job_steps_inv|exact Hr'|].
  rewrite Hj. simpl. destruct Hrev as [->|]; [congruence|lia].
Qed.

(** Until its row changes a lease stays usable: the exact-lease check accepts
    it in every state in which the row is still the one the claim wrote. *)
Theorem fresh_lease_validates own now db l db1 db2 :
  db_inv db → owner_ok own → claim_next own now db = Ok (Some l, db1) → db_inv db2 →
  find_by col_job_id bytes_eqb (id (lease_job l)) (jobs db2) =
    find_by col_job_id bytes_eqb (id (lease_job l)) (jobs db1) →
  validate_exact_lease l db2 = Ok tt.
Proof.
  intros Hinv Hown Hc Hinv2 Heq.
  destruct (claim_lease_row _ _ _ _ _ Hinv Hc) as (r & Hr & Hj & Hst & _ & _ & He).
  unfold validate_exact_lease. rewrite (read_job_of db2), Heq, Hr by done. simpl.
  unfold job_of. rewrite Hst, Hj. simpl. rewrite !bool_decide_true by done. done.
Qed.

(** A claim never takes over a live lease: while a lease has not expired its
    row is left exactly as it is, and the claim returns another job or none. *)
Theorem claim_keeps_live_leases own now db o db' r e :
  db_inv db → claim_next own now db = Ok (o, db') →
  r ∈ jobs db → col_state r = "leased" → col_lease_expires_unix_ms r = Some e → now < e →
  find_by col_job_id bytes_eqb (col_job_id r) (jobs db') = Some r ∧
  ∀ l, o = Some l → id (lease_job l) ≠ col_job_id r.
Proof.
  intros Hinv (_ & rows & n & Hex & Hcl & _)%claim_next_Ok Hr Hst He Hlt; [|done].
  assert (expired_final now r = false) as Hef.
  { unfold expired_final. rewrite He. simpl. rewrite (proj2 (Z.leb_gt e now)) by done.
    by rewrite andb_false_r. }
  assert (claimable now r = false) as Hnc.
  { unfold claimable. rewrite Hst, He. simpl. rewrite (proj2 (Z.leb_gt e now)) by done.
    by rewrite andb_false_r. }
  pose proof (exhaust_expired_unchanged _ _ _ _ _ Hinv Hex Hr Hef) as Hf.
  unfold claimed in Hcl. destruct (READ_CLAIMABLE_SQL now rows) as [r0|] eqn:Hread.
  - destruct Hcl as (_ & Hsw & ->). apply read_claimable_Some in Hread as (_ & Hc & _).
    assert (col_job_id r ≠ col_job_id r0) as Hne.
    { intros Hid. rewrite Hid in Hf. rewrite (swap_before _ _ _ _ _ Hsw) in Hf. congruence. }
    rewrite (swap_after _ _ _ _ _ Hsw). split; [|naive_solver].
    destruct (bytes_eqb _ _) eqn:Hb; [|done]. by apply bytes_eqb_true in Hb.
  - destruct Hcl as [-> ->]. done.
Qed.

(** [claim_next] serves the queue in order: it leases the first claimable row
    by due time, creation time and identity, for the row's own lease duration,
    with one more attempt and one more revision; it returns no lease only when
    no row is claimable. *)
Theorem claim_serves_first_due own now db o db' :
  db_inv db → claim_next own now db = Ok (o, db') →
  match o with
  | Some l => ∃ r,
      r ∈ jobs db ∧ claimable now r = true ∧
      (∀ x, x ∈ jobs db → claimable now x = true → is_le (claim_order r x)) ∧
      find_by col_job_id bytes_eqb (col_job_id r) (jobs db') =
        Some (set_claimed own (now + col_lease_duration_ms r) now r) ∧
      l = MkLease (view Leased (set_claimed own (now + col_lease_duration_ms r) now r)) own
            (now + col_lease_duration_ms r)
  | None => ∀ x, x ∈ jobs db → claimable now x = false
  end.
Proof.
  intros Hinv (_ & rows & n & Hex & Hcl & _)%claim_next_Ok; [|done].
  unfold claimed in Hcl. destruct (READ_CLAIMABLE_SQL now rows) as [r|] eqn:Hread.
  - destruct Hcl as (_ & Hsw & ->). apply read_claimable_Some in Hread as (Hr & Hc & Hmin).
    exists r. split_and!; [by apply (claimable_after_exhaust db now rows n)|done| | |done].
    + intros x Hx Hcx. apply Hmin; [|done]. by apply (claimable_after_exhaust db now rows n).
    + by rewrite (swap_after _ _ _ _ _ Hsw), bytes_eqb_refl.
  - destruct Hcl as [-> _]. intros x Hx. destruct (claimable now x) eqn:Hc; [|done].
    apply (claimable_after_exhaust db now rows n) in Hx; [|done..].
    by rewrite (read_claimable_None _ _ _ Hread Hx) in Hc.
Qed.

(** C39. [claim_next] always completes: on a store that satisfies the invariant,
    with a valid owner and a clock that leaves room for the longest lease, it
    returns a lease or reports an empty queue, and no statement of it fails. *)
Theorem claim_next_completes own now db :
  db_inv db → owner_ok own → length own = 16%nat → 0 ≤ now → now + 300000 ≤ I64_MAX →
  Forall (λ r, col_revision r < I64_MAX) (jobs db) →
  ∃ o db', claim_next own now db = Ok (o, db') ∧
    (is_Some o ↔ ∃ r, r ∈ jobs db ∧ claimable now r = true).
Proof.
  intros Hinv Hown Hlen Hnow He Hrev.
  destruct (claim_next_total own now db) as [[o db'] Hc]; [done..|].
  exists o, db'. split; [done|].
  apply claim_next_Ok in Hc as (_ & rows & n & Hex & Hcl & _); [|done].
  unfold claimed in Hcl. destruct (READ_CLAIMABLE_SQL now rows) as [r|] eqn:Hread.
  - destruct Hcl as (_ & _ & ->). apply read_claimable_Some in Hread as (Hr & Hc & _).
    split; [|done]. intros _. exists r. split; [|done].
    by apply (claimable_after_exhaust db now rows n).
  - destruct Hcl as [-> _]. split; [by intros [? ?]|]. intros (r & Hr & Hc).
    apply (claimable_after_exhaust db now rows n) in Hr; [|done..].
    by rewrite (read_claimable_None _ _ _ Hread Hr) in Hc.
Qed.

(** ** Properties of scheduling *)

Lemma schedule_again trade p now p' now' db o db' :
  db_inv db → schedule trade p now db = Ok (o, db') →
  schedule trade p' now' db' = Ok (ScheduleOutcome (outcome_job o) false, db').
Proof.
  intros Hinv Hs. pose proof (schedule_inv _ _ _ _ _ _ Hinv Hs) as Hinv'.
  apply schedule_Ok in Hs as (dirty & Hd & [Hfound|Hins]).
  - destruct Hfound as (job & Hjob & Ht & Hg & Hp & -> & ->).
    unfold schedule. rewrite Hd. simpl. rewrite Hjob. simpl.
    by rewrite Ht, Hg, Hp, !bytes_eqb_refl, Z.eqb_refl.
  - destruct Hins as (_ & active & rows & job & _ & _ & _ & Hadm & -> & Hjob & ->).
    unfold schedule. change (read_dirty trade (with_jobs db _)) with (read_dirty trade db).
    rewrite Hd. simpl. rewrite Hjob. simpl.
    rewrite (read_job_of _ _ Hinv') in Hjob. simpl in Hjob.
    pose proof (find_inserted _ _ Hadm) as Hf. simpl in Hf. rewrite Hf in Hjob.
    injection Hjob as <-. simpl. by rewrite !bytes_eqb_refl, Z.eqb_refl.
Qed.

(** [schedule] is idempotent: scheduling a trade again, with any policy and
    clock, finds the job of the first call and changes nothing. *)
Theorem schedule_idempotent trade p now p' now' db o db' :
  db_inv db → schedule trade p now db = Ok (o, db') →
  schedule trade p' now' db' = Ok (ScheduleOutcome (outcome_job o) false, db').
Proof. apply schedule_again. Qed.

(** Supersession: when [schedule] creates a job it is the job of the trade's
    current dirty generation, ready at once; an active job of the trade had an
    older generation and is superseded, every other row is unchanged, and the
    number of active jobs stays within the queue capacity. *)
Theorem schedule_supersedes_older_generation trade p now db o db' :
  db_inv db → schedule trade p now db = Ok (o, db') → created o = true →
  ∃ dirty, read_dirty trade db = Ok dirty ∧
    let new := INSERT_JOB_ROW (job_id trade (generation dirty) (dirty_policy dirty)) trade
                 (generation dirty) (dirty_policy dirty) p now in
    outcome_job o = view Ready new ∧
    find_by col_job_id bytes_eqb (col_job_id new) (jobs db) = None ∧
    find_by col_job_id bytes_eqb (col_job_id new) (jobs db') = Some new ∧
    (∀ x, x ∈ jobs db → find_by col_job_id bytes_eqb (col_job_id x) (jobs db') =
       Some (if bytes_eqb (col_trade_id x) trade && state_active (col_state x)
             then set_closed "superseded" now x else x)) ∧
    (∀ x, x ∈ jobs db → col_trade_id x = trade → state_active (col_state x) = true →
       col_input_generation x < generation dirty) ∧
    ACTIVE_JOB_COUNT_SQL (jobs db') ≤ queue_capacity p.
Proof.
  intros Hinv Hs Hcr. pose proof (schedule_inv _ _ _ _ _ _ Hinv Hs) as Hinv'.
  apply schedule_Ok in Hs as (dirty & Hd & [(job & _ & _ & _ & _ & -> & _)|Hins]); [done|].
  exists dirty. split; [done|]. intros new.
  destruct Hins as (Hnone & active & rows & job & Hra & Hact & Hcount & Hadm & -> & Hjob & ->).
  fold new in Hadm, Hjob, Hinv' |- *. pose proof (find_inserted _ _ Hadm) as Hf.
  pose proof (read_active_job_spec _ _ _ Hinv Hra) as Hspec.
  assert (∀ x, x ∈ jobs db → find_by col_job_id bytes_eqb (col_job_id x) rows =
    Some (if bytes_eqb (col_trade_id x) trade && state_active (col_state x)
          then set_closed "superseded" now x else x)) as Hrows.
  { destruct active as [a|].
    - destruct Hspec as (r & Hr & -> & Ht & Ha & Hu). destruct Hact as [_ Hup].
      by apply (superseded_rows trade now r).
    - subst rows. intros x Hx. rewrite find_job by (done || apply Hinv).
      destruct (bytes_eqb _ _) eqn:Ht; [|done]. apply bytes_eqb_true in Ht. by rewrite (Hspec x). }
  split_and!.
  - rewrite (read_job_of _ _ Hinv') in Hjob. simpl in Hjob, Hf. rewrite Hf in Hjob.
    by injection Hjob as <-.
  - rewrite (read_job_of _ _ Hinv) in Hnone. simpl. by destruct (find_by _ _ _ (jobs db)).
  - done.
  - intros x Hx. simpl. by rewrite find_by_app, (Hrows x Hx).
  - intros x Hx Ht Ha. destruct active as [a|]; [|by rewrite (Hspec x) in Ha].
    destruct Hspec as (r & Hr & -> & _ & _ & Hu). rewrite (Hu x) by done. by destruct Hact.
  - simpl. unfold ACTIVE_JOB_COUNT_SQL in *. rewrite List.filter_app, length_app. simpl. lia.
Qed.

(** ** Properties of leases and failures *)

(** Renewal extends the lease and replaces it: the new expiry is later than
    the old one and one lease duration after the clock, the attempt is not
    counted again, no other row changes, and the old lease is fenced at once. *)
Theorem renew_extends_and_replaces l now db l' db' :
  db_inv db → renew l now db = Ok (l', db') →
  lease_expires_at l < lease_expires_at l' ≤ I64_MAX ∧
  lease_expires_at l' = now + lease_duration_ms (policy (lease_job l)) ∧
  owner l' = owner l ∧ revision (lease_job l') = revision (lease_job l) + 1 ∧
  (∀ i, i ≠ id (lease_job l) → find_by col_job_id bytes_eqb i (jobs db') =
     find_by col_job_id bytes_eqb i (jobs db)) ∧
  (∃ r, find_by col_job_id bytes_eqb (id (lease_job l)) (jobs db) = Some r ∧
     attempt_count (lease_job l') = col_attempt_count r ∧
     failure_count (lease_job l') = col_failure_count r) ∧
  validate_exact_lease l' db' = Ok tt ∧ validate_exact_lease l db' = Err ValidationLeaseLost.
Proof.
  intros Hinv Hs. pose proof (renew_inv _ _ _ _ _ Hinv Hs) as Hinv'.
  apply renew_Ok in Hs as (Hnow & He & r & Hl & _ & Hsw & _ & ->); [|done]. simpl.
  apply holds_lease_inv in Hl as (Hid & Hrev & Hst & _ & _ & Hlt).
  pose proof (swap_after _ _ _ _ _ Hsw (id (lease_job l))) as Hf. rewrite bytes_eqb_refl in Hf.
  split_and!; [lia|lia|done|done|by f_equal| | | |].
  - intros i Hi. rewrite (swap_after _ _ _ _ _ Hsw).
    destruct (bytes_eqb i _) eqn:Hb; [|done]. by apply bytes_eqb_true in Hb.
  - exists r. by rewrite (swap_before _ _ _ _ _ Hsw).
  - unfold validate_exact_lease. simpl. rewrite (read_job_of db') by done.
    rewrite Hid, Hf. simpl. unfold job_of. simpl. rewrite Hst. simpl. by rewrite !bool_decide_true.
  - apply (lease_moved l db' _ 0 0 Hinv' Hf). simpl. lia.
Qed.

(** A recorded failure ends the attempt: with attempts left the job is ready
    again exactly [delay] later, otherwise it is exhausted; one failure and one
    revision are counted, the lease columns are cleared, no other row changes,
    and the lease is fenced. *)
Theorem record_failure_ends_attempt l now delay db j db' :
  db_inv db → record_failure l now delay db = Ok (j, db') →
  ∃ r, find_by col_job_id bytes_eqb (id (lease_job l)) (jobs db) = Some r ∧
    col_state r = "leased" ∧ now < lease_expires_at l ∧
    state j = (if col_max_attempts r <=? col_attempt_count r then Exhausted else Ready) ∧
    next_attempt j = (if col_max_attempts r <=? col_attempt_count r then None else Some (now + delay)) ∧
    attempt_count j = col_attempt_count r ∧ failure_count j = col_failure_count r + 1 ∧
    revision j = revision (lease_job l) + 1 ∧ lease_owner j = None ∧ lease_expires j = None ∧
    read_job (id (lease_job l)) db' = Ok (Some j) ∧
    (∀ i, i ≠ id (lease_job l) → find_by col_job_id bytes_eqb i (jobs db') =
       find_by col_job_id bytes_eqb i (jobs db)) ∧
    validate_exact_lease l db' = Err ValidationLeaseLost.
Proof.
  intros Hinv Hs. pose proof (record_failure_inv _ _ _ _ _ _ Hinv Hs) as Hinv'.
  apply record_failure_Ok in Hs as (Hnow & r & Hl & Hfinal & Hsw & _ & ->); [|done].
  apply holds_lease_inv in Hl as (Hid & Hrev & Hst & _ & _ & Hlt).
  pose proof (swap_after _ _ _ _ _ Hsw (id (lease_job l))) as Hf. rewrite bytes_eqb_refl in Hf.
  exists r. rewrite Hfinal. split; [apply Hsw|]. split_and!; try done.
  all: try (unfold failed_state, failed; destruct (_ <=? attempt_count _); simpl; by rewrite ?Hrev).
  - rewrite (read_job_of db'), Hf by done. simpl. unfold job_of, failed_state, failed.
    by destruct (_ <=? attempt_count _).
  - intros i Hi. rewrite (swap_after _ _ _ _ _ Hsw).
    destruct (bytes_eqb i _) eqn:Hb; [|done]. by apply bytes_eqb_true in Hb.
  - apply (lease_moved l db' _ 0 0 Hinv' Hf). unfold failed.
    destruct (_ <=? attempt_count _); simpl; lia.
Qed.

(** Closed jobs stay closed: an exhausted, superseded or completed job is never
    changed again by any sequence of operations. *)
Theorem closed_jobs_stay_closed as' db db' r :
  db_inv db → job_steps as' db db' → r ∈ jobs db → state_active (col_state r) = false →
  find_by col_job_id bytes_eqb (col_job_id r) (jobs db') = Some r ∧
  Some (col_job_id r) ∉ as'.
Proof.
  intros Hinv Hsteps Hr Hclosed. assert (find_by col_job_id bytes_eqb (col_job_id r) (jobs db) = Some r)
    as Hf by (apply find_job; [apply Hinv|done]). clear Hr.
  induction Hsteps as [db|a as' db db1 db2 Hstep Hsteps IH]; [by split; [|apply not_elem_of_nil]|].
  destruct (job_step_row _ _ _ _ _ Hinv Hstep Hf) as (r1 & Hr1 & [[-> Ha]|(_ & Ha & _)]);
    [|by rewrite Ha in Hclosed].
  destruct (IH (job_step_inv _ _ _ Hstep Hinv) Hr1) as [Hf2 Hnot].
  split; [done|]. by rewrite not_elem_of_cons.
Qed.

(** A job whose last attempt's lease has expired is exhausted by the next
    claim, counting every attempt as failed, as long as the claim's batch of 65536
    covers the expired jobs. *)
Theorem expired_final_attempt_is_exhausted own now db o db' r :
  db_inv db → claim_next own now db = Ok (o, db') →
  Z.of_nat (length (List.filter (expired_final now) (jobs db))) ≤ 65536 →
  r ∈ jobs db → expired_final now r = true →
  find_by col_job_id bytes_eqb (col_job_id r) (jobs db') = Some (set_exhausted now r).
Proof.
  intros Hinv (_ & rows & n & Hex & Hcl & _)%claim_next_Ok Hlen Hr He; [|done].
  assert (find_by col_job_id bytes_eqb (col_job_id r) rows = Some (set_exhausted now r)) as Hf.
  { destruct (exhaust_expired_find _ _ _ _ (col_job_id r) Hinv Hex) as [-> _].
    rewrite find_job by (done || apply Hinv). simpl.
    rewrite (proj2 (existsb_bytes _ _)); [done|]. by apply expired_ids_intro. }
  unfold claimed in Hcl. destruct (READ_CLAIMABLE_SQL now rows) as [r0|] eqn:Hread.
  - destruct Hcl as (_ & Hsw & _). apply read_claimable_Some in Hread as (_ & Hc & _).
    rewrite (swap_after _ _ _ _ _ Hsw). destruct (bytes_eqb _ _) eqn:Hb; [|done].
    apply bytes_eqb_true in Hb. rewrite Hb in Hf. rewrite (swap_before _ _ _ _ _ Hsw) in Hf.
    injection Hf as ->. by rewrite exhausted_not_claimable in Hc.
  - by destruct Hcl as [_ ->].
Qed.

(** ** Properties of the identity, the schema and the policy *)

(** Job identities bind their inputs: two jobs with one identity have the same
    trade, generation and policy digest, unless SHA-256 itself collides. *)
Theorem job_id_binds_inputs trade gen pol trade' gen' pol' :
  length trade = length trade' → 0 ≤ gen ≤ I64_MAX → 0 ≤ gen' ≤ I64_MAX →
  job_id trade gen pol = job_id trade' gen' pol' →
  (trade = trade' ∧ gen = gen' ∧ pol = pol') ∨ sha256_collision.
Proof.
  unfold job_id. intros Hlen Hg Hg' [Heq|]%sha256_inj_or_collision; [left|by right].
  apply app_inv_head in Heq. apply app_inj_fixed in Heq as [-> Heq]; [|done].
  apply app_inj_fixed in Heq as [Hgen ->]; [|by rewrite !length_to_be_bytes].
  split_and!; [done| |done]. apply to_be_bytes_inj in Hgen; [done|..]; unfold_max; simpl; lia.
Qed.

(** The schema accepts exactly the rows of the five state shapes: every row it
    accepts decodes when its identity is the derived one and its owner is not
    zero, and the row's state has the columns that state needs. *)
Theorem schema_accepts_only_state_shapes r :
  (row_check r = true ↔
     columns_ok r ∧ ∃ st, col_state r = state_code st ∧ shape st r) ∧
  (row_check r = true → consistent r →
     ∃ st, col_state r = state_code st ∧ shape st r ∧ decode_job r = Ok (view st r)).
Proof.
  split; [by rewrite row_check_iff, job_columns_check_iff|].
  intros Hc Hcons. pose proof Hc as (_ & st & Hst & Hs)%row_check_iff.
  exists st. split_and!; [done|done|]. by apply decode_job_intro.
Qed.

(** The retry delay is exponential and capped: with a valid policy the bound
    after [f] failures is [initial * 2^min(f,63)] cut off at the maximum, with no
    wrap-around, is at least one millisecond, and never decreases in [f]. *)
Theorem retry_delay_is_capped_exponential c d r a i m p f g :
  0 ≤ c → 0 ≤ a → policy_new c d r a i m = Ok p → 0 ≤ f ≤ g →
  retry_delay_upper_bound p f = Z.min (i * 2 ^ Z.min f 63) m ∧
  1 ≤ retry_delay_upper_bound p f ≤ m ∧ m ≤ 3600000 ∧
  retry_delay_upper_bound p f ≤ retry_delay_upper_bound p g.
Proof.
  intros Hc Ha Hp Hf. apply policy_new_Ok in Hp as (-> & _ & _ & _ & _ & _ & Hi & Hm & Him); [|done..].
  assert (∀ n, 0 ≤ n → retry_delay_upper_bound (Policy c d r a i m) n =
    Z.min (i * 2 ^ Z.min n 63) m) as Heq.
  { intros n Hn. unfold retry_delay_upper_bound, u64_checked_shl, u64_saturating_mul. simpl.
    rewrite (proj2 (Z.ltb_lt _ _)) by lia. simpl.
    rewrite Z.shiftl_1_l, Z.mod_small; [unfold_max; lia|].
    split; [apply Z.pow_nonneg; lia|]. apply Z.pow_lt_mono_r; lia. }
  rewrite !Heq by lia. pose proof (Z.pow_pos_nonneg 2 (Z.min f 63) ltac:(lia) ltac:(lia)).
  pose proof (Z.pow_le_mono_r 2 (Z.min f 63) (Z.min g 63) ltac:(lia) ltac:(lia)).
  split_and!; [done|nia|lia|lia|nia].
Qed.

(** ** Properties of the repository *)

Context `{TransactionLaws job_db}.

(** Every repository call is atomic: a committed call is one run of its
    operation, an unknown commit left either the old or the new state, and any
    other error left the store unchanged. *)
Theorem repository_calls_are_atomic {A} checks (op : job_db → result OperationError (A * job_db))
    db r db' :
  guarded checks op db = (r, db') →
  match r with
  | Ok a => checks = Ok tt ∧ op db = Ok (a, db')
  | Err e =>
      db' = db ∨
      e = CommitOutcomeUnknown ∧ checks = Ok tt ∧ ∃ a, op db = Ok (a, db')
  end.
Proof.
  unfold guarded, run. destruct checks as [[]|e]; [|intros [= <- <-]; by left].
  destruct (transaction op db) as [[a|e] db1] eqn:Htx; intros [= <- <-]; simpl.
  - split; [done|]. by apply tx_committed.
  - unfold map_transaction_error. destruct (commit_outcome_unknown e) eqn:Hu.
    + destruct (tx_unknown _ _ _ _ Htx Hu) as (a & db2 & Hop & [->| ->]); [by left|right].
      split_and!; eauto.
    + left. by destruct (tx_rolled_back _ _ _ _ Htx Hu) as [-> _].
Qed.

(** Retrying a schedule whose commit outcome is unknown is safe: the retry ends
    in the state a single committed call would have left, with the same job. *)
Theorem schedule_retry_after_unknown_commit mode trade p now db db' :
  db_inv db → schedule_trade mode trade p now db = (Err CommitOutcomeUnknown, db') →
  ∃ o db1 o', schedule trade p now db = Ok (o, db1) ∧
    schedule trade p now db' = Ok (o', db1) ∧ outcome_job o' = outcome_job o.
Proof.
  intros Hinv. unfold schedule_trade, guarded. destruct mode; simpl; [|done].
  unfold run. destruct (transaction _ db) as [[a|e] db2] eqn:Htx; [done|]. intros [= He ->].
  assert (commit_outcome_unknown e = true) as Hu.
  { unfold map_transaction_error in He. destruct (commit_outcome_unknown e); [done|].
    by destruct (operation_error e) as [[]|]. }
  destruct (tx_unknown _ _ _ _ Htx Hu) as (o & db1 & Hop & [->| ->]).
  - by exists o, db1, o.
  - exists o, db1, (ScheduleOutcome (outcome_job o) false). split_and!; [done| |done].
    by eapply schedule_again.
Qed.

End results.

(** A policy read from the normalized configuration is within the contract's
    ranges: capacity, lease, renewal, attempts and backoff, with the renewal
    shorter than the lease and the initial backoff at most the maximum. *)
Theorem configured_policy_is_bounded `{JsonLaws V} (document : V) p :
  policy_from_configuration document = Ok p →
  1 ≤ queue_capacity p ≤ 65536 ∧ 1000 ≤ lease_duration_ms p ≤ 300000 ∧
  100 ≤ lease_renewal_ms p ≤ 150000 ∧ lease_renewal_ms p < lease_duration_ms p ∧
  1 ≤ max_attempts p ≤ 100 ∧ 1 ≤ initial_backoff_ms p ≤ 60000 ∧
  initial_backoff_ms p ≤ maximum_backoff_ms p ≤ 3600000.
Proof.
  unfold policy_from_configuration. intros Hp. inv_ok. inv_int.
  apply policy_new_Ok in Hp as (-> & Hp); [|lia..]. simpl. lia.
Qed.

(** ** Witnesses: a store with one trade, scheduled and claimed *)

#[local] Existing Instance checksum.

Definition demo_trade : bytes := repeat 1 16.
Definition demo_owner : bytes := repeat 7 16.
Definition demo_policy : RhiReconciliationJobPolicy := Policy 4 60000 30000 2 1000 60000.
Definition demo_dirty : dirty_row := DirtyRow demo_trade 1 (repeat 2 32) 0.
Definition demo_db : job_db := JobDb [demo_dirty] [].

(** The outcome and the state of a successful operation. *)
Definition outcome {E A DB} (a : A) (r : result E (A * DB)) : A :=
  match r with Ok (a, _) => a | Err _ => a end.
Definition after {E A DB} (db : DB) (r : result E (A * DB)) : DB :=
  match r with Ok (_, db) => db | Err _ => db end.

Definition demo_scheduled : job_db :=
  Eval vm_compute in after demo_db (schedule demo_trade demo_policy 1000 demo_db).
Definition demo_claimed : job_db :=
  Eval vm_compute in after demo_db (claim_next demo_owner 2000 demo_scheduled).
Definition demo_job : RhiReconciliationJob :=
  Eval vm_compute in
    match demo_claimed with JobDb _ (r :: _) => view Leased r
    | _ => view Leased (INSERT_JOB_ROW [] [] 0 [] demo_policy 0) end.
Definition demo_lease : RhiReconciliationLease := MkLease demo_job demo_owner 62000.
Definition demo_renewed : job_db :=
  Eval vm_compute in after demo_db (renew demo_lease 40000 demo_claimed).
Definition demo_row : job_row :=
  Eval vm_compute in
    match demo_claimed with JobDb _ (r :: _) => r
    | _ => INSERT_JOB_ROW [] [] 0 [] demo_policy 0 end.

Lemma demo_db_inv : db_inv demo_db.
Proof. split; [done|constructor|constructor|by repeat constructor]. Qed.

Lemma demo_schedule :
  schedule demo_trade demo_policy 1000 demo_db =
  Ok (ScheduleOutcome (view Ready (INSERT_JOB_ROW (col_job_id demo_row) demo_trade 1 (repeat 2 32)
        demo_policy 1000)) true, demo_scheduled).
Proof. by vm_compute. Qed.

Lemma demo_claim : claim_next demo_owner 2000 demo_scheduled = Ok (Some demo_lease, demo_claimed).
Proof. by vm_compute. Qed.

Lemma demo_scheduled_inv : db_inv demo_scheduled.
Proof. eapply schedule_inv; [apply demo_db_inv|apply demo_schedule]. Qed.

Lemma demo_claimed_inv : db_inv demo_claimed.
Proof. eapply claim_next_inv; [|apply demo_scheduled_inv|apply demo_claim]. done. Qed.

Lemma demo_steps : job_steps [None; Some (col_job_id demo_row)] demo_db demo_claimed.
Proof.
  eapply steps_cons; [eapply step_schedule, demo_schedule|].
  eapply steps_cons; [|constructor]. eapply (step_claim demo_owner 2000 demo_lease), demo_claim. done.
Qed.

Lemma demo_find : find_by col_job_id bytes_eqb (col_job_id demo_row) (jobs demo_claimed) = Some demo_row.
Proof. by vm_compute. Qed.

Lemma demo_renew : is_ok (renew demo_lease 40000 demo_claimed).
Proof. eexists. by vm_compute. Qed.

Lemma demo_renew_step : job_steps [None] demo_claimed demo_renewed.
Proof.
  eapply steps_cons; [|constructor].
  eapply (step_renew demo_lease 40000 (outcome demo_lease (renew demo_lease 40000 demo_claimed))).
  by vm_compute.
Qed.

Lemma job_steps_preserve_store_witness :
  db_inv demo_claimed ∧ decode_job demo_row = Ok (job_of demo_row).
Proof.
  destruct (job_steps_preserve_store _ _ _ demo_db_inv demo_steps) as (Hinv & Hdec & _).
  split; [exact Hinv|]. apply Hdec. left.
Defined.

Lemma stale_lease_is_fenced_witness : validate_exact_lease demo_lease demo_renewed = Err ValidationLeaseLost.
Proof.
  apply (stale_lease_is_fenced demo_owner 2000 demo_scheduled demo_lease demo_claimed [None] demo_renewed
    50000 0 demo_scheduled_inv eq_refl demo_claim demo_renew_step).
  by vm_compute.
Defined.

Lemma fresh_lease_validates_witness : validate_exact_lease demo_lease demo_claimed = Ok tt.
Proof.
  exact (fresh_lease_validates demo_owner 2000 demo_scheduled demo_lease demo_claimed demo_claimed
    demo_scheduled_inv eq_refl demo_claim demo_claimed_inv eq_refl).
Defined.

Lemma claim_keeps_live_leases_witness :
  find_by col_job_id bytes_eqb (col_job_id demo_row)
    (jobs (after demo_claimed (claim_next demo_owner 3000 demo_claimed))) = Some demo_row.
Proof.
  apply (claim_keeps_live_leases demo_owner 3000 demo_claimed None _ demo_row 62000 demo_claimed_inv);
    [by vm_compute|left|by vm_compute|by vm_compute|lia].
Defined.

Lemma claim_serves_first_due_witness : ∃ r, r ∈ jobs demo_scheduled ∧ claimable 2000 r = true.
Proof.
  destruct (claim_serves_first_due _ _ _ _ _ demo_scheduled_inv demo_claim) as (r & Hr & Hc & _).
  by exists r.
Defined.

Lemma claim_next_completes_witness :
  ∃ o db', claim_next demo_owner 2000 demo_scheduled = Ok (o, db').
Proof.
  destruct (claim_next_completes demo_owner 2000 demo_scheduled demo_scheduled_inv)
    as (o & db' & Hc & _); [by vm_compute|by vm_compute|lia|unfold_max; lia|by repeat constructor|].
  by exists o, db'.
Defined.

Lemma schedule_idempotent_witness :
  schedule demo_trade demo_policy 9000 demo_scheduled =
  Ok (ScheduleOutcome (view Ready (INSERT_JOB_ROW (col_job_id demo_row) demo_trade 1 (repeat 2 32)
        demo_policy 1000)) false, demo_scheduled).
Proof.
  exact (schedule_idempotent demo_trade demo_policy 1000 demo_policy 9000 demo_db _ _
    demo_db_inv demo_schedule).
Defined.

(** A newer dirty generation of the same trade. *)
Definition demo_newer : job_db :=
  JobDb [DirtyRow demo_trade 2 (repeat 2 32) 0] (jobs demo_claimed).

Lemma demo_newer_inv : db_inv demo_newer.
Proof. destruct demo_claimed_inv. split; [done..|]. by repeat constructor. Qed.

Lemma schedule_supersedes_older_generation_witness :
  find_by col_job_id bytes_eqb (col_job_id demo_row)
    (jobs (after demo_newer (schedule demo_trade demo_policy 5000 demo_newer))) =
  Some (set_closed "superseded" 5000 demo_row).
Proof.
  destruct (schedule_supersedes_older_generation demo_trade demo_policy 5000 demo_newer
    (outcome (ScheduleOutcome demo_job false) (schedule demo_trade demo_policy 5000 demo_newer))
    (after demo_newer (schedule demo_trade demo_policy 5000 demo_newer)) demo_newer_inv)
    as (dirty & _ & _ & _ & _ & Hrows & _); [by vm_compute..|].
  rewrite (Hrows demo_row); [by vm_compute|left].
Defined.

Lemma renew_extends_and_replaces_witness :
  validate_exact_lease demo_lease (after demo_claimed (renew demo_lease 40000 demo_claimed)) =
  Err ValidationLeaseLost.
Proof.
  apply (renew_extends_and_replaces demo_lease 40000 demo_claimed
    (outcome demo_lease (renew demo_lease 40000 demo_claimed)) _ demo_claimed_inv).
  by vm_compute.
Defined.

Lemma record_failure_ends_attempt_witness :
  ∃ r, find_by col_job_id bytes_eqb (col_job_id demo_row) (jobs demo_claimed) = Some r ∧
    col_state r = "leased".
Proof.
  destruct (record_failure_ends_attempt demo_lease 3000 500 demo_claimed
    (outcome demo_job (record_failure demo_lease 3000 500 demo_claimed))
    (after demo_claimed (record_failure demo_lease 3000 500 demo_claimed)) demo_claimed_inv)
    as (r & Hr & Hst & _); [by vm_compute|]. by exists r.
Defined.

(** The same job with its last attempt used up. *)
Definition demo_final : job_db :=
  Eval vm_compute in
    after demo_claimed (claim_next demo_owner 70000
      (after demo_claimed (record_failure demo_lease 3000 500 demo_claimed))).
Definition demo_exhausted : job_db :=
  Eval vm_compute in after demo_final (claim_next demo_owner 200000 demo_final).
Definition demo_final_row : job_row :=
  Eval vm_compute in match jobs demo_final with r :: _ => r | [] => demo_row end.
Definition demo_exhausted_row : job_row :=
  Eval vm_compute in match jobs demo_exhausted with r :: _ => r | [] => demo_row end.

(** Both attempts of a job: a claim, a failure, a second claim, and its completion. *)
Definition demo_ready_row : job_row :=
  Eval vm_compute in match jobs demo_scheduled with r :: _ => r | [] => demo_row end.
Definition demo_failed : job_db :=
  Eval vm_compute in after demo_claimed (record_failure demo_lease 3000 500 demo_claimed).
Definition demo_second_lease : RhiReconciliationLease := MkLease (view Leased demo_final_row) demo_owner 130000.
Definition demo_complete (db : job_db) : result sql_error (list job_row * Z) :=
  COMPLETE_JOB_SQL 80000 (col_job_id demo_row) (col_revision demo_final_row) demo_owner 130000 (jobs db).
Definition demo_completed : job_db :=
  Eval vm_compute in
    match demo_complete demo_final with Ok (rows, _) => with_jobs demo_final rows | Err _ => demo_final end.

Lemma demo_run :
  job_steps [Some (col_job_id demo_row); None; Some (col_job_id demo_row); None] demo_scheduled demo_completed.
Proof.
  eapply (steps_cons _ _ _ demo_claimed); [eapply (step_claim demo_owner 2000 demo_lease), demo_claim; done|].
  eapply (steps_cons _ _ _ demo_failed).
  { eapply (step_failure demo_lease 3000 500 (view Ready (set_retry 3500 3000 demo_row))). by vm_compute. }
  eapply (steps_cons _ _ _ demo_final).
  { eapply (step_claim demo_owner 70000 demo_second_lease); [done|by vm_compute]. }
  eapply (steps_cons _ _ _ demo_completed); [|constructor].
  eapply (step_complete 80000 (col_job_id demo_row) (col_revision demo_final_row) demo_owner 130000 (jobs demo_completed)).
  by vm_compute.
Qed.

(** Two claims of a job that allows two attempts and has made none. *)
Lemma claims_bounded_by_max_attempts_witness :
  2 ≤ col_max_attempts demo_ready_row - col_attempt_count demo_ready_row ∧
  col_max_attempts demo_ready_row - col_attempt_count demo_ready_row = 2 ∧
  map col_state (jobs demo_completed) = ["completed"%string].
Proof.
  split; [|split; vm_compute; reflexivity].
  exact (proj1 (claims_bounded_by_max_attempts _ demo_scheduled demo_completed (col_job_id demo_row) demo_ready_row
    demo_scheduled_inv demo_run eq_refl)).
Defined.

Lemma demo_final_inv : db_inv demo_final.
Proof.
  eapply (claim_next_inv demo_owner 70000
    (after demo_claimed (record_failure demo_lease 3000 500 demo_claimed))); [done| |by vm_compute].
  eapply (record_failure_inv demo_lease 3000 500); [apply demo_claimed_inv|by vm_compute].
Qed.

Lemma demo_exhausted_inv : db_inv demo_exhausted.
Proof.
  eapply (claim_next_inv demo_owner 200000 demo_final); [done|apply demo_final_inv|by vm_compute].
Qed.

Lemma closed_jobs_stay_closed_witness :
  find_by col_job_id bytes_eqb (col_job_id demo_exhausted_row) (jobs demo_exhausted) =
  Some demo_exhausted_row.
Proof.
  apply (closed_jobs_stay_closed [] demo_exhausted demo_exhausted demo_exhausted_row demo_exhausted_inv
    (steps_nil _)); [left|by vm_compute].
Defined.

Lemma expired_final_attempt_is_exhausted_witness :
  find_by col_job_id bytes_eqb (col_job_id demo_final_row) (jobs demo_exhausted) =
  Some (set_exhausted 200000 demo_final_row).
Proof.
  apply (expired_final_attempt_is_exhausted demo_owner 200000 demo_final None demo_exhausted
    demo_final_row demo_final_inv); [by vm_compute|by vm_compute|left|by vm_compute].
Defined.

Lemma job_id_binds_inputs_witness :
  (demo_trade = demo_trade ∧ 1 = 1 ∧ repeat 2 32 = repeat 2 32) ∨ sha256_collision.
Proof.
  apply (job_id_binds_inputs demo_trade 1 (repeat 2 32) demo_trade 1 (repeat 2 32));
    [done|unfold_max; lia..|done].
Defined.

Lemma schema_accepts_only_state_shapes_witness :
  ∃ st, col_state demo_row = state_code st ∧ decode_job demo_row = Ok (view st demo_row).
Proof.
  destruct (proj2 (schema_accepts_only_state_shapes demo_row)) as (st & Hst & _ & Hd);
    [by vm_compute|split; [vm_compute; reflexivity|done]|].
  exists st. exact (conj Hst Hd).
Defined.

Lemma retry_delay_is_capped_exponential_witness : retry_delay_upper_bound demo_policy 3 = 8000.
Proof.
  destruct (retry_delay_is_capped_exponential 4 60000 30000 2 1000 60000 demo_policy 3 4)
    as (Heq & _); [lia|lia|by vm_compute|lia|exact Heq].
Defined.

Definition demo_configuration : json :=
  JObject [("reconciliation",
    JObject [("queue_capacity", JNumber 4); ("lease_ms", JNumber 60000);
      ("lease_renewal_ms", JNumber 30000); ("max_attempts", JNumber 2);
      ("initial_backoff_ms", JNumber 1000); ("maximum_backoff_ms", JNumber 60000)])].

Lemma configured_policy_is_bounded_witness : 1 ≤ queue_capacity demo_policy ≤ 65536.
Proof.
  apply (@configured_policy_is_bounded json json_value json_laws demo_configuration demo_policy).
  by vm_compute.
Defined.

Lemma repository_calls_are_atomic_witness :
  schedule demo_trade demo_policy 1000 demo_db =
  Ok (ScheduleOutcome (view Ready (INSERT_JOB_ROW (col_job_id demo_row) demo_trade 1 (repeat 2 32)
        demo_policy 1000)) true, demo_scheduled).
Proof.
  apply (@repository_calls_are_atomic (reliable_host job_db) (reliable_host_laws job_db) _
    (require_writable ReadWriteExisting) (schedule demo_trade demo_policy 1000) demo_db
    (Ok (ScheduleOutcome (view Ready (INSERT_JOB_ROW (col_job_id demo_row) demo_trade 1 (repeat 2 32)
        demo_policy 1000)) true)) demo_scheduled).
  by vm_compute.
Defined.

Lemma schedule_retry_after_unknown_commit_witness :
  ∃ o db1, schedule demo_trade demo_policy 1000 demo_db = Ok (o, db1).
Proof.
  destruct (@schedule_retry_after_unknown_commit checksum (doubtful_host job_db)
    (doubtful_host_laws job_db) ReadWriteExisting demo_trade demo_policy 1000 demo_db
    demo_scheduled demo_db_inv) as (o & db1 & _ & Hs & _); [by vm_compute|].
  exists o, db1. exact Hs.
Defined.

End JobSafety.
