(* ===== verification/StateMetadata.v ===== *)
(** * State metadata: [src/src/state_metadata.rs]

    The digests that bind durable state to a configuration: the digest of the
    whole normalized document and the digest of its evidence policy, and the
    binding between runtime and configuration profiles. *)

From stdpp Require Import list strings gmap.
From S2P Require Import Prelude.
From S2P Require Import Interfaces.

Module Metadata.

Definition NORMALIZED_CONFIG_DIGEST_DOMAIN : bytes :=
  as_bytes "radroots.rhi.normalized_config.v1" ++ [0].
Definition EVIDENCE_POLICY_DIGEST_DOMAIN : bytes :=
  as_bytes "radroots:rhi-evidence-policy:v1" ++ [0].

Inductive RhiStateMetadataErrorKind : Type :=
| Profile | Paths | Configuration | EvidencePolicy | Identity | Database | Invariant.

Inductive RhiBootstrapProfileV1 : Type := ServiceHost | Interactive | BootstrapRepoLocal.
Inductive RhiConfigProfile : Type := Production | RepoLocal.

#[export] Instance config_profile_eq_dec : EqDecision RhiConfigProfile.
Proof. solve_decision. Defined.

Definition require_profile_binding (runtime : RhiBootstrapProfileV1)
    (configuration : RhiConfigProfile) : result RhiStateMetadataErrorKind unit :=
  let matches :=
    match runtime with
    | ServiceHost | Interactive => bool_decide (configuration = Production)
    | BootstrapRepoLocal => bool_decide (configuration = RepoLocal)
    end in
  if matches then Ok tt else Err Profile.

Section digests.
Context `{Sha256, JsonValue V, !JsonWriter V}.

Definition string (value : V) (p : String.string) : result RhiStateMetadataErrorKind String.string :=
  ok_or (match pointer value p with Some v => as_str v | None => None end) EvidencePolicy.
Definition integer (value : V) (p : String.string) : result RhiStateMetadataErrorKind Z :=
  ok_or (match pointer value p with Some v => as_u64 v | None => None end) EvidencePolicy.
Definition boolean (value : V) (p : String.string) : result RhiStateMetadataErrorKind bool :=
  ok_or (match pointer value p with Some v => as_bool v | None => None end) EvidencePolicy.
Definition array (value : V) (p : String.string) : option (list V) :=
  match pointer value p with Some v => as_array v | None => None end.

Definition normalized_config_digest (profile : RhiConfigProfile) (normalized : V) :
    result RhiStateMetadataErrorKind bytes :=
  let? text := ok_or (to_vec normalized) Configuration in
  let? length := ok_or (try_from U64_MAX (Z.of_nat (length text))) Configuration in
  Ok (sha256 (NORMALIZED_CONFIG_DIGEST_DOMAIN
              ++ [match profile with Production => 0 | RepoLocal => 1 end]
              ++ to_be_bytes 8 length ++ text)).

(** [relay_urls.insert(id, url)]: a repeated relay identity is rejected. *)
Fixpoint relay_urls (relays : list V) (urls : gmap String.string String.string) :
    result RhiStateMetadataErrorKind (gmap String.string String.string) :=
  match relays with
  | [] => Ok urls
  | relay :: relays =>
      let? id := string relay "/id" in
      let? url := string relay "/url" in
      reject_if (bool_decide (is_Some (urls !! id))) EvidencePolicy ;?
      relay_urls relays (<[id := url]> urls)
  end.

Definition normalized_source (urls : gmap String.string String.string) (source : V) :
    result RhiStateMetadataErrorKind V :=
  let? relay_id := string source "/relay_id" in
  let? relay_url := ok_or (urls !! relay_id) EvidencePolicy in
  let? deadline_ms := integer source "/deadline_ms" in
  let? kind := string source "/kind" in
  let? lookback := integer source "/lookback_seconds" in
  let? overlap := integer source "/overlap_seconds" in
  let? required := boolean source "/required" in
  let? selector := string source "/selector" in
  let? source_id := string source "/source_id" in
  Ok (json_object
        [("completion", json_string "nostr_eose_before_deadline");
         ("deadline_ms", json_u64 deadline_ms); ("kind", json_string kind);
         ("lookback_seconds", json_u64 lookback); ("overlap_seconds", json_u64 overlap);
         ("relay_id", json_string relay_id); ("relay_url", json_string relay_url);
         ("required", json_bool required); ("selector", json_string selector);
         ("source_id", json_string source_id)]).

(** [left["source_id"].as_str().cmp(&right["source_id"].as_str())]; [None] sorts first *)
Definition source_key (source : V) : bytes :=
  match pointer source "/source_id" with
  | Some v => match as_str v with Some s => 1 :: as_bytes s | None => [] end
  | None => []
  end.

Definition evidence_policy_digest (normalized : V) : result RhiStateMetadataErrorKind bytes :=
  let? relays := ok_or (array normalized "/relays") EvidencePolicy in
  let? urls := relay_urls relays ∅ in
  let? evidence := ok_or (pointer normalized "/evidence") EvidencePolicy in
  let? sources := ok_or (array evidence "/sources") EvidencePolicy in
  let? normalized_sources := collect (normalized_source urls) sources in
  let normalized_sources := sort_by (cmp_on source_key bytes_cmp) normalized_sources in
  let? contract := string evidence "/contract" in
  let? contract_version := integer evidence "/contract_version" in
  let? policy_id := string evidence "/policy_id" in
  let policy :=
    json_object
      [("contract", json_string contract); ("contract_version", json_u64 contract_version);
       ("policy_id", json_string policy_id); ("sources", json_array normalized_sources)] in
  let? text := ok_or (to_vec policy) EvidencePolicy in
  Ok (sha256 (EVIDENCE_POLICY_DIGEST_DOMAIN ++ text)).

End digests.

End Metadata.
