(* ===== verification/SourceIngest.v ===== *)
(** * Source results and cursors: [src/src/source_ingest.rs]

    The classification of one relay-source attempt, its limits and the cursor
    tuple a source is resumed from. *)

From stdpp Require Import list strings.
From S2P Require Import Prelude.

Module Source.

Definition RHI_TRADE_SOURCE_RESULT_MAX_EVENTS : Z := 4096.
Definition RHI_TRADE_SOURCE_RESULT_MAX_BYTES : Z := 8 * 1024 * 1024.

Inductive RhiTradeSourceCompletion : Type :=
| Complete | IncompleteTimeout | IncompleteUnavailable | IncompleteResourceLimit
| IncompleteUnknown | Unsupported.

#[export] Instance completion_eq_dec : EqDecision RhiTradeSourceCompletion.
Proof. solve_decision. Defined.

Definition completion_code (c : RhiTradeSourceCompletion) : string :=
  match c with
  | Complete => "complete"
  | IncompleteTimeout => "incomplete_timeout"
  | IncompleteUnavailable => "incomplete_unavailable"
  | IncompleteResourceLimit => "incomplete_resource_limit"
  | IncompleteUnknown => "incomplete_unknown"
  | Unsupported => "unsupported"
  end.

Definition allows_checkpoint (c : RhiTradeSourceCompletion) : bool :=
  match c with Complete => true | _ => false end.

Record RhiTradeSourceCursor : Type := MkCursor {
  created_at_unix_seconds : Z;
  cursor_event_id : bytes;
}.

#[export] Instance cursor_eq_dec : EqDecision RhiTradeSourceCursor.
Proof. solve_decision. Defined.

(** The tuple order of [compare_cursor]. *)
Definition compare_cursor : RhiTradeSourceCursor → RhiTradeSourceCursor → comparison :=
  cmp_then (cmp_on created_at_unix_seconds Z.compare) (cmp_on cursor_event_id bytes_cmp).

Lemma compare_cursor_eq x y : compare_cursor x y = Eq → x = y.
Proof.
  unfold compare_cursor, cmp_then, cmp_on. destruct (_ ?= _) eqn:Hc; simpl; try done.
  intros He. apply Z.compare_eq in Hc. apply cmp_eq in He.
  destruct x, y; simpl in *. by subst.
Qed.

End Source.
