(* ===== verification/StateTrade.v ===== *)
(** * Trade evidence: [src/src/state_trade.rs]

    The immutable facts of the trade history: canonical mutations, signed events
    and source observations, with the schema of their tables, and [persist], which
    inserts the three facts of one admitted event or detects a conflict. *)

From stdpp Require Import list strings gmap.
From S2P Require Import Prelude.
From S2P Require Import Sql.
From S2P Require Import Interfaces.
From S2P Require Import StateMetadata.

Module Evidence.

Definition SOURCE_SELECTOR : string := "trade_mutation_lineage_v1".
Definition MAX_SOURCE_ID_BYTES : Z := 64.
Definition MAX_CONTRACT_ID_BYTES : Z := 128.
Definition MAX_MUTATION_CONTENT_BYTES : Z := 131072.
Definition MAX_CANONICAL_EVENT_BYTES : Z := 524288.

Inductive RhiTradeEvidencePersistenceErrorKind : Type :=
| InvalidMode | InvalidObservation | Encoding | MutationConflict | SignedEventConflict | Storage
| CommitOutcomeUnknown.

Inductive PersistenceOperationError : Type := OpMutationConflict | OpSignedEventConflict | OpStorage.

(** ** Records *)

(** What the source reads of an admitted event: its original bytes, the verified
    event and mutation ([radroots_event] types) and the observation second.
    [adm_wire] is [serde_json::to_vec] of the event's NIP-01 form. *)
Record RhiAdmittedTradeMutationEvent : Type := Admitted_event {
  adm_original : bytes;
  adm_observed_at : Z;
  adm_mutation_id : bytes;
  adm_trade_id : bytes;
  adm_contract_id : string;
  adm_schema_version : Z;
  adm_event_id : bytes;
  adm_signature : bytes;
  adm_author : bytes;
  adm_kind : Z;
  adm_created_at : Z;
  adm_content : bytes;
  adm_wire : option bytes;
}.

Record PersistenceRecord : Type := MkRecord {
  mutation_id : bytes;
  trade_id : bytes;
  contract_id : string;
  schema_version : Z;
  event_id : bytes;
  event_signature : bytes;
  author_pubkey : bytes;
  event_kind : Z;
  authored_at_unix_s : Z;
  canonical_content : bytes;
  canonical_event_json : bytes;
}.

#[export] Instance record_eq_dec : EqDecision PersistenceRecord.
Proof. solve_decision. Defined.

Definition from_admitted (a : RhiAdmittedTradeMutationEvent) :
    result RhiTradeEvidencePersistenceErrorKind PersistenceRecord :=
  let? wire := ok_or (adm_wire a) Encoding in
  reject_if ((length wire =? 0)%nat || (MAX_CANONICAL_EVENT_BYTES <? Z.of_nat (length wire)))
    Encoding ;?
  reject_if ((length (adm_content a) =? 0)%nat
             || (MAX_MUTATION_CONTENT_BYTES <? Z.of_nat (length (adm_content a)))) Encoding ;?
  Ok (MkRecord (adm_mutation_id a) (adm_trade_id a) (adm_contract_id a) (adm_schema_version a)
        (adm_event_id a) (adm_signature a) (adm_author a) (adm_kind a) (adm_created_at a)
        (adm_content a) wire).

Record RhiTradeSourceObservation : Type := MkObservation {
  obs_source_id : string;
  obs_policy : bytes;
  obs_event_id : bytes;
  obs_event_signature : bytes;
  obs_observed_at : Z;
}.

#[export] Instance observation_eq_dec : EqDecision RhiTradeSourceObservation.
Proof. solve_decision. Defined.

Definition from_persistence_parts (source_id : string) (policy : bytes) (r : PersistenceRecord)
    (observed_at : Z) : RhiTradeSourceObservation :=
  MkObservation source_id policy (event_id r) (event_signature r) observed_at.

Definition is_lower (b : Z) : bool := between 97 122 b.
Definition is_digit (b : Z) : bool := between 48 57 b.

Definition source_id_ok (s : string) : bool :=
  match as_bytes s with
  | [] => false
  | first :: rest =>
      is_lower first && forallb (λ b, is_lower b || is_digit b || (b =? 95) || (b =? 45)) rest
      && (Z.of_nat (length (first :: rest)) <=? MAX_SOURCE_ID_BYTES)
  end.

Definition configured_source `{JsonValue V} (configuration : V) (source_id : string) : option V :=
  if negb (source_id_ok source_id) then None
  else
    match Metadata.array configuration "/evidence/sources" with
    | Some sources =>
        List.find
          (λ s, bool_decide (match pointer s "/source_id" with Some v => as_str v | None => None end
                             = Some source_id)) sources
    | None => None
    end.

Definition from_config `{Sha256, JsonValue V, !JsonWriter V} (normalized : V) (source_id : string)
    (a : RhiAdmittedTradeMutationEvent) :
    result RhiTradeEvidencePersistenceErrorKind RhiTradeSourceObservation :=
  let text v p := match pointer v p with Some v => as_str v | None => None end in
  let? source := ok_or (configured_source normalized source_id) InvalidObservation in
  reject_if
    (negb (bool_decide (text source "/kind" = Some "nostr_relay"))
     || negb (bool_decide (text source "/selector" = Some SOURCE_SELECTOR))) InvalidObservation ;?
  let? policy := map_err (λ _, InvalidObservation) (Metadata.evidence_policy_digest normalized) in
  Ok (MkObservation source_id policy (adm_event_id a) (adm_signature a) (adm_observed_at a)).

(** ** Tables, keyed by their primary keys; the triggers forbid UPDATE and DELETE *)

Record mutation_row : Type := MutationRow {
  mr_trade_id : bytes;
  mr_contract_id : string;
  mr_schema_version : Z;
  mr_event_kind : Z;
  mr_author_pubkey : bytes;
  mr_canonical_content : bytes;
}.

Record event_row : Type := EventRow {
  er_mutation_id : bytes;
  er_author_pubkey : bytes;
  er_event_kind : Z;
  er_authored_at_unix_s : Z;
  er_canonical_event_json : bytes;
}.

#[export] Instance mutation_row_eq_dec : EqDecision mutation_row.
Proof. solve_decision. Defined.
#[export] Instance event_row_eq_dec : EqDecision event_row.
Proof. solve_decision. Defined.

(** (source, selector, policy, event, signature, observed second) *)
Abbreviation observation_key := (string * string * bytes * bytes * bytes * Z)%type.

Record evidence_db : Type := EvidenceDb {
  mutations : gmap bytes mutation_row;
  events : gmap (bytes * bytes) event_row;
  observations : gset observation_key;
}.

Definition trade_kind (k : Z) : bool := existsb (Z.eqb k) [3470; 3471; 3472; 3473; 3474].

Definition trade_contract (s : string) : bool :=
  existsb (String.eqb s)
    ["radroots.trade.proposal.v1"; "radroots.trade.decision.v1"; "radroots.trade.revision_proposal.v1";
     "radroots.trade.revision_decision.v1"; "radroots.trade.cancellation.v1"].

Definition mutation_check (i : bytes) (r : mutation_row) : bool :=
  (length i =? 32)%nat && (length (mr_trade_id r) =? 16)%nat && trade_contract (mr_contract_id r)
  && (mr_schema_version r =? 1) && trade_kind (mr_event_kind r)
  && (length (mr_author_pubkey r) =? 32)%nat
  && between 1 131072 (Z.of_nat (length (mr_canonical_content r))).

Definition event_check (k : bytes * bytes) (r : event_row) : bool :=
  (length k.1 =? 32)%nat && (length k.2 =? 64)%nat && (length (er_mutation_id r) =? 32)%nat
  && (length (er_author_pubkey r) =? 32)%nat && trade_kind (er_event_kind r)
  && between 0 I64_MAX (er_authored_at_unix_s r)
  && between 1 524288 (Z.of_nat (length (er_canonical_event_json r))).

Definition observation_check (k : observation_key) : bool :=
  let '(source, selector, policy, event, signature, observed) := k in
  source_id_ok source && String.eqb selector SOURCE_SELECTOR && (length policy =? 32)%nat
  && (length event =? 32)%nat && (length signature =? 64)%nat && between 1 I64_MAX observed.

Arguments observation_check : simpl never.

(** ** Bounded column reads *)

Definition bounded_blob (maximum : Z) (b : bytes) : result PersistenceOperationError bytes :=
  reject_if (negb (between 1 maximum (Z.of_nat (length b)))) OpStorage ;? Ok b.

Definition exact_blob (n : Z) (b : bytes) : result PersistenceOperationError bytes :=
  let? b := bounded_blob n b in
  reject_if (negb (Z.of_nat (length b) =? n)) OpStorage ;? Ok b.

Definition bounded_text (maximum : Z) (s : string) : result PersistenceOperationError string :=
  reject_if (negb (between 1 maximum (Z.of_nat (String.length s)))) OpStorage ;? Ok s.

(** [a? == x && rest]: a comparison that stops at the first difference. *)
Definition eq_and {A} `{EqDecision A} (a : result PersistenceOperationError A) (x : A)
    (rest : result PersistenceOperationError bool) : result PersistenceOperationError bool :=
  let? v := a in if bool_decide (v = x) then rest else Ok false.

(** ** [persist] *)

Definition mutation_matches (e : PersistenceRecord) (db : evidence_db) :
    result PersistenceOperationError bool :=
  let? row := ok_or (mutations db !! mutation_id e) OpStorage in
  eq_and (exact_blob 16 (mr_trade_id row)) (trade_id e)
  (eq_and (bounded_text MAX_CONTRACT_ID_BYTES (mr_contract_id row)) (contract_id e)
  (eq_and (Ok (mr_schema_version row)) (schema_version e)
  (eq_and (Ok (mr_event_kind row)) (event_kind e)
  (eq_and (exact_blob 32 (mr_author_pubkey row)) (author_pubkey e)
  (eq_and (bounded_blob MAX_MUTATION_CONTENT_BYTES (mr_canonical_content row)) (canonical_content e)
  (Ok true)))))).

Definition mutation_of (r : PersistenceRecord) : mutation_row :=
  MutationRow (trade_id r) (contract_id r) (schema_version r) (event_kind r) (author_pubkey r)
    (canonical_content r).

(** [INSERT ... ON CONFLICT (mutation_id) DO NOTHING], then the comparison. *)
Definition insert_mutation (r : PersistenceRecord) (db : evidence_db) :
    result PersistenceOperationError (bool * evidence_db) :=
  reject_if (negb (mutation_check (mutation_id r) (mutation_of r))) OpStorage ;?
  match mutations db !! mutation_id r with
  | None =>
      Ok (true, EvidenceDb (<[mutation_id r := mutation_of r]> (mutations db)) (events db)
                  (observations db))
  | Some _ =>
      let? same := mutation_matches r db in
      if (same : bool) then Ok (false, db) else Err OpMutationConflict
  end.

Definition event_key (r : PersistenceRecord) : bytes * bytes := (event_id r, event_signature r).

Definition event_matches (e : PersistenceRecord) (db : evidence_db) :
    result PersistenceOperationError bool :=
  let? row := ok_or (events db !! event_key e) OpStorage in
  eq_and (exact_blob 32 (er_mutation_id row)) (mutation_id e)
  (eq_and (exact_blob 32 (er_author_pubkey row)) (author_pubkey e)
  (eq_and (Ok (er_event_kind row)) (event_kind e)
  (eq_and (Ok (Some (er_authored_at_unix_s row))) (try_from I64_MAX (authored_at_unix_s e))
  (eq_and (bounded_blob MAX_CANONICAL_EVENT_BYTES (er_canonical_event_json row))
     (canonical_event_json e) (Ok true))))).

Definition event_of (r : PersistenceRecord) (authored : Z) : event_row :=
  EventRow (mutation_id r) (author_pubkey r) (event_kind r) authored (canonical_event_json r).

Definition insert_event (r : PersistenceRecord) (db : evidence_db) :
    result PersistenceOperationError (bool * evidence_db) :=
  let? authored := ok_or (try_from I64_MAX (authored_at_unix_s r)) OpStorage in
  reject_if (negb (event_check (event_key r) (event_of r authored))) OpStorage ;?
  match events db !! event_key r with
  | None =>
      reject_if (negb (bool_decide (is_Some (mutations db !! mutation_id r)))) OpStorage ;?
      Ok (true, EvidenceDb (mutations db) (<[event_key r := event_of r authored]> (events db))
                  (observations db))
  | Some _ =>
      let? same := event_matches r db in
      if (same : bool) then Ok (false, db) else Err OpSignedEventConflict
  end.

Definition insert_observation (o : RhiTradeSourceObservation) (db : evidence_db) :
    result PersistenceOperationError (bool * evidence_db) :=
  let? observed := ok_or (try_from I64_MAX (obs_observed_at o)) OpStorage in
  let key := (obs_source_id o, SOURCE_SELECTOR, obs_policy o, obs_event_id o, obs_event_signature o,
              observed) in
  reject_if (negb (observation_check key)) OpStorage ;?
  if bool_decide (key ∈ observations db) then Ok (false, db)
  else
    reject_if (negb (bool_decide (is_Some (events db !! (obs_event_id o, obs_event_signature o)))))
      OpStorage ;?
    Ok (true, EvidenceDb (mutations db) (events db) ({[key]} ∪ observations db)).

Record RhiTradeEvidencePersistenceOutcome : Type := MkPersistenceOutcome {
  mutation_inserted : bool;
  signed_event_inserted : bool;
  observation_inserted : bool;
}.

Definition persist (r : PersistenceRecord) (o : RhiTradeSourceObservation) (db : evidence_db) :
    result PersistenceOperationError (RhiTradeEvidencePersistenceOutcome * evidence_db) :=
  let? (m, db) := insert_mutation r db in
  let? (e, db) := insert_event r db in
  let? (s, db) := insert_observation o db in
  Ok (MkPersistenceOutcome m e s, db).

Definition map_transaction_error (e : tx_error PersistenceOperationError) :
    RhiTradeEvidencePersistenceErrorKind :=
  if commit_outcome_unknown e then CommitOutcomeUnknown
  else match operation_error e with
       | Some OpMutationConflict => MutationConflict
       | Some OpSignedEventConflict => SignedEventConflict
       | Some OpStorage | None => Storage
       end.

(** [persist_trade_evidence] of a host whose metadata holds [host_policy]. *)
Definition persist_trade_evidence `{TransactionHost evidence_db} (writable : bool)
    (host_policy : bytes) (a : RhiAdmittedTradeMutationEvent) (o : RhiTradeSourceObservation)
    (db : evidence_db) :
    result RhiTradeEvidencePersistenceErrorKind RhiTradeEvidencePersistenceOutcome * evidence_db :=
  let checked :=
    reject_if (negb writable) InvalidMode ;?
    let? r := from_admitted a in
    reject_if
      (negb (bool_decide (obs_policy o = host_policy))
       || negb (bool_decide (obs_event_id o = event_id r))
       || negb (bool_decide (obs_event_signature o = event_signature r))) InvalidObservation ;?
    Ok r in
  match checked with
  | Err e => (Err e, db)
  | Ok r =>
      let '(res, db') := transaction (persist r o) db in
      (map_err map_transaction_error res, db')
  end.

(** * The evidence store's invariant and its theorems *)

Record evidence_inv (db : evidence_db) : Prop := EvidenceInv {
  ev_mutations : map_Forall (λ i r, mutation_check i r = true) (mutations db);
  ev_events : map_Forall (λ k r, event_check k r = true ∧ is_Some (mutations db !! er_mutation_id r))
                (events db);
  ev_observations : set_Forall (λ k : observation_key,
    observation_check k = true ∧ is_Some (events db !! (k.1.1.2, k.1.2))) (observations db);
}.

Lemma eq_and_Ok {A} `{EqDecision A} (a x : A) rest :
  eq_and (Ok a) x rest = if bool_decide (a = x) then rest else Ok false.
Proof. done. Qed.

Lemma bounded_blob_Ok n b : 1 ≤ Z.of_nat (length b) ≤ n → bounded_blob n b = Ok b.
Proof. intros Hb. unfold bounded_blob. by rewrite (proj2 (between_true _ _ _)). Qed.

Lemma exact_blob_Ok n b : Z.of_nat (length b) = n → 1 ≤ n → exact_blob n b = Ok b.
Proof.
  intros Hb Hn. unfold exact_blob. rewrite bounded_blob_Ok by lia. simpl.
  by rewrite (proj2 (Z.eqb_eq _ _)).
Qed.

Lemma bounded_text_contract s : trade_contract s = true → bounded_text MAX_CONTRACT_ID_BYTES s = Ok s.
Proof.
  intros (c & Hc & ->%String.eqb_eq)%existsb_exists. simpl in Hc.
  by destruct Hc as [<-|[<-|[<-|[<-|[<-|[]]]]]].
Qed.

(** Comparing a stored row column by column decides equality of the row. *)
Lemma mutation_matches_spec db r row :
  mutations db !! mutation_id r = Some row → mutation_check (mutation_id r) row = true →
  mutation_matches r db = Ok (bool_decide (row = mutation_of r)).
Proof.
  intros Hrow Hc. unfold mutation_matches. rewrite Hrow. simpl. unfold mutation_check in Hc.
  to_prop. inv_int. repeat match goal with H : (_ =? _)%nat = true |- _ => apply Nat.eqb_eq in H end.
  rewrite !exact_blob_Ok, bounded_text_contract, bounded_blob_Ok by (done || lia).
  rewrite !eq_and_Ok. unfold mutation_of. destruct row; simpl in *.
  repeat case_bool_decide; congruence.
Qed.

Lemma event_matches_spec db r row authored :
  events db !! event_key r = Some row → event_check (event_key r) row = true →
  try_from I64_MAX (authored_at_unix_s r) = Some authored →
  event_matches r db = Ok (bool_decide (row = event_of r authored)).
Proof.
  intros Hrow Hc Ha. unfold event_matches. rewrite Hrow, Ha. simpl. unfold event_check in Hc.
  to_prop. inv_int. repeat match goal with H : (_ =? _)%nat = true |- _ => apply Nat.eqb_eq in H end.
  rewrite !exact_blob_Ok, bounded_blob_Ok by (done || lia).
  rewrite !eq_and_Ok. unfold event_of. destruct row; simpl in *.
  repeat case_bool_decide; congruence.
Qed.

(** What [insert_mutation] does on a well-formed store. *)
Lemma insert_mutation_Ok r db m db' :
  evidence_inv db → insert_mutation r db = Ok (m, db') →
  evidence_inv db' ∧ mutations db' = <[mutation_id r := mutation_of r]> (mutations db) ∧
  events db' = events db ∧ observations db' = observations db ∧
  (m = true ↔ mutations db !! mutation_id r = None) ∧
  (∀ row, mutations db !! mutation_id r = Some row → row = mutation_of r).
Proof.
  intros Hinv. unfold insert_mutation. intros Hs. bind Hs as u Hc. apply reject_if_Ok in Hc. to_prop.
  destruct (mutations db !! mutation_id r) as [row|] eqn:Hrow.
  - rewrite (mutation_matches_spec db r row) in Hs;
      [|done|by apply (ev_mutations _ Hinv (mutation_id r))]. simpl in Hs.
    case_bool_decide; simplify_eq. rewrite insert_id by done. split_and!; naive_solver.
  - inv_ok. destruct Hinv as [Hm He Ho]. split_and!; try done. split; simpl.
    + by apply map_Forall_insert_2.
    + intros k er Hk. destruct (He k er Hk) as [? [x Hx]]. split; [done|].
      destruct (decide (er_mutation_id er = mutation_id r)) as [->|];
        [by rewrite lookup_insert_eq|rewrite lookup_insert_ne by done; eauto].
    + done.
Qed.

Lemma insert_event_Ok r db e db' :
  evidence_inv db → is_Some (mutations db !! mutation_id r) → insert_event r db = Ok (e, db') →
  evidence_inv db' ∧ mutations db' = mutations db ∧
  events db' = <[event_key r := event_of r (authored_at_unix_s r)]> (events db) ∧
  observations db' = observations db ∧ (e = true ↔ events db !! event_key r = None) ∧
  (∀ row, events db !! event_key r = Some row → row = event_of r (authored_at_unix_s r)).
Proof.
  intros Hinv Hmut. unfold insert_event. intros Hs. bind Hs as a Ha. apply ok_or_Ok in Ha.
  pose proof Ha as [-> Hr]%try_from_Some. bind Hs as u Hc. apply reject_if_Ok in Hc. to_prop.
  destruct (events db !! event_key r) as [row|] eqn:Hrow.
  - rewrite (event_matches_spec db r row (authored_at_unix_s r)) in Hs;
      [|done|by apply (ev_events _ Hinv (event_key r))|done]. simpl in Hs.
    case_bool_decide; simplify_eq. rewrite insert_id by done. split_and!; naive_solver.
  - inv_ok. destruct Hinv as [Hm He Ho]. split_and!; try done. split; simpl; [done| |].
    + apply map_Forall_insert_2; done.
    + intros k Hk. destruct (Ho k Hk) as [? [ev Hev]]. split; [done|].
      destruct (decide ((k.1.1.2, k.1.2) = event_key r)) as [->|];
        [by rewrite lookup_insert_eq|rewrite lookup_insert_ne by done; eauto].
Qed.

Definition observation_key_of (o : RhiTradeSourceObservation) : observation_key :=
  (obs_source_id o, SOURCE_SELECTOR, obs_policy o, obs_event_id o, obs_event_signature o,
   obs_observed_at o).

Lemma insert_observation_Ok o db s db' :
  evidence_inv db → insert_observation o db = Ok (s, db') →
  evidence_inv db' ∧ mutations db' = mutations db ∧ events db' = events db ∧
  observations db' = {[observation_key_of o]} ∪ observations db ∧
  (s = true ↔ observation_key_of o ∉ observations db).
Proof.
  intros Hinv. unfold insert_observation. intros Hs. bind Hs as a Ha. apply ok_or_Ok in Ha.
  apply try_from_Some in Ha as [-> Hr]. fold (observation_key_of o) in Hs.
  bind Hs as u Hc. apply reject_if_Ok in Hc. to_prop.
  destruct (bool_decide (observation_key_of o ∈ observations db)) eqn:Hk; to_prop; inv_ok.
  - split_and!; [done..|set_solver|naive_solver].
  - to_prop. destruct Hinv as [Hm He Ho]. split_and!; try done. split; simpl; [done..|].
    intros k [->%elem_of_singleton|Hin]%elem_of_union; [by split|by apply Ho].
Qed.

Lemma persist_Ok r o db out db' :
  evidence_inv db → persist r o db = Ok (out, db') →
  evidence_inv db' ∧ mutations db' = <[mutation_id r := mutation_of r]> (mutations db) ∧
  events db' = <[event_key r := event_of r (authored_at_unix_s r)]> (events db) ∧
  observations db' = {[observation_key_of o]} ∪ observations db ∧
  (∀ row, mutations db !! mutation_id r = Some row → row = mutation_of r) ∧
  (∀ row, events db !! event_key r = Some row → row = event_of r (authored_at_unix_s r)) ∧
  (mutation_inserted out = true ↔ mutations db !! mutation_id r = None) ∧
  (signed_event_inserted out = true ↔ events db !! event_key r = None) ∧
  (observation_inserted out = true ↔ observation_key_of o ∉ observations db).
Proof.
  intros Hinv. unfold persist. intros Hs.
  bind Hs as mo Hm. destruct mo as [m db1]. apply insert_mutation_Ok in Hm
    as (Hinv1 & Hm1 & He1 & Ho1 & Hmi & Hmr); [|done].
  bind Hs as ev He. destruct ev as [e db2]. apply insert_event_Ok in He
    as (Hinv2 & Hm2 & He2 & Ho2 & Hei & Her); [|done|rewrite Hm1, lookup_insert_eq; eauto].
  bind Hs as ob Ho. destruct ob as [s db3]. apply insert_observation_Ok in Ho
    as (Hinv3 & Hm3 & He3 & Ho3 & Hoi); [|done].
  inv_ok. rewrite He1 in *. rewrite Ho1 in *. simpl.
  split_and!; congruence || done.
Qed.

(** ** Properties *)

(** A persisted event is stored exactly and history is append-only: the three
    facts are in the tables with the record's values, every fact stored before is
    still there unchanged, the store stays well formed (each event has its
    mutation, each observation its event), and the outcome reports exactly which
    facts are new. *)
Theorem persist_appends_exact_facts r o db out db' :
  evidence_inv db → persist r o db = Ok (out, db') →
  evidence_inv db' ∧
  mutations db' !! mutation_id r = Some (mutation_of r) ∧
  events db' !! event_key r = Some (event_of r (authored_at_unix_s r)) ∧
  observation_key_of o ∈ observations db' ∧
  (∀ i row, mutations db !! i = Some row → mutations db' !! i = Some row) ∧
  (∀ k row, events db !! k = Some row → events db' !! k = Some row) ∧
  observations db ⊆ observations db' ∧
  (mutation_inserted out = true ↔ mutations db !! mutation_id r = None) ∧
  (signed_event_inserted out = true ↔ events db !! event_key r = None) ∧
  (observation_inserted out = true ↔ observation_key_of o ∉ observations db).
Proof.
  intros Hinv (Hinv' & Hm & He & Ho & Hmr & Her & Hflags)%persist_Ok; [|done].
  rewrite Hm, He, Ho. split_and!; try done; try apply Hflags.
  - by rewrite lookup_insert_eq.
  - by rewrite lookup_insert_eq.
  - set_solver.
  - intros i row Hi. destruct (decide (i = mutation_id r)) as [->|];
      [by rewrite lookup_insert_eq, (Hmr row)|by rewrite lookup_insert_ne].
  - intros k row Hk. destruct (decide (k = event_key r)) as [->|];
      [by rewrite lookup_insert_eq, (Her row)|by rewrite lookup_insert_ne].
  - set_solver.
Qed.

(** Persisting is idempotent: repeating a successful call succeeds, inserts
    nothing and leaves the store as it was. *)
Theorem persist_idempotent r o db out db' :
  evidence_inv db → persist r o db = Ok (out, db') →
  persist r o db' = Ok (MkPersistenceOutcome false false false, db').
Proof.
  intros Hinv Hs. pose proof (persist_Ok _ _ _ _ _ Hinv Hs) as (Hinv' & Hm & He & Ho & _).
  revert Hs. unfold persist at 1. intros Hs. bind Hs as mo Hms. destruct mo as [m db1].
  bind Hs as ev Hes. destruct ev as [e db2]. bind Hs as ob Hos. destruct ob as [ob db3]. inv_ok.
  unfold insert_mutation in Hms. bind Hms as u Hcm.
  unfold insert_event in Hes. bind Hes as a Ha. bind Hes as u2 Hce.
  unfold insert_observation in Hos. bind Hos as a2 Ha2. bind Hos as u3 Hco.
  pose proof Ha2 as [-> _]%ok_or_Ok%try_from_Some. fold (observation_key_of o) in Hco.
  pose proof Ha as Ha'. apply ok_or_Ok in Ha'. pose proof Ha' as [-> _]%try_from_Some.
  assert (mutations db' !! mutation_id r = Some (mutation_of r)) as Hml
    by (by rewrite Hm, lookup_insert_eq).
  assert (events db' !! event_key r = Some (event_of r (authored_at_unix_s r))) as Hel
    by (by rewrite He, lookup_insert_eq).
  unfold persist, insert_mutation. rewrite Hcm. simpl. rewrite Hml.
  rewrite (mutation_matches_spec db' r _ Hml) by (by apply (ev_mutations _ Hinv' _ _ Hml)).
  simpl. rewrite bool_decide_true by done. simpl.
  unfold insert_event. rewrite Ha. simpl. rewrite Hce. simpl. rewrite Hel.
  rewrite (event_matches_spec db' r _ _ Hel) by (done || by apply (ev_events _ Hinv' _ _ Hel)).
  simpl. rewrite bool_decide_true by done. simpl.
  unfold insert_observation. rewrite Ha2. simpl. fold (observation_key_of o). rewrite Hco. simpl.
  rewrite bool_decide_true by set_solver. done.
Qed.

(** Conflicting evidence is refused and nothing is written: when the store holds
    another mutation under the same identity, or another event under the same
    identity and signature, the call fails with that conflict on any transaction
    host and leaves the store unchanged. *)
Theorem conflicting_evidence_is_refused `{TransactionLaws evidence_db} policy a r o db res db' :
  evidence_inv db → from_admitted a = Ok r →
  obs_policy o = policy → obs_event_id o = event_id r → obs_event_signature o = event_signature r →
  (∃ row, mutations db !! mutation_id r = Some row ∧ row ≠ mutation_of r) ∨
  (mutations db !! mutation_id r = Some (mutation_of r) ∧
   ∃ row, events db !! event_key r = Some row ∧ row ≠ event_of r (authored_at_unix_s r)) →
  persist_trade_evidence true policy a o db = (res, db') →
  (∃ e, res = Err e) ∧ db' = db.
Proof.
  intros Hinv Hr Hp Hid Hsig Hconf. unfold persist_trade_evidence. simpl. rewrite Hr. simpl.
  rewrite !bool_decide_true by done. simpl.
  assert (∀ x, persist r o db ≠ Ok x) as Hno.
  { intros [out db1] Hs. destruct (persist_Ok _ _ _ _ _ Hinv Hs) as (_ & _ & _ & _ & Hm & He & _).
    destruct Hconf as [(row & Hrow & Hne)|(_ & row & Hrow & Hne)].
    - by apply Hne, Hm.
    - by apply Hne, He. }
  destruct (transaction (persist r o) db) as [[x|e] db1] eqn:Htx; intros [= <- <-]; simpl.
  - apply tx_committed in Htx. by destruct (Hno (x, db1)).
  - destruct (commit_outcome_unknown e) eqn:Hu.
    + destruct (tx_unknown _ _ _ _ Htx Hu) as (x & db2 & Hop & _). by destruct (Hno (x, db2)).
    + destruct (tx_rolled_back _ _ _ _ Htx Hu) as [-> _]. split; [by eexists|done].
Qed.

(** ** Witnesses *)

Definition demo_admitted : RhiAdmittedTradeMutationEvent :=
  Admitted_event (repeat 5 40) 1700 (repeat 1 32) (repeat 2 16) "radroots.trade.proposal.v1" 1
    (repeat 3 32) (repeat 4 64) (repeat 6 32) 3470 1690 [123; 125] (Some (repeat 5 40)).

Definition demo_record : PersistenceRecord :=
  MkRecord (repeat 1 32) (repeat 2 16) "radroots.trade.proposal.v1" 1 (repeat 3 32) (repeat 4 64)
    (repeat 6 32) 3470 1690 [123; 125] (repeat 5 40).

Definition demo_observation : RhiTradeSourceObservation :=
  from_persistence_parts "primary" (repeat 8 32) demo_record 1700.

Definition empty_db : evidence_db := EvidenceDb ∅ ∅ ∅.

Lemma empty_inv : evidence_inv empty_db.
Proof. split; simpl; [apply map_Forall_empty|apply map_Forall_empty|set_solver]. Qed.

Definition demo_db : evidence_db :=
  match persist demo_record demo_observation empty_db with Ok (_, db) => db | Err _ => empty_db end.

Lemma demo_persist :
  persist demo_record demo_observation empty_db = Ok (MkPersistenceOutcome true true true, demo_db).
Proof.
  assert (match persist demo_record demo_observation empty_db with
          | Ok (o, _) => mutation_inserted o && signed_event_inserted o && observation_inserted o
          | Err _ => false end = true) as Hrun by (vm_compute; reflexivity).
  unfold demo_db. destruct (persist _ _ _) as [[[[] [] []] db]|]; done.
Qed.

Lemma demo_inv : evidence_inv demo_db.
Proof. by apply (persist_Ok _ _ _ _ _ empty_inv demo_persist). Qed.

Lemma persist_appends_exact_facts_witness :
  mutations demo_db !! mutation_id demo_record = Some (mutation_of demo_record).
Proof. exact (proj1 (proj2 (persist_appends_exact_facts _ _ _ _ _ empty_inv demo_persist))). Defined.

Lemma persist_idempotent_witness :
  persist demo_record demo_observation demo_db = Ok (MkPersistenceOutcome false false false, demo_db).
Proof. exact (persist_idempotent _ _ _ _ _ empty_inv demo_persist). Defined.

(** The same mutation identity with other content. *)
Definition demo_conflicting : RhiAdmittedTradeMutationEvent :=
  Admitted_event (repeat 5 40) 1700 (repeat 1 32) (repeat 2 16) "radroots.trade.proposal.v1" 1
    (repeat 3 32) (repeat 4 64) (repeat 6 32) 3470 1690 [123; 32; 125] (Some (repeat 5 40)).

Definition demo_conflicting_record : PersistenceRecord :=
  MkRecord (repeat 1 32) (repeat 2 16) "radroots.trade.proposal.v1" 1 (repeat 3 32) (repeat 4 64)
    (repeat 6 32) 3470 1690 [123; 32; 125] (repeat 5 40).

Lemma demo_stored : mutations demo_db !! mutation_id demo_conflicting_record = Some (mutation_of demo_record).
Proof.
  destruct (persist_Ok _ _ _ _ _ empty_inv demo_persist) as (_ & Hm & _). rewrite Hm.
  apply lookup_insert_eq.
Qed.

Lemma demo_differs : mutation_of demo_record ≠ mutation_of demo_conflicting_record.
Proof. discriminate. Qed.

Lemma conflicting_evidence_is_refused_witness :
  ∃ e, (@persist_trade_evidence (reliable_host evidence_db) true (repeat 8 32) demo_conflicting
          demo_observation demo_db).1 = Err e.
Proof.
  destruct (@conflicting_evidence_is_refused (reliable_host evidence_db) (reliable_host_laws evidence_db)
    (repeat 8 32) demo_conflicting demo_conflicting_record demo_observation demo_db _ _ demo_inv
    eq_refl eq_refl eq_refl eq_refl
    (or_introl (ex_intro _ (mutation_of demo_record) (conj demo_stored demo_differs)))
    (surjective_pairing _)) as [[e He] _].
  exists e. exact He.
Defined.

End Evidence.
