(* ===== verification/EvidenceHistory.v ===== *)
(** * The history of the evidence store

    What the callers of [persist] ([src/src/source_ingest.rs] and
    [src/src/reconciliation_commit.rs]) rely on: history only grows, a fact that is
    stored stays stored, and the insertion flags tell whether evidence is new. *)

From Stdlib Require Import ZArith Lia.
From stdpp Require Import sets list strings gmap.
From S2P Require Import Prelude.
From S2P Require Import StateTrade.

Module History.
Import Evidence.

(** History only grows. *)
Record extends (db db' : evidence_db) : Prop := {
  ex_mutations : mutations db ⊆ mutations db';
  ex_events : events db ⊆ events db';
  ex_observations : observations db ⊆ observations db';
}.

#[export] Instance extends_preorder : PreOrder extends.
Proof. split; [by split|]. intros x y z [? ? ?] [? ? ?]. split; by etrans. Qed.

(** The three facts of a record and its observation are in the tables. *)
Record holds (db : evidence_db) (r : PersistenceRecord) (o : RhiTradeSourceObservation) : Prop := {
  ho_mutation : mutations db !! mutation_id r = Some (mutation_of r);
  ho_event : events db !! event_key r = Some (event_of r (authored_at_unix_s r));
  ho_observation : observation_key_of o ∈ observations db;
}.

Lemma holds_extends db db' r o : extends db db' → holds db r o → holds db' r o.
Proof.
  intros [Hm He Ho] [H1 H2 H3]. split; [by eapply lookup_weaken|by eapply lookup_weaken|set_solver].
Qed.

(** New evidence: the store holds a mutation or an event it did not hold. *)
Definition new_evidence (db db' : evidence_db) : Prop :=
  mutations db' ≠ mutations db ∨ events db' ≠ events db.

#[export] Instance new_evidence_dec db db' : Decision (new_evidence db db').
Proof. unfold new_evidence. apply _. Defined.

Lemma not_new_evidence db db' :
  ¬ new_evidence db db' ↔ mutations db' = mutations db ∧ events db' = events db.
Proof.
  unfold new_evidence. destruct (decide (mutations db' = mutations db)), (decide (events db' = events db));
    naive_solver.
Qed.

Lemma new_evidence_trans db1 db2 db3 :
  extends db1 db2 → extends db2 db3 →
  new_evidence db1 db3 ↔ new_evidence db1 db2 ∨ new_evidence db2 db3.
Proof.
  intros [Hm Ho _] [Hm' Ho' _].
  assert (¬ new_evidence db1 db3 ↔ ¬ new_evidence db1 db2 ∧ ¬ new_evidence db2 db3) as Hnot.
  { rewrite !not_new_evidence. split; [|intros [[] []]; split; congruence]. intros [H1 H2].
    assert (mutations db2 = mutations db1) as E1 by (apply (anti_symm (⊆)); [by rewrite <- H1|done]).
    assert (events db2 = events db1) as E2 by (apply (anti_symm (⊆)); [by rewrite <- H2|done]).
    split; split; congruence. }
  destruct (decide (new_evidence db1 db2)), (decide (new_evidence db2 db3)), (decide (new_evidence db1 db3));
    tauto.
Qed.

(** Storing a row at a key counts exactly when the key is new. *)
Lemma insert_counts {K A} `{Countable K} (m : gmap K A) i x (new : bool) :
  (∀ y, m !! i = Some y → y = x) → (new = true ↔ m !! i = None) →
  m ⊆ <[i := x]> m ∧
  Z.of_nat (size (<[i := x]> m)) = Z.of_nat (size m) + (if new then 1 else 0).
Proof.
  intros Hsame Hnew. destruct (m !! i) as [y|] eqn:Hi.
  - assert (y = x) as -> by auto. rewrite insert_id by done. split; [done|]. destruct new; [|lia].
    discriminate (proj1 Hnew eq_refl).
  - rewrite (proj2 Hnew eq_refl). split; [by apply insert_subseteq|]. rewrite map_size_insert_None by done. lia.
Qed.

Lemma grown_neq {K A} `{Countable K} (m m' : gmap K A) :
  m ⊆ m' → Z.of_nat (size m') - Z.of_nat (size m) ≠ 0 ↔ m' ≠ m.
Proof.
  intros Hsub. split; [by intros Hs ->; lia|]. intros Hne Hs. apply Hne. symmetry.
  apply map_subseteq_size_eq; [done|lia].
Qed.

(** One call of [persist]. *)
Lemma persist_step r o db out db' :
  evidence_inv db → persist r o db = Ok (out, db') →
  evidence_inv db' ∧ extends db db' ∧ holds db' r o ∧
  Z.of_nat (size (mutations db')) =
    Z.of_nat (size (mutations db)) + (if mutation_inserted out then 1 else 0) ∧
  Z.of_nat (size (events db')) =
    Z.of_nat (size (events db)) + (if signed_event_inserted out then 1 else 0).
Proof.
  intros Hinv (Hinv1 & Hm & He & Ho & Hms & Hes & Hmi & Hei & _)%persist_Ok; [|done].
  destruct (insert_counts _ _ _ _ Hms Hmi) as [Hm1 Hm2]. rewrite <- Hm in Hm1, Hm2.
  destruct (insert_counts _ _ _ _ Hes Hei) as [He1 He2]. rewrite <- He in He1, He2.
  split_and!; try done.
  - split; [done|done|set_solver].
  - split; [by rewrite Hm, lookup_insert_eq|by rewrite He, lookup_insert_eq|set_solver].
Qed.

Lemma persist_step_new r o db out db' :
  evidence_inv db → persist r o db = Ok (out, db') →
  mutation_inserted out || signed_event_inserted out = true ↔ new_evidence db db'.
Proof.
  intros Hinv (_ & [Hm He _] & _ & H1 & H2)%persist_step; [|done]. unfold new_evidence.
  rewrite <- (grown_neq _ _ Hm), <- (grown_neq _ _ He), H1, H2, orb_true_iff.
  destruct (mutation_inserted out), (signed_event_inserted out); intuition lia.
Qed.
End History.
