(* ===== verification/JsonText.v ===== *)
(** * Bounded JSON text: the string scanner of [src/src/trade_ingest.rs]

    [decoded_json_string_utf8_bytes] measures a raw JSON string without decoding
    it, and [canonical_json_string_len] measures the JSON text a string would be
    written as.  Both are compared with a reference grammar of JSON strings. *)

From Stdlib Require Import ZArith Lia.
From stdpp Require Import list strings.
From S2P Require Import Prelude.

Module JsonText.

(** ** UTF-8 *)

(** A Unicode scalar value, a Rust [char]. *)
Definition scalar (c : Z) : Prop := 0 ≤ c ≤ 55295 ∨ 57344 ≤ c ≤ 1114111.

(** [char::len_utf8] and [char::encode_utf8] *)
Definition len_utf8 (c : Z) : Z :=
  if c <? 128 then 1 else if c <? 2048 then 2 else if c <? 65536 then 3 else 4.

Definition encode_utf8 (c : Z) : bytes :=
  if c <? 128 then [c]
  else if c <? 2048 then [192 + c / 64; 128 + c mod 64]
  else if c <? 65536 then [224 + c / 4096; 128 + c / 64 mod 64; 128 + c mod 64]
  else [240 + c / 262144; 128 + c / 4096 mod 64; 128 + c / 64 mod 64; 128 + c mod 64].

Definition continuation (b : Z) : bool := between 128 191 b.

(** [chars().next()]: the first character of a text and its width. *)
Definition next_char (l : bytes) : option (Z * nat) :=
  match l with
  | [] => None
  | b0 :: l =>
      if between 0 127 b0 then Some (b0, 1%nat)
      else if between 194 223 b0 then
        match l with
        | b1 :: _ => if continuation b1 then Some ((b0 - 192) * 64 + (b1 - 128), 2%nat) else None
        | _ => None
        end
      else if between 224 239 b0 then
        match l with
        | b1 :: b2 :: _ =>
            let c := (b0 - 224) * 4096 + (b1 - 128) * 64 + (b2 - 128) in
            if continuation b1 && continuation b2 && (2048 <=? c) && negb (between 55296 57343 c)
            then Some (c, 3%nat) else None
        | _ => None
        end
      else if between 240 244 b0 then
        match l with
        | b1 :: b2 :: b3 :: _ =>
            let c := (b0 - 240) * 262144 + (b1 - 128) * 4096 + (b2 - 128) * 64 + (b3 - 128) in
            if continuation b1 && continuation b2 && continuation b3 && between 65536 1114111 c
            then Some (c, 4%nat) else None
        | _ => None
        end
      else None
  end.

(** [std::str::from_utf8]: the characters of valid UTF-8; every round consumes a
    byte, so the length of the input is enough fuel. *)
Fixpoint decode_utf8 (fuel : nat) (l : bytes) : option (list Z) :=
  match l, fuel with
  | [], _ => Some []
  | _, O => None
  | _, S fuel =>
      match next_char l with
      | Some (c, width) => cons c <$> decode_utf8 fuel (drop width l)
      | None => None
      end
  end.

Definition from_utf8 (l : bytes) : option (list Z) := decode_utf8 (length l) l.

(** ** The scanner *)

(** [bytes.get(i..i + n)] *)
Definition get_slice (i n : nat) (l : bytes) : option bytes :=
  if (i + n <=? length l)%nat then Some (take n (drop i l)) else None.

Definition hex_digit (b : Z) : option Z :=
  if between 48 57 b then Some (b - 48)
  else if between 97 102 b then Some (b - 97 + 10)
  else if between 65 70 b then Some (b - 65 + 10)
  else None.

Definition hex_step (value : option Z) (b : Z) : option Z :=
  match value, hex_digit b with
  | Some value, Some digit => try_from U16_MAX (value * 16 + digit)
  | _, _ => None
  end.

Definition parse_hex_u16 (l : bytes) : option Z :=
  if negb (length l =? 4)%nat then None else fold_left hex_step l (Some 0).

(** quote, backslash, slash, and the letters b, f, n, r, t *)
Definition short_escape (b : Z) : bool := existsb (Z.eqb b) [34; 92; 47; 98; 102; 110; 114; 116].

(** A [\u] escape, from the byte after the [u]: the scalar value and the rest.
    [0x1_0000 + ((first - 0xd800) << 10) + (second - 0xdc00)] *)
Definition unicode_escape (tail : bytes) : option (Z * bytes) :=
  first ← get_slice 0 4 tail; first ← parse_hex_u16 first;
  let tail := drop 4 tail in
  if between 55296 56319 first then
    marker ← get_slice 0 2 tail;
    if negb (bool_decide (marker = [92; 117])) then None
    else
      second ← get_slice 2 4 tail; second ← parse_hex_u16 second;
      if negb (between 56320 57343 second) then None
      else Some (65536 + Z.shiftl (first - 55296) 10 + (second - 56320), drop 6 tail)
  else if between 56320 57343 first then None
  else Some (first, tail).

(** The loop, on the bytes from [index] to the closing quote included: [index] is
    before [end] when more than one byte is left and equal to it when one is.  The
    [checked_add]s on [usize] cannot fail: a step adds to [length] at most the number
    of bytes it reads, and a slice is shorter than [isize::MAX]. *)
Fixpoint scan (fuel : nat) (rest : bytes) (len : Z) : option Z :=
  match fuel with
  | O => None
  | S fuel =>
      match rest with
      | byte :: ((_ :: _) as tail) =>
          if byte =? 92 then
            match tail with
            | [] => None
            | escaped :: tail =>
                if short_escape escaped then scan fuel tail (len + 1)
                else if escaped =? 117 then
                  '(c, tail) ← unicode_escape tail; scan fuel tail (len + len_utf8 c)
                else None
            end
          else if byte <? 128 then
            if (byte <? 32) || (byte =? 34) then None else scan fuel tail (len + 1)
          else
            '(c, _) ← next_char (take (length rest - 1) rest);
            scan fuel (drop (Z.to_nat (len_utf8 c)) rest) (len + len_utf8 c)
      | [_] => Some len
      | [] => None
      end
  end.

Definition decoded_json_string_utf8_bytes (raw : bytes) : option Z :=
  match raw with
  | first :: ((_ :: _) as rest) =>
      if (first =? 34) && bool_decide (list.last raw = Some 34) then scan (length raw) rest 0 else None
  | _ => None
  end.

(** ** The canonical form of a string *)

Definition canonical_json_char_len (c : Z) : Z :=
  if existsb (Z.eqb c) [34; 92; 10; 13; 9; 8; 12] then 2
  else if between 0 31 c then 6
  else len_utf8 c.

(** [saturating_add] cannot saturate on a string in memory. *)
Definition canonical_json_string_len (s : list Z) : Z :=
  fold_left (λ len c, len + canonical_json_char_len c) s 2.

(** ** Reference: the grammar of JSON strings *)

(** A character of a JSON string as it may be written. *)
Inductive json_unit : Type :=
| Plain (c : Z)
| Short (escape : Z)
| Unicode (hex : bytes)
| Surrogates (high low : bytes).

Definition short_char (e : Z) : Z :=
  if e =? 98 then 8 else if e =? 102 then 12 else if e =? 110 then 10
  else if e =? 114 then 13 else if e =? 116 then 9 else e.

Definition hex_value (h : bytes) : Z := default 0 (parse_hex_u16 h).

Definition unit_bytes (u : json_unit) : bytes :=
  match u with
  | Plain c => encode_utf8 c
  | Short e => [92; e]
  | Unicode h => 92 :: 117 :: h
  | Surrogates h l => 92 :: 117 :: h ++ 92 :: 117 :: l
  end.

(** The character a unit stands for. *)
Definition unit_char (u : json_unit) : Z :=
  match u with
  | Plain c => c
  | Short e => short_char e
  | Unicode h => hex_value h
  | Surrogates h l => 65536 + Z.shiftl (hex_value h - 55296) 10 + (hex_value l - 56320)
  end.

Definition unit_ok (u : json_unit) : Prop :=
  match u with
  | Plain c => scalar c ∧ 32 ≤ c ∧ c ≠ 34 ∧ c ≠ 92
  | Short e => short_escape e = true
  | Unicode h => is_Some (parse_hex_u16 h) ∧ ¬ 55296 ≤ hex_value h ≤ 57343
  | Surrogates h l =>
      is_Some (parse_hex_u16 h) ∧ is_Some (parse_hex_u16 l) ∧
      55296 ≤ hex_value h ≤ 56319 ∧ 56320 ≤ hex_value l ≤ 57343
  end.

Definition quoted (us : list json_unit) : bytes := 34 :: concat (map unit_bytes us) ++ [34].

Definition decoded_length (us : list json_unit) : Z :=
  fold_right Z.add 0 (map (λ u, len_utf8 (unit_char u)) us).

(** How [serde_json] writes a character: a short escape, [\u00XX] or itself. *)
Definition hex_char (d : Z) : Z := if d <? 10 then 48 + d else 87 + d.
Definition canonical_unit (c : Z) : json_unit :=
  if c =? 10 then Short 110 else if c =? 13 then Short 114 else if c =? 9 then Short 116
  else if c =? 8 then Short 98 else if c =? 12 then Short 102
  else if (c =? 34) || (c =? 92) then Short c
  else if between 0 31 c then Unicode [48; 48; hex_char (c / 16); hex_char (c mod 16)]
  else Plain c.

(** ** UTF-8 lemmas *)

Ltac zdm := Z.to_euclidean_division_equations; lia.

(** Decides the integer tests of the goal by the hypotheses in the context. *)
Ltac decide_tests :=
  repeat match goal with
  | |- context [between ?a ?b ?c] =>
      first [rewrite (proj2 (between_true a b c)) by lia | rewrite (proj2 (between_false a b c)) by lia]
  | |- context [?a <? ?b] =>
      first [rewrite (proj2 (Z.ltb_lt a b)) by lia | rewrite (proj2 (Z.ltb_ge a b)) by lia]
  | |- context [?a =? ?b] =>
      first [rewrite (proj2 (Z.eqb_eq a b)) by lia | rewrite (proj2 (Z.eqb_neq a b)) by lia]
  | |- context [?a <=? ?b] =>
      first [rewrite (proj2 (Z.leb_le a b)) by lia | rewrite (proj2 (Z.leb_gt a b)) by lia]
  end.

Lemma encode_length c : Z.of_nat (length (encode_utf8 c)) = len_utf8 c.
Proof. unfold encode_utf8, len_utf8. by repeat case_match. Qed.

Lemma len_utf8_range c : 1 ≤ len_utf8 c ≤ 4.
Proof. unfold len_utf8. repeat case_match; lia. Qed.

Lemma continuation_mod x : continuation (128 + x mod 64) = true.
Proof. apply between_true. zdm. Qed.

Lemma next_char_encode c rest :
  scalar c → next_char (encode_utf8 c ++ rest) = Some (c, length (encode_utf8 c)).
Proof.
  unfold scalar, encode_utf8. intros Hc.
  destruct (Z.ltb_spec c 128); [|destruct (Z.ltb_spec c 2048); [|destruct (Z.ltb_spec c 65536)]];
    unfold next_char; cbn [app length].
  - by decide_tests.
  - assert (2 ≤ c / 64 ≤ 31) by zdm. decide_tests. rewrite continuation_mod. do 2 f_equal. zdm.
  - assert (0 ≤ c / 4096 ≤ 15) by zdm. decide_tests. rewrite !continuation_mod.
    replace ((224 + c / 4096 - 224) * 4096 + (128 + c / 64 mod 64 - 128) * 64 + (128 + c mod 64 - 128))
      with c by zdm.
    by decide_tests.
  - assert (0 ≤ c / 262144 ≤ 4) by zdm. decide_tests. rewrite !continuation_mod.
    replace ((240 + c / 262144 - 240) * 262144 + (128 + c / 4096 mod 64 - 128) * 4096 +
             (128 + c / 64 mod 64 - 128) * 64 + (128 + c mod 64 - 128)) with c by zdm.
    by decide_tests.
Qed.

Lemma next_char_Some l c w :
  next_char l = Some (c, w) → scalar c ∧ l = encode_utf8 c ++ drop w l ∧ w = length (encode_utf8 c).
Proof.
  unfold next_char, scalar, encode_utf8, continuation. intros Hn.
  repeat case_match; simplify_eq; to_prop; rewrite ?between_true, ?between_false in *;
    try (exfalso; lia); (split; [lia|split; [|done]]); cbn [app length drop];
    repeat (apply (f_equal2 cons); [zdm|]); done.
Qed.

(** ** The scanner accepts exactly the quoted sequences of units *)

Lemma get_slice_Some i n l t :
  get_slice i n l = Some t → l = take i l ++ t ++ drop (i + n) l ∧ length t = n.
Proof.
  unfold get_slice. intros Hg. case_match; [|done]. injection Hg as <-.
  apply Nat.leb_le in H. split.
  - rewrite <- drop_drop, take_drop, take_drop. done.
  - rewrite length_take, length_drop. lia.
Qed.

Lemma get_slice_app a t r i n :
  length a = i → length t = n → get_slice i n (a ++ t ++ r) = Some t.
Proof.
  intros <- <-. unfold get_slice. rewrite !length_app.
  rewrite (proj2 (Nat.leb_le _ _)) by lia. by rewrite drop_app_length, take_app_length.
Qed.

Lemma get_slice_prefix t r n : length t = n → get_slice 0 n (t ++ r) = Some t.
Proof. intros Ht. exact (get_slice_app [] t r 0 n eq_refl Ht). Qed.

Lemma before_quote t r body :
  t ++ r = body ++ [34] → 34 ∉ t → ∃ body', body = t ++ body' ∧ r = body' ++ [34].
Proof.
  revert body; induction t as [|b t IH]; intros body Heq Hn; simpl in *; [by exists body|].
  apply not_elem_of_cons in Hn as [Hb Hn]. destruct body as [|b' body]; simpl in Heq.
  - injection Heq as -> _. done.
  - injection Heq as -> Heq. destruct (IH body Heq Hn) as (body' & -> & ->). by exists body'.
Qed.

Lemma parse_hex_Some h v :
  parse_hex_u16 h = Some v → length h = 4%nat ∧ 0 ≤ v ≤ 65535 ∧ 34 ∉ h.
Proof.
  unfold parse_hex_u16. intros Hh.
  destruct h as [|a [|b [|c [|d [|]]]]]; try done. simpl in Hh. unfold hex_step in Hh.
  repeat case_match; try done. repeat match goal with
    H : try_from _ _ = Some _ |- _ => apply try_from_Some in H as [H ?] end. subst.
  unfold U16_MAX in *. split_and!; [done|lia|lia|].
  rewrite !not_elem_of_cons. split_and!; [..|apply not_elem_of_nil]; by intros <-.
Qed.

Lemma unicode_escape_Some body c tail :
  unicode_escape (body ++ [34]) = Some (c, tail) →
  ∃ u pre body', unit_ok u ∧ unit_bytes u = 92 :: 117 :: pre ∧ body = pre ++ body' ∧
    tail = body' ++ [34] ∧ c = unit_char u.
Proof.
  unfold unicode_escape. intros Hu.
  apply bind_Some in Hu as (h & [Hl Hh]%get_slice_Some & Hu).
  apply bind_Some in Hu as (v & Hv & Hu). destruct (parse_hex_Some _ _ Hv) as (_ & Hrange & Hq).
  rewrite take_0 in Hl. cbn [app Nat.add] in Hl. symmetry in Hl. apply before_quote in Hl as (body1 & -> & Hd); [|done].
  rewrite Hd in Hu. assert (hex_value h = v) as Hval by (unfold hex_value; by rewrite Hv).
  destruct (between 55296 56319 v) eqn:Hb.
  - apply bind_Some in Hu as (m & [Hl2 Hm]%get_slice_Some & Hu).
    destruct (bool_decide (m = [92; 117])) eqn:E; [|done]. apply bool_decide_eq_true in E as ->.
    cbn [negb] in Hu. rewrite take_0 in Hl2. cbn [app Nat.add] in Hl2. symmetry in Hl2.
    apply (before_quote [92; 117]) in Hl2 as (body2 & -> & Hd2); [|rewrite !not_elem_of_cons; split_and!; [done|done|apply not_elem_of_nil]].
    apply bind_Some in Hu as (l & [Hl3 Hll]%get_slice_Some & Hu).
    simpl in Hl3. injection Hl3 as Hl3.
    apply bind_Some in Hu as (w & Hw & Hu). destruct (parse_hex_Some _ _ Hw) as (_ & Hrange2 & Hq2).
    symmetry in Hl3. apply before_quote in Hl3 as (body3 & -> & Hd3); [|done].
    destruct (between 56320 57343 w) eqn:Hb2; [|done]. cbn [negb] in Hu. injection Hu as <- <-.
    apply between_true in Hb, Hb2. cbn [drop app] in *. rewrite <- app_assoc, drop_app_length' in Hd3 by done.
    assert (hex_value l = w) as Hval2 by (unfold hex_value; by rewrite Hw).
    exists (Surrogates h l), (h ++ 92 :: 117 :: l), body3. simpl. rewrite Hval, Hval2.
    split_and!; try done; try lia; eauto; [by rewrite <- app_assoc|].
    by rewrite <- app_assoc, drop_app_length' by done.
  - destruct (between 56320 57343 v) eqn:Hb2; [done|]. injection Hu as <- <-.
    exists (Unicode h), h, body1. simpl. rewrite Hval. apply between_false in Hb, Hb2.
    split_and!; try done; eauto. lia.
Qed.

(** One round of the scanner before the closing quote. *)
Lemma scan_round fuel b body len :
  scan (S fuel) (b :: body ++ [34]) len =
  if b =? 92 then
    match body ++ [34] with
    | [] => None
    | escaped :: tail =>
        if short_escape escaped then scan fuel tail (len + 1)
        else if escaped =? 117 then
          '(c, tail) ← unicode_escape tail; scan fuel tail (len + len_utf8 c)
        else None
    end
  else if b <? 128 then
    if (b <? 32) || (b =? 34) then None else scan fuel (body ++ [34]) (len + 1)
  else
    '(c, _) ← next_char (b :: body);
    scan fuel (drop (Z.to_nat (len_utf8 c)) (b :: body ++ [34])) (len + len_utf8 c).
Proof.
  assert (take (length (b :: body ++ [34]) - 1) (b :: body ++ [34]) = b :: body) as Ht.
  { change (b :: body ++ [34]) with ((b :: body) ++ [34]). rewrite take_app_length' ; [done|].
    rewrite length_app. simpl. lia. }
  rewrite <- Ht. destruct body; reflexivity.
Qed.

Lemma scan_escape fuel e tail len :
  scan (S fuel) (92 :: e :: tail) len =
  if short_escape e then scan fuel tail (len + 1)
  else if e =? 117 then '(c, tail) ← unicode_escape tail; scan fuel tail (len + len_utf8 c)
  else None.
Proof. done. Qed.

Lemma scan_empty fuel len : scan fuel [] len = None.
Proof. by destruct fuel. Qed.

Lemma decoded_length_cons u us :
  decoded_length (u :: us) = len_utf8 (unit_char u) + decoded_length us.
Proof. done. Qed.

Lemma short_char_len e : short_escape e = true → len_utf8 (short_char e) = 1.
Proof.
  unfold short_escape, short_char. intros He. simpl in He.
  repeat (apply orb_true_iff in He as [->%Z.eqb_eq|He]; [done|]). done.
Qed.

Lemma encode_ascii c : c < 128 → encode_utf8 c = [c] ∧ len_utf8 c = 1.
Proof. unfold encode_utf8, len_utf8. intros Hc. by decide_tests. Qed.

Lemma encode_wide c b l r : 128 ≤ b → b :: l = encode_utf8 c ++ r → 128 ≤ c.
Proof.
  intros Hb Heq. destruct (Z.lt_ge_cases c 128) as [Hc|]; [|done].
  rewrite (proj1 (encode_ascii c Hc)) in Heq. injection Heq as -> _. lia.
Qed.

Lemma scan_sound fuel body len n :
  scan fuel (body ++ [34]) len = Some n →
  ∃ us, Forall unit_ok us ∧ body = concat (map unit_bytes us) ∧ n = len + decoded_length us.
Proof.
  revert body len; induction fuel as [|fuel IH]; intros body len Hs; [done|].
  assert (∀ u body0 body' len', unit_ok u → body0 = unit_bytes u ++ body' →
    len' = len + len_utf8 (unit_char u) → scan fuel (body' ++ [34]) len' = Some n →
    ∃ us, Forall unit_ok us ∧ body0 = concat (map unit_bytes us) ∧ n = len + decoded_length us) as Hnext.
  { intros u body0 body' len' Hu -> Hlen Hs'. apply IH in Hs' as (us & Hus & -> & ->).
    exists (u :: us). split_and!; [by constructor|done|]. rewrite decoded_length_cons. lia. }
  destruct body as [|b body].
  { simpl in Hs. exists []. split_and!; [constructor|done|]. injection Hs as ->.
    unfold decoded_length. simpl. lia. }
  cbn [app] in Hs. rewrite scan_round in Hs. destruct (Z.eqb_spec b 92) as [->|Hb].
  - destruct body as [|e body]; cbn [app] in Hs; [by rewrite scan_empty in Hs|].
    destruct (short_escape e) eqn:He.
    + eapply (Hnext (Short e)); [done|done| |exact Hs]. simpl. by rewrite short_char_len.
    + destruct (Z.eqb_spec e 117) as [->|]; [|done]. apply bind_Some in Hs as ([c tail] & Hu & Hs).
      apply unicode_escape_Some in Hu as (u & pre & body' & Hu & Hbytes & -> & -> & ->).
      eapply (Hnext u); [done| |done|exact Hs]. by rewrite Hbytes.
  - destruct (Z.ltb_spec b 128) as [Hlt|Hge].
    + destruct (_ || _) eqn:E; [done|]. to_prop. destruct (encode_ascii b Hlt) as [Heb Hlb].
      eapply (Hnext (Plain b)); [|simpl; by rewrite Heb|simpl; by rewrite Hlb|exact Hs].
      unfold unit_ok, scalar. split_and!; lia.
    + apply bind_Some in Hs as ([c w] & Hc & Hs).
      apply next_char_Some in Hc as (Hsc & Heq & ->). pose proof (encode_wide _ _ _ _ Hge Heq) as Hwide.
      rewrite <- encode_length, Nat2Z.id, app_comm_cons in Hs. rewrite Heq in Hs.
      rewrite <- app_assoc, drop_app_length in Hs.
      eapply (Hnext (Plain c)); [simpl; split_and!; [done|lia..]|exact Heq|reflexivity|].
      rewrite encode_length in Hs. exact Hs.
Qed.

Lemma unicode_escape_unit u pre rest :
  unit_ok u → unit_bytes u = 92 :: 117 :: pre → unicode_escape (pre ++ rest) = Some (unit_char u, rest).
Proof.
  unfold unicode_escape. destruct u as [c|e|h|h l]; simpl.
  - intros (Hc & ? & ? & ?) Heq. destruct (Z.lt_ge_cases c 128) as [Hlt|Hge].
    + rewrite (proj1 (encode_ascii c Hlt)) in Heq. discriminate.
    + exfalso. assert (continuation 117 = true) as H117; [|done]. unfold encode_utf8 in Heq.
      revert Heq. decide_tests. repeat case_match; intros [= ? <-]; apply between_true; zdm.
  - intros He [= -> ->]. done.
  - intros [[v Hv] Hs] [= ->]. unfold hex_value in *. rewrite Hv in *; simpl in *.
    destruct (parse_hex_Some _ _ Hv) as (Hl & _ & _).
    rewrite (get_slice_prefix pre rest 4) by done; simpl. rewrite Hv; simpl.
    rewrite drop_app_length' by done. destruct (between 55296 56319 v) eqn:E1; to_prop.
    { apply between_true in E1. lia. }
    rewrite (proj2 (between_false 56320 57343 v)) by lia. done.
  - intros ([v Hv] & [w Hw] & Hh & Hlo) [= <-]. unfold hex_value in *. rewrite Hv, Hw in *; simpl in *.
    destruct (parse_hex_Some _ _ Hv) as (Hl & _ & _). destruct (parse_hex_Some _ _ Hw) as (Hl2 & _ & _).
    rewrite <- app_assoc; cbn [app]. rewrite (get_slice_prefix h _ 4) by done; simpl. rewrite Hv; simpl.
    rewrite drop_app_length' by done. rewrite (proj2 (between_true 55296 56319 v)) by lia.
    pose proof (get_slice_prefix [92; 117] (l ++ rest) 2 eq_refl) as E1.
    pose proof (get_slice_app [92; 117] l rest 2 4 eq_refl Hl2) as E2.
    cbn [app] in E1, E2. rewrite E1; simpl. rewrite E2; simpl. rewrite Hw; simpl.
    rewrite (proj2 (between_true 56320 57343 w)) by lia. simpl. do 2 f_equal.
    by rewrite drop_app_length' by done.
Qed.

Lemma concat_units_cons u us rest :
  concat (map unit_bytes (u :: us)) ++ rest = unit_bytes u ++ concat (map unit_bytes us) ++ rest.
Proof. simpl. by rewrite <- app_assoc. Qed.

Lemma scan_complete us fuel len :
  Forall unit_ok us → (length (concat (map unit_bytes us)) < fuel)%nat →
  scan fuel (concat (map unit_bytes us) ++ [34]) len = Some (len + decoded_length us).
Proof.
  intros Hus; revert fuel len; induction Hus as [|u us Hu Hus IH]; intros fuel len Hf.
  { destruct fuel; [simpl in Hf; lia|]. simpl. unfold decoded_length. simpl. f_equal. lia. }
  destruct fuel as [|fuel]; [simpl in Hf; lia|].
  rewrite concat_units_cons, decoded_length_cons, Z.add_assoc.
  assert (length (unit_bytes u ++ concat (map unit_bytes us)) < S fuel)%nat as Hlen by exact Hf.
  rewrite length_app in Hlen.
  destruct u as [c|e|h|h l]; cbn [unit_bytes unit_char app] in *.
  - destruct Hu as (Hc & ? & ? & ?). destruct (Z.lt_ge_cases c 128) as [Hlt|Hge].
    + destruct (encode_ascii c Hlt) as [He Hl]. rewrite He, Hl in *. cbn [app length] in *.
      rewrite scan_round. decide_tests. simpl. apply IH. lia.
    + pose proof (encode_length c) as Hw. pose proof (len_utf8_range c) as Hr.
      pose proof (next_char_encode c (concat (map unit_bytes us)) Hc) as Hn.
      destruct (encode_utf8 c) as [|b t] eqn:He; [simpl in Hw; lia|]. cbn [app] in *.
      assert (128 ≤ b) as Hb.
      { unfold encode_utf8 in He. revert He. decide_tests. repeat case_match; intros [= <- _]; zdm. }
      rewrite app_assoc, scan_round. decide_tests. rewrite Hn. simpl.
      replace (b :: (t ++ concat (map unit_bytes us)) ++ [34])
        with ((b :: t) ++ concat (map unit_bytes us) ++ [34]) by (simpl; by rewrite app_assoc).
      rewrite <- Hw, Nat2Z.id, drop_app_length. apply IH. simpl in Hlen. lia.
  - rewrite scan_escape. simpl in Hu. rewrite Hu. rewrite (short_char_len _ Hu). apply IH. simpl in Hlen. lia.
  - rewrite scan_escape. cbn [short_escape existsb Z.eqb Pos.eqb orb].
    rewrite (unicode_escape_unit (Unicode h) h) by done. simpl. apply IH. simpl in Hlen. lia.
  - rewrite scan_escape. cbn [short_escape existsb Z.eqb Pos.eqb orb].
    pose proof (unicode_escape_unit (Surrogates h l) (h ++ 92 :: 117 :: l)
      (concat (map unit_bytes us) ++ [34]) Hu eq_refl) as E.
    rewrite <- !app_assoc in *. cbn [app] in *. rewrite <- ?app_assoc in *. rewrite E. simpl. apply IH.
    simpl in Hlen. rewrite !length_app in Hlen. simpl in Hlen. rewrite ?length_app in Hlen. lia.
Qed.

Lemma decoded_quoted us :
  Forall unit_ok us → decoded_json_string_utf8_bytes (quoted us) = Some (decoded_length us).
Proof.
  intros Hus. unfold decoded_json_string_utf8_bytes, quoted.
  destruct (concat (map unit_bytes us) ++ [34]) as [|b rest] eqn:E; [by destruct (concat _)|].
  assert (list.last (34 :: concat (map unit_bytes us) ++ [34]) = Some 34) as Hl.
  { rewrite app_comm_cons. apply last_snoc. }
  rewrite E in Hl. rewrite Hl, Z.eqb_refl, bool_decide_true by done. cbn [andb]. rewrite <- E.
  rewrite scan_complete; [done|done|]. simpl. rewrite length_app. simpl. lia.
Qed.

Lemma canonical_unit_ok c :
  scalar c → unit_ok (canonical_unit c) ∧ unit_char (canonical_unit c) = c ∧
  Z.of_nat (length (unit_bytes (canonical_unit c))) = canonical_json_char_len c.
Proof.
  intros Hc. unfold canonical_unit, canonical_json_char_len.
  destruct (decide (c ∈ [34; 92; 10; 13; 9; 8; 12])) as [Hs|Hs].
  - repeat (apply elem_of_cons in Hs as [->|Hs]; [by vm_compute|]). by apply elem_of_nil in Hs.
  - rewrite !not_elem_of_cons in Hs. destruct Hs as (? & ? & ? & ? & ? & ? & ? & _). simpl. decide_tests.
    simpl. destruct (between 0 31 c) eqn:Hb.
    + assert (c ∈ map Z.of_nat (seq 0 32)) as Hin.
      { apply between_true in Hb. apply list_elem_of_In, in_map_iff. exists (Z.to_nat c).
        rewrite in_seq. lia. }
      clear -Hin. simpl in Hin.
      repeat (apply elem_of_cons in Hin as [->|Hin]; [vm_compute; intuition (discriminate || eauto)|]).
      by apply elem_of_nil in Hin.
    + apply between_false in Hb. simpl. rewrite encode_length. unfold scalar in *. split_and!; try done; lia.
Qed.

Lemma canonical_len_app s n :
  fold_left (λ len c, len + canonical_json_char_len c) s n =
  n + fold_right Z.add 0 (map canonical_json_char_len s).
Proof. revert n; induction s as [|c s IH]; intros n; simpl; [lia|]. rewrite IH. lia. Qed.

Lemma decoded_Some raw n :
  decoded_json_string_utf8_bytes raw = Some n →
  ∃ us, Forall unit_ok us ∧ raw = quoted us ∧ n = decoded_length us.
Proof.
  unfold decoded_json_string_utf8_bytes, quoted. destruct raw as [|b [|b' rest]]; try done. intros Hs.
  destruct (Z.eqb_spec b 34) as [->|]; [|done].
  destruct (bool_decide_reflect (list.last (34 :: b' :: rest) = Some 34)) as [Hl|]; [|done].
  cbn [andb] in Hs. apply last_Some in Hl as [body Hl]. destruct body as [|b0 body]; [done|].
  injection Hl as <- Hl. rewrite Hl in Hs.
  apply scan_sound in Hs as (us & Hus & -> & ->). exists us. by rewrite Hl.
Qed.

Lemma decoded_nonneg raw n : decoded_json_string_utf8_bytes raw = Some n → 0 ≤ n.
Proof.
  intros (us & _ & _ & ->)%decoded_Some. unfold decoded_length.
  induction us as [|u us IH]; simpl; [lia|]. pose proof (len_utf8_range (unit_char u)). lia.
Qed.

(** ** Properties *)

(** The scanner measures a raw JSON string exactly: it answers when and only
    when the text is a quoted sequence of well-formed characters and escapes, with
    surrogate pairs matched, and then with the number of UTF-8 bytes of the string
    the text denotes. *)
Theorem decoded_length_is_exact raw n :
  decoded_json_string_utf8_bytes raw = Some n ↔
  ∃ us, Forall unit_ok us ∧ raw = quoted us ∧ n = decoded_length us.
Proof.
  split; [apply decoded_Some|]. by intros (us & Hus & -> & ->); apply decoded_quoted.
Qed.

(** Writing a string and measuring it agree: [canonical_json_string_len] is
    the length of the JSON text the string is written as, that text scans
    successfully, and the scan answers the length of the string itself. *)
Theorem canonical_length_roundtrip s :
  Forall scalar s →
  canonical_json_string_len s = Z.of_nat (length (quoted (map canonical_unit s))) ∧
  decoded_json_string_utf8_bytes (quoted (map canonical_unit s)) =
    Some (Z.of_nat (length (concat (map encode_utf8 s)))).
Proof.
  intros Hs. unfold canonical_json_string_len. rewrite canonical_len_app. split.
  - unfold quoted. simpl. rewrite length_app. simpl.
    induction Hs as [|c s Hc Hs IH]; simpl; [lia|]. destruct (canonical_unit_ok c Hc) as (_ & _ & <-).
    rewrite length_app. lia.
  - rewrite decoded_quoted.
    + f_equal. unfold decoded_length. rewrite map_map.
      induction Hs as [|c s Hc Hs IH]; simpl; [done|]. destruct (canonical_unit_ok c Hc) as (_ & -> & _).
      rewrite length_app, IH. rewrite Nat2Z.inj_add, encode_length. done.
    + apply Forall_map. eapply Forall_impl; [|exact Hs]. intros c Hc. by apply canonical_unit_ok.
Qed.

(** A quote, a line feed, a control character, an umlaut and a clef. *)
Lemma canonical_length_roundtrip_witness :
  Forall scalar [34; 10; 1; 252; 119070] ∧
  decoded_json_string_utf8_bytes (quoted (map canonical_unit [34; 10; 1; 252; 119070])) = Some 9.
Proof.
  assert (Forall scalar [34; 10; 1; 252; 119070]) as Hs by (repeat constructor; unfold scalar; lia).
  exact (conj Hs (proj2 (canonical_length_roundtrip _ Hs))).
Defined.

End JsonText.
