(* ===== verification/TradeIngest.v ===== *)
(** * Trade-mutation admission: [src/src/trade_ingest.rs]

    The bounded, verified admission of one signed event.  The crates that parse
    JSON ([serde_json]'s streaming access), parse and verify Nostr events
    ([radroots_event], [radroots_nostr]) and decode mutations
    ([radroots_event_codec]) are interfaces; the limits, the preflight over the
    stream, the classification of errors and the order of the checks are the
    program's. *)

From Stdlib Require Import ZArith Lia.
From stdpp Require Import list strings.
From S2P Require Import Prelude.
From S2P Require Import Interfaces.
From S2P Require Import StateTrade.
From S2P Require Import JsonText.

Module TradeIngest.
Import JsonText.

Definition RHI_TRADE_EVENT_ID_MAX_BYTES : Z := 64.
Definition RHI_TRADE_EVENT_PUBLIC_KEY_MAX_BYTES : Z := 64.
Definition RHI_TRADE_EVENT_SIGNATURE_MAX_BYTES : Z := 128.

Definition DUPLICATE_FIELD_SENTINEL : string := "rhi-duplicate-event-field".
Definition EXTRA_COUNT_SENTINEL : string := "rhi-extra-field-count-limit".
Definition EXTRA_BYTES_SENTINEL : string := "rhi-extra-field-bytes-limit".
Definition TAG_COUNT_SENTINEL : string := "rhi-tag-count-limit".
Definition TAG_ELEMENT_COUNT_SENTINEL : string := "rhi-tag-element-count-limit".
Definition TAG_ELEMENT_BYTES_SENTINEL : string := "rhi-tag-element-bytes-limit".
Definition TAG_TOTAL_BYTES_SENTINEL : string := "rhi-tag-total-bytes-limit".

Record RhiTradeMutationAdmissionLimits : Type := MkLimits {
  wire_bytes : Z;
  content_bytes : Z;
  tag_count : Z;
  tag_total_elements : Z;
  tag_element_bytes : Z;
  tag_total_bytes : Z;
}.

Inductive RhiTradeMutationAdmissionErrorKind : Type :=
| InvalidLimits | EmptyEvent | EventTooLarge | InvalidEventUtf8 | MalformedEvent
| DuplicateEventField | EventIdentifierTooLarge | EventContentTooLarge | TooManyTags
| TooManyTagElements | TagElementTooLarge | TagsTooLarge | TooManyExtraFields
| ExtraFieldsTooLarge | InvalidObservationTime | InvalidTimePolicy | InvalidAuthoredTime
| InvalidEventId | InvalidSignature | UnsupportedKind | InvalidAuthor | InvalidMutation
| AuthoredTimeRejected.

Definition config_limit `{JsonValue V} (normalized : V) (p : string) :
    result RhiTradeMutationAdmissionErrorKind Z :=
  ok_or (filter_opt (λ value, 0 <? value) (v ← pointer normalized p; as_u64 v)) InvalidLimits.

Definition limits_from_config `{JsonValue V} (normalized : V) :
    result RhiTradeMutationAdmissionErrorKind RhiTradeMutationAdmissionLimits :=
  let? wire := config_limit normalized "/resource_limits/events/wire_bytes" in
  let? content := config_limit normalized "/resource_limits/events/content_bytes" in
  let? count := config_limit normalized "/resource_limits/events/tag_count" in
  let? elements := config_limit normalized "/resource_limits/events/tag_total_elements" in
  let? element := config_limit normalized "/resource_limits/events/tag_element_bytes" in
  let? total := config_limit normalized "/resource_limits/events/tag_total_bytes" in
  Ok (MkLimits wire content count elements element total).

Definition observed_at_new (value : Z) : result RhiTradeMutationAdmissionErrorKind Z :=
  if (value =? 0) || (I64_MAX <? value) then Err InvalidObservationTime else Ok value.

Definition authored_time_policy_new (maximum_future_seconds : Z) :
    result RhiTradeMutationAdmissionErrorKind Z :=
  if I64_MAX <? maximum_future_seconds then Err InvalidTimePolicy else Ok maximum_future_seconds.

(** ** The crates the source calls *)

(** What [serde_json]'s access to an array or object yields before it ends; an
    ending [Some text] is an error, by its rendered text.  (The position the
    rendering appends contains no sentinel.) *)
Record json_seq (A : Type) : Type := JsonSeq { items : list A; ending : option string }.
Arguments JsonSeq {A} _ _.
Arguments items {A} _.
Arguments ending {A} _.

(** One element of the tag array: an array of raw values, or another value, which
    a visitor of sequences rejects with an error. *)
Inductive tag_value : Type :=
| TagArray (elements : json_seq bytes)
| TagOther (rendered : string).

Class JsonReader : Type := {
  (** the entries of the event object: a decoded key, then a raw value or an error *)
  read_object : bytes → json_seq (list Z * result string bytes);
  read_tags : bytes → json_seq tag_value;
  (** [Deserializer::end] succeeds *)
  read_end : bytes → bool;
  (** [from_str::<u64>] and [from_str::<u32>] succeed *)
  scalar_u64 : bytes → bool;
  scalar_u32 : bytes → bool;
}.

Record EventEnvelope : Type := MkEnvelope {
  env_id : bytes;
  env_sig : bytes;
  env_author : bytes;
  env_kind : Z;
  env_created_at : Z;
  env_content : bytes;
  env_wire : option bytes;
}.

Inductive Verification : Type :=
| IdVerified | Verified | IdMismatch | SignatureInvalid | MalformedEnvelope.

Record TradeMutationEnvelopeV1 : Type := MkMutation {
  mut_mutation_id : option bytes;
  mut_trade_id : bytes;
  mut_contract_id : string;
  mut_schema_version : Z;
}.

Inductive RadrootsTradeMutationError : Type := InvalidKind | AuthorMismatch | OtherMutationError.

Class EventLibrary : Type := {
  DEFAULT_EXTRA_MAX_FIELDS : Z;
  DEFAULT_EXTRA_TOTAL_JSON_MAX_BYTES : Z;
  (** [Nip01EventWire::parse_json_unverified_with_limits] and
      [into_unverified_envelope]; both errors are [MalformedEvent] *)
  parse_event : bytes → RhiTradeMutationAdmissionLimits → option EventEnvelope;
  verify_id : EventEnvelope → Verification;
  verify : EventEnvelope → Verification;
  is_trade_mutation_event_kind : Z → bool;
  trade_mutation_from_event :
    EventEnvelope → result RadrootsTradeMutationError TradeMutationEnvelopeV1;
}.

(** ** The preflight *)

Fixpoint contains (needle text : string) : bool :=
  String.prefix needle text
  || match text with EmptyString => false | String _ text => contains needle text end.

Definition classify_wire_preflight_error (rendered : string) : RhiTradeMutationAdmissionErrorKind :=
  if contains DUPLICATE_FIELD_SENTINEL rendered then DuplicateEventField
  else if contains EXTRA_COUNT_SENTINEL rendered then TooManyExtraFields
  else if contains EXTRA_BYTES_SENTINEL rendered then ExtraFieldsTooLarge
  else MalformedEvent.

Definition classify_tag_error (rendered : string) : RhiTradeMutationAdmissionErrorKind :=
  if contains TAG_COUNT_SENTINEL rendered then TooManyTags
  else if contains TAG_ELEMENT_COUNT_SENTINEL rendered then TooManyTagElements
  else if contains TAG_ELEMENT_BYTES_SENTINEL rendered then TagElementTooLarge
  else if contains TAG_TOTAL_BYTES_SENTINEL rendered then TagsTooLarge
  else MalformedEvent.

Definition event_fields : list (list Z) :=
  map as_bytes ["id"; "pubkey"; "created_at"; "kind"; "tags"; "content"; "sig"].

(** The slots filled so far, the extra keys and their bytes. *)
Record VisitState : Type := MkVisit {
  slots : list (list Z * bytes);
  extras : list (list Z);
  extra_bytes : Z;
}.

Definition slot (key : list Z) (s : VisitState) : option bytes :=
  snd <$> List.find (λ e, bool_decide (e.1 = key)) (slots s).

Section ingest.
Context `{EventLibrary}.

Definition RHI_TRADE_EVENT_EXTRA_FIELD_MAX_COUNT : Z := DEFAULT_EXTRA_MAX_FIELDS.
Definition RHI_TRADE_EVENT_EXTRA_JSON_MAX_BYTES : Z := DEFAULT_EXTRA_TOTAL_JSON_MAX_BYTES.

(** One entry of [visit_map]. *)
Definition visit_entry (s : VisitState) (entry : list Z * result string bytes) :
    result string VisitState :=
  let '(key, value) := entry in
  if bool_decide (key ∈ event_fields) then
    reject_if (bool_decide (is_Some (slot key s))) DUPLICATE_FIELD_SENTINEL ;?
    let? value := value in
    Ok (MkVisit (slots s ++ [(key, value)]) (extras s) (extra_bytes s))
  else
    reject_if (bool_decide (key ∈ extras s)) DUPLICATE_FIELD_SENTINEL ;?
    let seen := extras s ++ [key] in
    reject_if (RHI_TRADE_EVENT_EXTRA_FIELD_MAX_COUNT <? Z.of_nat (length seen)) EXTRA_COUNT_SENTINEL ;?
    let? value := value in
    let? total :=
      ok_or (total ← u64_checked_add (extra_bytes s) (canonical_json_string_len key);
             total ← u64_checked_add total 1;
             u64_checked_add total (Z.of_nat (length value))) EXTRA_BYTES_SENTINEL in
    reject_if (RHI_TRADE_EVENT_EXTRA_JSON_MAX_BYTES <? total) EXTRA_BYTES_SENTINEL ;?
    Ok (MkVisit (slots s) seen total).

Fixpoint visit_map (s : VisitState) (entries : list (list Z * result string bytes)) :
    result string VisitState :=
  match entries with
  | [] => Ok s
  | entry :: entries => let? s := visit_entry s entry in visit_map s entries
  end.

Record RawEvent : Type := MkRaw {
  raw_id : bytes; raw_pubkey : bytes; raw_created_at : bytes; raw_kind : bytes;
  raw_tags : bytes; raw_content : bytes; raw_sig : bytes;
}.

Definition required (value : option bytes) : result string bytes :=
  ok_or value "missing required event field".

Definition raw_event (seq : json_seq (list Z * result string bytes)) : result string RawEvent :=
  let? s := visit_map (MkVisit [] [] 0) (items seq) in
  match ending seq with
  | Some e => Err e
  | None =>
      let? i := required (slot (as_bytes "id") s) in
      let? p := required (slot (as_bytes "pubkey") s) in
      let? c := required (slot (as_bytes "created_at") s) in
      let? k := required (slot (as_bytes "kind") s) in
      let? t := required (slot (as_bytes "tags") s) in
      let? x := required (slot (as_bytes "content") s) in
      let? g := required (slot (as_bytes "sig") s) in
      Ok (MkRaw i p c k t x g)
  end.

Definition validate_bounded_string (raw : bytes) (maximum : Z)
    (too_large : RhiTradeMutationAdmissionErrorKind) : result RhiTradeMutationAdmissionErrorKind Z :=
  let? length := ok_or (decoded_json_string_utf8_bytes raw) MalformedEvent in
  reject_if (maximum <? length) too_large ;?
  Ok length.

Record Measurement : Type := MkMeasurement { count : Z; elements : Z; measured : Z }.

(** [TagVisitor::visit_seq] *)
Fixpoint visit_tag (maximum_elements maximum_element_bytes : Z) (m : Measurement)
    (l : list bytes) (fin : option string) : result string Measurement :=
  if elements m <? maximum_elements then
    match l with
    | [] => match fin with Some e => Err e | None => Ok m end
    | raw :: l =>
        let? length := ok_or (decoded_json_string_utf8_bytes raw)
                         "invalid type: non-string, expected a JSON string" in
        reject_if (maximum_element_bytes <? length) TAG_ELEMENT_BYTES_SENTINEL ;?
        let? total := ok_or (u64_checked_add (measured m) length) TAG_TOTAL_BYTES_SENTINEL in
        visit_tag maximum_elements maximum_element_bytes
          (MkMeasurement (count m) (elements m + 1) total) l fin
    end
  else
    match l with
    | [] => match fin with Some e => Err e | None => Ok m end
    | _ :: _ => Err TAG_ELEMENT_COUNT_SENTINEL
    end.

(** [next_element::<IgnoredAny>] of an element. *)
Definition ignored (t : tag_value) : result string unit :=
  match t with
  | TagArray s => match ending s with Some e => Err e | None => Ok tt end
  | TagOther _ => Ok tt
  end.

(** [TagsVisitor::visit_seq] *)
Fixpoint visit_tags (limits : RhiTradeMutationAdmissionLimits) (m : Measurement)
    (l : list tag_value) (fin : option string) : result string Measurement :=
  if count m <? tag_count limits then
    let? remaining :=
      ok_or (if elements m <=? tag_total_elements limits
             then Some (tag_total_elements limits - elements m) else None)
        TAG_ELEMENT_COUNT_SENTINEL in
    match l with
    | [] => match fin with Some e => Err e | None => Ok m end
    | TagOther e :: _ => Err e
    | TagArray s :: l =>
        let? tag := visit_tag remaining (tag_element_bytes limits) (MkMeasurement 1 0 0) (items s)
                      (ending s) in
        let? es := ok_or (u64_checked_add (elements m) (elements tag)) TAG_ELEMENT_COUNT_SENTINEL in
        let? bs := ok_or (u64_checked_add (measured m) (measured tag)) TAG_TOTAL_BYTES_SENTINEL in
        reject_if (tag_total_bytes limits <? bs) TAG_TOTAL_BYTES_SENTINEL ;?
        visit_tags limits (MkMeasurement (count m + 1) es bs) l fin
    end
  else
    match l with
    | [] => match fin with Some e => Err e | None => Ok m end
    | t :: _ => let? _ := ignored t in Err TAG_COUNT_SENTINEL
    end.

Context `{JsonReader}.

Definition measure_tags (raw : bytes) (limits : RhiTradeMutationAdmissionLimits) :
    result RhiTradeMutationAdmissionErrorKind Measurement :=
  let seq := read_tags raw in
  let? m := map_err classify_tag_error
              (visit_tags limits (MkMeasurement 0 0 0) (items seq) (ending seq)) in
  reject_if (negb (read_end raw)) MalformedEvent ;?
  Ok m.

Definition preflight_wire (source : bytes) (limits : RhiTradeMutationAdmissionLimits) :
    result RhiTradeMutationAdmissionErrorKind unit :=
  let? raw := map_err classify_wire_preflight_error (raw_event (read_object source)) in
  reject_if (negb (read_end source)) MalformedEvent ;?
  let? _ := validate_bounded_string (raw_id raw) RHI_TRADE_EVENT_ID_MAX_BYTES
              EventIdentifierTooLarge in
  let? _ := validate_bounded_string (raw_pubkey raw) RHI_TRADE_EVENT_PUBLIC_KEY_MAX_BYTES
              EventIdentifierTooLarge in
  let? _ := validate_bounded_string (raw_sig raw) RHI_TRADE_EVENT_SIGNATURE_MAX_BYTES
              EventIdentifierTooLarge in
  let? _ := validate_bounded_string (raw_content raw) (content_bytes limits) EventContentTooLarge in
  reject_if (negb (scalar_u64 (raw_created_at raw))) MalformedEvent ;?
  reject_if (negb (scalar_u32 (raw_kind raw))) MalformedEvent ;?
  let? _ := measure_tags (raw_tags raw) limits in
  Ok tt.

(** ** Admission *)

Definition validate_authored_time_representation (authored_at : Z) :
    result RhiTradeMutationAdmissionErrorKind unit :=
  reject_if (I64_MAX <? authored_at) InvalidAuthoredTime ;? Ok tt.

Definition enforce_authored_time_policy (authored_at observed_at maximum_future_seconds : Z) :
    result RhiTradeMutationAdmissionErrorKind unit :=
  let latest := Z.min (observed_at + maximum_future_seconds) U64_MAX in
  reject_if (latest <? authored_at) AuthoredTimeRejected ;? Ok tt.

Definition classify_mutation_error (e : RadrootsTradeMutationError) :
    RhiTradeMutationAdmissionErrorKind :=
  match e with
  | InvalidKind => UnsupportedKind
  | AuthorMismatch => InvalidAuthor
  | OtherMutationError => InvalidMutation
  end.

Definition admit_rhi_trade_mutation_event (limits : RhiTradeMutationAdmissionLimits)
    (original : bytes) (observed_at maximum_future_seconds : Z) :
    result RhiTradeMutationAdmissionErrorKind Evidence.RhiAdmittedTradeMutationEvent :=
  reject_if (length original =? 0)%nat EmptyEvent ;?
  reject_if (wire_bytes limits <? Z.of_nat (length original)) EventTooLarge ;?
  let? _ := ok_or (from_utf8 original) InvalidEventUtf8 in
  preflight_wire original limits ;?
  let? event := ok_or (parse_event original limits) MalformedEvent in
  (match verify_id event with
   | IdVerified => Ok tt
   | IdMismatch => Err InvalidEventId
   | _ => Err MalformedEvent
   end) ;?
  (match verify event with
   | Verified => Ok tt
   | IdMismatch => Err InvalidEventId
   | SignatureInvalid => Err InvalidSignature
   | IdVerified | MalformedEnvelope => Err MalformedEvent
   end) ;?
  validate_authored_time_representation (env_created_at event) ;?
  reject_if (negb (is_trade_mutation_event_kind (env_kind event))) UnsupportedKind ;?
  let? mutation := map_err classify_mutation_error (trade_mutation_from_event event) in
  let? mutation_id := ok_or (mut_mutation_id mutation) InvalidMutation in
  enforce_authored_time_policy (env_created_at event) observed_at maximum_future_seconds ;?
  Ok (Evidence.Admitted_event original observed_at mutation_id (mut_trade_id mutation)
        (mut_contract_id mutation) (mut_schema_version mutation) (env_id event) (env_sig event)
        (env_author event) (env_kind event) (env_created_at event) (env_content event)
        (env_wire event)).

(** ** The tag measurement *)

Definition sum (l : list Z) : Z := fold_right Z.add 0 l.

(** The decoded lengths of the elements of one tag that parses to its end. *)
Definition tag_lengths (t : tag_value) (ls : list Z) : Prop :=
  ∃ s, t = TagArray s ∧ ending s = None ∧
    Forall2 (λ raw n, decoded_json_string_utf8_bytes raw = Some n) (items s) ls.

Definition limits_ok (l : RhiTradeMutationAdmissionLimits) : Prop :=
  0 ≤ tag_total_elements l ≤ U64_MAX ∧ 0 ≤ tag_total_bytes l ≤ U64_MAX.

Lemma visit_tag_Ok maxe maxb m l fin m' :
  elements m ≤ maxe → 0 ≤ measured m ≤ U64_MAX →
  visit_tag maxe maxb m l fin = Ok m' ↔
  fin = None ∧ ∃ ls, Forall2 (λ raw n, decoded_json_string_utf8_bytes raw = Some n) l ls ∧
    Forall (λ n, n ≤ maxb) ls ∧ elements m + Z.of_nat (length ls) ≤ maxe ∧
    measured m + sum ls ≤ U64_MAX ∧
    m' = MkMeasurement (count m) (elements m + Z.of_nat (length ls)) (measured m + sum ls).
Proof.
  revert m; induction l as [|raw l IH]; intros m He Hm.
  - assert (visit_tag maxe maxb m [] fin = match fin with Some e => Err e | None => Ok m end) as ->.
    { simpl. by destruct (_ <? _). }
    destruct fin as [e|]; [naive_solver|]. split.
    + intros [= <-]. split; [done|]. exists []. simpl. rewrite !Z.add_0_r. destruct m.
      split_and!; first [done|constructor|simpl in *; lia].
    + intros (_ & ls & Hls & _ & _ & _ & ->). apply Forall2_nil_inv_l in Hls as ->. simpl.
      rewrite !Z.add_0_r. by destruct m.
  - simpl. destruct (Z.ltb_spec (elements m) maxe) as [Hlt|Hge].
    + split.
      * intros Hv. bind Hv as n Hn. apply ok_or_Ok in Hn. bind Hv as u1 Hb. apply reject_if_Ok in Hb.
        bind Hv as t Ht. apply ok_or_Ok, u64_checked_add_Some in Ht as [-> Ht]. to_prop.
        pose proof (decoded_nonneg _ _ Hn).
        apply IH in Hv as (-> & ls & Hls & Hall & Hlen & Hsum & ->); simpl in *; [|lia..].
        split; [done|]. exists (n :: ls). simpl. split_and!; try by constructor.
        -- lia.
        -- lia.
        -- f_equal; lia.
      * intros (-> & ls & Hls & Hall & Hlen & Hsum & ->).
        destruct ls as [|n ls]; [by apply Forall2_nil_inv_r in Hls|].
        apply Forall2_cons_1 in Hls as [Hn Hls]. apply Forall_cons_1 in Hall as [Hn1 Hall].
        pose proof (decoded_nonneg _ _ Hn). simpl in *.
        assert (0 ≤ sum ls) as Hs0.
        { clear -Hls. induction Hls as [|r n l ls Hn _ IH]; simpl; [lia|].
          pose proof (decoded_nonneg _ _ Hn). lia. }
        rewrite Hn; simpl. rewrite (proj2 (Z.ltb_ge _ _)) by lia. simpl.
        rewrite (proj2 (u64_checked_add_Some _ _ _)) by (split; [reflexivity|lia]). simpl.
        apply IH; simpl; [lia|lia|]. split; [done|]. exists ls.
        split_and!; first [done|lia|f_equal; lia].
    + split; [done|]. intros (_ & ls & Hls & _ & Hlen & _).
      destruct ls as [|n ls]; [by apply Forall2_nil_inv_r in Hls|]. simpl in Hlen. lia.
Qed.

Lemma sum_app l k : sum (l ++ k) = sum l + sum k.
Proof. unfold sum. induction l; simpl; [done|]. lia. Qed.

Lemma tag_lengths_nonneg t ls : tag_lengths t ls → 0 ≤ sum ls.
Proof.
  intros (s & _ & _ & Hls). induction Hls as [|r n l ls Hn _ IH]; simpl; [lia|].
  pose proof (decoded_nonneg _ _ Hn). lia.
Qed.

Lemma visit_tags_Ok limits m l fin m' :
  limits_ok limits → elements m ≤ tag_total_elements limits →
  0 ≤ elements m → 0 ≤ measured m ≤ tag_total_bytes limits → count m ≤ tag_count limits →
  visit_tags limits m l fin = Ok m' ↔
  fin = None ∧ ∃ lss, Forall2 tag_lengths l lss ∧
    Forall (Forall (λ n, n ≤ tag_element_bytes limits)) lss ∧
    count m + Z.of_nat (length lss) ≤ tag_count limits ∧
    elements m + Z.of_nat (length (concat lss)) ≤ tag_total_elements limits ∧
    measured m + sum (concat lss) ≤ tag_total_bytes limits ∧
    m' = MkMeasurement (count m + Z.of_nat (length lss)) (elements m + Z.of_nat (length (concat lss)))
           (measured m + sum (concat lss)).
Proof.
  intros [Hle Hlb]. revert m; induction l as [|t l IH]; intros m He He0 Hm Hc.
  - assert (visit_tags limits m [] fin = match fin with Some e => Err e | None => Ok m end) as ->.
    { simpl. rewrite (proj2 (Z.leb_le _ _)) by done. by destruct (_ <? _). }
    destruct fin as [e|]; [naive_solver|]. split.
    + intros [= <-]. split; [done|]. exists []. simpl. rewrite !Z.add_0_r. destruct m.
      split_and!; first [done|constructor|simpl in *; lia].
    + intros (_ & lss & Hls & _ & _ & _ & _ & ->). apply Forall2_nil_inv_l in Hls as ->. simpl.
      rewrite !Z.add_0_r. by destruct m.
  - simpl. rewrite (proj2 (Z.leb_le _ _)) by done. simpl.
    destruct (Z.ltb_spec (count m) (tag_count limits)) as [Hlt|Hge].
    + split.
      * destruct t as [s|e]; [|done]. intros Hv. bind Hv as tag Htag. bind Hv as es Hes. bind Hv as bs Hbs.
        bind Hv as u Hu. apply reject_if_Ok in Hu. apply ok_or_Ok, u64_checked_add_Some in Hes as [-> Hes].
        apply ok_or_Ok, u64_checked_add_Some in Hbs as [-> Hbs]. to_prop.
        apply visit_tag_Ok in Htag as (Hfin & ls & Hls & Hall & Hlen & Hsum & ->); simpl in *; [|lia..].
        assert (tag_lengths (TagArray s) ls) as Htl by (exists s; done).
        pose proof (tag_lengths_nonneg _ _ Htl).
        apply IH in Hv as (-> & lss & Hlss & Hall' & Hlen' & Hel' & Hsum' & ->); simpl in *; [|lia..].
        split; [done|]. exists (ls :: lss). simpl. rewrite length_app, sum_app.
        split_and!; first [by constructor|lia|f_equal; lia].
      * intros (-> & lss & Hlss & Hall & Hlen & Hel & Hsum & ->).
        destruct lss as [|ls lss]; [by apply Forall2_nil_inv_r in Hlss|].
        apply Forall2_cons_1 in Hlss as [Htl Hlss]. apply Forall_cons_1 in Hall as [Hall1 Hall].
        pose proof (tag_lengths_nonneg _ _ Htl). destruct Htl as (s & -> & Hfin & Hls). simpl in *.
        rewrite length_app, sum_app in *.
        assert (0 ≤ sum (concat lss)) as Hs0.
        { clear -Hlss. induction Hlss as [|t ls l lss Ht _ IH]; simpl; [lia|]. rewrite sum_app.
          pose proof (tag_lengths_nonneg _ _ Ht). lia. }
        assert (visit_tag (tag_total_elements limits - elements m) (tag_element_bytes limits)
          (MkMeasurement 1 0 0) (items s) (ending s) =
          Ok (MkMeasurement 1 (Z.of_nat (length ls)) (sum ls))) as ->.
        { apply visit_tag_Ok; simpl; [lia|unfold U64_MAX; lia|]. split; [done|]. exists ls.
          split_and!; first [done|lia|f_equal; lia]. }
        simpl.
        rewrite !(proj2 (u64_checked_add_Some _ _ _)) by (split; [reflexivity|lia]). simpl.
        rewrite (proj2 (Z.ltb_ge _ _)) by lia. simpl.
        apply IH; simpl; [lia..|]. split; [done|]. exists lss.
        split_and!; first [done|lia|f_equal; lia].
    + split.
      * intros Hv. bind Hv as u Hu. done.
      * intros (_ & lss & Hls & _ & Hlen & _).
        destruct lss as [|ls lss]; [by apply Forall2_nil_inv_r in Hls|]. simpl in Hlen. lia.
Qed.

(** ** The event object *)

Definition known (e : list Z * bytes) : bool := bool_decide (e.1 ∈ event_fields).
Definition extra (e : list Z * bytes) : bool := negb (known e).
Definition extra_size (l : list (list Z * bytes)) : Z :=
  sum (map (λ e, canonical_json_string_len e.1 + 1 + Z.of_nat (length e.2)) l).

(** What the visitor holds after the entries [l], all with values. *)
Record visited (l : list (list Z * bytes)) (s : VisitState) : Prop := {
  vs_distinct : NoDup (map fst l);
  vs_slots : slots s = List.filter known l;
  vs_extras : extras s = map fst (List.filter extra l);
  vs_bytes : extra_bytes s = extra_size (List.filter extra l);
  vs_count : extras s ≠ [] → Z.of_nat (length (extras s)) ≤ RHI_TRADE_EVENT_EXTRA_FIELD_MAX_COUNT;
  vs_total : extras s ≠ [] → extra_bytes s ≤ RHI_TRADE_EVENT_EXTRA_JSON_MAX_BYTES;
}.

Lemma slot_Some key s v : slot key s = Some v → (key, v) ∈ slots s.
Proof.
  unfold slot. destruct (List.find _ _) as [[k w]|] eqn:Hf; [|done]. intros [= <-].
  apply find_some in Hf as [Hin Hk%bool_decide_eq_true]. simpl in Hk. subst. by apply list_elem_of_In.
Qed.

Lemma slot_None key s : slot key s = None → key ∉ map fst (slots s).
Proof.
  unfold slot. destruct (List.find _ _) as [[k w]|] eqn:Hf; [done|]. intros _ Hin.
  apply list_elem_of_fmap in Hin as ([k v] & -> & Hin%list_elem_of_In).
  pose proof (find_none _ _ Hf _ Hin) as Hn. simpl in Hn. by rewrite bool_decide_eq_false in Hn.
Qed.

Lemma extra_size_app l k : extra_size (l ++ k) = extra_size l + extra_size k.
Proof. unfold extra_size. by rewrite map_app, sum_app. Qed.

Lemma visit_entry_Ok l s entry s' :
  visited l s → visit_entry s entry = Ok s' → ∃ v, entry = (entry.1, Ok v) ∧ visited (l ++ [(entry.1, v)]) s'.
Proof.
  intros [Hd Hs He Hb Hc Ht] Hv. destruct entry as [key value]. simpl in Hv. simpl.
  assert (∀ v, key ∉ map fst l → NoDup (map fst (l ++ [(key, v)]))) as Hdist.
  { intros v Hn. rewrite map_app. apply list.NoDup_app. split_and!; [done| |apply NoDup_singleton].
    intros x Hx ->%list_elem_of_singleton. done. }
  assert (∀ p, key ∈ map fst l → p (key, []) = true → (∀ v w, p (key, v) = p (key, w)) →
          key ∈ map fst (List.filter p l)) as Hfilter.
  { intros p Hin Hp Hpv. apply list_elem_of_fmap in Hin as ([k v] & -> & Hin).
    apply list_elem_of_fmap. exists (k, v). split; [done|].
    apply list_elem_of_In, filter_In. split; [by apply list_elem_of_In|]. simpl in *. by rewrite (Hpv v []). }
  destruct (bool_decide_reflect (key ∈ event_fields)) as [Hk|Hk].
  - bind Hv as u Hu. apply reject_if_Ok, bool_decide_eq_false in Hu. bind Hv as v Hval. subst value.
    injection Hv as <-. exists v. split; [done|].
    assert (known (key, v) = true) as Hkn by (by apply bool_decide_eq_true).
    assert (key ∉ map fst l) as Hfresh.
    { intros Hin. destruct (slot key s) as [w|] eqn:Hslot; [by eapply Hu, mk_is_Some|].
      apply slot_None in Hslot. rewrite Hs in Hslot. apply Hslot. apply Hfilter; [done|done|done]. }
    assert (extra (key, v) = false) as Hex by (unfold extra; by rewrite Hkn).
    split; simpl; rewrite ?filter_app; simpl; rewrite ?Hkn, ?Hex, ?app_nil_r; try done;
      [by apply Hdist|by rewrite Hs].
  - bind Hv as u Hu. apply reject_if_Ok, bool_decide_eq_false in Hu.
    bind Hv as u2 Hu2. apply reject_if_Ok in Hu2. bind Hv as v Hval. subst value.
    bind Hv as t Htot. apply ok_or_Ok in Htot. bind Hv as u3 Hu3. apply reject_if_Ok in Hu3.
    injection Hv as <-. exists v. split; [done|].
    apply bind_Some in Htot as (t1 & [-> _]%u64_checked_add_Some & Htot).
    apply bind_Some in Htot as (t2 & [-> _]%u64_checked_add_Some & Htot).
    apply u64_checked_add_Some in Htot as [-> _]. to_prop.
    assert (known (key, v) = false) as Hkn by (by apply bool_decide_eq_false).
    assert (extra (key, v) = true) as Hex by (unfold extra; by rewrite Hkn).
    assert (key ∉ map fst l) as Hfresh.
    { intros Hin. apply Hu. rewrite He. apply Hfilter; [done| |done].
      unfold extra, known. simpl. by rewrite bool_decide_eq_false_2. }
    split; simpl; rewrite ?filter_app; simpl; rewrite ?Hkn, ?Hex, ?app_nil_r; try done.
    + by apply Hdist.
    + by rewrite map_app, He.
    + rewrite extra_size_app, Hb. unfold extra_size. simpl. lia.
Qed.

Lemma visit_map_Ok l s entries s' :
  visited l s → visit_map s entries = Ok s' →
  ∃ vs, entries = map (λ e, (e.1, Ok e.2)) vs ∧ visited (l ++ vs) s'.
Proof.
  revert l s; induction entries as [|e entries IH]; intros l s Hl Hv; simpl in Hv.
  - injection Hv as ->. exists []. by rewrite app_nil_r.
  - bind Hv as s1 Hs1. destruct (visit_entry_Ok _ _ _ _ Hl Hs1) as (v & He & Hl1).
    destruct (IH _ _ Hl1 Hv) as (vs & -> & Hvs). exists ((e.1, v) :: vs). simpl.
    rewrite <- He. split; [done|]. by rewrite <- app_assoc in Hvs.
Qed.

Lemma visited_initial : visited [] (MkVisit [] [] 0).
Proof. split; simpl; try done. apply NoDup_nil_2. Qed.

(** An error rendered by the reader is classified by its text: when the text of a
    rejected value repeats a sentinel, so does the rendering of
    [invalid type: string ...], and the class follows the value. *)
Lemma rendered_text_decides_tag_class raw limits text :
  items (read_tags raw) = [] → ending (read_tags raw) = Some text → 0 < tag_count limits →
  0 ≤ tag_total_elements limits → contains TAG_COUNT_SENTINEL text = true →
  measure_tags raw limits = Err TooManyTags.
Proof.
  intros Hi He Hc Ht Htext. unfold measure_tags. rewrite Hi, He. simpl.
  rewrite (proj2 (Z.ltb_lt _ _)), (proj2 (Z.leb_le _ _)) by done. simpl. unfold classify_tag_error.
  by rewrite Htext.
Qed.

(** ** Properties *)

(** An event object is read without ambiguity: when the preflight accepts it,
    no key occurs twice, each of the seven event fields is the value of its key,
    and the other fields are within the extension limits by number and by the
    length of their JSON text. *)
Theorem event_fields_are_unique seq r :
  raw_event seq = Ok r →
  ending seq = None ∧
  ∃ vs, items seq = map (λ e, (e.1, Ok e.2)) vs ∧ NoDup (map fst vs) ∧
    (as_bytes "id", raw_id r) ∈ vs ∧ (as_bytes "pubkey", raw_pubkey r) ∈ vs ∧
    (as_bytes "created_at", raw_created_at r) ∈ vs ∧ (as_bytes "kind", raw_kind r) ∈ vs ∧
    (as_bytes "tags", raw_tags r) ∈ vs ∧ (as_bytes "content", raw_content r) ∈ vs ∧
    (as_bytes "sig", raw_sig r) ∈ vs ∧
    let extras := List.filter (λ e, bool_decide (e.1 ∉ event_fields)) vs in
    (extras ≠ [] →
     Z.of_nat (length extras) ≤ RHI_TRADE_EVENT_EXTRA_FIELD_MAX_COUNT ∧
     sum (map (λ e, canonical_json_string_len e.1 + 1 + Z.of_nat (length e.2)) extras)
       ≤ RHI_TRADE_EVENT_EXTRA_JSON_MAX_BYTES).
Proof.
  unfold raw_event. intros Hr. bind Hr as s Hs. destruct (ending seq); [done|]. split; [done|].
  destruct (visit_map_Ok _ _ _ _ visited_initial Hs) as (vs & Hvs & [Hd Hsl He Hb Hc Ht]). simpl in *.
  assert (∀ k v, required (slot k s) = Ok v → (k, v) ∈ vs) as Hslot.
  { intros k v Hk. apply ok_or_Ok, slot_Some in Hk. rewrite Hsl in Hk.
    apply list_elem_of_In, filter_In in Hk as [Hk _]. by apply list_elem_of_In. }
  exists vs. inv_ok.
  repeat match goal with H : required _ = Ok _ |- _ => apply Hslot in H end.
  assert (List.filter (λ e : list Z * bytes, bool_decide (e.1 ∉ event_fields)) vs =
          List.filter extra vs) as Hext.
  { apply filter_ext. intros e. unfold extra, known. by repeat case_bool_decide. }
  split_and!; try done. rewrite Hext. intros Hne. rewrite He in Hc, Ht. rewrite Hb in Ht.
  rewrite length_map in Hc.
  assert (map fst (List.filter extra vs) ≠ []) as Hne' by (by intros ?%map_eq_nil).
  split; [by apply Hc|by apply Ht].
Qed.

(** The tag measurement is exact: it accepts precisely the tag arrays whose
    elements are all JSON strings and which are within the four limits (tags,
    elements over all tags, bytes of one element, bytes over all elements), and
    answers their number, elements and decoded bytes. *)
Theorem tag_measurement_is_exact raw limits m :
  limits_ok limits → 0 ≤ tag_count limits →
  measure_tags raw limits = Ok m ↔
  read_end raw = true ∧ ending (read_tags raw) = None ∧
  ∃ lss, Forall2 tag_lengths (items (read_tags raw)) lss ∧
    Z.of_nat (length lss) ≤ tag_count limits ∧
    Z.of_nat (length (concat lss)) ≤ tag_total_elements limits ∧
    Forall (Forall (λ n, n ≤ tag_element_bytes limits)) lss ∧
    sum (concat lss) ≤ tag_total_bytes limits ∧
    m = MkMeasurement (Z.of_nat (length lss)) (Z.of_nat (length (concat lss))) (sum (concat lss)).
Proof.
  intros Hl Hc. unfold measure_tags. rewrite and_then_Ok.
  setoid_rewrite map_err_Ok. setoid_rewrite visit_tags_Ok; [|done|simpl; unfold limits_ok in Hl; lia..].
  simpl. split.
  - intros (m' & (Hend & lss & H1 & H2 & H3 & H4 & H5 & ->) & Hr).
    apply and_then_Ok in Hr as (u & Hr%reject_if_Ok & [= <-]). apply negb_false_iff in Hr.
    split_and!; [done|done|]. by exists lss.
  - intros (Hr & Hend & lss & H1 & H2 & H3 & H4 & H5 & ->). eexists. split.
    + split; [done|]. exists lss. by split_and!.
    + by rewrite Hr.
Qed.

(** Admission is exact: an event is admitted precisely when its bytes are
    within the wire limit and valid UTF-8, the preflight and the parser accept
    them, its identifier and its signature verify, its authored time is
    representable and not later than the observation plus the tolerance, its kind
    is a trade kind and its content decodes to an identified mutation; and what is
    admitted is that event and mutation. *)
Theorem admission_is_exact limits original observed_at future a :
  0 ≤ observed_at → 0 ≤ future →
  admit_rhi_trade_mutation_event limits original observed_at future = Ok a ↔
  1 ≤ Z.of_nat (length original) ≤ wire_bytes limits ∧ is_Some (from_utf8 original) ∧
  preflight_wire original limits = Ok tt ∧
  ∃ event mutation id,
    parse_event original limits = Some event ∧ verify_id event = IdVerified ∧
    verify event = Verified ∧ is_trade_mutation_event_kind (env_kind event) = true ∧
    trade_mutation_from_event event = Ok mutation ∧ mut_mutation_id mutation = Some id ∧
    env_created_at event ≤ I64_MAX ∧ env_created_at event ≤ observed_at + future ∧
    a = Evidence.Admitted_event original observed_at id (mut_trade_id mutation)
          (mut_contract_id mutation) (mut_schema_version mutation) (env_id event) (env_sig event)
          (env_author event) (env_kind event) (env_created_at event) (env_content event)
          (env_wire event).
Proof.
  intros Hobs Hfut. unfold admit_rhi_trade_mutation_event, validate_authored_time_representation,
    enforce_authored_time_policy. split.
  - intros Ha. inv_ok. to_prop.
    repeat match goal with
    | H : context [match ?v with IdVerified => _ | _ => _ end] |- _ => destruct v eqn:?; try done
    end.
    match goal with H : (length original =? 0)%nat = false |- _ => apply Nat.eqb_neq in H end.
    destruct x2. split_and!; [lia|lia|by eexists|done|]. do 3 eexists. split_and!; try done; lia.
  - intros ([Hl1 Hl2] & [cs Hcs] & Hp & e & m & i & He & Hvi & Hv & Hk & Hm & Hi & Ht1 & Ht2 & ->).
    rewrite (proj2 (Nat.eqb_neq _ _)) by lia. rewrite (proj2 (Z.ltb_ge _ _)) by lia. simpl.
    rewrite Hcs; simpl. rewrite Hp; simpl. rewrite He; simpl. rewrite Hvi, Hv; simpl.
    rewrite (proj2 (Z.ltb_ge _ _)) by lia. simpl. rewrite Hk; simpl. rewrite Hm; simpl. rewrite Hi; simpl.
    rewrite (proj2 (Z.ltb_ge _ _)); [done|]. unfold I64_MAX, U64_MAX in *. lia.
Qed.

End ingest.
(** ** A concrete event *)

Definition demo_text (s : string) : bytes := [34] ++ as_bytes s ++ [34].

Definition demo_entries : list (list Z * result string bytes) :=
  map (λ e, (as_bytes e.1, Ok (demo_text e.2)))
    [("id", "a1"); ("relay", "r"); ("pubkey", "b2"); ("created_at", "3"); ("kind", "4"); ("tags", "5");
     ("content", "hello"); ("sig", "c3")].

Definition demo_reader : JsonReader := {|
  read_object := λ _, JsonSeq demo_entries None;
  read_tags := λ _, JsonSeq [TagArray (JsonSeq [demo_text "d"; demo_text "trade"] None)] None;
  read_end := λ _, true;
  scalar_u64 := λ _, true;
  scalar_u32 := λ _, true;
|}.

Definition demo_envelope : EventEnvelope :=
  MkEnvelope (repeat 1 32) (repeat 2 64) (repeat 3 32) 3470 100 (as_bytes "hello") (Some [123; 125]).

Definition demo_library : EventLibrary := {|
  DEFAULT_EXTRA_MAX_FIELDS := 4;
  DEFAULT_EXTRA_TOTAL_JSON_MAX_BYTES := 64;
  parse_event := λ _ _, Some demo_envelope;
  verify_id := λ _, IdVerified;
  verify := λ _, Verified;
  is_trade_mutation_event_kind := λ k, between 3470 3474 k;
  trade_mutation_from_event := λ _, Ok (MkMutation (Some (repeat 9 32)) (repeat 8 16) "contract" 1);
|}.

#[local] Existing Instance demo_reader.
#[local] Existing Instance demo_library.

Definition demo_limits : RhiTradeMutationAdmissionLimits := MkLimits 4096 1024 4 8 64 128.

Definition demo_raw : RawEvent :=
  MkRaw (demo_text "a1") (demo_text "b2") (demo_text "3") (demo_text "4") (demo_text "5")
    (demo_text "hello") (demo_text "c3").

Lemma event_fields_are_unique_witness :
  raw_event (read_object []) = Ok demo_raw ∧ ending (read_object []) = None.
Proof.
  assert (raw_event (read_object []) = Ok demo_raw) as Hr by (vm_compute; reflexivity).
  exact (conj Hr (proj1 (event_fields_are_unique _ _ Hr))).
Defined.

Lemma tag_measurement_is_exact_witness : measure_tags [] demo_limits = Ok (MkMeasurement 1 2 6).
Proof.
  apply tag_measurement_is_exact.
  - unfold limits_ok, U64_MAX; simpl; lia.
  - simpl; lia.
  - split; [reflexivity|]. split; [reflexivity|]. exists [[1; 5]]. simpl. split_and!; try lia.
    + constructor; [|constructor]. eexists. split; [reflexivity|]. split; [reflexivity|].
      constructor; [vm_compute; reflexivity|]. constructor; [vm_compute; reflexivity|constructor].
    + constructor; [|constructor]. constructor; [lia|]. constructor; [lia|constructor].
    + reflexivity.
Defined.

Lemma admission_is_exact_witness :
  ∃ a, admit_rhi_trade_mutation_event demo_limits (as_bytes "{}") 90 10 = Ok a ∧
       Evidence.adm_mutation_id a = repeat 9 32.
Proof.
  eexists. split; [apply (admission_is_exact demo_limits (as_bytes "{}") 90 10); [lia|lia|]|].
  - split; [simpl; lia|]. split; [vm_compute; by eexists|]. split; [vm_compute; reflexivity|].
    exists demo_envelope, (MkMutation (Some (repeat 9 32)) (repeat 8 16) "contract" 1), (repeat 9 32).
    split_and!; try reflexivity; vm_compute; discriminate.
  - reflexivity.
Defined.

End TradeIngest.
