(* ===== verification/SourceState.v ===== *)
(** * Checkpoints and dirty generations: [src/src/source_ingest.rs]

    The two tables that make ingestion resumable and invalidate derived state:
    [relay_checkpoints], the cursor each source scope was read up to, and
    [trade_dirty_generations], the generation a trade's evidence is in; with the
    reads and the compare-and-swap writes that source ingestion and the
    reconciliation commit share. *)

From Stdlib Require Import ZArith Lia.
From stdpp Require Import list strings.
From S2P Require Import Prelude.
From S2P Require Import Sql.
From S2P Require Import ReconciliationJob.
From S2P Require Import SourceIngest.
From S2P Require Import StateTrade.

Module SourceState.
Import Source.

(** ** Tables *)

Record checkpoint_row : Type := CheckpointRow {
  cr_source_id : string;
  cr_selector_id : string;
  cr_policy : bytes;
  cr_trade_id : bytes;
  cr_created_at : Z;
  cr_event_id : bytes;
  cr_revision : Z;
  cr_completed_at : Z;
}.

Definition same_scope (r o : checkpoint_row) : bool :=
  String.eqb (cr_source_id r) (cr_source_id o) && String.eqb (cr_selector_id r) (cr_selector_id o)
  && bytes_eqb (cr_policy r) (cr_policy o) && bytes_eqb (cr_trade_id r) (cr_trade_id o).

Definition checkpoint_check (r : checkpoint_row) : bool :=
  Evidence.source_id_ok (cr_source_id r)
  && String.eqb (cr_selector_id r) Evidence.SOURCE_SELECTOR
  && (length (cr_policy r) =? 32)%nat && (length (cr_trade_id r) =? 16)%nat
  && between 0 I64_MAX (cr_created_at r) && (length (cr_event_id r) =? 32)%nat
  && between 1 I64_MAX (cr_revision r) && between 1 I64_MAX (cr_completed_at r).

Definition row_cursor (r : checkpoint_row) : RhiTradeSourceCursor :=
  MkCursor (cr_created_at r) (cr_event_id r).

(** [relay_checkpoints_guard_update]: the cursor must grow *)
Definition checkpoint_guard (old new : checkpoint_row) : bool :=
  same_scope new old && (cr_revision new =? cr_revision old + 1)
  && (cr_completed_at old <=? cr_completed_at new) && (cr_created_at old <=? cr_created_at new)
  && negb ((cr_created_at new =? cr_created_at old)
           && is_le (bytes_cmp (cr_event_id new) (cr_event_id old))).

#[export] Instance checkpoint_table : Table checkpoint_row := {|
  row_check := checkpoint_check; row_guard := checkpoint_guard; row_conflict := same_scope |}.

(** [trade_dirty_generations_guard_update] *)
#[export] Instance dirty_table : Table Job.dirty_row := {|
  row_check := Job.dirty_ok;
  row_guard := λ old new,
    bytes_eqb (Job.dirty_trade_id new) (Job.dirty_trade_id old)
    && (Job.dirty_generation new =? Job.dirty_generation old + 1)
    && (Job.dirty_updated_at_unix_s old <=? Job.dirty_updated_at_unix_s new);
  row_conflict := λ r o, bytes_eqb (Job.dirty_trade_id r) (Job.dirty_trade_id o);
|}.

(** ** Operations *)

Inductive SourceOperationError : Type :=
| OpGenerationConflict
| OpPersistence (e : Evidence.PersistenceOperationError)
| OpSourceStorage.

Record Checkpoint : Type := MkCheckpoint {
  cursor : RhiTradeSourceCursor;
  checkpoint_revision : Z;
  completed_at_unix_s : Z;
}.

Record DirtyState : Type := MkDirty {
  generation : Z;
  dirty_policy : bytes;
  updated_at_unix_s : Z;
}.

#[export] Instance checkpoint_eq_dec : EqDecision Checkpoint.
Proof. solve_decision. Defined.
#[export] Instance dirty_eq_dec : EqDecision DirtyState.
Proof. solve_decision. Defined.

(** [substr(column, 1, 33)] beside the length: a column of another length is refused. *)
Definition exact_digest (column : bytes) : result SourceOperationError bytes :=
  ok_or (filter_opt (λ b, (length b =? 32)%nat) (Some column)) OpSourceStorage.
Definition positive_i64_u64 (column : Z) : result SourceOperationError Z :=
  ok_or (filter_opt (λ v, 0 <? v) (Some column)) OpSourceStorage.
Definition nonnegative_i64_u64 (column : Z) : result SourceOperationError Z :=
  ok_or (filter_opt (λ v, 0 <=? v) (Some column)) OpSourceStorage.

Definition i64_try_from (value : Z) : result SourceOperationError Z :=
  ok_or (try_from I64_MAX value) OpSourceStorage.

Definition exec {row} (r : result sql_error (list row * Z)) : result SourceOperationError (list row) :=
  let? (rows, affected) := map_err (λ _, OpSourceStorage) r in
  reject_if (negb (affected =? 1)) OpGenerationConflict ;?
  Ok rows.

Definition in_scope (source_id : string) (policy trade_id : bytes) (r : checkpoint_row) : bool :=
  String.eqb (cr_source_id r) source_id && String.eqb (cr_selector_id r) Evidence.SOURCE_SELECTOR
  && bytes_eqb (cr_policy r) policy && bytes_eqb (cr_trade_id r) trade_id.

(** [LIMIT 1] on the primary key *)
Definition READ_CHECKPOINT_SQL (source_id : string) (policy trade_id : bytes)
    (rows : list checkpoint_row) : option checkpoint_row :=
  List.find (in_scope source_id policy trade_id) rows.

Definition read_checkpoint (source_id : string) (policy trade_id : bytes)
    (rows : list checkpoint_row) : result SourceOperationError (option Checkpoint) :=
  match READ_CHECKPOINT_SQL source_id policy trade_id rows with
  | None => Ok None
  | Some r =>
      let? created_at := nonnegative_i64_u64 (cr_created_at r) in
      let? event_id := exact_digest (cr_event_id r) in
      let? revision := positive_i64_u64 (cr_revision r) in
      let? completed_at := positive_i64_u64 (cr_completed_at r) in
      Ok (Some (MkCheckpoint (MkCursor created_at event_id) revision completed_at))
  end.

Definition INSERT_CHECKPOINT_SQL (source_id : string) (policy trade_id : bytes) (created_at : Z)
    (event_id : bytes) (completed_at : Z) (rows : list checkpoint_row) :
    result sql_error (list checkpoint_row * Z) :=
  let? rows := insert_row (λ _, true)
    (CheckpointRow source_id Evidence.SOURCE_SELECTOR policy trade_id created_at event_id 1
       completed_at) rows in
  Ok (rows, 1).

Definition UPDATE_CHECKPOINT_SQL (created_at : Z) (event_id : bytes) (completed_at : Z)
    (source_id : string) (policy trade_id : bytes) (rev : Z) (rows : list checkpoint_row) :
    result sql_error (list checkpoint_row * Z) :=
  update_rows (λ r, in_scope source_id policy trade_id r && (cr_revision r =? rev))
    (λ r, CheckpointRow (cr_source_id r) (cr_selector_id r) (cr_policy r) (cr_trade_id r) created_at
            event_id (cr_revision r + 1) completed_at) rows.

Definition write_checkpoint (source_id : string) (policy trade_id : bytes)
    (current : option Checkpoint) (next : RhiTradeSourceCursor) (completed_at_unix_s : Z)
    (rows : list checkpoint_row) : result SourceOperationError (list checkpoint_row) :=
  let? created_at := i64_try_from (created_at_unix_seconds next) in
  let? completed_at := i64_try_from completed_at_unix_s in
  match current with
  | None =>
      exec (INSERT_CHECKPOINT_SQL source_id policy trade_id created_at (cursor_event_id next)
              completed_at rows)
  | Some current =>
      let? rev := i64_try_from (checkpoint_revision current) in
      exec (UPDATE_CHECKPOINT_SQL created_at (cursor_event_id next) completed_at source_id policy
              trade_id rev rows)
  end.

Definition READ_DIRTY_SQL (trade_id : bytes) (rows : list Job.dirty_row) : option Job.dirty_row :=
  List.find (λ r, bytes_eqb (Job.dirty_trade_id r) trade_id) rows.

Definition read_dirty (trade_id : bytes) (rows : list Job.dirty_row) :
    result SourceOperationError (option DirtyState) :=
  match READ_DIRTY_SQL trade_id rows with
  | None => Ok None
  | Some r =>
      let? generation := positive_i64_u64 (Job.dirty_generation r) in
      let? policy := exact_digest (Job.dirty_policy_sha256 r) in
      let? updated_at := nonnegative_i64_u64 (Job.dirty_updated_at_unix_s r) in
      Ok (Some (MkDirty generation policy updated_at))
  end.

Definition INSERT_DIRTY_SQL (trade_id policy : bytes) (updated_at : Z) (rows : list Job.dirty_row) :
    result sql_error (list Job.dirty_row * Z) :=
  let? rows := insert_row (λ _, true) (Job.DirtyRow trade_id 1 policy updated_at) rows in
  Ok (rows, 1).

Definition UPDATE_DIRTY_SQL (policy : bytes) (updated_at : Z) (trade_id : bytes) (gen : Z)
    (rows : list Job.dirty_row) : result sql_error (list Job.dirty_row * Z) :=
  update_rows
    (λ r, bytes_eqb (Job.dirty_trade_id r) trade_id && (Job.dirty_generation r =? gen))
    (λ r, Job.DirtyRow (Job.dirty_trade_id r) (Job.dirty_generation r + 1) policy updated_at) rows.

Definition advance_dirty_generation (trade_id policy : bytes) (updated_at_s : Z)
    (expected : option DirtyState) (rows : list Job.dirty_row) :
    result SourceOperationError (Z * list Job.dirty_row) :=
  let? updated_at := i64_try_from updated_at_s in
  match expected with
  | None =>
      let? rows := exec (INSERT_DIRTY_SQL trade_id policy updated_at rows) in
      Ok (1, rows)
  | Some current =>
      if bytes_eqb (dirty_policy current) policy && (updated_at_unix_s current <=? updated_at_s) then
        let? next :=
          ok_or (filter_opt (λ v, v <=? I64_MAX) (u64_checked_add (generation current) 1))
            OpSourceStorage in
        let? gen := i64_try_from (generation current) in
        let? rows := exec (UPDATE_DIRTY_SQL policy updated_at trade_id gen rows) in
        Ok (next, rows)
      else Err OpGenerationConflict
  end.

(** ** What the reads see and the writes leave *)

Lemma checkpoint_conflict_sym (r o : checkpoint_row) : row_conflict r o = row_conflict o r.
Proof.
  simpl. unfold same_scope. by rewrite (String.eqb_sym (cr_source_id o)), (String.eqb_sym (cr_selector_id o)),
    (bytes_eqb_sym (cr_policy o)), (bytes_eqb_sym (cr_trade_id o)).
Qed.

Lemma dirty_conflict_sym (r o : Job.dirty_row) : row_conflict r o = row_conflict o r.
Proof. apply bytes_eqb_sym. Qed.

Lemma in_scope_true source policy trade r :
  in_scope source policy trade r = true ↔
  cr_source_id r = source ∧ cr_selector_id r = Evidence.SOURCE_SELECTOR ∧ cr_policy r = policy ∧
  cr_trade_id r = trade.
Proof.
  unfold in_scope. rewrite !andb_true_iff, !String.eqb_eq, !bytes_eqb_true. naive_solver.
Qed.

Lemma in_scope_conflict source policy trade r o :
  in_scope source policy trade r = true → in_scope source policy trade o = true →
  row_conflict r o = true.
Proof.
  rewrite !in_scope_true. intros (Hs & Hr & Hp & Ht) (Hs' & Ho & Hp' & Ht'). simpl. unfold same_scope.
  by rewrite Hr, Ho, Hs, Hs', Hp, Hp', Ht, Ht', !String.eqb_refl, !bytes_eqb_refl.
Qed.

Lemma other_scope source policy trade source' policy' trade' r :
  (source', policy', trade') ≠ (source, policy, trade) →
  in_scope source policy trade r = true → in_scope source' policy' trade' r = false.
Proof.
  intros Hne Hr. destruct (in_scope source' policy' trade' r) eqn:E; [|done].
  apply in_scope_true in Hr as (? & _ & ? & ?), E as (? & _ & ? & ?). subst. done.
Qed.

Definition view_checkpoint (r : checkpoint_row) : Checkpoint :=
  MkCheckpoint (row_cursor r) (cr_revision r) (cr_completed_at r).

Definition view_dirty (r : Job.dirty_row) : DirtyState :=
  MkDirty (Job.dirty_generation r) (Job.dirty_policy_sha256 r) (Job.dirty_updated_at_unix_s r).

Lemma filter_opt_true {A} (p : A → bool) x : p x = true → filter_opt p (Some x) = Some x.
Proof. simpl. by intros ->. Qed.

Lemma read_checkpoint_rows source policy trade rows :
  rows_ok rows = true →
  read_checkpoint source policy trade rows =
  Ok (view_checkpoint <$> READ_CHECKPOINT_SQL source policy trade rows).
Proof.
  intros Hok. unfold read_checkpoint. destruct (READ_CHECKPOINT_SQL source policy trade rows) as [r|] eqn:Hr;
    simpl; [|done].
  apply find_some in Hr as [Hr _]. apply list_elem_of_In in Hr. pose proof (rows_ok_check _ _ Hok Hr) as Hc.
  simpl in Hc. unfold checkpoint_check in Hc. to_prop. rewrite ?between_true in *.
  unfold nonnegative_i64_u64, exact_digest, positive_i64_u64.
  rewrite !filter_opt_true by (try apply Z.leb_le; try apply Z.ltb_lt; done || lia). done.
Qed.

Lemma read_dirty_rows trade rows :
  rows_ok rows = true → read_dirty trade rows = Ok (view_dirty <$> READ_DIRTY_SQL trade rows).
Proof.
  intros Hok. unfold read_dirty. destruct (READ_DIRTY_SQL trade rows) as [r|] eqn:Hr; simpl; [|done].
  apply find_some in Hr as [Hr _]. apply list_elem_of_In in Hr. pose proof (rows_ok_check _ _ Hok Hr) as Hc.
  simpl in Hc. unfold Job.dirty_ok in Hc. to_prop. rewrite ?between_true in *.
  unfold nonnegative_i64_u64, exact_digest, positive_i64_u64.
  rewrite !filter_opt_true by (try apply Z.leb_le; try apply Z.ltb_lt; done || lia). done.
Qed.

Lemma exec_one {row} (r : result sql_error (list row * Z)) rows :
  exec r = Ok rows ↔ r = Ok (rows, 1).
Proof.
  unfold exec. destruct r as [[rows0 n]|e]; simpl; [|split; done].
  destruct (Z.eqb_spec n 1) as [->|]; simpl; split; naive_solver.
Qed.

Lemma i64_try_from_Ok v w : i64_try_from v = Ok w ↔ w = v ∧ 0 ≤ v ≤ I64_MAX.
Proof. unfold i64_try_from. by rewrite ok_or_Ok, try_from_Some. Qed.

Lemma guard_cursor old new :
  checkpoint_guard old new = true →
  is_lt (compare_cursor (row_cursor old) (row_cursor new)) = true ∧ cr_completed_at old ≤ cr_completed_at new.
Proof.
  unfold checkpoint_guard, compare_cursor, cmp_then, cmp_on. intros Hg. to_prop. simpl. split; [|done].
  destruct (Z.compare_spec (cr_created_at old) (cr_created_at new)) as [He|Hlt|Hgt]; simpl; [|done|lia].
  rewrite He, Z.eqb_refl in *. simpl in *.
  rewrite (cmp_swap (cr_event_id new) (cr_event_id old)).
  destruct (bytes_cmp (cr_event_id new) (cr_event_id old)); done.
Qed.

(** Writing the checkpoint of a scope whose current state was read. *)
Lemma write_checkpoint_Ok source policy trade current next completed rows rows' :
  rows_ok rows = true → read_checkpoint source policy trade rows = Ok current →
  write_checkpoint source policy trade current next completed rows = Ok rows' →
  rows_ok rows' = true ∧
  read_checkpoint source policy trade rows' =
    Ok (Some (MkCheckpoint next (match current with None => 1 | Some c => checkpoint_revision c + 1 end)
                completed)) ∧
  (∀ c, current = Some c → is_lt (compare_cursor (cursor c) next) = true ∧
                           completed_at_unix_s c ≤ completed) ∧
  (∀ source' policy' trade', (source', policy', trade') ≠ (source, policy, trade) →
     read_checkpoint source' policy' trade' rows' = read_checkpoint source' policy' trade' rows).
Proof.
  intros Hok Hread Hw. rewrite read_checkpoint_rows in Hread by done. injection Hread as Hcur.
  unfold write_checkpoint in Hw. bind Hw as created Hc. apply i64_try_from_Ok in Hc as [-> _].
  bind Hw as done_at Hd. apply i64_try_from_Ok in Hd as [-> _]. destruct next as [created event].
  assert (∀ rows1, rows_ok rows1 = true →
    READ_CHECKPOINT_SQL source policy trade rows1 =
      Some (CheckpointRow source Evidence.SOURCE_SELECTOR policy trade created event
              (match current with None => 1 | Some c => checkpoint_revision c + 1 end) completed) →
    read_checkpoint source policy trade rows1 = Ok (Some (MkCheckpoint (MkCursor created event)
      (match current with None => 1 | Some c => checkpoint_revision c + 1 end) completed))) as Hview.
  { intros rows1 Hok1 H1. rewrite read_checkpoint_rows, H1 by done. done. }
  destruct current as [c|]; simpl in *.
  - destruct (READ_CHECKPOINT_SQL source policy trade rows) as [r0|] eqn:Hr0; [|done]. injection Hcur as Hcur.
    bind Hw as rev Hrev. apply i64_try_from_Ok in Hrev as [-> _]. apply exec_one in Hw.
    destruct (swap_row_Ok checkpoint_conflict_sym (in_scope source policy trade) _ _ _ _ Hok Hw)
      as (r & Hr & _ & Hp & Hg & _ & Hok' & Hr' & Hoth).
    { intros r o. apply in_scope_conflict. }
    { intros r Hr. apply andb_true_iff in Hr as [Hr _]. done. }
    unfold READ_CHECKPOINT_SQL in Hr0. rewrite Hr in Hr0. injection Hr0 as <-.
    pose proof (find_some _ _ Hr) as [_ (Hs & Hsel & Hpol & Htr)%in_scope_true].
    apply andb_true_iff in Hp as [_ Hp]. to_prop. simpl in Hg. apply guard_cursor in Hg as [Hlt Hle].
    split_and!; [done|apply Hview; [done|]| |].
    + unfold READ_CHECKPOINT_SQL. rewrite Hr', Hs, Hsel, Hpol, Htr, Hp. done.
    + intros c' [= <-]. subst c. simpl in *. done.
    + intros source' policy' trade' Hne. rewrite !read_checkpoint_rows by done. do 2 f_equal.
      apply Hoth. intros x. by apply other_scope.
  - apply exec_one in Hw. unfold INSERT_CHECKPOINT_SQL in Hw. bind Hw as rows1 Hi. injection Hw as <-.
    destruct (insert_row_find checkpoint_conflict_sym _ _ _ _ Hok Hi) as (_ & Hok' & Hin & Hoth).
    assert (in_scope source policy trade (CheckpointRow source Evidence.SOURCE_SELECTOR policy trade
      created event 1 completed) = true) as Hscope by (by apply in_scope_true).
    destruct (READ_CHECKPOINT_SQL source policy trade rows) as [r0|] eqn:Hr0; [done|].
    split_and!; [done|apply Hview; [done|]|done|].
    + by apply Hin.
    + intros source' policy' trade' Hne. rewrite !read_checkpoint_rows by done. do 2 f_equal.
      apply Hoth. by eapply other_scope.
Qed.

(** Advancing the generation of a trade whose current state was read. *)
Lemma advance_dirty_Ok trade policy updated expected rows g rows' :
  rows_ok rows = true → read_dirty trade rows = Ok expected →
  advance_dirty_generation trade policy updated expected rows = Ok (g, rows') →
  rows_ok rows' = true ∧ read_dirty trade rows' = Ok (Some (MkDirty g policy updated)) ∧
  g = match expected with None => 1 | Some d => generation d + 1 end ∧
  (∀ d, expected = Some d → dirty_policy d = policy ∧ updated_at_unix_s d ≤ updated) ∧
  (∀ trade', trade' ≠ trade → read_dirty trade' rows' = read_dirty trade' rows).
Proof.
  intros Hok Hread Ha. rewrite read_dirty_rows in Hread by done. injection Hread as Hcur.
  unfold advance_dirty_generation in Ha. bind Ha as at_s Hat. apply i64_try_from_Ok in Hat as [-> _].
  assert (∀ trade' r, trade' ≠ trade → bytes_eqb (Job.dirty_trade_id r) trade = true →
    bytes_eqb (Job.dirty_trade_id r) trade' = false) as Hother.
  { intros trade' r Hne Hr. destruct (bytes_eqb _ trade') eqn:E; [|done].
    apply bytes_eqb_true in Hr, E. congruence. }
  destruct expected as [d|]; simpl in *.
  - destruct (READ_DIRTY_SQL trade rows) as [r0|] eqn:Hr0; [|done]. injection Hcur as Hcur.
    destruct (_ && _) eqn:Hpol; [|done]. apply andb_true_iff in Hpol as [Hpol%bytes_eqb_true Hle%Z.leb_le].
    bind Ha as nx Hnx. apply ok_or_Ok, filter_opt_Some in Hnx as [[-> _]%u64_checked_add_Some _].
    bind Ha as gen Hgen. apply i64_try_from_Ok in Hgen as [-> _]. bind Ha as rows1 Hex. injection Ha as <- <-.
    apply exec_one in Hex.
    destruct (swap_row_Ok dirty_conflict_sym (λ r, bytes_eqb (Job.dirty_trade_id r) trade) _ _ _ _ Hok Hex)
      as (r & Hr & _ & Hp & _ & _ & Hok' & Hr' & Hoth).
    { intros r o Hr Ho. apply bytes_eqb_true in Hr, Ho. simpl. rewrite Hr, Ho. apply bytes_eqb_refl. }
    { intros r Hr. apply andb_true_iff in Hr as [Hr _]. done. }
    unfold READ_DIRTY_SQL in Hr0. rewrite Hr in Hr0. injection Hr0 as <-.
    apply andb_true_iff in Hp as [_ Hp]. to_prop.
    split_and!; [done| |done| |].
    + rewrite read_dirty_rows by done. unfold READ_DIRTY_SQL. rewrite Hr'. simpl. unfold view_dirty. simpl.
      by rewrite Hp.
    + intros d' [= <-]. done.
    + intros trade' Hne. rewrite !read_dirty_rows by done. do 2 f_equal. apply Hoth. intros x. by apply Hother.
  - bind Ha as rows1 Hex. injection Ha as <- <-. apply exec_one in Hex. unfold INSERT_DIRTY_SQL in Hex.
    bind Hex as rows2 Hi. injection Hex as <-.
    destruct (insert_row_find dirty_conflict_sym _ _ _ _ Hok Hi) as (_ & Hok' & Hin & Hoth).
    destruct (READ_DIRTY_SQL trade rows) as [r0|] eqn:Hr0; [done|].
    split_and!; [done| |done|done|].
    + rewrite read_dirty_rows by done. unfold READ_DIRTY_SQL. rewrite Hin; [done|done|apply bytes_eqb_refl].
    + intros trade' Hne. rewrite !read_dirty_rows by done. do 2 f_equal. apply Hoth. simpl.
      apply (Hother trade' (Job.DirtyRow trade 1 policy updated)); [done|apply bytes_eqb_refl].
Qed.

End SourceState.
