(* ===== verification/SourceFetch.v ===== *)
(** * Paged source fetches: [src/src/source_ingest.rs]

    One bounded attempt to read the trade mutations of a configured relay source:
    the validated attempt and source, the page loop with its event and byte
    budgets, and the classification of what was received into admitted,
    duplicate and rejected events.  The transport ([radroots_transport]) is an
    interface; the admission of one event is [TradeIngest]. *)

From Stdlib Require Import ZArith Lia.
From stdpp Require Import sets list strings.
From S2P Require Import Prelude.
From S2P Require Import Interfaces.
From S2P Require Import StateMetadata.
From S2P Require Import SourceIngest.
From S2P Require Import StateTrade.
From S2P Require Import JsonText.
From S2P Require Import TradeIngest.
From S2P Require Import SourceState.

Module SourceFetch.
Import Source.

Definition FETCH_REQUEST_ID_MAX_BYTES : Z := 256.
Definition FETCH_PAGE_MAX_EVENTS : Z := 1000.
Definition EVENT_KINDS : list Z := [3470; 3471; 3472; 3473; 3474].

Inductive RhiTradeSourceIngestErrorKind : Type :=
| InvalidMode | InvalidInput | InvalidConfiguration | GenerationConflict | Storage
| CommitOutcomeUnknown.

#[export] Instance ingest_kind_eq_dec : EqDecision RhiTradeSourceIngestErrorKind.
Proof. solve_decision. Defined.

(** ** The attempt *)

Record RhiTradeSourceAttempt : Type := MkAttempt {
  request_id : list Z;
  attempt_started_at : Z;
  attempt_observed_at : Z;
  authored_time_policy : Z;
}.

(** [char::is_control] and [char::is_whitespace] on scalar values *)
Definition is_control (c : Z) : bool := between 0 31 c || between 127 159 c.
Definition is_whitespace (c : Z) : bool :=
  between 9 13 c || (c =? 32) || (c =? 133) || (c =? 160) || (c =? 5760) || between 8192 8202 c
  || (c =? 8232) || (c =? 8233) || (c =? 8239) || (c =? 8287) || (c =? 12288).

Fixpoint trim_start (s : list Z) : list Z :=
  match s with
  | [] => []
  | c :: rest => if is_whitespace c then trim_start rest else s
  end.
Definition trim (s : list Z) : list Z := rev (trim_start (rev (trim_start s))).

(** [str::len] of a text of scalar values *)
Definition utf8_len (s : list Z) : Z := fold_right Z.add 0 (map JsonText.len_utf8 s).

(** [RhiTradeSourceAttempt::new]; the observation time is a validated one. *)
Definition attempt_new (request_id : list Z) (started_at observed_at future : Z) :
    result RhiTradeSourceIngestErrorKind RhiTradeSourceAttempt :=
  if (length request_id =? 0)%nat || (FETCH_REQUEST_ID_MAX_BYTES <? utf8_len request_id)
     || negb (bool_decide (request_id = trim request_id)) || existsb is_control request_id
     || (started_at =? 0) || negb (bool_decide (is_Some (try_from I64_MAX started_at)))
     || (observed_at <? started_at)
  then Err InvalidInput
  else Ok (MkAttempt request_id started_at observed_at future).

(** ** The transport *)

(** What the source reads of a [SignedEvent]. *)
Record SignedEvent : Type := MkSigned {
  raw_json : bytes;
  created_at : Z;
  event_id : bytes;
  sig : bytes;
}.

Inductive FetchTargetState : Type :=
| TargetComplete | TargetPartial | TargetUnavailable | TargetFailedRetryable
| TargetFailedTerminal | TargetCancelled.

Inductive NextPage : Type := NextComplete | NextCancelled | NextCursor (cursor : string).

Record FetchPage : Type := MkPage {
  events : list SignedEvent;
  (** the target's fingerprint and its state *)
  target_outcomes : list (string * FetchTargetState);
  next_page : NextPage;
}.

(** A request for the events of [EVENT_KINDS] whose [d] tag is the trade. *)
Record FetchRequest : Type := MkRequest {
  req_id : list Z;
  req_relay_url : string;
  req_limit : Z;
  req_deadline_unix_ms : Z;
  req_kinds : list Z;
  req_trade_id : bytes;
  req_since : Z;
  req_cursor : option string;
}.

Inductive transport_error : Type := UnsupportedOperation | OtherTransportError.

(** The constructors of the crate validate their arguments; [fetch] is one call
    of the adapter. *)
Class SourceTransport (W : Type) : Type := {
  nostr_relay : string → bool;
  fingerprint : string → string;
  target_set_ok : string → bool;
  selector_ok : list Z → bytes → Z → bool;
  fetch_bounds_ok : Z → Z → bool;
  fetch_request_ok : list Z → bool;
  validate_for_request : FetchPage → FetchRequest → bool;
  fetch : FetchRequest → W → result transport_error FetchPage * W;
}.

(** ** The configured source *)

Record ConfiguredSource : Type := MkSource {
  source_id : string;
  relay_url : string;
  policy : bytes;
  deadline_ms : Z;
  lookback_seconds : Z;
  overlap_seconds : Z;
  maximum_events : Z;
  maximum_bytes : Z;
  admission_limits : TradeIngest.RhiTradeMutationAdmissionLimits;
}.

Section configuration.
Context `{Sha256, JsonValue V, !JsonWriter V, SourceTransport W}.

Definition text (value : V) (p : string) : option string := v ← pointer value p; as_str v.

Definition source_id_wellformed (source_id : string) : bool :=
  match as_bytes source_id with
  | [] => false
  | first :: rest =>
      negb (64 <? Z.of_nat (String.length source_id)) && between 97 122 first
      && forallb (λ b, between 97 122 b || between 48 57 b || (b =? 95) || (b =? 45)) rest
  end.

Definition configured_source (configuration : V) (source_id : string) : option V :=
  if negb (source_id_wellformed source_id) then None
  else
    sources ← pointer configuration "/evidence/sources";
    sources ← as_array sources;
    List.find (λ s, bool_decide (text s "/source_id" = Some source_id)) sources.

Definition exact_u64 (value : V) (p : string) (minimum maximum : Z) :
    result RhiTradeSourceIngestErrorKind Z :=
  ok_or (filter_opt (between minimum maximum) (v ← pointer value p; as_u64 v)) InvalidConfiguration.

Definition exact_usize (value : V) (p : string) (minimum maximum : Z) :
    result RhiTradeSourceIngestErrorKind Z :=
  let? v := exact_u64 value p minimum maximum in
  ok_or (try_from U64_MAX v) InvalidConfiguration.

(** [ConfiguredSource::new] against a host whose metadata holds [host_policy]. *)
Definition configured_source_new (host_policy : bytes) (normalized : V) (id : string) :
    result RhiTradeSourceIngestErrorKind ConfiguredSource :=
  let? source := ok_or (configured_source normalized id) InvalidConfiguration in
  reject_if
    (negb (bool_decide (text source "/kind" = Some "nostr_relay"))
     || negb (bool_decide (text source "/selector" = Some Evidence.SOURCE_SELECTOR)))
    InvalidConfiguration ;?
  let? relay_id := ok_or (text source "/relay_id") InvalidConfiguration in
  let? relay :=
    ok_or
      (filter_opt (λ relay, bool_decide ((v ← pointer relay "/read"; as_bool v) = Some true))
         (relays ← pointer normalized "/relays";
          relays ← as_array relays;
          List.find (λ relay, bool_decide (text relay "/id" = Some relay_id)) relays))
      InvalidConfiguration in
  let? relay_url := ok_or (text relay "/url") InvalidConfiguration in
  let? policy := map_err (λ _, InvalidConfiguration) (Metadata.evidence_policy_digest normalized) in
  reject_if (negb (bool_decide (policy = host_policy))) InvalidConfiguration ;?
  let? deadline_ms := exact_u64 source "/deadline_ms" 100 30000 in
  let? lookback_seconds := exact_u64 source "/lookback_seconds" 60 2678400 in
  let? overlap_seconds := exact_u64 source "/overlap_seconds" 1 86400 in
  reject_if (lookback_seconds <? overlap_seconds) InvalidConfiguration ;?
  let? maximum_events :=
    exact_usize normalized "/resource_limits/source_results/events" 1
      RHI_TRADE_SOURCE_RESULT_MAX_EVENTS in
  let? maximum_bytes :=
    exact_usize normalized "/resource_limits/source_results/bytes" 1
      RHI_TRADE_SOURCE_RESULT_MAX_BYTES in
  reject_if (negb (nostr_relay relay_url)) InvalidConfiguration ;?
  let? limits := map_err (λ _, InvalidConfiguration) (TradeIngest.limits_from_config normalized) in
  Ok (MkSource id relay_url policy deadline_ms lookback_seconds overlap_seconds maximum_events
        maximum_bytes limits).
End configuration.

(** ** The page loop *)

Record LoopState : Type := MkLoop {
  adapter_cursor : option string;
  seen_adapter_cursors : list string;
  candidates : list SignedEvent;
  received_events : Z;
  received_bytes : Z;
}.

Inductive page_step : Type :=
| Break (completion : RhiTradeSourceCompletion) (s : LoopState)
| Continue (s : LoopState).

(** [usize] is 64 bits wide *)
Definition usize_saturating_add (x y : Z) : Z := Z.min U64_MAX (x + y).

(** [for observed in page.events()] *)
Fixpoint take_events (source : ConfiguredSource) (l : list SignedEvent) (received size : Z)
    (taken : list SignedEvent) : Z * Z * list SignedEvent :=
  match l with
  | [] => (received, size, taken)
  | e :: l =>
      let received := usize_saturating_add received 1 in
      if maximum_events source <? received then (received, size, taken)
      else
        match u64_checked_add size (Z.of_nat (length (raw_json e))) with
        | Some value =>
            if value <=? maximum_bytes source then take_events source l received value (taken ++ [e])
            else (usize_saturating_add (maximum_events source) 1, size, taken)
        | None => (usize_saturating_add (maximum_events source) 1, size, taken)
        end
  end.

(** The body of the loop after a page arrived. *)
Definition take_page (source : ConfiguredSource) (fp : string) (page : FetchPage) (s : LoopState) :
    page_step :=
  match List.find (λ o, String.eqb o.1 fp) (target_outcomes page), target_outcomes page with
  | Some (_, state), [_] =>
      match state with
      | TargetComplete | TargetPartial =>
          let '(received, size, taken) :=
            take_events source (events page) (received_events s) (received_bytes s) (candidates s) in
          let s := MkLoop None (seen_adapter_cursors s) taken received size in
          if maximum_events source <? received then Break IncompleteResourceLimit s
          else
            match state with
            | TargetPartial => Break IncompleteUnknown s
            | _ =>
                match next_page page with
                | NextComplete => Break Complete s
                | NextCancelled => Break IncompleteTimeout s
                | NextCursor cursor =>
                    if (length (events page) =? 0)%nat
                       || existsb (String.eqb cursor) (seen_adapter_cursors s)
                    then Break IncompleteUnknown s
                    else Continue (MkLoop (Some cursor) (cursor :: seen_adapter_cursors s) taken
                                     received size)
                end
            end
      | TargetUnavailable | TargetFailedRetryable => Break IncompleteUnavailable s
      | TargetFailedTerminal => Break IncompleteUnknown s
      | TargetCancelled => Break IncompleteTimeout s
      end
  | _, _ => Break IncompleteUnknown s
  end.

Section fetching.
Context `{SourceTransport W, TradeIngest.EventLibrary, TradeIngest.JsonReader}.

(** The request of the next page. *)
Definition page_request (source : ConfiguredSource) (trade_id : bytes)
    (attempt : RhiTradeSourceAttempt) (deadline since : Z) (s : LoopState) :
    result RhiTradeSourceIngestErrorKind FetchRequest :=
  let remaining := u64_saturating_sub (maximum_events source) (received_events s) in
  let request_limit := Z.min FETCH_PAGE_MAX_EVENTS (remaining + 1) in
  let? limit := ok_or (try_from U16_MAX request_limit) InvalidConfiguration in
  reject_if (negb (fetch_bounds_ok limit deadline)) InvalidInput ;?
  reject_if (negb (fetch_request_ok (request_id attempt))) InvalidInput ;?
  Ok (MkRequest (request_id attempt) (relay_url source) limit deadline EVENT_KINDS trade_id since
        (adapter_cursor s)).

(** One iteration: a request, the call and its page. *)
Definition fetch_page (source : ConfiguredSource) (trade_id : bytes)
    (attempt : RhiTradeSourceAttempt) (deadline since : Z) (s : LoopState) (w : W) :
    result RhiTradeSourceIngestErrorKind page_step * W :=
  match page_request source trade_id attempt deadline since s with
  | Err e => (Err e, w)
  | Ok request =>
      let s := MkLoop None (seen_adapter_cursors s) (candidates s) (received_events s)
                 (received_bytes s) in
      let '(page, w) := fetch request w in
      (Ok match page with
          | Err UnsupportedOperation => Break Unsupported s
          | Err OtherTransportError => Break IncompleteUnknown s
          | Ok page =>
              if negb (validate_for_request page request) then Break IncompleteUnknown s
              else take_page source (fingerprint (relay_url source)) page s
          end, w)
  end.

(** The loop; [None] when the fuel runs out. *)
Fixpoint fetch_loop (fuel : nat) (source : ConfiguredSource) (trade_id : bytes)
    (attempt : RhiTradeSourceAttempt) (deadline since : Z) (s : LoopState) (w : W) :
    option (result RhiTradeSourceIngestErrorKind (RhiTradeSourceCompletion * LoopState) * W) :=
  match fuel with
  | O => None
  | S fuel =>
      match fetch_page source trade_id attempt deadline since s w with
      | (Err e, w) => Some (Err e, w)
      | (Ok (Break completion s), w) => Some (Ok (completion, s), w)
      | (Ok (Continue s), w) => fetch_loop fuel source trade_id attempt deadline since s w
      end
  end.

(** ** Classification of the candidates *)

Definition compare_candidate : SignedEvent → SignedEvent → comparison :=
  cmp_then (cmp_on created_at Z.compare)
    (cmp_then (cmp_on event_id bytes_cmp) (cmp_on sig bytes_cmp)).

Record Classified : Type := MkClassified {
  cl_duplicates : Z;
  cl_seen : list (bytes * bytes);
  cl_admitted : list Evidence.RhiAdmittedTradeMutationEvent;
  cl_rejected : Z;
  cl_cursor : option RhiTradeSourceCursor;
}.

Definition admitted_key (a : Evidence.RhiAdmittedTradeMutationEvent) : bytes * bytes :=
  (Evidence.adm_event_id a, Evidence.adm_signature a).

Definition admitted_cursor (a : Evidence.RhiAdmittedTradeMutationEvent) : RhiTradeSourceCursor :=
  MkCursor (Evidence.adm_created_at a) (Evidence.adm_event_id a).

Definition admission_of (source : ConfiguredSource) (attempt : RhiTradeSourceAttempt) (e : SignedEvent) :
    result TradeIngest.RhiTradeMutationAdmissionErrorKind Evidence.RhiAdmittedTradeMutationEvent :=
  TradeIngest.admit_rhi_trade_mutation_event (admission_limits source) (raw_json e)
    (attempt_observed_at attempt) (authored_time_policy attempt).

Definition classify_candidate (source : ConfiguredSource) (trade_id : bytes)
    (attempt : RhiTradeSourceAttempt) (c : Classified) (e : SignedEvent) : Classified :=
  let rejected := MkClassified (cl_duplicates c) (cl_seen c) (cl_admitted c)
                    (usize_saturating_add (cl_rejected c) 1) (cl_cursor c) in
  match admission_of source attempt e with
  | Ok a =>
      if bool_decide (Evidence.adm_trade_id a = trade_id) then
        if bool_decide (admitted_key a ∈ cl_seen c) then
          MkClassified (usize_saturating_add (cl_duplicates c) 1) (cl_seen c) (cl_admitted c)
            (cl_rejected c) (cl_cursor c)
        else
          let cursor := admitted_cursor a in
          MkClassified (cl_duplicates c) (admitted_key a :: cl_seen c) (cl_admitted c ++ [a])
            (cl_rejected c)
            (Some match cl_cursor c with
                  | None => cursor
                  | Some current => if is_lt (compare_cursor current cursor) then cursor else current
                  end)
      else rejected
  | Err _ => rejected
  end.

Definition classify (source : ConfiguredSource) (trade_id : bytes) (attempt : RhiTradeSourceAttempt)
    (l : list SignedEvent) : Classified :=
  fold_left (classify_candidate source trade_id attempt) l (MkClassified 0 [] [] 0 None).

Record FetchedSource : Type := MkFetched {
  completion : RhiTradeSourceCompletion;
  fs_received_events : Z;
  fs_duplicate_events : Z;
  fs_admitted : list Evidence.RhiAdmittedTradeMutationEvent;
  fs_rejected_events : Z;
  fs_cursor_candidate : option RhiTradeSourceCursor;
}.

(** Each continued page holds an event: one request more than the event budget is
    enough fuel ([fetch_always_ends]). *)
Definition fetch_fuel (source : ConfiguredSource) : nat := S (Z.to_nat (maximum_events source)).

Definition since_of (source : ConfiguredSource) (attempt : RhiTradeSourceAttempt)
    (checkpoint : option SourceState.Checkpoint) : Z :=
  match checkpoint with
  | None => u64_saturating_sub (attempt_started_at attempt) (lookback_seconds source)
  | Some c =>
      u64_saturating_sub (created_at_unix_seconds (SourceState.cursor c)) (overlap_seconds source)
  end.

Definition finish (source : ConfiguredSource) (trade_id : bytes) (attempt : RhiTradeSourceAttempt)
    (completion : RhiTradeSourceCompletion) (s : LoopState) : FetchedSource :=
  let c := classify source trade_id attempt (sort_by compare_candidate (candidates s)) in
  MkFetched completion (Z.min (received_events s) (maximum_events source)) (cl_duplicates c)
    (cl_admitted c) (cl_rejected c) (cl_cursor c).

Definition fetch_source (source : ConfiguredSource) (trade_id : bytes)
    (attempt : RhiTradeSourceAttempt) (checkpoint : option SourceState.Checkpoint) (w : W) :
    option (result RhiTradeSourceIngestErrorKind FetchedSource * W) :=
  let since := since_of source attempt checkpoint in
  let prepared :=
    let? deadline :=
      ok_or (ms ← u64_checked_mul (attempt_started_at attempt) 1000;
             u64_checked_add ms (deadline_ms source)) InvalidInput in
    reject_if (negb (selector_ok EVENT_KINDS trade_id since)) InvalidConfiguration ;?
    reject_if (negb (nostr_relay (relay_url source))) InvalidConfiguration ;?
    reject_if (negb (target_set_ok (relay_url source))) InvalidConfiguration ;?
    Ok deadline in
  match prepared with
  | Err e => Some (Err e, w)
  | Ok deadline =>
      match fetch_loop (fetch_fuel source) source trade_id attempt deadline since
              (MkLoop None [] [] 0 0) w with
      | None => None
      | Some (Err e, w) => Some (Err e, w)
      | Some (Ok (completion, s), w) =>
          Some (Ok (finish source trade_id attempt completion s), w)
      end
  end.

(** ** What the loop holds *)

Definition size_of (l : list SignedEvent) : Z :=
  fold_right (λ e n, Z.of_nat (length (raw_json e)) + n) 0 l.

Lemma size_of_app l k : size_of (l ++ k) = size_of l + size_of k.
Proof. unfold size_of. induction l as [|e l IH]; simpl; lia. Qed.

Definition source_ok (source : ConfiguredSource) : Prop :=
  1 ≤ maximum_events source ≤ RHI_TRADE_SOURCE_RESULT_MAX_EVENTS ∧
  1 ≤ maximum_bytes source ≤ RHI_TRADE_SOURCE_RESULT_MAX_BYTES.

Record loop_ok (source : ConfiguredSource) (s : LoopState) : Prop := {
  lo_received : received_events s = Z.of_nat (length (candidates s));
  lo_events : received_events s ≤ maximum_events source;
  lo_size : received_bytes s = size_of (candidates s);
  lo_bytes : received_bytes s ≤ maximum_bytes source;
}.

(** The budgets cut the page: what is taken is a prefix, the whole page unless a
    budget is exceeded. *)
Lemma take_events_spec source l taken r b t :
  source_ok source → Z.of_nat (length taken) ≤ maximum_events source →
  size_of taken ≤ maximum_bytes source →
  take_events source l (Z.of_nat (length taken)) (size_of taken) taken = (r, b, t) →
  ∃ pre rest, l = pre ++ rest ∧ t = taken ++ pre ∧ b = size_of t ∧ b ≤ maximum_bytes source ∧
    Z.of_nat (length t) ≤ maximum_events source ∧
    ((rest = [] ∧ r = Z.of_nat (length t)) ∨ r = maximum_events source + 1).
Proof.
  intros [Hme Hmb]. unfold RHI_TRADE_SOURCE_RESULT_MAX_EVENTS, RHI_TRADE_SOURCE_RESULT_MAX_BYTES in *.
  revert taken. induction l as [|e l IH]; intros taken Hn Hb Ht; simpl in Ht.
  - injection Ht as <- <- <-. exists [], []. rewrite !app_nil_r. split_and!; auto.
  - assert (usize_saturating_add (Z.of_nat (length taken)) 1 = Z.of_nat (length taken) + 1) as Hs
      by (unfold usize_saturating_add, U64_MAX; lia).
    assert (usize_saturating_add (maximum_events source) 1 = maximum_events source + 1) as Hs'
      by (unfold usize_saturating_add, U64_MAX; lia).
    rewrite Hs, Hs' in Ht. destruct (Z.ltb_spec (maximum_events source) (Z.of_nat (length taken) + 1)).
    { injection Ht as <- <- <-. exists [], (e :: l). rewrite app_nil_r. split_and!; try done. right. lia. }
    assert (0 ≤ size_of taken) by (clear; induction taken; simpl; lia).
    destruct (u64_checked_add _ _) as [v|] eqn:Hadd; [apply u64_checked_add_Some in Hadd as [-> Hov];
      destruct (Z.leb_spec (size_of taken + Z.of_nat (length (raw_json e))) (maximum_bytes source)) as [Hle|Hgt]|].
    + assert (Z.of_nat (length taken) + 1 = Z.of_nat (length (taken ++ [e]))) as Hlen
        by (rewrite length_app; simpl; lia).
      assert (size_of taken + Z.of_nat (length (raw_json e)) = size_of (taken ++ [e])) as Hsz
        by (rewrite size_of_app; simpl; lia).
      rewrite Hlen, Hsz in Ht. apply IH in Ht as (pre & rest & -> & -> & Hrest); [|lia..].
      exists (e :: pre), rest. rewrite <- app_assoc in *. done.
    + injection Ht as <- <- <-. exists [], (e :: l). rewrite app_nil_r. split_and!; auto.
    + injection Ht as <- <- <-. exists [], (e :: l). rewrite app_nil_r. split_and!; auto.
Qed.

(** What a break leaves: the budgets hold, and the count exceeds them only as a mark. *)
Record loop_within (source : ConfiguredSource) (s : LoopState) : Prop := {
  lw_events : Z.of_nat (length (candidates s)) ≤ maximum_events source;
  lw_bytes : size_of (candidates s) ≤ maximum_bytes source;
  lw_received : received_events s = Z.of_nat (length (candidates s)) ∨
                received_events s = maximum_events source + 1;
}.

Lemma loop_ok_within source s : loop_ok source s → loop_within source s.
Proof. intros [Hr He Hs Hb]. split; [lia..|by left]. Qed.

(** A page that the loop takes whole. *)
Definition whole_page (fp : string) (page : FetchPage) : Prop :=
  target_outcomes page = [(fp, TargetComplete)].

Lemma take_page_spec source fp page s :
  source_ok source → loop_ok source s →
  match take_page source fp page s with
  | Continue s' =>
      loop_ok source s' ∧ whole_page fp page ∧ events page ≠ [] ∧
      candidates s' = candidates s ++ events page
  | Break c s' =>
      loop_within source s' ∧ (c ≠ IncompleteResourceLimit → loop_ok source s') ∧
      (c = IncompleteResourceLimit → received_events s' = maximum_events source + 1) ∧
      (c = Complete → whole_page fp page ∧ next_page page = NextComplete ∧
                      candidates s' = candidates s ++ events page)
  end.
Proof.
  intros Hs Hl. unfold take_page.
  assert (∀ c, c ≠ IncompleteResourceLimit → c ≠ Complete →
    loop_within source s ∧ (c ≠ IncompleteResourceLimit → loop_ok source s) ∧
    (c = IncompleteResourceLimit → received_events s = maximum_events source + 1) ∧
    (c = Complete → whole_page fp page ∧ next_page page = NextComplete ∧
                    candidates s = candidates s ++ events page)) as Hkeep.
  { intros c ? ?. split_and!; try done. by apply loop_ok_within. }
  destruct (List.find _ _) as [[fp' state]|] eqn:Hf; [|by apply Hkeep].
  destruct (target_outcomes page) as [|o [|]] eqn:Ho; try (by apply Hkeep).
  simpl in Hf. destruct (String.eqb_spec o.1 fp) as [Hfp|]; [|done]. injection Hf as ->. simpl in Hfp. subst fp'.
  destruct (take_events source (events page) (received_events s) (received_bytes s) (candidates s))
    as [[r b] t] eqn:Ht.
  destruct Hl as [Hr He Hb Hbm]. rewrite Hr, Hb in Ht.
  apply take_events_spec in Ht as (pre & rest & Hev & -> & -> & Hbm' & Hlen & Hcut); [|done|lia..].
  assert (r ≤ maximum_events source → rest = [] ∧ r = Z.of_nat (length (candidates s ++ pre))) as Hwhole
    by (intros; destruct Hcut as [|]; [done|lia]).
  destruct state; try (by apply Hkeep).
  all: destruct (Z.ltb_spec (maximum_events source) r) as [Hlt|Hle];
    [assert (r = maximum_events source + 1) as -> by (destruct Hcut as [[_ ->]|]; lia);
     split_and!; try done; split; simpl; [done..|by right]|].
  all: destruct (Hwhole Hle) as [-> ->]; rewrite app_nil_r in Hev; subst pre;
    assert (∀ cur seen, loop_ok source (MkLoop cur seen (candidates s ++ events page)
      (Z.of_nat (length (candidates s ++ events page))) (size_of (candidates s ++ events page)))) as Hok
      by (intros; by split).
  - destruct (next_page page); [| |destruct (_ || _) eqn:Hc];
      split_and!; try done; try apply loop_ok_within; try apply Hok.
    intros Hnil. by rewrite Hnil in Hc.
  - split_and!; try done; try apply loop_ok_within; try apply Hok.
Qed.

(** ** Runs of the loop *)

(** The pages a transport delivers, each with the request it answers. *)
Inductive delivers : W → list (FetchRequest * FetchPage) → W → Prop :=
| delivers_nil w : delivers w [] w
| delivers_cons w request page w1 l w2 :
    fetch request w = (Ok page, w1) → validate_for_request page request = true →
    delivers w1 l w2 → delivers w ((request, page) :: l) w2.

Lemma fetch_page_spec source trade_id attempt deadline since s w step w' :
  source_ok source → loop_ok source s →
  fetch_page source trade_id attempt deadline since s w = (Ok step, w') →
  (∀ page, step = Continue page → received_events s < received_events page) ∧
  match step with
  | Continue s' =>
      loop_ok source s' ∧ ∃ request page,
        fetch request w = (Ok page, w') ∧ validate_for_request page request = true ∧
        whole_page (fingerprint (relay_url source)) page ∧
        candidates s' = candidates s ++ events page
  | Break c s' =>
      loop_within source s' ∧ (c ≠ IncompleteResourceLimit → loop_ok source s') ∧
      (c = IncompleteResourceLimit → received_events s' = maximum_events source + 1) ∧
      (c = Complete → ∃ request page,
        fetch request w = (Ok page, w') ∧ validate_for_request page request = true ∧
        whole_page (fingerprint (relay_url source)) page ∧ next_page page = NextComplete ∧
        candidates s' = candidates s ++ events page)
  end.
Proof.
  intros Hs Hl. unfold fetch_page. destruct (page_request _ _ _ _ _ _) as [request|]; [|done].
  set (s1 := MkLoop _ _ _ _ _). destruct (fetch request w) as [page w1] eqn:Hf. intros [= <- <-].
  assert (loop_ok source s1) as Hl1 by (destruct Hl; by split).
  assert (∀ c, c ≠ IncompleteResourceLimit → c ≠ Complete →
    loop_within source s1 ∧ (c ≠ IncompleteResourceLimit → loop_ok source s1) ∧
    (c = IncompleteResourceLimit → received_events s1 = maximum_events source + 1) ∧
    (c = Complete → ∃ request' page', fetch request' w = (Ok page', w1) ∧
      validate_for_request page' request' = true ∧ whole_page (fingerprint (relay_url source)) page' ∧
      next_page page' = NextComplete ∧ candidates s1 = candidates s ++ events page')) as Hkeep.
  { intros c ? ?. split_and!; try done. by apply loop_ok_within. }
  destruct page as [page|[]]; [|split; [done|by apply Hkeep]..].
  destruct (validate_for_request page request) eqn:Hv; simpl; [|split; [done|by apply Hkeep]].
  pose proof (take_page_spec source (fingerprint (relay_url source)) page s1 Hs Hl1) as Hp.
  destruct (take_page _ _ _ s1) as [c s'|s'].
  - split; [done|]. destruct Hp as (? & ? & ? & Hc). split_and!; try done.
    intros Hcc. destruct (Hc Hcc) as (? & ? & ?). by exists request, page.
  - destruct Hp as (Hok & Hw & Hne & Hcand). split.
    + intros ? [= <-]. rewrite (lo_received _ _ Hok), (lo_received _ _ Hl), Hcand, length_app.
      destruct (events page); simpl; [done|lia].
    + split; [done|]. by exists request, page.
Qed.

Lemma fetch_loop_total source trade_id attempt deadline since fuel s w :
  source_ok source → loop_ok source s →
  maximum_events source - received_events s < Z.of_nat fuel →
  ∃ r w', fetch_loop fuel source trade_id attempt deadline since s w = Some (r, w').
Proof.
  intros Hs. revert s w; induction fuel as [|fuel IH]; intros s w Hl Hf.
  { pose proof (lo_events _ _ Hl). lia. }
  simpl. destruct (fetch_page source trade_id attempt deadline since s w) as [[[c s'|s']|e] w'] eqn:Hp;
    [by repeat eexists| |by repeat eexists].
  apply fetch_page_spec in Hp as [Hgrow [Hl' _]]; [|done..].
  apply IH; [done|]. specialize (Hgrow _ eq_refl). lia.
Qed.

Lemma fetch_loop_spec source trade_id attempt deadline since fuel s w c s' w' :
  source_ok source → loop_ok source s →
  fetch_loop fuel source trade_id attempt deadline since s w = Some (Ok (c, s'), w') →
  loop_within source s' ∧ (c ≠ IncompleteResourceLimit → loop_ok source s') ∧
  (c = IncompleteResourceLimit → received_events s' = maximum_events source + 1) ∧
  (c = Complete → ∃ l,
     delivers w l w' ∧ Forall (λ x, whole_page (fingerprint (relay_url source)) x.2) l ∧
     (∃ x, list.last l = Some x ∧ next_page x.2 = NextComplete) ∧
     candidates s' = candidates s ++ concat (map (λ x, events x.2) l)).
Proof.
  intros Hs. revert s w; induction fuel as [|fuel IH]; intros s w Hl Hr; simpl in Hr; [done|].
  destruct (fetch_page _ _ _ _ _ s w) as [[step|e] w1] eqn:Hp; [|done].
  apply fetch_page_spec in Hp as [_ Hp]; [|done..]. destruct step as [c1 s1|s1].
  - injection Hr as -> -> ->. destruct Hp as (? & ? & ? & Hc). split_and!; try done.
    intros Hcc. destruct (Hc Hcc) as (request & page & Hf & Hv & Hw & Hn & Hcand).
    exists [(request, page)]. split_and!; [by repeat econstructor|by constructor|by eexists|].
    simpl. by rewrite app_nil_r.
  - destruct Hp as (Hl1 & request & page & Hf & Hv & Hw & Hcand).
    destruct (IH _ _ Hl1 Hr) as (? & ? & ? & Hc). split_and!; try done.
    intros Hcc. destruct (Hc Hcc) as (l & Hd & Hall & (x & Hx & Hn) & Hcands).
    exists ((request, page) :: l). split_and!; [by econstructor|by constructor| |].
    + exists x. split; [|done]. by destruct l.
    + simpl. by rewrite Hcands, Hcand, app_assoc.
Qed.

(** ** What the classification holds *)

#[export] Instance compare_cursor_ordering : Ordering compare_cursor.
Proof. unfold compare_cursor. apply _. Qed.

(** The candidate belongs to the trade and is admitted as [a]. *)
Definition admits (source : ConfiguredSource) (trade_id : bytes) (attempt : RhiTradeSourceAttempt)
    (e : SignedEvent) (a : Evidence.RhiAdmittedTradeMutationEvent) : Prop :=
  admission_of source attempt e = Ok a ∧ Evidence.adm_trade_id a = trade_id.

Record classified (source : ConfiguredSource) (trade_id : bytes) (attempt : RhiTradeSourceAttempt)
    (l : list SignedEvent) (c : Classified) : Prop := {
  cd_counts : cl_duplicates c + Z.of_nat (length (cl_admitted c)) + cl_rejected c = Z.of_nat (length l);
  cd_nonneg : 0 ≤ cl_duplicates c ∧ 0 ≤ cl_rejected c;
  cd_seen k : k ∈ cl_seen c ↔ k ∈ map admitted_key (cl_admitted c);
  cd_distinct : NoDup (map admitted_key (cl_admitted c));
  cd_sound a : a ∈ cl_admitted c → ∃ e, e ∈ l ∧ admits source trade_id attempt e a;
  cd_complete e a : e ∈ l → admits source trade_id attempt e a →
    admitted_key a ∈ map admitted_key (cl_admitted c);
  cd_cursor : match cl_cursor c with
    | None => cl_admitted c = []
    | Some m => m ∈ map admitted_cursor (cl_admitted c) ∧
                ∀ a, a ∈ cl_admitted c → is_le (compare_cursor (admitted_cursor a) m)
    end;
}.

Lemma usize_succ n m : 0 ≤ n ≤ m → m < U64_MAX → usize_saturating_add n 1 = n + 1.
Proof. unfold usize_saturating_add. lia. Qed.

Lemma classify_candidate_spec source trade_id attempt l c e :
  Z.of_nat (length l) < U64_MAX → classified source trade_id attempt l c →
  classified source trade_id attempt (l ++ [e]) (classify_candidate source trade_id attempt c e).
Proof.
  intros Hn [Hc [Hd0 Hr0] Hs Hnd Hsound Hcomp Hcur].
  assert (usize_saturating_add (cl_rejected c) 1 = cl_rejected c + 1) as Hrej
    by (apply (usize_succ _ (Z.of_nat (length l))); lia).
  assert (usize_saturating_add (cl_duplicates c) 1 = cl_duplicates c + 1) as Hdup
    by (apply (usize_succ _ (Z.of_nat (length l))); lia).
  assert (Z.of_nat (length (l ++ [e])) = Z.of_nat (length l) + 1) as Hlen
    by (rewrite length_app; simpl; lia).
  assert (∀ a, a ∈ cl_admitted c → ∃ e', e' ∈ l ++ [e] ∧ admits source trade_id attempt e' a) as Hsound'.
  { intros a Ha. destruct (Hsound a Ha) as (e' & He & Had). exists e'. split; [set_solver|done]. }
  assert ((∀ a, admits source trade_id attempt e a → admitted_key a ∈ map admitted_key (cl_admitted c)) →
    ∀ e' a, e' ∈ l ++ [e] → admits source trade_id attempt e' a →
      admitted_key a ∈ map admitted_key (cl_admitted c)) as Hcomp'.
  { intros Hlast e' a [He| ->%list_elem_of_singleton]%elem_of_app Had; [by eapply Hcomp|by apply Hlast]. }
  unfold classify_candidate.
  destruct (admission_of source attempt e) as [a|] eqn:Ha;
    [case_bool_decide as Ht; [case_bool_decide as Hk|]|].
  2: { (* a new event *)
    rewrite Hs in Hk. split; simpl; try done.
    - rewrite length_app. simpl. lia.
    - intros k. rewrite map_app; simpl; rewrite elem_of_cons, elem_of_app, list_elem_of_singleton, Hs. naive_solver.
    - rewrite map_app. simpl. apply list.NoDup_app. split_and!; [done| |apply NoDup_singleton].
      intros k Hin ->%list_elem_of_singleton. done.
    - intros a' [Ha'| ->%list_elem_of_singleton]%elem_of_app; [by apply Hsound'|].
      exists e. split; [set_solver|by split].
    - intros e' a' He' [Ha' Ht']. rewrite map_app; simpl; rewrite elem_of_app, list_elem_of_singleton.
      apply elem_of_app in He' as [He'| ->%list_elem_of_singleton].
      + left. eapply Hcomp; [done|by split].
      + right. rewrite Ha in Ha'. by injection Ha' as <-.
    - rewrite map_app. simpl. destruct (cl_cursor c) as [m|].
      + destruct Hcur as [Hm Hmax]. destruct (is_lt _) eqn:Hlt.
        * split; [simpl; rewrite elem_of_app; right; by apply list_elem_of_singleton|].
          intros a' [Ha'| ->%list_elem_of_singleton]%elem_of_app; [|by rewrite cmp_refl].
          eapply is_le_trans; [by apply Hmax|]. apply is_lt_le. by rewrite Hlt.
        * split; [rewrite elem_of_app; by left|].
          intros a' [Ha'| ->%list_elem_of_singleton]%elem_of_app; [by apply Hmax|].
          rewrite is_lt_swap in Hlt. apply negb_false_iff in Hlt. by rewrite Hlt.
      + rewrite Hcur. simpl. split; [by apply list_elem_of_singleton|].
        intros a' ->%list_elem_of_singleton. by rewrite cmp_refl. }
  all: split; simpl; rewrite ?Hrej, ?Hdup; try done; try lia; apply Hcomp'; intros a' [Ha' Ht'];
    rewrite Ha in Ha'; simplify_eq. by apply Hs.
Qed.

Lemma classify_spec source trade_id attempt l :
  Z.of_nat (length l) < U64_MAX →
  classified source trade_id attempt l (classify source trade_id attempt l).
Proof.
  unfold classify. induction l as [|e l IH] using rev_ind; intros Hn.
  - split; simpl; try done; [constructor|intros ?; set_solver|intros ? ?; set_solver].
  - rewrite length_app in Hn. simpl in Hn. rewrite fold_left_app. simpl.
    apply classify_candidate_spec; [lia|]. apply IH. lia.
Qed.

Lemma classified_perm source trade_id attempt l l' c :
  l ≡ₚ l' → classified source trade_id attempt l c → classified source trade_id attempt l' c.
Proof.
  intros Hp [Hc Hz Hs Hnd Hsound Hcomp Hcur]. split; try done.
  - by rewrite <- Hp.
  - intros a Ha. setoid_rewrite <- Hp. by apply Hsound.
  - intros e a. rewrite <- Hp. apply Hcomp.
Qed.

(** ** The attempt as a whole *)

Lemma initial_ok source : source_ok source → loop_ok source (MkLoop None [] [] 0 0).
Proof. intros [? ?]. split; simpl; lia || done. Qed.

Lemma fetch_source_total source trade_id attempt checkpoint w :
  source_ok source → ∃ r w', fetch_source source trade_id attempt checkpoint w = Some (r, w').
Proof.
  intros Hs. unfold fetch_source.
  match goal with |- context [match ?p with Ok _ => _ | Err _ => _ end] => destruct p as [deadline|] end;
    [|by repeat eexists].
  destruct (fetch_loop_total source trade_id attempt deadline (since_of source attempt checkpoint)
    (fetch_fuel source) (MkLoop None [] [] 0 0) w) as (r & w' & ->); [done|by apply initial_ok| |].
  - unfold fetch_fuel. simpl. destruct Hs as [? ?]. lia.
  - destruct r as [[]|]; by repeat eexists.
Qed.

Lemma fetch_source_Ok source trade_id attempt checkpoint w f w' :
  source_ok source → fetch_source source trade_id attempt checkpoint w = Some (Ok f, w') →
  ∃ deadline s,
    fetch_loop (fetch_fuel source) source trade_id attempt deadline
      (since_of source attempt checkpoint) (MkLoop None [] [] 0 0) w = Some (Ok (completion f, s), w') ∧
    loop_within source s ∧
    fs_received_events f = Z.min (received_events s) (maximum_events source) ∧
    classified source trade_id attempt (candidates s)
      (MkClassified (fs_duplicate_events f) (map admitted_key (fs_admitted f)) (fs_admitted f)
         (fs_rejected_events f) (fs_cursor_candidate f)).
Proof.
  intros Hs. unfold fetch_source.
  match goal with |- context [match ?p with Ok _ => _ | Err _ => _ end] => destruct p as [deadline|] end;
    [|done].
  destruct (fetch_loop _ _ _ _ _ _ _ w) as [[[[c s]|] w1]|] eqn:Hl; try done. intros [= <- <-].
  exists deadline, s. split; [done|].
  pose proof (fetch_loop_spec _ _ _ _ _ _ _ _ _ _ _ Hs (initial_ok _ Hs) Hl) as [Hw _].
  split; [done|]. split; [done|].
  assert (Z.of_nat (length (sort_by compare_candidate (candidates s))) < U64_MAX) as Hn.
  { rewrite sort_by_perm. destruct Hw as [Hw _ _], Hs as [[_ Hs] _].
    unfold RHI_TRADE_SOURCE_RESULT_MAX_EVENTS, U64_MAX in *. lia. }
  apply (classified_perm _ _ _ _ _ _ (sort_by_perm compare_candidate (candidates s))).
  destruct (classify_spec source trade_id attempt _ Hn). by split.
Qed.

(** A complete attempt: the pages it took and what became of their events. *)
Lemma fetch_source_complete source trade_id attempt checkpoint w f w' :
  source_ok source →
  fetch_source source trade_id attempt checkpoint w = Some (Ok f, w') → completion f = Complete →
  ∃ pages,
    delivers w pages w' ∧
    Forall (λ x, whole_page (fingerprint (relay_url source)) x.2) pages ∧
    (∃ x, list.last pages = Some x ∧ next_page x.2 = NextComplete) ∧
    let received := concat (map (λ x, events x.2) pages) in
    fs_received_events f = Z.of_nat (length received) ∧
    (∀ e a, e ∈ received → admits source trade_id attempt e a →
       admitted_key a ∈ map admitted_key (fs_admitted f)) ∧
    (∀ a, a ∈ fs_admitted f → ∃ e, e ∈ received ∧ admits source trade_id attempt e a) ∧
    NoDup (map admitted_key (fs_admitted f)) ∧
    match fs_cursor_candidate f with
    | None => fs_admitted f = []
    | Some m => m ∈ map admitted_cursor (fs_admitted f) ∧
                ∀ a, a ∈ fs_admitted f → is_le (compare_cursor (admitted_cursor a) m)
    end.
Proof.
  intros Hs Hr Hcomplete.
  destruct (fetch_source_Ok _ _ _ _ _ _ _ Hs Hr) as (deadline & s & Hl & _ & Hrec & Hc).
  pose proof (fetch_loop_spec _ _ _ _ _ _ _ _ _ _ _ Hs (initial_ok _ Hs) Hl) as (_ & Hok & _ & Hpages).
  destruct (Hpages Hcomplete) as (l & Hd & Hall & Hlast & Hcand). simpl in Hcand.
  rewrite Hcomplete in Hok. specialize (Hok ltac:(done)).
  exists l. cbv zeta. rewrite <- Hcand. destruct Hc as [_ _ _ Hnd Hsound Hcomp Hcur]. simpl in *.
  split_and!; try done.
  rewrite Hrec, (lo_received _ _ Hok). pose proof (lo_events _ _ Hok). rewrite (lo_received _ _ Hok) in *. lia.
Qed.

(** ** Properties *)

(** C28. A fetch attempt ends within its budgets, whatever the transport does: after
    at most one page request more than the event budget it has a result, which
    admits and counts no more events than the budget allows, and accounts for every
    received event as admitted, duplicate or rejected unless a budget cut it off. *)
Theorem fetch_ends_within_budget source trade_id attempt checkpoint w :
  source_ok source →
  ∃ r w', fetch_source source trade_id attempt checkpoint w = Some (r, w') ∧
    ∀ f, r = Ok f →
      let counted := fs_duplicate_events f + Z.of_nat (length (fs_admitted f)) + fs_rejected_events f in
      0 ≤ fs_duplicate_events f ∧ 0 ≤ fs_rejected_events f ∧
      counted ≤ fs_received_events f ≤ maximum_events source ∧
      (completion f ≠ IncompleteResourceLimit → fs_received_events f = counted) ∧
      (completion f = IncompleteResourceLimit → fs_received_events f = maximum_events source).
Proof.
  intros Hs. destruct (fetch_source_total source trade_id attempt checkpoint w Hs) as (r & w' & Hr).
  exists r, w'. split; [done|]. intros f ->.
  destruct (fetch_source_Ok _ _ _ _ _ _ _ Hs Hr) as (deadline & s & Hl & [Hle _ Hrec] & -> & Hc).
  pose proof (fetch_loop_spec _ _ _ _ _ _ _ _ _ _ _ Hs (initial_ok _ Hs) Hl) as (_ & Hok & Hlim & _).
  destruct Hc as [Hcount [Hz1 Hz2] _ _ _ _ _]. cbv zeta. simpl in *.
  split_and!; try done; try lia.
  - intros Hne. pose proof (lo_received _ _ (Hok Hne)). lia.
  - intros He. specialize (Hlim He). lia.
Qed.

(** C27. A complete fetch loses nothing: when the attempt is classified complete,
    every page the transport delivered was valid, reported the target complete and
    was taken whole, up to the page that ends the result; every delivered event the
    admission accepts for the trade is among the admitted events, nothing else is,
    none is there twice, and the cursor candidate is the greatest admitted one. *)
Theorem complete_fetch_loses_nothing source trade_id attempt checkpoint w f w' :
  source_ok source →
  fetch_source source trade_id attempt checkpoint w = Some (Ok f, w') → completion f = Complete →
  ∃ pages,
    delivers w pages w' ∧
    Forall (λ x, whole_page (fingerprint (relay_url source)) x.2) pages ∧
    (∃ x, list.last pages = Some x ∧ next_page x.2 = NextComplete) ∧
    let received := concat (map (λ x, events x.2) pages) in
    fs_received_events f = Z.of_nat (length received) ∧
    (∀ e a, e ∈ received → admits source trade_id attempt e a →
       admitted_key a ∈ map admitted_key (fs_admitted f)) ∧
    (∀ a, a ∈ fs_admitted f → ∃ e, e ∈ received ∧ admits source trade_id attempt e a) ∧
    NoDup (map admitted_key (fs_admitted f)) ∧
    match fs_cursor_candidate f with
    | None => fs_admitted f = []
    | Some m => m ∈ map admitted_cursor (fs_admitted f) ∧
                ∀ a, a ∈ fs_admitted f → is_le (compare_cursor (admitted_cursor a) m)
    end.
Proof. apply fetch_source_complete. Qed.

End fetching.

Lemma exact_usize_Ok `{JsonValue V} (value : V) p lo hi v :
  exact_usize value p lo hi = Ok v → lo ≤ v ≤ hi.
Proof.
  unfold exact_usize, exact_u64. intros Hv. bind Hv as x Hx. apply ok_or_Ok, filter_opt_Some in Hx as [_ Hx].
  apply ok_or_Ok, try_from_Some in Hv as [-> _]. by apply between_true.
Qed.

(** A configured source has its budgets. *)
Lemma configured_source_ok `{Sha256, JsonValue V, !JsonWriter V, SourceTransport W} host normalized id source :
  configured_source_new host normalized id = Ok source → source_ok source ∧ source_id source = id ∧
  policy source = host.
Proof.
  unfold configured_source_new. intros Hc. inv_ok. to_prop.
  repeat match goal with H : exact_usize _ _ _ _ = Ok _ |- _ => apply exact_usize_Ok in H end.
  unfold source_ok. simpl. split_and!; try lia; done.
Qed.

(** ** A concrete attempt *)

(** A transport that answers from a script. *)
#[local] Instance scripted_transport : SourceTransport (list (result transport_error FetchPage)) := {|
  nostr_relay := λ _, true;
  fingerprint := λ url, url;
  target_set_ok := λ _, true;
  selector_ok := λ _ _ _, true;
  fetch_bounds_ok := λ _ _, true;
  fetch_request_ok := λ _, true;
  validate_for_request := λ page request, Z.of_nat (length (events page)) <=? req_limit request;
  fetch := λ _ w, match w with
                  | [] => (Err OtherTransportError, [])
                  | page :: w => (page, w)
                  end;
|}.

(** Events whose first byte is their identity and whose second is their time; a third
    byte makes one belong to another trade. *)
#[local] Instance scripted_library : TradeIngest.EventLibrary := {|
  TradeIngest.DEFAULT_EXTRA_MAX_FIELDS := 4;
  TradeIngest.DEFAULT_EXTRA_TOTAL_JSON_MAX_BYTES := 64;
  TradeIngest.parse_event := λ raw _,
    match raw with
    | i :: at_s :: rest => Some (TradeIngest.MkEnvelope (repeat i 32) (repeat 2 64) (repeat 3 32) 3470 at_s
                                   (match rest with [] => [123; 125] | _ => rest end) (Some raw))
    | _ => None
    end;
  TradeIngest.verify_id := λ _, TradeIngest.IdVerified;
  TradeIngest.verify := λ _, TradeIngest.Verified;
  TradeIngest.is_trade_mutation_event_kind := λ k, between 3470 3474 k;
  TradeIngest.trade_mutation_from_event := λ e,
    Ok (TradeIngest.MkMutation (Some (TradeIngest.env_id e))
          (if (length (TradeIngest.env_content e) =? 2)%nat then repeat 8 16 else repeat 9 16)
          "radroots.trade.proposal.v1" 1);
|}.

#[local] Existing Instance TradeIngest.demo_reader.

Definition demo_source : ConfiguredSource :=
  MkSource "primary" "wss://relay.example" (repeat 7 32) 1000 3600 60 8 64 TradeIngest.demo_limits.

Definition demo_attempt : RhiTradeSourceAttempt := MkAttempt [114; 49] 100 110 10.

Definition demo_event (i at_s : Z) (rest : bytes) : SignedEvent :=
  MkSigned (i :: at_s :: rest) at_s (repeat i 32) (repeat 2 64).

Definition demo_pages : list (result transport_error FetchPage) :=
  [Ok (MkPage [demo_event 50 40 []; demo_event 49 90 []] [("wss://relay.example"%string, TargetComplete)]
         (NextCursor "next"));
   Ok (MkPage [demo_event 50 40 []; demo_event 51 30 [9]; demo_event 52 60 []]
         [("wss://relay.example"%string, TargetComplete)] NextComplete)].

Definition demo_result : FetchedSource :=
  match fetch_source demo_source (repeat 8 16) demo_attempt None demo_pages with
  | Some (Ok f, _) => f
  | _ => MkFetched Unsupported 0 0 [] 0 None
  end.

Lemma demo_source_ok : source_ok demo_source.
Proof.
  unfold source_ok, RHI_TRADE_SOURCE_RESULT_MAX_EVENTS, RHI_TRADE_SOURCE_RESULT_MAX_BYTES. simpl. lia.
Qed.

Lemma demo_fetch :
  fetch_source demo_source (repeat 8 16) demo_attempt None demo_pages = Some (Ok demo_result, []).
Proof. vm_compute. reflexivity. Qed.

(** Five events received: three admitted in time order, one duplicate, one of
    another trade; the cursor is the latest event. *)
Example demo_fetched :
  fs_received_events demo_result = 5 ∧ fs_duplicate_events demo_result = 1 ∧
  fs_rejected_events demo_result = 1 ∧
  map Evidence.adm_created_at (fs_admitted demo_result) = [40; 60; 90] ∧
  fs_cursor_candidate demo_result = Some (MkCursor 90 (repeat 49 32)).
Proof. vm_compute. repeat split. Qed.

Lemma fetch_ends_within_budget_witness :
  ∃ r w', fetch_source demo_source (repeat 8 16) demo_attempt None demo_pages = Some (r, w').
Proof.
  destruct (fetch_ends_within_budget demo_source (repeat 8 16) demo_attempt None demo_pages
    demo_source_ok) as (r & w' & Hr & _).
  exists r, w'. exact Hr.
Defined.

Lemma demo_complete : completion demo_result = Complete.
Proof. vm_compute. reflexivity. Qed.

Lemma complete_fetch_loses_nothing_witness :
  ∃ pages, delivers demo_pages pages [] ∧
    fs_received_events demo_result = Z.of_nat (length (concat (map (λ x, events x.2) pages))).
Proof.
  destruct (complete_fetch_loses_nothing _ _ _ _ _ _ _ demo_source_ok demo_fetch demo_complete)
    as (pages & Hd & _ & _ & Hr & _).
  exists pages. exact (conj Hd Hr).
Defined.

End SourceFetch.
