(* ===== verification/SourceCommit.v ===== *)
(** * Source ingestion: [src/src/source_ingest.rs]

    The two transactions around a fetch: the state a source is resumed from, and
    the fenced commit of what the fetch admitted (evidence, dirty generation and
    checkpoint together); and their composition for a paged source and for one
    subscribed event. *)

From Stdlib Require Import ZArith Lia.
From stdpp Require Import sets list strings gmap.
From S2P Require Import Prelude.
From S2P Require Import Sql.
From S2P Require Import Interfaces.
From S2P Require Import ReconciliationJob.
From S2P Require Import StateMetadata.
From S2P Require Import SourceIngest.
From S2P Require Import StateTrade.
From S2P Require Import EvidenceHistory.
From S2P Require Import TradeIngest.
From S2P Require Import SourceState.
From S2P Require Import SourceFetch.

Module SourceCommit.
Import Source.
Import History.
Import SourceState.
Import SourceFetch.

(** The tables ingestion writes. *)
Record source_db : Type := SourceDb {
  sd_evidence : Evidence.evidence_db;
  sd_checkpoints : list checkpoint_row;
  sd_dirty : list Job.dirty_row;
}.

Record InitialState : Type := MkInitial {
  in_checkpoint : option Checkpoint;
  in_dirty : option DirtyState;
}.

#[export] Instance initial_eq_dec : EqDecision InitialState.
Proof. solve_decision. Defined.

Record RhiTradeSourceIngestOutcome : Type := MkOutcome {
  out_completion : RhiTradeSourceCompletion;
  out_received_events : Z;
  out_admitted_events : Z;
  out_rejected_events : Z;
  out_duplicate_events : Z;
  out_inserted_mutations : Z;
  out_inserted_signed_events : Z;
  out_inserted_observations : Z;
  out_checkpoint : option RhiTradeSourceCursor;
  out_checkpoint_advanced : bool;
  out_dirty_generation : option Z;
  out_dirty_generation_advanced : bool;
}.

Definition map_transaction_error (e : tx_error SourceOperationError) : RhiTradeSourceIngestErrorKind :=
  if commit_outcome_unknown e then CommitOutcomeUnknown
  else match operation_error e with
       | Some OpGenerationConflict => GenerationConflict
       | Some (OpPersistence _) | Some OpSourceStorage | None => Storage
       end.

(** ** The transactions *)

Definition read_state (source : ConfiguredSource) (trade_id : bytes) (db : source_db) :
    result SourceOperationError (InitialState * source_db) :=
  let? checkpoint := read_checkpoint (source_id source) (policy source) trade_id (sd_checkpoints db) in
  let? dirty := read_dirty trade_id (sd_dirty db) in
  Ok (MkInitial checkpoint dirty, db).

(** [RhiTradeSourceObservation::from_parts] *)
Definition from_parts (source_id : string) (policy : bytes) (a : Evidence.RhiAdmittedTradeMutationEvent) :
    Evidence.RhiTradeSourceObservation :=
  Evidence.MkObservation source_id policy (Evidence.adm_event_id a) (Evidence.adm_signature a)
    (Evidence.adm_observed_at a).

Record Counts : Type := MkCounts { n_mutations : Z; n_events : Z; n_observations : Z }.

Definition count (n : Z) (inserted : bool) : result SourceOperationError Z :=
  ok_or (u32_checked_add n (if inserted then 1 else 0)) OpSourceStorage.

(** [for admitted in fetched.admitted] *)
Fixpoint persist_all (source_id : string) (policy : bytes)
    (l : list Evidence.RhiAdmittedTradeMutationEvent) (n : Counts) (db : Evidence.evidence_db) :
    result SourceOperationError (Counts * Evidence.evidence_db) :=
  match l with
  | [] => Ok (n, db)
  | a :: l =>
      let? record := map_err (λ _, OpSourceStorage) (Evidence.from_admitted a) in
      let? (persisted, db) :=
        map_err OpPersistence (Evidence.persist record (from_parts source_id policy a) db) in
      let? m := count (n_mutations n) (Evidence.mutation_inserted persisted) in
      let? e := count (n_events n) (Evidence.signed_event_inserted persisted) in
      let? o := count (n_observations n) (Evidence.observation_inserted persisted) in
      persist_all source_id policy l (MkCounts m e o) db
  end.

(** A complete fetch whose candidate is ahead of the checkpoint, or there is none. *)
Definition advances (fetched : FetchedSource) (initial : InitialState) : bool :=
  allows_checkpoint (completion fetched)
  && is_some_and
       (λ candidate, is_none_or (λ current, is_lt (compare_cursor (cursor current) candidate))
                       (in_checkpoint initial))
       (fs_cursor_candidate fetched).

Definition u32_try_from (v : Z) : result SourceOperationError Z :=
  ok_or (try_from U32_MAX v) OpSourceStorage.

Definition commit_operation (source : ConfiguredSource) (trade_id : bytes)
    (attempt : RhiTradeSourceAttempt) (initial : InitialState) (fetched : FetchedSource)
    (db : source_db) : result SourceOperationError (RhiTradeSourceIngestOutcome * source_db) :=
  let? current := read_checkpoint (source_id source) (policy source) trade_id (sd_checkpoints db) in
  let? dirty := (if bool_decide (current = in_checkpoint initial) then read_dirty trade_id (sd_dirty db)
                 else Err OpGenerationConflict) in
  reject_if (negb (bool_decide (dirty = in_dirty initial))) OpGenerationConflict ;?
  let? admitted_events := u32_try_from (Z.of_nat (length (fs_admitted fetched))) in
  let? (n, evidence) :=
    persist_all (source_id source) (policy source) (fs_admitted fetched) (MkCounts 0 0 0)
      (sd_evidence db) in
  let new_relevant_evidence := negb (n_mutations n =? 0) || negb (n_events n =? 0) in
  let? (dirty_generation, dirty_rows) :=
    (if new_relevant_evidence then
       let? (generation, rows) :=
         advance_dirty_generation trade_id (policy source) (attempt_observed_at attempt)
           (in_dirty initial) (sd_dirty db) in
       Ok (Some generation, rows)
     else Ok (generation <$> in_dirty initial, sd_dirty db)) in
  let? (checkpoint, checkpoint_rows) :=
    (if advances fetched initial then
       let? candidate := ok_or (fs_cursor_candidate fetched) OpSourceStorage in
       let? rows :=
         write_checkpoint (source_id source) (policy source) trade_id (in_checkpoint initial) candidate
           (attempt_observed_at attempt) (sd_checkpoints db) in
       Ok (Some candidate, rows)
     else Ok (cursor <$> in_checkpoint initial, sd_checkpoints db)) in
  let? received := u32_try_from (fs_received_events fetched) in
  let? rejected := u32_try_from (fs_rejected_events fetched) in
  let? duplicate := u32_try_from (fs_duplicate_events fetched) in
  Ok (MkOutcome (completion fetched) received admitted_events rejected duplicate (n_mutations n)
        (n_events n) (n_observations n) checkpoint (advances fetched initial) dirty_generation
        new_relevant_evidence,
      SourceDb evidence checkpoint_rows dirty_rows).

Section ingestion.
Context `{TransactionHost source_db}.

Definition read_initial_state (source : ConfiguredSource) (trade_id : bytes) (db : source_db) :
    result RhiTradeSourceIngestErrorKind InitialState * source_db :=
  let '(res, db) := transaction (read_state source trade_id) db in
  (map_err map_transaction_error res, db).

Definition commit_source_result (source : ConfiguredSource) (trade_id : bytes)
    (attempt : RhiTradeSourceAttempt) (initial : InitialState) (fetched : FetchedSource)
    (db : source_db) : result RhiTradeSourceIngestErrorKind RhiTradeSourceIngestOutcome * source_db :=
  let '(res, db) := transaction (commit_operation source trade_id attempt initial fetched) db in
  (map_err map_transaction_error res, db).

(** ** The entry points *)

(** A host: whether its state is writable and the policy its metadata holds. *)
Record RhiStateHost : Type := MkHost { writable : bool; host_policy : bytes }.

Definition validate_source `{Sha256, JsonValue V, !JsonWriter V, SourceTransport W} (host : RhiStateHost)
    (normalized : V) (id : string) : result RhiTradeSourceIngestErrorKind ConfiguredSource :=
  reject_if (negb (writable host)) InvalidMode ;?
  configured_source_new (host_policy host) normalized id.

(** [others] is what other writers commit while the fetch is awaited; [None] when the
    fetch runs out of fuel, which it does not ([fetch_source_total]). *)
Definition ingest_rhi_trade_source `{Sha256, JsonValue V, !JsonWriter V, SourceTransport W,
    TradeIngest.EventLibrary, TradeIngest.JsonReader} (host : RhiStateHost) (normalized : V) (id : string)
    (trade_id : bytes) (attempt : RhiTradeSourceAttempt) (others : source_db → source_db) (w : W)
    (db : source_db) :
    option (result RhiTradeSourceIngestErrorKind RhiTradeSourceIngestOutcome * W * source_db) :=
  match validate_source host normalized id with
  | Err e => Some (Err e, w, db)
  | Ok source =>
      match read_initial_state source trade_id db with
      | (Err e, db) => Some (Err e, w, db)
      | (Ok initial, db) =>
          '(fetched, w) ← fetch_source source trade_id attempt (in_checkpoint initial) w;
          match fetched with
          | Err e => Some (Err e, w, others db)
          | Ok fetched =>
              let '(res, db) := commit_source_result source trade_id attempt initial fetched (others db) in
              Some (res, w, db)
          end
      end
  end.

Definition ingest_rhi_subscribed_trade_event `{Sha256, JsonValue V, !JsonWriter V, SourceTransport W}
    (host : RhiStateHost) (normalized : V) (id : string)
    (admitted : Evidence.RhiAdmittedTradeMutationEvent) (attempt : RhiTradeSourceAttempt)
    (others : source_db → source_db) (db : source_db) :
    result RhiTradeSourceIngestErrorKind RhiTradeSourceIngestOutcome * source_db :=
  let checked :=
    let? source := validate_source host normalized id in
    reject_if ((maximum_bytes source <? Z.of_nat (length (Evidence.adm_original admitted)))
               || (maximum_events source =? 0)) InvalidInput ;?
    Ok source in
  let trade_id := Evidence.adm_trade_id admitted in
  match checked with
  | Err e => (Err e, db)
  | Ok source =>
      let cursor := MkCursor (Evidence.adm_created_at admitted) (Evidence.adm_event_id admitted) in
      match read_initial_state source trade_id db with
      | (Err e, db) => (Err e, db)
      | (Ok initial, db) =>
          let fetched := MkFetched Complete 1 0 [admitted] 0 (Some cursor) in
          commit_source_result source trade_id attempt initial fetched (others db)
      end
  end.
End ingestion.

(** ** What a commit leaves *)

Record source_inv (db : source_db) : Prop := {
  si_evidence : Evidence.evidence_inv (sd_evidence db);
  si_checkpoints : rows_ok (sd_checkpoints db) = true;
  si_dirty : rows_ok (sd_dirty db) = true;
}.

(** The three facts of an admitted event are in the tables. *)
Definition stored (source_id : string) (policy : bytes) (db : Evidence.evidence_db)
    (a : Evidence.RhiAdmittedTradeMutationEvent) : Prop :=
  ∃ r, Evidence.from_admitted a = Ok r ∧
    Evidence.mutations db !! Evidence.mutation_id r = Some (Evidence.mutation_of r) ∧
    Evidence.events db !! admitted_key a =
      Some (Evidence.event_of r (Evidence.authored_at_unix_s r)) ∧
    Evidence.observation_key_of (from_parts source_id policy a) ∈ Evidence.observations db.

Lemma stored_extends id pol db db' a : extends db db' → stored id pol db a → stored id pol db' a.
Proof.
  intros [Hm He Ho] (r & Hr & H1 & H2 & H3). exists r. split_and!; [done| | |set_solver].
  - by eapply lookup_weaken.
  - by eapply lookup_weaken.
Qed.

Lemma from_admitted_key a r : Evidence.from_admitted a = Ok r → Evidence.event_key r = admitted_key a.
Proof. unfold Evidence.from_admitted. intros Hr. by inv_ok. Qed.

Lemma count_Ok n b m : count n b = Ok m → m = n + (if b then 1 else 0).
Proof.
  unfold count, u32_checked_add. intros Hc. apply ok_or_Ok in Hc. destruct (_ <=? _); naive_solver.
Qed.

Lemma persist_all_Ok id pol l n db n' db' :
  Evidence.evidence_inv db → persist_all id pol l n db = Ok (n', db') →
  Evidence.evidence_inv db' ∧ extends db db' ∧ Forall (stored id pol db') l ∧
  n_mutations n' - n_mutations n =
    Z.of_nat (size (Evidence.mutations db')) - Z.of_nat (size (Evidence.mutations db)) ∧
  n_events n' - n_events n =
    Z.of_nat (size (Evidence.events db')) - Z.of_nat (size (Evidence.events db)).
Proof.
  revert n db; induction l as [|a l IH]; intros n db Hinv Hp; simpl in Hp.
  - injection Hp as <- <-. split_and!; done || lia.
  - bind Hp as r Hr. apply map_err_Ok in Hr. bind Hp as po Hpo. destruct po as [out db1].
    apply map_err_Ok, Evidence.persist_Ok in Hpo
      as (Hinv1 & Hm & He & Ho & Hms & Hes & Hmi & Hei & _); [|done].
    bind Hp as m Hcm. bind Hp as e Hce. bind Hp as o Hco. apply count_Ok in Hcm, Hce.
    destruct (insert_counts _ _ _ _ Hms Hmi) as [Hm1 Hm2]. rewrite <- Hm in Hm1, Hm2.
    destruct (insert_counts _ _ _ _ Hes Hei) as [He1 He2]. rewrite <- He in He1, He2.
    apply IH in Hp as (Hinv' & Hext & Hall & H1 & H2); [|done]. simpl in *.
    assert (extends db db1) as Hext1 by (split; [done|done|set_solver]).
    split_and!; [done|by etrans| |lia|lia]. constructor; [|done].
    apply (stored_extends _ _ db1); [done|]. exists r. rewrite <- (from_admitted_key a r) by done.
    split_and!; [done|by rewrite Hm, lookup_insert_eq|by rewrite He, lookup_insert_eq|set_solver].
Qed.

Lemma counts_new_evidence id pol l db n db' :
  Evidence.evidence_inv db → persist_all id pol l (MkCounts 0 0 0) db = Ok (n, db') →
  negb (n_mutations n =? 0) || negb (n_events n =? 0) = true ↔ new_evidence db db'.
Proof.
  intros Hinv Hp. apply persist_all_Ok in Hp as (_ & [Hm He _] & _ & H1 & H2); [|done]. simpl in *.
  rewrite orb_true_iff, !negb_true_iff, !Z.eqb_neq. unfold new_evidence.
  rewrite <- (grown_neq _ _ Hm), <- (grown_neq _ _ He). lia.
Qed.

(** The outcome of the two writes that follow the evidence. *)
Definition dirty_step (source : ConfiguredSource) (trade_id : bytes) (attempt : RhiTradeSourceAttempt)
    (initial : InitialState) (grew : Prop) (out : RhiTradeSourceIngestOutcome) (db db' : source_db) : Prop :=
  (out_dirty_generation_advanced out = true ↔ grew) ∧
  (grew →
     let g := match in_dirty initial with None => 1 | Some d => generation d + 1 end in
     out_dirty_generation out = Some g ∧
     read_dirty trade_id (sd_dirty db') = Ok (Some (MkDirty g (policy source) (attempt_observed_at attempt)))) ∧
  (¬ grew → sd_dirty db' = sd_dirty db ∧ out_dirty_generation out = generation <$> in_dirty initial) ∧
  (∀ trade', trade' ≠ trade_id → read_dirty trade' (sd_dirty db') = read_dirty trade' (sd_dirty db)).

(** The order of cursors: an earlier second, or the same second and a smaller identity. *)
Definition cursor_before (c d : RhiTradeSourceCursor) : Prop :=
  created_at_unix_seconds c < created_at_unix_seconds d ∨
  created_at_unix_seconds c = created_at_unix_seconds d ∧
  bytes_cmp (cursor_event_id c) (cursor_event_id d) = Lt.

Definition cursor_reached (c d : RhiTradeSourceCursor) : Prop := c = d ∨ cursor_before c d.

(** The checkpoint is to move to a cursor: a complete attempt delivered it, and it is later than
    the checkpoint the attempt started from, if any. *)
Definition moves_to (fetched : FetchedSource) (initial : InitialState)
    (candidate : RhiTradeSourceCursor) : Prop :=
  completion fetched = Complete ∧ fs_cursor_candidate fetched = Some candidate ∧
  ∀ c, in_checkpoint initial = Some c → cursor_before (cursor c) candidate.

Definition checkpoint_step (source : ConfiguredSource) (trade_id : bytes)
    (attempt : RhiTradeSourceAttempt) (initial : InitialState) (fetched : FetchedSource)
    (out : RhiTradeSourceIngestOutcome) (db db' : source_db) : Prop :=
  let read db := read_checkpoint (source_id source) (policy source) trade_id (sd_checkpoints db) in
  (out_checkpoint_advanced out = true ↔ ∃ candidate, moves_to fetched initial candidate) ∧
  (∀ candidate, moves_to fetched initial candidate →
     out_checkpoint out = Some candidate ∧
     let revision := match in_checkpoint initial with None => 1 | Some c => checkpoint_revision c + 1 end in
     read db' = Ok (Some (MkCheckpoint candidate revision (attempt_observed_at attempt)))) ∧
  (¬ (∃ candidate, moves_to fetched initial candidate) →
     sd_checkpoints db' = sd_checkpoints db ∧ out_checkpoint out = cursor <$> in_checkpoint initial) ∧
  (∀ source' policy' trade', (source', policy', trade') ≠ (source_id source, policy source, trade_id) →
     read_checkpoint source' policy' trade' (sd_checkpoints db') =
     read_checkpoint source' policy' trade' (sd_checkpoints db)).

Lemma cursor_lt c d : is_lt (compare_cursor c d) = true ↔ cursor_before c d.
Proof.
  unfold compare_cursor, cmp_then, cmp_on, cursor_before.
  destruct (Z.compare_spec (created_at_unix_seconds c) (created_at_unix_seconds d)); simpl; [|naive_solver lia..].
  destruct (bytes_cmp _ _); naive_solver lia.
Qed.

Lemma cursor_le c d : is_le (compare_cursor c d) = true ↔ cursor_reached c d.
Proof.
  unfold cursor_reached. rewrite <- cursor_lt. destruct (compare_cursor c d) eqn:Hc; simpl.
  - apply compare_cursor_eq in Hc. naive_solver.
  - naive_solver.
  - split; [done|]. intros [->|]; [|done]. by rewrite cmp_refl in Hc.
Qed.

Lemma advances_iff fetched initial :
  advances fetched initial = true ↔ ∃ candidate, moves_to fetched initial candidate.
Proof.
  unfold advances, moves_to. destruct (completion fetched); simpl; [|naive_solver..].
  destruct (fs_cursor_candidate fetched) as [m|]; simpl; [|naive_solver].
  destruct (in_checkpoint initial) as [c|]; simpl; [rewrite cursor_lt|]; naive_solver.
Qed.

Record committed (source : ConfiguredSource) (trade_id : bytes) (attempt : RhiTradeSourceAttempt)
    (initial : InitialState) (fetched : FetchedSource) (out : RhiTradeSourceIngestOutcome)
    (db db' : source_db) : Prop := {
  co_fence : read_state source trade_id db = Ok (initial, db);
  co_inv : source_inv db';
  co_extends : extends (sd_evidence db) (sd_evidence db');
  co_stored : Forall (stored (source_id source) (policy source) (sd_evidence db')) (fs_admitted fetched);
  co_dirty : dirty_step source trade_id attempt initial
               (new_evidence (sd_evidence db) (sd_evidence db')) out db db';
  co_checkpoint : checkpoint_step source trade_id attempt initial fetched out db db';
  co_completion : out_completion out = completion fetched;
}.

(** The dirty generation after the evidence, in the two branches of the commit. *)
Lemma dirty_branch trade pol observed (initial : option DirtyState) (grew : bool) rows g rows' :
  rows_ok rows = true → read_dirty trade rows = Ok initial →
  (if grew then
     let? (g, rows) := advance_dirty_generation trade pol observed initial rows in Ok (Some g, rows)
   else Ok (generation <$> initial, rows)) = Ok (g, rows') →
  rows_ok rows' = true ∧
  (grew = true →
     let n := match initial with None => 1 | Some d => generation d + 1 end in
     g = Some n ∧ read_dirty trade rows' = Ok (Some (MkDirty n pol observed))) ∧
  (grew = false → rows' = rows ∧ g = generation <$> initial) ∧
  (∀ trade', trade' ≠ trade → read_dirty trade' rows' = read_dirty trade' rows).
Proof.
  intros Hok Hr Hb. destruct grew.
  - bind Hb as x Hx. destruct x as [n rows1]. injection Hb as <- <-.
    apply advance_dirty_Ok with (expected := initial) in Hx as (? & ? & -> & _ & ?); [|done..].
    by split_and!.
  - injection Hb as <- <-. by split_and!.
Qed.

(** The checkpoint, in the two branches of the commit. *)
Lemma checkpoint_branch id pol trade at_ fetched initial rows ck rows' :
  rows_ok rows = true → read_checkpoint id pol trade rows = Ok (in_checkpoint initial) →
  (if advances fetched initial then
     let? candidate := ok_or (fs_cursor_candidate fetched) OpSourceStorage in
     let? rows := write_checkpoint id pol trade (in_checkpoint initial) candidate at_ rows in
     Ok (Some candidate, rows)
   else Ok (cursor <$> in_checkpoint initial, rows)) = Ok (ck, rows') →
  rows_ok rows' = true ∧
  (∀ candidate, moves_to fetched initial candidate →
     ck = Some candidate ∧
     let revision := match in_checkpoint initial with None => 1 | Some c => checkpoint_revision c + 1 end in
     read_checkpoint id pol trade rows' = Ok (Some (MkCheckpoint candidate revision at_))) ∧
  (advances fetched initial = false → rows' = rows ∧ ck = cursor <$> in_checkpoint initial) ∧
  (∀ source' policy' trade', (source', policy', trade') ≠ (id, pol, trade) →
     read_checkpoint source' policy' trade' rows' = read_checkpoint source' policy' trade' rows).
Proof.
  intros Hok Hread Hz. destruct (advances fetched initial) eqn:Ha.
  - bind Hz as candidate Hcand. apply ok_or_Ok in Hcand. bind Hz as rows1 Hw. injection Hz as <- <-.
    apply write_checkpoint_Ok with (current := in_checkpoint initial) in Hw as (? & ? & _ & ?); [|done..].
    split_and!; try done. intros m (_ & Hm & _). rewrite Hcand in Hm. by injection Hm as <-.
  - injection Hz as <- <-. split_and!; try done. intros m Hm.
    rewrite (proj2 (advances_iff _ _)) in Ha by (by exists m). done.
Qed.

Lemma commit_operation_Ok source trade_id attempt initial fetched db out db' :
  source_inv db → commit_operation source trade_id attempt initial fetched db = Ok (out, db') →
  committed source trade_id attempt initial fetched out db db'.
Proof.
  intros [Hev Hck Hdi] Hc. unfold commit_operation in Hc.
  bind Hc as current Hcur. bind Hc as dirty Hdirty.
  destruct (bool_decide_reflect (current = in_checkpoint initial)) as [->|]; [|done].
  bind Hc as u Hu. apply reject_if_Ok, negb_false_iff, bool_decide_eq_true in Hu. subst dirty.
  bind Hc as k Hk. bind Hc as x Hx. destruct x as [n evidence].
  pose proof (counts_new_evidence _ _ _ _ _ _ Hev Hx) as Hgrew.
  apply persist_all_Ok in Hx as (Hev' & Hext & Hall & _); [|done].
  bind Hc as y Hy. destruct y as [g drows].
  destruct (dirty_branch _ _ _ _ _ _ _ _ Hdi Hdirty Hy) as (Hdi' & Hd1 & Hd2 & Hd3).
  bind Hc as z Hz. destruct z as [ck crows]. inv_ok.
  destruct (checkpoint_branch _ _ _ _ _ _ _ _ _ Hck Hcur Hz) as (Hck' & Hc1 & Hc2 & Hc3).
  split; simpl; try done.
  - unfold read_state. rewrite Hcur. simpl. rewrite Hdirty. simpl. by destruct initial.
  - unfold dirty_step. simpl. rewrite <- Hgrew. split_and!; try done. by intros ?%not_true_is_false%Hd2.
  - unfold checkpoint_step. simpl. rewrite <- advances_iff. split_and!; try done.
    by intros ?%not_true_is_false%Hc2.
Qed.

(** ** The entry points on any host *)

Section hosts.
Context `{TransactionLaws source_db}.

Lemma map_transaction_error_unknown e :
  map_transaction_error e = CommitOutcomeUnknown ↔ commit_outcome_unknown e = true.
Proof.
  unfold map_transaction_error. destruct (commit_outcome_unknown e); [done|]. split; [|done].
  by destruct (operation_error e) as [[]|].
Qed.

(** What a host does with the commit of a result. *)
Lemma commit_source_result_cases source trade_id attempt initial fetched db res db' :
  source_inv db → commit_source_result source trade_id attempt initial fetched db = (res, db') →
  match res with
  | Ok out => committed source trade_id attempt initial fetched out db db'
  | Err CommitOutcomeUnknown =>
      ∃ out, committed source trade_id attempt initial fetched out db db' ∨
             (db' = db ∧ ∃ db1, committed source trade_id attempt initial fetched out db db1)
  | Err _ => db' = db
  end.
Proof.
  intros Hinv. unfold commit_source_result.
  destruct (transaction _ db) as [[out|e] db1] eqn:Htx; intros [= <- <-]; simpl.
  - apply tx_committed in Htx. by apply commit_operation_Ok.
  - pose proof (map_transaction_error_unknown e) as Hu. destruct (commit_outcome_unknown e) eqn:Hce.
    + rewrite (proj2 Hu eq_refl). destruct (tx_unknown _ _ _ _ Htx Hce) as (out & db2 & Hop & Hdb).
      apply commit_operation_Ok in Hop; [|done]. exists out. destruct Hdb as [-> | ->]; [right|by left].
      split; [done|]. by eexists.
    + destruct (tx_rolled_back _ _ _ _ Htx Hce) as [-> _].
      destruct (map_transaction_error e); try done. by discriminate (proj1 Hu eq_refl).
Qed.

(** Reading changes nothing on any host. *)
Lemma read_initial_state_cases source trade_id db res db' :
  read_initial_state source trade_id db = (res, db') →
  db' = db ∧ ∀ initial, res = Ok initial → read_state source trade_id db = Ok (initial, db).
Proof.
  assert (∀ x, read_state source trade_id db = Ok x → x.2 = db) as Hsame.
  { intros x Hx. unfold read_state in Hx. by inv_ok. }
  unfold read_initial_state.
  destruct (transaction _ db) as [[initial|e] db1] eqn:Htx; intros [= <- <-]; simpl.
  - apply tx_committed in Htx. pose proof (Hsame _ Htx) as Hdb. simpl in Hdb. subst db1.
    split; [done|]. by intros ? [= <-].
  - split; [|done]. destruct (commit_outcome_unknown e) eqn:Hce.
    + destruct (tx_unknown _ _ _ _ Htx Hce) as (x & db2 & Hop & Hdb). apply Hsame in Hop. simpl in Hop.
      by destruct Hdb; subst.
    + by destruct (tx_rolled_back _ _ _ _ Htx Hce) as [-> _].
Qed.

Context `{Sha256, JsonValue V, !JsonWriter V, SourceTransport W, TradeIngest.EventLibrary,
  TradeIngest.JsonReader}.

Lemma ingest_Ok host normalized id trade_id attempt others w db out w' db' :
  source_inv (others db) →
  ingest_rhi_trade_source host normalized id trade_id attempt others w db = Some (Ok out, w', db') →
  ∃ source initial fetched,
    validate_source host normalized id = Ok source ∧ source_ok source ∧
    read_state source trade_id db = Ok (initial, db) ∧
    fetch_source source trade_id attempt (in_checkpoint initial) w = Some (Ok fetched, w') ∧
    committed source trade_id attempt initial fetched out (others db) db'.
Proof.
  intros Hinv. unfold ingest_rhi_trade_source.
  destruct (validate_source host normalized id) as [source|] eqn:Hv; [|done].
  assert (source_ok source) as Hsok.
  { unfold validate_source in Hv. bind Hv as u Hu. by apply configured_source_ok in Hv as (? & _). }
  destruct (read_initial_state source trade_id db) as [[initial|] db1] eqn:Hr; [|done].
  apply read_initial_state_cases in Hr as [-> Hr]. specialize (Hr _ eq_refl).
  destruct (fetch_source _ _ _ _ w) as [[[fetched|] w1]|] eqn:Hf; simpl; [|done..].
  destruct (commit_source_result _ _ _ _ _ (others db)) as [res db1] eqn:Hc. intros [= -> -> ->].
  apply commit_source_result_cases in Hc; [|done]. by exists source, initial, fetched.
Qed.

(** ** Properties *)

(** C5. The commit of a source result implements its specification on any
    transaction host: on success it was fenced (the checkpoint and the dirty
    generation were still the ones the fetch started from), every admitted event is
    stored and history only grew, the dirty generation of the trade advanced by one
    exactly when the evidence is new, and the checkpoint moved, by one revision and to the
    candidate of the attempt, exactly when the attempt is [Complete] and its candidate is at
    a later second than the checkpoint or at the same second with a greater identity (or
    there was no checkpoint); otherwise it stays, and every other scope is untouched.  An unknown commit outcome leaves the state before or such a state
    after, and every other failure leaves the state as it was. *)
Theorem commit_refines_specification source trade_id attempt initial fetched db res db' :
  source_inv db → commit_source_result source trade_id attempt initial fetched db = (res, db') →
  match res with
  | Ok out => committed source trade_id attempt initial fetched out db db'
  | Err CommitOutcomeUnknown =>
      ∃ out, committed source trade_id attempt initial fetched out db db' ∨
             (db' = db ∧ ∃ db1, committed source trade_id attempt initial fetched out db db1)
  | Err _ => db' = db
  end.
Proof. apply commit_source_result_cases. Qed.

(** After a complete attempt the checkpoint has reached the row of every event it stored. *)
Lemma committed_reaches source trade_id attempt initial fetched out db db' :
  committed source trade_id attempt initial fetched out db db' → completion fetched = Complete →
  match fs_cursor_candidate fetched with
  | None => fs_admitted fetched = []
  | Some m => m ∈ map admitted_cursor (fs_admitted fetched) ∧
              ∀ a, a ∈ fs_admitted fetched → is_le (compare_cursor (admitted_cursor a) m)
  end →
  ∀ b, b ∈ fs_admitted fetched →
    ∃ row c, Evidence.events (sd_evidence db') !! admitted_key b = Some row ∧
      read_checkpoint (source_id source) (policy source) trade_id (sd_checkpoints db') = Ok (Some c) ∧
      cursor_reached (MkCursor (Evidence.er_authored_at_unix_s row) (Evidence.adm_event_id b)) (cursor c).
Proof.
  intros [Hfence _ _ Hall _ Hck _] Hcomplete Hcur b Hb.
  destruct (elem_of_Forall _ _ _ Hall Hb) as (r & Hr & _ & Hrow & _). eexists. rewrite Hrow. simpl.
  assert (Evidence.authored_at_unix_s r = Evidence.adm_created_at b) as ->.
  { unfold Evidence.from_admitted in Hr. by inv_ok. }
  destruct (fs_cursor_candidate fetched) as [m|] eqn:Hcand.
  2:{ rewrite Hcur in Hb. by apply not_elem_of_nil in Hb. }
  destruct Hcur as [_ Hmax]. destruct Hck as (_ & Hadv & Hnot & _).
  specialize (Hmax b Hb). apply Is_true_true in Hmax.
  destruct (advances fetched initial) eqn:Hadvances.
  - destruct (proj1 (advances_iff _ _) Hadvances) as (m' & Hm'). destruct (Hadv _ Hm') as [_ Hread].
    destruct Hm' as (_ & Hm' & _). rewrite Hcand in Hm'. injection Hm' as <-.
    eexists. split_and!; [done|exact Hread|]. by apply cursor_le in Hmax.
  - destruct Hnot as [Hrows _]. { rewrite <- advances_iff. by rewrite Hadvances. }
    rewrite Hrows. unfold advances in Hadvances. rewrite Hcomplete, Hcand in Hadvances. simpl in Hadvances.
    destruct (in_checkpoint initial) as [c|] eqn:Hc; [|done]. simpl in Hadvances.
    unfold read_state in Hfence. bind Hfence as c' Hc'. bind Hfence as d' Hd'. injection Hfence as Hi.
    rewrite <- Hi in Hc. simpl in Hc. subst c'. exists c. split_and!; [done..|]. apply cursor_le, Is_true_true.
    eapply is_le_trans; [by apply Is_true_true|]. rewrite is_lt_swap in Hadvances.
    apply negb_false_iff in Hadvances. by rewrite Hadvances.
Qed.

(** Ingestion is fenced against other writers: whatever they commit while the
    fetch is awaited, an ingestion succeeds only when the checkpoint and the dirty
    generation of its trade are still the ones it started from, and a failed one
    leaves the state as it found it unless the commit outcome is unknown. *)
Theorem ingestion_is_fenced host normalized id trade_id attempt others w db res w' db' :
  source_inv (others db) →
  ingest_rhi_trade_source host normalized id trade_id attempt others w db = Some (res, w', db') →
  match res with
  | Ok _ => ∃ source initial,
      validate_source host normalized id = Ok source ∧
      read_state source trade_id db = Ok (initial, db) ∧
      read_state source trade_id (others db) = Ok (initial, others db) ∧ source_inv db' ∧
      extends (sd_evidence (others db)) (sd_evidence db')
  | Err CommitOutcomeUnknown => True
  | Err _ => db' = db ∨ db' = others db
  end.
Proof.
  intros Hinv. destruct res as [out|e].
  - intros (source & initial & fetched & Hv & _ & Hr & _ & Hc)%ingest_Ok; [|done].
    destruct Hc as [Hf Hi He _ _ _ _]. exists source, initial. by split_and!.
  - unfold ingest_rhi_trade_source.
    assert (∀ x, x = db ∨ x = others db →
      match e with CommitOutcomeUnknown => True | _ => x = db ∨ x = others db end) as Hdone
      by (intros; by destruct e).
    destruct (validate_source host normalized id) as [source|]; [|by intros [=]; subst; apply Hdone; auto].
    destruct (read_initial_state source trade_id db) as [ri db1] eqn:Hr.
    apply read_initial_state_cases in Hr as [-> _]. destruct ri as [initial|]; [|by intros [=]; subst; apply Hdone; auto].
    destruct (fetch_source _ _ _ _ w) as [[[fetched|] w1]|]; simpl; [|by intros [=]; subst; apply Hdone; auto|done].
    destruct (commit_source_result _ _ _ _ _ (others db)) as [res db1] eqn:Hc. intros [= -> -> ->].
    apply commit_source_result_cases in Hc; [|done]. by destruct e; try (by right).
Qed.

(** C26. The checkpoint only passes delivered events that are stored. A complete ingestion
    leaves every event of the delivered pages that the admission accepts for the trade in
    the evidence tables, and the checkpoint has reached the stored row of each of them: it is
    at its second and identity, or at a later second, or at the same second with a greater
    identity. An ingestion that is not complete leaves every checkpoint as it was. *)
Theorem complete_ingestion_stores_everything host normalized id trade_id attempt others w db out w' db' :
  source_inv (others db) →
  ingest_rhi_trade_source host normalized id trade_id attempt others w db = Some (Ok out, w', db') →
  (out_completion out = Complete →
   ∃ source pages,
     validate_source host normalized id = Ok source ∧ delivers w pages w' ∧
     Forall (λ x, whole_page (fingerprint (relay_url source)) x.2) pages ∧
     ∀ e a, e ∈ concat (map (λ x, events x.2) pages) → admits source trade_id attempt e a →
       ∃ row c, Evidence.events (sd_evidence db') !! admitted_key a = Some row ∧
         read_checkpoint (source_id source) (policy source) trade_id (sd_checkpoints db') = Ok (Some c) ∧
         cursor_reached (MkCursor (Evidence.er_authored_at_unix_s row) (Evidence.adm_event_id a)) (cursor c)) ∧
  (out_completion out ≠ Complete → sd_checkpoints db' = sd_checkpoints (others db)).
Proof.
  intros Hinv (source & initial & fetched & Hv & Hs & _ & Hf & Hc)%ingest_Ok; [|done].
  rewrite (co_completion _ _ _ _ _ _ _ _ Hc). split.
  - intros Hcomplete. destruct (fetch_source_complete _ _ _ _ _ _ _ Hs Hf Hcomplete)
      as (pages & Hd & Hw & _ & _ & Hcompl & _ & _ & Hcur).
    exists source, pages. split_and!; try done. intros e a He Ha.
    specialize (Hcompl e a He Ha). apply list_elem_of_fmap in Hcompl as (b & Hk & Hb).
    destruct (committed_reaches _ _ _ _ _ _ _ _ Hc Hcomplete Hcur b Hb) as (row & c & Hrow & Hread & Hle).
    exists row, c. injection Hk as Hid Hsig. unfold admitted_key in *. by rewrite Hid, Hsig.
  - intros Hincomplete. destruct (co_checkpoint _ _ _ _ _ _ _ _ Hc) as (_ & _ & Hnot & _).
    apply Hnot. by intros (m & Hcomplete & _).
Qed.
End hosts.

(** ** A concrete ingestion: the script of [SourceFetch], from an empty state *)

#[local] Existing Instance checksum.
#[local] Existing Instance json_value.
#[local] Existing Instance json_writer.
#[local] Existing Instance TradeIngest.demo_reader.
#[local] Existing Instance SourceFetch.scripted_transport.
#[local] Existing Instance SourceFetch.scripted_library.
#[local] Existing Instance reliable_host.
#[local] Existing Instance reliable_host_laws.

Definition demo_document : json :=
  JObject [
    ("relays", JArray [JObject [("id", JString "relay-a"); ("url", JString "wss://relay.example");
                                ("read", JBool true)]]);
    ("evidence", JObject [("contract", JString "trade-evidence"); ("contract_version", JNumber 1);
       ("policy_id", JString "default");
       ("sources", JArray [JObject [("source_id", JString "primary"); ("relay_id", JString "relay-a");
          ("kind", JString "nostr_relay"); ("selector", JString "trade_mutation_lineage_v1");
          ("required", JBool true); ("deadline_ms", JNumber 5000); ("lookback_seconds", JNumber 3600);
          ("overlap_seconds", JNumber 300)]])]);
    ("resource_limits", JObject
       [("source_results", JObject [("events", JNumber 8); ("bytes", JNumber 64)]);
        ("events", JObject [("wire_bytes", JNumber 4096); ("content_bytes", JNumber 1024);
           ("tag_count", JNumber 4); ("tag_total_elements", JNumber 8);
           ("tag_element_bytes", JNumber 64); ("tag_total_bytes", JNumber 128)])])].

Definition demo_policy : bytes :=
  Eval vm_compute in
    match Metadata.evidence_policy_digest demo_document with Ok d => d | Err _ => [] end.

Definition demo_host : RhiStateHost := MkHost true demo_policy.

Definition demo_state : source_db := SourceDb Evidence.empty_db [] [].

Definition demo_ingest :=
  ingest_rhi_trade_source demo_host demo_document "primary" (repeat 8 16) demo_attempt (λ db, db)
    demo_pages demo_state.

(** Three events stored, the checkpoint at the latest, and a first dirty generation. *)
Definition demo_outcome : RhiTradeSourceIngestOutcome :=
  MkOutcome Complete 5 3 1 1 3 3 3 (Some (MkCursor 90 (repeat 49 32))) true (Some 1) true.

Definition demo_after : source_db :=
  match demo_ingest with Some (_, _, db) => db | None => demo_state end.

Lemma demo_ingest_result : (λ r, r.1.1) <$> demo_ingest = Some (Ok demo_outcome).
Proof. vm_compute. reflexivity. Qed.

Lemma demo_ingested : ∃ w', demo_ingest = Some (Ok demo_outcome, w', demo_after).
Proof.
  pose proof demo_ingest_result as Hr. unfold demo_after.
  destruct demo_ingest as [[[r w'] db']|]; [|done]. injection Hr as ->. by exists w'.
Qed.

Lemma demo_state_inv : source_inv demo_state.
Proof. split; [apply Evidence.empty_inv|done|done]. Qed.

Lemma ingestion_is_fenced_witness :
  source_inv demo_state ∧ extends (sd_evidence demo_state) (sd_evidence demo_after).
Proof.
  destruct demo_ingested as [w' Hi].
  destruct (ingestion_is_fenced demo_host demo_document "primary" (repeat 8 16) demo_attempt (λ db, db)
    demo_pages demo_state _ _ _ demo_state_inv Hi) as (source & initial & _ & _ & _ & _ & Hext).
  exact (conj demo_state_inv Hext).
Defined.

Lemma complete_ingestion_stores_everything_witness :
  size (Evidence.events (sd_evidence demo_after)) = 3%nat ∧
  ∃ source pages w', validate_source demo_host demo_document "primary" = Ok source ∧
    delivers demo_pages pages w' ∧
    ∀ e a, e ∈ concat (map (λ x, events x.2) pages) → admits source (repeat 8 16) demo_attempt e a →
      ∃ row c, Evidence.events (sd_evidence demo_after) !! admitted_key a = Some row ∧
        read_checkpoint (source_id source) (policy source) (repeat 8 16) (sd_checkpoints demo_after) = Ok (Some c) ∧
        cursor_reached (MkCursor (Evidence.er_authored_at_unix_s row) (Evidence.adm_event_id a)) (cursor c).
Proof.
  split; [vm_compute; reflexivity|]. destruct demo_ingested as [w' Hi].
  destruct (complete_ingestion_stores_everything demo_host demo_document "primary" (repeat 8 16)
    demo_attempt (λ db, db) demo_pages demo_state _ _ _ demo_state_inv Hi) as [Hcomplete _].
  destruct (Hcomplete eq_refl) as (source & pages & Hv & Hd & _ & Hall). exists source, pages, w'. split_and!; done.
Defined.

(** A checkpoint written since: the commit of the same result is refused. *)
Definition demo_moved : source_db :=
  SourceDb Evidence.empty_db
    [CheckpointRow "primary" Evidence.SOURCE_SELECTOR (repeat 7 32) (repeat 8 16) 95 (repeat 1 32) 1 99] [].

Lemma demo_moved_inv : source_inv demo_moved.
Proof. split; [apply Evidence.empty_inv|vm_compute; reflexivity|reflexivity]. Qed.

Definition demo_refused :=
  commit_source_result demo_source (repeat 8 16) demo_attempt (MkInitial None None) demo_result demo_moved.

Lemma demo_refusal : demo_refused.1 = Err GenerationConflict.
Proof. vm_compute. reflexivity. Qed.

(** From the empty state it is committed, and the checkpoint moves to its candidate. *)
Definition demo_committed :=
  commit_source_result demo_source (repeat 8 16) demo_attempt (MkInitial None None) demo_result demo_state.

Definition demo_checkpoint : Checkpoint :=
  MkCheckpoint (MkCursor 90 (repeat 49 32)) 1 (attempt_observed_at demo_attempt).

Lemma demo_commits : ∃ out, demo_committed.1 = Ok out.
Proof. eexists. vm_compute. reflexivity. Qed.

Lemma commit_refines_specification_witness :
  demo_refused.2 = demo_moved ∧
  read_checkpoint "primary" (policy demo_source) (repeat 8 16) (sd_checkpoints demo_committed.2) =
    Ok (Some demo_checkpoint).
Proof.
  split.
  - pose proof (commit_refines_specification demo_source (repeat 8 16) demo_attempt (MkInitial None None)
      demo_result demo_moved _ _ demo_moved_inv (surjective_pairing demo_refused)) as Hc.
    rewrite demo_refusal in Hc. exact Hc.
  - pose proof (commit_refines_specification demo_source (repeat 8 16) demo_attempt (MkInitial None None)
      demo_result demo_state _ _ demo_state_inv (surjective_pairing demo_committed)) as Hc.
    destruct demo_commits as [out Hout]. rewrite Hout in Hc.
    destruct (co_checkpoint _ _ _ _ _ _ _ _ Hc) as (_ & Hmoves & _).
    refine (proj2 (Hmoves (MkCursor 90 (repeat 49 32)) _)). split; [reflexivity|]. split; [reflexivity|].
    intros c [=].
Defined.

End SourceCommit.
