(* ===== verification/ReconciliationAttempt.v ===== *)
(** * Reconciliation attempts: [src/src/reconciliation_attempt.rs]

    The bounded per-source plan derived from one claimed lease, and the exact
    inventory of its source results.  The theorems give the bounds of every
    request, the binding of the identities and the completeness of the result
    inventory. *)

From Stdlib Require Import Sorted.
From stdpp Require Import list strings sorting.
From S2P Require Import Prelude.
From S2P Require Import Sql.
From S2P Require Import Interfaces.
From S2P Require Import StateMetadata.
From S2P Require Import SourceIngest.
From S2P Require Import ReconciliationJob.

Module Attempt.
Import Job Source.

Definition RHI_RECONCILIATION_ATTEMPT_MAX_SOURCES : Z := 16.
Definition ATTEMPT_ID_DOMAIN : bytes := as_bytes "radroots.rhi.reconciliation_attempt.v1" ++ [0].
Definition SELECTOR_DIGEST_DOMAIN : bytes :=
  as_bytes "radroots.rhi.reconciliation_selector.v1" ++ [0].
Definition REQUEST_ID_DOMAIN : bytes :=
  as_bytes "radroots.rhi.reconciliation_source_request.v1" ++ [0].
Definition SOURCE_SELECTOR : string := "trade_mutation_lineage_v1".
Definition SOURCE_KIND : string := "nostr_relay".
Definition EVENT_KIND_COUNT : Z := 5.
Definition EVENT_KINDS : list Z := [3470; 3471; 3472; 3473; 3474].

Inductive RhiReconciliationAttemptErrorKind : Type :=
| InvalidInput | InvalidConfiguration | PolicyMismatch | LeaseExpired | ResultInventory.

Definition attempt_error_code (k : RhiReconciliationAttemptErrorKind) : string :=
  match k with
  | InvalidInput => "reconciliation_attempt_input_invalid"
  | InvalidConfiguration => "reconciliation_attempt_configuration_invalid"
  | PolicyMismatch => "reconciliation_attempt_policy_mismatch"
  | LeaseExpired => "reconciliation_attempt_lease_expired"
  | ResultInventory => "reconciliation_attempt_result_inventory_invalid"
  end.

(** ** Requests, plans and results *)

Record RhiReconciliationSourceRequest : Type := MkRequest {
  request_id_of : bytes;
  source_id : string;
  request_trade_id : bytes;
  required : bool;
  selector_digest_of : bytes;
  attempt_started_at : Z;
  deadline : Z;
  lookback_seconds : Z;
  maximum_events : Z;
  maximum_bytes : Z;
}.

Record RhiReconciliationAttemptPlan : Type := MkPlan {
  plan_id : bytes;
  plan_job_id : bytes;
  plan_input_generation : Z;
  plan_policy_digest : bytes;
  plan_started_at : Z;
  plan_deadline : Z;
  requests : list RhiReconciliationSourceRequest;
}.

Record RhiReconciliationSourceResult : Type := MkResult {
  request_id_satisfied : bytes;
  outcome : RhiTradeSourceCompletion;
  started_at : Z;
  finished_at : Z;
  accepted_event_count : Z;
  accepted_event_bytes : Z;
}.

Record RhiReconciliationAttemptResults : Type := MkResults {
  results_attempt_id : bytes;
  results : list RhiReconciliationSourceResult;
}.

Record RequestIdentityMaterial : Type := MkMaterial {
  m_attempt_id : bytes;
  m_source_id : string;
  m_required : bool;
  m_selector_digest : bytes;
  m_attempt_started_at : Z;
  m_deadline : Z;
  m_lookback_seconds : Z;
  m_maximum_events : Z;
  m_maximum_bytes : Z;
}.

(** ** Bounded configuration values *)

Definition is_ascii_lowercase (b : Z) : bool := between 97 122 b.
Definition is_ascii_digit (b : Z) : bool := between 48 57 b.

(** [value.bytes().enumerate().all(...)] *)
Definition source_id_bytes (l : bytes) : bool :=
  match l with
  | [] => true
  | first :: rest =>
      is_ascii_lowercase first
      && forallb (λ b, is_ascii_lowercase b || is_ascii_digit b || (b =? 95) || (b =? 45)) rest
  end.

Definition valid_source_id (s : string) : bool :=
  negb (length (as_bytes s) =? 0)%nat && (Z.of_nat (length (as_bytes s)) <=? 64)
  && source_id_bytes (as_bytes s).

(** [value.pointer(p).and_then(Value::as_...)] *)
Definition at_pointer `{JsonValue V} {A} (get : V → option A) (value : V) (p : string) : option A :=
  match pointer value p with Some v => get v | None => None end.

Definition bounded_source_id `{JsonValue V} (source : V) :
    result RhiReconciliationAttemptErrorKind string :=
  ok_or (filter_opt valid_source_id (at_pointer as_str source "/source_id")) InvalidConfiguration.

Definition bounded_integer `{JsonValue V} (value : V) (p : string) (minimum maximum : Z) :
    result RhiReconciliationAttemptErrorKind Z :=
  ok_or (filter_opt (between minimum maximum) (at_pointer as_u64 value p)) InvalidConfiguration.

Definition absolute_deadline (start duration_ms ceiling : Z) :
    result RhiReconciliationAttemptErrorKind Z :=
  let? d := ok_or
    (filter_opt (λ v, start <? v)
      ((λ v, Z.min v ceiling) <$>
        filter_opt (λ v, v <=? MAX_UNIX_MILLISECONDS) (u64_checked_add start duration_ms)))
    InvalidInput in
  map_err (λ _, InvalidInput) (unix_milliseconds_new d).

(** ** Identities *)

Section attempt.
Context `{Sha256}.

Definition attempt_id (job : bytes) (attempt_count : Z) : bytes :=
  sha256 (ATTEMPT_ID_DOMAIN ++ job ++ to_be_bytes 2 attempt_count).

Definition selector_digest (trade : bytes) : bytes :=
  sha256 (SELECTOR_DIGEST_DOMAIN ++ framed (as_bytes SOURCE_SELECTOR)
          ++ to_be_bytes 4 EVENT_KIND_COUNT ++ concat (map (to_be_bytes 4) EVENT_KINDS)
          ++ as_bytes "d" ++ trade).

(** The fields of a request in the order they are hashed. *)
Definition request_material (m : RequestIdentityMaterial) : bytes :=
  m_attempt_id m ++ framed (as_bytes (m_source_id m)) ++ [if m_required m then 1 else 0]
  ++ m_selector_digest m ++ to_be_bytes 8 (m_attempt_started_at m) ++ to_be_bytes 8 (m_deadline m)
  ++ to_be_bytes 8 (m_lookback_seconds m) ++ to_be_bytes 4 (m_maximum_events m)
  ++ to_be_bytes 8 (m_maximum_bytes m).

Definition request_id (m : RequestIdentityMaterial) : bytes :=
  sha256 (REQUEST_ID_DOMAIN ++ request_material m).

(** ** The plan of one claim *)

Context `{JsonValue V, !JsonWriter V}.

(** The request of one configured source. *)
Definition source_request (job : RhiReconciliationJob) (attempt : bytes) (selector : bytes)
    (start attempt_deadline_ms plan_deadline events maximum : Z) (source : V) (source_id : string) :
    result RhiReconciliationAttemptErrorKind RhiReconciliationSourceRequest :=
  let? required := ok_or (at_pointer as_bool source "/required") InvalidConfiguration in
  let? source_deadline_ms := bounded_integer source "/deadline_ms" 100 30000 in
  reject_if (attempt_deadline_ms <? source_deadline_ms) InvalidConfiguration ;?
  let? source_deadline := absolute_deadline start source_deadline_ms plan_deadline in
  let? lookback := bounded_integer source "/lookback_seconds" 60 2678400 in
  Ok (MkRequest
        (request_id (MkMaterial attempt source_id required selector start source_deadline lookback
                       events maximum))
        source_id (trade_id job) required selector start source_deadline lookback events maximum).

(** The loop over the sources, with the source identity of the previous round. *)
Fixpoint source_requests (build : V → string →
      result RhiReconciliationAttemptErrorKind RhiReconciliationSourceRequest)
    (prior : option string) (sources : list V) :
    result RhiReconciliationAttemptErrorKind (list RhiReconciliationSourceRequest) :=
  match sources with
  | [] => Ok []
  | source :: sources =>
      let? source_id := bounded_source_id source in
      reject_if
        (is_some_and (λ p, negb (is_lt (bytes_cmp (as_bytes p) (as_bytes source_id)))) prior
         || negb (bool_decide (at_pointer as_str source "/kind" = Some SOURCE_KIND))
         || negb (bool_decide (at_pointer as_str source "/selector" = Some SOURCE_SELECTOR)))
        InvalidConfiguration ;?
      let? request := build source source_id in
      let? requests := source_requests build (Some source_id) sources in
      Ok (request :: requests)
  end.

Definition from_claim (l : RhiReconciliationLease) (normalized : V) (start : Z) :
    result RhiReconciliationAttemptErrorKind RhiReconciliationAttemptPlan :=
  let job := lease_job l in
  reject_if (negb (bool_decide (state job = Leased)) || (attempt_count job =? 0)) InvalidInput ;?
  reject_if (lease_expires_at l <=? start) LeaseExpired ;?
  let? digest := map_err (λ _, InvalidConfiguration) (Metadata.evidence_policy_digest normalized) in
  reject_if (negb (bool_decide (digest = policy_digest job))) PolicyMismatch ;?
  let? configured := map_err (λ _, InvalidConfiguration) (policy_from_configuration normalized) in
  reject_if (negb (attempt_policy_matches job configured)) PolicyMismatch ;?
  let? attempt_deadline_ms :=
    bounded_integer normalized "/reconciliation/attempt_deadline_ms" 100 30000 in
  let? plan_deadline := absolute_deadline start attempt_deadline_ms (lease_expires_at l) in
  let? events := bounded_integer normalized "/resource_limits/source_results/events" 1
                   RHI_TRADE_SOURCE_RESULT_MAX_EVENTS in
  let? events := ok_or (try_from U32_MAX events) InvalidConfiguration in
  let? maximum := bounded_integer normalized "/resource_limits/source_results/bytes" 1
                    RHI_TRADE_SOURCE_RESULT_MAX_BYTES in
  let? sources := ok_or
    (filter_opt (λ s, negb (length s =? 0)%nat
                      && (Z.of_nat (length s) <=? RHI_RECONCILIATION_ATTEMPT_MAX_SOURCES))
       (at_pointer as_array normalized "/evidence/sources")) InvalidConfiguration in
  let attempt := attempt_id (id job) (attempt_count job) in
  let selector := selector_digest (trade_id job) in
  let? requests :=
    source_requests
      (source_request job attempt selector start attempt_deadline_ms plan_deadline events maximum)
      None sources in
  Ok (MkPlan attempt (id job) (input_generation job) digest start plan_deadline requests).

(** ** Results *)

Definition source_result_new (r : RhiReconciliationSourceRequest) (o : RhiTradeSourceCompletion)
    (start finish events size : Z) :
    result RhiReconciliationAttemptErrorKind RhiReconciliationSourceResult :=
  let before_deadline := finish <? deadline r in
  reject_if
    ((start <? attempt_started_at r)
     || (finish <? start)
     || (deadline r <=? start)
     || (bool_decide (o = IncompleteTimeout) && before_deadline)
     || (negb (bool_decide (o = IncompleteTimeout)) && negb before_deadline)
     || (maximum_events r <? events)
     || (maximum_bytes r <? size)
     || negb (Bool.eqb (events =? 0) (size =? 0))
     || (bool_decide (o = Unsupported) && (negb (events =? 0) || negb (size =? 0))))
    InvalidInput ;?
  Ok (MkResult (request_id_of r) o start finish events size).

(** [results.into_iter().take(n + 1)]: the iterator may be longer, or endless. *)
Definition results_new (plan : RhiReconciliationAttemptPlan)
    (offered : list RhiReconciliationSourceResult) :
    result RhiReconciliationAttemptErrorKind RhiReconciliationAttemptResults :=
  let taken := take (length (requests plan) + 1) offered in
  reject_if
    (negb (length taken =? length (requests plan))%nat
     || existsb (λ '(r, q), negb (bytes_eqb (request_id_satisfied r) (request_id_of q)))
          (combine taken (requests plan)))
    ResultInventory ;?
  Ok (MkResults (plan_id plan) taken).

(** ** Lemmas on plans *)

Lemma absolute_deadline_Ok start duration ceiling d :
  absolute_deadline start duration ceiling = Ok d →
  start < d ∧ d ≤ ceiling ∧ d ≤ start + duration ∧ d = Z.min (start + duration) ceiling ∧
  d ≤ MAX_UNIX_MILLISECONDS.
Proof.
  unfold absolute_deadline, unix_milliseconds_new. intros Hd. inv_ok.
  destruct (u64_checked_add start duration) as [v|] eqn:Hv; simpl in *; [|done].
  destruct (v <=? MAX_UNIX_MILLISECONDS) eqn:Hm; simpl in *; [|done].
  inv_int. inv_ok. to_prop. lia.
Qed.

Lemma bounded_integer_range (value : V) p lo hi x :
  bounded_integer value p lo hi = Ok x → lo ≤ x ≤ hi.
Proof. unfold bounded_integer. intros Hx. inv_ok. by inv_int. Qed.

Lemma bounded_source_id_valid (source : V) s :
  bounded_source_id source = Ok s → valid_source_id s = true.
Proof. unfold bounded_source_id. intros Hs. by inv_ok. Qed.

(** What one request of a plan for [job] is. *)
Record request_ok (job : RhiReconciliationJob) (start plan_deadline : Z)
    (q : RhiReconciliationSourceRequest) : Prop := RequestOk {
  rok_source : valid_source_id (source_id q) = true;
  rok_trade : request_trade_id q = trade_id job;
  rok_started : attempt_started_at q = start;
  rok_deadline : start < deadline q ≤ plan_deadline;
  rok_span : deadline q ≤ start + 30000;
  rok_lookback : 60 ≤ lookback_seconds q ≤ 2678400;
  rok_events : 1 ≤ maximum_events q ≤ 4096;
  rok_bytes : 1 ≤ maximum_bytes q ≤ 8388608;
  rok_id : request_id_of q =
    request_id (MkMaterial (attempt_id (id job) (attempt_count job)) (source_id q) (required q)
      (selector_digest (trade_id job)) start (deadline q) (lookback_seconds q) (maximum_events q)
      (maximum_bytes q));
}.

Definition source_lt (q q' : RhiReconciliationSourceRequest) : Prop :=
  is_lt (bytes_cmp (as_bytes (source_id q)) (as_bytes (source_id q'))).

Lemma source_request_ok job attempt start attempt_ms plan_deadline events maximum (source : V) sid q :
  attempt = attempt_id (id job) (attempt_count job) → valid_source_id sid = true →
  1 ≤ events ≤ 4096 → 1 ≤ maximum ≤ 8388608 →
  source_request job attempt (selector_digest (trade_id job)) start attempt_ms plan_deadline events
    maximum source sid = Ok q →
  request_ok job start plan_deadline q ∧ source_id q = sid.
Proof.
  unfold source_request. intros -> Hsid Hev Hmax Hq. inv_ok. to_prop. split; [|done].
  repeat match goal with
  | H : bounded_integer _ _ _ _ = Ok _ |- _ => apply bounded_integer_range in H
  | H : absolute_deadline _ _ _ = Ok _ |- _ => apply absolute_deadline_Ok in H
  end.
  split; simpl; done || lia.
Qed.

Lemma source_requests_Ok build (P : RhiReconciliationSourceRequest → Prop) (sources : list V) prior qs :
  (∀ source sid q, valid_source_id sid = true → build source sid = Ok q → P q ∧ source_id q = sid) →
  source_requests build prior sources = Ok qs →
  length qs = length sources ∧ Forall P qs ∧ StronglySorted source_lt qs ∧
  ∀ p q, prior = Some p → q ∈ qs → is_lt (bytes_cmp (as_bytes p) (as_bytes (source_id q))).
Proof.
  intros Hbuild. revert prior qs; induction sources as [|source sources IH]; intros prior qs Hqs; simpl in Hqs.
  { inv_ok. split_and!; [done|constructor|constructor|by intros ? ? _ ?%elem_of_nil]. }
  bind Hqs as sid Hsid. bind Hqs as u Hok. bind Hqs as q Hq. bind Hqs as rest Hrest. inv_ok.
  apply bounded_source_id_valid in Hsid. destruct (Hbuild _ _ _ Hsid Hq) as [HP <-].
  destruct (IH _ _ Hrest) as (Hlen & Hall & Hsorted & Hlt). to_prop.
  assert (∀ p, prior = Some p → is_lt (bytes_cmp (as_bytes p) (as_bytes (source_id q)))) as Hp.
  { intros p ->. simpl in *. by to_prop; apply Is_true_true. }
  split_and!; [simpl; lia|by constructor| |].
  - constructor; [done|]. apply List.Forall_forall. intros x Hx%list_elem_of_In. by apply (Hlt _ x).
  - intros p x Hpr [->|Hx]%elem_of_cons; [by apply Hp|].
    apply (is_le_lt_trans _ (as_bytes (source_id q))); [by apply is_lt_le, Hp|by apply (Hlt _ x)].
Qed.

Lemma from_claim_Ok l (normalized : V) start plan :
  from_claim l normalized start = Ok plan →
  let job := lease_job l in
  state job = Leased ∧ attempt_count job ≠ 0 ∧ start < lease_expires_at l ∧
  Metadata.evidence_policy_digest normalized = Ok (policy_digest job) ∧
  (∃ p, policy_from_configuration normalized = Ok p ∧ attempt_policy_matches job p = true) ∧
  plan_id plan = attempt_id (id job) (attempt_count job) ∧ plan_job_id plan = id job ∧
  plan_input_generation plan = input_generation job ∧ plan_policy_digest plan = policy_digest job ∧
  plan_started_at plan = start ∧
  start < plan_deadline plan ≤ lease_expires_at l ∧ plan_deadline plan ≤ start + 30000 ∧
  (∃ sources : list V, at_pointer as_array normalized "/evidence/sources" = Some sources ∧
     length (requests plan) = length sources) ∧ 1 ≤ Z.of_nat (length (requests plan)) ≤ 16 ∧
  Forall (request_ok job start (plan_deadline plan)) (requests plan) ∧
  StronglySorted source_lt (requests plan).
Proof.
  intros Hp job. unfold from_claim in Hp. fold job in Hp. inv_ok. to_prop.
  repeat match goal with
  | H : bounded_integer _ _ _ _ = Ok _ |- _ => apply bounded_integer_range in H
  | H : absolute_deadline _ _ _ = Ok _ |- _ => apply absolute_deadline_Ok in H
  end.
  inv_int. subst.
  match goal with H : source_requests _ _ _ = Ok _ |- _ =>
    eapply (source_requests_Ok _ (request_ok job start _)) in H as (Hlen & Hall & Hsort & _) end.
  2: { intros source sid q Hsid Hq. eapply source_request_ok; [done|done|..|exact Hq]; done. }
  match goal with H : (_ =? 0)%nat = false |- _ => apply Nat.eqb_neq in H end.
  unfold RHI_RECONCILIATION_ATTEMPT_MAX_SOURCES in *. simpl.
  split_and!; eauto; lia.
Qed.

(** The request [q] asks what the configured [source] allows: its identity, its
    requiredness and its look-back, the configured result limits, and the source's
    own deadline cut at the plan's. *)
Record source_configures (start plan_deadline events maximum : Z) (source : V)
    (q : RhiReconciliationSourceRequest) : Prop := {
  sc_source : at_pointer as_str source "/source_id" = Some (source_id q);
  sc_kind : at_pointer as_str source "/kind" = Some "nostr_relay";
  sc_selector : at_pointer as_str source "/selector" = Some "trade_mutation_lineage_v1";
  sc_required : at_pointer as_bool source "/required" = Some (required q);
  sc_lookback : at_pointer as_u64 source "/lookback_seconds" = Some (lookback_seconds q);
  sc_events : maximum_events q = events;
  sc_bytes : maximum_bytes q = maximum;
  sc_deadline : ∃ ms, at_pointer as_u64 source "/deadline_ms" = Some ms ∧
    deadline q = Z.min (start + ms) plan_deadline;
}.

Lemma bounded_integer_value (value : V) p lo hi x :
  bounded_integer value p lo hi = Ok x → at_pointer as_u64 value p = Some x.
Proof.
  unfold bounded_integer. intros Hx. inv_ok.
  destruct (at_pointer as_u64 value p) as [y|]; simpl in *; [|done].
  destruct (between lo hi y); simpl in *; by simplify_eq.
Qed.

Lemma source_request_configured job attempt selector start attempt_ms plan_deadline events maximum
    (source : V) sid q :
  source_request job attempt selector start attempt_ms plan_deadline events maximum source sid = Ok q →
  source_id q = sid ∧ at_pointer as_bool source "/required" = Some (required q) ∧
  at_pointer as_u64 source "/lookback_seconds" = Some (lookback_seconds q) ∧
  maximum_events q = events ∧ maximum_bytes q = maximum ∧
  ∃ ms, at_pointer as_u64 source "/deadline_ms" = Some ms ∧ ms ≤ attempt_ms ∧
    deadline q = Z.min (start + ms) plan_deadline.
Proof.
  unfold source_request. intros Hq. inv_ok. to_prop.
  repeat match goal with
  | H : bounded_integer _ _ _ _ = Ok _ |- _ => apply bounded_integer_value in H
  | H : absolute_deadline _ _ _ = Ok _ |- _ => apply absolute_deadline_Ok in H
  end.
  simpl. destruct_and?. split_and!; eauto.
Qed.

Lemma source_requests_configured job attempt selector start attempt_ms plan_deadline events maximum
    (sources : list V) prior qs :
  source_requests
    (source_request job attempt selector start attempt_ms plan_deadline events maximum)
    prior sources = Ok qs →
  Forall2 (source_configures start plan_deadline events maximum) sources qs.
Proof.
  revert prior qs; induction sources as [|source sources IH]; intros prior qs Hqs; simpl in Hqs.
  { inv_ok. constructor. }
  bind Hqs as sid Hsid. bind Hqs as u Hok. bind Hqs as q Hq. bind Hqs as rest Hrest. inv_ok.
  constructor; [|by eapply IH].
  apply source_request_configured in Hq as (<- & ? & ? & ? & ? & ms & ? & _ & ?).
  unfold bounded_source_id in Hsid. inv_ok. to_prop.
  by split; eauto.
Qed.

Lemma from_claim_configured l (normalized : V) start plan :
  from_claim l normalized start = Ok plan →
  ∃ (sources : list V) attempt_ms events maximum,
    at_pointer as_array normalized "/evidence/sources" = Some sources ∧
    at_pointer as_u64 normalized "/reconciliation/attempt_deadline_ms" = Some attempt_ms ∧
    at_pointer as_u64 normalized "/resource_limits/source_results/events" = Some events ∧
    at_pointer as_u64 normalized "/resource_limits/source_results/bytes" = Some maximum ∧
    plan_deadline plan = Z.min (start + attempt_ms) (lease_expires_at l) ∧
    Forall2 (source_configures start (plan_deadline plan) events maximum) sources (requests plan).
Proof.
  intros Hp. unfold from_claim in Hp. inv_ok. to_prop.
  repeat match goal with
  | H : bounded_integer _ _ _ _ = Ok _ |- _ => apply bounded_integer_value in H
  | H : absolute_deadline _ _ _ = Ok _ |- _ => apply absolute_deadline_Ok in H as (_ & _ & _ & ? & _)
  | H : source_requests _ _ _ = Ok _ |- _ => apply source_requests_configured in H
  end.
  inv_int. subst. simpl. eauto 12.
Qed.

(** The identity of a request determines its attempt and its source. *)
Lemma request_id_inj `{!Sha256Laws} m m' :
  length (m_attempt_id m) = length (m_attempt_id m') →
  Z.of_nat (length (as_bytes (m_source_id m))) ≤ U64_MAX →
  Z.of_nat (length (as_bytes (m_source_id m'))) ≤ U64_MAX →
  request_id m = request_id m' →
  (m_attempt_id m = m_attempt_id m' ∧ m_source_id m = m_source_id m') ∨ sha256_collision.
Proof.
  unfold request_id. intros Hlen Hs Hs' [Heq|]%sha256_inj_or_collision; [left|by right].
  apply app_inv_head in Heq. apply app_inj_fixed in Heq as [Hid Heq]; [|done].
  apply framed_app_inj in Heq as [Hsrc _]; [|done..]. split; [done|]. by apply as_bytes_inj.
Qed.

Lemma attempt_id_inj job n job' n' :
  length job = length job' → 0 ≤ n ≤ U16_MAX → 0 ≤ n' ≤ U16_MAX →
  attempt_id job n = attempt_id job' n' → (job = job' ∧ n = n') ∨ sha256_collision.
Proof.
  unfold attempt_id. intros Hlen Hn Hn' [Heq|]%sha256_inj_or_collision; [left|by right].
  apply app_inv_head in Heq. apply app_inj_fixed in Heq as [-> Heq]; [|done]. split; [done|].
  apply to_be_bytes_inj in Heq; [done|..]; unfold_max; simpl; lia.
Qed.

Lemma valid_source_id_length s :
  valid_source_id s = true → Z.of_nat (length (as_bytes s)) ≤ U64_MAX.
Proof. unfold valid_source_id. intros. to_prop. unfold_max. lia. Qed.

(** ** Properties *)

(** C40. Every plan is bounded as it is configured: the plan's deadline is the
    configured attempt deadline after the start, cut at the lease's expiry, and at
    most 30 seconds; the requests are the configured sources in their order, between
    1 and 16 with strictly increasing identities, each with its source's identity,
    kind, selector, requiredness and look-back, exactly the configured limits on
    events and bytes, and its source's deadline cut at the plan's; and every limit
    is inside the hard range of its setting. *)
Theorem plan_requests_are_bounded l (normalized : V) start plan :
  from_claim l normalized start = Ok plan →
  (∃ (sources : list V) attempt_ms events maximum,
     at_pointer as_array normalized "/evidence/sources" = Some sources ∧
     at_pointer as_u64 normalized "/reconciliation/attempt_deadline_ms" = Some attempt_ms ∧
     at_pointer as_u64 normalized "/resource_limits/source_results/events" = Some events ∧
     at_pointer as_u64 normalized "/resource_limits/source_results/bytes" = Some maximum ∧
     plan_deadline plan = Z.min (start + attempt_ms) (lease_expires_at l) ∧
     Forall2 (source_configures start (plan_deadline plan) events maximum) sources (requests plan)) ∧
  1 ≤ Z.of_nat (length (requests plan)) ≤ 16 ∧
  start < plan_deadline plan ≤ lease_expires_at l ∧ plan_deadline plan ≤ start + 30000 ∧
  StronglySorted source_lt (requests plan) ∧
  ∀ q, q ∈ requests plan →
    valid_source_id (source_id q) = true ∧ request_trade_id q = trade_id (lease_job l) ∧
    attempt_started_at q = start ∧ start < deadline q ≤ plan_deadline plan ∧
    60 ≤ lookback_seconds q ≤ 2678400 ∧ 1 ≤ maximum_events q ≤ 4096 ∧
    1 ≤ maximum_bytes q ≤ 8388608.
Proof.
  intros Hp. split; [by apply (from_claim_configured l)|]. apply from_claim_Ok in Hp as
    (_ & _ & _ & _ & _ & _ & _ & _ & _ & _ & Hd & Hs & _ & Hlen & Hall & Hsort).
  split_and!; try lia; [done|]. intros q Hq.
  destruct (elem_of_Forall _ _ _ Hall Hq). split_and!; done || lia.
Qed.

(** A plan is bound to the claim it was made for: the job was leased and the
    lease live, the job was scheduled under exactly this evidence policy and these
    scheduling limits, and the plan carries the job's identity, generation and
    policy and covers every configured source. *)
Theorem plan_is_bound_to_claim l (normalized : V) start plan :
  from_claim l normalized start = Ok plan →
  state (lease_job l) = Leased ∧ start < lease_expires_at l ∧
  Metadata.evidence_policy_digest normalized = Ok (plan_policy_digest plan) ∧
  plan_policy_digest plan = policy_digest (lease_job l) ∧
  plan_job_id plan = id (lease_job l) ∧
  plan_input_generation plan = input_generation (lease_job l) ∧
  plan_id plan = attempt_id (id (lease_job l)) (attempt_count (lease_job l)) ∧
  (∃ p, policy_from_configuration normalized = Ok p ∧
     lease_duration_ms p = lease_duration_ms (policy (lease_job l)) ∧
     max_attempts p = max_attempts (policy (lease_job l))) ∧
  ∃ sources : list V, at_pointer as_array normalized "/evidence/sources" = Some sources ∧
    length (requests plan) = length sources.
Proof.
  intros Hp. apply from_claim_Ok in Hp as
    (Hst & _ & Hlt & Hdig & (p & Hpol & Hm) & Hid & Hjob & Hgen & Hpd & _ & _ & _ & Hsrc & _).
  rewrite Hpd. unfold attempt_policy_matches in Hm. to_prop.
  split_and!; try done. exists p. by split_and!.
Qed.

(** Request identities never repeat: if two requests of any two plans have one
    identity, they belong to the same job, the same attempt of it and the same
    source, unless SHA-256 collides. *)
Theorem request_id_identifies_attempt_and_source `{!Sha256Laws} l l' (normalized normalized' : V)
    start start' plan plan' q q' :
  length (id (lease_job l)) = 32%nat → length (id (lease_job l')) = 32%nat →
  0 ≤ attempt_count (lease_job l) ≤ 100 → 0 ≤ attempt_count (lease_job l') ≤ 100 →
  from_claim l normalized start = Ok plan → from_claim l' normalized' start' = Ok plan' →
  q ∈ requests plan → q' ∈ requests plan' → request_id_of q = request_id_of q' →
  (id (lease_job l) = id (lease_job l') ∧
   attempt_count (lease_job l) = attempt_count (lease_job l') ∧ source_id q = source_id q') ∨
  sha256_collision.
Proof.
  intros Hl Hl' Ha Ha' Hp Hp' Hq Hq' Heq.
  apply from_claim_Ok in Hp as (_ & _ & _ & _ & _ & _ & _ & _ & _ & _ & _ & _ & _ & _ & Hall & _).
  apply from_claim_Ok in Hp' as (_ & _ & _ & _ & _ & _ & _ & _ & _ & _ & _ & _ & _ & _ & Hall' & _).
  destruct (elem_of_Forall _ _ _ Hall Hq) as [Hs _ _ _ _ _ _ _ Hid].
  destruct (elem_of_Forall _ _ _ Hall' Hq') as [Hs' _ _ _ _ _ _ _ Hid'].
  rewrite Hid, Hid' in Heq. apply request_id_inj in Heq; simpl in *;
    auto using valid_source_id_length; [|by unfold attempt_id; rewrite !sha256_length].
  destruct Heq as [[Hat Hsrc]|]; [|by right].
  apply attempt_id_inj in Hat; [|congruence|unfold_max; lia..]. naive_solver.
Qed.

(** The result inventory is exact: results are accepted only when there is one
    result per request, in the plan's order, whatever the iterator offered. *)
Theorem results_match_requests plan offered x :
  results_new plan offered = Ok x ↔
  x = MkResults (plan_id plan) offered ∧
  map request_id_satisfied offered = map request_id_of (requests plan).
Proof.
  unfold results_new. generalize (requests plan). intros qs.
  assert (∀ (rs : list RhiReconciliationSourceResult), length rs = length qs →
    existsb (λ '(r, q), negb (bytes_eqb (request_id_satisfied r) (request_id_of q))) (combine rs qs)
      = false ↔ map request_id_satisfied rs = map request_id_of qs) as Hids.
  { induction qs as [|q qs IH]; intros [|r rs] Hlen; simpl in *; try done.
    rewrite orb_false_iff, negb_false_iff, bytes_eqb_true, IH by lia. split; [by intros [-> ->]|by intros [= ? ?]]. }
  split.
  - intros Hr. inv_ok. to_prop. apply Nat.eqb_eq in H1. rewrite length_take in H1.
    assert (length offered = length qs) as Hlen by lia. rewrite take_ge in * by lia.
    split; [done|]. by apply Hids.
  - intros [-> Hmap]. assert (length offered = length qs) as Hlen.
    { rewrite <- (length_map request_id_satisfied), Hmap. apply length_map. }
    rewrite take_ge by lia. rewrite (proj2 (Nat.eqb_eq _ _) Hlen), (proj2 (Hids _ Hlen)) by done. done.
Qed.

(** Only a timeout reaches a deadline: every accepted result of another kind
    started in the attempt and finished before its request's deadline, hence while
    the lease was live, and stayed within the request's limits; a timeout is
    reported only at or after the deadline. *)
Theorem results_respect_deadlines l (normalized : V) start plan q o s f n size r :
  from_claim l normalized start = Ok plan → q ∈ requests plan →
  source_result_new q o s f n size = Ok r →
  start ≤ s ≤ f ∧ s < lease_expires_at l ∧ n ≤ maximum_events q ∧ size ≤ maximum_bytes q ∧
  (n = 0 ↔ size = 0) ∧ (o = IncompleteTimeout ↔ deadline q ≤ f) ∧
  (o ≠ IncompleteTimeout → f < lease_expires_at l) ∧ (o = Unsupported → n = 0).
Proof.
  intros Hp Hq Hr.
  apply from_claim_Ok in Hp as (_ & _ & _ & _ & _ & _ & _ & _ & _ & _ & Hd & _ & _ & _ & Hall & _).
  destruct (elem_of_Forall _ _ _ Hall Hq) as [_ _ Hst Hdl _ _ _ _ _].
  unfold source_result_new in Hr. inv_ok. to_prop.
  assert (o = IncompleteTimeout ↔ deadline q ≤ f) as Ht.
  { destruct (bool_decide (o = IncompleteTimeout)) eqn:Ho; simpl in *; to_prop;
      [split; [intros _; lia|done]|split; [done|lia]]. }
  assert (n = 0 ↔ size = 0) as Hn.
  { destruct (Z.eqb_spec n 0), (Z.eqb_spec size 0); simpl in *; done. }
  split_and!; try lia; try done.
  - intros Ho. assert (¬ deadline q ≤ f) by (by rewrite <- Ht). lia.
  - intros ->. rewrite bool_decide_true in * by done. simpl in *. to_prop. lia.
Qed.

End attempt.

(** ** Witnesses: one relay, one required source *)

#[local] Existing Instance checksum.
#[local] Existing Instance json_value.
#[local] Existing Instance json_writer.

Definition demo_source : json :=
  JObject [("source_id", JString "primary"); ("relay_id", JString "relay-a");
    ("kind", JString "nostr_relay"); ("selector", JString "trade_mutation_lineage_v1");
    ("required", JBool true); ("deadline_ms", JNumber 5000); ("lookback_seconds", JNumber 3600);
    ("overlap_seconds", JNumber 300)].

Definition demo_document : json :=
  JObject [
    ("relays", JArray [JObject [("id", JString "relay-a"); ("url", JString "wss://relay.example")]]);
    ("evidence", JObject [("contract", JString "trade-evidence"); ("contract_version", JNumber 1);
       ("policy_id", JString "default"); ("sources", JArray [demo_source])]);
    ("reconciliation", JObject [("queue_capacity", JNumber 4); ("lease_ms", JNumber 60000);
       ("lease_renewal_ms", JNumber 30000); ("max_attempts", JNumber 2);
       ("initial_backoff_ms", JNumber 1000); ("maximum_backoff_ms", JNumber 60000);
       ("attempt_deadline_ms", JNumber 10000)]);
    ("resource_limits", JObject [("source_results",
       JObject [("events", JNumber 100); ("bytes", JNumber 65536)])])].

Definition demo_digest : bytes :=
  Eval vm_compute in
    match Metadata.evidence_policy_digest demo_document with Ok d => d | Err _ => [] end.

Definition demo_lease : RhiReconciliationLease :=
  MkLease
    (MkJob (repeat 9 32) (repeat 1 16) 1 demo_digest Leased 2 1 0 (Policy 65536 60000 30000 2 1000 60000)
       None (Some (repeat 7 16)) (Some 62000) 1000 2000) (repeat 7 16) 62000.

Definition demo_plan : RhiReconciliationAttemptPlan :=
  Eval vm_compute in
    match from_claim demo_lease demo_document 2000 with
    | Ok p => p | Err _ => MkPlan [] [] 0 [] 0 0 [] end.

Definition demo_request : RhiReconciliationSourceRequest :=
  Eval vm_compute in
    match requests demo_plan with q :: _ => q | [] => MkRequest [] "" [] true [] 0 0 0 0 0 end.

Lemma demo_plan_Ok : from_claim demo_lease demo_document 2000 = Ok demo_plan.
Proof. by vm_compute. Qed.

Lemma demo_request_elem : demo_request ∈ requests demo_plan.
Proof. left. Qed.

(** Configured: 100 events, 65536 bytes, an attempt of 10 s, a source of 5 s. *)
Lemma plan_requests_are_bounded_witness :
  plan_deadline demo_plan = 12000 ∧ maximum_events demo_request = 100 ∧
  maximum_bytes demo_request = 65536 ∧ deadline demo_request = 7000 ∧
  lookback_seconds demo_request = 3600 ∧ source_id demo_request = "primary".
Proof.
  destruct (plan_requests_are_bounded demo_lease demo_document 2000 demo_plan demo_plan_Ok)
    as ((sources & ms & events & maximum & Hs & Hms & Hev & Hmax & Hd & Hall) & _).
  vm_compute in Hs. injection Hs as <-. vm_compute in Hms. injection Hms as <-.
  vm_compute in Hev. injection Hev as <-. vm_compute in Hmax. injection Hmax as <-.
  pose proof (Forall2_cons_1 _ _ _ _ _ Hall) as [[Hid _ _ _ Hlb He Hb (ms & Hsrc & Hdl)] _].
  vm_compute in Hsrc. injection Hsrc as <-.
  split_and!; [exact Hd|exact He|exact Hb|exact Hdl| |].
  - apply Some_inj, (eq_trans (eq_sym Hlb)). vm_compute. reflexivity.
  - apply Some_inj, (eq_trans (eq_sym Hid)). vm_compute. reflexivity.
Defined.

Lemma plan_is_bound_to_claim_witness : plan_policy_digest demo_plan = demo_digest.
Proof.
  apply (plan_is_bound_to_claim demo_lease demo_document 2000 demo_plan demo_plan_Ok).
Defined.

Lemma request_id_identifies_attempt_and_source_witness :
  (id (lease_job demo_lease) = id (lease_job demo_lease) ∧
   attempt_count (lease_job demo_lease) = attempt_count (lease_job demo_lease) ∧
   source_id demo_request = source_id demo_request) ∨ sha256_collision.
Proof.
  apply (@request_id_identifies_attempt_and_source checksum json json_value json_writer checksum_laws
    demo_lease demo_lease demo_document demo_document 2000 2000 demo_plan demo_plan demo_request
    demo_request); [done|done|simpl; lia|simpl; lia|apply demo_plan_Ok|apply demo_plan_Ok|
    apply demo_request_elem|apply demo_request_elem|done].
Defined.

Lemma results_respect_deadlines_witness : 4000 < lease_expires_at demo_lease.
Proof.
  apply (results_respect_deadlines demo_lease demo_document 2000 demo_plan demo_request Complete 2500 4000 3
    900 (MkResult (request_id_of demo_request) Complete 2500 4000 3 900) demo_plan_Ok demo_request_elem);
    [by vm_compute|done].
Defined.

End Attempt.
