(* ===== verification/ReconciliationReplay.v ===== *)
(** * Reconciliation replay: [src/src/reconciliation_replay.rs]

    The binding of a source request to a prior cursor and an overlap window, and
    the canonicalization of the admitted events a source returned: sorting,
    removal of duplicate observations, conflict detection and the cursor. *)

From Stdlib Require Import Sorted.
From stdpp Require Import list strings gmap sorting.
From S2P Require Import Prelude.
From S2P Require Import Sql.
From S2P Require Import Interfaces.
From S2P Require Import StateMetadata.
From S2P Require Import SourceIngest.
From S2P Require Import StateTrade.
From S2P Require Import ReconciliationJob.
From S2P Require Import ReconciliationAttempt.

Module Replay.
Import Evidence Source Attempt.

Definition REPLAY_ID_DOMAIN : bytes :=
  as_bytes "radroots.rhi.reconciliation_source_replay.v1" ++ [0].
Definition MAX_OVERLAP_SECONDS : Z := 86400.

Inductive RhiReconciliationReplayErrorKind : Type :=
| InvalidInput | InvalidConfiguration | PolicyMismatch | ResourceLimit | MutationConflict
| SignedEventConflict.

Definition replay_error_code (k : RhiReconciliationReplayErrorKind) : string :=
  match k with
  | InvalidInput => "reconciliation_replay_input_invalid"
  | InvalidConfiguration => "reconciliation_replay_configuration_invalid"
  | PolicyMismatch => "reconciliation_replay_policy_mismatch"
  | ResourceLimit => "reconciliation_replay_resource_limit"
  | MutationConflict => "reconciliation_replay_mutation_conflict"
  | SignedEventConflict => "reconciliation_replay_signed_event_conflict"
  end.

(** ** Cursor evidence and replay plans *)

Record RhiReconciliationSourceCursorEvidence : Type := MkCursorEvidence {
  ce_source_id : string;
  ce_trade_id : bytes;
  ce_policy_digest : bytes;
  ce_selector_digest : bytes;
  ce_cursor : RhiTradeSourceCursor;
}.

Definition committed_cursor_evidence := MkCursorEvidence.

Record RhiReconciliationSourceReplayPlan : Type := MkReplayPlan {
  rp_id : bytes;
  rp_request_id : bytes;
  rp_source_id : string;
  rp_trade_id : bytes;
  rp_required : bool;
  rp_policy_digest : bytes;
  rp_selector_digest : bytes;
  rp_prior_cursor : option RhiReconciliationSourceCursorEvidence;
  rp_overlap_seconds : Z;
  rp_since_unix_seconds : Z;
}.

Definition cursor_scope_matches (e : RhiReconciliationSourceCursorEvidence) (source : string)
    (trade policy selector : bytes) : bool :=
  String.eqb (ce_source_id e) source && bytes_eqb (ce_trade_id e) trade
  && bytes_eqb (ce_policy_digest e) policy && bytes_eqb (ce_selector_digest e) selector.

Definition resume_since (c : RhiTradeSourceCursor) (overlap : Z) : Z :=
  u64_saturating_sub (created_at_unix_seconds c) overlap.

Section plans.
Context `{Sha256}.

Definition replay_id (request : bytes) (prior : option RhiTradeSourceCursor) (overlap since : Z) :
    bytes :=
  sha256 (REPLAY_ID_DOMAIN ++ request
          ++ match prior with
             | Some c => [1] ++ to_be_bytes 8 (created_at_unix_seconds c) ++ cursor_event_id c
             | None => [0]
             end
          ++ to_be_bytes 8 overlap ++ to_be_bytes 8 since).

Context `{JsonValue V, !JsonWriter V}.

Definition from_request (attempt : RhiReconciliationAttemptPlan)
    (request : RhiReconciliationSourceRequest) (normalized : V)
    (prior : option RhiReconciliationSourceCursorEvidence) :
    result RhiReconciliationReplayErrorKind RhiReconciliationSourceReplayPlan :=
  reject_if
    (negb (existsb (λ q, bytes_eqb (request_id_of q) (request_id_of request)) (requests attempt)))
    InvalidInput ;?
  let? policy := map_err (λ _, InvalidConfiguration) (Metadata.evidence_policy_digest normalized) in
  reject_if (negb (bytes_eqb policy (plan_policy_digest attempt))) PolicyMismatch ;?
  reject_if
    (is_some_and
       (λ e, negb (cursor_scope_matches e (source_id request) (request_trade_id request) policy
                     (selector_digest_of request))) prior) PolicyMismatch ;?
  let? source := ok_or
    (filter_opt
       (λ s, bool_decide (at_pointer as_str s "/kind" = Some SOURCE_KIND)
             && bool_decide (at_pointer as_str s "/selector" = Some SOURCE_SELECTOR))
       (match at_pointer as_array normalized "/evidence/sources" with
        | Some sources =>
            List.find (λ s, bool_decide (at_pointer as_str s "/source_id" = Some (source_id request)))
              sources
        | None => None
        end)) InvalidConfiguration in
  let? overlap := ok_or
    (filter_opt (between 1 MAX_OVERLAP_SECONDS) (at_pointer as_u64 source "/overlap_seconds"))
    InvalidConfiguration in
  let? lookback := ok_or
    (filter_opt (λ v, (v =? lookback_seconds request) && (overlap <=? v))
       (at_pointer as_u64 source "/lookback_seconds")) InvalidConfiguration in
  let raw := ce_cursor <$> prior in
  let since :=
    match raw with
    | None => u64_saturating_sub (attempt_started_at request / 1000) lookback
    | Some c => resume_since c overlap
    end in
  Ok (MkReplayPlan (replay_id (request_id_of request) raw overlap since) (request_id_of request)
        (source_id request) (request_trade_id request) (required request) policy
        (selector_digest_of request) prior overlap since).

End plans.

(** ** Facts *)

Record ReplayFact : Type := MkFact {
  record : PersistenceRecord;
  original_bytes : Z;
  observed_at : Z;
}.

#[export] Instance fact_eq_dec : EqDecision ReplayFact.
Proof. solve_decision. Defined.

(** One round of the loop of [ingest_bounded_facts] per offered fact. *)
Fixpoint ingest_from (bounded : list ReplayFact) (accepted_bytes : Z)
    (facts : list (result RhiReconciliationReplayErrorKind ReplayFact)) (maximum_events : nat)
    (maximum_bytes : Z) : result RhiReconciliationReplayErrorKind (list ReplayFact) :=
  match facts with
  | [] => Ok bounded
  | fact :: facts =>
      reject_if (length bounded =? maximum_events)%nat ResourceLimit ;?
      let? fact := fact in
      let? accepted := ok_or
        (filter_opt (λ v, v <=? maximum_bytes)
           (u64_checked_add accepted_bytes (original_bytes fact))) ResourceLimit in
      ingest_from (bounded ++ [fact]) accepted facts maximum_events maximum_bytes
  end.

(** [facts.into_iter().take(maximum_events.saturating_add(1))] *)
Definition ingest_bounded_facts (facts : list (result RhiReconciliationReplayErrorKind ReplayFact))
    (maximum_events : nat) (maximum_bytes : Z) :
    result RhiReconciliationReplayErrorKind (list ReplayFact) :=
  ingest_from [] 0 (take (maximum_events + 1) facts) maximum_events maximum_bytes.

Definition compare_fact : ReplayFact → ReplayFact → comparison :=
  cmp_then (cmp_on (λ f, authored_at_unix_s (record f)) Z.compare)
  (cmp_then (cmp_on (λ f, event_id (record f)) bytes_cmp)
  (cmp_then (cmp_on (λ f, event_signature (record f)) bytes_cmp)
  (cmp_then (cmp_on observed_at Z.compare) (cmp_on original_bytes Z.compare)))).

Definition same_mutation (l r : PersistenceRecord) : bool :=
  bytes_eqb (mutation_id l) (mutation_id r) && bytes_eqb (trade_id l) (trade_id r)
  && String.eqb (contract_id l) (contract_id r) && (schema_version l =? schema_version r)
  && (event_kind l =? event_kind r) && bytes_eqb (author_pubkey l) (author_pubkey r)
  && bytes_eqb (canonical_content l) (canonical_content r).

Definition same_event (l r : PersistenceRecord) : bool :=
  same_mutation l r && bytes_eqb (event_id l) (event_id r)
  && bytes_eqb (event_signature l) (event_signature r) && (event_kind l =? event_kind r)
  && (authored_at_unix_s l =? authored_at_unix_s r)
  && bytes_eqb (canonical_event_json l) (canonical_event_json r).

Definition event_key (f : ReplayFact) : bytes * bytes :=
  (event_id (record f), event_signature (record f)).

Definition cursor_of (f : ReplayFact) : RhiTradeSourceCursor :=
  MkCursor (authored_at_unix_s (record f)) (event_id (record f)).

Record CanonicalReplay : Type := MkCanonical {
  facts : list ReplayFact;
  duplicate_observations : Z;
  accepted_original_bytes : Z;
  cursor_candidate : option RhiTradeSourceCursor;
  first_observed_at : option Z;
}.

(** The loop's variables: the replay so far and the two index maps. *)
Record canonical_state : Type := MkState {
  replay : CanonicalReplay;
  event_indexes : gmap (bytes * bytes) nat;
  mutation_indexes : gmap bytes nat;
}.

Definition initial_state : canonical_state := MkState (MkCanonical [] 0 0 None None) ∅ ∅.

Definition later_cursor (current : option RhiTradeSourceCursor) (c : RhiTradeSourceCursor) :
    RhiTradeSourceCursor :=
  match current with
  | None => c
  | Some x => if is_lt (compare_cursor x c) then c else x
  end.

Definition earlier_second (current : option Z) (t : Z) : Z :=
  match current with
  | None => t
  | Some x => if t <? x then t else x
  end.

(** [&facts[index].record] is in range whenever the index comes from the maps. *)
Definition indexed (same : PersistenceRecord → PersistenceRecord → bool) (fs : list ReplayFact)
    (index : option nat) (r : PersistenceRecord) : option bool :=
  match index with
  | Some i => Some (is_some_and (λ f, same (record f) r) (fs !! i))
  | None => None
  end.

Definition canonical_step (s : canonical_state) (c : ReplayFact) :
    result RhiReconciliationReplayErrorKind canonical_state :=
  let r := replay s in
  match indexed same_event (facts r) (event_indexes s !! event_key c) (record c) with
  | Some same =>
      reject_if (negb same) SignedEventConflict ;?
      let? duplicates := ok_or (u32_checked_add (duplicate_observations r) 1) ResourceLimit in
      Ok (MkState (MkCanonical (facts r) duplicates (accepted_original_bytes r)
                     (cursor_candidate r) (first_observed_at r))
            (event_indexes s) (mutation_indexes s))
  | None =>
      reject_if
        (is_some_and negb
           (indexed same_mutation (facts r) (mutation_indexes s !! mutation_id (record c)) (record c)))
        MutationConflict ;?
      let? accepted := ok_or (u64_checked_add (accepted_original_bytes r) (original_bytes c))
                         ResourceLimit in
      let index := length (facts r) in
      Ok (MkState
            (MkCanonical (facts r ++ [c]) (duplicate_observations r) accepted
               (Some (later_cursor (cursor_candidate r) (cursor_of c)))
               (Some (earlier_second (first_observed_at r) (observed_at c))))
            (<[event_key c := index]> (event_indexes s))
            (match mutation_indexes s !! mutation_id (record c) with
             | Some _ => mutation_indexes s
             | None => <[mutation_id (record c) := index]> (mutation_indexes s)
             end))
  end.

Fixpoint canonical_loop (s : canonical_state) (candidates : list ReplayFact) :
    result RhiReconciliationReplayErrorKind canonical_state :=
  match candidates with
  | [] => Ok s
  | c :: candidates => let? s := canonical_step s c in canonical_loop s candidates
  end.

Definition canonicalize (candidates : list ReplayFact) :
    result RhiReconciliationReplayErrorKind CanonicalReplay :=
  let? s := canonical_loop initial_state (sort_by compare_fact candidates) in Ok (replay s).

(** ** The finished replay *)

Record RhiReconciliationSourceReplay : Type := MkReplay {
  replay_plan : RhiReconciliationSourceReplayPlan;
  replay_result : RhiReconciliationSourceResult;
  replay_duplicate_observations : Z;
  replay_accepted_original_bytes : Z;
  replay_cursor_candidate : option RhiTradeSourceCursor;
  replay_first_observed_at : option Z;
  replay_facts : list ReplayFact;
}.

(** The closure mapped over the admitted events. *)
Definition replay_fact (request : RhiReconciliationSourceRequest) (start finish : Z)
    (a : RhiAdmittedTradeMutationEvent) : result RhiReconciliationReplayErrorKind ReplayFact :=
  reject_if (negb (bytes_eqb (adm_trade_id a) (request_trade_id request))) InvalidInput ;?
  let? event_bytes := ok_or (try_from U64_MAX (Z.of_nat (length (adm_original a)))) ResourceLimit in
  let? observed_ms := ok_or (u64_checked_mul (adm_observed_at a) 1000) InvalidInput in
  let? observed_end := ok_or (u64_checked_add observed_ms 999) InvalidInput in
  reject_if ((observed_end <? start) || (finish <? observed_ms)) InvalidInput ;?
  let? r := map_err (λ _, InvalidInput) (from_admitted a) in
  Ok (MkFact r event_bytes (adm_observed_at a)).

Definition finish (plan : RhiReconciliationSourceReplayPlan)
    (request : RhiReconciliationSourceRequest) (o : RhiTradeSourceCompletion) (start finished : Z)
    (events : list RhiAdmittedTradeMutationEvent) :
    result RhiReconciliationReplayErrorKind RhiReconciliationSourceReplay :=
  reject_if (negb (bytes_eqb (request_id_of request) (rp_request_id plan))) InvalidInput ;?
  let? _ := map_err (λ _, InvalidInput) (source_result_new request o start finished 0 0) in
  let? candidates :=
    ingest_bounded_facts (map (replay_fact request start finished) events)
      (Z.to_nat (maximum_events request)) (maximum_bytes request) in
  let? c := canonicalize candidates in
  let? count := ok_or (try_from U32_MAX (Z.of_nat (length (facts c)))) ResourceLimit in
  let? res := map_err (λ _, InvalidInput)
    (source_result_new request o start finished count (accepted_original_bytes c)) in
  Ok (MkReplay plan res (duplicate_observations c) (accepted_original_bytes c) (cursor_candidate c)
        (first_observed_at c) (facts c)).

Definition eligible_cursor (o : RhiTradeSourceCompletion) (candidate prior : option RhiTradeSourceCursor) :
    option RhiTradeSourceCursor :=
  if negb (bool_decide (o = Complete)) then None
  else filter_opt (λ c, is_none_or (λ p, is_lt (compare_cursor p c)) prior) candidate.

Definition replay_eligible_cursor (r : RhiReconciliationSourceReplay) : option RhiTradeSourceCursor :=
  eligible_cursor (outcome (replay_result r)) (replay_cursor_candidate r)
    (ce_cursor <$> rp_prior_cursor (replay_plan r)).

Record RhiReconciliationReplayCommitParts : Type := MkCommitParts {
  cp_replay_id : bytes;
  cp_request_id : bytes;
  cp_source_id : string;
  cp_trade_id : bytes;
  cp_required : bool;
  cp_policy_digest : bytes;
  cp_selector_digest : bytes;
  cp_prior_cursor : option RhiTradeSourceCursor;
  cp_overlap_seconds : Z;
  cp_since_unix_seconds : Z;
  cp_result : RhiReconciliationSourceResult;
  cp_duplicate_observations : Z;
  cp_cursor_candidate : option RhiTradeSourceCursor;
  cp_eligible_cursor : option RhiTradeSourceCursor;
  cp_first_observed_at : option Z;
  cp_facts : list (PersistenceRecord * Z);
}.

Definition into_commit_parts (r : RhiReconciliationSourceReplay) : RhiReconciliationReplayCommitParts :=
  let p := replay_plan r in
  MkCommitParts (rp_id p) (rp_request_id p) (rp_source_id p) (rp_trade_id p) (rp_required p)
    (rp_policy_digest p) (rp_selector_digest p) (ce_cursor <$> rp_prior_cursor p)
    (rp_overlap_seconds p) (rp_since_unix_seconds p) (replay_result r)
    (replay_duplicate_observations r) (replay_cursor_candidate r) (replay_eligible_cursor r)
    (replay_first_observed_at r) (map (λ f, (record f, observed_at f)) (replay_facts r)).

(** * Lemmas on canonicalization *)

#[export] Instance compare_fact_ordering : Ordering compare_fact.
Proof. unfold compare_fact. apply _. Qed.

#[export] Instance compare_cursor_ordering : Ordering compare_cursor.
Proof. unfold compare_cursor. apply _. Qed.

(** What [same_mutation] compares. *)
Definition mutation_part (r : PersistenceRecord) :=
  (mutation_id r, trade_id r, contract_id r, schema_version r, event_kind r, author_pubkey r,
   canonical_content r).

Lemma same_mutation_iff l r : same_mutation l r = true ↔ mutation_part l = mutation_part r.
Proof.
  unfold same_mutation, mutation_part. rewrite !andb_true_iff, !bytes_eqb_true, !Z.eqb_eq,
    String.eqb_eq. split; [intros; destruct_and?; congruence|].
  intros Heq. injection Heq. intros. by split_and!.
Qed.

Lemma same_event_iff l r : same_event l r = true ↔ l = r.
Proof.
  unfold same_event. rewrite !andb_true_iff, same_mutation_iff, !bytes_eqb_true, !Z.eqb_eq.
  unfold mutation_part. split; [|by intros ->].
  destruct l, r; simpl; intros; destruct_and?; congruence.
Qed.

Lemma compare_fact_key f x : compare_fact f x = Eq →
  event_key f = event_key x ∧ authored_at_unix_s (record f) = authored_at_unix_s (record x) ∧
  observed_at f = observed_at x ∧ original_bytes f = original_bytes x.
Proof.
  unfold compare_fact, cmp_then, cmp_on, then_with, event_key.
  repeat (match goal with |- context [match ?c with _ => _ end] => destruct c eqn:? end; try done).
  intros ?. repeat match goal with
  | H : (_ ?= _) = Eq |- _ => apply Z.compare_eq in H
  | H : bytes_cmp _ _ = Eq |- _ => apply cmp_eq in H
  end. split_and!; congruence.
Qed.

Lemma compare_fact_observed f x :
  record f = record x → is_le (compare_fact f x) → observed_at f ≤ observed_at x.
Proof.
  intros Hr. unfold compare_fact, cmp_then, cmp_on. rewrite Hr, Z.compare_refl, !cmp_refl. simpl.
  destruct (Z.compare_spec (observed_at f) (observed_at x)); simpl; [lia|lia|done].
Qed.

(** The sum of the retained bytes. *)
Fixpoint total_bytes (fs : list ReplayFact) : Z :=
  match fs with [] => 0 | f :: fs => original_bytes f + total_bytes fs end.

Lemma total_bytes_app fs gs : total_bytes (fs ++ gs) = total_bytes fs + total_bytes gs.
Proof. induction fs; simpl; lia. Qed.

Definition greatest_cursor (c : option RhiTradeSourceCursor) (fs : list ReplayFact) : Prop :=
  match c with
  | None => fs = []
  | Some c => (∃ f, f ∈ fs ∧ c = cursor_of f) ∧ ∀ f, f ∈ fs → is_le (compare_cursor (cursor_of f) c)
  end.

Definition least_second (t : option Z) (fs : list ReplayFact) : Prop :=
  match t with
  | None => fs = []
  | Some t => (∃ f, f ∈ fs ∧ t = observed_at f) ∧ ∀ f, f ∈ fs → t ≤ observed_at f
  end.

Lemma later_cursor_greatest c fs f :
  greatest_cursor c fs → greatest_cursor (Some (later_cursor c (cursor_of f))) (fs ++ [f]).
Proof.
  destruct c as [c|]; simpl.
  - intros [(g & Hg & ->) Hle]. destruct (is_lt _) eqn:Hlt; (split; [set_solver|]);
      intros x [Hx| ->%list_elem_of_singleton]%elem_of_app; rewrite ?cmp_refl; try done.
    + apply (is_le_trans _ (cursor_of g)); [by apply Hle|]. apply is_lt_le. by rewrite Hlt.
    + by apply Hle.
    + rewrite is_lt_swap in Hlt. apply negb_false_iff in Hlt. by rewrite Hlt.
  - intros ->. simpl. split; [set_solver|]. intros x ->%list_elem_of_singleton. by rewrite cmp_refl.
Qed.

Lemma earlier_second_least t fs f :
  least_second t fs → least_second (Some (earlier_second t (observed_at f))) (fs ++ [f]).
Proof.
  destruct t as [t|]; simpl.
  - intros [(g & Hg & ->) Hle]. destruct (Z.ltb_spec (observed_at f) (observed_at g));
      (split; [set_solver|]); intros x [Hx| ->%list_elem_of_singleton]%elem_of_app; try lia;
      specialize (Hle x Hx); lia.
  - intros ->. simpl. split; [set_solver|]. intros x ->%list_elem_of_singleton. lia.
Qed.

(** The loop's invariant after the candidates [seen]. *)
Record canonical_inv (seen : list ReplayFact) (s : canonical_state) : Prop := CanonicalInv {
  ci_keys : NoDup (map event_key (facts (replay s)));
  ci_events k i : event_indexes s !! k = Some i ↔ event_key <$> facts (replay s) !! i = Some k;
  ci_mutations m i : mutation_indexes s !! m = Some i →
    ∃ f, facts (replay s) !! i = Some f ∧ mutation_id (record f) = m;
  ci_indexed f : f ∈ facts (replay s) → ∃ i f0,
    mutation_indexes s !! mutation_id (record f) = Some i ∧ facts (replay s) !! i = Some f0 ∧
    mutation_part (record f0) = mutation_part (record f);
  ci_seen x : x ∈ seen →
    ∃ f, f ∈ facts (replay s) ∧ record f = record x ∧ observed_at f ≤ observed_at x;
  ci_facts : sublist (facts (replay s)) seen;
  ci_count : Z.of_nat (length (facts (replay s))) + duplicate_observations (replay s) =
    Z.of_nat (length seen);
  ci_bytes : accepted_original_bytes (replay s) = total_bytes (facts (replay s));
  ci_cursor : greatest_cursor (cursor_candidate (replay s)) (facts (replay s));
  ci_first : least_second (first_observed_at (replay s)) (facts (replay s));
}.

Lemma initial_inv : canonical_inv [] initial_state.
Proof.
  split; simpl; try done; try set_solver; try constructor.
Qed.

(** The entry found for an event key, and for a mutation identity. *)
Lemma indexed_event seen s c :
  canonical_inv seen s →
  match indexed same_event (facts (replay s)) (event_indexes s !! event_key c) (record c) with
  | Some same => ∃ f, f ∈ facts (replay s) ∧ event_key f = event_key c ∧
      (same = true ↔ record f = record c)
  | None => ∀ f, f ∈ facts (replay s) → event_key f ≠ event_key c
  end.
Proof.
  intros Hinv. unfold indexed. destruct (event_indexes s !! event_key c) as [i|] eqn:Hi.
  - apply (ci_events _ _ Hinv) in Hi. destruct (facts (replay s) !! i) as [f|] eqn:Hf; [|done].
    simpl in *. apply (inj Some) in Hi.
    exists f. split_and!; [by eapply list_elem_of_lookup_2|done|apply same_event_iff].
  - intros f Hf Hk. apply list_elem_of_lookup_1 in Hf as [i Hfi].
    assert (event_indexes s !! event_key c = Some i) as Hsome; [|congruence].
    apply (ci_events _ _ Hinv). by rewrite Hfi, <- Hk.
Qed.

Lemma indexed_mutation seen s c :
  canonical_inv seen s →
  match indexed same_mutation (facts (replay s)) (mutation_indexes s !! mutation_id (record c)) (record c) with
  | Some same => ∃ f, f ∈ facts (replay s) ∧ mutation_id (record f) = mutation_id (record c) ∧
      (same = true ↔ mutation_part (record f) = mutation_part (record c))
  | None => ∀ f, f ∈ facts (replay s) → mutation_id (record f) ≠ mutation_id (record c)
  end.
Proof.
  intros Hinv. unfold indexed. destruct (mutation_indexes s !! _) as [i|] eqn:Hi.
  - apply (ci_mutations _ _ Hinv) in Hi as (f & Hf & Hm). rewrite Hf. simpl.
    exists f. split_and!; [by eapply list_elem_of_lookup_2|done|apply same_mutation_iff].
  - intros f Hf Hm. destruct (ci_indexed _ _ Hinv f Hf) as (i & f0 & Hi0 & _). congruence.
Qed.

(** One round of the loop keeps the invariant. *)
Lemma duplicate_inv seen s c f n :
  canonical_inv seen s → f ∈ facts (replay s) → record f = record c →
  (∀ x, x ∈ seen → is_le (compare_fact x c)) →
  n = duplicate_observations (replay s) + 1 →
  canonical_inv (seen ++ [c])
    (MkState (MkCanonical (facts (replay s)) n (accepted_original_bytes (replay s))
       (cursor_candidate (replay s)) (first_observed_at (replay s)))
       (event_indexes s) (mutation_indexes s)).
Proof.
  intros Hinv Hf Hr Hle ->. destruct Hinv as [Hk He Hm Hx Hs Hsub Hc Hb Hcur Hfirst].
  split; simpl; try done.
  - intros x [Hin| ->%list_elem_of_singleton]%elem_of_app; [by apply Hs|].
    exists f. split_and!; [done..|]. apply compare_fact_observed; [done|]. apply Hle.
    by eapply elem_of_sublist.
  - by apply sublist_inserts_r.
  - rewrite length_app. simpl. lia.
Qed.

Lemma fresh_inv seen s c n :
  canonical_inv seen s → (∀ f, f ∈ facts (replay s) → event_key f ≠ event_key c) →
  (∀ f, f ∈ facts (replay s) → mutation_id (record f) = mutation_id (record c) →
     mutation_part (record f) = mutation_part (record c)) →
  n = accepted_original_bytes (replay s) + original_bytes c →
  canonical_inv (seen ++ [c])
    (MkState
       (MkCanonical (facts (replay s) ++ [c]) (duplicate_observations (replay s)) n
          (Some (later_cursor (cursor_candidate (replay s)) (cursor_of c)))
          (Some (earlier_second (first_observed_at (replay s)) (observed_at c))))
       (<[event_key c := length (facts (replay s))]> (event_indexes s))
       (match mutation_indexes s !! mutation_id (record c) with
        | Some _ => mutation_indexes s
        | None => <[mutation_id (record c) := length (facts (replay s))]> (mutation_indexes s)
        end)).
Proof.
  intros Hinv Hfresh Hmut ->. destruct Hinv as [Hk He Hm Hx Hs Hsub Hc Hb Hcur Hfirst].
  set (fs := facts (replay s)) in *.
  split; simpl; fold fs.
  - rewrite map_app. apply list.NoDup_app. split_and!; [done| |by apply NoDup_singleton].
    intros k Hkf Hkc. apply list_elem_of_fmap in Hkf as (f & -> & Hf).
    apply list_elem_of_singleton in Hkc. by apply (Hfresh f).
  - intros k i. destruct (decide (k = event_key c)) as [->|Hne].
    + rewrite lookup_insert_eq. split.
      * intros [= <-]. by rewrite lookup_app_r, Nat.sub_diag by lia.
      * intros Hl. destruct (decide (i < length fs)%nat).
        -- rewrite lookup_app_l in Hl by done. destruct (fs !! i) as [f|] eqn:Hf; [|done].
           simpl in Hl. apply (inj Some) in Hl. destruct (Hfresh f); [|done].
           by eapply list_elem_of_lookup_2.
        -- rewrite lookup_app_r in Hl by lia. destruct (i - length fs)%nat eqn:Hd; [|done]. f_equal. lia.
    + rewrite lookup_insert_ne by done. rewrite He. destruct (decide (i < length fs)%nat).
      * by rewrite lookup_app_l.
      * rewrite lookup_ge_None_2 by lia. rewrite lookup_app_r by lia. split; [done|].
        destruct (i - length fs)%nat; simpl; [|done]. intros Heq%(inj Some). by destruct Hne.
  - assert (∀ m i, mutation_indexes s !! m = Some i →
      ∃ f, (fs ++ [c]) !! i = Some f ∧ mutation_id (record f) = m) as Hold.
    { intros m i (f & Hf & Hid)%Hm. exists f. split; [by apply lookup_app_l_Some|done]. }
    intros m i. destruct (mutation_indexes s !! mutation_id (record c)) eqn:Hc0; [apply Hold|].
    intros [[<- <-]|[Hne Hl]]%lookup_insert_Some; [|by apply Hold].
    exists c. by rewrite lookup_app_r, Nat.sub_diag by lia.
  - intros f Hf. apply elem_of_app in Hf as [Hf| ->%list_elem_of_singleton].
    + destruct (Hx f Hf) as (i & f0 & Hi & Hf0 & Hp). exists i, f0. split_and!; [|by apply lookup_app_l_Some|done].
      destruct (mutation_indexes s !! mutation_id (record c)) eqn:Hc0; [done|].
      rewrite lookup_insert_ne; [done|congruence].
    + destruct (mutation_indexes s !! mutation_id (record c)) as [i|] eqn:Hc0.
      * destruct (Hm _ _ Hc0) as (f0 & Hf0 & Hid). exists i, f0.
        split_and!; [done|by apply lookup_app_l_Some|]. apply Hmut; [|done]. by eapply list_elem_of_lookup_2.
      * exists (length fs), c. rewrite lookup_insert_eq, lookup_app_r, Nat.sub_diag by lia. done.
  - intros x [Hin| ->%list_elem_of_singleton]%elem_of_app.
    + destruct (Hs x Hin) as (f & Hf & ? & ?). exists f. split_and!; [set_solver|done|done].
    + exists c. split_and!; [set_solver|done|lia].
  - by apply sublist_app.
  - rewrite !length_app. simpl. lia.
  - rewrite total_bytes_app. simpl. lia.
  - by apply later_cursor_greatest.
  - by apply earlier_second_least.
Qed.

Lemma u32_checked_add_Some x y z : u32_checked_add x y = Some z ↔ z = x + y ∧ x + y ≤ U32_MAX.
Proof. unfold u32_checked_add. destruct (Z.leb_spec (x + y) U32_MAX); naive_solver lia. Qed.

(** A round that succeeds found no conflict and keeps the invariant. *)
Lemma canonical_step_inv seen s c s' :
  canonical_inv seen s → (∀ x, x ∈ seen → is_le (compare_fact x c)) →
  canonical_step s c = Ok s' → canonical_inv (seen ++ [c]) s'.
Proof.
  intros Hinv Hle. pose proof (indexed_event _ _ c Hinv) as Hev.
  pose proof (indexed_mutation _ _ c Hinv) as Hmut. unfold canonical_step.
  destruct (indexed same_event _ _ _) as [same|].
  - destruct Hev as (f & Hf & _ & Hsame). intros Hs. bind Hs as u Hc.
    apply reject_if_Ok, negb_false_iff, Hsame in Hc. bind Hs as n Hn.
    apply ok_or_Ok, u32_checked_add_Some in Hn as [-> _]. inv_ok. by eapply duplicate_inv.
  - intros Hs. bind Hs as u Hc. apply reject_if_Ok in Hc. bind Hs as n Hn.
    apply ok_or_Ok, u64_checked_add_Some in Hn as [-> _]. injection Hs as <-.
    apply fresh_inv; [done|done| |done]. intros f Hf Hm.
    destruct (indexed same_mutation _ _ _) as [same|]; [|by destruct (Hmut f Hf)].
    destruct Hmut as (f0 & Hf0 & Hm0 & Hsame0). simpl in Hc. apply negb_false_iff, Hsame0 in Hc.
    rewrite <- Hc. destruct (ci_indexed _ _ Hinv f Hf) as (i & g & Hi & Hg & <-).
    destruct (ci_indexed _ _ Hinv f0 Hf0) as (j & g0 & Hj & Hg0 & <-). congruence.
Qed.

Lemma canonical_loop_inv cs seen s s' :
  canonical_inv seen s → sorted_by compare_fact (seen ++ cs) →
  canonical_loop s cs = Ok s' → canonical_inv (seen ++ cs) s'.
Proof.
  revert seen s. induction cs as [|c cs IH]; intros seen s Hinv Hsorted Hs; simpl in Hs.
  { inv_ok. by rewrite app_nil_r. }
  bind Hs as s1 Hs1. rewrite cons_middle, app_assoc. apply IH with s1; [|by rewrite <- app_assoc|done].
  apply (canonical_step_inv _ _ _ _ Hinv); [|done].
  intros x Hx. apply (StronglySorted_app_1_elem_of _ _ _ _ _ Hsorted Hx). left.
Qed.

(** Two facts of one event, and two facts of one mutation, agree. *)
Definition consistent_facts (l : list ReplayFact) : Prop :=
  (∀ x y, x ∈ l → y ∈ l → event_key x = event_key y → record x = record y) ∧
  (∀ x y, x ∈ l → y ∈ l → mutation_id (record x) = mutation_id (record y) →
     mutation_part (record x) = mutation_part (record y)).

Lemma canonical_step_total seen s c :
  canonical_inv seen s → consistent_facts (seen ++ [c]) →
  Z.of_nat (length seen) < U32_MAX → total_bytes (facts (replay s)) + original_bytes c ≤ U64_MAX →
  is_ok (canonical_step s c).
Proof.
  intros Hinv [Hce Hcm] Hlen Hbytes. pose proof (indexed_event _ _ c Hinv) as Hev.
  pose proof (indexed_mutation _ _ c Hinv) as Hmut. unfold canonical_step.
  assert (∀ f, f ∈ facts (replay s) → f ∈ seen ++ [c]) as Hin.
  { intros f Hf. apply elem_of_app. left. by eapply elem_of_sublist, ci_facts. }
  assert (c ∈ seen ++ [c]) as Hcin by set_solver.
  destruct (indexed same_event _ _ _) as [same|].
  - destruct Hev as (f & Hf & Hk & Hsame).
    rewrite (proj2 Hsame (Hce _ _ (Hin f Hf) Hcin Hk)). simpl.
    pose proof (ci_count _ _ Hinv).
    rewrite (proj2 (u32_checked_add_Some _ _ _)) by (split; [done|lia]). simpl. by eexists.
  - rewrite (ci_bytes _ _ Hinv).
    rewrite (proj2 (u64_checked_add_Some _ _ _)) by (split; [done|lia]). simpl.
    destruct (indexed same_mutation _ _ _) as [same|]; simpl; [|by eexists].
    destruct Hmut as (f & Hf & Hm & Hsame).
    rewrite (proj2 Hsame (Hcm _ _ (Hin f Hf) Hcin Hm)). simpl. by eexists.
Qed.

Lemma total_bytes_sublist l k :
  sublist l k → (∀ x, x ∈ k → 0 ≤ original_bytes x) → total_bytes l ≤ total_bytes k.
Proof.
  induction 1 as [|x l k _ IH|x l k _ IH]; intros Hpos; simpl; [done|..];
    (assert (total_bytes l ≤ total_bytes k) by (apply IH; set_solver));
    pose proof (Hpos x ltac:(set_solver)); lia.
Qed.

Lemma total_bytes_perm l k : l ≡ₚ k → total_bytes l = total_bytes k.
Proof. induction 1; simpl; lia. Qed.

Lemma consistent_sub l k : consistent_facts k → (∀ x, x ∈ l → x ∈ k) → consistent_facts l.
Proof. intros [He Hm] Hsub. split; eauto. Qed.

Lemma canonical_loop_total cs seen s :
  canonical_inv seen s → sorted_by compare_fact (seen ++ cs) → consistent_facts (seen ++ cs) →
  Z.of_nat (length (seen ++ cs)) ≤ U32_MAX → (∀ x, x ∈ seen ++ cs → 0 ≤ original_bytes x) →
  total_bytes (seen ++ cs) ≤ U64_MAX → is_ok (canonical_loop s cs).
Proof.
  revert seen s. induction cs as [|c cs IH]; intros seen s Hinv Hsorted Hcons Hlen Hpos Hbytes; simpl.
  { by eexists. }
  rewrite total_bytes_app, length_app in *. simpl in *.
  pose proof (total_bytes_sublist _ _ (ci_facts _ _ Hinv) ltac:(intros; apply Hpos; set_solver)).
  pose proof (total_bytes_sublist [] cs (sublist_nil_l _) ltac:(intros; apply Hpos; set_solver)). simpl in *.
  destruct (canonical_step_total seen s c) as [s1 Hs1]; [done|apply (consistent_sub _ _ Hcons); set_solver|lia|lia|].
  rewrite Hs1. simpl. apply (IH (seen ++ [c])); rewrite <- ?app_assoc; simpl;
    rewrite ?total_bytes_app, ?length_app; simpl; try done; try lia.
  apply (canonical_step_inv _ _ _ _ Hinv); [|done].
  intros x Hx. apply (StronglySorted_app_1_elem_of _ _ _ _ _ Hsorted Hx). left.
Qed.

Lemma canonicalize_inv l c :
  canonicalize l = Ok c → ∃ s, replay s = c ∧ canonical_inv (sort_by compare_fact l) s.
Proof.
  unfold canonicalize. intros Hs. bind Hs as s Hl. inv_ok. exists s. split; [done|].
  apply (canonical_loop_inv _ [] initial_state s); [apply initial_inv|apply sort_by_sorted; apply _|done].
Qed.

Lemma canonical_inv_consistent l s : canonical_inv l s → consistent_facts l.
Proof.
  intros Hinv. split.
  - intros x y Hx Hy Hk. destruct (ci_seen _ _ Hinv x Hx) as (f & Hf & Hrf & _).
    destruct (ci_seen _ _ Hinv y Hy) as (g & Hg & Hrg & _).
    assert (f = g) as ->; [|congruence].
    apply list_elem_of_lookup in Hf as [i Hi]. apply list_elem_of_lookup in Hg as [j Hj].
    assert (event_key f = event_key g) as Hfg.
    { unfold event_key in *. rewrite Hrf, Hrg. done. }
    assert (i = j) as ->; [|congruence].
    apply (NoDup_lookup (map event_key (facts (replay s))) _ _ (event_key f) (ci_keys _ _ Hinv)).
    + by apply list_lookup_fmap_Some_2.
    + rewrite Hfg. by apply list_lookup_fmap_Some_2.
  - intros x y Hx Hy Hm. destruct (ci_seen _ _ Hinv x Hx) as (f & Hf & Hrf & _).
    destruct (ci_seen _ _ Hinv y Hy) as (g & Hg & Hrg & _). rewrite <- Hrf, <- Hrg in *.
    destruct (ci_indexed _ _ Hinv f Hf) as (i & f0 & Hi & Hf0 & <-).
    destruct (ci_indexed _ _ Hinv g Hg) as (j & g0 & Hj & Hg0 & <-). congruence.
Qed.

(** Sorting does not depend on the offered order when equal keys mean equal facts. *)
Lemma sort_fact_perm l l' : consistent_facts l → l ≡ₚ l' → sort_by compare_fact l = sort_by compare_fact l'.
Proof.
  intros [Hev _] Hperm.
  eapply (StronglySorted_unique_strong (λ x y, is_le (compare_fact x y)));
    [|apply sort_by_sorted; apply _..|by rewrite !sort_by_perm].
  intros x y. rewrite !sort_by_perm, <- Hperm. intros Hx Hy Hxy Hyx.
  assert (compare_fact x y = Eq) as Heq.
  { rewrite (cmp_swap x y) in Hyx. by destruct (compare_fact x y). }
  apply compare_fact_key in Heq as (Hk & _ & Ho & Hb). specialize (Hev x y Hx Hy Hk).
  destruct x, y; simpl in *; congruence.
Qed.

Lemma ingest_from_Ok bounded accepted offered n m l :
  ingest_from bounded accepted offered n m = Ok l →
  accepted = total_bytes bounded → accepted ≤ m → (length bounded ≤ n)%nat →
  ∃ taken, l = bounded ++ taken ∧ Forall2 (λ r f, r = Ok f) offered taken ∧
    (length l ≤ n)%nat ∧ total_bytes l ≤ m.
Proof.
  revert bounded accepted. induction offered as [|r offered IH];
    intros bounded accepted Hs Ha Hm Hn; simpl in Hs.
  { inv_ok. exists []. rewrite app_nil_r. split_and!; [done|constructor|done|lia]. }
  bind Hs as u Hc. apply reject_if_Ok, Nat.eqb_neq in Hc.
  bind Hs as f Hf. bind Hs as a Hacc. apply ok_or_Ok in Hacc. inv_ok. to_prop. inv_int.
  apply IH in Hs as (taken & -> & Hall & Hlen & Hb);
    [|rewrite total_bytes_app; simpl; lia|done|rewrite length_app; simpl; lia].
  exists (f :: taken). rewrite <- app_assoc in *. split_and!; [done|by constructor|done|done].
Qed.

(** An ingested list is the whole of what was offered, within both limits. *)
Lemma ingest_bounded_Ok offered n m l :
  ingest_bounded_facts offered n m = Ok l → 0 ≤ m →
  Forall2 (λ r f, r = Ok f) offered l ∧ (length l ≤ n)%nat ∧ total_bytes l ≤ m.
Proof.
  unfold ingest_bounded_facts. intros Hs Hm.
  apply ingest_from_Ok in Hs as (taken & -> & Hall & Hlen & Hb); [|done|done|simpl; lia].
  simpl in *. split; [|done]. pose proof (Forall2_length Hall) as Hl. rewrite length_take in Hl.
  by rewrite take_ge in Hall by lia.
Qed.

Lemma replay_fact_Ok request start finished a f :
  replay_fact request start finished a = Ok f →
  adm_trade_id a = request_trade_id request ∧ from_admitted a = Ok (record f) ∧
  observed_at f = adm_observed_at a ∧ original_bytes f = Z.of_nat (length (adm_original a)) ∧
  start ≤ observed_at f * 1000 + 999 ∧ observed_at f * 1000 ≤ finished.
Proof.
  unfold replay_fact, u64_checked_mul. intros Hs. inv_ok. to_prop. inv_int.
  apply bytes_eqb_true in H. destruct (_ <=? U64_MAX) in *; simplify_eq. simpl.
  split_and!; done || lia.
Qed.

(** ** Properties *)

(** Canonicalization does not depend on the order in which a source returned
    its events: offering the same observations in any order gives the same replay. *)
Theorem canonicalize_order_independent l l' c :
  canonicalize l = Ok c → l ≡ₚ l' → canonicalize l' = Ok c.
Proof.
  intros Hs Hperm. destruct (canonicalize_inv _ _ Hs) as (s & _ & Hinv).
  apply canonical_inv_consistent in Hinv.
  rewrite <- Hs. unfold canonicalize. rewrite (sort_fact_perm l l'); [done| |done].
  apply (consistent_sub _ _ Hinv). intros x. by rewrite sort_by_perm.
Qed.

(** The canonical replay keeps exactly one fact per signed event, the earliest
    observation of it: the facts are distinct events in canonical order, every
    candidate is represented by a fact with the same record observed no later,
    the duplicates are the rest, the byte total is the retained one, the cursor
    is the greatest event and the first observation the earliest. *)
Theorem canonical_replay_is_exact l c :
  canonicalize l = Ok c →
  NoDup (map event_key (facts c)) ∧ sorted_by compare_fact (facts c) ∧
  (∀ f, f ∈ facts c → f ∈ l) ∧
  (∀ x, x ∈ l → ∃ f, f ∈ facts c ∧ record f = record x ∧ observed_at f ≤ observed_at x) ∧
  Z.of_nat (length (facts c)) + duplicate_observations c = Z.of_nat (length l) ∧
  accepted_original_bytes c = total_bytes (facts c) ∧
  greatest_cursor (cursor_candidate c) (facts c) ∧ least_second (first_observed_at c) (facts c).
Proof.
  intros (s & <- & Hinv)%canonicalize_inv. pose proof (ci_facts _ _ Hinv) as Hsub.
  split_and!; try apply Hinv.
  - clear -Hsub. pose proof (sort_by_sorted compare_fact l) as Hs. unfold sorted_by in *.
    revert Hs. induction Hsub as [|x k k' Hk IH|x k k' Hk IH]; [done|..];
      intros [Hx Hs]%StronglySorted_cons; auto.
    apply StronglySorted_cons. split; [|auto]. apply List.Forall_forall. intros y Hy%list_elem_of_In.
    apply (elem_of_Forall _ _ _ Hx). by eapply elem_of_sublist.
  - intros f Hf. rewrite <- (sort_by_perm compare_fact). by eapply elem_of_sublist.
  - intros x Hx. apply (ci_seen _ _ Hinv). by rewrite sort_by_perm.
  - rewrite (ci_count _ _ Hinv), sort_by_perm. done.
Qed.

(** Conflict detection is exact: within the counters' ranges, canonicalization
    succeeds precisely when no two candidates disagree, that is when one signed
    event always carries one record and one mutation identity one mutation. *)
Theorem canonicalize_accepts_exactly_consistent l :
  Z.of_nat (length l) ≤ U32_MAX → (∀ x, x ∈ l → 0 ≤ original_bytes x) → total_bytes l ≤ U64_MAX →
  is_ok (canonicalize l) ↔ consistent_facts l.
Proof.
  intros Hlen Hpos Hbytes. split.
  - intros [c (s & _ & Hinv%canonical_inv_consistent)%canonicalize_inv].
    apply (consistent_sub _ _ Hinv). intros x. by rewrite sort_by_perm.
  - intros Hcons. unfold canonicalize.
    destruct (canonical_loop_total (sort_by compare_fact l) [] initial_state) as [s Hs]; simpl.
    + apply initial_inv.
    + apply sort_by_sorted. apply _.
    + apply (consistent_sub _ _ Hcons). intros x. by rewrite sort_by_perm.
    + by rewrite sort_by_perm.
    + intros x. rewrite sort_by_perm. auto.
    + rewrite (total_bytes_perm _ l); [done|]. apply sort_by_perm.
    + rewrite Hs. simpl. by eexists.
Qed.

(** A finished replay covers everything the source returned, within the
    request's limits: every event belongs to the request's trade, was observed
    during the source operation and is represented by a retained fact; the
    result carries the retained counts, and an event that fits nothing of this
    makes the whole replay fail. *)
Theorem finished_replay_is_complete plan request o start finished events rep :
  0 ≤ maximum_events request → 0 ≤ maximum_bytes request →
  finish plan request o start finished events = Ok rep →
  request_id_of request = rp_request_id plan ∧
  outcome (replay_result rep) = o ∧
  accepted_event_count (replay_result rep) = Z.of_nat (length (replay_facts rep)) ∧
  Z.of_nat (length events) ≤ maximum_events request ∧
  Z.of_nat (length (replay_facts rep)) + replay_duplicate_observations rep =
    Z.of_nat (length events) ∧
  replay_accepted_original_bytes rep ≤ maximum_bytes request ∧
  NoDup (map event_key (replay_facts rep)) ∧
  (∀ a, a ∈ events → adm_trade_id a = request_trade_id request ∧
     start ≤ adm_observed_at a * 1000 + 999 ∧ adm_observed_at a * 1000 ≤ finished ∧
     ∃ f, f ∈ replay_facts rep ∧ from_admitted a = Ok (record f) ∧
       observed_at f ≤ adm_observed_at a).
Proof.
  unfold finish. intros Hme Hmb Hs. bind Hs as u Hid.
  apply reject_if_Ok, negb_false_iff, bytes_eqb_true in Hid.
  bind Hs as u1 Hr0. bind Hs as candidates Hin.
  apply ingest_bounded_Ok in Hin as (Hall & Hlen & Hbytes); [|done].
  bind Hs as c Hcan. bind Hs as n Hn. apply ok_or_Ok, try_from_Some in Hn as [-> Hn].
  bind Hs as res Hres. inv_ok. unfold source_result_new in Hres. inv_ok. simpl.
  pose proof (Forall2_length Hall) as Hl. rewrite length_map in Hl.
  destruct (canonicalize_inv _ _ Hcan) as (s & <- & Hinv).
  pose proof (ci_count _ _ Hinv) as Hcount. rewrite sort_by_perm in Hcount.
  to_prop. split_and!; try done; [lia|lia|apply Hinv|].
  intros a Ha. apply Forall2_fmap_l in Hall. apply list_elem_of_lookup in Ha as [i Hi].
  destruct (Forall2_lookup_l _ _ _ _ _ Hall Hi) as (f & Hf & (Ht & Hrec & Ho & _ & Hge & Hle)%replay_fact_Ok).
  rewrite Ho in *. split_and!; [done|lia|lia|].
  destruct (ci_seen _ _ Hinv f) as (g & Hg & Hgr & Hgo).
  { rewrite sort_by_perm. by eapply list_elem_of_lookup_2. }
  exists g. rewrite Hgr, Hrec. split_and!; [done|done|lia].
Qed.

(** A cursor only moves forward, and only on complete evidence: a replay offers
    a cursor for its checkpoint exactly when the source completed and the greatest
    retained event lies strictly after the prior cursor. *)
Theorem eligible_cursor_advances l c o prior cur :
  canonicalize l = Ok c → eligible_cursor o (cursor_candidate c) prior = Some cur →
  o = Complete ∧ (∀ p, prior = Some p → is_lt (compare_cursor p cur)) ∧
  (∃ f, f ∈ l ∧ cur = cursor_of f) ∧ (∀ x, x ∈ l → is_le (compare_cursor (cursor_of x) cur)).
Proof.
  intros (s & <- & Hinv)%canonicalize_inv. unfold eligible_cursor.
  destruct (bool_decide (o = Complete)) eqn:Ho; simpl; [|done]. to_prop. intros Hc.
  apply filter_opt_Some in Hc as [Hc Hp]. pose proof (ci_cursor _ _ Hinv) as Hg. rewrite Hc in Hg.
  destruct Hg as [(f & Hf & ->) Hle]. split_and!; [done| |..].
  - intros p ->. simpl in Hp. by rewrite Hp.
  - exists f. split; [|done]. rewrite <- (sort_by_perm compare_fact).
    by eapply elem_of_sublist, ci_facts.
  - intros x Hx. rewrite <- (sort_by_perm compare_fact) in Hx.
    destruct (ci_seen _ _ Hinv x Hx) as (g & Hg & Hr & _).
    replace (cursor_of x) with (cursor_of g) by (unfold cursor_of; by rewrite Hr). by apply Hle.
Qed.

(** The query window of a replay overlaps what was already committed: it starts
    [overlap] seconds before the prior cursor, or [lookback] seconds before the
    attempt when there is none, never before time zero, and the prior cursor is
    one of this source, trade, policy and selector. *)
Theorem replay_window_overlaps_prior `{Sha256, JsonValue V, !JsonWriter V} attempt request
    (normalized : V) prior plan :
  from_request attempt request normalized prior = Ok plan →
  rp_request_id plan = request_id_of request ∧
  1 ≤ rp_overlap_seconds plan ≤ 86400 ∧ rp_overlap_seconds plan ≤ lookback_seconds request ∧
  match prior with
  | Some e =>
      rp_since_unix_seconds plan =
        Z.max 0 (created_at_unix_seconds (ce_cursor e) - rp_overlap_seconds plan) ∧
      ce_source_id e = source_id request ∧ ce_trade_id e = request_trade_id request ∧
      ce_policy_digest e = plan_policy_digest attempt ∧
      ce_selector_digest e = selector_digest_of request
  | None =>
      rp_since_unix_seconds plan =
        Z.max 0 (attempt_started_at request / 1000 - lookback_seconds request)
  end.
Proof.
  unfold from_request. intros Hs. inv_ok. to_prop. inv_int. simpl. unfold MAX_OVERLAP_SECONDS in *.
  repeat match goal with H : bytes_eqb _ _ = true |- _ => apply bytes_eqb_true in H end.
  split_and!; try done; try lia. destruct prior as [e|]; simpl in *; [|unfold u64_saturating_sub; lia].
  unfold resume_since, u64_saturating_sub, cursor_scope_matches in *. to_prop.
  repeat match goal with H : bytes_eqb _ _ = true |- _ => apply bytes_eqb_true in H end.
  split_and!; [lia|by apply String.eqb_eq|congruence..].
Qed.

(** ** Witnesses: two observations of one event and one later event *)

Definition demo_event (n created : Z) : PersistenceRecord :=
  MkRecord (repeat n 32) (repeat 1 16) "radroots.trade.proposal.v1" 1 (repeat n 32) (repeat n 64)
    (repeat 6 32) 3470 created [123; 125] (repeat n 40).

Definition demo_facts : list ReplayFact :=
  [MkFact (demo_event 5 20) 40 3; MkFact (demo_event 4 10) 40 3; MkFact (demo_event 4 10) 40 2].

Definition demo_canonical : CanonicalReplay :=
  MkCanonical [MkFact (demo_event 4 10) 40 2; MkFact (demo_event 5 20) 40 3] 1 80
    (Some (MkCursor 20 (repeat 5 32))) (Some 2).

Lemma demo_canonicalize : canonicalize demo_facts = Ok demo_canonical.
Proof. vm_compute. reflexivity. Qed.

Lemma canonicalize_order_independent_witness : canonicalize (reverse demo_facts) = Ok demo_canonical.
Proof.
  exact (canonicalize_order_independent demo_facts (reverse demo_facts) demo_canonical demo_canonicalize
    (symmetry (reverse_Permutation demo_facts))).
Defined.

Lemma canonical_replay_is_exact_witness :
  Z.of_nat (length (facts demo_canonical)) + duplicate_observations demo_canonical = 3.
Proof.
  destruct (canonical_replay_is_exact demo_facts demo_canonical demo_canonicalize)
    as (_ & _ & _ & _ & Hcount & _). exact Hcount.
Defined.

Lemma canonicalize_accepts_exactly_consistent_witness : consistent_facts demo_facts.
Proof.
  apply (canonicalize_accepts_exactly_consistent demo_facts); [unfold_max; simpl; lia| | |].
  - intros x [->|[->|[->|[]%elem_of_nil]%elem_of_cons]%elem_of_cons]%elem_of_cons; simpl; lia.
  - unfold_max; simpl; lia.
  - exact (ex_intro _ demo_canonical demo_canonicalize).
Defined.

Lemma eligible_cursor_advances_witness :
  is_lt (compare_cursor (MkCursor 15 (repeat 9 32)) (MkCursor 20 (repeat 5 32))).
Proof.
  destruct (eligible_cursor_advances demo_facts demo_canonical Complete (Some (MkCursor 15 (repeat 9 32)))
    (MkCursor 20 (repeat 5 32)) demo_canonicalize) as (_ & Hlt & _); [vm_compute; reflexivity|].
  exact (Hlt _ eq_refl).
Defined.

#[local] Existing Instance checksum.
#[local] Existing Instance json_value.
#[local] Existing Instance json_writer.

Definition demo_prior : RhiReconciliationSourceCursorEvidence :=
  MkCursorEvidence "primary" (repeat 1 16) demo_digest (selector_digest_of demo_request)
    (MkCursor 1000 (repeat 9 32)).

Definition demo_replay_plan : RhiReconciliationSourceReplayPlan :=
  Eval vm_compute in
    match from_request demo_plan demo_request demo_document (Some demo_prior) with
    | Ok p => p | Err _ => MkReplayPlan [] [] "" [] true [] [] None 0 0 end.

Lemma demo_from_request :
  from_request demo_plan demo_request demo_document (Some demo_prior) = Ok demo_replay_plan.
Proof. vm_compute. reflexivity. Qed.

Lemma replay_window_overlaps_prior_witness : rp_since_unix_seconds demo_replay_plan = 700.
Proof.
  destruct (replay_window_overlaps_prior demo_plan demo_request demo_document (Some demo_prior)
    demo_replay_plan demo_from_request) as (_ & _ & _ & Hsince & _). exact Hsince.
Defined.

Definition demo_events : list RhiAdmittedTradeMutationEvent :=
  [Admitted_event (repeat 4 40) 2 (repeat 4 32) (repeat 1 16) "radroots.trade.proposal.v1" 1
     (repeat 4 32) (repeat 4 64) (repeat 6 32) 3470 10 [123; 125] (Some (repeat 4 40))].

Definition demo_replay : RhiReconciliationSourceReplay :=
  MkReplay demo_replay_plan (MkResult (request_id_of demo_request) Complete 2500 4000 1 40) 0 40
    (Some (MkCursor 10 (repeat 4 32))) (Some 2) [MkFact (demo_event 4 10) 40 2].

Lemma finished_replay_is_complete_witness :
  Z.of_nat (length demo_events) ≤ maximum_events demo_request.
Proof.
  destruct (finished_replay_is_complete demo_replay_plan demo_request Complete 2500 4000 demo_events
    demo_replay) as (_ & _ & _ & Hlen & _); [simpl; lia|simpl; lia|vm_compute; reflexivity|exact Hlen].
Defined.

End Replay.
