(* ===== verification/ReconciliationManifest.v ===== *)
(** * Evidence manifests: [src/src/reconciliation_manifest.rs]

    The material one committed attempt contributes to the evidence manifest: the
    digest of each source's accepted inventory and of its result (the first is in
    [src/src/reconciliation_commit.rs]), the provenance of each observation, and
    the canonical mutation material of the reducer; and the manifest frozen from
    it.  The shared manifest encoding ([radroots_trade]) is an interface. *)

From Stdlib Require Import Sorted.
From stdpp Require Import list strings sorting.
From S2P Require Import Prelude.
From S2P Require Import Sql.
From S2P Require Import Interfaces.
From S2P Require Import SourceIngest.
From S2P Require Import StateTrade.
From S2P Require Import ReconciliationJob.
From S2P Require Import ReconciliationAttempt.
From S2P Require Import ReconciliationReplay.

Module Manifest.
Import Evidence Source Attempt Replay.

Definition SOURCE_INVENTORY_DIGEST_DOMAIN : bytes :=
  as_bytes "radroots.rhi.reconciliation_source_inventory.v1" ++ [0].
Definition SOURCE_RESULT_DIGEST_DOMAIN : bytes :=
  as_bytes "radroots.rhi.reconciliation_manifest_source_result.v1" ++ [0].
Definition PROVENANCE_DIGEST_DOMAIN : bytes :=
  as_bytes "radroots.rhi.evidence_provenance.v1" ++ [0].
Definition RHI_REDUCER_MAXIMUM_MUTATIONS : Z := 65536.
Definition RHI_REDUCER_MAXIMUM_MUTATION_MATERIAL_BYTES : Z := 134217728.

Inductive RhiReconciliationScopePrerequisites : Type := Satisfied | Unsatisfied.

Inductive RhiReconciliationManifestErrorKind : Type :=
| InvalidObservationTime | InvalidCommittedInventory.

(** ** The shared vocabulary of [radroots_trade::evidence] *)

Inductive SourceCompletion : Type := SourceComplete | SourceIncomplete | SourceUnsupported.

Definition map_completion (value : RhiTradeSourceCompletion) : SourceCompletion :=
  match value with
  | Complete => SourceComplete
  | Unsupported => SourceUnsupported
  | IncompleteTimeout | IncompleteUnavailable | IncompleteResourceLimit | IncompleteUnknown =>
      SourceIncomplete
  end.

Record ManifestSource : Type := MkManifestSource {
  ms_source_id : string;
  ms_required : bool;
  ms_completion : SourceCompletion;
  ms_accepted : Z;
  ms_result_digest : bytes;
}.

Record ManifestObservation : Type := MkManifestObservation {
  mo_source_id : string;
  mo_mutation_id : bytes;
  mo_event_id : bytes;
  mo_event_digest : bytes;
  mo_provenance : bytes;
}.

Inductive RhiReconciliationCoverage : Type :=
| CoverageMissing | CoveragePartial | CoverageScopeSatisfied | CoverageUnsupported.

(** The shared manifest: its validating constructors and what is read of it. *)
Class EvidenceLibrary (M : Type) : Type := {
  source_id_parse : string → bool;
  source_result_ok : bool → SourceCompletion → Z → bool;
  signed_event_digest : bytes → bytes;
  manifest_new : bytes → Z → bytes → Z → RhiReconciliationScopePrerequisites →
    list ManifestSource → list ManifestObservation → option M;
  manifest_trade_id : M → bytes;
  manifest_observed_at : M → Z;
  manifest_policy_digest : M → bytes;
  manifest_observations : M → list ManifestObservation;
  manifest_coverage : M → RhiReconciliationCoverage;
  manifest_digest : M → bytes;
}.

(** A manifest answers what it was built from; its observations are the given ones
    in some order. *)
Class EvidenceLaws (M : Type) `{EvidenceLibrary M} : Prop :=
  manifest_new_fields trade generation policy at_s pre sources observations m :
    manifest_new trade generation policy at_s pre sources observations = Some m →
    manifest_trade_id m = trade ∧ manifest_observed_at m = at_s ∧ manifest_policy_digest m = policy ∧
    ∀ o, o ∈ manifest_observations m ↔ o ∈ observations.

Record RhiReducerMutationMaterial : Type := MkReducerMaterial {
  rm_mutation_id : bytes;
  rm_event_id : bytes;
  rm_content : bytes;
}.

Record RhiCommittedManifestMaterial : Type := MkCommittedMaterial {
  cm_attempt_id : bytes;
  cm_job_id : bytes;
  cm_trade_id : bytes;
  cm_generation : Z;
  cm_policy_digest : bytes;
  cm_latest_finished_unix_ms : Z;
  cm_sources : list ManifestSource;
  cm_observations : list ManifestObservation;
  cm_reducer_mutations : list RhiReducerMutationMaterial;
}.

Section material.
Context `{Sha256}.

(** ** Digests *)

(** One fact of [accepted_inventory_digest_for_facts]. *)
Definition fact_material (f : PersistenceRecord * Z) : bytes :=
  let r := f.1 in
  mutation_id r ++ trade_id r ++ framed (as_bytes (contract_id r)) ++ to_be_bytes 2 (schema_version r)
  ++ event_id r ++ event_signature r ++ author_pubkey r ++ to_be_bytes 4 (event_kind r)
  ++ to_be_bytes 8 (authored_at_unix_s r) ++ framed (canonical_content r)
  ++ framed (canonical_event_json r) ++ to_be_bytes 8 f.2.

(** [update_framed] on lengths that a [u64] holds, which are all lengths in memory. *)
Definition accepted_inventory_digest_for_facts (facts : list (PersistenceRecord * Z)) : option bytes :=
  count ← try_from U32_MAX (Z.of_nat (length facts));
  Some (sha256 (SOURCE_INVENTORY_DIGEST_DOMAIN ++ to_be_bytes 4 count ++ concat (map fact_material facts))).

Definition committed_inventory_digest (part : RhiReconciliationReplayCommitParts) : option bytes :=
  accepted_inventory_digest_for_facts (cp_facts part).

Definition optional_u64 (value : option Z) : bytes :=
  match value with Some v => 1 :: to_be_bytes 8 v | None => [0] end.

Definition optional_cursor (value : option RhiTradeSourceCursor) : bytes :=
  match value with
  | Some c => 1 :: to_be_bytes 8 (created_at_unix_seconds c) ++ cursor_event_id c
  | None => [0]
  end.

Definition flag (b : bool) : Z := if b then 1 else 0.

Definition source_result_digest (plan : RhiReconciliationAttemptPlan) (ordinal : Z)
    (part : RhiReconciliationReplayCommitParts) (inventory_digest : bytes) : option bytes :=
  let res := cp_result part in
  ordinal ← try_from U32_MAX ordinal;
  Some (sha256
    (SOURCE_RESULT_DIGEST_DOMAIN ++ plan_id plan ++ to_be_bytes 4 ordinal ++ cp_request_id part
     ++ framed (as_bytes (cp_source_id part)) ++ cp_trade_id part ++ [flag (cp_required part)]
     ++ cp_policy_digest part ++ cp_selector_digest part ++ cp_replay_id part
     ++ framed (as_bytes (completion_code (outcome res))) ++ to_be_bytes 8 (started_at res)
     ++ to_be_bytes 8 (finished_at res) ++ to_be_bytes 4 (accepted_event_count res)
     ++ to_be_bytes 8 (accepted_event_bytes res) ++ inventory_digest
     ++ to_be_bytes 4 (cp_duplicate_observations part) ++ optional_u64 (cp_first_observed_at part)
     ++ optional_cursor (cp_prior_cursor part) ++ to_be_bytes 8 (cp_overlap_seconds part)
     ++ to_be_bytes 8 (cp_since_unix_seconds part) ++ optional_cursor (cp_cursor_candidate part)
     ++ [flag (bool_decide (is_Some (cp_eligible_cursor part)))])).

Definition provenance_digest (part : RhiReconciliationReplayCommitParts) (f : PersistenceRecord * Z) :
    bytes :=
  sha256 (PROVENANCE_DIGEST_DOMAIN ++ framed (as_bytes (cp_source_id part))
          ++ framed (as_bytes Evidence.SOURCE_SELECTOR) ++ cp_policy_digest part ++ event_id f.1
          ++ event_signature f.1 ++ to_be_bytes 8 f.2).

(** ** The committed material *)

(** [reducer_mutations.entry(id).and_modify(...).or_insert_with(...)] on the map's
    entries in key order. *)
Fixpoint material_entry (r : PersistenceRecord) (l : list RhiReducerMutationMaterial) :
    list RhiReducerMutationMaterial :=
  let new := MkReducerMaterial (mutation_id r) (event_id r) (canonical_content r) in
  match l with
  | [] => [new]
  | current :: rest =>
      match bytes_cmp (mutation_id r) (rm_mutation_id current) with
      | Lt => new :: l
      | Eq => (if is_lt (bytes_cmp (event_id r) (rm_event_id current)) then new else current) :: rest
      | Gt => current :: material_entry r rest
      end
  end.

(** [iter.try_fold(0, usize::checked_add)] *)
Fixpoint checked_sum (total : Z) (lengths : list Z) : option Z :=
  match lengths with
  | [] => Some total
  | n :: lengths => total ← u64_checked_add total n; checked_sum total lengths
  end.

Context `{EvidenceLibrary M}.

Definition manifest_observation (part : RhiReconciliationReplayCommitParts)
    (f : PersistenceRecord * Z) : ManifestObservation :=
  MkManifestObservation (cp_source_id part) (mutation_id f.1) (event_id f.1)
    (signed_event_digest (canonical_event_json f.1)) (provenance_digest part f).

Definition manifest_source (plan : RhiReconciliationAttemptPlan) (ordinal : Z)
    (part : RhiReconciliationReplayCommitParts) : option ManifestSource :=
  let res := cp_result part in
  if negb (source_id_parse (cp_source_id part))
     || negb (source_result_ok (cp_required part) (map_completion (outcome res))
                (accepted_event_count res))
  then None
  else
    inventory ← committed_inventory_digest part;
    digest ← source_result_digest plan ordinal part inventory;
    Some (MkManifestSource (cp_source_id part) (cp_required part) (map_completion (outcome res))
            (accepted_event_count res) digest).

Record MaterialState : Type := MkMaterialState {
  st_latest : Z;
  st_sources : list ManifestSource;
  st_observations : list ManifestObservation;
  st_mutations : list RhiReducerMutationMaterial;
}.

(** [for (ordinal, part) in parts.iter().enumerate()] *)
Fixpoint material_loop (plan : RhiReconciliationAttemptPlan) (trade : bytes) (ordinal : Z)
    (parts : list RhiReconciliationReplayCommitParts) (s : MaterialState) : option MaterialState :=
  match parts with
  | [] => Some s
  | part :: parts =>
      if negb (bytes_eqb (cp_trade_id part) trade)
         || negb (bytes_eqb (cp_policy_digest part) (plan_policy_digest plan))
      then None
      else
        source ← manifest_source plan ordinal part;
        material_loop plan trade (ordinal + 1) parts
          (MkMaterialState (Z.max (st_latest s) (finished_at (cp_result part)))
             (st_sources s ++ [source])
             (st_observations s ++ map (manifest_observation part) (cp_facts part))
             (fold_left (λ l f, material_entry f.1 l) (cp_facts part) (st_mutations s)))
  end.

Definition committed_manifest_material (plan : RhiReconciliationAttemptPlan)
    (parts : list RhiReconciliationReplayCommitParts) : option RhiCommittedManifestMaterial :=
  trade ← cp_trade_id <$> head parts;
  generation ← filter_opt (λ g, negb (g =? 0)) (Some (plan_input_generation plan));
  _ ← checked_sum 0 (map (λ p, Z.of_nat (length (cp_facts p))) parts);
  s ← material_loop plan trade 0 parts (MkMaterialState 0 [] [] []);
  if (RHI_REDUCER_MAXIMUM_MUTATIONS <? Z.of_nat (length (st_mutations s)))
     || is_none_or (λ total, RHI_REDUCER_MAXIMUM_MUTATION_MATERIAL_BYTES <? total)
          (checked_sum 0 (map (λ m, Z.of_nat (length (rm_content m))) (st_mutations s)))
  then None
  else
    Some (MkCommittedMaterial (plan_id plan) (plan_job_id plan) trade generation
            (plan_policy_digest plan) (st_latest s) (st_sources s) (st_observations s) (st_mutations s)).

(** ** The frozen manifest *)

Record RhiReconciliationManifest : Type := MkManifest {
  inner : M;
  mf_attempt_id : bytes;
  mf_job_id : bytes;
  mf_reducer_mutations : list RhiReducerMutationMaterial;
}.

(** [latest.div_ceil(1_000)] *)
Definition freeze_manifest (material : RhiCommittedManifestMaterial) (observed_at : Z)
    (prerequisites : RhiReconciliationScopePrerequisites) :
    result RhiReconciliationManifestErrorKind RhiReconciliationManifest :=
  let earliest_observation := (cm_latest_finished_unix_ms material + 999) / 1000 in
  reject_if ((observed_at <? earliest_observation) || (I64_MAX <? observed_at)) InvalidObservationTime ;?
  let? inner :=
    ok_or (manifest_new (cm_trade_id material) (cm_generation material) (cm_policy_digest material)
             observed_at prerequisites (cm_sources material) (cm_observations material))
      InvalidCommittedInventory in
  Ok (MkManifest inner (cm_attempt_id material) (cm_job_id material) (cm_reducer_mutations material)).

(** ** The inventory digest *)

(** A record in the widths of its Rust fields. *)
Record fact_wf (f : PersistenceRecord * Z) : Prop := {
  fw_mutation : length (mutation_id f.1) = 32%nat;
  fw_trade : length (trade_id f.1) = 16%nat;
  fw_contract : Z.of_nat (length (as_bytes (contract_id f.1))) ≤ U64_MAX;
  fw_schema : 0 ≤ schema_version f.1 ≤ U16_MAX;
  fw_event : length (event_id f.1) = 32%nat;
  fw_signature : length (event_signature f.1) = 64%nat;
  fw_author : length (author_pubkey f.1) = 32%nat;
  fw_kind : 0 ≤ event_kind f.1 ≤ U32_MAX;
  fw_authored : 0 ≤ authored_at_unix_s f.1 ≤ U64_MAX;
  fw_content : Z.of_nat (length (canonical_content f.1)) ≤ U64_MAX;
  fw_json : Z.of_nat (length (canonical_event_json f.1)) ≤ U64_MAX;
  fw_observed : 0 ≤ f.2 ≤ U64_MAX;
}.

(** A fixed-width integer at the head of a message. *)
Lemma be_app_inj n x y k1 k2 :
  0 ≤ x < 2 ^ (8 * Z.of_nat n) → 0 ≤ y < 2 ^ (8 * Z.of_nat n) →
  to_be_bytes n x ++ k1 = to_be_bytes n y ++ k2 → x = y ∧ k1 = k2.
Proof.
  intros Hx Hy Heq. apply app_inj_fixed in Heq as [Heq ->]; [|by rewrite !length_to_be_bytes].
  by apply to_be_bytes_inj in Heq.
Qed.

(** A fact can be read back from the front of the hashed material. *)
Lemma fact_material_inj f f' k k' :
  fact_wf f → fact_wf f' → fact_material f ++ k = fact_material f' ++ k' → f = f' ∧ k = k'.
Proof.
  intros [? ? ? ? ? ? ? ? ? ? ? ?] [? ? ? ? ? ? ? ? ? ? ? ?]. unfold fact_material.
  rewrite <- !app_assoc. intros Heq. unfold_max.
  apply app_inj_fixed in Heq as [? Heq]; [|congruence].
  apply app_inj_fixed in Heq as [? Heq]; [|congruence].
  apply framed_app_inj in Heq as [Hc%as_bytes_inj Heq]; [|done..].
  apply be_app_inj in Heq as [? Heq]; [|simpl; lia..].
  do 3 (apply app_inj_fixed in Heq as [? Heq]; [|congruence]).
  do 2 (apply be_app_inj in Heq as [? Heq]; [|simpl; lia..]).
  do 2 (apply framed_app_inj in Heq as [? Heq]; [|done..]).
  apply be_app_inj in Heq as [? Heq]; [|simpl; lia..].
  split; [|done]. destruct f as [[] ?], f' as [[] ?]; simpl in *. congruence.
Qed.

Lemma concat_material_inj l l' :
  length l = length l' → Forall fact_wf l → Forall fact_wf l' →
  concat (map fact_material l) = concat (map fact_material l') → l = l'.
Proof.
  revert l'; induction l as [|f l IH]; intros [|f' l'] Hlen; simpl in *; try done.
  inversion 1; inversion 1; subst. intros Heq. apply fact_material_inj in Heq as [-> Heq]; [|done..].
  f_equal. apply IH; [lia|done..].
Qed.

(** ** The reducer's material *)

Definition material_of (r : PersistenceRecord) : RhiReducerMutationMaterial :=
  MkReducerMaterial (mutation_id r) (event_id r) (canonical_content r).

Definition mutation_lt (x y : bytes) : Prop := is_lt (bytes_cmp x y).

(** One entry per mutation, in mutation order, of its least event. *)
Record canonical_material (records : list PersistenceRecord) (l : list RhiReducerMutationMaterial) : Prop := {
  ca_sorted : StronglySorted (λ x y, mutation_lt (rm_mutation_id x) (rm_mutation_id y)) l;
  ca_sound m : m ∈ l → ∃ r, r ∈ records ∧ m = material_of r;
  ca_least r : r ∈ records → ∃ m, m ∈ l ∧ rm_mutation_id m = mutation_id r ∧
    is_le (bytes_cmp (rm_event_id m) (event_id r));
}.

Lemma material_entry_elem r l m : m ∈ material_entry r l → m = material_of r ∨ m ∈ l.
Proof.
  induction l as [|x l IH]; simpl; [rewrite list_elem_of_singleton; auto|].
  destruct (bytes_cmp _ _); rewrite ?elem_of_cons; [destruct (is_lt _)|..]; naive_solver.
Qed.

Lemma material_entry_above r l x :
  mutation_lt x (mutation_id r) → Forall (λ m, mutation_lt x (rm_mutation_id m)) l →
  Forall (λ m, mutation_lt x (rm_mutation_id m)) (material_entry r l).
Proof.
  intros Hr Hl. apply Forall_forall. intros m Hm%list_elem_of_In.
  apply material_entry_elem in Hm as [->|Hm]; [done|]. by apply (elem_of_Forall _ _ _ Hl).
Qed.

Lemma material_entry_sorted r l :
  StronglySorted (λ x y, mutation_lt (rm_mutation_id x) (rm_mutation_id y)) l →
  StronglySorted (λ x y, mutation_lt (rm_mutation_id x) (rm_mutation_id y)) (material_entry r l).
Proof.
  unfold mutation_lt. induction 1 as [|x l Hs IH Hx]; simpl; [by repeat constructor|].
  destruct (bytes_cmp _ _) eqn:Hc.
  - apply cmp_eq in Hc. destruct (is_lt _); constructor; try done. simpl. by rewrite Hc.
  - constructor; [by constructor|]. simpl. constructor; [by rewrite Hc|].
    eapply Forall_impl; [|exact Hx]. intros y Hy. simpl in *.
    apply (is_lt_le_trans _ (rm_mutation_id x)); [by rewrite Hc|by apply is_lt_le].
  - constructor; [done|]. apply material_entry_above; [|done].
    unfold mutation_lt. rewrite (cmp_swap (mutation_id r)), Hc. done.
Qed.

(** The entry of the inserted mutation holds the lesser event; other entries stay. *)
Lemma material_entry_least r l m :
  m ∈ l → ∃ m', m' ∈ material_entry r l ∧ rm_mutation_id m' = rm_mutation_id m ∧
    is_le (bytes_cmp (rm_event_id m') (rm_event_id m)).
Proof.
  induction l as [|x l IH]; simpl; [by intros ?%elem_of_nil|]. rewrite elem_of_cons.
  destruct (bytes_cmp (mutation_id r) (rm_mutation_id x)) eqn:Hc; intros [->|Hm].
  - apply cmp_eq in Hc. destruct (is_lt _) eqn:Hlt.
    + eexists. split; [by left|]. split; [done|]. apply is_lt_le. simpl. by rewrite Hlt.
    + exists x. split_and!; [by left|done|]. by rewrite cmp_refl.
  - exists m. split_and!; [by right|done|]. by rewrite cmp_refl.
  - exists x. split_and!; [right; by left|done|]. by rewrite cmp_refl.
  - exists m. split_and!; [right; by right|done|]. by rewrite cmp_refl.
  - exists x. split_and!; [by left|done|]. by rewrite cmp_refl.
  - destruct (IH Hm) as (m' & ? & ?). exists m'. split; [by right|done].
Qed.

Lemma material_entry_new r l :
  ∃ m, m ∈ material_entry r l ∧ rm_mutation_id m = mutation_id r ∧
    is_le (bytes_cmp (rm_event_id m) (event_id r)).
Proof.
  induction l as [|x l IH]; simpl.
  - eexists. split; [by apply list_elem_of_singleton|]. split; [done|]. simpl. by rewrite cmp_refl.
  - destruct (bytes_cmp (mutation_id r) (rm_mutation_id x)) eqn:Hc.
    + apply cmp_eq in Hc. destruct (is_lt _) eqn:Hlt.
      * eexists. split; [by left|]. split; [done|]. simpl. by rewrite cmp_refl.
      * exists x. split_and!; [by left|done|]. rewrite is_lt_swap in Hlt. apply negb_false_iff in Hlt.
        by rewrite Hlt.
    + eexists. split; [by left|]. split; [done|]. simpl. by rewrite cmp_refl.
    + destruct IH as (m & ? & ?). exists m. split; [by right|done].
Qed.

Lemma material_entry_canonical records r l :
  canonical_material records l → canonical_material (records ++ [r]) (material_entry r l).
Proof.
  intros [Hs Hsound Hleast]. split.
  - by apply material_entry_sorted.
  - intros m [->|Hm]%material_entry_elem.
    + exists r. split; [apply elem_of_app; right; by apply list_elem_of_singleton|done].
    + destruct (Hsound m Hm) as (r' & ? & ->). exists r'. split; [apply elem_of_app; by left|done].
  - intros r' [Hr'| ->%list_elem_of_singleton]%elem_of_app; [|apply material_entry_new].
    destruct (Hleast r' Hr') as (m & Hm & Hid & Hle).
    destruct (material_entry_least r l m Hm) as (m' & Hm' & Hid' & Hle').
    exists m'. split_and!; [done|congruence|]. by eapply is_le_trans.
Qed.

Lemma material_fold_canonical records facts l :
  canonical_material records l →
  canonical_material (records ++ map fst facts)
    (fold_left (λ l (f : PersistenceRecord * Z), material_entry f.1 l) facts l).
Proof.
  revert records l; induction facts as [|f facts IH]; intros records l Hl; simpl; [by rewrite app_nil_r|].
  specialize (IH (records ++ [f.1]) (material_entry f.1 l) (material_entry_canonical _ _ _ Hl)).
  by rewrite <- app_assoc in IH.
Qed.

Definition records_of (parts : list RhiReconciliationReplayCommitParts) : list PersistenceRecord :=
  concat (map (λ p, map fst (cp_facts p)) parts).

Definition observations_of (parts : list RhiReconciliationReplayCommitParts) : list ManifestObservation :=
  concat (map (λ p, map (manifest_observation p) (cp_facts p)) parts).

Lemma material_loop_Some plan trade ordinal parts s s' records :
  canonical_material records (st_mutations s) → material_loop plan trade ordinal parts s = Some s' →
  canonical_material (records ++ records_of parts) (st_mutations s') ∧
  st_observations s' = st_observations s ++ observations_of parts ∧
  Forall (λ p, cp_trade_id p = trade ∧ cp_policy_digest p = plan_policy_digest plan) parts ∧
  st_latest s ≤ st_latest s' ∧ Forall (λ p, finished_at (cp_result p) ≤ st_latest s') parts.
Proof.
  unfold records_of, observations_of. revert ordinal s records.
  induction parts as [|p parts IH]; intros ordinal s records Hc Hl; simpl in Hl.
  - injection Hl as <-. simpl. rewrite !app_nil_r. by split_and!.
  - destruct (_ || _) eqn:Hp; [done|]. to_prop. apply bind_Some in Hl as (source & Hsrc & Hl).
    apply (IH _ _ (records ++ map fst (cp_facts p))) in Hl as (Hq1 & Hq2 & Hq3 & Hq4 & Hq5);
      [|by apply material_fold_canonical].
    simpl in *. rewrite <- app_assoc in Hq1. rewrite Hq2, <- app_assoc.
    split_and!; [done|done| |lia|]; constructor; try done; [|lia].
    rewrite bytes_eqb_true in *. auto.
Qed.

(** What the committed material holds of its parts. *)
Lemma committed_material_Some plan parts m :
  committed_manifest_material plan parts = Some m →
  canonical_material (records_of parts) (cm_reducer_mutations m) ∧
  cm_observations m = observations_of parts ∧
  Forall (λ p, cp_trade_id p = cm_trade_id m ∧ cp_policy_digest p = cm_policy_digest m) parts ∧
  cm_policy_digest m = plan_policy_digest plan ∧
  Forall (λ p, finished_at (cp_result p) ≤ cm_latest_finished_unix_ms m) parts ∧
  Z.of_nat (length (cm_reducer_mutations m)) ≤ RHI_REDUCER_MAXIMUM_MUTATIONS ∧
  (∃ total, checked_sum 0 (map (λ x, Z.of_nat (length (rm_content x))) (cm_reducer_mutations m)) = Some total ∧
            total ≤ RHI_REDUCER_MAXIMUM_MUTATION_MATERIAL_BYTES).
Proof.
  unfold committed_manifest_material. intros Hm. apply bind_Some in Hm as (trade & Ht & Hm).
  apply bind_Some in Hm as (g & Hg & Hm). apply bind_Some in Hm as (n & Hn & Hm).
  apply bind_Some in Hm as (s & Hs & Hm). destruct (_ || _) eqn:Hb; [done|]. injection Hm as <-. simpl.
  apply (material_loop_Some _ _ _ _ _ _ []) in Hs as (Hq1 & Hq2 & Hq3 & Hq4 & Hq5).
  - to_prop. destruct (checked_sum 0 (map _ (st_mutations s))) as [total|] eqn:Hsum; [|done].
    simpl in *. to_prop. by split_and!; eauto.
  - split; simpl; [constructor|by intros ? ?%elem_of_nil|by intros ? ?%elem_of_nil].
Qed.

(** The sources of the material, one per part in order. *)
Lemma material_loop_sources plan trade ordinal parts s s' :
  material_loop plan trade ordinal parts s = Some s' →
  ∃ l, st_sources s' = st_sources s ++ l ∧
    Forall2 (λ part src, ∃ n, manifest_source plan n part = Some src) parts l.
Proof.
  revert ordinal s; induction parts as [|part parts IH]; intros ordinal s Hs; cbn [material_loop] in Hs.
  - injection Hs as <-. exists []. by rewrite app_nil_r.
  - destruct (_ || _); [done|]. apply bind_Some in Hs as (src & Hsrc & Hs).
    apply IH in Hs as (l & Hl & Hall). cbn [st_sources] in Hl. exists (src :: l).
    rewrite Hl, <- app_assoc. split; [done|]. constructor; [by exists ordinal|done].
Qed.

Lemma manifest_source_Some plan ordinal part src :
  manifest_source plan ordinal part = Some src →
  ms_source_id src = cp_source_id part ∧ ms_required src = cp_required part ∧
  ms_completion src = map_completion (outcome (cp_result part)) ∧
  ms_accepted src = accepted_event_count (cp_result part).
Proof.
  unfold manifest_source. destruct (_ || _); [done|]. intros Hm.
  apply bind_Some in Hm as (i & _ & Hm). apply bind_Some in Hm as (d & _ & Hm). by injection Hm as <-.
Qed.

Lemma committed_material_identity plan parts m :
  committed_manifest_material plan parts = Some m →
  cm_attempt_id m = plan_id plan ∧ cm_job_id m = plan_job_id plan ∧
  cm_generation m = plan_input_generation plan ∧ Some (cm_trade_id m) = cp_trade_id <$> head parts ∧
  Forall2 (λ part src, ∃ n, manifest_source plan n part = Some src) parts (cm_sources m).
Proof.
  unfold committed_manifest_material. intros Hm. apply bind_Some in Hm as (trade & Ht & Hm).
  apply bind_Some in Hm as (g & Hg & Hm). apply bind_Some in Hm as (n & Hn & Hm).
  apply bind_Some in Hm as (s & Hs & Hm). destruct (_ || _) eqn:Hb; [done|]. injection Hm as <-.
  apply filter_opt_Some in Hg as [[= <-] _].
  apply material_loop_sources in Hs as (l & Hl & Hall). cbn [st_sources app] in Hl. subst l.
  by split_and!.
Qed.

(** What [freeze_manifest] answers. *)
Lemma freeze_manifest_Ok `{!EvidenceLaws M} material at_s pre mf :
  freeze_manifest material at_s pre = Ok mf →
  cm_latest_finished_unix_ms material ≤ at_s * 1000 ∧ at_s ≤ I64_MAX ∧
  mf_reducer_mutations mf = cm_reducer_mutations material ∧
  mf_attempt_id mf = cm_attempt_id material ∧ mf_job_id mf = cm_job_id material ∧
  manifest_trade_id (inner mf) = cm_trade_id material ∧ manifest_observed_at (inner mf) = at_s ∧
  manifest_policy_digest (inner mf) = cm_policy_digest material ∧
  ∀ o, o ∈ manifest_observations (inner mf) ↔ o ∈ cm_observations material.
Proof.
  unfold freeze_manifest. intros Hf. bind Hf as u Hu. apply reject_if_Ok in Hu. to_prop.
  bind Hf as m Hm. apply ok_or_Ok in Hm. injection Hf as <-. simpl.
  destruct (manifest_new_fields _ _ _ _ _ _ _ _ Hm) as (? & ? & ? & ?).
  pose proof (Z.div_mod (cm_latest_finished_unix_ms material + 999) 1000 ltac:(lia)).
  pose proof (Z.mod_pos_bound (cm_latest_finished_unix_ms material + 999) 1000 ltac:(lia)).
  split_and!; done || lia.
Qed.

(** ** Properties *)

(** The inventory digest identifies what a source delivered: two inventories
    with one digest hold the same facts with the same observation times, in the same
    order, unless SHA-256 collides. *)
Theorem inventory_digest_identifies facts facts' d :
  Forall fact_wf facts → Forall fact_wf facts' →
  accepted_inventory_digest_for_facts facts = Some d →
  accepted_inventory_digest_for_facts facts' = Some d → facts = facts' ∨ sha256_collision.
Proof.
  unfold accepted_inventory_digest_for_facts. intros Hf Hf' Hd Hd'.
  apply bind_Some in Hd as (n & [-> Hn]%try_from_Some & Hd).
  apply bind_Some in Hd' as (n' & [-> Hn']%try_from_Some & Hd'). rewrite <- Hd' in Hd.
  apply (inj Some) in Hd as Heq. apply sha256_inj_or_collision in Heq as [Heq|]; [left|by right].
  apply app_inv_head in Heq. apply be_app_inj in Heq as [Hlen Heq]; [|unfold U32_MAX in *; simpl; lia..].
  symmetry. apply concat_material_inj; [lia|done..].
Qed.

(** The reducer's material is canonical, whatever the order in which the sources
    delivered: it is strictly ordered by mutation, holds one entry for each mutation
    of the accepted facts and nothing else, each entry is the fact with the least
    event identity of its mutation, and it is within the reducer's bounds. *)
Theorem reducer_material_is_canonical plan parts m :
  committed_manifest_material plan parts = Some m →
  let material := cm_reducer_mutations m in
  StronglySorted (λ x y, is_lt (bytes_cmp (rm_mutation_id x) (rm_mutation_id y))) material ∧
  (∀ x, x ∈ material → ∃ r, r ∈ records_of parts ∧ x = material_of r) ∧
  (∀ r, r ∈ records_of parts → ∃ x, x ∈ material ∧ rm_mutation_id x = mutation_id r ∧
     is_le (bytes_cmp (rm_event_id x) (event_id r))) ∧
  Z.of_nat (length material) ≤ RHI_REDUCER_MAXIMUM_MUTATIONS.
Proof. intros (? & ? & ? & ? & ? & ? & ?)%committed_material_Some. destruct H1. by split_and!. Qed.

End material.

(** ** A concrete attempt: two sources, one of which repeats a mutation *)

#[local] Existing Instance checksum.

Record demo_manifest : Type := DemoManifest {
  dm_trade : bytes; dm_generation : Z; dm_at : Z; dm_policy : bytes; dm_sources : list ManifestSource;
  dm_observations : list ManifestObservation }.

Definition demo_library : EvidenceLibrary demo_manifest := {|
  source_id_parse := λ _, true;
  source_result_ok := λ _ _ _, true;
  signed_event_digest := sha256;
  manifest_new := λ t g p a pre ss os, Some (DemoManifest t g a p ss os);
  manifest_trade_id := dm_trade;
  manifest_observed_at := dm_at;
  manifest_policy_digest := dm_policy;
  manifest_observations := dm_observations;
  manifest_coverage := λ _, CoverageScopeSatisfied;
  manifest_digest := λ m, sha256 (dm_trade m ++ dm_policy m);
|}.

Lemma demo_laws : @EvidenceLaws demo_manifest demo_library.
Proof. intros t g p a pre ss os m. simpl. intros [= <-]. by split_and!. Qed.

#[local] Existing Instance demo_library.

Definition demo_record (m e : Z) : PersistenceRecord :=
  MkRecord (repeat m 32) (repeat 2 16) "radroots.trade.proposal.v1" 1 (repeat e 32) (repeat 4 64)
    (repeat 6 32) 3470 1690 [m; e] (repeat 5 40).

Definition demo_part (id : string) (facts : list (PersistenceRecord * Z)) : RhiReconciliationReplayCommitParts :=
  MkCommitParts (repeat 1 32) (repeat 3 32) id (repeat 2 16) true (repeat 7 32) (repeat 8 32) None 300 700
    (MkResult (repeat 3 32) Complete 2500 3000 (Z.of_nat (length facts)) 80) 0 None None (Some 2)
    facts.

Definition demo_plan : RhiReconciliationAttemptPlan :=
  MkPlan (repeat 9 32) (repeat 10 32) 1 (repeat 7 32) 2000 12000 [].

Definition demo_parts : list RhiReconciliationReplayCommitParts :=
  [demo_part "primary" [(demo_record 20 31, 2); (demo_record 12 30, 2)];
   demo_part "secondary" [(demo_record 20 29, 2)]].

Definition demo_material : list RhiReducerMutationMaterial :=
  [material_of (demo_record 12 30); material_of (demo_record 20 29)].

Definition demo_committed : RhiCommittedManifestMaterial :=
  match committed_manifest_material demo_plan demo_parts with
  | Some m => m
  | None => MkCommittedMaterial [] [] [] 0 [] 0 [] [] []
  end.

Lemma demo_committed_Some : committed_manifest_material demo_plan demo_parts = Some demo_committed.
Proof. vm_compute. reflexivity. Qed.

Lemma demo_committed_material : cm_reducer_mutations demo_committed = demo_material.
Proof. vm_compute. reflexivity. Qed.

Lemma reducer_material_is_canonical_witness :
  Z.of_nat (length demo_material) ≤ RHI_REDUCER_MAXIMUM_MUTATIONS.
Proof.
  destruct (reducer_material_is_canonical demo_plan demo_parts demo_committed demo_committed_Some)
    as (_ & _ & _ & Hn).
  rewrite demo_committed_material in Hn. exact Hn.
Defined.

Lemma demo_fact_wf : Forall fact_wf [(demo_record 20 29, 2)].
Proof. constructor; [|constructor]. split; simpl; done || unfold_max; lia. Qed.

Lemma demo_inventory :
  ∃ d, accepted_inventory_digest_for_facts [(demo_record 20 29, 2)] = Some d.
Proof. by eexists. Qed.

Lemma inventory_digest_identifies_witness :
  [(demo_record 20 29, 2)] = [(demo_record 20 29, 2)] ∨ sha256_collision.
Proof.
  destruct demo_inventory as [d Hd].
  exact (inventory_digest_identifies _ _ d demo_fact_wf demo_fact_wf Hd Hd).
Defined.

End Manifest.
