(* ===== verification/ReconciliationReducer.v ===== *)
(** * Reduction and evaluation: [src/src/reconciliation_reducer.rs]

    The reduction of one sealed manifest by the shared reducer and the outcome of
    one agreement claim against the projection.  The shared reducer
    ([radroots_trade]) and the mutation decoder ([radroots_event]) are an
    interface; the checks before and after it, the digests and the evaluation
    matrix are the program's. *)

From Stdlib Require Import ZArith Lia Sorted.
From stdpp Require Import list strings sorting.
From S2P Require Import Prelude.
From S2P Require Import Sql.
From S2P Require Import Interfaces.
From S2P Require Import StateTrade.
From S2P Require Import JsonText.
From S2P Require Import TradeIngest.
From S2P Require Import ReconciliationReplay.
From S2P Require Import ReconciliationManifest.

Module Reducer.
Import Manifest.

Definition RHI_RECONCILIATION_REDUCER_CONTRACT_VERSION : Z := 1.
Definition PROJECTION_DIGEST_DOMAIN : bytes :=
  as_bytes "radroots.rhi.reconciliation_projection.v1" ++ [0].

Inductive RhiReconciliationReducerErrorKind : Type := InvalidManifest | ProjectionUnavailable.

(** [RadrootsTradeEvidenceStateV1] and [RadrootsTradeEvidenceOutcomeV1] *)
Inductive EvidenceState : Type :=
| StateMissing | StateQueryPartial | StateComplete | StateUnsupportedVersion.
Inductive RhiReconciliationOutcome : Type := Indeterminate | Valid | Invalid.

#[export] Instance outcome_eq_dec : EqDecision RhiReconciliationOutcome.
Proof. solve_decision. Defined.

Inductive RhiReconciliationReasonCode : Type :=
| RequiredEvidenceMissing | RequiredSourceIncomplete | RequiredSourceUnsupported
| ProjectionDigestUnavailable | GoverningSchemaUnsupported | ReducerIssueUnresolved
| AgreementClaimMissing | AgreementClaimUnresolved | ScopeSatisfied | AgreementClaimCancelled.

Definition reason_code (r : RhiReconciliationReasonCode) : string :=
  match r with
  | RequiredEvidenceMissing => "required_evidence_missing"
  | RequiredSourceIncomplete => "required_source_incomplete"
  | RequiredSourceUnsupported => "required_source_unsupported"
  | ProjectionDigestUnavailable => "projection_digest_unavailable"
  | GoverningSchemaUnsupported => "governing_schema_unsupported"
  | ReducerIssueUnresolved => "reducer_issue_unresolved"
  | AgreementClaimMissing => "agreement_claim_missing"
  | AgreementClaimUnresolved => "agreement_claim_unresolved"
  | ScopeSatisfied => "scope_satisfied"
  | AgreementClaimCancelled => "agreement_claim_cancelled"
  end.

(** The shared reducer: the decoder of canonical contents, the reduction of the
    decoded records, and what is read of a projection. *)
Class ReducerLibrary (P : Type) : Type := {
  RADROOTS_TRADE_REDUCER_CONTRACT_ID : string;
  RADROOTS_TRADE_REDUCER_VERSION : Z;
  trade_mutation_from_canonical_content : list Z → option TradeIngest.TradeMutationEnvelopeV1;
  reduce_trade_records : bytes → list (bytes * TradeIngest.TradeMutationEnvelopeV1) → EvidenceState →
    Z → P;
  reducer_contract_id : P → string;
  reducer_version : P → Z;
  shared_trade_id : P → bytes;
  shared_projection_text : P → bytes;
  shared_evidence_state : P → EvidenceState;
  issues : P → nat;
  agreement_claims : P → list bytes;
  active_agreement_claim_ids : P → list bytes;
  contested_claim_ids : P → list bytes;
  cancelled_claim_ids : P → list bytes;
  agreement_agreed : P → bool;
}.

(** ** Bounds and digests *)

Definition material_lengths_within_bounds (count : Z) (lengths : list Z) : bool :=
  (count <=? RHI_REDUCER_MAXIMUM_MUTATIONS)
  && is_some_and (λ total, total <=? RHI_REDUCER_MAXIMUM_MUTATION_MATERIAL_BYTES)
       (checked_sum 0 lengths).

Definition mutation_material_within_bounds (materials : list RhiReducerMutationMaterial) : bool :=
  material_lengths_within_bounds (Z.of_nat (length materials))
    (map (λ m, Z.of_nat (length (rm_content m))) materials).

Definition evidence_state (coverage : RhiReconciliationCoverage) : EvidenceState :=
  match coverage with
  | CoverageMissing => StateMissing
  | CoveragePartial => StateQueryPartial
  | CoverageScopeSatisfied => StateComplete
  | CoverageUnsupported => StateUnsupportedVersion
  end.

Definition decode_lower_hex (value : Z) : option Z :=
  if between 48 57 value then Some (value - 48)
  else if between 97 102 value then Some (value - 97 + 10)
  else None.

Definition u8_checked (v : Z) : option Z := if v <=? U8_MAX then Some v else None.

(** [as_chunks::<2>()] of a text of an even length *)
Fixpoint decode_pairs (text : bytes) : option bytes :=
  match text with
  | high :: low :: text =>
      h ← decode_lower_hex high;
      h ← u8_checked (h * 16);
      l ← decode_lower_hex low;
      b ← u8_checked (h + l);
      rest ← decode_pairs text;
      Some (b :: rest)
  | _ => Some []
  end.

Definition decode_lower_hex_32 (value : bytes) : option bytes :=
  if negb (length value =? 64)%nat then None else decode_pairs value.

(** [slice::binary_search_by_key]: halves the slice until the key or nothing is left. *)
Fixpoint binary_search (fuel : nat) (key : bytes) (l : list RhiReducerMutationMaterial) : bool :=
  match fuel with
  | O => false
  | S fuel =>
      let mid := (length l / 2)%nat in
      match drop mid l with
      | [] => false
      | m :: rest =>
          match bytes_cmp (rm_mutation_id m) key with
          | Eq => true
          | Gt => binary_search fuel key (take mid l)
          | Lt => binary_search fuel key rest
          end
      end
  end.

Definition binary_search_by_key (key : bytes) (l : list RhiReducerMutationMaterial) : bool :=
  binary_search (S (length l)) key l.

Section reducer.
Context `{Sha256, EvidenceLibrary M, ReducerLibrary P}.

Definition projection_digest (manifest : RhiReconciliationManifest (M := M)) (shared : bytes) :
    option bytes :=
  count ← try_from U64_MAX (Z.of_nat (String.length RADROOTS_TRADE_REDUCER_CONTRACT_ID));
  Some (sha256
    (PROJECTION_DIGEST_DOMAIN ++ to_be_bytes 4 RHI_RECONCILIATION_REDUCER_CONTRACT_VERSION
     ++ to_be_bytes 8 count ++ as_bytes RADROOTS_TRADE_REDUCER_CONTRACT_ID
     ++ to_be_bytes 2 RADROOTS_TRADE_REDUCER_VERSION ++ manifest_digest (inner manifest)
     ++ manifest_policy_digest (inner manifest) ++ shared)).

(** ** Reduction *)

Record RhiReconciliationProjection : Type := MkProjection {
  pj_manifest : RhiReconciliationManifest (M := M);
  pj_shared : P;
  shared_projection_digest : option bytes;
  pj_digest : option bytes;
}.

(** One round of [for material in manifest.reducer_mutations()]. *)
Definition decode_material (trade : bytes) (inventory : list (bytes * bytes))
    (material : RhiReducerMutationMaterial) :
    result RhiReconciliationReducerErrorKind (bytes * TradeIngest.TradeMutationEnvelopeV1) :=
  reject_if (negb (bool_decide ((rm_mutation_id material, rm_event_id material) ∈ inventory)))
    InvalidManifest ;?
  let? content := ok_or (JsonText.from_utf8 (rm_content material)) InvalidManifest in
  let? mutation := ok_or (trade_mutation_from_canonical_content content) InvalidManifest in
  reject_if
    (negb (bool_decide (TradeIngest.mut_mutation_id mutation = Some (rm_mutation_id material)))
     || negb (bytes_eqb (TradeIngest.mut_trade_id mutation) trade)) InvalidManifest ;?
  Ok (rm_event_id material, mutation).

Definition reduce_rhi_reconciliation_manifest (manifest : RhiReconciliationManifest (M := M)) :
    result RhiReconciliationReducerErrorKind RhiReconciliationProjection :=
  let materials := mf_reducer_mutations manifest in
  let observations := manifest_observations (inner manifest) in
  let trade := manifest_trade_id (inner manifest) in
  reject_if (negb (mutation_material_within_bounds materials)) InvalidManifest ;?
  let observation_inventory := map (λ o, (mo_mutation_id o, mo_event_id o)) observations in
  reject_if (existsb (λ o, negb (binary_search_by_key (mo_mutation_id o) materials)) observations)
    InvalidManifest ;?
  let? mutations := collect (decode_material trade observation_inventory) materials in
  let shared :=
    reduce_trade_records trade mutations (evidence_state (manifest_coverage (inner manifest)))
      (manifest_observed_at (inner manifest)) in
  reject_if
    (negb (String.eqb (reducer_contract_id shared) RADROOTS_TRADE_REDUCER_CONTRACT_ID)
     || negb (reducer_version shared =? RADROOTS_TRADE_REDUCER_VERSION)
     || negb (bytes_eqb (shared_trade_id shared) trade)) ProjectionUnavailable ;?
  let digest := decode_lower_hex_32 (shared_projection_text shared) in
  Ok (MkProjection manifest shared digest (d ← digest; projection_digest manifest d)).

(** ** Evaluation *)

Record EvaluationFacts : Type := MkFacts {
  coverage : RhiReconciliationCoverage;
  shared_evidence : EvidenceState;
  projection_digest_available : bool;
  reducer_issue_present : bool;
  claim_present : bool;
  claim_active : bool;
  claim_contested : bool;
  claim_cancelled : bool;
  agreed : bool;
}.

Definition classify_evaluation (facts : EvaluationFacts) :
    RhiReconciliationOutcome * RhiReconciliationReasonCode :=
  match coverage facts with
  | CoverageMissing => (Indeterminate, RequiredEvidenceMissing)
  | CoveragePartial => (Indeterminate, RequiredSourceIncomplete)
  | CoverageUnsupported => (Indeterminate, RequiredSourceUnsupported)
  | CoverageScopeSatisfied =>
      if negb (projection_digest_available facts) then (Indeterminate, ProjectionDigestUnavailable)
      else
        match shared_evidence facts with
        | StateMissing => (Indeterminate, RequiredEvidenceMissing)
        | StateQueryPartial => (Indeterminate, RequiredSourceIncomplete)
        | StateUnsupportedVersion => (Indeterminate, GoverningSchemaUnsupported)
        | StateComplete =>
            if reducer_issue_present facts || claim_contested facts
               || (claim_active facts && claim_cancelled facts)
            then (Indeterminate, ReducerIssueUnresolved)
            else if negb (claim_present facts) then (Indeterminate, AgreementClaimMissing)
            else if claim_active facts && agreed facts then (Valid, ScopeSatisfied)
            else if claim_cancelled facts && negb (claim_active facts)
            then (Invalid, AgreementClaimCancelled)
            else (Indeterminate, AgreementClaimUnresolved)
        end
  end.

Record RhiReconciliationEvaluation : Type := MkEvaluation {
  ev_projection : RhiReconciliationProjection;
  claim_mutation_id : bytes;
  ev_coverage : RhiReconciliationCoverage;
  ev_outcome : RhiReconciliationOutcome;
  reason_codes : list RhiReconciliationReasonCode;
}.

Definition evaluation_facts (projection : RhiReconciliationProjection) (claim : bytes) : EvaluationFacts :=
  let shared := pj_shared projection in
  let mem l := existsb (bytes_eqb claim) l in
  MkFacts (manifest_coverage (inner (pj_manifest projection))) (shared_evidence_state shared)
    (bool_decide (is_Some (pj_digest projection))) (negb (issues shared =? 0)%nat)
    (mem (agreement_claims shared)) (mem (active_agreement_claim_ids shared))
    (mem (contested_claim_ids shared)) (mem (cancelled_claim_ids shared)) (agreement_agreed shared).

Definition evaluate_rhi_reconciliation_claim (projection : RhiReconciliationProjection) (claim : bytes) :
    RhiReconciliationEvaluation :=
  let facts := evaluation_facts projection claim in
  let '(outcome, reason) := classify_evaluation facts in
  MkEvaluation projection claim (coverage facts) outcome [reason].
End reducer.

(** ** Searching and decoding *)

Notation mutation_sorted :=
  (StronglySorted (λ x y, Manifest.mutation_lt (rm_mutation_id x) (rm_mutation_id y))) (only parsing).

(** On a strictly sorted slice the binary search finds exactly the keys it holds. *)
Lemma binary_search_spec fuel key l :
  mutation_sorted l → (length l < fuel)%nat →
  binary_search fuel key l = true ↔ key ∈ map rm_mutation_id l.
Proof.
  revert l; induction fuel as [|fuel IH]; intros l Hs Hf; [lia|].
  cbn [binary_search]. cbv zeta. assert (l = [] ∨ length l / 2 < length l)%nat as [->|Hmid].
  { destruct l; [by left|right]. apply Nat.div_lt; simpl; lia. }
  { simpl. split; [done|by intros ?%elem_of_nil]. }
  set (mid := (length l / 2)%nat) in *.
  pose proof (take_drop mid l) as Htd. pose proof (length_take l mid) as Htl.
  pose proof (length_drop l mid) as Hdl.
  destruct (drop mid l) as [|m rest]; simpl in Hdl; [lia|]. rewrite <- Htd in Hs. rewrite <- Htd at 2.
  apply StronglySorted_app in Hs as (Hlt & Hs1 & Hs2%StronglySorted_cons).
  destruct Hs2 as [Hm Hs2]. rewrite map_app, elem_of_app. simpl. rewrite elem_of_cons.
  unfold Manifest.mutation_lt in *.
  destruct (bytes_cmp (rm_mutation_id m) key) eqn:Hc.
  - apply cmp_eq in Hc. split; [intros _; right; left; by symmetry|done].
  - rewrite IH by (done || lia). split; [by right; right|]. intros [Hin|[->|Hin]]; [|by rewrite cmp_refl in Hc|done].
    apply list_elem_of_fmap in Hin as (y & -> & Hy). specialize (Hlt y m Hy ltac:(by left)).
    rewrite (cmp_swap (rm_mutation_id m)), Hc in Hlt. done.
  - rewrite IH by (done || lia). split; [by left|]. intros [Hin|[->|Hin]]; [done|by rewrite cmp_refl in Hc|].
    apply list_elem_of_fmap in Hin as (y & -> & Hy). pose proof (elem_of_Forall _ _ _ Hm Hy) as Hy1. simpl in Hy1. by rewrite Hc in Hy1.
Qed.

Lemma binary_search_by_key_spec key l :
  mutation_sorted l → binary_search_by_key key l = true ↔ key ∈ map rm_mutation_id l.
Proof. intros Hs. apply binary_search_spec; [done|lia]. Qed.

Definition lower_hex (n : Z) : Z := if n <? 10 then 48 + n else 87 + n.
Definition encode_lower_hex (l : bytes) : bytes :=
  concat (map (λ b, [lower_hex (b / 16); lower_hex (b mod 16)]) l).
Definition is_byte (b : Z) : Prop := 0 ≤ b ≤ 255.

Lemma decode_lower_hex_Some v h : decode_lower_hex v = Some h ↔ 0 ≤ h < 16 ∧ v = lower_hex h.
Proof.
  unfold decode_lower_hex, lower_hex.
  destruct (between 48 57 v) eqn:H1; [|destruct (between 97 102 v) eqn:H2];
    rewrite ?between_true, ?between_false in *; destruct (Z.ltb_spec h 10); split;
    try (intros [= <-]; lia); try (intros [? ->]; lia); try done; intros [? ->]; f_equal; lia.
Qed.

Lemma decode_pairs_Some text l :
  Nat.Even (length text) → decode_pairs text = Some l ↔ Forall is_byte l ∧ text = encode_lower_hex l.
Proof.
  intros [n Hn]. revert text l Hn; induction n as [|n IH]; intros text l Hn.
  { destruct text; [|simpl in *; lia]. simpl. split; [by intros [= <-]|].
    intros [_ Hl]. by destruct l. }
  destruct text as [|x [|y text]]; simpl in Hn; try lia. simpl. split.
  - intros Hd. repeat (apply bind_Some in Hd as (? & ? & Hd)). injection Hd as <-.
    rewrite !decode_lower_hex_Some in *. unfold u8_checked in *.
    repeat case_match; simplify_eq.
    destruct (IH text x4 ltac:(lia)) as [Hl _]. destruct Hl as [Hb ->]; [done|]. destruct_and!.
    split; [constructor; [unfold is_byte; lia|done]|]. simplify_eq. unfold encode_lower_hex. simpl.
    rewrite Z.div_add_l, Z.div_small, Z.add_0_r by lia.
    rewrite Z.add_comm, Z.mod_add, Z.mod_small by lia. done.
  - intros [Hb Ht]. destruct l as [|b l]; [done|]. inversion_clear Hb as [|? ? Hb1 Hb2].
    unfold encode_lower_hex in Ht. simpl in Ht. injection Ht as -> -> Ht. unfold is_byte in Hb1.
    pose proof (Z.mod_pos_bound b 16 ltac:(lia)) as Hm. pose proof (Z.div_mod b 16 ltac:(lia)) as Hdm.
    assert (0 ≤ b / 16 < 16) as Hq by (split; [apply Z.div_pos|apply Z.div_lt_upper_bound]; lia).
    rewrite (proj2 (decode_lower_hex_Some (lower_hex (b / 16)) (b / 16))) by (by split). simpl. unfold u8_checked, U8_MAX.
    rewrite (proj2 (Z.leb_le _ _)) by lia. simpl.
    rewrite (proj2 (decode_lower_hex_Some (lower_hex (b mod 16)) (b mod 16))) by (by split). simpl.
    rewrite (proj2 (Z.leb_le _ _)) by lia. simpl.
    rewrite (proj2 (IH text l ltac:(lia))) by (by split). simpl. do 2 f_equal. lia.
Qed.

Lemma length_encode l : length (encode_lower_hex l) = (2 * length l)%nat.
Proof. unfold encode_lower_hex. induction l as [|b l IH]; simpl; lia. Qed.

Section properties.
Context `{Sha256, EvidenceLibrary M, !EvidenceLaws M, ReducerLibrary P}.

(** The stored content of a mutation decodes to it. *)
Definition decodes (trade : bytes) (x : RhiReducerMutationMaterial)
    (y : bytes * TradeIngest.TradeMutationEnvelopeV1) : Prop :=
  y.1 = rm_event_id x ∧
  ∃ content, JsonText.from_utf8 (rm_content x) = Some content ∧
    trade_mutation_from_canonical_content content = Some y.2 ∧
    TradeIngest.mut_mutation_id y.2 = Some (rm_mutation_id x) ∧ TradeIngest.mut_trade_id y.2 = trade.

Lemma decode_material_Ok trade inventory x y :
  (rm_mutation_id x, rm_event_id x) ∈ inventory →
  decode_material trade inventory x = Ok y ↔ decodes trade x y.
Proof.
  intros Hin. unfold decode_material, decodes. rewrite bool_decide_true by done. simpl. split.
  - intros Hd. inv_ok. to_prop. rewrite bytes_eqb_true in *. simpl. split; [done|]. by eexists.
  - intros (Hy & content & -> & Hm & Hi & Ht). simpl. rewrite Hm. simpl.
    rewrite Hi, bool_decide_true by done. rewrite (proj2 (bytes_eqb_true _ _)) by done. simpl.
    rewrite <- Hy. by destruct y.
Qed.

Lemma observation_inventory (parts : list Replay.RhiReconciliationReplayCommitParts) o :
  o ∈ observations_of parts → ∃ r, r ∈ records_of parts ∧
    mo_mutation_id o = Evidence.mutation_id r ∧ mo_event_id o = Evidence.event_id r.
Proof.
  unfold observations_of, records_of. rewrite !list_elem_of_In, in_concat. intros (l & Hl & Ho).
  apply in_map_iff in Hl as (p & <- & Hp). apply in_map_iff in Ho as (f & <- & Hf).
  exists f.1. split; [|done]. rewrite list_elem_of_In, in_concat. exists (map fst (Replay.cp_facts p)).
  split; apply in_map_iff; by eexists.
Qed.

Lemma record_observed (parts : list Replay.RhiReconciliationReplayCommitParts) r :
  r ∈ records_of parts → ∃ o, o ∈ observations_of parts ∧
    mo_mutation_id o = Evidence.mutation_id r ∧ mo_event_id o = Evidence.event_id r.
Proof.
  unfold observations_of, records_of. rewrite list_elem_of_In, in_concat. intros (l & Hl & Hr).
  apply in_map_iff in Hl as (p & <- & Hp). apply in_map_iff in Hr as (f & <- & Hf).
  exists (manifest_observation p f). split; [|done]. rewrite list_elem_of_In, in_concat.
  exists (map (manifest_observation p) (Replay.cp_facts p)). split; apply in_map_iff; by eexists.
Qed.

(** A frozen committed manifest passes the inventory checks of the reduction. *)
Lemma committed_inventory plan parts m at_s pre mf :
  committed_manifest_material plan parts = Some m → freeze_manifest m at_s pre = Ok mf →
  mutation_material_within_bounds (mf_reducer_mutations mf) = true ∧
  existsb (λ o, negb (binary_search_by_key (mo_mutation_id o) (mf_reducer_mutations mf)))
    (manifest_observations (inner mf)) = false ∧
  ∀ x, x ∈ mf_reducer_mutations mf → (rm_mutation_id x, rm_event_id x) ∈
    map (λ o, (mo_mutation_id o, mo_event_id o)) (manifest_observations (inner mf)).
Proof.
  intros ([Hs Hsound Hleast] & Hobs & _ & _ & _ & Hn & total & Hsum & Htotal)%committed_material_Some Hf.
  apply freeze_manifest_Ok in Hf as (_ & _ & Hm & _ & _ & _ & _ & _ & Ho). rewrite Hm. split_and!.
  - unfold mutation_material_within_bounds, material_lengths_within_bounds. rewrite Hsum. simpl.
    by rewrite (proj2 (Z.leb_le _ _) Hn), (proj2 (Z.leb_le _ _) Htotal).
  - apply not_true_is_false. intros (o & Hin & Hno)%existsb_exists. apply list_elem_of_In, Ho in Hin.
    rewrite Hobs in Hin. apply observation_inventory in Hin as (r & Hr & Hid & _).
    destruct (Hleast r Hr) as (x & Hx & Hxid & _). apply negb_true_iff in Hno.
    rewrite (proj2 (binary_search_by_key_spec _ _ Hs)) in Hno; [done|].
    apply list_elem_of_fmap. exists x. split; [congruence|done].
  - intros x Hx. destruct (Hsound x Hx) as (r & Hr & ->).
    destruct (record_observed parts r Hr) as (o & Hin & Hid & Hev).
    apply list_elem_of_fmap. exists o. simpl. split; [congruence|]. apply Ho. by rewrite Hobs.
Qed.

(** The shared projection is of the expected contract and trade. *)
Definition answers (shared : P) (trade : bytes) : Prop :=
  reducer_contract_id shared = RADROOTS_TRADE_REDUCER_CONTRACT_ID ∧
  reducer_version shared = RADROOTS_TRADE_REDUCER_VERSION ∧ shared_trade_id shared = trade.

(** ** Properties *)

(** C34. A committed manifest reduces exactly when its stored contents decode: its
    material and observations always pass the inventory checks, so the reduction
    fails only on a content that does not decode to its mutation and trade or on a
    projection of another contract, and its answer is the shared projection of the
    decoded mutations under the manifest's coverage and observation time. *)
Theorem committed_manifests_reduce plan parts m at_s pre mf p :
  committed_manifest_material plan parts = Some m → freeze_manifest m at_s pre = Ok mf →
  reduce_rhi_reconciliation_manifest mf = Ok p ↔
  ∃ mutations, Forall2 (decodes (cm_trade_id m)) (cm_reducer_mutations m) mutations ∧
    let shared := reduce_trade_records (cm_trade_id m) mutations
                    (evidence_state (manifest_coverage (inner mf))) at_s in
    let digest := decode_lower_hex_32 (shared_projection_text shared) in
    answers shared (cm_trade_id m) ∧
    p = MkProjection mf shared digest (d ← digest; projection_digest mf d).
Proof.
  intros Hm Hf. destruct (committed_inventory _ _ _ _ _ _ Hm Hf) as (Hb & Hsearch & Hin).
  apply freeze_manifest_Ok in Hf as (_ & _ & Hmat & _ & _ & Ht & Hat & _).
  unfold reduce_rhi_reconciliation_manifest. rewrite Hb, Hsearch. simpl. rewrite Ht, Hat.
  rewrite Hmat in *. set (inventory := map _ _) in *.
  assert (∀ mutations, collect (decode_material (cm_trade_id m) inventory) (cm_reducer_mutations m) =
    Ok mutations ↔ Forall2 (decodes (cm_trade_id m)) (cm_reducer_mutations m) mutations) as Hdec.
  { intros mutations. rewrite collect_Ok. revert Hin mutations. generalize (cm_reducer_mutations m).
    induction l as [|x l IH]; intros Hl mutations; split; inversion 1; subst; constructor;
      try (by apply (decode_material_Ok _ inventory); [apply Hl; left|]);
      apply IH; try done; intros; apply Hl; by right. }
  unfold answers. split.
  - intros Hr. bind Hr as mutations Hc. bind Hr as u Hu. apply reject_if_Ok in Hu. to_prop.
    injection Hr as <-. exists mutations. rewrite <- Hdec. rewrite String.eqb_eq, bytes_eqb_true in *.
    by split_and!.
  - intros (mutations & Hd & (Hc & Hv & Htr) & ->). rewrite <- Hdec in Hd. rewrite Hd. simpl.
    rewrite Hc, Hv, Htr, String.eqb_refl, Z.eqb_refl, bytes_eqb_refl. done.
Qed.

(** The projection digest is read exactly: the decoder accepts precisely the 64
    lowercase hexadecimal digits of 32 bytes and answers those bytes. *)
Theorem projection_hex_roundtrip text l :
  decode_lower_hex_32 text = Some l ↔
  length l = 32%nat ∧ Forall is_byte l ∧ text = encode_lower_hex l.
Proof.
  unfold decode_lower_hex_32. split.
  - destruct (Nat.eqb_spec (length text) 64) as [Hl|]; simpl; [|done]. intros Hd.
    apply decode_pairs_Some in Hd as [Hb ->]; [|exists 32%nat; lia].
    rewrite length_encode in Hl. split_and!; [lia|done|done].
  - intros (Hl & Hb & ->). rewrite length_encode, Hl. simpl. apply decode_pairs_Some; [|done].
    exists (length l). apply length_encode.
Qed.

(** C35. A claim is judged only on complete and unambiguous evidence: it is valid
    exactly when every required source is covered, the projection digest is
    available, the shared evidence is complete without reducer issues, and the claim
    is present, active, agreed, neither contested nor cancelled; it is invalid
    exactly when under the same evidence it is cancelled and not active; the reason
    names the outcome. *)
Theorem evaluation_is_fail_closed facts :
  let evidence := coverage facts = CoverageScopeSatisfied ∧ projection_digest_available facts = true ∧
                  shared_evidence facts = StateComplete ∧ reducer_issue_present facts = false ∧
                  claim_contested facts = false ∧ claim_present facts = true in
  ((classify_evaluation facts).1 = Valid ↔
     evidence ∧ claim_active facts = true ∧ agreed facts = true ∧ claim_cancelled facts = false) ∧
  ((classify_evaluation facts).1 = Invalid ↔
     evidence ∧ claim_cancelled facts = true ∧ claim_active facts = false) ∧
  ((classify_evaluation facts).2 = ScopeSatisfied ↔ (classify_evaluation facts).1 = Valid) ∧
  ((classify_evaluation facts).2 = AgreementClaimCancelled ↔ (classify_evaluation facts).1 = Invalid).
Proof.
  unfold classify_evaluation. destruct facts as [c s d i p a x k g]; simpl.
  assert (∀ A B C D : Prop, ¬ A → (Indeterminate = Valid ↔ A ∧ B) ∧ (Indeterminate = Invalid ↔ A ∧ C)) as Hno
    by (intros A B C _ HA; split; split; done || by intros [? _]).
  assert (∀ r, r ≠ ScopeSatisfied → r ≠ AgreementClaimCancelled →
    (r = ScopeSatisfied ↔ Indeterminate = Valid) ∧ (r = AgreementClaimCancelled ↔ Indeterminate = Invalid))
    as Hreason by (by intros; split; split).
  destruct c, d, s; simpl; try (apply and_assoc; split; [apply Hno; [exact True|]|by apply Hreason];
    by intros (? & ? & ? & _)).
  destruct i, x, a, k, p, g; simpl; split_and!; split; try done; intros; by destruct_and?.
Qed.
End properties.

(** ** A concrete reduction: the committed manifest of [ReconciliationManifest] *)

#[local] Existing Instance checksum.
#[local] Existing Instance Manifest.demo_library.
#[local] Existing Instance Manifest.demo_laws.

(** A reducer that answers the trade and the identities of its records; a content's
    first byte is the byte its mutation identity repeats. *)
Definition demo_reducer : ReducerLibrary (bytes * list bytes) := {|
  RADROOTS_TRADE_REDUCER_CONTRACT_ID := "radroots.trade.reducer";
  RADROOTS_TRADE_REDUCER_VERSION := 1;
  trade_mutation_from_canonical_content := λ text,
    b ← head text;
    Some (TradeIngest.MkMutation (Some (repeat b 32)) (repeat 2 16) "radroots.trade.proposal.v1" 1);
  reduce_trade_records := λ t l _ _, (t, map fst l);
  reducer_contract_id := λ _, "radroots.trade.reducer"%string;
  reducer_version := λ _, 1;
  shared_trade_id := fst;
  shared_projection_text := λ p, encode_lower_hex (sha256 (concat p.2));
  shared_evidence_state := λ _, StateComplete;
  issues := λ _, 0%nat;
  agreement_claims := snd;
  active_agreement_claim_ids := snd;
  contested_claim_ids := λ _, [];
  cancelled_claim_ids := λ _, [];
  agreement_agreed := λ _, true;
|}.

#[local] Existing Instance demo_reducer.

Definition demo_frozen : RhiReconciliationManifest (M := Manifest.demo_manifest) :=
  match freeze_manifest Manifest.demo_committed 3 Satisfied with
  | Ok mf => mf
  | Err _ => MkManifest (DemoManifest [] 0 0 [] [] []) [] [] []
  end.

Definition demo_reduced : option RhiReconciliationProjection :=
  match reduce_rhi_reconciliation_manifest demo_frozen with Ok p => Some p | Err _ => None end.

Lemma demo_frozen_Ok : freeze_manifest Manifest.demo_committed 3 Satisfied = Ok demo_frozen.
Proof. vm_compute. reflexivity. Qed.

Lemma demo_reduced_Some : bool_decide (is_Some (p ← demo_reduced; pj_digest p)) = true.
Proof. vm_compute. reflexivity. Qed.

Lemma demo_reduction : ∃ p, reduce_rhi_reconciliation_manifest demo_frozen = Ok p.
Proof.
  pose proof demo_reduced_Some as Hd. unfold demo_reduced in Hd.
  destruct (reduce_rhi_reconciliation_manifest demo_frozen) as [p|]; [by exists p|done].
Qed.

Lemma committed_manifests_reduce_witness :
  ∃ mutations, Forall2 (decodes (cm_trade_id Manifest.demo_committed))
    (cm_reducer_mutations Manifest.demo_committed) mutations.
Proof.
  destruct demo_reduction as [p Hp].
  destruct (proj1 (committed_manifests_reduce Manifest.demo_plan Manifest.demo_parts
    Manifest.demo_committed 3 Satisfied demo_frozen p Manifest.demo_committed_Some demo_frozen_Ok) Hp)
    as (mutations & Hd & _).
  exists mutations. exact Hd.
Defined.

End Reducer.
