(* ===== verification/ReconciliationCommit.v ===== *)
(** * Reconciliation commits: [src/src/reconciliation_commit.rs]

    The atomic commit of one attempt's source replays under its lease: the
    immutable inventory of the attempt ([evidence_reconciliations] and
    [evidence_reconciliation_sources] of [state_catalog.rs]), the evidence, the
    dirty generation and the checkpoints in one transaction; and the recognition of
    an attempt that is already committed. *)

From Stdlib Require Import ZArith Lia.
From stdpp Require Import sets list strings gmap.
From S2P Require Import Prelude.
From S2P Require Import Sql.
From S2P Require Import Interfaces.
From S2P Require Import SourceIngest.
From S2P Require Import StateTrade.
From S2P Require Import SourceState.
From S2P Require Import ReconciliationJob.
From S2P Require Import ReconciliationAttempt.
From S2P Require Import ReconciliationReplay.
From S2P Require Import ReconciliationManifest.

Module Commit.
Import Source SourceState Attempt Replay Manifest.

(** ** Tables *)

Record attempt_row : Type := AttemptRow {
  ar_attempt_id : bytes;
  ar_job_id : bytes;
  ar_trade_id : bytes;
  ar_input_generation : Z;
  ar_policy : bytes;
  ar_started_unix_ms : Z;
  ar_deadline_unix_ms : Z;
  ar_source_count : Z;
}.

Record result_row : Type := ResultRow {
  rr_attempt_id : bytes;
  rr_request_id : bytes;
  rr_source_ordinal : Z;
  rr_source_id : string;
  rr_trade_id : bytes;
  rr_required : Z;
  rr_selector : bytes;
  rr_replay_id : bytes;
  rr_completion : string;
  rr_started_unix_ms : Z;
  rr_finished_unix_ms : Z;
  rr_accepted_event_count : Z;
  rr_accepted_event_bytes : Z;
  rr_accepted_inventory : bytes;
  rr_duplicate_count : Z;
  rr_first_observed : option Z;
  rr_prior_created_at : option Z;
  rr_prior_event_id : option bytes;
  rr_overlap_seconds : Z;
  rr_since : Z;
  rr_candidate_created_at : option Z;
  rr_candidate_event_id : option bytes;
  rr_checkpoint_advanced : Z;
}.

#[export] Instance attempt_row_eq_dec : EqDecision attempt_row.
Proof. solve_decision. Defined.
#[export] Instance result_row_eq_dec : EqDecision result_row.
Proof. solve_decision. Defined.

Definition attempt_check (r : attempt_row) : bool :=
  (length (ar_attempt_id r) =? 32)%nat && (length (ar_job_id r) =? 32)%nat
  && (length (ar_trade_id r) =? 16)%nat && between 1 I64_MAX (ar_input_generation r)
  && (length (ar_policy r) =? 32)%nat && between 0 I64_MAX (ar_started_unix_ms r)
  && between (ar_started_unix_ms r + 1) I64_MAX (ar_deadline_unix_ms r)
  && between 1 16 (ar_source_count r).

(** Rows are immutable: [*_no_update] aborts every update. *)
#[export] Instance attempt_table : Table attempt_row := {|
  row_check := attempt_check;
  row_guard := λ _ _, false;
  row_conflict := λ r o, bytes_eqb (ar_attempt_id r) (ar_attempt_id o);
|}.

Definition completions : list string :=
  ["complete"; "incomplete_timeout"; "incomplete_unavailable"; "incomplete_resource_limit";
   "incomplete_unknown"; "unsupported"].

(** [column IS NULL OR p(column)], which is how a [CHECK] reads a nullable column. *)
Definition null_or {A} (p : A → bool) (v : option A) : bool := is_none_or p v.

Definition result_check (r : result_row) : bool :=
  (length (rr_attempt_id r) =? 32)%nat && (length (rr_request_id r) =? 32)%nat
  && between 0 15 (rr_source_ordinal r) && Evidence.source_id_ok (rr_source_id r)
  && (length (rr_trade_id r) =? 16)%nat && between 0 1 (rr_required r)
  && (length (rr_selector r) =? 32)%nat && (length (rr_replay_id r) =? 32)%nat
  && existsb (String.eqb (rr_completion r)) completions && between 0 I64_MAX (rr_started_unix_ms r)
  && between (rr_started_unix_ms r) I64_MAX (rr_finished_unix_ms r)
  && between 0 4096 (rr_accepted_event_count r) && between 0 8388608 (rr_accepted_event_bytes r)
  && (length (rr_accepted_inventory r) =? 32)%nat && between 0 4096 (rr_duplicate_count r)
  && null_or (between 0 I64_MAX) (rr_first_observed r)
  && null_or (between 0 I64_MAX) (rr_prior_created_at r)
  && null_or (λ b, (length b =? 32)%nat) (rr_prior_event_id r)
  && between 1 86400 (rr_overlap_seconds r) && between 0 I64_MAX (rr_since r)
  && null_or (between 0 I64_MAX) (rr_candidate_created_at r)
  && null_or (λ b, (length b =? 32)%nat) (rr_candidate_event_id r)
  && between 0 1 (rr_checkpoint_advanced r)
  && Bool.eqb (rr_accepted_event_count r =? 0) (rr_accepted_event_bytes r =? 0)
  && Bool.eqb (rr_accepted_event_count r =? 0) (is_null (rr_first_observed r))
  && Bool.eqb (rr_accepted_event_count r =? 0) (is_null (rr_candidate_created_at r))
  && Bool.eqb (is_null (rr_candidate_created_at r)) (is_null (rr_candidate_event_id r))
  && Bool.eqb (is_null (rr_prior_created_at r)) (is_null (rr_prior_event_id r))
  && ((rr_checkpoint_advanced r =? 0) || String.eqb (rr_completion r) "complete")
  && ((rr_checkpoint_advanced r =? 0) || negb (is_null (rr_candidate_event_id r))).

(** [PRIMARY KEY (attempt_id, request_id)] and [UNIQUE (attempt_id, source_ordinal)] *)
#[export] Instance result_table : Table result_row := {|
  row_check := result_check;
  row_guard := λ _ _, false;
  row_conflict := λ r o,
    bytes_eqb (rr_attempt_id r) (rr_attempt_id o)
    && (bytes_eqb (rr_request_id r) (rr_request_id o)
        || (rr_source_ordinal r =? rr_source_ordinal o));
|}.

Record reconciliation_db : Type := ReconciliationDb {
  rd_job : Job.job_db;
  rd_evidence : Evidence.evidence_db;
  rd_checkpoints : list checkpoint_row;
  rd_attempts : list attempt_row;
  rd_results : list result_row;
}.

(** ** Errors *)

Inductive RhiReconciliationCommitErrorKind : Type :=
| InvalidMode | InvalidInput | LeaseLost | GenerationConflict | Conflict | Storage
| CommitOutcomeUnknown.

Inductive CommitOperationError : Type := OpLeaseLost | OpGeneration | OpConflict | OpStorage.

Definition map_persistence_error (e : Evidence.PersistenceOperationError) : CommitOperationError :=
  match e with
  | Evidence.OpMutationConflict | Evidence.OpSignedEventConflict => OpConflict
  | Evidence.OpStorage => OpStorage
  end.

Definition map_source_error (e : SourceOperationError) : CommitOperationError :=
  match e with
  | OpGenerationConflict => OpGeneration
  | OpPersistence e => map_persistence_error e
  | OpSourceStorage => OpStorage
  end.

Definition map_transaction_error (e : tx_error CommitOperationError) : RhiReconciliationCommitErrorKind :=
  if commit_outcome_unknown e then CommitOutcomeUnknown
  else match operation_error e with
       | Some OpLeaseLost => LeaseLost
       | Some OpGeneration => GenerationConflict
       | Some OpConflict => Conflict
       | Some OpStorage | None => Storage
       end.

Definition i64_value (value : Z) : result CommitOperationError Z :=
  ok_or (try_from I64_MAX value) OpStorage.

(** [value.map(i64_value).transpose()] *)
Definition optional_i64 (value : option Z) : result CommitOperationError (option Z) :=
  match value with None => Ok None | Some v => let? v := i64_value v in Ok (Some v) end.

(** The answer to the caller; [M] is the material of the manifest. *)
Record RhiReconciliationSourceCommitOutcome {M : Type} : Type := MkOutcome {
  out_created : bool;
  source_result_count : Z;
  checkpoint_advance_count : Z;
  dirty_generation_advanced : bool;
  committed_cursors : list RhiReconciliationSourceCursorEvidence;
  manifest_material : M;
}.
#[global] Arguments RhiReconciliationSourceCommitOutcome : clear implicits.

(** ** The immutable inventory *)

Section commit.
Context `{Sha256}.

(** The columns [insert_attempt] binds, which [match_attempt] compares. *)
Definition attempt_row_of (plan : RhiReconciliationAttemptPlan) : result CommitOperationError attempt_row :=
  let? trade := ok_or (request_trade_id <$> head (requests plan)) OpStorage in
  let? generation := i64_value (plan_input_generation plan) in
  let? started := i64_value (plan_started_at plan) in
  let? deadline := i64_value (plan_deadline plan) in
  let? count := i64_value (Z.of_nat (length (requests plan))) in
  Ok (AttemptRow (plan_id plan) (plan_job_id plan) trade generation (plan_policy_digest plan) started
        deadline count).

(** The columns [insert_source_result] binds, which [match_source_result] compares. *)
Definition result_row_of (attempt_id : bytes) (ordinal : Z) (part : RhiReconciliationReplayCommitParts) :
    result CommitOperationError result_row :=
  let res := cp_result part in
  let? prior_created := optional_i64 (created_at_unix_seconds <$> cp_prior_cursor part) in
  let? candidate_created := optional_i64 (created_at_unix_seconds <$> cp_cursor_candidate part) in
  let? inventory := ok_or (committed_inventory_digest part) OpStorage in
  let? ordinal := i64_value ordinal in
  let? started := i64_value (started_at res) in
  let? finished := i64_value (finished_at res) in
  let? size := i64_value (accepted_event_bytes res) in
  let? first_observed := optional_i64 (cp_first_observed_at part) in
  let? overlap := i64_value (cp_overlap_seconds part) in
  let? since := i64_value (cp_since_unix_seconds part) in
  Ok (ResultRow attempt_id (cp_request_id part) ordinal (cp_source_id part) (cp_trade_id part)
        (flag (cp_required part)) (cp_selector_digest part) (cp_replay_id part)
        (completion_code (outcome res)) started finished (accepted_event_count res) size inventory
        (cp_duplicate_observations part) first_observed prior_created
        (cursor_event_id <$> cp_prior_cursor part) overlap since candidate_created
        (cursor_event_id <$> cp_cursor_candidate part)
        (flag (bool_decide (is_Some (cp_eligible_cursor part))))).

Definition count_rows {row} (p : row → bool) (rows : list row) : Z :=
  Z.of_nat (length (List.filter p rows)).

(** [MATCH_ATTEMPT_SQL] and [MATCH_SOURCE_RESULT_SQL] compare every column. *)
Definition match_attempt (plan : RhiReconciliationAttemptPlan) (rows : list attempt_row) :
    result CommitOperationError Z :=
  let? row := attempt_row_of plan in Ok (count_rows (λ r, bool_decide (r = row)) rows).

Definition match_source_result (attempt_id : bytes) (ordinal : Z)
    (part : RhiReconciliationReplayCommitParts) (rows : list result_row) :
    result CommitOperationError Z :=
  let? row := result_row_of attempt_id ordinal part in
  Ok (count_rows (λ r, bool_decide (r = row)) rows).

(** [FOREIGN KEY (job_id)] *)
Definition insert_attempt (plan : RhiReconciliationAttemptPlan) (db : reconciliation_db) :
    result CommitOperationError reconciliation_db :=
  let? row := attempt_row_of plan in
  let? rows :=
    map_err (λ _, OpStorage)
      (insert_row (λ r, existsb (λ j, bytes_eqb (Job.col_job_id j) (ar_job_id r)) (Job.jobs (rd_job db)))
         row (rd_attempts db)) in
  Ok (ReconciliationDb (rd_job db) (rd_evidence db) (rd_checkpoints db) rows (rd_results db)).

(** [FOREIGN KEY (attempt_id)] *)
Definition insert_source_result (attempt_id : bytes) (ordinal : Z)
    (part : RhiReconciliationReplayCommitParts) (db : reconciliation_db) :
    result CommitOperationError reconciliation_db :=
  let? row := result_row_of attempt_id ordinal part in
  let? rows :=
    map_err (λ _, OpStorage)
      (insert_row (λ r, existsb (λ a, bytes_eqb (ar_attempt_id a) (rr_attempt_id r)) (rd_attempts db))
         row (rd_results db)) in
  Ok (ReconciliationDb (rd_job db) (rd_evidence db) (rd_checkpoints db) (rd_attempts db) rows).

(** ** An attempt already committed *)

Fixpoint reconcile_parts (plan : RhiReconciliationAttemptPlan) (ordinal : Z)
    (parts : list RhiReconciliationReplayCommitParts) (db : reconciliation_db) :
    result CommitOperationError unit :=
  match parts with
  | [] => Ok tt
  | part :: parts =>
      let? matches := match_source_result (plan_id plan) ordinal part (rd_results db) in
      reject_if (negb (matches =? 1)) OpConflict ;?
      match cp_eligible_cursor part with
      | None => Ok tt
      | Some candidate =>
          let? checkpoint :=
            map_err map_source_error
              (read_checkpoint (cp_source_id part) (plan_policy_digest plan) (cp_trade_id part)
                 (rd_checkpoints db)) in
          let? checkpoint := ok_or checkpoint OpConflict in
          reject_if (is_lt (compare_cursor (cursor checkpoint) candidate)) OpConflict ;?
          Ok tt
      end ;?
      reconcile_parts plan (ordinal + 1) parts db
  end.

Definition reconcile_existing (plan : RhiReconciliationAttemptPlan)
    (parts : list RhiReconciliationReplayCommitParts) (db : reconciliation_db) :
    result CommitOperationError bool :=
  let count := count_rows (λ r, bytes_eqb (ar_attempt_id r) (plan_id plan)) (rd_attempts db) in
  if count =? 0 then Ok false
  else
    let? matches := (if negb (count =? 1) then Err OpConflict else match_attempt plan (rd_attempts db)) in
    reject_if (negb (matches =? 1)) OpConflict ;?
    let source_count :=
      count_rows (λ r, bytes_eqb (rr_attempt_id r) (plan_id plan)) (rd_results db) in
    reject_if (negb (source_count =? Z.of_nat (length parts))) OpConflict ;?
    reconcile_parts plan 0 parts db ;?
    Ok true.

(** ** The commit *)

Record CommittedCursorScope : Type := MkScope {
  sc_source_id : string;
  sc_trade_id : bytes;
  sc_policy_digest : bytes;
  sc_selector_digest : bytes;
  sc_cursor : RhiTradeSourceCursor;
}.

Record RawCommitOutcome : Type := MkRaw {
  raw_created : bool;
  raw_source_result_count : Z;
  raw_checkpoint_advance_count : Z;
  raw_dirty_generation_advanced : bool;
  raw_cursor_scopes : list CommittedCursorScope;
}.

Definition cursor_scopes (parts : list RhiReconciliationReplayCommitParts) : list CommittedCursorScope :=
  omap (λ part,
    (λ c, MkScope (cp_source_id part) (cp_trade_id part) (cp_policy_digest part)
            (cp_selector_digest part) c) <$> cp_eligible_cursor part) parts.

Definition raw_outcome (created advanced : bool) (parts : list RhiReconciliationReplayCommitParts) :
    result CommitOperationError RawCommitOutcome :=
  let? results := ok_or (try_from U32_MAX (Z.of_nat (length parts))) OpStorage in
  let? advances := ok_or (try_from U32_MAX (Z.of_nat (length (cursor_scopes parts)))) OpStorage in
  Ok (MkRaw created results advances advanced (cursor_scopes parts)).

(** The checkpoints of the parts, each still the prior cursor of its replay. *)
Definition read_prior (policy : bytes) (rows : list checkpoint_row)
    (part : RhiReconciliationReplayCommitParts) : result CommitOperationError (option Checkpoint) :=
  let? checkpoint :=
    map_err map_source_error (read_checkpoint (cp_source_id part) policy (cp_trade_id part) rows) in
  reject_if (negb (bool_decide (cursor <$> checkpoint = cp_prior_cursor part))) OpGeneration ;?
  Ok checkpoint.

(** The facts of one part, then of all parts; the flag is [new_relevant_evidence]. *)
Fixpoint persist_facts (source_id : string) (policy : bytes)
    (facts : list (Evidence.PersistenceRecord * Z)) (fresh : bool) (db : Evidence.evidence_db) :
    result CommitOperationError (bool * Evidence.evidence_db) :=
  match facts with
  | [] => Ok (fresh, db)
  | (record, observed_at) :: facts =>
      let observation := Evidence.from_persistence_parts source_id policy record observed_at in
      let? (outcome, db) := map_err map_persistence_error (Evidence.persist record observation db) in
      persist_facts source_id policy facts
        (fresh || (Evidence.mutation_inserted outcome || Evidence.signed_event_inserted outcome)) db
  end.

Fixpoint persist_parts (policy : bytes) (parts : list RhiReconciliationReplayCommitParts) (fresh : bool)
    (db : Evidence.evidence_db) : result CommitOperationError (bool * Evidence.evidence_db) :=
  match parts with
  | [] => Ok (fresh, db)
  | part :: parts =>
      let? (fresh, db) := persist_facts (cp_source_id part) policy (cp_facts part) fresh db in
      persist_parts policy parts fresh db
  end.

(** The loop that advances the checkpoints and records the results. *)
Fixpoint record_parts (plan : RhiReconciliationAttemptPlan) (ordinal : Z)
    (l : list (RhiReconciliationReplayCommitParts * option Checkpoint)) (db : reconciliation_db) :
    result CommitOperationError reconciliation_db :=
  match l with
  | [] => Ok db
  | (part, checkpoint) :: l =>
      let? db :=
        match cp_eligible_cursor part with
        | None => Ok db
        | Some candidate =>
            let? rows :=
              map_err map_source_error
                (write_checkpoint (cp_source_id part) (plan_policy_digest plan) (cp_trade_id part)
                   checkpoint candidate (finished_at (cp_result part) / 1000) (rd_checkpoints db)) in
            Ok (ReconciliationDb (rd_job db) (rd_evidence db) rows (rd_attempts db) (rd_results db))
        end in
      let? db := insert_source_result (plan_id plan) ordinal part db in
      record_parts plan (ordinal + 1) l db
  end.

Definition finished_seconds (parts : list RhiReconciliationReplayCommitParts) : option Z :=
  match map (λ p, finished_at (cp_result p) / 1000) parts with
  | [] => None
  | s :: l => Some (fold_left Z.max l s)
  end.

Definition commit (lease : Job.RhiReconciliationLease) (plan : RhiReconciliationAttemptPlan)
    (parts : list RhiReconciliationReplayCommitParts) (db : reconciliation_db) :
    result CommitOperationError (RawCommitOutcome * reconciliation_db) :=
  let? existing := reconcile_existing plan parts db in
  if (existing : bool) then let? raw := raw_outcome false false parts in Ok (raw, db)
  else
    map_err (λ e, match e with Job.ValidationLeaseLost => OpLeaseLost | Job.ValidationStorage => OpStorage end)
      (Job.validate_exact_lease lease (rd_job db)) ;?
    let policy := plan_policy_digest plan in
    let trade := Job.trade_id (Job.lease_job lease) in
    let? dirty := map_err map_source_error (read_dirty trade (Job.dirty_generations (rd_job db))) in
    let? dirty :=
      ok_or (filter_opt (λ s, (generation s =? plan_input_generation plan)
                              && bytes_eqb (dirty_policy s) policy) dirty) OpGeneration in
    let? checkpoints := collect (read_prior policy (rd_checkpoints db)) parts in
    let? db := insert_attempt plan db in
    let? (fresh, evidence) := persist_parts policy parts false (rd_evidence db) in
    let? dirty_rows :=
      (if (fresh : bool) then
         let? updated_at := ok_or (finished_seconds parts) OpStorage in
         let? (_, rows) :=
           map_err map_source_error
             (advance_dirty_generation trade policy updated_at (Some dirty)
                (Job.dirty_generations (rd_job db))) in
         Ok rows
       else Ok (Job.dirty_generations (rd_job db))) in
    let? db :=
      record_parts plan 0 (combine parts checkpoints)
        (ReconciliationDb (Job.JobDb dirty_rows (Job.jobs (rd_job db))) evidence (rd_checkpoints db)
           (rd_attempts db) (rd_results db)) in
    let? raw := raw_outcome true fresh parts in
    Ok (raw, db).

(** ** The repository method *)

(** One replay against its request. *)
Definition part_mismatch (lease : Job.RhiReconciliationLease) (plan : RhiReconciliationAttemptPlan)
    (part : RhiReconciliationReplayCommitParts) (request : RhiReconciliationSourceRequest) : bool :=
  let res := cp_result part in
  negb (bytes_eqb (cp_request_id part) (request_id_of request))
  || negb (bytes_eqb (request_id_satisfied res) (request_id_of request))
  || negb (String.eqb (cp_source_id part) (source_id request))
  || negb (bytes_eqb (cp_trade_id part) (request_trade_id request))
  || negb (Bool.eqb (cp_required part) (required request))
  || negb (bytes_eqb (cp_trade_id part) (Job.trade_id (Job.lease_job lease)))
  || negb (bytes_eqb (cp_policy_digest part) (plan_policy_digest plan))
  || negb (bytes_eqb (cp_selector_digest part) (selector_digest_of request))
  || (Job.lease_expires_at lease <=? finished_at res)
  || negb (Z.of_nat (length (cp_facts part)) =? accepted_event_count res)
  || (bool_decide (is_Some (cp_eligible_cursor part)) && (finished_at res / 1000 =? 0)).

Definition plan_mismatch (lease : Job.RhiReconciliationLease) (plan : RhiReconciliationAttemptPlan) : bool :=
  let job := Job.lease_job lease in
  negb (bytes_eqb (plan_job_id plan) (Job.id job))
  || negb (plan_input_generation plan =? Job.input_generation job)
  || negb (bytes_eqb (plan_policy_digest plan) (Job.policy_digest job))
  || (Job.lease_expires_at lease <? plan_deadline plan).

Definition evidence_of_scope (s : CommittedCursorScope) : RhiReconciliationSourceCursorEvidence :=
  committed_cursor_evidence (sc_source_id s) (sc_trade_id s) (sc_policy_digest s) (sc_selector_digest s)
    (sc_cursor s).

Context `{EvidenceLibrary M, TransactionHost reconciliation_db}.

(** The checks before the transaction; the material of the manifest is derived first. *)
Definition validate_commit (writable : bool) (lease : Job.RhiReconciliationLease)
    (plan : RhiReconciliationAttemptPlan) (replays : list RhiReconciliationSourceReplay) :
    result RhiReconciliationCommitErrorKind
      (list RhiReconciliationReplayCommitParts * RhiCommittedManifestMaterial) :=
  reject_if (negb writable) InvalidMode ;?
  let replays := take (length (requests plan) + 1) replays in
  reject_if (negb (length replays =? length (requests plan))%nat || plan_mismatch lease plan) InvalidInput ;?
  let parts := map into_commit_parts replays in
  reject_if (existsb (λ '(part, request), part_mismatch lease plan part request)
               (combine parts (requests plan))) InvalidInput ;?
  let? material := ok_or (committed_manifest_material plan parts) InvalidInput in
  Ok (parts, material).

Definition commit_source_replays (writable : bool) (lease : Job.RhiReconciliationLease)
    (plan : RhiReconciliationAttemptPlan) (replays : list RhiReconciliationSourceReplay)
    (db : reconciliation_db) :
    result RhiReconciliationCommitErrorKind
      (RhiReconciliationSourceCommitOutcome RhiCommittedManifestMaterial) * reconciliation_db :=
  match validate_commit writable lease plan replays with
  | Err e => (Err e, db)
  | Ok (parts, material) =>
      let '(res, db) := transaction (commit lease plan parts) db in
      (let? raw := map_err map_transaction_error res in
       Ok (MkOutcome _ (raw_created raw) (raw_source_result_count raw) (raw_checkpoint_advance_count raw)
             (raw_dirty_generation_advanced raw) (map evidence_of_scope (raw_cursor_scopes raw)) material),
       db)
  end.
End commit.

End Commit.
