(* ===== verification/ReconciliationCommitSafety.v ===== *)
(** * Correctness of reconciliation commits

    What the commit of [ReconciliationCommit] leaves in the tables, that it is
    fenced by the lease, the dirty generation and the checkpoints, and that
    committing an attempt again recognises it and changes nothing. *)

From Stdlib Require Import ZArith Lia Sorted.
From stdpp Require Import sets list strings gmap sorting.
From S2P Require Import Prelude.
From S2P Require Import Sql.
From S2P Require Import Interfaces.
From S2P Require Import SourceIngest.
From S2P Require Import StateTrade.
From S2P Require Import EvidenceHistory.
From S2P Require Import SourceState.
From S2P Require Import ReconciliationJob.
From S2P Require Import ReconciliationAttempt.
From S2P Require Import ReconciliationReplay.
From S2P Require Import ReconciliationManifest.
From S2P Require Import ReconciliationCommit.

Module CommitSafety.
Import Source History SourceState Attempt Replay Manifest Commit.

(** ** The invariant of the tables *)

Record recon_inv (db : reconciliation_db) : Prop := {
  ri_evidence : Evidence.evidence_inv (rd_evidence db);
  ri_dirty : rows_ok (Job.dirty_generations (rd_job db)) = true;
  ri_checkpoints : rows_ok (rd_checkpoints db) = true;
  ri_attempts : rows_ok (rd_attempts db) = true;
  ri_results : rows_ok (rd_results db) = true;
  ri_owned r : r ∈ rd_results db → ∃ a, a ∈ rd_attempts db ∧ ar_attempt_id a = rr_attempt_id r;
}.

Lemma attempt_row_conflict_sym (r o : attempt_row) : row_conflict r o = row_conflict o r.
Proof. apply bytes_eqb_sym. Qed.

Lemma result_conflict_sym (r o : result_row) : row_conflict r o = row_conflict o r.
Proof.
  simpl. by rewrite (bytes_eqb_sym (rr_attempt_id r)), (bytes_eqb_sym (rr_request_id r)), Z.eqb_sym.
Qed.

(** ** Counting rows *)

Lemma count_rows_app {row} (p : row → bool) l k : count_rows p (l ++ k) = count_rows p l + count_rows p k.
Proof. unfold count_rows. rewrite filter_app, length_app. lia. Qed.

Lemma count_rows_none {row} (p : row → bool) l :
  count_rows p l = 0 ↔ ∀ r, r ∈ l → p r = false.
Proof.
  unfold count_rows. induction l as [|r l IH]; simpl; [split; [by intros _ ? ?%elem_of_nil|done]|].
  destruct (p r) eqn:Hr; simpl; split.
  - lia.
  - intros Hall. specialize (Hall r ltac:(by left)). congruence.
  - intros Hn x [->|Hx]%elem_of_cons; [done|]. by apply IH.
  - intros Hall. apply IH. intros x Hx. apply Hall. by right.
Qed.

(** In a table whose equal rows conflict a stored row is found once. *)
Lemma count_rows_self {row} `{Table row, EqDecision row} (l : list row) r :
  (∀ r : row, row_conflict r r = true) → rows_ok l = true → r ∈ l →
  count_rows (λ x, bool_decide (x = r)) l = 1.
Proof.
  intros Hself Hok Hr. unfold count_rows.
  destruct (filter_unique (λ x, bool_decide (x = r)) l Hok) as [Hnil|(x & _ & _ & ->)]; [| |done].
  - intros x y ->%bool_decide_eq_true ->%bool_decide_eq_true. apply Hself.
  - assert (In r (List.filter (λ x, bool_decide (x = r)) l)) as Hin; [|by rewrite Hnil in Hin].
    apply filter_In. split; [by apply list_elem_of_In|]. by apply bool_decide_eq_true.
Qed.

(** ** Evidence *)

Definition observed (pol : bytes) (part : RhiReconciliationReplayCommitParts)
    (f : Evidence.PersistenceRecord * Z) : Evidence.RhiTradeSourceObservation :=
  Evidence.from_persistence_parts (cp_source_id part) pol f.1 f.2.

(** Every fact of the part is in the evidence tables. *)
Definition part_stored (pol : bytes) (db : Evidence.evidence_db)
    (part : RhiReconciliationReplayCommitParts) : Prop :=
  Forall (λ f, holds db f.1 (observed pol part f)) (cp_facts part).

Lemma persist_facts_Ok part pol facts fresh db fresh' db' :
  Evidence.evidence_inv db →
  persist_facts (cp_source_id part) pol facts fresh db = Ok (fresh', db') →
  Evidence.evidence_inv db' ∧ extends db db' ∧ Forall (λ f, holds db' f.1 (observed pol part f)) facts ∧
  (fresh' = true ↔ fresh = true ∨ new_evidence db db').
Proof.
  revert fresh db; induction facts as [|[r at_s] facts IH]; intros fresh db Hinv Hp; simpl in Hp.
  - injection Hp as <- <-. split_and!; [done|done|constructor|]. split; [by left|]. intros [?|Hn]; [done|].
    exfalso. revert Hn. by apply not_new_evidence.
  - bind Hp as x Hx. destruct x as [out db1]. apply map_err_Ok in Hx.
    pose proof (History.persist_step_new _ _ _ _ _ Hinv Hx) as Hnew.
    apply History.persist_step in Hx as (Hinv1 & Hext1 & Hh & _); [|done].
    apply IH in Hp as (Hinv' & Hext & Hall & Hf); [|done].
    split_and!; [done|by etrans| |].
    + constructor; [|done]. by eapply holds_extends.
    + rewrite Hf, orb_true_iff, Hnew, (new_evidence_trans _ _ _ Hext1 Hext). tauto.
Qed.

Lemma persist_parts_Ok pol parts fresh db fresh' db' :
  Evidence.evidence_inv db → persist_parts pol parts fresh db = Ok (fresh', db') →
  Evidence.evidence_inv db' ∧ extends db db' ∧ Forall (part_stored pol db') parts ∧
  (fresh' = true ↔ fresh = true ∨ new_evidence db db').
Proof.
  revert fresh db; induction parts as [|p parts IH]; intros fresh db Hinv Hp; simpl in Hp.
  - injection Hp as <- <-. split_and!; [done|done|constructor|]. split; [by left|]. intros [?|Hn]; [done|].
    exfalso. revert Hn. by apply not_new_evidence.
  - bind Hp as x Hx. destruct x as [fresh1 db1].
    apply persist_facts_Ok in Hx as (Hinv1 & Hext1 & Hall1 & Hf1); [|done].
    apply IH in Hp as (Hinv' & Hext & Hall & Hf); [|done].
    split_and!; [done|by etrans| |].
    + constructor; [|done]. eapply Forall_impl; [|exact Hall1]. intros f Hh. by eapply holds_extends.
    + rewrite Hf, Hf1, (new_evidence_trans _ _ _ Hext1 Hext). tauto.
Qed.

(** ** Checkpoints and results *)

Section results.
Context `{Sha256}.

(** The rows of the parts' results, in order. *)
Fixpoint result_rows (attempt : bytes) (ordinal : Z) (parts : list RhiReconciliationReplayCommitParts) :
    result CommitOperationError (list result_row) :=
  match parts with
  | [] => Ok []
  | part :: parts =>
      let? row := result_row_of attempt ordinal part in
      let? rows := result_rows attempt (ordinal + 1) parts in
      Ok (row :: rows)
  end.

Definition read_part (plan : RhiReconciliationAttemptPlan) (part : RhiReconciliationReplayCommitParts)
    (rows : list checkpoint_row) : result SourceOperationError (option Checkpoint) :=
  read_checkpoint (cp_source_id part) (plan_policy_digest plan) (cp_trade_id part) rows.

(** The checkpoint of a part after the commit. *)
Definition checkpoint_moved (plan : RhiReconciliationAttemptPlan) (rows rows' : list checkpoint_row)
    (part : RhiReconciliationReplayCommitParts) : Prop :=
  match cp_eligible_cursor part with
  | Some c => ∃ rev, read_part plan part rows' = Ok (Some (MkCheckpoint c rev (finished_at (cp_result part) / 1000)))
  | None => read_part plan part rows' = read_part plan part rows
  end.

Definition other_source (parts : list RhiReconciliationReplayCommitParts) (source : string) : Prop :=
  source ∉ map cp_source_id parts.

Lemma insert_source_result_Ok attempt ordinal part db db' :
  rows_ok (rd_results db) = true → insert_source_result attempt ordinal part db = Ok db' →
  ∃ row, result_row_of attempt ordinal part = Ok row ∧ rows_ok (rd_results db') = true ∧
    (∃ a, a ∈ rd_attempts db ∧ ar_attempt_id a = rr_attempt_id row) ∧
    db' = ReconciliationDb (rd_job db) (rd_evidence db) (rd_checkpoints db) (rd_attempts db)
            (rd_results db ++ [row]).
Proof.
  intros Hok. unfold insert_source_result. intros Hi. bind Hi as row Hrow. bind Hi as rows Hrows.
  apply map_err_Ok in Hrows. injection Hi as <-. exists row. split; [done|].
  pose proof (insert_row_ok result_conflict_sym _ _ _ _ Hok Hrows) as Hok'.
  apply insert_row_Ok in Hrows as (-> & Href & _). split_and!; [done| |done].
  apply existsb_exists in Href as (a & Ha & Hid%bytes_eqb_true). exists a. split; [by apply list_elem_of_In|done].
Qed.

Lemma record_parts_Ok plan ordinal l db db' :
  NoDup (map (λ x, cp_source_id x.1) l) → rows_ok (rd_checkpoints db) = true → rows_ok (rd_results db) = true →
  Forall (λ x, read_part plan x.1 (rd_checkpoints db) = Ok x.2) l →
  record_parts plan ordinal l db = Ok db' →
  rows_ok (rd_checkpoints db') = true ∧ rows_ok (rd_results db') = true ∧
  (∃ rows, result_rows (plan_id plan) ordinal (map fst l) = Ok rows ∧
     rd_results db' = rd_results db ++ rows ∧
     ∀ r, r ∈ rows → ∃ a, a ∈ rd_attempts db ∧ ar_attempt_id a = rr_attempt_id r) ∧
  Forall (checkpoint_moved plan (rd_checkpoints db) (rd_checkpoints db')) (map fst l) ∧
  (∀ source pol trade, other_source (map fst l) source →
     read_checkpoint source pol trade (rd_checkpoints db') =
     read_checkpoint source pol trade (rd_checkpoints db)) ∧
  rd_job db' = rd_job db ∧ rd_evidence db' = rd_evidence db ∧ rd_attempts db' = rd_attempts db.
Proof.
  revert ordinal db; induction l as [|[part ck] l IH]; intros ordinal db Hnd Hck Hres Hread Hr; simpl in Hr.
  - injection Hr as <-. split_and!; try done. exists []. rewrite app_nil_r. split_and!; try done.
    by intros ? ?%elem_of_nil.
  - simpl in Hnd. apply list.NoDup_cons in Hnd as [Hnotin Hnd].
    inversion Hread as [|? ? Hr1 Hr2]; subst. simpl in Hr1.
    bind Hr as db1 Hdb1. bind Hr as db2 Hins.
    (* the checkpoint *)
    assert (rows_ok (rd_checkpoints db1) = true ∧
      db1 = ReconciliationDb (rd_job db) (rd_evidence db) (rd_checkpoints db1) (rd_attempts db) (rd_results db) ∧
      checkpoint_moved plan (rd_checkpoints db) (rd_checkpoints db1) part ∧
      ∀ source pol trade, source ≠ cp_source_id part →
        read_checkpoint source pol trade (rd_checkpoints db1) =
        read_checkpoint source pol trade (rd_checkpoints db)) as (Hck1 & Hd1 & Hm1 & Ho1).
    { unfold checkpoint_moved. destruct (cp_eligible_cursor part) as [c|].
      - bind Hdb1 as rows Hw. apply map_err_Ok in Hw. injection Hdb1 as <-. simpl.
        apply write_checkpoint_Ok in Hw as (Hok & Hrd & _ & Hoth); [|done..].
        split_and!; try done; [by eexists|]. intros s p t Hne. apply Hoth. congruence.
      - injection Hdb1 as <-. by split_and!; try destruct db. }
    rewrite Hd1 in Hins. apply insert_source_result_Ok in Hins as (row & Hrow & Hres2 & Hown & ->);
      [|done]. simpl in Hres2, Hown, Hr.
    apply IH in Hr as (Hck' & Hres' & (rows & Hrows & Hres'' & Hrown) & Hmoved & Hoth & ? & ? & ?);
      simpl in *; [|done..|].
    2: { rewrite List.Forall_forall in Hr2 |- *. intros [p k] Hp. simpl. unfold read_part.
      rewrite Ho1; [by apply (Hr2 (p, k))|]. intros Heq. apply Hnotin. rewrite <- Heq.
      apply list_elem_of_fmap. exists (p, k). split; [done|by apply list_elem_of_In]. }
    assert (other_source (map fst l) (cp_source_id part)) as Hfresh.
    { unfold other_source. rewrite map_map. done. }
    split_and!; try done.
    + exists (row :: rows). rewrite Hrow. simpl. rewrite Hrows. simpl. rewrite Hres'', <- app_assoc.
      split_and!; try done. intros r [->|Hin]%elem_of_cons; [done|by apply Hrown].
    + constructor.
      * unfold checkpoint_moved, read_part in *. destruct (cp_eligible_cursor part) as [c|].
        -- destruct Hm1 as [rev Hrev]. exists rev. by rewrite Hoth.
        -- by rewrite Hoth.
      * rewrite List.Forall_forall in Hmoved |- *. intros p Hp. specialize (Hmoved p Hp).
        unfold checkpoint_moved, read_part in *. destruct (cp_eligible_cursor p); [done|].
        rewrite Hmoved. apply Ho1. intros Heq. apply Hfresh. rewrite <- Heq.
        apply list_elem_of_fmap. exists p. split; [done|by apply list_elem_of_In].
    + intros source pol trade Hs. unfold other_source in Hs. simpl in Hs.
      rewrite Hoth, Ho1; [done| |]; intros Heq; apply Hs; rewrite ?Heq; [by left|by right].
Qed.

(** ** The commit operation *)

Lemma read_prior_Ok policy rows part k :
  read_prior policy rows part = Ok k →
  read_checkpoint (cp_source_id part) policy (cp_trade_id part) rows = Ok k ∧
  cursor <$> k = cp_prior_cursor part.
Proof. unfold read_prior. intros. inv_ok. by to_prop. Qed.

Lemma combine_fst {A B} (l : list A) (k : list B) :
  length l = length k → map fst (combine l k) = l.
Proof.
  revert k; induction l as [|x l IH]; intros [|y k]; simpl; try done. intros [= Hl]. by rewrite IH.
Qed.

Lemma combine_Forall {A B} (P : A → B → Prop) l k :
  Forall2 P l k → Forall (λ x, P x.1 x.2) (combine l k).
Proof. induction 1; simpl; by constructor. Qed.

(** The dirty generation of the trade is the one the attempt is planned against. *)
Definition fenced_generation (lease : Job.RhiReconciliationLease) (plan : RhiReconciliationAttemptPlan)
    (db : reconciliation_db) (d : DirtyState) : Prop :=
  read_dirty (Job.trade_id (Job.lease_job lease)) (Job.dirty_generations (rd_job db)) = Ok (Some d) ∧
  generation d = plan_input_generation plan ∧ dirty_policy d = plan_policy_digest plan.

(** The dirty generations after the commit. *)
Definition dirty_moved (trade : bytes) (plan : RhiReconciliationAttemptPlan) (advanced : bool)
    (db db' : reconciliation_db) : Prop :=
  (advanced = true ↔ new_evidence (rd_evidence db) (rd_evidence db')) ∧
  (advanced = false → rd_job db' = rd_job db) ∧
  (advanced = true → ∃ at_s,
     read_dirty trade (Job.dirty_generations (rd_job db')) =
       Ok (Some (MkDirty (plan_input_generation plan + 1) (plan_policy_digest plan) at_s))) ∧
  (∀ trade', trade' ≠ trade →
     read_dirty trade' (Job.dirty_generations (rd_job db')) =
     read_dirty trade' (Job.dirty_generations (rd_job db))) ∧
  Job.jobs (rd_job db') = Job.jobs (rd_job db).

(** What the first commit of an attempt establishes. *)
Record committed (lease : Job.RhiReconciliationLease) (plan : RhiReconciliationAttemptPlan)
    (parts : list RhiReconciliationReplayCommitParts) (advanced : bool) (db db' : reconciliation_db) : Prop := {
  cd_lease : Job.validate_exact_lease lease (rd_job db) = Ok tt;
  cd_generation : ∃ d, fenced_generation lease plan db d;
  cd_prior : Forall (λ part, ∃ k, read_part plan part (rd_checkpoints db) = Ok k ∧
                       cursor <$> k = cp_prior_cursor part) parts;
  cd_new : ∀ a, a ∈ rd_attempts db → ar_attempt_id a ≠ plan_id plan;
  cd_inv : recon_inv db';
  cd_attempt : ∃ row, attempt_row_of plan = Ok row ∧ rd_attempts db' = rd_attempts db ++ [row];
  cd_results : ∃ rows, result_rows (plan_id plan) 0 parts = Ok rows ∧ rd_results db' = rd_results db ++ rows;
  cd_extends : extends (rd_evidence db) (rd_evidence db');
  cd_stored : Forall (part_stored (plan_policy_digest plan) (rd_evidence db')) parts;
  cd_dirty : dirty_moved (Job.trade_id (Job.lease_job lease)) plan advanced db db';
  cd_moved : Forall (checkpoint_moved plan (rd_checkpoints db) (rd_checkpoints db')) parts;
  cd_other source pol trade : other_source parts source →
    read_checkpoint source pol trade (rd_checkpoints db') =
    read_checkpoint source pol trade (rd_checkpoints db);
}.

Lemma reconcile_existing_false plan parts db :
  reconcile_existing plan parts db = Ok false →
  ∀ a, a ∈ rd_attempts db → ar_attempt_id a ≠ plan_id plan.
Proof.
  unfold reconcile_existing. destruct (Z.eqb_spec (count_rows (λ r, bytes_eqb (ar_attempt_id r) (plan_id plan))
    (rd_attempts db)) 0) as [Hc|]; [|intros; by inv_ok].
  intros _ a Ha Heq. rewrite count_rows_none in Hc. specialize (Hc a Ha). by rewrite Heq, bytes_eqb_refl in Hc.
Qed.

Lemma insert_attempt_inv plan db db' :
  insert_attempt plan db = Ok db' →
  ∃ row, attempt_row_of plan = Ok row ∧ row_admissible (rd_attempts db) row = true ∧
    db' = ReconciliationDb (rd_job db) (rd_evidence db) (rd_checkpoints db) (rd_attempts db ++ [row])
            (rd_results db).
Proof.
  unfold insert_attempt. intros. inv_ok. eexists. split; [done|].
  match goal with H : insert_row _ _ _ = Ok _ |- _ => apply insert_row_Ok in H as (-> & _ & ?) end. done.
Qed.

(** The dirty generation in the two branches of the commit. *)
Lemma dirty_step trade plan parts d (fresh : bool) (jdb : Job.job_db) rows :
  rows_ok (Job.dirty_generations jdb) = true →
  read_dirty trade (Job.dirty_generations jdb) = Ok (Some d) → generation d = plan_input_generation plan →
  (if fresh then
     let? updated_at := ok_or (finished_seconds parts) OpStorage in
     let? (_, rows) :=
       map_err map_source_error
         (advance_dirty_generation trade (plan_policy_digest plan) updated_at (Some d)
            (Job.dirty_generations jdb)) in
     Ok rows
   else Ok (Job.dirty_generations jdb)) = Ok rows →
  rows_ok rows = true ∧ (fresh = false → rows = Job.dirty_generations jdb) ∧
  (fresh = true → ∃ at_s, read_dirty trade rows =
     Ok (Some (MkDirty (plan_input_generation plan + 1) (plan_policy_digest plan) at_s))) ∧
  (∀ trade', trade' ≠ trade → read_dirty trade' rows = read_dirty trade' (Job.dirty_generations jdb)).
Proof.
  intros Hok Hread Hgen Hb. destruct fresh.
  - bind Hb as at_s Hat. bind Hb as x Hx. destruct x as [g rows0]. injection Hb as <-.
    apply map_err_Ok in Hx. eapply advance_dirty_Ok in Hx as (? & Hr & -> & _ & ?); [|done..].
    rewrite Hgen in Hr. split_and!; try done. intros _. by eexists.
  - injection Hb as <-. by split_and!.
Qed.

Lemma commit_Ok lease plan parts db raw db' :
  recon_inv db → NoDup (map cp_source_id parts) →
  commit lease plan parts db = Ok (raw, db') →
  (raw_created raw = false ∧ db' = db ∧ reconcile_existing plan parts db = Ok true) ∨
  (raw_created raw = true ∧ committed lease plan parts (raw_dirty_generation_advanced raw) db db').
Proof.
  intros [Hev Hdi Hck Hat Hre Hown] Hnd Hc. unfold commit in Hc. bind Hc as existing Hex.
  destruct existing.
  { left. bind Hc as r Hr. injection Hc as <- <-. unfold raw_outcome in Hr. inv_ok. done. }
  right. pose proof (reconcile_existing_false _ _ _ Hex) as Hnew.
  bind Hc as u Hl. apply map_err_Ok in Hl. destruct u.
  bind Hc as dirty Hd. apply map_err_Ok in Hd. bind Hc as d Hdd.
  apply ok_or_Ok, filter_opt_Some in Hdd as [-> Hgen]. to_prop.
  match goal with H : bytes_eqb _ _ = true |- _ => apply bytes_eqb_true in H; rename H into Hpol end.
  bind Hc as cks Hcks. apply collect_Ok in Hcks.
  bind Hc as db1 Hins. apply insert_attempt_inv in Hins as (row & Hrow & Hadm & ->).
  bind Hc as x Hx. destruct x as [fresh ev]. simpl in Hx, Hc.
  apply persist_parts_Ok in Hx as (Hev' & Hext & Hstored & Hfresh); [|done].
  bind Hc as drows Hdr. eapply dirty_step in Hdr as (Hdi' & Hd0 & Hd1 & Hd2); [|done..].
  bind Hc as db2 Hrec. bind Hc as r Hr. injection Hc as <- <-.
  assert (map fst (combine parts cks) = parts) as Hfst.
  { apply combine_fst. by eapply Forall2_length. }
  apply record_parts_Ok in Hrec as (Hck' & Hre' & (rows & Hrows & Hres & Hrown) & Hmv & Hoth & Hj & He & Ha);
    [|rewrite <- map_map, Hfst; done|done|done|].
  2: { apply (combine_Forall (λ p k, read_part plan p (rd_checkpoints db) = Ok k)). eapply Forall2_impl; [|exact Hcks].
    intros p k Hp. by apply read_prior_Ok in Hp as [? _]. }
  simpl in *. rewrite Hfst in Hrows, Hmv, Hoth.
  assert (raw_created r = true ∧ raw_dirty_generation_advanced r = fresh) as [Hcr Had].
  { unfold raw_outcome in Hr. inv_ok. done. }
  split; [done|]. rewrite Had.
  split; rewrite ?He, ?Ha; try done.
  - exists d. by split_and!.
  - apply List.Forall_forall. intros p Hp%list_elem_of_In.
    apply list_elem_of_lookup in Hp as [i Hi]. eapply Forall2_lookup_l in Hcks as (k & _ & Hk); [|done].
    exists k. by apply read_prior_Ok.
  - split; rewrite ?He, ?Ha, ?Hj; try done.
    + by rewrite rows_ok_middle, app_nil_r, Hadm by apply attempt_row_conflict_sym.
    + intros q. rewrite Hres. intros [Hq|Hq]%elem_of_app; [|by apply Hrown].
      destruct (Hown _ Hq) as (a & Hin & <-). exists a. split; [|done]. apply elem_of_app. by left.
  - by exists row.
  - by exists rows.
  - unfold dirty_moved. rewrite Hj, He. split_and!; try done.
    + rewrite Hfresh. naive_solver.
    + intros Hf. simpl. rewrite (Hd0 Hf). by destruct (rd_job db).
Qed.

(** ** Committing again *)

Lemma result_rows_spec attempt ordinal parts rows :
  result_rows attempt ordinal parts = Ok rows →
  length rows = length parts ∧ Forall (λ r, rr_attempt_id r = attempt) rows.
Proof.
  revert ordinal rows; induction parts as [|p parts IH]; intros ordinal rows Hr; simpl in Hr.
  - injection Hr as <-. split; [done|constructor].
  - bind Hr as row Hrow. bind Hr as rest Hrest. injection Hr as <-. apply IH in Hrest as [Hl Hall].
    split; [simpl; by rewrite Hl|]. constructor; [|done]. unfold result_row_of in Hrow. by inv_ok.
Qed.

Lemma count_rows_all {row} (p : row → bool) l :
  Forall (λ r, p r = true) l → count_rows p l = Z.of_nat (length l).
Proof.
  unfold count_rows. induction 1 as [|r l Hr _ IH]; simpl; [done|]. rewrite Hr. simpl. lia.
Qed.

Lemma is_lt_self c : is_lt (compare_cursor c c) = false.
Proof. apply is_lt_irrefl. Qed.

(** Every part whose row is stored, and whose checkpoint is at its eligible cursor or
    later, is recognised. *)
Lemma reconcile_parts_Ok plan ordinal parts db rows :
  rows_ok (rd_results db) = true → result_rows (plan_id plan) ordinal parts = Ok rows →
  (∀ r, r ∈ rows → r ∈ rd_results db) →
  Forall (λ part, ∀ c, cp_eligible_cursor part = Some c →
    ∃ k, read_part plan part (rd_checkpoints db) = Ok (Some k) ∧ is_lt (compare_cursor (cursor k) c) = false)
    parts →
  reconcile_parts plan ordinal parts db = Ok tt.
Proof.
  intros Hok. revert ordinal rows; induction parts as [|p parts IH]; intros ordinal rows Hr Hin Hall; simpl in Hr |- *;
    [done|].
  bind Hr as row Hrow. bind Hr as rest Hrest. injection Hr as <-. inversion Hall as [|? ? Hp Hall']; subst.
  unfold match_source_result. rewrite Hrow. simpl.
  rewrite count_rows_self; [|intros r; simpl; by rewrite !bytes_eqb_refl|done|apply Hin; left].
  simpl. destruct (cp_eligible_cursor p) as [c|] eqn:Hc.
  - destruct (Hp c eq_refl) as (k & Hk & Hlt). unfold read_part in Hk. rewrite Hk. simpl. rewrite Hlt. simpl.
    eapply IH; [done| |done]. intros r Hr'. apply Hin. by right.
  - simpl. eapply IH; [done| |done]. intros r Hr'. apply Hin. by right.
Qed.

Lemma reconcile_committed lease plan parts advanced db db' :
  recon_inv db → committed lease plan parts advanced db db' → reconcile_existing plan parts db' = Ok true.
Proof.
  intros Hinv Hc. destruct (cd_attempt _ _ _ _ _ _ Hc) as (row & Hrow & Ha).
  destruct (cd_results _ _ _ _ _ _ Hc) as (rows & Hrows & Hres). pose proof (cd_inv _ _ _ _ _ _ Hc) as Hinv'.
  assert (ar_attempt_id row = plan_id plan) as Hid by (unfold attempt_row_of in Hrow; by inv_ok).
  unfold reconcile_existing.
  assert (count_rows (λ r, bytes_eqb (ar_attempt_id r) (plan_id plan)) (rd_attempts db') = 1) as ->.
  { rewrite Ha, count_rows_app, (proj2 (count_rows_none _ (rd_attempts db))).
    - rewrite count_rows_all; [done|]. constructor; [|done]. by rewrite Hid, bytes_eqb_refl.
    - intros a Hin. destruct (bytes_eqb _ _) eqn:E; [|done]. apply bytes_eqb_true in E.
      by destruct (cd_new _ _ _ _ _ _ Hc a Hin). }
  simpl. unfold match_attempt. rewrite Hrow. simpl.
  rewrite count_rows_self;
    [|intros r; apply bytes_eqb_refl|apply Hinv'|rewrite Ha; apply elem_of_app; right; by left]. simpl.
  pose proof (result_rows_spec _ _ _ _ Hrows) as [Hlen Hall].
  assert (count_rows (λ r, bytes_eqb (rr_attempt_id r) (plan_id plan)) (rd_results db') =
    Z.of_nat (length parts)) as ->.
  { rewrite Hres, count_rows_app, (proj2 (count_rows_none _ (rd_results db))).
    - rewrite count_rows_all; [lia|]. eapply Forall_impl; [|exact Hall]. intros r ->. apply bytes_eqb_refl.
    - intros r Hin. destruct (bytes_eqb _ _) eqn:E; [|done]. apply bytes_eqb_true in E.
      destruct (ri_owned _ Hinv r Hin) as (a & Hain & Heq). destruct (cd_new _ _ _ _ _ _ Hc a Hain). congruence. }
  rewrite Z.eqb_refl. simpl.
  rewrite (reconcile_parts_Ok plan 0 parts db' rows); [done|apply Hinv'|done| |].
  - intros r Hr. rewrite Hres. apply elem_of_app. by right.
  - eapply Forall_impl; [|exact (cd_moved _ _ _ _ _ _ Hc)]. intros p Hp c Hcur.
    unfold checkpoint_moved in Hp. rewrite Hcur in Hp. destruct Hp as [rev Hp].
    eexists. split; [exact Hp|]. apply is_lt_self.
Qed.

(** The same tables beside other jobs and dirty generations. *)
Definition with_jobs (jobs : Job.job_db) (db : reconciliation_db) : reconciliation_db :=
  ReconciliationDb jobs (rd_evidence db) (rd_checkpoints db) (rd_attempts db) (rd_results db).

Lemma reconcile_parts_jobs jobs plan ordinal parts db :
  reconcile_parts plan ordinal parts (with_jobs jobs db) = reconcile_parts plan ordinal parts db.
Proof. revert ordinal; induction parts as [|p parts IH]; intros ordinal; simpl; [done|]. by rewrite IH. Qed.

Lemma reconcile_existing_jobs jobs plan parts db :
  reconcile_existing plan parts (with_jobs jobs db) = reconcile_existing plan parts db.
Proof. unfold reconcile_existing. by rewrite reconcile_parts_jobs. Qed.

Lemma commit_again lease lease' plan parts db raw db' jobs :
  recon_inv db → NoDup (map cp_source_id parts) → commit lease plan parts db = Ok (raw, db') →
  commit lease' plan parts (with_jobs jobs db') =
    Ok (MkRaw false (raw_source_result_count raw) (raw_checkpoint_advance_count raw) false
          (raw_cursor_scopes raw), with_jobs jobs db').
Proof.
  intros Hinv Hnd Hc.
  assert (reconcile_existing plan parts db' = Ok true) as Hex.
  { apply commit_Ok in Hc as [(_ & -> & He)|[_ Hcm]]; [done| |done..]. by eapply reconcile_committed. }
  assert (∃ created advanced, raw_outcome created advanced parts = Ok raw) as (cr & ad & Hraw).
  { unfold commit in Hc. bind Hc as ex Hx. destruct ex.
    - bind Hc as r Hr. injection Hc as <- <-. by eexists _, _.
    - bind Hc as u Hl. bind Hc as d Hd. bind Hc as d' Hd'. bind Hc as k Hk. bind Hc as db1 Hi.
      bind Hc as x Hp. destruct x as [fresh ev]. bind Hc as dr Hdr. bind Hc as db2 Hr. bind Hc as r Hraw.
      injection Hc as <- <-. by eexists _, _. }
  unfold commit. rewrite reconcile_existing_jobs, Hex. simpl. unfold raw_outcome in Hraw |- *.
  bind Hraw as n Hn. bind Hraw as m Hm. injection Hraw as <-. by rewrite Hn; simpl; rewrite Hm.
Qed.

End results.

(** ** The sources of a plan *)

Section plans.
Context `{Sha256, JsonValue V, !JsonWriter V, EvidenceLibrary M}.

Lemma source_lt_irrefl q q' : source_lt q q' → source_id q ≠ source_id q'.
Proof. unfold source_lt. intros Hlt Heq. rewrite Heq in Hlt. by rewrite is_lt_irrefl in Hlt. Qed.

Lemma sorted_nodup qs : StronglySorted source_lt qs → NoDup (map source_id qs).
Proof.
  induction 1 as [|q qs _ IH Hall]; simpl; constructor; [|done].
  intros (q' & Hq & Hin)%list_elem_of_fmap. by apply (source_lt_irrefl q q'); [eapply elem_of_Forall|].
Qed.

Lemma matched_ids lease plan parts qs :
  length parts = length qs →
  existsb (λ '(part, request), part_mismatch lease plan part request) (combine parts qs) = false →
  map cp_source_id parts = map source_id qs ∧
  Forall (λ p, cp_trade_id p = Job.trade_id (Job.lease_job lease)) parts ∧
  Forall (λ q, request_trade_id q = Job.trade_id (Job.lease_job lease)) qs.
Proof.
  revert qs; induction parts as [|p parts IH]; intros [|q qs] Hl Hall; simpl in *; try done.
  apply orb_false_iff in Hall as [Hp Hall]. destruct (IH qs) as (-> & Htr & Htq); [lia|done|].
  unfold part_mismatch in Hp. to_prop.
  repeat match goal with H : String.eqb _ _ = true |- _ => apply String.eqb_eq in H end.
  repeat match goal with H : bytes_eqb (cp_trade_id p) _ = true |- _ => apply bytes_eqb_true in H end.
  split_and!; [congruence| |]; (constructor; [congruence|done]).
Qed.

Lemma validate_commit_Ok writable lease lease0 (normalized : V) start plan replays parts material :
  from_claim lease0 normalized start = Ok plan →
  validate_commit writable lease plan replays = Ok (parts, material) →
  writable = true ∧ parts = map into_commit_parts replays ∧ length replays = length (requests plan) ∧
  plan_mismatch lease plan = false ∧ NoDup (map cp_source_id parts) ∧
  Forall (λ p, cp_trade_id p = Job.trade_id (Job.lease_job lease)) parts ∧
  committed_manifest_material plan parts = Some material ∧
  request_trade_id <$> head (requests plan) = Some (Job.trade_id (Job.lease_job lease)).
Proof.
  intros Hplan Hv. unfold validate_commit in Hv. bind Hv as u Hw. apply reject_if_Ok, negb_false_iff in Hw.
  bind Hv as u2 Hm. apply reject_if_Ok, orb_false_iff in Hm as [Hlen Hm].
  apply negb_false_iff, Nat.eqb_eq in Hlen.
  assert (length replays = length (requests plan)) as Hl by (rewrite length_take in Hlen; lia).
  rewrite take_ge in Hv by lia. bind Hv as u3 Hpm. apply reject_if_Ok in Hpm.
  bind Hv as mt Hmt. apply ok_or_Ok in Hmt. injection Hv as <- <-.
  apply matched_ids in Hpm as (Hids & Htr & Htq); [|by rewrite length_map].
  apply from_claim_Ok in Hplan as (_ & _ & _ & _ & _ & _ & _ & _ & _ & _ & _ & _ & _ & Hn & _ & Hsort).
  split_and!; try done.
  - rewrite Hids. by apply sorted_nodup.
  - destruct (requests plan) as [|q qs]; simpl in *; [lia|]. inversion Htq; subst. by f_equal.
Qed.

(** ** Properties *)

Context `{TransactionLaws reconciliation_db}.

Lemma transaction_error_unknown e :
  map_transaction_error e = CommitOutcomeUnknown ↔ commit_outcome_unknown e = true.
Proof.
  unfold map_transaction_error. destruct (commit_outcome_unknown e); [done|]. split; [|done].
  by destruct (operation_error e) as [[]|].
Qed.

(** What a successful call answers. *)
Lemma commit_source_replays_Ok lease0 (normalized : V) start writable lease plan replays db out db' :
  recon_inv db → from_claim lease0 normalized start = Ok plan →
  commit_source_replays writable lease plan replays db = (Ok out, db') →
  ∃ parts, validate_commit writable lease plan replays = Ok (parts, manifest_material out) ∧
    if out_created out then committed lease plan parts (dirty_generation_advanced out) db db'
    else db' = db ∧ reconcile_existing plan parts db = Ok true.
Proof.
  intros Hinv Hplan. unfold commit_source_replays.
  destruct (validate_commit _ _ _ _) as [[parts material]|e] eqn:Hv; [|done].
  pose proof (validate_commit_Ok _ _ _ _ _ _ _ _ _ Hplan Hv) as (_ & _ & _ & _ & Hnd & _).
  destruct (transaction _ db) as [[raw|e] db1] eqn:Htx; intros [= <- <-]; simpl.
  apply tx_committed in Htx. exists parts. split; [done|].
  by apply commit_Ok in Htx as [(-> & ? & ?)|(-> & ?)].
Qed.

Lemma commit_source_replays_Err lease0 (normalized : V) start writable lease plan replays db e db' :
  recon_inv db → from_claim lease0 normalized start = Ok plan →
  commit_source_replays writable lease plan replays db = (Err e, db') →
  match e with
  | CommitOutcomeUnknown => db' = db ∨ ∃ parts advanced, committed lease plan parts advanced db db'
  | _ => db' = db
  end.
Proof.
  intros Hinv Hplan Hrun. revert Hrun. unfold commit_source_replays.
  destruct (validate_commit _ _ _ _) as [[parts material]|e'] eqn:Hv; [|by intros [= <- <-]; destruct e'; auto].
  pose proof (validate_commit_Ok _ _ _ _ _ _ _ _ _ Hplan Hv) as (_ & _ & _ & _ & Hnd & _).
  destruct (transaction _ db) as [[raw|e'] db1] eqn:Htx; [done|]. intros [= <- <-]; simpl. rename e' into e.
  pose proof (transaction_error_unknown e) as Hu. destruct (commit_outcome_unknown e) eqn:Hce.
  - rewrite (proj2 Hu eq_refl). destruct (tx_unknown _ _ _ _ Htx Hce) as (raw & db2 & Hop & [-> | ->]); [by left|].
    apply commit_Ok in Hop as [(_ & -> & _)|[_ Hc]]; [by left| |done..]. right. by eexists _, _.
  - destruct (tx_rolled_back _ _ _ _ Htx Hce) as [-> _].
    destruct (map_transaction_error e); try done. by discriminate (proj1 Hu eq_refl).
Qed.

(** Whatever the host answers, a commit did nothing or is a first commit. *)
Lemma commit_source_replays_effect lease0 (normalized : V) start writable lease plan replays db res db' :
  recon_inv db → from_claim lease0 normalized start = Ok plan →
  commit_source_replays writable lease plan replays db = (res, db') →
  db' = db ∨ ∃ parts advanced, committed lease plan parts advanced db db'.
Proof.
  intros Hinv Hplan Hrun. destruct res as [out|e].
  - destruct (commit_source_replays_Ok _ _ _ _ _ _ _ _ _ _ Hinv Hplan Hrun) as (parts & _ & Hc).
    destruct (out_created out); [right; by eexists _, _|left; by destruct Hc].
  - pose proof (commit_source_replays_Err _ _ _ _ _ _ _ _ _ _ Hinv Hplan Hrun) as Hc. destruct e; auto.
Qed.

(** C3. The commit of an attempt is atomic and fenced, on any transaction host.  A
    first commit succeeds only under the exact lease, at the dirty generation and the
    checkpoints the attempt was planned from; it then holds the attempt and one result
    per source in order, every fact of every source, the checkpoints at the eligible
    cursors, and the dirty generation moved by one exactly when the evidence is new;
    jobs, other trades and other sources are untouched.  Otherwise the attempt was
    already committed and nothing changes; an unknown outcome leaves the state before
    or such a state after, and every other failure leaves the state as it was. *)
Theorem source_commit_is_atomic lease0 (normalized : V) start writable lease plan replays db res db' :
  recon_inv db → from_claim lease0 normalized start = Ok plan →
  commit_source_replays writable lease plan replays db = (res, db') →
  match res with
  | Ok out => ∃ parts,
      validate_commit writable lease plan replays = Ok (parts, manifest_material out) ∧
      if out_created out then committed lease plan parts (dirty_generation_advanced out) db db'
      else db' = db ∧ reconcile_existing plan parts db = Ok true
  | Err CommitOutcomeUnknown => db' = db ∨ ∃ parts advanced, committed lease plan parts advanced db db'
  | Err _ => db' = db
  end.
Proof.
  intros Hinv Hplan Hrun. destruct res as [out|e].
  - by eapply commit_source_replays_Ok.
  - by eapply commit_source_replays_Err.
Qed.

(** Committing an attempt again settles it: once the commit took effect, whether
    or not its outcome was reported, and whatever happened to the jobs since (the lease
    may be lost, the generation may have moved), the same commit changes nothing, and
    when it answers it reports that nothing was created, with the counts and cursors of
    the first; it never reports a lost lease, a moved generation or a conflict. *)
Theorem repeated_commit_changes_nothing lease0 (normalized : V) start writable lease plan replays
    parts material db raw db1 jobs res db2 :
  recon_inv db → from_claim lease0 normalized start = Ok plan →
  validate_commit writable lease plan replays = Ok (parts, material) →
  commit lease plan parts db = Ok (raw, db1) →
  commit_source_replays writable lease plan replays (with_jobs jobs db1) = (res, db2) →
  db2 = with_jobs jobs db1 ∧
  match res with
  | Ok out =>
      out = MkOutcome _ false (raw_source_result_count raw) (raw_checkpoint_advance_count raw) false
              (map evidence_of_scope (raw_cursor_scopes raw)) material
  | Err e => e = Storage ∨ e = CommitOutcomeUnknown
  end.
Proof.
  intros Hinv Hplan Hv Hc. pose proof (validate_commit_Ok _ _ _ _ _ _ _ _ _ Hplan Hv) as (_ & _ & _ & _ & Hnd & _).
  pose proof (commit_again lease lease plan parts db raw db1 jobs Hinv Hnd Hc) as Hagain.
  unfold commit_source_replays. rewrite Hv.
  destruct (transaction _ (with_jobs jobs db1)) as [[raw2|e] db3] eqn:Htx; intros [= <- <-]; simpl.
  - apply tx_committed in Htx. rewrite Hagain in Htx. by injection Htx as <- <-.
  - unfold map_transaction_error. destruct (commit_outcome_unknown e) eqn:Hce.
    + destruct (tx_unknown _ _ _ _ Htx Hce) as (x & db4 & Hop & Hdb). rewrite Hagain in Hop.
      injection Hop as <- <-. split; [by destruct Hdb as [-> | ->]|by right].
    + destruct (tx_rolled_back _ _ _ _ Htx Hce) as [-> Herr]. split; [done|].
      destruct (operation_error e) as [oe|]; [|by left].
      specialize (Herr oe eq_refl). by rewrite Hagain in Herr.
Qed.
End plans.

(** ** A concrete commit: the plan and the replay plan of [ReconciliationReplay] *)

#[local] Existing Instance checksum.
#[local] Existing Instance json_value.
#[local] Existing Instance json_writer.
#[local] Existing Instance demo_library.
#[local] Existing Instance reliable_host.
#[local] Existing Instance reliable_host_laws.

Definition demo_policy : Job.RhiReconciliationJobPolicy := Job.Policy 65536 60000 30000 2 1000 60000.

Definition demo_claimed : Job.RhiReconciliationLease * Job.job_db :=
  Eval vm_compute in
    let trade := repeat 1 16 in
    match Job.schedule trade demo_policy 1000 (Job.JobDb [Job.DirtyRow trade 1 demo_digest 0] []) with
    | Ok (_, db) => match Job.claim_next (repeat 7 16) 2000 db with
                    | Ok (Some l, db) => (l, db) | _ => (Attempt.demo_lease, db) end
    | Err _ => (Attempt.demo_lease, Job.JobDb [] [])
    end.

Definition demo_lease : Job.RhiReconciliationLease := demo_claimed.1.
Definition demo_jobs : Job.job_db := demo_claimed.2.

Definition demo_state : reconciliation_db := ReconciliationDb demo_jobs Evidence.empty_db [] [] [].

Definition demo_plan : RhiReconciliationAttemptPlan :=
  Eval vm_compute in
    match from_claim demo_lease demo_document 2000 with Ok p => p | Err _ => Attempt.demo_plan end.

Definition demo_replays : list RhiReconciliationSourceReplay :=
  Eval vm_compute in
    match requests demo_plan with
    | [request] =>
        match from_request demo_plan request demo_document None with
        | Ok p => match finish p request Complete 2500 4000 demo_events with Ok r => [r] | Err _ => [] end
        | Err _ => []
        end
    | _ => []
    end.

Lemma demo_claim_planned : from_claim demo_lease demo_document 2000 = Ok demo_plan.
Proof. vm_compute. reflexivity. Qed.

Definition demo_validated :
    list RhiReconciliationReplayCommitParts * RhiCommittedManifestMaterial :=
  Eval vm_compute in
    match validate_commit true demo_lease demo_plan demo_replays with
    | Ok x => x | Err _ => ([], MkCommittedMaterial [] [] [] 0 [] 0 [] [] []) end.

Definition demo_commit := commit demo_lease demo_plan demo_validated.1 demo_state.

Definition demo_raw : RawCommitOutcome :=
  Eval vm_compute in match demo_commit with Ok (r, _) => r | Err _ => MkRaw false 0 0 false [] end.

Definition demo_committed_state : reconciliation_db :=
  match demo_commit with Ok (_, db) => db | Err _ => demo_state end.

Lemma demo_state_ok : recon_inv demo_state.
Proof.
  split; [apply Evidence.empty_inv|reflexivity..|by intros ? ?%elem_of_nil].
Qed.

Lemma demo_validated_Ok : validate_commit true demo_lease demo_plan demo_replays = Ok demo_validated.
Proof. vm_compute. reflexivity. Qed.

Lemma demo_commit_raw : (λ x, x.1) <$> match demo_commit with Ok x => Some x | Err _ => None end = Some demo_raw.
Proof. vm_compute. reflexivity. Qed.

Lemma demo_commit_Ok : commit demo_lease demo_plan demo_validated.1 demo_state = Ok (demo_raw, demo_committed_state).
Proof.
  pose proof demo_commit_raw as Hr. unfold demo_committed_state. fold demo_commit.
  destruct demo_commit as [[r db]|]; [|done]. simpl in Hr. by injection Hr as ->.
Qed.

Definition demo_outcome : RhiReconciliationSourceCommitOutcome RhiCommittedManifestMaterial :=
  MkOutcome _ true 1 1 true (map evidence_of_scope (raw_cursor_scopes demo_raw)) demo_validated.2.

Lemma demo_raw_created : demo_raw = MkRaw true 1 1 true (raw_cursor_scopes demo_raw).
Proof. vm_compute. reflexivity. Qed.

Lemma demo_replays_committed :
  commit_source_replays true demo_lease demo_plan demo_replays demo_state = (Ok demo_outcome, demo_committed_state).
Proof.
  unfold commit_source_replays. rewrite demo_validated_Ok. unfold transaction, reliable_host, reliable_transaction.
  rewrite (surjective_pairing demo_validated), demo_commit_Ok. unfold demo_outcome. by rewrite demo_raw_created.
Qed.

(** One proposal was stored: the generation moved to two and the checkpoint to it. *)
Lemma source_commit_is_atomic_witness :
  ∃ row, attempt_row_of demo_plan = Ok row ∧ rd_attempts demo_committed_state = [row].
Proof.
  destruct (source_commit_is_atomic demo_lease demo_document 2000 true demo_lease demo_plan demo_replays demo_state
    (Ok demo_outcome) demo_committed_state demo_state_ok demo_claim_planned demo_replays_committed)
    as (parts & _ & Hc).
  exact (cd_attempt _ _ _ _ _ _ Hc).
Defined.

(** The same replays again, after every job is gone. *)
Lemma repeated_commit_changes_nothing_witness :
  (commit_source_replays true demo_lease demo_plan demo_replays
     (with_jobs (Job.JobDb [] []) demo_committed_state)).2 = with_jobs (Job.JobDb [] []) demo_committed_state.
Proof.
  destruct (commit_source_replays true demo_lease demo_plan demo_replays
     (with_jobs (Job.JobDb [] []) demo_committed_state)) as [res db2] eqn:Hc.
  exact (proj1 (repeated_commit_changes_nothing demo_lease demo_document 2000 true demo_lease demo_plan demo_replays
    demo_validated.1 demo_validated.2 demo_state demo_raw demo_committed_state (Job.JobDb [] []) res db2
    demo_state_ok demo_claim_planned demo_validated_Ok demo_commit_Ok Hc)).
Defined.

End CommitSafety.
