(* ===== verification/Publication.v ===== *)
(** * Publication authority: [src/src/publication.rs]

    The publication mode, the ordered target set and the retry policy that a
    validated configuration grants, and the two domain-separated digests that
    bind durable publication work to them.  The theorems show that a derived
    authority is bounded and names only writable relays, and that its digest
    determines the whole authority up to a SHA-256 collision. *)

From Stdlib Require Import ZArith Lia.
From stdpp Require Import list strings.
From S2P Require Import Prelude.
From S2P Require Import Interfaces.
From S2P Require Import StateMetadata.

Module Authority.

Definition RHI_PUBLICATION_MAX_TARGETS : Z := 32.
Definition RHI_PUBLICATION_MAX_ATTEMPTS : Z := 100.
Definition AUTHORITY_DOMAIN : bytes := as_bytes "radroots.rhi.publication_authority.v1" ++ [0].
Definition TARGET_SET_DOMAIN : bytes := as_bytes "radroots.rhi.publication_target_set.v1" ++ [0].

Inductive RhiPublicationMode : Type := Required | Disabled.

#[global] Instance mode_eq_dec : EqDecision RhiPublicationMode.
Proof. solve_decision. Defined.

Definition mode_code (m : RhiPublicationMode) : String.string :=
  match m with Required => "required" | Disabled => "disabled" end.

Record RhiPublicationRetryPolicy : Type := RetryPolicy {
  maximum_attempts : Z;
  initial_backoff_milliseconds : Z;
  maximum_backoff_milliseconds : Z;
  attempt_deadline_milliseconds : Z;
}.

Record RhiPublicationTarget : Type := MkTarget {
  target_ordinal : Z;
  target_relay_id : String.string;
  target_required : bool;
}.

Record RhiPublicationAuthority : Type := MkAuthority {
  configuration_sha256 : bytes;
  mode : RhiPublicationMode;
  targets : list RhiPublicationTarget;
  retry : option RhiPublicationRetryPolicy;
  queue_capacity : Z;
  target_set_sha256 : bytes;
  authority_sha256 : bytes;
}.

(** [impl PartialEq for RhiPublicationAuthority]: everything but the configuration *)
Definition authority_eq (x y : RhiPublicationAuthority) : Prop :=
  mode x = mode y ∧ targets x = targets y ∧ retry x = retry y ∧
  queue_capacity x = queue_capacity y ∧ target_set_sha256 x = target_set_sha256 y ∧
  authority_sha256 x = authority_sha256 y.

Inductive RhiPublicationErrorKind : Type := InvalidConfiguration | TargetInventory.

Definition publication_error_code (k : RhiPublicationErrorKind) : String.string :=
  match k with
  | InvalidConfiguration => "publication_configuration_invalid"
  | TargetInventory => "publication_target_inventory_invalid"
  end.

Definition is_ascii_lowercase (b : Z) : bool := between 97 122 b.
Definition is_ascii_digit (b : Z) : bool := between 48 57 b.
Definition relay_id_byte (b : Z) : bool :=
  is_ascii_lowercase b || is_ascii_digit b || (b =? 95) || (b =? 45).

Definition valid_relay_id (value : String.string) : bool :=
  match as_bytes value with
  | [] => false
  | first :: _ =>
      (Z.of_nat (length (as_bytes value)) <=? 64) && is_ascii_lowercase first
      && forallb relay_id_byte (as_bytes value)
  end.

Section authority.
Context `{Sha256, JsonValue V, !JsonWriter V}.

Definition string (document : V) (p : String.string) : result RhiPublicationErrorKind String.string :=
  ok_or (match pointer document p with Some v => as_str v | None => None end) InvalidConfiguration.
Definition integer (document : V) (p : String.string) : result RhiPublicationErrorKind Z :=
  ok_or (match pointer document p with Some v => as_u64 v | None => None end) InvalidConfiguration.
Definition pointer_str (v : V) (p : String.string) : option String.string :=
  match pointer v p with Some v => as_str v | None => None end.
Definition pointer_bool (v : V) (p : String.string) : option bool :=
  match pointer v p with Some v => as_bool v | None => None end.
Definition pointer_array (v : V) (p : String.string) : result RhiPublicationErrorKind (list V) :=
  ok_or (match pointer v p with Some v => as_array v | None => None end) TargetInventory.

(** [u32::try_from(targets.len())] cannot fail on a list in memory; it is kept. *)
Definition target_material (t : RhiPublicationTarget) : bytes :=
  to_be_bytes 4 (target_ordinal t) ++ framed (as_bytes (target_relay_id t))
  ++ [if target_required t then 1 else 0].

Definition target_set_digest (ts : list RhiPublicationTarget) :
    result RhiPublicationErrorKind bytes :=
  let? count := ok_or (try_from U32_MAX (Z.of_nat (length ts))) TargetInventory in
  let? _ := collect (λ t, ok_or (try_from U64_MAX
              (Z.of_nat (length (as_bytes (target_relay_id t))))) TargetInventory) ts in
  Ok (sha256 (TARGET_SET_DOMAIN ++ to_be_bytes 4 count ++ concat (map target_material ts))).

Definition retry_material (r : option RhiPublicationRetryPolicy) : bytes :=
  match r with
  | Some r =>
      [1] ++ to_be_bytes 2 (maximum_attempts r) ++ to_be_bytes 8 (initial_backoff_milliseconds r)
      ++ to_be_bytes 8 (maximum_backoff_milliseconds r)
      ++ to_be_bytes 8 (attempt_deadline_milliseconds r)
  | None => [0]
  end.

Definition authority_digest (m : RhiPublicationMode) (target_set : bytes) (target_count : Z)
    (r : option RhiPublicationRetryPolicy) (queue : Z) : result RhiPublicationErrorKind bytes :=
  let? count := ok_or (try_from U32_MAX target_count) TargetInventory in
  Ok (sha256
        (AUTHORITY_DOMAIN ++ [match m with Disabled => 0 | Required => 1 end]
         ++ to_be_bytes 4 count ++ target_set ++ retry_material r ++ to_be_bytes 4 queue)).

(** One round of the target loop; [accepted] holds the targets already pushed. *)
Definition derive_target (relays : list V) (accepted : list RhiPublicationTarget) (target_id : V) :
    result RhiPublicationErrorKind RhiPublicationTarget :=
  let? relay_id := ok_or (filter_opt valid_relay_id (as_str target_id)) TargetInventory in
  reject_if (existsb (λ t, String.eqb (target_relay_id t) relay_id) accepted) TargetInventory ;?
  let? relay :=
    ok_or (List.find (λ r, is_some_and (String.eqb relay_id) (pointer_str r "/id")) relays)
      TargetInventory in
  reject_if (negb (is_some_and id (pointer_bool relay "/write"))) TargetInventory ;?
  let? ordinal := ok_or (try_from U8_MAX (Z.of_nat (length accepted))) TargetInventory in
  let? required := ok_or (pointer_bool relay "/required") TargetInventory in
  Ok (MkTarget ordinal relay_id required).

Fixpoint derive_targets (relays : list V) (accepted : list RhiPublicationTarget)
    (target_ids : list V) : result RhiPublicationErrorKind (list RhiPublicationTarget) :=
  match target_ids with
  | [] => Ok accepted
  | target_id :: target_ids =>
      let? target := derive_target relays accepted target_id in
      derive_targets relays (accepted ++ [target]) target_ids
  end.

Definition derive_retry (document : V) : result RhiPublicationErrorKind RhiPublicationRetryPolicy :=
  let? attempts := integer document "/publication/retry/max_attempts" in
  let? attempts := ok_or (try_from U16_MAX attempts) InvalidConfiguration in
  let? initial := integer document "/publication/retry/initial_backoff_ms" in
  let? maximum := integer document "/publication/retry/maximum_backoff_ms" in
  let? deadline := integer document "/publication/retry/attempt_deadline_ms" in
  reject_if
    ((attempts =? 0)
     || (RHI_PUBLICATION_MAX_ATTEMPTS <? attempts)
     || (initial =? 0)
     || (maximum <? initial)
     || (3600000 <? maximum)
     || negb (between 100 30000 deadline))
    InvalidConfiguration ;?
  Ok (RetryPolicy attempts initial maximum deadline).

Definition derive_authority (document : V) (profile : Metadata.RhiConfigProfile) :
    result RhiPublicationErrorKind RhiPublicationAuthority :=
  let? configuration :=
    map_err (λ _, InvalidConfiguration) (Metadata.normalized_config_digest profile document) in
  let? text := string document "/publication/mode" in
  let? m :=
    if String.eqb text "required" then Ok Required
    else if String.eqb text "disabled" then Ok Disabled
    else Err InvalidConfiguration in
  let? queue := integer document "/resource_limits/queues/publication" in
  let? queue := ok_or (try_from U32_MAX queue) InvalidConfiguration in
  reject_if ((queue =? 0) || (65536 <? queue)) InvalidConfiguration ;?
  let? (ts, r) :=
    match m with
    | Disabled =>
        reject_if
          (bool_decide (is_Some (pointer document "/publication/target_relay_ids"))
           || bool_decide (is_Some (pointer document "/publication/retry")))
          InvalidConfiguration ;?
        Ok ([], None)
    | Required =>
        let? target_ids := pointer_array document "/publication/target_relay_ids" in
        reject_if ((length target_ids =? 0)%nat
                   || (RHI_PUBLICATION_MAX_TARGETS <? Z.of_nat (length target_ids)))
          TargetInventory ;?
        let? relays := pointer_array document "/relays" in
        let? ts := derive_targets relays [] target_ids in
        let? r := derive_retry document in
        Ok (ts, Some r)
    end in
  let? target_set := target_set_digest ts in
  let? authority := authority_digest m target_set (Z.of_nat (length ts)) r queue in
  Ok (MkAuthority configuration m ts r queue target_set authority).

(** ** Well-formed authorities *)

(** The configured relay a target was derived from. *)
Definition configured_target (document : V) (t : RhiPublicationTarget) : Prop :=
  ∃ relays relay, pointer_array document "/relays" = Ok relays ∧ relay ∈ relays ∧
    pointer_str relay "/id" = Some (target_relay_id t) ∧
    pointer_bool relay "/write" = Some true ∧
    pointer_bool relay "/required" = Some (target_required t).

Definition targets_ok (ts : list RhiPublicationTarget) : Prop :=
  Z.of_nat (length ts) ≤ RHI_PUBLICATION_MAX_TARGETS ∧
  (∀ i t, ts !! i = Some t → target_ordinal t = Z.of_nat i) ∧
  NoDup (map target_relay_id ts) ∧
  Forall (λ t, valid_relay_id (target_relay_id t) = true) ts.

Definition retry_ok (r : RhiPublicationRetryPolicy) : Prop :=
  1 ≤ maximum_attempts r ≤ 100 ∧
  1 ≤ initial_backoff_milliseconds r ≤ maximum_backoff_milliseconds r ∧
  maximum_backoff_milliseconds r ≤ 3600000 ∧ 100 ≤ attempt_deadline_milliseconds r ≤ 30000.

Definition authority_ok (a : RhiPublicationAuthority) : Prop :=
  targets_ok (targets a) ∧ 1 ≤ queue_capacity a ≤ 65536 ∧
  target_set_digest (targets a) = Ok (target_set_sha256 a) ∧
  authority_digest (mode a) (target_set_sha256 a) (Z.of_nat (length (targets a))) (retry a)
    (queue_capacity a) = Ok (authority_sha256 a) ∧
  match mode a with
  | Required => targets a ≠ [] ∧ ∃ r, retry a = Some r ∧ retry_ok r
  | Disabled => targets a = [] ∧ retry a = None
  end.

Lemma derive_target_Ok relays accepted target_id t :
  derive_target relays accepted target_id = Ok t →
  target_ordinal t = Z.of_nat (length accepted) ∧ valid_relay_id (target_relay_id t) = true ∧
  target_relay_id t ∉ map target_relay_id accepted ∧
  ∃ relay, relay ∈ relays ∧ pointer_str relay "/id" = Some (target_relay_id t) ∧
    pointer_bool relay "/write" = Some true ∧
    pointer_bool relay "/required" = Some (target_required t).
Proof.
  unfold derive_target. intros Ht. inv_ok. to_prop. inv_int. simpl.
  match goal with H : List.find _ _ = Some _ |- _ => apply find_some in H as [Hin Hid] end.
  match goal with H : existsb _ _ = false |- _ => rename H into Hex end.
  split_and!; try done.
  - rewrite list_elem_of_fmap. intros (o & Ho & Hoin). apply list_elem_of_In in Hoin.
    assert (existsb (λ t, String.eqb (target_relay_id t) x) accepted = true) as Hc;
      [|by rewrite Hc in Hex].
    apply existsb_exists. exists o. split; [done|]. by rewrite String.eqb_eq.
  - exists x1. apply list_elem_of_In in Hin. unfold is_some_and in *.
    destruct (pointer_str x1 "/id") as [s|]; [|done]. apply String.eqb_eq in Hid as ->.
    destruct (pointer_bool x1 "/write") as [[]|]; done.
Qed.

Lemma derive_targets_Ok relays accepted target_ids ts :
  derive_targets relays accepted target_ids = Ok ts →
  (∀ i t, accepted !! i = Some t → target_ordinal t = Z.of_nat i) →
  NoDup (map target_relay_id accepted) →
  Forall (λ t, valid_relay_id (target_relay_id t) = true) accepted →
  let from_relay t := ∃ relay, relay ∈ relays ∧ pointer_str relay "/id" = Some (target_relay_id t) ∧
    pointer_bool relay "/write" = Some true ∧
    pointer_bool relay "/required" = Some (target_required t) in
  Forall from_relay accepted →
  length ts = (length accepted + length target_ids)%nat ∧
  (∀ i t, ts !! i = Some t → target_ordinal t = Z.of_nat i) ∧
  NoDup (map target_relay_id ts) ∧
  Forall (λ t, valid_relay_id (target_relay_id t) = true) ts ∧ Forall from_relay ts.
Proof.
  revert accepted; induction target_ids as [|target_id ids IH]; intros accepted Hd Hord Hnd Hv fr Hr;
    simpl in Hd.
  { inv_ok. split_and!; done || (simpl; lia). }
  bind Hd as t Ht. apply derive_target_Ok in Ht as (Ho & Hvt & Hnew & Hrel).
  apply IH in Hd as (Hlen & Hrest).
  - split; [|exact Hrest]. rewrite Hlen, length_app; simpl; lia.
  - intros i u Hu. apply lookup_app_Some in Hu as [Hu|[Hge Hu]]; [by apply Hord|].
    apply list_lookup_singleton_Some in Hu as [Hi <-]. lia.
  - rewrite map_app. apply list.NoDup_app. split_and!; [done| |apply NoDup_singleton].
    intros x Hx Hx'%list_elem_of_singleton. by subst.
  - apply Forall_app; by split; [|constructor].
  - apply Forall_app; by split; [|constructor].
Qed.

Lemma integer_range `{!JsonLaws V} document p v : integer document p = Ok v → 0 ≤ v ≤ U64_MAX.
Proof.
  unfold integer. destruct (pointer document p) as [w|]; simpl; [|done].
  intros Hv%ok_or_Ok. by eapply as_u64_range.
Qed.

Lemma derive_retry_Ok `{!JsonLaws V} document r : derive_retry document = Ok r → retry_ok r.
Proof.
  unfold derive_retry, RHI_PUBLICATION_MAX_ATTEMPTS. intros Hr. inv_ok. to_prop. inv_int.
  repeat match goal with H : integer _ _ = Ok _ |- _ => apply integer_range in H end.
  unfold retry_ok; simpl. lia.
Qed.

(** The authority a document grants, with its relays. *)
Lemma derive_authority_Ok `{!JsonLaws V} document profile a :
  derive_authority document profile = Ok a →
  authority_ok a ∧ Forall (configured_target document) (targets a) ∧
  Metadata.normalized_config_digest profile document = Ok (configuration_sha256 a).
Proof.
  unfold derive_authority. intros Ha.
  bind Ha as conf Hconf. bind Ha as text Ht. bind Ha as m Hm. bind Ha as q Hq. bind Ha as q' Hq'.
  bind Ha as u Hu. bind Ha as tr Htr. destruct tr as [ts r]. bind Ha as set Hset.
  bind Ha as auth Hauth. inv_ok. clear Ht Hm. to_prop. inv_int. apply integer_range in Hq.
  unfold authority_ok; simpl. destruct m.
  - bind Htr as ids Hids. bind Htr as u' Hlen. bind Htr as relays Hrelays. bind Htr as ts' Hts.
    bind Htr as r' Hr. inv_ok. to_prop.
    match goal with H : (_ =? _)%nat = false |- _ => apply Nat.eqb_neq in H end.
    apply derive_targets_Ok in Hts as (Hl & Hord & Hnd & Hv & Hrel); [|done|constructor..].
    apply derive_retry_Ok in Hr. unfold RHI_PUBLICATION_MAX_TARGETS in *. simpl in Hl.
    split; [|split; [|done]].
    + unfold targets_ok, RHI_PUBLICATION_MAX_TARGETS. split_and!; try done; try lia; [|by eauto].
      intros ->. simpl in *. lia.
    + eapply Forall_impl; [|exact Hrel]. intros t (relay & ?). by exists relays, relay.
  - inv_ok. unfold targets_ok, RHI_PUBLICATION_MAX_TARGETS; simpl.
    split_and!; try done; try lia; constructor.
Qed.

(** ** The digests determine what they cover *)

Definition target_in_range (t : RhiPublicationTarget) : Prop :=
  0 ≤ target_ordinal t < 2 ^ 32 ∧ Z.of_nat (length (as_bytes (target_relay_id t))) ≤ U64_MAX.

Lemma target_material_inj t t' k k' :
  target_in_range t → target_in_range t' →
  target_material t ++ k = target_material t' ++ k' → t = t' ∧ k = k'.
Proof.
  intros [Ho Hs] [Ho' Hs']. unfold target_material. rewrite <- !app_assoc. intros Heq.
  apply app_inj_fixed in Heq as [Hord Heq]; [|by rewrite !length_to_be_bytes].
  apply to_be_bytes_inj in Hord; [|done..].
  apply framed_app_inj in Heq as [Hid Heq]; [|done..].
  apply app_inj_fixed in Heq as [Hreq ->]; [|done]. apply as_bytes_inj in Hid.
  destruct t as [o s r], t' as [o' s' r']; simpl in *. subst. by destruct r, r'.
Qed.

Lemma targets_ok_in_range ts t : targets_ok ts → t ∈ ts → target_in_range t.
Proof.
  intros (Hlen & Hord & _ & Hv) Ht. unfold RHI_PUBLICATION_MAX_TARGETS in Hlen.
  pose proof (elem_of_Forall _ _ _ Hv Ht) as Hvt. simpl in Hvt.
  apply list_elem_of_lookup in Ht as [i Hi]. unfold target_in_range. rewrite (Hord i t Hi).
  apply lookup_lt_Some in Hi. unfold valid_relay_id in Hvt.
  destruct (as_bytes (target_relay_id t)); [done|]. to_prop. unfold_max. lia.
Qed.

Lemma target_materials_inj ts ts' :
  targets_ok ts → targets_ok ts' → length ts = length ts' →
  concat (map target_material ts) = concat (map target_material ts') → ts = ts'.
Proof.
  intros Hok Hok'. pose proof (λ t, targets_ok_in_range ts t Hok) as Hr.
  pose proof (λ t, targets_ok_in_range ts' t Hok') as Hr'. clear Hok Hok'. revert ts' Hr'.
  induction ts as [|t ts IH]; intros [|t' ts'] Hr' Hl Heq; try done.
  cbn [map concat] in Heq.
  apply target_material_inj in Heq as [-> Heq]; [|apply Hr; left|apply Hr'; left].
  f_equal. apply IH; [intros ? ?; apply Hr; by right|intros ? ?; apply Hr'; by right| |done].
  by injection Hl.
Qed.

Lemma target_set_digest_Ok ts d :
  target_set_digest ts = Ok d →
  d = sha256 (TARGET_SET_DOMAIN ++ to_be_bytes 4 (Z.of_nat (length ts))
              ++ concat (map target_material ts)).
Proof.
  unfold target_set_digest. intros Hd. bind Hd as c Hc. bind Hd as l Hl.
  apply ok_or_Ok in Hc. inv_int. by injection Hd.
Qed.

Lemma target_set_digest_inj ts ts' d :
  targets_ok ts → targets_ok ts' → length ts = length ts' →
  target_set_digest ts = Ok d → target_set_digest ts' = Ok d → ts = ts' ∨ sha256_collision.
Proof.
  intros Hok Hok' Hl ->%target_set_digest_Ok Heq%target_set_digest_Ok.
  rewrite <- Hl in Heq. apply sha256_inj_or_collision in Heq as [Heq|]; [left|by right].
  do 2 apply app_inv_head in Heq. by apply target_materials_inj.
Qed.

Lemma retry_material_inj r r' k k' :
  (∀ x, r = Some x ∨ r' = Some x → retry_ok x) →
  retry_material r ++ k = retry_material r' ++ k' → r = r' ∧ k = k'.
Proof.
  intros Hok Heq.
  destruct r as [r|], r' as [r'|]; [|unfold retry_material in Heq; discriminate Heq..|].
  2: { split; [done|]. by apply app_inv_head in Heq. }
  unfold retry_material in Heq. rewrite <- !app_assoc in Heq. apply app_inv_head in Heq.
  destruct (Hok r) as (? & ? & ? & ?); [by left|]. destruct (Hok r') as (? & ? & ? & ?); [by right|].
  repeat (apply app_inj_fixed in Heq as [? Heq]; [|by rewrite !length_to_be_bytes]).
  repeat match goal with H : to_be_bytes _ _ = to_be_bytes _ _ |- _ =>
    apply to_be_bytes_inj in H; [|simpl; lia..] end.
  destruct r, r'; simpl in *; by subst.
Qed.

Definition authority_material (a : RhiPublicationAuthority) : bytes :=
  AUTHORITY_DOMAIN ++ [match mode a with Disabled => 0 | Required => 1 end]
  ++ to_be_bytes 4 (Z.of_nat (length (targets a))) ++ target_set_sha256 a
  ++ retry_material (retry a) ++ to_be_bytes 4 (queue_capacity a).

Lemma authority_digest_Ok a d :
  authority_digest (mode a) (target_set_sha256 a) (Z.of_nat (length (targets a))) (retry a)
    (queue_capacity a) = Ok d → d = sha256 (authority_material a).
Proof.
  unfold authority_digest. intros Hd. bind Hd as c Hc. apply ok_or_Ok in Hc. inv_int.
  by injection Hd.
Qed.

Lemma target_set_digest_length `{!Sha256Laws} ts d : target_set_digest ts = Ok d → length d = 32%nat.
Proof. intros ->%target_set_digest_Ok. apply sha256_length. Qed.

End authority.

(** ** Properties *)

Section properties.
Context `{Sha256, !Sha256Laws, JsonValue V, !JsonLaws V, !JsonWriter V}.

(** A required publication authority names between one and thirty-two
    targets, numbered in configuration order, with pairwise distinct valid relay
    identities, each a configured relay that may be written to and with that
    relay's requiredness; its retry policy and queue are within the contract's
    bounds.  A disabled authority has no targets and no retry policy. *)
Theorem authority_is_bounded document profile a :
  derive_authority document profile = Ok a →
  (∀ i t, targets a !! i = Some t → target_ordinal t = Z.of_nat i) ∧
  NoDup (map target_relay_id (targets a)) ∧
  Forall (λ t, valid_relay_id (target_relay_id t) = true ∧ configured_target document t) (targets a) ∧
  1 ≤ queue_capacity a ≤ 65536 ∧
  match mode a with
  | Required => 1 ≤ Z.of_nat (length (targets a)) ≤ 32 ∧ ∃ r, retry a = Some r ∧ retry_ok r
  | Disabled => targets a = [] ∧ retry a = None
  end.
Proof.
  intros ((( Hlen & Hord & Hnd & Hv) & Hq & _ & _ & Hm) & Hrel & _)%derive_authority_Ok.
  split_and!; try done; try lia.
  - apply list.Forall_and. by split.
  - destruct (mode a); [|done]. destruct Hm as [Hne Hr]. unfold RHI_PUBLICATION_MAX_TARGETS in Hlen.
    split; [|done]. destruct (targets a); simpl in *; [done|lia].
Qed.

(** The authority digest identifies the publication authority: two
    documents whose authorities have the same digest grant the same mode,
    targets in the same order with the same requiredness, retry policy and
    queue bound, or else a SHA-256 collision is at hand. *)
Theorem authority_digest_identifies document document' profile profile' a a' :
  derive_authority document profile = Ok a → derive_authority document' profile' = Ok a' →
  authority_sha256 a = authority_sha256 a' → authority_eq a a' ∨ sha256_collision.
Proof.
  intros ((Ht & Hq & Hset & Hd & Hm) & _)%derive_authority_Ok.
  intros ((Ht' & Hq' & Hset' & Hd' & Hm') & _)%derive_authority_Ok Heq.
  pose proof (authority_digest_Ok _ _ Hd) as Ha. pose proof (authority_digest_Ok _ _ Hd') as Ha'.
  rewrite Heq, Ha' in Ha. apply sha256_inj_or_collision in Ha as [Ha|]; [|by right].
  unfold authority_material in Ha. symmetry in Ha.
  apply app_inv_head in Ha. apply app_inj_fixed in Ha as [Hmode Ha]; [|done].
  apply app_inj_fixed in Ha as [Hcount Ha]; [|by rewrite !length_to_be_bytes].
  destruct Ht as [Hlen Ht], Ht' as [Hlen' Ht']. unfold RHI_PUBLICATION_MAX_TARGETS in *.
  apply to_be_bytes_inj in Hcount; [|simpl; lia..]. apply Nat2Z.inj in Hcount.
  apply app_inj_fixed in Ha as [Hseteq Ha];
    [|by rewrite (target_set_digest_length _ _ Hset), (target_set_digest_length _ _ Hset')].
  apply retry_material_inj in Ha as [Hretry Hqueue].
  2: { intros r Hr. destruct (mode a), (mode a'); naive_solver. }
  apply to_be_bytes_inj in Hqueue; [|simpl; lia..].
  rewrite Hseteq in Hset.
  destruct (target_set_digest_inj _ _ _ (conj Hlen Ht) (conj Hlen' Ht') Hcount Hset Hset') as [Hts|]; [left|by right].
  unfold authority_eq. split_and!; try done. by destruct (mode a), (mode a').
Qed.

End properties.

(** ** A concrete document *)

Definition demo_relay (name : String.string) (write required : bool) : json :=
  JObject [("id", JString name); ("write", JBool write); ("required", JBool required)].

Definition demo_document (attempts : Z) : json :=
  JObject
    [("publication", JObject
        [("mode", JString "required");
         ("target_relay_ids", JArray [JString "relay-a"; JString "relay-b"]);
         ("retry", JObject
            [("max_attempts", JNumber attempts); ("initial_backoff_ms", JNumber 250);
             ("maximum_backoff_ms", JNumber 30000); ("attempt_deadline_ms", JNumber 15000)])]);
     ("resource_limits", JObject [("queues", JObject [("publication", JNumber 4096)])]);
     ("relays", JArray [demo_relay "relay-b" true false; demo_relay "relay-a" true true])].

#[local] Existing Instance checksum.
#[local] Existing Instance checksum_laws.
#[local] Existing Instance json_value.
#[local] Existing Instance json_laws.
#[local] Existing Instance json_writer.

Definition demo_authority (attempts : Z) : RhiPublicationAuthority :=
  match derive_authority (demo_document attempts) Metadata.Production with
  | Ok a => a
  | Err _ => MkAuthority [] Disabled [] None 0 [] []
  end.

Lemma authority_is_bounded_witness :
  derive_authority (demo_document 10) Metadata.Production = Ok (demo_authority 10) ∧
  map target_required (targets (demo_authority 10)) = [true; false] ∧
  NoDup (map target_relay_id (targets (demo_authority 10))).
Proof.
  assert (derive_authority (demo_document 10) Metadata.Production = Ok (demo_authority 10)) as Hd
    by (vm_compute; reflexivity).
  split_and!; [exact Hd|vm_compute; reflexivity|].
  exact (proj1 (proj2 (authority_is_bounded _ _ _ Hd))).
Defined.

Lemma authority_digest_identifies_witness :
  derive_authority (demo_document 10) Metadata.Production = Ok (demo_authority 10) ∧
  (authority_eq (demo_authority 10) (demo_authority 10) ∨ sha256_collision) ∧
  authority_sha256 (demo_authority 10) ≠ authority_sha256 (demo_authority 9).
Proof.
  assert (derive_authority (demo_document 10) Metadata.Production = Ok (demo_authority 10)) as Hd
    by (vm_compute; reflexivity).
  split_and!; [exact Hd| |vm_compute; discriminate].
  exact (authority_digest_identifies _ _ _ _ _ _ Hd Hd eq_refl).
Defined.

End Authority.
