(* ===== verification/PublicationState.v ===== *)
(** * Publication tables: the publication part of [src/src/state_catalog.rs]

    [signed_attestation_events], [publication_outbox], [publication_targets] and
    [publication_attempts] with their column constraints, shape checks, update
    triggers, unique keys and references.  Signed events and attempts are
    immutable; an outbox and its targets change only along the transitions their
    triggers admit, and an accepted target never changes again. *)

From Stdlib Require Import ZArith Lia.
From stdpp Require Import list strings.
From S2P Require Import Prelude.
From S2P Require Import Sql.
From S2P Require Import Publication.

Module PubState.

Definition blob_of (n : nat) (b : bytes) : bool := (length b =? n)%nat.
Definition one_of (l : list string) (s : string) : bool := existsb (String.eqb s) l.

(** ** [signed_attestation_events] *)

Record event_row : Type := EventRow {
  ev_event_id : bytes;
  ev_statement_sha256 : bytes;
  ev_event_sha256 : bytes;
  ev_issuer_public_key : bytes;
  ev_authored_at_unix_s : Z;
  ev_canonical_event_json : bytes;
}.

#[export] Instance event_table : Table event_row := {|
  row_check := λ r,
    blob_of 32 (ev_event_id r) && blob_of 32 (ev_statement_sha256 r)
    && blob_of 32 (ev_event_sha256 r) && blob_of 32 (ev_issuer_public_key r)
    && between 0 I64_MAX (ev_authored_at_unix_s r)
    && between 1 32768 (Z.of_nat (length (ev_canonical_event_json r)));
  row_guard := λ _ _, false;
  row_conflict := λ r o,
    bytes_eqb (ev_event_id r) (ev_event_id o)
    || bytes_eqb (ev_statement_sha256 r) (ev_statement_sha256 o)
    || bytes_eqb (ev_event_sha256 r) (ev_event_sha256 o);
|}.

(** ** [publication_outbox] *)

Record outbox_row : Type := OutboxRow {
  ob_outbox_id : bytes;
  ob_event_id : bytes;
  ob_event_sha256 : bytes;
  ob_authority_sha256 : bytes;
  ob_target_set_sha256 : bytes;
  ob_target_count : Z;
  ob_required_target_count : Z;
  ob_max_attempts : Z;
  ob_initial_backoff_ms : Z;
  ob_maximum_backoff_ms : Z;
  ob_attempt_deadline_ms : Z;
  ob_state : string;
  ob_revision : Z;
  ob_next_attempt_unix_ms : option Z;
  ob_lease_owner : option bytes;
  ob_lease_expires_unix_ms : option Z;
  ob_created_at_unix_ms : Z;
  ob_updated_at_unix_ms : Z;
}.

Definition outbox_closed (s : string) : bool := one_of ["complete"; "blocked"] s.

Definition outbox_columns_check (r : outbox_row) : bool :=
  blob_of 32 (ob_outbox_id r) && blob_of 32 (ob_event_id r) && blob_of 32 (ob_event_sha256 r)
  && blob_of 32 (ob_authority_sha256 r) && blob_of 32 (ob_target_set_sha256 r)
  && between 1 32 (ob_target_count r)
  && between 0 (ob_target_count r) (ob_required_target_count r)
  && between 1 100 (ob_max_attempts r)
  && between 1 60000 (ob_initial_backoff_ms r)
  && between 1 3600000 (ob_maximum_backoff_ms r)
  && between 100 30000 (ob_attempt_deadline_ms r)
  && one_of ["pending"; "leased"; "complete"; "blocked"] (ob_state r)
  && between 1 I64_MAX (ob_revision r)
  && between 0 I64_MAX (ob_created_at_unix_ms r)
  && between (ob_created_at_unix_ms r) I64_MAX (ob_updated_at_unix_ms r)
  && (ob_initial_backoff_ms r <=? ob_maximum_backoff_ms r).

(** The table's last [CHECK].  Each nullable column is tested with
    [IS NOT NULL] first, so the condition is never [NULL]. *)
Definition outbox_shape_check (r : outbox_row) : bool :=
  (String.eqb (ob_state r) "pending"
   && is_some_and (between 0 I64_MAX) (ob_next_attempt_unix_ms r)
   && is_null (ob_lease_owner r) && is_null (ob_lease_expires_unix_ms r))
  || (String.eqb (ob_state r) "leased"
      && is_null (ob_next_attempt_unix_ms r)
      && is_some_and (blob_of 16) (ob_lease_owner r)
      && is_some_and (between 1 I64_MAX) (ob_lease_expires_unix_ms r))
  || (outbox_closed (ob_state r)
      && is_null (ob_next_attempt_unix_ms r)
      && is_null (ob_lease_owner r) && is_null (ob_lease_expires_unix_ms r)).

(** The columns [publication_outbox_guard_update] keeps fixed. *)
Definition same_outbox_columns (old new : outbox_row) : bool :=
  bytes_eqb (ob_outbox_id new) (ob_outbox_id old)
  && bytes_eqb (ob_event_id new) (ob_event_id old)
  && bytes_eqb (ob_event_sha256 new) (ob_event_sha256 old)
  && bytes_eqb (ob_authority_sha256 new) (ob_authority_sha256 old)
  && bytes_eqb (ob_target_set_sha256 new) (ob_target_set_sha256 old)
  && (ob_target_count new =? ob_target_count old)
  && (ob_required_target_count new =? ob_required_target_count old)
  && (ob_max_attempts new =? ob_max_attempts old)
  && (ob_initial_backoff_ms new =? ob_initial_backoff_ms old)
  && (ob_maximum_backoff_ms new =? ob_maximum_backoff_ms old)
  && (ob_attempt_deadline_ms new =? ob_attempt_deadline_ms old)
  && (ob_created_at_unix_ms new =? ob_created_at_unix_ms old).

Definition outbox_transition (old new : string) : bool :=
  (String.eqb old "pending" && one_of ["leased"; "blocked"] new)
  || (String.eqb old "leased" && one_of ["leased"; "pending"; "complete"; "blocked"] new)
  || (String.eqb old "blocked" && String.eqb new "pending").

#[export] Instance outbox_table : Table outbox_row := {|
  row_check := λ r, outbox_columns_check r && outbox_shape_check r;
  row_guard := λ old new,
    same_outbox_columns old new
    && (ob_revision new =? ob_revision old + 1)
    && (ob_updated_at_unix_ms old <=? ob_updated_at_unix_ms new)
    && outbox_transition (ob_state old) (ob_state new);
  row_conflict := λ r o,
    bytes_eqb (ob_outbox_id r) (ob_outbox_id o) || bytes_eqb (ob_event_id r) (ob_event_id o);
|}.

(** ** [publication_targets] *)

Record target_row : Type := TargetRow {
  tg_outbox_id : bytes;
  tg_target_ordinal : Z;
  tg_relay_id : string;
  tg_required : Z;
  tg_state : string;
  tg_revision : Z;
  tg_attempt_count : Z;
  tg_next_attempt_unix_ms : option Z;
  tg_last_attempt_id : option bytes;
  tg_updated_at_unix_ms : Z;
}.

Definition target_states : list string :=
  ["pending"; "submitted"; "accepted"; "rejected"; "rate_limited"; "auth_required"; "failed";
   "unknown"].

Definition target_check (r : target_row) : bool :=
  blob_of 32 (tg_outbox_id r)
  && between 0 31 (tg_target_ordinal r)
  && Authority.valid_relay_id (tg_relay_id r)
  && ((tg_required r =? 0) || (tg_required r =? 1))
  && one_of target_states (tg_state r)
  && between 1 I64_MAX (tg_revision r)
  && between 0 100 (tg_attempt_count r)
  && check_passes (sql_between 0 I64_MAX (tg_next_attempt_unix_ms r))
  && check_passes (blob_of 32 <$> tg_last_attempt_id r)
  && between 0 I64_MAX (tg_updated_at_unix_ms r)
  && eqb (tg_attempt_count r =? 0) (is_null (tg_last_attempt_id r)).

#[export] Instance target_table : Table target_row := {|
  row_check := target_check;
  row_guard := λ old new,
    bytes_eqb (tg_outbox_id new) (tg_outbox_id old)
    && (tg_target_ordinal new =? tg_target_ordinal old)
    && String.eqb (tg_relay_id new) (tg_relay_id old)
    && (tg_required new =? tg_required old)
    && (tg_revision new =? tg_revision old + 1)
    && (tg_attempt_count old <=? tg_attempt_count new)
    && (tg_attempt_count new <=? tg_attempt_count old + 1)
    && (tg_updated_at_unix_ms old <=? tg_updated_at_unix_ms new)
    && negb (String.eqb (tg_state old) "accepted");
  row_conflict := λ r o,
    bytes_eqb (tg_outbox_id r) (tg_outbox_id o)
    && ((tg_target_ordinal r =? tg_target_ordinal o) || String.eqb (tg_relay_id r) (tg_relay_id o));
|}.

(** ** [publication_attempts] *)

Record attempt_row : Type := AttemptRow {
  at_attempt_id : bytes;
  at_outbox_id : bytes;
  at_target_ordinal : Z;
  at_attempt_number : Z;
  at_event_sha256 : bytes;
  at_lease_owner : bytes;
  at_started_at_unix_ms : Z;
  at_finished_at_unix_ms : Z;
  at_outcome : string;
  at_result_code : string;
}.

Definition outcomes : list string :=
  ["submitted"; "accepted"; "rejected"; "rate_limited"; "auth_required"; "failed"; "unknown"].

Definition result_code_byte (b : Z) : bool :=
  Authority.is_ascii_lowercase b || Authority.is_ascii_digit b || (b =? 95).

Definition valid_result_code (s : string) : bool :=
  match as_bytes s with
  | [] => false
  | first :: _ =>
      (Z.of_nat (length (as_bytes s)) <=? 64) && Authority.is_ascii_lowercase first
      && forallb result_code_byte (as_bytes s)
  end.

#[export] Instance attempt_table : Table attempt_row := {|
  row_check := λ r,
    blob_of 32 (at_attempt_id r) && blob_of 32 (at_outbox_id r)
    && between 0 31 (at_target_ordinal r)
    && between 1 100 (at_attempt_number r)
    && blob_of 32 (at_event_sha256 r) && blob_of 16 (at_lease_owner r)
    && between 0 I64_MAX (at_started_at_unix_ms r)
    && between (at_started_at_unix_ms r) I64_MAX (at_finished_at_unix_ms r)
    && one_of outcomes (at_outcome r)
    && valid_result_code (at_result_code r);
  row_guard := λ _ _, false;
  row_conflict := λ r o,
    bytes_eqb (at_attempt_id r) (at_attempt_id o)
    || (bytes_eqb (at_outbox_id r) (at_outbox_id o)
        && (at_target_ordinal r =? at_target_ordinal o)
        && (at_attempt_number r =? at_attempt_number o));
|}.

(** ** The publication state *)

Record publication_db : Type := PublicationDb {
  events : list event_row;
  outboxes : list outbox_row;
  targets : list target_row;
  attempts : list attempt_row;
}.

Definition with_outboxes (db : publication_db) (rows : list outbox_row) : publication_db :=
  PublicationDb (events db) rows (targets db) (attempts db).
Definition with_targets (db : publication_db) (rows : list target_row) : publication_db :=
  PublicationDb (events db) (outboxes db) rows (attempts db).
Definition with_attempts (db : publication_db) (rows : list attempt_row) : publication_db :=
  PublicationDb (events db) (outboxes db) (targets db) rows.

(** Every table satisfies its constraints and keys. *)
Definition tables_ok (db : publication_db) : bool :=
  rows_ok (events db) && rows_ok (outboxes db) && rows_ok (targets db) && rows_ok (attempts db).

Lemma outbox_conflict_sym (r o : outbox_row) : row_conflict r o = row_conflict o r.
Proof. simpl. by rewrite (bytes_eqb_sym (ob_outbox_id r)), (bytes_eqb_sym (ob_event_id r)). Qed.

Lemma target_conflict_sym (r o : target_row) : row_conflict r o = row_conflict o r.
Proof. simpl. by rewrite bytes_eqb_sym, Z.eqb_sym, String.eqb_sym. Qed.

Lemma attempt_conflict_sym (r o : attempt_row) : row_conflict r o = row_conflict o r.
Proof.
  simpl. rewrite (bytes_eqb_sym (at_attempt_id r)), (bytes_eqb_sym (at_outbox_id r)).
  by rewrite (Z.eqb_sym (at_target_ordinal r)), (Z.eqb_sym (at_attempt_number r)).
Qed.

Lemma event_conflict_sym (r o : event_row) : row_conflict r o = row_conflict o r.
Proof.
  simpl. by rewrite (bytes_eqb_sym (ev_event_id r)), (bytes_eqb_sym (ev_statement_sha256 r)),
    (bytes_eqb_sym (ev_event_sha256 r)).
Qed.

End PubState.
