(* ===== verification/PublicationSubmission.v ===== *)
(** * Committed publications: [src/src/publication_submission.rs] and
    [src/src/publication_attempt.rs]

    Reading the exact signed bytes of one committed outbox, the closed target
    states and attempt outcomes, the domain-separated attempt identity and the
    bounded attempt evidence. *)

From Stdlib Require Import ZArith Lia.
From stdpp Require Import list strings.
From S2P Require Import Prelude.
From S2P Require Import Sql.
From S2P Require Import Interfaces.
From S2P Require Import Publication.
From S2P Require Import PublicationState.

Module Submission.
Import PubState.

(** ** Reading a committed publication *)

Definition SIGNED_EVENT_BYTES_MAXIMUM : Z := 32768.

Inductive RhiPublicationSubmissionErrorKind : Type := NotFound | Binding | Storage.

Definition submission_error_code (k : RhiPublicationSubmissionErrorKind) : string :=
  match k with
  | NotFound => "publication_submission_not_found"
  | Binding => "publication_submission_binding_invalid"
  | Storage => "publication_submission_storage_failed"
  end.

Inductive ReadError : Type := ReadNotFound | ReadBinding | ReadStorage.

Record RhiCommittedPublication : Type := MkCommitted {
  outbox_id : bytes;
  event_id : bytes;
  event_sha256 : bytes;
  exact_signed_event_bytes : bytes;
}.

#[export] Instance committed_eq_dec : EqDecision RhiCommittedPublication.
Proof. solve_decision. Defined.

(** [LEFT JOIN ... ON event.event_id = outbox.event_id] *)
Definition joined_event (db : publication_db) (o : outbox_row) :
    list (outbox_row * option event_row) :=
  match List.filter (λ e, bytes_eqb (ev_event_id e) (ob_event_id o)) (events db) with
  | [] => [(o, None)]
  | es => map (λ e, (o, Some e)) es
  end.

Definition READ_COMMITTED_PUBLICATION_SQL (i : bytes) (db : publication_db) :
    list (outbox_row * option event_row) :=
  take 2 (flat_map (joined_event db)
            (List.filter (λ o, bytes_eqb (ob_outbox_id o) i) (outboxes db))).

(** A column selected as [NULL] unless it is a blob of [n] bytes. *)
Definition blob32 (col : option bytes) : result ReadError bytes :=
  ok_or (filter_opt (blob_of 32) col) ReadBinding.

Section digest.
Context `{Sha256}.

Definition read_committed (requested : bytes) (db : publication_db) :
    result ReadError RhiCommittedPublication :=
  match READ_COMMITTED_PUBLICATION_SQL requested db with
  | [] => Err ReadNotFound
  | [(o, e)] =>
      let? oid := blob32 (Some (ob_outbox_id o)) in
      let? outbox_event_id := blob32 (Some (ob_event_id o)) in
      let? outbox_event_sha256 := blob32 (Some (ob_event_sha256 o)) in
      let? eid := blob32 (ev_event_id <$> e) in
      let? sha := blob32 (ev_event_sha256 <$> e) in
      let? exact :=
        ok_or (filter_opt (λ b, between 1 32768 (Z.of_nat (length b)))
                 (ev_canonical_event_json <$> e)) ReadBinding in
      reject_if
        (negb (bytes_eqb oid requested)
         || negb (bytes_eqb outbox_event_id eid)
         || negb (bytes_eqb outbox_event_sha256 sha)
         || (length exact =? 0)%nat
         || (SIGNED_EVENT_BYTES_MAXIMUM <? Z.of_nat (length exact))
         || negb (bytes_eqb (sha256 exact) sha))
        ReadBinding ;?
      Ok (MkCommitted oid eid sha exact)
  | _ => Err ReadBinding
  end.

Definition submission_failure (e : tx_error ReadError) : RhiPublicationSubmissionErrorKind :=
  match operation_error e with
  | Some ReadNotFound => NotFound
  | Some ReadBinding => Binding
  | Some ReadStorage | None => Storage
  end.

(** The repository method, over any transaction host. *)
Definition read_committed_publication `{TransactionHost publication_db} (i : bytes)
    (db : publication_db) : result RhiPublicationSubmissionErrorKind RhiCommittedPublication
                            * publication_db :=
  let '(r, db) := transaction (λ db, let? p := read_committed i db in Ok (p, db)) db in
  (map_err submission_failure r, db).

(** ** States, outcomes and evidence *)

Definition RHI_PUBLICATION_TARGET_ORDINAL_MAXIMUM : Z := 31.
Definition RHI_PUBLICATION_ATTEMPT_NUMBER_MAXIMUM : Z := 100.
Definition ATTEMPT_ID_DOMAIN : bytes := as_bytes "radroots.rhi.publication_attempt.v1" ++ [0].
Definition MAX_UNIX_MILLISECONDS : Z := I64_MAX.

Inductive RhiPublicationTargetState : Type :=
| TPending | TSubmitted | TAccepted | TRejected | TRateLimited | TAuthRequired | TFailed
| TUnknown.

#[export] Instance target_state_eq_dec : EqDecision RhiPublicationTargetState.
Proof. solve_decision. Defined.

Definition target_code (s : RhiPublicationTargetState) : string :=
  match s with
  | TPending => "pending"
  | TSubmitted => "submitted"
  | TAccepted => "accepted"
  | TRejected => "rejected"
  | TRateLimited => "rate_limited"
  | TAuthRequired => "auth_required"
  | TFailed => "failed"
  | TUnknown => "unknown"
  end.

Inductive RhiPublicationAttemptOutcome : Type :=
| Submitted | Accepted | Rejected | RateLimited | AuthRequired | Failed | Unknown.

#[export] Instance outcome_eq_dec : EqDecision RhiPublicationAttemptOutcome.
Proof. solve_decision. Defined.

Definition outcome_code (o : RhiPublicationAttemptOutcome) : string :=
  match o with
  | Submitted => "submitted"
  | Accepted => "accepted"
  | Rejected => "rejected"
  | RateLimited => "rate_limited"
  | AuthRequired => "auth_required"
  | Failed => "failed"
  | Unknown => "unknown"
  end.

Definition target_state (o : RhiPublicationAttemptOutcome) : RhiPublicationTargetState :=
  match o with
  | Submitted => TSubmitted
  | Accepted => TAccepted
  | Rejected => TRejected
  | RateLimited => TRateLimited
  | AuthRequired => TAuthRequired
  | Failed => TFailed
  | Unknown => TUnknown
  end.

Inductive RhiPublicationAttemptEvidenceErrorKind : Type :=
| InvalidTargetOrdinal | InvalidAttemptNumber | InvalidTime.

Definition publication_unix_milliseconds_new (v : Z) :
    result RhiPublicationAttemptEvidenceErrorKind Z :=
  reject_if (MAX_UNIX_MILLISECONDS <? v) InvalidTime ;? Ok v.

Definition derive_attempt_id (oid sha : bytes) (ordinal number : Z) : bytes :=
  sha256 (ATTEMPT_ID_DOMAIN ++ oid ++ sha ++ to_be_bytes 4 ordinal ++ to_be_bytes 4 number).

Record RhiPublicationAttemptEvidence : Type := MkEvidence {
  evidence_id : bytes;
  evidence_outbox_id : bytes;
  evidence_event_sha256 : bytes;
  evidence_target_ordinal : Z;
  evidence_attempt_number : Z;
  evidence_started_at : Z;
  evidence_finished_at : Z;
  evidence_outcome : RhiPublicationAttemptOutcome;
}.

Definition evidence_new (p : RhiCommittedPublication) (ordinal number started finished : Z)
    (o : RhiPublicationAttemptOutcome) :
    result RhiPublicationAttemptEvidenceErrorKind RhiPublicationAttemptEvidence :=
  let? ordinal :=
    ok_or (filter_opt (λ v, v <=? RHI_PUBLICATION_TARGET_ORDINAL_MAXIMUM) (try_from U8_MAX ordinal))
      InvalidTargetOrdinal in
  reject_if (negb (between 1 RHI_PUBLICATION_ATTEMPT_NUMBER_MAXIMUM number)) InvalidAttemptNumber ;?
  reject_if (finished <? started) InvalidTime ;?
  Ok (MkEvidence (derive_attempt_id (outbox_id p) (event_sha256 p) ordinal number)
        (outbox_id p) (event_sha256 p) ordinal number started finished o).

(** ** Lemmas *)

Lemma target_code_inj s t : target_code s = target_code t → s = t.
Proof. by destruct s, t. Qed.

Lemma outcome_code_target o : outcome_code o = target_code (target_state o).
Proof. by destruct o. Qed.

Lemma blob32_Ok col b : blob32 col = Ok b ↔ col = Some b ∧ length b = 32%nat.
Proof.
  unfold blob32, blob_of. rewrite ok_or_Ok, filter_opt_Some, Nat.eqb_eq. done.
Qed.

(** With unique identities, a read is decided by the one outbox and its event. *)
Lemma read_committed_Ok i db p :
  read_committed i db = Ok p →
  ∃ o e, o ∈ outboxes db ∧ e ∈ events db ∧ ob_outbox_id o = i ∧
    ev_event_id e = ob_event_id o ∧ ev_event_sha256 e = ob_event_sha256 o ∧
    p = MkCommitted i (ob_event_id o) (ob_event_sha256 o) (ev_canonical_event_json e) ∧
    sha256 (ev_canonical_event_json e) = ob_event_sha256 o ∧
    1 ≤ Z.of_nat (length (ev_canonical_event_json e)) ≤ SIGNED_EVENT_BYTES_MAXIMUM.
Proof.
  unfold read_committed. destruct (READ_COMMITTED_PUBLICATION_SQL i db) as [|[o e] [|]] eqn:Hsql;
    try done.
  assert ((o, e) ∈ READ_COMMITTED_PUBLICATION_SQL i db) as Hin by (rewrite Hsql; left).
  unfold READ_COMMITTED_PUBLICATION_SQL in Hin. apply list_elem_of_In in Hin.
  assert (In (o, e) (flat_map (joined_event db)
            (List.filter (λ o, bytes_eqb (ob_outbox_id o) i) (outboxes db)))) as Hin'.
  { rewrite <- (take_drop 2 (flat_map _ _)). apply in_or_app. by left. }
  apply in_flat_map in Hin' as (o' & Ho & He). apply filter_In in Ho as [Ho Hid].
  intros Hr. inv_ok. to_prop. rewrite !blob32_Ok in *.
  repeat match goal with H : _ ∧ _ |- _ => destruct H end. simplify_eq.
  unfold joined_event in He. destruct (List.filter _ (events db)) as [|e0 es] eqn:Hf;
    [destruct He as [He|[]]; simplify_eq; done|].
  apply in_map_iff in He as (e1 & Heq & Hein).
  rewrite <- Hf in Hein. apply filter_In in Hein as [Hein Heid]. simplify_eq/=.
  repeat match goal with H : bytes_eqb _ _ = true |- _ => apply bytes_eqb_true in H end.
  inv_int. simplify_eq/=. exists o, e1. rewrite !list_elem_of_In.
  unfold SIGNED_EVENT_BYTES_MAXIMUM. split_and!; try done; congruence || lia.
Qed.

Lemma filter_key_unique `{Table row} (k : row → bytes) rows r :
  rows_ok rows = true → (∀ x y, k x = k y → row_conflict x y = true) → r ∈ rows →
  List.filter (λ x, bytes_eqb (k x) (k r)) rows = [r].
Proof.
  intros Hok Hk Hr.
  destruct (filter_unique (λ x, bytes_eqb (k x) (k r)) rows Hok) as [Hn|(x & Hx & Hp & Hf)].
  - intros x y Hx%bytes_eqb_true Hy%bytes_eqb_true. apply Hk. congruence.
  - exfalso. apply list_elem_of_In in Hr.
    assert (In r (List.filter (λ x, bytes_eqb (k x) (k r)) rows)) as Hin
      by (apply filter_In; split; [done|apply bytes_eqb_refl]).
    by rewrite Hn in Hin.
  - rewrite Hf. assert (In r [x]) as [->|[]]; [|done]. rewrite <- Hf. apply list_elem_of_In in Hr.
    apply filter_In; split; [done|apply bytes_eqb_refl].
Qed.

(** A committed outbox whose event is stored intact can be read. *)
Lemma read_committed_intro db o e :
  rows_ok (events db) = true → rows_ok (outboxes db) = true →
  o ∈ outboxes db → e ∈ events db → ev_event_id e = ob_event_id o →
  ev_event_sha256 e = ob_event_sha256 o → sha256 (ev_canonical_event_json e) = ob_event_sha256 o →
  read_committed (ob_outbox_id o) db =
    Ok (MkCommitted (ob_outbox_id o) (ob_event_id o) (ob_event_sha256 o)
          (ev_canonical_event_json e)).
Proof.
  intros Hev Hob Ho He Hid Hsha Hdig. unfold read_committed, READ_COMMITTED_PUBLICATION_SQL.
  rewrite (filter_key_unique ob_outbox_id); [|done|intros x y Hxy; simpl; by rewrite Hxy, bytes_eqb_refl|done].
  simpl. unfold joined_event. rewrite <- Hid.
  rewrite (filter_key_unique ev_event_id); [|done|intros x y Hxy; simpl; by rewrite Hxy, bytes_eqb_refl|done].
  simpl. pose proof (rows_ok_check _ _ Hev He) as Hce. pose proof (rows_ok_check _ _ Hob Ho) as Hco.
  simpl in Hce, Hco. unfold outbox_columns_check, blob_of in *. to_prop.
  rewrite <- Hid in *. rewrite <- Hsha in *. unfold blob32, blob_of; simpl.
  repeat match goal with H : (_ =? 32)%nat = true |- _ => rewrite H; clear H; simpl end.
  match goal with H : between 1 32768 _ = true |- _ => rewrite H; simpl end. rewrite Hdig, !bytes_eqb_refl; simpl. inv_int.
  unfold SIGNED_EVENT_BYTES_MAXIMUM.
  destruct (Nat.eqb_spec (length (ev_canonical_event_json e)) 0); [lia|].
  destruct (Z.ltb_spec 32768 (Z.of_nat (length (ev_canonical_event_json e)))); [lia|]. done.
Qed.

Lemma derive_attempt_id_inj `{!Sha256Laws} oid sha i n oid' sha' i' n' :
  length oid = length oid' → length sha = length sha' →
  0 ≤ i ≤ 31 → 0 ≤ i' ≤ 31 → 0 ≤ n ≤ 100 → 0 ≤ n' ≤ 100 →
  derive_attempt_id oid sha i n = derive_attempt_id oid' sha' i' n' →
  (oid = oid' ∧ sha = sha' ∧ i = i' ∧ n = n') ∨ sha256_collision.
Proof.
  unfold derive_attempt_id. intros Ho Hs Hi Hi' Hn Hn' [Heq|]%sha256_inj_or_collision; [left|by right].
  apply app_inv_head in Heq. apply app_inj_fixed in Heq as [-> Heq]; [|done].
  apply app_inj_fixed in Heq as [-> Heq]; [|done].
  apply app_inj_fixed in Heq as [Hi2 Heq]; [|by rewrite !length_to_be_bytes].
  apply to_be_bytes_inj in Hi2; [|simpl; lia..]. apply to_be_bytes_inj in Heq; [|simpl; lia..]. done.
Qed.

(** The committed read returns exactly what was committed: it answers a
    publication when and only when the outbox and its signed event are stored, agree
    on the event identity and digest, and the stored bytes hash to that digest; the
    answer is those bytes. *)
Theorem committed_read_is_exact i db p :
  rows_ok (events db) = true → rows_ok (outboxes db) = true →
  (read_committed i db = Ok p ↔
   ∃ o e, o ∈ outboxes db ∧ e ∈ events db ∧ ob_outbox_id o = i ∧
     ev_event_id e = ob_event_id o ∧ ev_event_sha256 e = ob_event_sha256 o ∧
     sha256 (ev_canonical_event_json e) = ob_event_sha256 o ∧
     p = MkCommitted i (ob_event_id o) (ob_event_sha256 o) (ev_canonical_event_json e)).
Proof.
  intros He Ho. split.
  - intros (o & e & ?)%read_committed_Ok. exists o, e. naive_solver.
  - intros (o & e & Hin & Hein & <- & Hid & Hsha & Hdig & ->). by apply read_committed_intro.
Qed.

End digest.

#[local] Existing Instance checksum.

Definition demo_bytes : bytes := as_bytes "signed event".
Definition demo_event : event_row :=
  EventRow (to_be_bytes 32 1) (to_be_bytes 32 2) (sha256 demo_bytes) (to_be_bytes 32 3) 1 demo_bytes.
Definition demo_row : outbox_row :=
  OutboxRow (to_be_bytes 32 9) (to_be_bytes 32 1) (sha256 demo_bytes) (to_be_bytes 32 4)
    (to_be_bytes 32 5) 1 1 3 250 30000 15000 "pending" 1 (Some 1000) None None 1000 1000.

Lemma committed_read_is_exact_witness :
  read_committed (to_be_bytes 32 9) (PublicationDb [demo_event] [demo_row] [] []) =
    Ok (MkCommitted (to_be_bytes 32 9) (to_be_bytes 32 1) (sha256 demo_bytes) demo_bytes).
Proof.
  apply committed_read_is_exact.
  - vm_compute. reflexivity.
  - vm_compute. reflexivity.
  - exists demo_row, demo_event. repeat split; left.
Defined.

End Submission.
