(* ===== verification/PublicationExecution.v ===== *)
(** * Publication execution: [src/src/publication_execution.rs]

    The durable executor: claiming a due outbox under a lease, persisting
    [Submitted] before the exact bytes are exposed, recording one closed outcome
    by compare-and-swap, and recovering an expired lease.  This file holds the
    data, the decoding of rows, the statements and the operations;
    [PublicationSafety] holds the theorems. *)

From Stdlib Require Import ZArith Lia.
From stdpp Require Import list strings.
From S2P Require Import Prelude.
From S2P Require Import Sql.
From S2P Require Import Interfaces.
From S2P Require Import RuntimeAdapters.
From S2P Require Import Publication.
From S2P Require Import PublicationState.
From S2P Require Import PublicationSubmission.

Module Execution.
Import PubState Submission.

(** ** States and errors *)

Definition LEASE_OWNER_BYTES : nat := 16.
Definition TARGET_SET_DOMAIN : bytes := as_bytes "radroots.rhi.publication_target_set.v1" ++ [0].

Inductive RhiPublicationOutboxState : Type := Pending | Leased | Complete | Blocked.

#[export] Instance outbox_state_eq_dec : EqDecision RhiPublicationOutboxState.
Proof. solve_decision. Defined.

Definition outbox_code (s : RhiPublicationOutboxState) : string :=
  match s with
  | Pending => "pending" | Leased => "leased" | Complete => "complete" | Blocked => "blocked"
  end.

Inductive RhiPublicationExecutionErrorKind : Type :=
| InvalidMode | InvalidInput | NotReady | LeaseLost | Invariant | ClockUnavailable
| EntropyUnavailable | StorageFailed | CommitOutcomeUnknown.

Definition execution_error_code (k : RhiPublicationExecutionErrorKind) : string :=
  match k with
  | InvalidMode => "publication_execution_mode_invalid"
  | InvalidInput => "publication_execution_input_invalid"
  | NotReady => "publication_execution_not_ready"
  | LeaseLost => "publication_execution_lease_lost"
  | Invariant => "publication_execution_invariant_failed"
  | ClockUnavailable => "publication_execution_clock_unavailable"
  | EntropyUnavailable => "publication_execution_entropy_unavailable"
  | StorageFailed => "publication_execution_storage_failed"
  | CommitOutcomeUnknown => "publication_execution_commit_outcome_unknown"
  end.

Inductive OperationError : Type :=
| OpInvalidInput | OpNotReady | OpLeaseLost | OpInvariant | OpStorage.

Definition lease_owner_from_bytes (b : bytes) : result RhiPublicationExecutionErrorKind bytes :=
  reject_if (forallb (λ x, x =? 0) b) InvalidInput ;? Ok b.

Definition retry_delay_new (v : Z) : result RhiPublicationExecutionErrorKind Z :=
  reject_if (3600000 <? v) InvalidInput ;? Ok v.

(** ** Decoded records *)

Record OutboxRecord : Type := MkOutbox {
  id : bytes;
  outbox_event_sha256 : bytes;
  outbox_authority_sha256 : bytes;
  outbox_target_set_sha256 : bytes;
  target_count : Z;
  required_target_count : Z;
  max_attempts : Z;
  initial_backoff_ms : Z;
  maximum_backoff_ms : Z;
  attempt_deadline_ms : Z;
  state : RhiPublicationOutboxState;
  revision : Z;
  next_attempt : option Z;
  lease_owner : option bytes;
  lease_expires : option Z;
  created_at : Z;
  updated_at : Z;
}.

#[export] Instance outbox_record_eq_dec : EqDecision OutboxRecord.
Proof. solve_decision. Defined.

Record TargetRecord : Type := MkTargetRecord {
  ordinal : Z;
  relay_id : string;
  required : bool;
  t_state : RhiPublicationTargetState;
  t_revision : Z;
  t_attempt_count : Z;
  t_next_attempt : option Z;
  t_last_attempt_id : option bytes;
  t_updated_at : Z;
}.

Record AttemptRecord : Type := MkAttemptRecord {
  a_attempt_id : bytes;
  a_outbox_id : bytes;
  a_target_ordinal : Z;
  a_attempt_number : Z;
  a_event_sha256 : bytes;
  a_lease_owner : bytes;
  a_started_at : Z;
  a_finished_at : Z;
  a_outcome : RhiPublicationAttemptOutcome;
}.

#[export] Instance attempt_record_eq_dec : EqDecision AttemptRecord.
Proof. solve_decision. Defined.

Record RhiPublicationLease : Type := MkLease {
  lease_outbox : OutboxRecord;
  owner : bytes;
  expires_at : Z;
}.

Record RhiPreparedPublicationAttempt : Type := MkPrepared {
  p_lease : RhiPublicationLease;
  p_target : TargetRecord;
  p_attempt_id : bytes;
  p_started_at : Z;
  p_deadline_at : Z;
  p_publication : RhiCommittedPublication;
}.

Record RhiPublicationAttemptCommit : Type := MkCommit {
  c_outbox_id : bytes;
  c_attempt_id : bytes;
  c_target_ordinal : Z;
  c_attempt_number : Z;
  c_outcome : RhiPublicationAttemptOutcome;
  c_target_state : RhiPublicationTargetState;
  c_outbox_state : RhiPublicationOutboxState;
}.

Record AuthorityBinding : Type := MkBinding {
  b_authority_sha256 : bytes;
  b_target_set_sha256 : bytes;
  b_target_count : Z;
  b_required_target_count : Z;
  b_max_attempts : Z;
  b_initial_backoff_ms : Z;
  b_maximum_backoff_ms : Z;
  b_attempt_deadline_ms : Z;
}.

Definition from_authority (a : Authority.RhiPublicationAuthority) : option AuthorityBinding :=
  if bool_decide (Authority.mode a = Authority.Disabled) then None
  else
    match Authority.retry a with
    | None => None
    | Some r =>
        match try_from U8_MAX (Z.of_nat (length (Authority.targets a))),
              try_from U8_MAX (Z.of_nat (length
                (List.filter Authority.target_required (Authority.targets a)))) with
        | Some count, Some required =>
            Some (MkBinding (Authority.authority_sha256 a) (Authority.target_set_sha256 a) count
                    required (Authority.maximum_attempts r)
                    (Authority.initial_backoff_milliseconds r)
                    (Authority.maximum_backoff_milliseconds r)
                    (Authority.attempt_deadline_milliseconds r))
        | _, _ => None
        end
    end.

Record RecoveryCandidate : Type := MkCandidate {
  candidate_outbox : OutboxRecord;
  candidate_retry_upper_bound : Z;
}.

Record RecordInput : Type := MkInput {
  i_lease : RhiPublicationLease;
  i_target_ordinal : Z;
  i_target_revision : Z;
  i_attempt_number : Z;
  i_attempt_id : bytes;
  i_started_at : Z;
  i_finished_at : Z;
  i_outcome : RhiPublicationAttemptOutcome;
  i_retry_delay : Z;
}.

Definition attempt_from_input (i : RecordInput) : AttemptRecord :=
  MkAttemptRecord (i_attempt_id i) (id (lease_outbox (i_lease i))) (i_target_ordinal i)
    (i_attempt_number i) (outbox_event_sha256 (lease_outbox (i_lease i))) (owner (i_lease i))
    (i_started_at i) (i_finished_at i) (i_outcome i).

Record OutboxDisposition : Type := MkDisposition {
  d_state : RhiPublicationOutboxState;
  d_next_attempt : option Z;
}.

(** ** Decoding: every failure is [OperationError::Invariant] *)

(** A column read as [NULL] unless it is a blob of [n] bytes. *)
Definition blob (n : nat) (col : bytes) : result OperationError bytes :=
  ok_or (filter_opt (blob_of n) (Some col)) OpInvariant.

Definition bounded_text (maximum : Z) (col : string) : result OperationError string :=
  reject_if (maximum <? Z.of_nat (String.length col)) OpInvariant ;? Ok col.

Definition bounded_u16 (col minimum maximum : Z) : result OperationError Z :=
  ok_or (filter_opt (between minimum maximum) (try_from U16_MAX col)) OpInvariant.

Definition bounded_u64 (col minimum maximum : Z) : result OperationError Z :=
  ok_or (filter_opt (between minimum maximum) (try_from U64_MAX col)) OpInvariant.

Definition positive_u64 (col : Z) : result OperationError Z := bounded_u64 col 1 MAX_UNIX_MILLISECONDS.

Definition nonnegative_millis (col : Z) : result OperationError Z :=
  bounded_u64 col 0 MAX_UNIX_MILLISECONDS.

Definition optional_millis (col : option Z) : result OperationError (option Z) :=
  match col with
  | None => Ok None
  | Some v =>
      let? v := ok_or (filter_opt (λ v, v <=? MAX_UNIX_MILLISECONDS) (try_from U64_MAX v))
                  OpInvariant in
      Ok (Some v)
  end.

(** [length(lease_owner)] must be 16 and [substr(lease_owner, 1, 17)] have 16 bytes. *)
Definition optional_owner (col : option bytes) : result OperationError (option bytes) :=
  match col with
  | None => Ok None
  | Some b =>
      if (length b =? LEASE_OWNER_BYTES)%nat && (length (take 17 b) =? LEASE_OWNER_BYTES)%nat
      then let? o := map_err (λ _, OpInvariant) (lease_owner_from_bytes (take 17 b)) in Ok (Some o)
      else Err OpInvariant
  end.

Definition optional_attempt_id (col : option bytes) : result OperationError (option bytes) :=
  match col with
  | None => Ok None
  | Some b =>
      if (length b =? 32)%nat && (length (take 33 b) =? 32)%nat then Ok (Some (take 33 b))
      else Err OpInvariant
  end.

Definition decode_outbox_state (s : string) : result OperationError RhiPublicationOutboxState :=
  if String.eqb s "pending" then Ok Pending
  else if String.eqb s "leased" then Ok Leased
  else if String.eqb s "complete" then Ok Complete
  else if String.eqb s "blocked" then Ok Blocked
  else Err OpInvariant.

Definition decode_target_state (s : string) : result OperationError RhiPublicationTargetState :=
  if String.eqb s "pending" then Ok TPending
  else if String.eqb s "submitted" then Ok TSubmitted
  else if String.eqb s "accepted" then Ok TAccepted
  else if String.eqb s "rejected" then Ok TRejected
  else if String.eqb s "rate_limited" then Ok TRateLimited
  else if String.eqb s "auth_required" then Ok TAuthRequired
  else if String.eqb s "failed" then Ok TFailed
  else if String.eqb s "unknown" then Ok TUnknown
  else Err OpInvariant.

Definition decode_attempt_outcome (s : string) :
    result OperationError RhiPublicationAttemptOutcome :=
  if String.eqb s "submitted" then Ok Submitted
  else if String.eqb s "accepted" then Ok Accepted
  else if String.eqb s "rejected" then Ok Rejected
  else if String.eqb s "rate_limited" then Ok RateLimited
  else if String.eqb s "auth_required" then Ok AuthRequired
  else if String.eqb s "failed" then Ok Failed
  else if String.eqb s "unknown" then Ok Unknown
  else Err OpInvariant.

Definition valid_outbox_shape (s : RhiPublicationOutboxState) (next : option Z)
    (own : option bytes) (expires : option Z) : bool :=
  match s with
  | Pending => negb (is_null next) && is_null own && is_null expires
  | Leased => is_null next && negb (is_null own) && is_some_and (λ v, 0 <? v) expires
  | Complete | Blocked => is_null next && is_null own && is_null expires
  end.

Definition decode_outbox (r : outbox_row) : result OperationError OutboxRecord :=
  let? i := blob 32 (ob_outbox_id r) in
  let? text := bounded_text 8 (ob_state r) in
  let? st := decode_outbox_state text in
  let? count := bounded_u16 (ob_target_count r) 1 32 in
  let? required := bounded_u16 (ob_required_target_count r) 0 count in
  let? attempts := bounded_u16 (ob_max_attempts r) 1 RHI_PUBLICATION_ATTEMPT_NUMBER_MAXIMUM in
  let? initial := bounded_u64 (ob_initial_backoff_ms r) 1 60000 in
  let? maximum := bounded_u64 (ob_maximum_backoff_ms r) 1 3600000 in
  reject_if (maximum <? initial) OpInvariant ;?
  let? deadline := bounded_u64 (ob_attempt_deadline_ms r) 100 30000 in
  let? own := optional_owner (ob_lease_owner r) in
  let? expires := optional_millis (ob_lease_expires_unix_ms r) in
  let? next := optional_millis (ob_next_attempt_unix_ms r) in
  reject_if (negb (valid_outbox_shape st next own expires)) OpInvariant ;?
  let? sha := blob 32 (ob_event_sha256 r) in
  let? authority := blob 32 (ob_authority_sha256 r) in
  let? target_set := blob 32 (ob_target_set_sha256 r) in
  let? rev := positive_u64 (ob_revision r) in
  let? created := nonnegative_millis (ob_created_at_unix_ms r) in
  let? updated := nonnegative_millis (ob_updated_at_unix_ms r) in
  Ok (MkOutbox i sha authority target_set count required attempts initial maximum deadline st rev
        next own expires created updated).

(** READ_CLAIMABLE_OUTBOX_SQL selects [NULL AS lease_owner]. *)
Definition without_owner (r : outbox_row) : outbox_row :=
  OutboxRow (ob_outbox_id r) (ob_event_id r) (ob_event_sha256 r) (ob_authority_sha256 r)
    (ob_target_set_sha256 r) (ob_target_count r) (ob_required_target_count r) (ob_max_attempts r)
    (ob_initial_backoff_ms r) (ob_maximum_backoff_ms r) (ob_attempt_deadline_ms r) (ob_state r)
    (ob_revision r) (ob_next_attempt_unix_ms r) None (ob_lease_expires_unix_ms r)
    (ob_created_at_unix_ms r) (ob_updated_at_unix_ms r).

Definition decode_target (r : target_row) : result OperationError TargetRecord :=
  let? ord := bounded_u16 (tg_target_ordinal r) 0 RHI_PUBLICATION_TARGET_ORDINAL_MAXIMUM in
  let? relay := bounded_text 64 (tg_relay_id r) in
  reject_if
    (match as_bytes relay with
     | [] => true
     | first :: _ =>
         negb (forallb Authority.relay_id_byte (as_bytes relay)
               && Authority.is_ascii_lowercase first)
     end) OpInvariant ;?
  let? req :=
    if tg_required r =? 0 then Ok false
    else if tg_required r =? 1 then Ok true
    else Err OpInvariant in
  let? text := bounded_text 13 (tg_state r) in
  let? st := decode_target_state text in
  let? count := bounded_u16 (tg_attempt_count r) 0 RHI_PUBLICATION_ATTEMPT_NUMBER_MAXIMUM in
  let? last := optional_attempt_id (tg_last_attempt_id r) in
  reject_if (negb (eqb (count =? 0) (is_null last))) OpInvariant ;?
  let? rev := positive_u64 (tg_revision r) in
  let? next := optional_millis (tg_next_attempt_unix_ms r) in
  let? updated := nonnegative_millis (tg_updated_at_unix_ms r) in
  Ok (MkTargetRecord ord relay req st rev count next last updated).

Definition decode_attempt (r : attempt_row) : result OperationError AttemptRecord :=
  let? text := bounded_text 13 (at_outcome r) in
  let? o := decode_attempt_outcome text in
  let? code := bounded_text 64 (at_result_code r) in
  reject_if (negb (String.eqb code (outcome_code o))) OpInvariant ;?
  let? i := blob 32 (at_attempt_id r) in
  let? oid := blob 32 (at_outbox_id r) in
  let? ord := bounded_u16 (at_target_ordinal r) 0 31 in
  let? number := bounded_u16 (at_attempt_number r) 1 100 in
  let? sha := blob 32 (at_event_sha256 r) in
  let? own := blob 16 (at_lease_owner r) in
  let? started := nonnegative_millis (at_started_at_unix_ms r) in
  let? finished := nonnegative_millis (at_finished_at_unix_ms r) in
  Ok (MkAttemptRecord i oid ord number sha own started finished o).

(** ** Statements *)

Definition exec {A} (r : result sql_error A) : result OperationError A := map_err (λ _, OpStorage) r.

Definition i64_value (v : Z) : result OperationError Z := ok_or (try_from I64_MAX v) OpInvalidInput.

Definition optional_i64 (v : option Z) : result OperationError (option Z) :=
  match v with None => Ok None | Some v => let? v := i64_value v in Ok (Some v) end.

(** The columns of an outbox that a statement of this file may change. *)
Definition with_lifecycle (st : string) (next : option Z) (own : option bytes) (expires : option Z)
    (updated : Z) (r : outbox_row) : outbox_row :=
  OutboxRow (ob_outbox_id r) (ob_event_id r) (ob_event_sha256 r) (ob_authority_sha256 r)
    (ob_target_set_sha256 r) (ob_target_count r) (ob_required_target_count r) (ob_max_attempts r)
    (ob_initial_backoff_ms r) (ob_maximum_backoff_ms r) (ob_attempt_deadline_ms r) st
    (ob_revision r + 1) next own expires (ob_created_at_unix_ms r) updated.

Definition claimable (now : Z) (r : outbox_row) : bool :=
  String.eqb (ob_state r) "pending" && col_le (ob_next_attempt_unix_ms r) now.

Definition claim_order : outbox_row → outbox_row → comparison :=
  cmp_then (cmp_on (λ r, default (-1) (ob_next_attempt_unix_ms r)) Z.compare)
    (cmp_then (cmp_on ob_created_at_unix_ms Z.compare) (cmp_on ob_outbox_id bytes_cmp)).

Definition READ_CLAIMABLE_OUTBOX_SQL (now : Z) (rows : list outbox_row) : list outbox_row :=
  map without_owner (take 1 (sort_by claim_order (List.filter (claimable now) rows))).

Definition expired (now : Z) (r : outbox_row) : bool :=
  String.eqb (ob_state r) "leased" && col_le (ob_lease_expires_unix_ms r) now.

Definition expiry_order : outbox_row → outbox_row → comparison :=
  cmp_then (cmp_on (λ r, default (-1) (ob_lease_expires_unix_ms r)) Z.compare)
    (cmp_then (cmp_on ob_created_at_unix_ms Z.compare) (cmp_on ob_outbox_id bytes_cmp)).

Definition READ_EXPIRED_OUTBOX_SQL (now : Z) (rows : list outbox_row) : list outbox_row :=
  take 1 (sort_by expiry_order (List.filter (expired now) rows)).

Definition CLAIM_OUTBOX_SQL (own : bytes) (expires updated : Z) (i : bytes) (rev due not_after : Z)
    (rows : list outbox_row) :=
  update_rows
    (λ r, bytes_eqb (ob_outbox_id r) i && (ob_revision r =? rev) && claimable due r
          && (ob_updated_at_unix_ms r <=? not_after))
    (with_lifecycle "leased" None (Some own) (Some expires) updated) rows.

(** [col > ?]; the two outbox updates differ only in the sense of the lease test. *)
Definition holds_outbox (i : bytes) (rev : Z) (own : bytes) (expires now : Z) (live : bool)
    (r : outbox_row) : bool :=
  bytes_eqb (ob_outbox_id r) i && (ob_revision r =? rev) && String.eqb (ob_state r) "leased"
  && col_blob_eq (ob_lease_owner r) own && col_eq (ob_lease_expires_unix_ms r) expires
  && (if live then col_gt (ob_lease_expires_unix_ms r) now
      else col_le (ob_lease_expires_unix_ms r) now)
  && (ob_updated_at_unix_ms r <=? now).

Definition UPDATE_OUTBOX_AFTER_ATTEMPT_SQL (st : string) (next : option Z) (updated : Z) (i : bytes)
    (rev : Z) (own : bytes) (expires now : Z) (rows : list outbox_row) :=
  update_rows (holds_outbox i rev own expires now true)
    (with_lifecycle st next None None updated) rows.

Definition UPDATE_OUTBOX_RECOVERY_SQL (st : string) (next : option Z) (updated : Z) (i : bytes)
    (rev : Z) (own : bytes) (expires now : Z) (rows : list outbox_row) :=
  update_rows (holds_outbox i rev own expires now false)
    (with_lifecycle st next None None updated) rows.

Definition PREPARE_TARGET_SQL (attempt : bytes) (updated : Z) (i : bytes) (ord rev maximum due
    not_after : Z) (rows : list target_row) :=
  update_rows
    (λ r, bytes_eqb (tg_outbox_id r) i && (tg_target_ordinal r =? ord) && (tg_revision r =? rev)
          && one_of ["pending"; "failed"; "rate_limited"; "unknown"] (tg_state r)
          && (tg_attempt_count r <? maximum) && col_le (tg_next_attempt_unix_ms r) due
          && (tg_updated_at_unix_ms r <=? not_after))
    (λ r, TargetRow (tg_outbox_id r) (tg_target_ordinal r) (tg_relay_id r) (tg_required r)
            "submitted" (tg_revision r + 1) (tg_attempt_count r + 1) None (Some attempt) updated)
    rows.

Definition UPDATE_TARGET_OUTCOME_SQL (st : string) (next : option Z) (updated : Z) (i : bytes)
    (ord rev number : Z) (attempt : bytes) (rows : list target_row) :=
  update_rows
    (λ r, bytes_eqb (tg_outbox_id r) i && (tg_target_ordinal r =? ord) && (tg_revision r =? rev)
          && String.eqb (tg_state r) "submitted" && (tg_attempt_count r =? number)
          && col_blob_eq (tg_last_attempt_id r) attempt)
    (λ r, TargetRow (tg_outbox_id r) (tg_target_ordinal r) (tg_relay_id r) (tg_required r)
            st (tg_revision r + 1) (tg_attempt_count r) next (tg_last_attempt_id r) updated)
    rows.

Definition target_order : target_row → target_row → comparison :=
  cmp_on tg_target_ordinal Z.compare.

Definition READ_TARGETS_SQL (i : bytes) (rows : list target_row) : list target_row :=
  take 33 (sort_by target_order (List.filter (λ r, bytes_eqb (tg_outbox_id r) i) rows)).

Definition READ_OUTBOX_SQL (i : bytes) (rows : list outbox_row) : list outbox_row :=
  take 2 (List.filter (λ r, bytes_eqb (ob_outbox_id r) i) rows).

Definition READ_ATTEMPT_SQL (i : bytes) (rows : list attempt_row) : list attempt_row :=
  take 2 (List.filter (λ r, bytes_eqb (at_attempt_id r) i) rows).

Definition exactly_zero_or_one {A} (rows : list A) : result OperationError (option A) :=
  match rows with [] => Ok None | [r] => Ok (Some r) | _ => Err OpInvariant end.

(** [rows.map(decode).transpose()] *)
Definition decode_optional {A B} (decode : A → result OperationError B) (r : option A) :
    result OperationError (option B) :=
  match r with None => Ok None | Some r => let? b := decode r in Ok (Some b) end.

Definition read_outbox (i : bytes) (db : publication_db) : result OperationError (option OutboxRecord) :=
  let? row := exactly_zero_or_one (READ_OUTBOX_SQL i (outboxes db)) in
  decode_optional decode_outbox row.

Definition read_targets (i : bytes) (db : publication_db) : result OperationError (list TargetRecord) :=
  collect decode_target (READ_TARGETS_SQL i (targets db)).

Definition read_attempt (i : bytes) (db : publication_db) : result OperationError (option AttemptRecord) :=
  let? row := exactly_zero_or_one (READ_ATTEMPT_SQL i (attempts db)) in
  decode_optional decode_attempt row.

(** ** Pure decisions *)

Definition retryable_state (s : RhiPublicationTargetState) : bool :=
  match s with TPending | TFailed | TRateLimited | TUnknown => true | _ => false end.

Definition retryable_outcome (o : RhiPublicationAttemptOutcome) : bool :=
  match o with RateLimited | Failed | Unknown => true | _ => false end.

Definition target_is_blocking (t : TargetRecord) (maximum : Z) : bool :=
  match t_state t with TRejected | TAuthRequired => true | _ => false end
  || (retryable_state (t_state t) && (maximum <=? t_attempt_count t) && is_null (t_next_attempt t)).

Definition target_is_due (t : TargetRecord) (maximum now : Z) : bool :=
  retryable_state (t_state t) && (t_attempt_count t <? maximum)
  && is_some_and (λ next, next <=? now) (t_next_attempt t).

(** [for _ in 1..attempt_number] *)
Fixpoint retry_loop (rounds : nat) (maximum bound : Z) : Z :=
  match rounds with
  | O => bound
  | S rounds => retry_loop rounds maximum (Z.min (u64_saturating_mul bound 2) maximum)
  end.

Definition retry_upper_bound (o : OutboxRecord) (attempt_number : Z) : Z :=
  Z.min (retry_loop (Z.to_nat (attempt_number - 1)) (maximum_backoff_ms o) (initial_backoff_ms o))
    (maximum_backoff_ms o).

Definition target_outcome_schedule (i : RecordInput) :
    result OperationError (RhiPublicationTargetState * option Z) :=
  let st := target_state (i_outcome i) in
  reject_if (bool_decide (i_outcome i = Submitted)) OpInvalidInput ;?
  let? next :=
    if retryable_outcome (i_outcome i)
       && (i_attempt_number i <? max_attempts (lease_outbox (i_lease i))) then
      reject_if (retry_upper_bound (lease_outbox (i_lease i)) (i_attempt_number i) <? i_retry_delay i)
        OpInvalidInput ;?
      let? at_time :=
        ok_or (filter_opt (λ v, v <=? MAX_UNIX_MILLISECONDS)
                 (u64_checked_add (i_finished_at i) (i_retry_delay i))) OpInvalidInput in
      Ok (Some at_time)
    else
      reject_if (negb (i_retry_delay i =? 0)) OpInvalidInput ;?
      Ok None in
  Ok (st, next).

(** [filter_map(..).min()] *)
Fixpoint minimum (l : list Z) : option Z :=
  match l with
  | [] => None
  | x :: l => match minimum l with Some y => Some (Z.min x y) | None => Some x end
  end.

(** [targets[index + 1..].iter().any(..)] over all indexes *)
Fixpoint repeated_relay (ts : list TargetRecord) : bool :=
  match ts with
  | [] => false
  | t :: ts => existsb (λ o, String.eqb (relay_id o) (relay_id t)) ts || repeated_relay ts
  end.

Section operations.
Context `{Sha256}.

Definition target_digest_part (t : TargetRecord) : bytes :=
  to_be_bytes 4 (ordinal t) ++ framed (as_bytes (relay_id t)) ++ [if required t then 1 else 0].

Definition validate_targets (o : OutboxRecord) (ts : list TargetRecord) : result OperationError unit :=
  reject_if
    (negb (Z.of_nat (length ts) =? target_count o)
     || (RHI_PUBLICATION_TARGET_ORDINAL_MAXIMUM + 1 <? Z.of_nat (length ts))
     || negb (forallb (λ p, ordinal p.2 =? Z.of_nat p.1) (zip (seq 0 (length ts)) ts))
     || negb (Z.of_nat (length (List.filter required ts)) =? required_target_count o))
    OpInvariant ;?
  reject_if (repeated_relay ts) OpInvariant ;?
  let? _ := collect (λ t, ok_or (try_from U64_MAX (Z.of_nat (length (as_bytes (relay_id t)))))
                            OpInvariant) ts in
  let actual := sha256 (TARGET_SET_DOMAIN ++ to_be_bytes 4 (target_count o)
                        ++ concat (map target_digest_part ts)) in
  reject_if (negb (bytes_eqb actual (outbox_target_set_sha256 o))) OpInvariant.

Definition validate_target_inventory (o : OutboxRecord) (db : publication_db) :
    result OperationError unit :=
  let? ts := read_targets (id o) db in validate_targets o ts.

Definition validate_authority (o : OutboxRecord) (a : AuthorityBinding) : result OperationError unit :=
  reject_if
    (negb (bytes_eqb (outbox_authority_sha256 o) (b_authority_sha256 a))
     || negb (bytes_eqb (outbox_target_set_sha256 o) (b_target_set_sha256 a))
     || negb (target_count o =? b_target_count a)
     || negb (required_target_count o =? b_required_target_count a)
     || negb (max_attempts o =? b_max_attempts a)
     || negb (initial_backoff_ms o =? b_initial_backoff_ms a)
     || negb (maximum_backoff_ms o =? b_maximum_backoff_ms a)
     || negb (attempt_deadline_ms o =? b_attempt_deadline_ms a))
    OpInvariant.

Definition disposition (o : OutboxRecord) (ts : list TargetRecord) :
    result OperationError OutboxDisposition :=
  validate_targets o ts ;?
  let req := List.filter required ts in
  if forallb (λ t, bool_decide (t_state t = TAccepted)) req then Ok (MkDisposition Complete None)
  else if existsb (λ t, target_is_blocking t (max_attempts o)) req then
    Ok (MkDisposition Blocked None)
  else
    let? next := ok_or (minimum (omap t_next_attempt req)) OpInvariant in
    Ok (MkDisposition Pending (Some next)).

Definition same_outbox_identity (c p : OutboxRecord) : bool :=
  bytes_eqb (id c) (id p) && bytes_eqb (outbox_event_sha256 c) (outbox_event_sha256 p)
  && bytes_eqb (outbox_authority_sha256 c) (outbox_authority_sha256 p)
  && bytes_eqb (outbox_target_set_sha256 c) (outbox_target_set_sha256 p)
  && (target_count c =? target_count p)
  && (required_target_count c =? required_target_count p)
  && (max_attempts c =? max_attempts p)
  && (initial_backoff_ms c =? initial_backoff_ms p)
  && (maximum_backoff_ms c =? maximum_backoff_ms p)
  && (attempt_deadline_ms c =? attempt_deadline_ms p)
  && (created_at c =? created_at p).

(** ** Operations *)

Definition claim_next (own : bytes) (now : Z) (authority : AuthorityBinding) (db : publication_db) :
    result OperationError (option RhiPublicationLease * publication_db) :=
  let? now_value := i64_value now in
  let? row := exactly_zero_or_one (READ_CLAIMABLE_OUTBOX_SQL now_value (outboxes db)) in
  match row with
  | None => Ok (None, db)
  | Some row =>
      let? o := decode_outbox row in
      validate_authority o authority ;?
      validate_target_inventory o db ;?
      let? expires :=
        ok_or (filter_opt (λ v, v <=? MAX_UNIX_MILLISECONDS)
                 (u64_checked_add now (attempt_deadline_ms o))) OpInvalidInput in
      let? expires_value := i64_value expires in
      let? rev := i64_value (revision o) in
      let? (rows, affected) :=
        exec (CLAIM_OUTBOX_SQL own expires_value now_value (id o) rev now_value now_value
                (outboxes db)) in
      reject_if (negb (affected =? 1)) OpLeaseLost ;?
      let db := with_outboxes db rows in
      let? leased := read_outbox (id o) db in
      let? leased :=
        ok_or (filter_opt (λ r, bool_decide (state r = Leased)
                                && bool_decide (lease_owner r = Some own)
                                && bool_decide (lease_expires r = Some expires)) leased)
          OpInvariant in
      Ok (Some (MkLease leased own expires), db)
  end.

Definition validate_lease (l : RhiPublicationLease) (now : Z) (require_unexpired : bool)
    (db : publication_db) : result OperationError unit :=
  let? current := read_outbox (id (lease_outbox l)) db in
  let? current := ok_or (filter_opt (λ c, bool_decide (c = lease_outbox l)) current) OpLeaseLost in
  reject_if
    (negb (bool_decide (state current = Leased))
     || negb (bool_decide (lease_owner current = Some (owner l)))
     || negb (bool_decide (lease_expires current = Some (expires_at l)))
     || (require_unexpired && (expires_at l <=? now)))
    OpLeaseLost.

Definition read_publication (i : bytes) (db : publication_db) :
    result OperationError RhiCommittedPublication :=
  map_err (λ e, match e with ReadStorage => OpStorage | ReadNotFound | ReadBinding => OpInvariant end)
    (read_committed i db).

Definition prepare_next (l : RhiPublicationLease) (started : Z) (db : publication_db) :
    result OperationError (RhiPreparedPublicationAttempt * publication_db) :=
  let o := lease_outbox l in
  validate_lease l started true db ;?
  let? ts := read_targets (id o) db in
  validate_targets o ts ;?
  let? candidate := ok_or (List.find (λ t, target_is_due t (max_attempts o) started) ts) OpNotReady in
  let? number :=
    ok_or (filter_opt (λ v, v <=? max_attempts o) (u16_checked_add (t_attempt_count candidate) 1))
      OpInvariant in
  let attempt_id := derive_attempt_id (id o) (outbox_event_sha256 o) (ordinal candidate) number in
  let? started_value := i64_value started in
  let? rev := i64_value (t_revision candidate) in
  let? (rows, affected) :=
    exec (PREPARE_TARGET_SQL attempt_id started_value (id o) (ordinal candidate) rev (max_attempts o)
            started_value started_value (targets db)) in
  reject_if (negb (affected =? 1)) OpLeaseLost ;?
  let db := with_targets db rows in
  let? ts := read_targets (id o) db in
  let? target :=
    ok_or (filter_opt (λ t, bool_decide (t_state t = TSubmitted) && (t_attempt_count t =? number)
                            && bool_decide (t_last_attempt_id t = Some attempt_id))
             (List.find (λ t, ordinal t =? ordinal candidate) ts)) OpInvariant in
  let? publication := read_publication (id o) db in
  reject_if (negb (bytes_eqb (event_sha256 publication) (outbox_event_sha256 o))) OpInvariant ;?
  Ok (MkPrepared l target attempt_id started (expires_at l) publication, db).

Definition attempt_row_of (i : RecordInput) (started finished : Z) : attempt_row :=
  AttemptRow (i_attempt_id i) (id (lease_outbox (i_lease i))) (i_target_ordinal i)
    (i_attempt_number i) (outbox_event_sha256 (lease_outbox (i_lease i))) (owner (i_lease i))
    started finished (outcome_code (i_outcome i)) (outcome_code (i_outcome i)).

Definition references_target (rows : list target_row) (a : attempt_row) : bool :=
  existsb (λ t, bytes_eqb (tg_outbox_id t) (at_outbox_id a)
                && (tg_target_ordinal t =? at_target_ordinal a)) rows.

Definition insert_attempt (i : RecordInput) (db : publication_db) :
    result OperationError publication_db :=
  let? started := i64_value (i_started_at i) in
  let? finished := i64_value (i_finished_at i) in
  let? rows :=
    exec (insert_row (references_target (targets db)) (attempt_row_of i started finished)
            (attempts db)) in
  Ok (with_attempts db rows).

(** The [UPDATE_TARGET_OUTCOME_SQL] block shared by recording and recovery. *)
Definition update_target_outcome (i : RecordInput) (st : RhiPublicationTargetState)
    (next : option Z) (db : publication_db) : result OperationError publication_db :=
  let? next := optional_i64 next in
  let? finished := i64_value (i_finished_at i) in
  let? rev := i64_value (i_target_revision i) in
  let? (rows, affected) :=
    exec (UPDATE_TARGET_OUTCOME_SQL (target_code st) next finished (id (lease_outbox (i_lease i)))
            (i_target_ordinal i) rev (i_attempt_number i) (i_attempt_id i) (targets db)) in
  reject_if (negb (affected =? 1)) OpLeaseLost ;?
  Ok (with_targets db rows).

Definition update_outbox_after_attempt (i : RecordInput) (d : OutboxDisposition)
    (db : publication_db) : result OperationError publication_db :=
  let o := lease_outbox (i_lease i) in
  let? next := optional_i64 (d_next_attempt d) in
  let? finished := i64_value (i_finished_at i) in
  let? rev := i64_value (revision o) in
  let? expires := i64_value (expires_at (i_lease i)) in
  let? (rows, affected) :=
    exec (UPDATE_OUTBOX_AFTER_ATTEMPT_SQL (outbox_code (d_state d)) next finished (id o) rev
            (owner (i_lease i)) expires finished (outboxes db)) in
  reject_if (negb (affected =? 1)) OpLeaseLost ;?
  Ok (with_outboxes db rows).

Definition commit_of (i : RecordInput) (t : RhiPublicationTargetState)
    (o : RhiPublicationOutboxState) : RhiPublicationAttemptCommit :=
  MkCommit (id (lease_outbox (i_lease i))) (i_attempt_id i) (i_target_ordinal i)
    (i_attempt_number i) (i_outcome i) t o.

Definition reconcile_recorded (i : RecordInput) (existing : AttemptRecord) (db : publication_db) :
    result OperationError RhiPublicationAttemptCommit :=
  let prior := lease_outbox (i_lease i) in
  reject_if (negb (bool_decide (existing = attempt_from_input i))) OpInvariant ;?
  let? o := read_outbox (id prior) db in
  let? o := ok_or o OpInvariant in
  let? expected_revision := ok_or (u64_checked_add (revision prior) 1) OpInvariant in
  reject_if
    (negb (same_outbox_identity o prior)
     || negb (revision o =? expected_revision)
     || negb (updated_at o =? i_finished_at i)
     || negb (is_null (lease_owner o))
     || negb (is_null (lease_expires o)))
    OpInvariant ;?
  let? ts := read_targets (id o) db in
  validate_targets o ts ;?
  let? (expected_state, expected_schedule) := target_outcome_schedule i in
  let? expected_target_revision := ok_or (u64_checked_add (i_target_revision i) 1) OpInvariant in
  let? target :=
    ok_or (filter_opt
             (λ t, (t_revision t =? expected_target_revision)
                   && (t_attempt_count t =? i_attempt_number i)
                   && bool_decide (t_last_attempt_id t = Some (i_attempt_id i))
                   && bool_decide (t_state t = expected_state)
                   && bool_decide (t_next_attempt t = expected_schedule)
                   && (t_updated_at t =? i_finished_at i))
             (List.find (λ t, ordinal t =? i_target_ordinal i) ts)) OpInvariant in
  let? expected := disposition o ts in
  reject_if
    (negb (bool_decide (state o = d_state expected))
     || negb (bool_decide (next_attempt o = d_next_attempt expected)))
    OpInvariant ;?
  Ok (MkCommit (id o) (i_attempt_id i) (i_target_ordinal i) (i_attempt_number i) (i_outcome i)
        (t_state target) (state o)).

Definition record_outcome (i : RecordInput) (db : publication_db) :
    result OperationError (RhiPublicationAttemptCommit * publication_db) :=
  let? existing := read_attempt (i_attempt_id i) db in
  match existing with
  | Some existing => let? commit := reconcile_recorded i existing db in Ok (commit, db)
  | None =>
      let o := lease_outbox (i_lease i) in
      validate_lease (i_lease i) (i_finished_at i) true db ;?
      let? ts := read_targets (id o) db in
      let? target :=
        ok_or (List.find (λ t, ordinal t =? i_target_ordinal i) ts) OpInvariant in
      reject_if
        (negb (bool_decide (t_state target = TSubmitted))
         || negb (t_revision target =? i_target_revision i)
         || negb (t_attempt_count target =? i_attempt_number i)
         || negb (bool_decide (t_last_attempt_id target = Some (i_attempt_id i)))
         || negb (t_updated_at target =? i_started_at i))
        OpLeaseLost ;?
      let? db := insert_attempt i db in
      let? (next_state, next) := target_outcome_schedule i in
      let? db := update_target_outcome i next_state next db in
      let? ts := read_targets (id o) db in
      let? d := disposition o ts in
      let? db := update_outbox_after_attempt i d db in
      Ok (commit_of i next_state (d_state d), db)
  end.

Definition submitted_targets (ts : list TargetRecord) : list TargetRecord :=
  List.filter (λ t, bool_decide (t_state t = TSubmitted)) ts.

Definition read_expired_candidate (now : Z) (authority : AuthorityBinding) (db : publication_db) :
    result OperationError (option RecoveryCandidate) :=
  let? now_value := i64_value now in
  let? row := exactly_zero_or_one (READ_EXPIRED_OUTBOX_SQL now_value (outboxes db)) in
  match row with
  | None => Ok None
  | Some row =>
      let? o := decode_outbox row in
      validate_authority o authority ;?
      let? ts := read_targets (id o) db in
      validate_targets o ts ;?
      let submitted_attempts := map t_attempt_count (submitted_targets ts) in
      reject_if (1 <? length submitted_attempts)%nat OpInvariant ;?
      let bound :=
        match filter_opt (λ n, n <? max_attempts o) (head submitted_attempts) with
        | Some n => retry_upper_bound o n
        | None => 0
        end in
      Ok (Some (MkCandidate o bound))
  end.

(** One round of the recovery loop over the [Submitted] targets. *)
Definition recover_target (current : OutboxRecord) (own : bytes) (now delay : Z)
    (t : TargetRecord) (db : publication_db) : result OperationError publication_db :=
  let? attempt_id := ok_or (t_last_attempt_id t) OpInvariant in
  let? publication := read_publication (id current) db in
  let? evidence :=
    map_err (λ _, OpInvariant)
      (evidence_new publication (ordinal t) (t_attempt_count t) (t_updated_at t) now Unknown) in
  reject_if (negb (bytes_eqb attempt_id (evidence_id evidence))) OpInvariant ;?
  let? recorded := read_attempt attempt_id db in
  reject_if (negb (is_null recorded)) OpInvariant ;?
  let? expires := ok_or (lease_expires current) OpInvariant in
  let i := MkInput (MkLease current own expires) (ordinal t) (t_revision t) (t_attempt_count t)
             attempt_id (t_updated_at t) now Unknown delay in
  let? db := insert_attempt i db in
  let? (st, next) := target_outcome_schedule i in
  update_target_outcome i st next db.

Fixpoint recover_targets (current : OutboxRecord) (own : bytes) (now delay : Z)
    (ts : list TargetRecord) (db : publication_db) : result OperationError publication_db :=
  match ts with
  | [] => Ok db
  | t :: ts =>
      let? db := recover_target current own now delay t db in
      recover_targets current own now delay ts db
  end.

Definition recover_expired (c : RecoveryCandidate) (now delay : Z) (db : publication_db) :
    result OperationError (bool * publication_db) :=
  let? current := read_outbox (id (candidate_outbox c)) db in
  let? current :=
    ok_or (filter_opt (λ r, bool_decide (r = candidate_outbox c)) current) OpLeaseLost in
  reject_if
    (negb (bool_decide (state current = Leased))
     || is_none_or (λ expires, now <? expires) (lease_expires current)) OpLeaseLost ;?
  let? own := ok_or (lease_owner current) OpInvariant in
  let? ts := read_targets (id current) db in
  validate_targets current ts ;?
  let? db := recover_targets current own now delay (submitted_targets ts) db in
  let? ts := read_targets (id current) db in
  let? d := disposition current ts in
  let? next := optional_i64 (d_next_attempt d) in
  let? now_value := i64_value now in
  let? rev := i64_value (revision current) in
  let? expires := ok_or (lease_expires current) OpInvariant in
  let? expires := i64_value expires in
  let? (rows, affected) :=
    exec (UPDATE_OUTBOX_RECOVERY_SQL (outbox_code (d_state d)) next now_value (id current) rev own
            expires now_value (outboxes db)) in
  reject_if (negb (affected =? 1)) OpLeaseLost ;?
  Ok (true, with_outboxes db rows).

Definition from_prepared (p : RhiPreparedPublicationAttempt) (finished : Z)
    (o : RhiPublicationAttemptOutcome) (delay : Z) :
    result RhiPublicationExecutionErrorKind RecordInput :=
  reject_if ((finished <? p_started_at p) || bool_decide (o = Submitted)) InvalidInput ;?
  let? evidence :=
    map_err (λ _, InvalidInput)
      (evidence_new (p_publication p) (ordinal (p_target p)) (t_attempt_count (p_target p))
         (p_started_at p) finished o) in
  reject_if (negb (bytes_eqb (evidence_id evidence) (p_attempt_id p))) Invariant ;?
  Ok (MkInput (p_lease p) (ordinal (p_target p)) (t_revision (p_target p))
        (t_attempt_count (p_target p)) (p_attempt_id p) (p_started_at p) finished o delay).

(** ** The repository methods *)

Definition map_transaction_error (e : tx_error OperationError) : RhiPublicationExecutionErrorKind :=
  if commit_outcome_unknown e then CommitOutcomeUnknown
  else
    match operation_error e with
    | Some OpInvalidInput => InvalidInput
    | Some OpNotReady => NotReady
    | Some OpLeaseLost => LeaseLost
    | Some OpInvariant => Invariant
    | Some OpStorage | None => StorageFailed
    end.

Section repository.
Context `{TransactionHost publication_db}.

(** [host().mode() == ReadWriteExisting] *)
Context (writable : bool).

Definition run {A} (op : publication_db → result OperationError (A * publication_db))
    (db : publication_db) : result RhiPublicationExecutionErrorKind A * publication_db :=
  let '(r, db) := transaction op db in (map_err map_transaction_error r, db).

Definition claim_next_publication (own : bytes) (now : Z)
    (authority : Authority.RhiPublicationAuthority) (db : publication_db) :
    result RhiPublicationExecutionErrorKind (option RhiPublicationLease) * publication_db :=
  if negb writable then (Err InvalidMode, db)
  else
    match from_authority authority with
    | None => (Ok None, db)
    | Some binding => run (claim_next own now binding) db
    end.

Definition prepare_next_publication_target (l : RhiPublicationLease) (started : Z)
    (db : publication_db) :
    result RhiPublicationExecutionErrorKind RhiPreparedPublicationAttempt * publication_db :=
  if negb writable then (Err InvalidMode, db) else run (prepare_next l started) db.

Definition record_publication_outcome (p : RhiPreparedPublicationAttempt) (finished : Z)
    (o : RhiPublicationAttemptOutcome) (delay : Z) (db : publication_db) :
    result RhiPublicationExecutionErrorKind RhiPublicationAttemptCommit * publication_db :=
  if negb writable then (Err InvalidMode, db)
  else
    match from_prepared p finished o delay with
    | Err e => (Err e, db)
    | Ok input => run (record_outcome input) db
    end.

(** ** Time, entropy and the remote sink *)

Context `{WallClock W, !EntropySource W}.

Definition publication_now (w : W) : result RhiPublicationExecutionErrorKind Z * W :=
  let '(value, w) := Adapters.now_utc_milliseconds w in
  (let? value := map_err (λ _, ClockUnavailable) value in
   map_err (λ _, ClockUnavailable) (publication_unix_milliseconds_new value), w).

Definition sample_retry_delay (cap : Z) (w : W) : result RhiPublicationExecutionErrorKind Z * W :=
  if cap =? 0 then (Ok 0, w)
  else
    match Adapters.jitter_bound_new cap with
    | Err _ => (Err InvalidInput, w)
    | Ok bound =>
        let '(r, w) := Adapters.sample_full_jitter bound w in
        (map_err (λ _, EntropyUnavailable) r, w)
    end.

Definition recover_one_expired_publication (now : Z) (authority : Authority.RhiPublicationAuthority)
    (db : publication_db) (w : W) :
    result RhiPublicationExecutionErrorKind bool * publication_db * W :=
  if negb writable then (Err InvalidMode, db, w)
  else
    match from_authority authority with
    | None => (Ok false, db, w)
    | Some binding =>
        match run (λ db, let? c := read_expired_candidate now binding db in Ok (c, db)) db with
        | (Err e, db) => (Err e, db, w)
        | (Ok None, db) => (Ok false, db, w)
        | (Ok (Some candidate), db) =>
            match sample_retry_delay (candidate_retry_upper_bound candidate) w with
            | (Err e, w) => (Err e, db, w)
            | (Ok delay, w) =>
                let '(r, db) := run (recover_expired candidate now delay) db in (r, db, w)
            end
        end
    end.

(** The part of [execute_next_publication] before the remote call. *)
Definition prepare_execution (own : bytes) (authority : Authority.RhiPublicationAuthority)
    (db : publication_db) (w : W) :
    result RhiPublicationExecutionErrorKind (option RhiPreparedPublicationAttempt)
    * publication_db * W :=
  match publication_now w with
  | (Err e, w) => (Err e, db, w)
  | (Ok now, w) =>
      match recover_one_expired_publication now authority db w with
      | (Err e, db, w) => (Err e, db, w)
      | (Ok _, db, w) =>
          match claim_next_publication own now authority db with
          | (Err e, db) => (Err e, db, w)
          | (Ok None, db) => (Ok None, db, w)
          | (Ok (Some lease), db) =>
              match prepare_next_publication_target lease now db with
              | (Err e, db) => (Err e, db, w)
              | (Ok prepared, db) => (Ok (Some prepared), db, w)
              end
          end
      end
  end.

(** The part after the remote call answered [answer]. *)
Definition finish_execution (prepared : RhiPreparedPublicationAttempt)
    (answer : RhiPublicationAttemptOutcome) (db : publication_db) (w : W) :
    result RhiPublicationExecutionErrorKind RhiPublicationAttemptCommit * publication_db * W :=
  let outcome := match answer with Submitted => Unknown | o => o end in
  match publication_now w with
  | (Err e, w) => (Err e, db, w)
  | (Ok finished, w) =>
      match
        if retryable_outcome outcome
        then sample_retry_delay
               (retry_upper_bound (lease_outbox (p_lease prepared))
                  (t_attempt_count (p_target prepared))) w
        else (Ok 0, w)
      with
      | (Err e, w) => (Err e, db, w)
      | (Ok delay, w) =>
          let '(r, db) := record_publication_outcome prepared finished outcome delay db in (r, db, w)
      end
  end.

(** [submit_exact] may take time and use the environment. *)
Definition execute_next_publication
    (submit_exact : RhiPreparedPublicationAttempt → W → RhiPublicationAttemptOutcome * W)
    (own : bytes) (authority : Authority.RhiPublicationAuthority) (db : publication_db) (w : W) :
    result RhiPublicationExecutionErrorKind (option RhiPublicationAttemptCommit)
    * publication_db * W :=
  match prepare_execution own authority db w with
  | (Err e, db, w) => (Err e, db, w)
  | (Ok None, db, w) => (Ok None, db, w)
  | (Ok (Some prepared), db, w) =>
      let '(answer, w) := submit_exact prepared w in
      match finish_execution prepared answer db w with
      | (Err e, db, w) => (Err e, db, w)
      | (Ok commit, db, w) => (Ok (Some commit), db, w)
      end
  end.

End repository.
End operations.

End Execution.
