(* ===== verification/PublicationViews.v ===== *)
(** * Views of publication state

    The lemmas that connect rows and records of [PublicationExecution]: what a
    decoded record says of its row and when decoding succeeds, point reads under
    unique keys, and how the statements act on the decoded targets of one outbox.
    They let the theorems of [PublicationSafety] speak about records. *)

From Stdlib Require Import ZArith Lia.
From stdpp Require Import list strings.
From S2P Require Import Prelude.
From S2P Require Import Sql.
From S2P Require Import Interfaces.
From S2P Require Import Publication.
From S2P Require Import PublicationState.
From S2P Require Import PublicationSubmission.
From S2P Require Import PublicationExecution.

Module Views.
Import PubState Submission Execution.

(** ** Columns *)

Lemma blob_Ok n col b : blob n col = Ok b ↔ col = b ∧ length b = n.
Proof. unfold blob, blob_of. rewrite ok_or_Ok, filter_opt_Some, Nat.eqb_eq. naive_solver. Qed.

Lemma pub_bounded_text_Ok n col s :
  bounded_text n col = Ok s ↔ col = s ∧ Z.of_nat (String.length col) ≤ n.
Proof.
  unfold bounded_text. rewrite and_then_Ok. split.
  - intros (u & Hu & [= ->]). apply reject_if_Ok in Hu. to_prop. done.
  - intros [-> Hn]. exists tt. split; [|done]. apply reject_if_Ok. apply Z.ltb_ge. done.
Qed.

Lemma bounded_u16_Ok v lo hi w :
  bounded_u16 v lo hi = Ok w ↔ v = w ∧ lo ≤ v ≤ hi ∧ 0 ≤ v ≤ U16_MAX.
Proof. unfold bounded_u16. rewrite ok_or_Ok, filter_opt_Some, try_from_Some, between_true. naive_solver. Qed.

Lemma bounded_u64_Ok v lo hi w :
  bounded_u64 v lo hi = Ok w ↔ v = w ∧ lo ≤ v ≤ hi ∧ 0 ≤ v ≤ U64_MAX.
Proof. unfold bounded_u64. rewrite ok_or_Ok, filter_opt_Some, try_from_Some, between_true. naive_solver. Qed.

Lemma pub_optional_millis_Ok col v :
  optional_millis col = Ok v ↔ col = v ∧ (∀ x, col = Some x → 0 ≤ x ≤ I64_MAX).
Proof.
  unfold optional_millis, MAX_UNIX_MILLISECONDS. destruct col as [x|]; [|naive_solver].
  rewrite and_then_Ok. setoid_rewrite ok_or_Ok. setoid_rewrite filter_opt_Some.
  setoid_rewrite try_from_Some. setoid_rewrite Z.leb_le. unfold_max. split.
  - intros (a & [[-> ?] ?] & [= <-]). split; [done|]. intros ? [= ->]. lia.
  - intros [<- Hx]. specialize (Hx x eq_refl). exists x. split_and!; done || lia.
Qed.

Definition nonzero_owner (b : bytes) : Prop := forallb (λ x, x =? 0) b = false.

Lemma pub_optional_owner_Ok col v :
  optional_owner col = Ok v ↔ col = v ∧ (∀ b, col = Some b → length b = 16%nat ∧ nonzero_owner b).
Proof.
  unfold optional_owner, LEASE_OWNER_BYTES, nonzero_owner, lease_owner_from_bytes.
  destruct col as [b|]; [|naive_solver]. destruct (Nat.eqb_spec (length b) 16) as [Hb|Hb]; simpl.
  - rewrite take_ge by lia. rewrite Hb; simpl. rewrite and_then_Ok. setoid_rewrite map_err_Ok.
    setoid_rewrite and_then_Ok. setoid_rewrite reject_if_Ok. naive_solver.
  - split; [done|]. intros [_ Hx]. by destruct (Hx b eq_refl).
Qed.

Lemma optional_attempt_id_Ok col v :
  optional_attempt_id col = Ok v ↔ col = v ∧ (∀ b, col = Some b → length b = 32%nat).
Proof.
  unfold optional_attempt_id. destruct col as [b|]; [|naive_solver].
  destruct (Nat.eqb_spec (length b) 32) as [Hb|Hb]; simpl.
  - rewrite take_ge by lia. rewrite Hb; simpl. naive_solver.
  - split; [done|]. intros [_ Hx]. by destruct (Hx b eq_refl).
Qed.

Ltac inv_columns :=
  repeat match goal with
  | H : blob _ _ = Ok _ |- _ => apply blob_Ok in H as [? ?]
  | H : bounded_text _ _ = Ok _ |- _ => apply pub_bounded_text_Ok in H as [? ?]
  | H : bounded_u16 _ _ _ = Ok _ |- _ => apply bounded_u16_Ok in H as (? & ? & ?)
  | H : bounded_u64 _ _ _ = Ok _ |- _ => apply bounded_u64_Ok in H as (? & ? & ?)
  | H : positive_u64 _ = Ok _ |- _ => apply bounded_u64_Ok in H as (? & ? & ?)
  | H : nonnegative_millis _ = Ok _ |- _ => apply bounded_u64_Ok in H as (? & ? & ?)
  | H : optional_millis _ = Ok _ |- _ => apply pub_optional_millis_Ok in H as [? ?]
  | H : optional_owner _ = Ok _ |- _ => apply pub_optional_owner_Ok in H as [? ?]
  | H : optional_attempt_id _ = Ok _ |- _ => apply optional_attempt_id_Ok in H as [? ?]
  end.

Lemma decode_outbox_state_Ok s st : decode_outbox_state s = Ok st ↔ s = outbox_code st.
Proof.
  unfold decode_outbox_state. split.
  - intros Hs. repeat case_match; simplify_eq; by apply String.eqb_eq.
  - intros ->. by destruct st.
Qed.

Lemma decode_target_state_Ok s st : decode_target_state s = Ok st ↔ s = target_code st.
Proof.
  unfold decode_target_state. split.
  - intros Hs. repeat case_match; simplify_eq; by apply String.eqb_eq.
  - intros ->. by destruct st.
Qed.

Lemma decode_attempt_outcome_Ok s o : decode_attempt_outcome s = Ok o ↔ s = outcome_code o.
Proof.
  unfold decode_attempt_outcome. split.
  - intros Hs. repeat case_match; simplify_eq; by apply String.eqb_eq.
  - intros ->. by destruct o.
Qed.

Lemma outbox_code_inj s t : outbox_code s = outbox_code t → s = t.
Proof. by destruct s, t. Qed.

Lemma outbox_code_length s : Z.of_nat (String.length (outbox_code s)) ≤ 8.
Proof. by destruct s. Qed.
Lemma target_code_length s : Z.of_nat (String.length (target_code s)) ≤ 13.
Proof. by destruct s. Qed.
Lemma outcome_code_length s : Z.of_nat (String.length (outcome_code s)) ≤ 13.
Proof. by destruct s. Qed.

(** ** Records and their rows *)

(** [outbox_view r o]: the row [r] holds the record [o]. *)
Record outbox_view (r : outbox_row) (o : OutboxRecord) : Prop := {
  ov_id : ob_outbox_id r = id o;
  ov_sha : ob_event_sha256 r = outbox_event_sha256 o;
  ov_authority : ob_authority_sha256 r = outbox_authority_sha256 o;
  ov_set : ob_target_set_sha256 r = outbox_target_set_sha256 o;
  ov_count : ob_target_count r = target_count o;
  ov_required : ob_required_target_count r = required_target_count o;
  ov_max : ob_max_attempts r = max_attempts o;
  ov_initial : ob_initial_backoff_ms r = initial_backoff_ms o;
  ov_maximum : ob_maximum_backoff_ms r = maximum_backoff_ms o;
  ov_deadline : ob_attempt_deadline_ms r = attempt_deadline_ms o;
  ov_state : ob_state r = outbox_code (state o);
  ov_revision : ob_revision r = revision o;
  ov_next : ob_next_attempt_unix_ms r = next_attempt o;
  ov_owner : ob_lease_owner r = lease_owner o;
  ov_expires : ob_lease_expires_unix_ms r = lease_expires o;
  ov_created : ob_created_at_unix_ms r = created_at o;
  ov_updated : ob_updated_at_unix_ms r = updated_at o;
}.

(** What decoding checks of a record. *)
Record outbox_ok (o : OutboxRecord) : Prop := {
  oo_id : length (id o) = 32%nat;
  oo_sha : length (outbox_event_sha256 o) = 32%nat;
  oo_authority : length (outbox_authority_sha256 o) = 32%nat;
  oo_set : length (outbox_target_set_sha256 o) = 32%nat;
  oo_count : 1 ≤ target_count o ≤ 32;
  oo_required : 0 ≤ required_target_count o ≤ target_count o;
  oo_max : 1 ≤ max_attempts o ≤ 100;
  oo_initial : 1 ≤ initial_backoff_ms o ≤ 60000;
  oo_maximum : initial_backoff_ms o ≤ maximum_backoff_ms o ≤ 3600000;
  oo_deadline : 100 ≤ attempt_deadline_ms o ≤ 30000;
  oo_shape : valid_outbox_shape (state o) (next_attempt o) (lease_owner o) (lease_expires o) = true;
  oo_revision : 1 ≤ revision o ≤ I64_MAX;
  oo_next : ∀ v, next_attempt o = Some v → 0 ≤ v ≤ I64_MAX;
  oo_owner : ∀ b, lease_owner o = Some b → length b = 16%nat ∧ nonzero_owner b;
  oo_expires : ∀ v, lease_expires o = Some v → 0 ≤ v ≤ I64_MAX;
  oo_created : 0 ≤ created_at o ≤ I64_MAX;
  oo_updated : 0 ≤ updated_at o ≤ I64_MAX;
}.

Lemma decode_outbox_Ok r o : decode_outbox r = Ok o ↔ outbox_view r o ∧ outbox_ok o.
Proof.
  unfold decode_outbox, RHI_PUBLICATION_ATTEMPT_NUMBER_MAXIMUM, MAX_UNIX_MILLISECONDS. split.
  - intros Hd. inv_ok. inv_columns. rewrite decode_outbox_state_Ok in *. to_prop. subst.
    split; split; simpl; try done; unfold_max; lia || naive_solver.
  - intros [[] []].
    repeat match goal with H : _ r = _ |- _ => rewrite H; clear H end.
    assert (∀ b n, length b = n → blob n b = Ok b) as Hblob by (intros; by apply blob_Ok).
    assert (∀ v lo hi, lo ≤ v ≤ hi → 0 ≤ v ≤ U16_MAX → bounded_u16 v lo hi = Ok v) as H16
      by (intros; by apply bounded_u16_Ok).
    assert (∀ v lo hi, lo ≤ v ≤ hi → 0 ≤ v ≤ U64_MAX → bounded_u64 v lo hi = Ok v) as H64
      by (intros; by apply bounded_u64_Ok).
    unfold positive_u64, nonnegative_millis, MAX_UNIX_MILLISECONDS.
    unfold_max.
    assert (∀ s, bounded_text 8 (outbox_code s) = Ok (outbox_code s)) as Htext
      by (intros; apply pub_bounded_text_Ok; split; [done|apply outbox_code_length]).
    repeat (first
      [ rewrite Hblob by done
      | rewrite Htext
      | rewrite (proj2 (decode_outbox_state_Ok _ (state o))) by done
      | rewrite H16 by lia | rewrite H64 by lia
      | rewrite (proj2 (pub_optional_millis_Ok _ _) (conj eq_refl oo_next0))
      | rewrite (proj2 (pub_optional_millis_Ok _ _) (conj eq_refl oo_expires0))
      | rewrite (proj2 (pub_optional_owner_Ok _ _) (conj eq_refl oo_owner0))
      | rewrite (proj2 (Z.ltb_ge _ _)) by lia
      | rewrite oo_shape0 ]; cbn [and_then reject_if negb]).
    by destruct o.
Qed.

Lemma outbox_view_inj r o o' : outbox_view r o → outbox_view r o' → o = o'.
Proof.
  intros [] []. destruct o, o'. simpl in *.
  repeat match goal with H : ?f r = _, H' : ?f r = _ |- _ => rewrite H in H'; clear H end.
  repeat match goal with H : outbox_code _ = _ |- _ => apply outbox_code_inj in H end.
  by subst.
Qed.

Record target_view (r : target_row) (t : TargetRecord) : Prop := {
  tv_ordinal : tg_target_ordinal r = ordinal t;
  tv_relay : tg_relay_id r = relay_id t;
  tv_required : tg_required r = if required t then 1 else 0;
  tv_state : tg_state r = target_code (t_state t);
  tv_revision : tg_revision r = t_revision t;
  tv_count : tg_attempt_count r = t_attempt_count t;
  tv_next : tg_next_attempt_unix_ms r = t_next_attempt t;
  tv_last : tg_last_attempt_id r = t_last_attempt_id t;
  tv_updated : tg_updated_at_unix_ms r = t_updated_at t;
}.

Record target_ok (t : TargetRecord) : Prop := {
  to_ordinal : 0 ≤ ordinal t ≤ 31;
  to_relay : Authority.valid_relay_id (relay_id t) = true;
  to_count : 0 ≤ t_attempt_count t ≤ 100;
  to_last : ∀ b, t_last_attempt_id t = Some b → length b = 32%nat;
  to_attempted : t_attempt_count t = 0 ↔ t_last_attempt_id t = None;
  to_revision : 1 ≤ t_revision t ≤ I64_MAX;
  to_next : ∀ v, t_next_attempt t = Some v → 0 ≤ v ≤ I64_MAX;
  to_updated : 0 ≤ t_updated_at t ≤ I64_MAX;
}.

Lemma relay_guard_valid s :
  Z.of_nat (String.length s) ≤ 64 →
  match as_bytes s with
  | [] => true
  | first :: _ => negb (forallb Authority.relay_id_byte (as_bytes s)
                        && Authority.is_ascii_lowercase first)
  end = negb (Authority.valid_relay_id s).
Proof.
  rewrite <- length_as_bytes. unfold Authority.valid_relay_id. intros Hl.
  destruct (as_bytes s) as [|b l] eqn:E; [done|]. apply Z.leb_le in Hl. rewrite Hl; simpl.
  by rewrite andb_comm.
Qed.

Lemma valid_relay_id_length s :
  Authority.valid_relay_id s = true → Z.of_nat (String.length s) ≤ 64.
Proof.
  rewrite <- length_as_bytes. unfold Authority.valid_relay_id.
  destruct (as_bytes s) as [|b l]; [done|]. intros. to_prop. done.
Qed.

Lemma decode_target_Ok r t : decode_target r = Ok t ↔ target_view r t ∧ target_ok t.
Proof.
  unfold decode_target, RHI_PUBLICATION_ATTEMPT_NUMBER_MAXIMUM,
    RHI_PUBLICATION_TARGET_ORDINAL_MAXIMUM, MAX_UNIX_MILLISECONDS. split.
  - intros Hd. inv_ok. inv_columns. rewrite decode_target_state_Ok in *. subst.
    match goal with H : match as_bytes _ with _ => _ end = false |- _ =>
      rewrite relay_guard_valid in H by done end.
    to_prop. rewrite eqb_true_iff in *. inv_int.
    split; split; simpl; try done; try (unfold_max; lia).
    + destruct (Z.eqb_spec (tg_required r) 0) as [Hr|]; [inv_ok; done|].
      destruct (Z.eqb_spec (tg_required r) 1) as [Hr|]; inv_ok; done.
    + rewrite <- Z.eqb_eq.
      match goal with H : (_ =? 0) = is_null _ |- _ => rewrite H end.
      by destruct (tg_last_attempt_id r).
  - intros [[] []].
    repeat match goal with H : _ r = _ |- _ => rewrite H; clear H end.
    assert (∀ v lo hi, lo ≤ v ≤ hi → 0 ≤ v ≤ U16_MAX → bounded_u16 v lo hi = Ok v) as H16
      by (intros; by apply bounded_u16_Ok).
    assert (∀ v lo hi, lo ≤ v ≤ hi → 0 ≤ v ≤ U64_MAX → bounded_u64 v lo hi = Ok v) as H64
      by (intros; by apply bounded_u64_Ok).
    unfold positive_u64, nonnegative_millis, MAX_UNIX_MILLISECONDS. unfold_max.
    assert (∀ s, bounded_text 13 (target_code s) = Ok (target_code s)) as Htext
      by (intros; apply pub_bounded_text_Ok; split; [done|apply target_code_length]).
    pose proof (valid_relay_id_length _ to_relay0) as Hrl.
    assert ((if (if required t then 1 else 0) =? 0 then Ok false
             else if (if required t then 1 else 0) =? 1 then Ok true else Err OpInvariant)
            = Ok (E := OperationError) (required t)) as Hreq by by destruct (required t).
    assert (eqb (t_attempt_count t =? 0) (is_null (t_last_attempt_id t)) = true) as Hatt.
    { apply eqb_true_iff. destruct (Z.eqb_spec (t_attempt_count t) 0) as [E|E].
      - apply to_attempted0 in E. by rewrite E.
      - destruct (t_last_attempt_id t); [done|]. exfalso. apply E. by apply to_attempted0. }
    repeat (first
      [ rewrite H16 by lia | rewrite H64 by lia
      | rewrite (proj2 (pub_bounded_text_Ok 64 _ _) (conj eq_refl Hrl))
      | rewrite relay_guard_valid by done; rewrite to_relay0
      | rewrite Hreq | rewrite Htext | rewrite Hatt
      | rewrite (proj2 (decode_target_state_Ok _ (t_state t))) by done
      | rewrite (proj2 (pub_optional_millis_Ok _ _) (conj eq_refl to_next0))
      | rewrite (proj2 (optional_attempt_id_Ok _ _) (conj eq_refl to_last0)) ];
      cbn [and_then reject_if negb]).
    by destruct t.
Qed.

Record attempt_view (r : attempt_row) (a : AttemptRecord) : Prop := {
  av_id : at_attempt_id r = a_attempt_id a;
  av_outbox : at_outbox_id r = a_outbox_id a;
  av_ordinal : at_target_ordinal r = a_target_ordinal a;
  av_number : at_attempt_number r = a_attempt_number a;
  av_sha : at_event_sha256 r = a_event_sha256 a;
  av_owner : at_lease_owner r = a_lease_owner a;
  av_started : at_started_at_unix_ms r = a_started_at a;
  av_finished : at_finished_at_unix_ms r = a_finished_at a;
  av_outcome : at_outcome r = outcome_code (a_outcome a);
  av_code : at_result_code r = outcome_code (a_outcome a);
}.

Lemma decode_attempt_view r a : decode_attempt r = Ok a → attempt_view r a.
Proof.
  unfold decode_attempt. intros Hd. inv_ok. inv_columns. rewrite decode_attempt_outcome_Ok in *.
  to_prop. subst. match goal with H : String.eqb _ _ = true |- _ => apply String.eqb_eq in H end.
  split; simpl; done.
Qed.

(** A row that keeps its table's constraints and whose two codes agree decodes. *)
Lemma decode_attempt_intro r a :
  attempt_view r a → row_check r = true → decode_attempt r = Ok a.
Proof.
  intros [] Hc. simpl in Hc. unfold blob_of in Hc. to_prop. inv_int.
  repeat match goal with H : (_ =? _)%nat = true |- _ => apply Nat.eqb_eq in H end.
  unfold decode_attempt.
  repeat match goal with H : _ r = _ |- _ => rewrite H in *; clear H end.
  assert (∀ s, bounded_text 13 (outcome_code s) = Ok (outcome_code s)) as Htext
    by (intros; apply pub_bounded_text_Ok; split; [done|apply outcome_code_length]).
  assert (∀ s, bounded_text 64 (outcome_code s) = Ok (outcome_code s)) as Htext'
    by (intros s; apply pub_bounded_text_Ok; pose proof (outcome_code_length s); split; [done|lia]).
  assert (∀ b n, length b = n → blob n b = Ok b) as Hblob by (intros; by apply blob_Ok).
  assert (∀ v lo hi, lo ≤ v ≤ hi → 0 ≤ v ≤ U16_MAX → bounded_u16 v lo hi = Ok v) as H16
    by (intros; by apply bounded_u16_Ok).
  assert (∀ v lo hi, lo ≤ v ≤ hi → 0 ≤ v ≤ U64_MAX → bounded_u64 v lo hi = Ok v) as H64
    by (intros; by apply bounded_u64_Ok).
  unfold nonnegative_millis, MAX_UNIX_MILLISECONDS. unfold_max.
  repeat (first
    [ rewrite Htext | rewrite Htext' | rewrite (proj2 (decode_attempt_outcome_Ok _ (a_outcome a))) by done
    | rewrite String.eqb_refl | rewrite Hblob by done | rewrite H16 by lia | rewrite H64 by lia ];
    cbn [and_then reject_if negb]).
  by destruct a.
Qed.

(** ** Constraints give well-formed records *)

Lemma target_check_ok r t : row_check r = true → target_view r t → target_ok t.
Proof.
  intros Hc []. simpl in Hc. unfold target_check, blob_of, check_passes, sql_between in Hc. to_prop.
  repeat match goal with H : _ r = _ |- _ => rewrite H in *; clear H end. inv_int.
  match goal with H : eqb _ _ = true |- _ => apply eqb_prop in H; rename H into Hatt end.
  split; try done.
  - intros b Hb. rewrite Hb in *; simpl in *.
    match goal with H : Some (length b =? 32)%nat ≠ _ |- _ =>
      destruct (Nat.eqb_spec (length b) 32); [done|by destruct H] end.
  - rewrite <- Z.eqb_eq, Hatt. by destruct (t_last_attempt_id t).
  - intros v Hv. rewrite Hv in *; simpl in *.
    match goal with H : Some (between 0 I64_MAX v) ≠ _ |- _ =>
      destruct (between 0 I64_MAX v) eqn:E; [by apply between_true|by destruct H] end.
Qed.

Lemma one_of_true l s : one_of l s = true ↔ s ∈ l.
Proof.
  unfold one_of. rewrite existsb_exists, list_elem_of_In. split.
  - intros (x & Hx & ->%String.eqb_eq). done.
  - intros Hs. exists s. split; [done|apply String.eqb_refl].
Qed.

Lemma target_state_valid s : one_of target_states s = true → ∃ st, s = target_code st.
Proof.
  rewrite one_of_true. unfold target_states. intros Hs. rewrite !elem_of_cons, elem_of_nil in Hs.
  repeat destruct Hs as [Hs|Hs]; try done; subst;
    first [by exists TPending | by exists TSubmitted | by exists TAccepted | by exists TRejected
          | by exists TRateLimited | by exists TAuthRequired | by exists TFailed | by exists TUnknown].
Qed.

(** The target table's constraints are strong enough for every row to decode. *)
Lemma decode_target_total r :
  row_check r = true → ∃ t, decode_target r = Ok t ∧ target_view r t.
Proof.
  intros Hc. pose proof Hc as Hc'. simpl in Hc'. unfold target_check in Hc'. to_prop.
  match goal with H : one_of _ _ = true |- _ => apply target_state_valid in H as [st Hst] end.
  set (t := MkTargetRecord (tg_target_ordinal r) (tg_relay_id r) (tg_required r =? 1) st
              (tg_revision r) (tg_attempt_count r) (tg_next_attempt_unix_ms r)
              (tg_last_attempt_id r) (tg_updated_at_unix_ms r)).
  assert (target_view r t) as Hv.
  { split; simpl; try done. match goal with H : _ || _ = true |- _ => apply orb_true_iff in H as [->%Z.eqb_eq| ->%Z.eqb_eq] end;
      done. }
  exists t. split; [|done]. apply decode_target_Ok. split; [done|]. by eapply target_check_ok.
Qed.

Definition live_owner (r : outbox_row) : Prop := ∀ b, ob_lease_owner r = Some b → nonzero_owner b.

Lemma outbox_state_valid s :
  one_of ["pending"; "leased"; "complete"; "blocked"] s = true → ∃ st, s = outbox_code st.
Proof.
  rewrite one_of_true. intros Hs. rewrite !elem_of_cons, elem_of_nil in Hs. repeat destruct Hs as [Hs|Hs]; try done; subst;
    first [by exists Pending | by exists Leased | by exists Complete | by exists Blocked].
Qed.

Lemma outbox_check_shape r st :
  row_check r = true → ob_state r = outbox_code st →
  valid_outbox_shape st (ob_next_attempt_unix_ms r) (ob_lease_owner r) (ob_lease_expires_unix_ms r)
    = true ∧
  (∀ v, ob_next_attempt_unix_ms r = Some v → 0 ≤ v ≤ I64_MAX) ∧
  (∀ v, ob_lease_expires_unix_ms r = Some v → 0 ≤ v ≤ I64_MAX) ∧
  (∀ b, ob_lease_owner r = Some b → length b = 16%nat).
Proof.
  simpl. unfold outbox_shape_check, blob_of. intros Hc Hst. to_prop. rewrite Hst in *.
  destruct (ob_next_attempt_unix_ms r) as [n|], (ob_lease_owner r) as [b|],
    (ob_lease_expires_unix_ms r) as [e|], st; simpl in *; try discriminate;
    rewrite ?orb_false_r, ?andb_true_r in *; to_prop; inv_int;
    repeat match goal with H : (_ =? _)%nat = true |- _ => apply Nat.eqb_eq in H end;
    split_and!; try done; try (apply Z.ltb_lt; lia); intros ? [= <-]; done || lia.
Qed.

Lemma decode_outbox_total r :
  row_check r = true → live_owner r → ∃ o, decode_outbox r = Ok o ∧ outbox_view r o.
Proof.
  intros Hc Hown. pose proof Hc as Hc'. simpl in Hc'. unfold outbox_columns_check, blob_of in Hc'.
  to_prop.
  match goal with H : one_of _ _ = true |- _ => apply outbox_state_valid in H as [st Hst] end.
  destruct (outbox_check_shape r st Hc Hst) as (Hs & Hn & He & Ho).
  set (o := MkOutbox (ob_outbox_id r) (ob_event_sha256 r) (ob_authority_sha256 r)
              (ob_target_set_sha256 r) (ob_target_count r) (ob_required_target_count r)
              (ob_max_attempts r) (ob_initial_backoff_ms r) (ob_maximum_backoff_ms r)
              (ob_attempt_deadline_ms r) st (ob_revision r) (ob_next_attempt_unix_ms r)
              (ob_lease_owner r) (ob_lease_expires_unix_ms r) (ob_created_at_unix_ms r)
              (ob_updated_at_unix_ms r)).
  assert (outbox_view r o) as Hv by (by split).
  exists o. split; [|done]. apply decode_outbox_Ok. split; [done|]. inv_int.
  repeat match goal with H : (_ =? _)%nat = true |- _ => apply Nat.eqb_eq in H end.
  split; simpl; try done; try lia. intros b Hb. split; [by apply Ho|by apply Hown].
Qed.

(** ** Point reads *)

Lemma one_row `{Table row} {B} (k : row → bytes) (decode : row → result OperationError B) rows r :
  rows_ok rows = true → (∀ x y, k x = k y → row_conflict x y = true) → r ∈ rows →
  (let? row := exactly_zero_or_one (take 2 (List.filter (λ x, bytes_eqb (k x) (k r)) rows)) in
   decode_optional decode row) = let? b := decode r in Ok (Some b).
Proof. intros Hok Hk Hr. by rewrite (filter_key_unique k) by done. Qed.

Lemma no_row {row B} (k : row → bytes) (decode : row → result OperationError B) rows i :
  (∀ r, r ∈ rows → k r ≠ i) →
  (let? row := exactly_zero_or_one (take 2 (List.filter (λ x, bytes_eqb (k x) i) rows)) in
   decode_optional decode row) = Ok None.
Proof.
  intros Hn. assert (List.filter (λ x, bytes_eqb (k x) i) rows = []) as ->; [|done].
  induction rows as [|r rows IH]; simpl; [done|].
  destruct (bytes_eqb (k r) i) eqn:E; [exfalso; apply bytes_eqb_true in E; eapply Hn; [by left|done]|].
  apply IH. intros r' Hr'. apply Hn. by right.
Qed.

Lemma outbox_key (x y : outbox_row) : ob_outbox_id x = ob_outbox_id y → row_conflict x y = true.
Proof. simpl. intros ->. by rewrite bytes_eqb_refl. Qed.

Lemma attempt_key (x y : attempt_row) : at_attempt_id x = at_attempt_id y → row_conflict x y = true.
Proof. simpl. intros ->. by rewrite bytes_eqb_refl. Qed.

Lemma read_outbox_row db r :
  rows_ok (outboxes db) = true → r ∈ outboxes db →
  read_outbox (ob_outbox_id r) db = let? o := decode_outbox r in Ok (Some o).
Proof. intros Hok Hr. by apply (one_row ob_outbox_id); [|apply outbox_key|]. Qed.

Lemma read_outbox_Ok i db o :
  read_outbox i db = Ok (Some o) →
  ∃ r, r ∈ outboxes db ∧ ob_outbox_id r = i ∧ outbox_view r o ∧ outbox_ok o ∧ id o = i.
Proof.
  unfold read_outbox, READ_OUTBOX_SQL. intros Hr. bind Hr as row Hrow.
  destruct row as [r|]; [|done]. simpl in Hr. inv_ok. apply decode_outbox_Ok in H as [Hv Hok].
  destruct (take 2 _) as [|r' [|]] eqn:E; [done| |done]. injection Hrow as ->.
  assert (In r (List.filter (λ r, bytes_eqb (ob_outbox_id r) i) (outboxes db))) as Hin.
  { rewrite <- (take_drop 2 (List.filter _ _)). apply in_or_app. left. rewrite E. by left. }
  apply filter_In in Hin as [Hin Hid%bytes_eqb_true]. apply list_elem_of_In in Hin.
  exists r. split_and!; try done. rewrite <- Hid. symmetry. apply Hv.
Qed.

Lemma read_attempt_row db r :
  rows_ok (attempts db) = true → r ∈ attempts db →
  read_attempt (at_attempt_id r) db = let? a := decode_attempt r in Ok (Some a).
Proof. intros Hok Hr. by apply (one_row at_attempt_id); [|apply attempt_key|]. Qed.

Lemma read_attempt_None i db :
  rows_ok (attempts db) = true →
  read_attempt i db = Ok None ↔ ∀ r, r ∈ attempts db → at_attempt_id r ≠ i.
Proof.
  intros Hok. split; [|apply (no_row at_attempt_id)].
  intros Hn r Hr <-. rewrite (read_attempt_row db r Hok Hr) in Hn. by inv_ok.
Qed.

(** ** Updates, seen through reads *)

Lemma tables_ok_split db :
  tables_ok db = true ↔ rows_ok (events db) = true ∧ rows_ok (outboxes db) = true ∧
    rows_ok (targets db) = true ∧ rows_ok (attempts db) = true.
Proof. unfold tables_ok. rewrite !andb_true_iff. tauto. Qed.

(** [affected = 1] means that some row matched. *)
Lemma some_row_affected {row} (p : row → bool) rows :
  Z.of_nat (length (List.filter p rows)) = 1 → ∃ r, r ∈ rows ∧ p r = true.
Proof.
  destruct (List.filter p rows) as [|r l] eqn:E; simpl; [lia|]. intros _. exists r.
  assert (In r (List.filter p rows)) as Hin by (rewrite E; by left).
  apply filter_In in Hin as [? ?]. by rewrite list_elem_of_In.
Qed.

(** An outbox update of one identity: what it leaves in place and what it writes. *)
Lemma update_outboxes_view db p f rows n i o :
  tables_ok db = true → update_rows p f (outboxes db) = Ok (rows, n) → n = 1 →
  (∀ r, p r = true → ob_outbox_id r = i) → (∀ r, ob_outbox_id (f r) = ob_outbox_id r) →
  (∀ r, r ∈ outboxes db → p r = true → outbox_view (f r) o ∧ live_owner (f r)) →
  let db' := with_outboxes db rows in
  tables_ok db' = true ∧ read_outbox i db' = Ok (Some o) ∧ outbox_ok o ∧
  (∀ j, j ≠ i → read_outbox j db' = read_outbox j db) ∧
  ∃ r, r ∈ outboxes db ∧ p r = true.
Proof.
  intros Hok Hup -> Hp Hid Hview db'. apply tables_ok_split in Hok as (He & Ho & Ht & Ha).
  pose proof (update_rows_ok outbox_conflict_sym _ _ _ _ _ Ho Hup) as Ho'.
  apply update_rows_Ok in Hup as (-> & Hn & Hall).
  destruct (some_row_affected _ _ (eq_sym Hn)) as (r & Hr & Hpr).
  destruct (Hview r Hr Hpr) as [Hv Hlive].
  assert (f r ∈ outboxes db') as Hin.
  { simpl. apply list_elem_of_In, in_map_iff. exists r. rewrite <- list_elem_of_In.
    unfold apply_where. by rewrite Hpr. }
  destruct (decode_outbox_total (f r)) as (o' & Hd & Hv').
  { by apply (rows_ok_check (outboxes db')). }
  { done. }
  assert (o' = o) as ->.
  { by eapply outbox_view_inj. }
  split_and!.
  - apply tables_ok_split. by split_and!.
  - rewrite <- (Hp r Hpr), <- (Hid r). rewrite (read_outbox_row db' (f r)); [by rewrite Hd|done|done].
  - by apply decode_outbox_Ok in Hd as [_ ?].
  - intros j Hj. unfold read_outbox, READ_OUTBOX_SQL; simpl.
    rewrite filter_map_same.
    + rewrite map_id_on; [done|]. intros x Hx. apply list_elem_of_In, filter_In in Hx as [_ Hx].
      apply bytes_eqb_true in Hx. unfold apply_where. destruct (p x) eqn:E; [|done].
      apply Hp in E. congruence.
    + intros x _. unfold apply_where. destruct (p x); by rewrite ?Hid.
  - by exists r.
Qed.

(** A target update of one outbox acts on its decoded records. *)
Lemma update_targets_view db p f rows n i q g ts :
  tables_ok db = true → update_rows p f (targets db) = Ok (rows, n) → n = 1 →
  (∀ r, p r = true → tg_outbox_id r = i) →
  (∀ r, tg_outbox_id (f r) = tg_outbox_id r ∧ tg_target_ordinal (f r) = tg_target_ordinal r) →
  (∀ r t, tg_outbox_id r = i → target_view r t → p r = q t ∧ (p r = true → target_view (f r) (g t))) →
  read_targets i db = Ok ts →
  let db' := with_targets db rows in
  tables_ok db' = true ∧ read_targets i db' = Ok (map (λ t, if q t then g t else t) ts) ∧
  (∀ j, j ≠ i → read_targets j db' = read_targets j db) ∧
  ∃ r, r ∈ targets db ∧ p r = true ∧ row_guard r (f r) = true ∧ row_check (f r) = true.
Proof.
  intros Hok Hup -> Hp Hf Hq Hts db'. apply tables_ok_split in Hok as (He & Ho & Ht & Ha).
  pose proof (update_rows_ok target_conflict_sym _ _ _ _ _ Ht Hup) as Ht'.
  apply update_rows_Ok in Hup as (-> & Hn & Hall).
  assert (∀ r, tg_outbox_id (apply_where p f r) = tg_outbox_id r ∧
               tg_target_ordinal (apply_where p f r) = tg_target_ordinal r) as Hw.
  { intros r. unfold apply_where. destruct (p r); [apply Hf|done]. }
  assert (∀ j, READ_TARGETS_SQL j (map (apply_where p f) (targets db))
               = map (apply_where p f) (READ_TARGETS_SQL j (targets db))) as Hsql.
  { intros j. unfold READ_TARGETS_SQL. rewrite filter_map_same.
    - rewrite sort_by_map; [by rewrite firstn_map|]. intros x y. unfold target_order, cmp_on.
      by rewrite (proj2 (Hw x)), (proj2 (Hw y)).
    - intros x _. by rewrite (proj1 (Hw x)). }
  assert (∀ j r, r ∈ READ_TARGETS_SQL j (targets db) → r ∈ targets db ∧ tg_outbox_id r = j) as Hin.
  { intros j r Hr. apply elem_of_take in Hr as (k & Hk & _). apply list_elem_of_lookup_2 in Hk.
    rewrite sort_by_perm in Hk. apply list_elem_of_In, filter_In in Hk as [Hk Hj].
    split; [by apply list_elem_of_In|by apply bytes_eqb_true]. }
  split_and!.
  - apply tables_ok_split. by split_and!.
  - unfold read_targets; simpl. rewrite Hsql. eapply collect_map; [|exact Hts].
    intros r t Hr Hd. destruct (Hin i r Hr) as [Hrt Hri].
    apply decode_target_Ok in Hd as [Hv Htok]. destruct (Hq r t Hri Hv) as [Hpq Hg].
    unfold apply_where. destruct (p r) eqn:E; rewrite <- Hpq.
    + destruct (Hg eq_refl). apply decode_target_Ok. split; [by apply Hg|].
      eapply target_check_ok; [|by apply Hg].
      by apply (elem_of_Forall _ _ _ Hall Hrt).
    + by apply decode_target_Ok.
  - intros j Hj. unfold read_targets; simpl. rewrite Hsql. f_equal. apply map_id_on.
    intros r Hr. destruct (Hin j r Hr) as [_ Hrj]. unfold apply_where.
    destruct (p r) eqn:E; [|done]. apply Hp in E. congruence.
  - destruct (some_row_affected _ _ (eq_sym Hn)) as (r & Hr & Hpr). exists r.
    pose proof (elem_of_Forall _ _ _ Hall Hr Hpr) as [? ?]. by split_and!.
Qed.

End Views.
