(* ===== verification/PublicationRefine.v ===== *)
(** * What each publication operation does to one outbox

    The abstract specification of the executor: an outbox record with its target
    records, and the pure updates [claim_record], [submit_record], [settle_record]
    and [close_record].  The lemmas show that every operation that succeeds acts
    on the decoded view of its outbox exactly by these updates and leaves every
    other outbox, event and recorded attempt alone. *)

From Stdlib Require Import ZArith Lia.
From stdpp Require Import list strings.
From S2P Require Import Prelude.
From S2P Require Import Sql.
From S2P Require Import Interfaces.
From S2P Require Import Publication.
From S2P Require Import PublicationState.
From S2P Require Import PublicationSubmission.
From S2P Require Import PublicationExecution.
From S2P Require Import PublicationViews.

Module Refine.
Import PubState Submission Execution Views.

(** ** The abstract updates *)

Definition claim_record (own : bytes) (expires now : Z) (o : OutboxRecord) : OutboxRecord :=
  MkOutbox (id o) (outbox_event_sha256 o) (outbox_authority_sha256 o) (outbox_target_set_sha256 o)
    (target_count o) (required_target_count o) (max_attempts o) (initial_backoff_ms o)
    (maximum_backoff_ms o) (attempt_deadline_ms o) Leased (revision o + 1) None (Some own)
    (Some expires) (created_at o) now.

Definition close_record (d : OutboxDisposition) (now : Z) (o : OutboxRecord) : OutboxRecord :=
  MkOutbox (id o) (outbox_event_sha256 o) (outbox_authority_sha256 o) (outbox_target_set_sha256 o)
    (target_count o) (required_target_count o) (max_attempts o) (initial_backoff_ms o)
    (maximum_backoff_ms o) (attempt_deadline_ms o) (d_state d) (revision o + 1) (d_next_attempt d)
    None None (created_at o) now.

Definition submit_record (attempt : bytes) (now : Z) (t : TargetRecord) : TargetRecord :=
  MkTargetRecord (ordinal t) (relay_id t) (required t) TSubmitted (t_revision t + 1)
    (t_attempt_count t + 1) None (Some attempt) now.

Definition settle_record (st : RhiPublicationTargetState) (next : option Z) (now : Z)
    (t : TargetRecord) : TargetRecord :=
  MkTargetRecord (ordinal t) (relay_id t) (required t) st (t_revision t + 1) (t_attempt_count t)
    next (t_last_attempt_id t) now.

(** Updates the target with ordinal [k]. *)
Definition at_ordinal (k : Z) (g : TargetRecord → TargetRecord) (t : TargetRecord) : TargetRecord :=
  if ordinal t =? k then g t else t.

(** ** Pure facts *)

Lemma target_key_facts `{Sha256} o ts :
  validate_targets o ts = Ok tt →
  Z.of_nat (length ts) = target_count o ∧ Z.of_nat (length ts) ≤ 32 ∧
  (∀ i t, ts !! i = Some t → ordinal t = Z.of_nat i) ∧
  Z.of_nat (length (List.filter required ts)) = required_target_count o ∧
  NoDup (map relay_id ts) ∧
  sha256 (TARGET_SET_DOMAIN ++ to_be_bytes 4 (target_count o) ++ concat (map target_digest_part ts))
    = outbox_target_set_sha256 o.
Proof.
  unfold validate_targets, RHI_PUBLICATION_TARGET_ORDINAL_MAXIMUM. intros Hv.
  bind Hv as u1 H1. bind Hv as u2 H2. bind Hv as us Hus. apply reject_if_Ok in H1, H2, Hv.
  to_prop. apply bytes_eqb_true in Hv. split_and!; try done; try lia.
  - intros i t Hi.
    match goal with H : forallb _ _ = true |- _ => rewrite forallb_forall in H; rename H into Hz end.
    assert (In (i, t) (zip (seq 0 (length ts)) ts)) as Hin.
    { apply list_elem_of_In, list_elem_of_lookup. exists i. apply lookup_zip_with_Some.
      exists i, t. split_and!; [done| |done]. apply lookup_seq. split; [done|].
      by apply lookup_lt_Some in Hi. }
    apply Hz in Hin. simpl in Hin. by apply Z.eqb_eq in Hin.
  - clear -H2. induction ts as [|t ts IH]; simpl in *; [constructor|].
    apply orb_false_iff in H2 as [Hx Hr]. constructor; [|by apply IH].
    rewrite list_elem_of_fmap. intros (o & Ho & Hin). apply list_elem_of_In in Hin.
    assert (existsb (λ o, String.eqb (relay_id o) (relay_id t)) ts = true) as Hc;
      [|by rewrite Hc in Hx].
    apply existsb_exists. exists o. split; [done|]. by apply String.eqb_eq.
Qed.

(** [validate_targets] reads only the inventory part of targets and outbox. *)
Lemma repeated_relay_map g ts :
  (∀ t, relay_id (g t) = relay_id t) → repeated_relay (map g ts) = repeated_relay ts.
Proof.
  intros Hg. induction ts as [|t ts IH]; simpl; [done|]. rewrite IH, Hg. f_equal.
  clear IH. induction ts as [|u ts IH]; simpl; [done|]. by rewrite Hg, IH.
Qed.

Lemma collect_compose {E A B} (f : A → result E B) (g : A → A) l :
  (∀ x, f (g x) = f x) → collect f (map g l) = collect f l.
Proof. intros Hg. induction l as [|x l IH]; simpl; [done|]. by rewrite Hg, IH. Qed.

Lemma validate_targets_map `{Sha256} o o' g ts :
  (∀ t, ordinal (g t) = ordinal t ∧ relay_id (g t) = relay_id t ∧ required (g t) = required t) →
  target_count o' = target_count o → required_target_count o' = required_target_count o →
  outbox_target_set_sha256 o' = outbox_target_set_sha256 o →
  validate_targets o' (map g ts) = validate_targets o ts.
Proof.
  intros Hg Hc Hr Hs. unfold validate_targets. rewrite Hc, Hr, Hs, length_map.
  assert (forallb (λ p, ordinal p.2 =? Z.of_nat p.1) (zip (seq 0 (length ts)) (map g ts))
          = forallb (λ p, ordinal p.2 =? Z.of_nat p.1) (zip (seq 0 (length ts)) ts)) as ->.
  { generalize 0%nat. induction ts as [|t ts IH]; intros n; simpl; [done|].
    by rewrite IH, (proj1 (Hg t)). }
  rewrite (filter_map_same required) by (intros t _; apply Hg). rewrite length_map.
  rewrite repeated_relay_map by apply Hg.
  rewrite (collect_compose _ g) by (intros t; by destruct (Hg t) as (_ & -> & _)).
  rewrite map_map. assert (map (λ t, target_digest_part (g t)) ts = map target_digest_part ts) as ->;
    [|done].
  apply map_ext. intros t. unfold target_digest_part. by destruct (Hg t) as (-> & -> & ->).
Qed.

Lemma at_ordinal_keys k g :
  (∀ t, ordinal (g t) = ordinal t ∧ relay_id (g t) = relay_id t ∧ required (g t) = required t) →
  ∀ t, ordinal (at_ordinal k g t) = ordinal t ∧ relay_id (at_ordinal k g t) = relay_id t ∧
       required (at_ordinal k g t) = required t.
Proof. intros Hg t. unfold at_ordinal. by destruct (_ =? _). Qed.

Lemma ordinal_unique `{Sha256} o ts t u :
  validate_targets o ts = Ok tt → t ∈ ts → u ∈ ts → ordinal t = ordinal u → t = u.
Proof.
  intros (_ & _ & Hord & _)%target_key_facts [i Hi]%list_elem_of_lookup [j Hj]%list_elem_of_lookup.
  rewrite (Hord i t Hi), (Hord j u Hj). intros E. apply Nat2Z.inj in E. congruence.
Qed.

(** ** Reads of targets *)

Lemma read_targets_rows i db ts t :
  read_targets i db = Ok ts → t ∈ ts →
  ∃ r, r ∈ targets db ∧ tg_outbox_id r = i ∧ target_view r t ∧ target_ok t.
Proof.
  unfold read_targets. rewrite collect_Ok. intros Hall Ht.
  apply list_elem_of_lookup in Ht as [n Hn].
  destruct (Forall2_lookup_r _ _ _ _ _ Hall Hn) as (r & Hr & Hd).
  apply list_elem_of_lookup_2 in Hr. apply elem_of_take in Hr as (k & Hk & _).
  apply list_elem_of_lookup_2 in Hk. rewrite sort_by_perm in Hk.
  apply list_elem_of_In, filter_In in Hk as [Hk Hi]. apply decode_target_Ok in Hd as [Hv Hok].
  exists r. split_and!; try done; [by apply list_elem_of_In|by apply bytes_eqb_true].
Qed.

Lemma target_rows_unique db r s :
  rows_ok (targets db) = true → r ∈ targets db → s ∈ targets db →
  tg_outbox_id r = tg_outbox_id s → tg_target_ordinal r = tg_target_ordinal s → r = s.
Proof.
  intros Hok Hr Hs Hi Ho. apply (rows_ok_unique (targets db)); try done.
  - apply target_conflict_sym.
  - simpl. by rewrite Hi, Ho, bytes_eqb_refl, Z.eqb_refl.
Qed.

(** An update of the single target with [t]'s ordinal. *)
Lemma update_one_target `{Sha256} db p f rows n i q g o ts t :
  tables_ok db = true → update_rows p f (targets db) = Ok (rows, n) → n = 1 →
  validate_targets o ts = Ok tt → read_targets i db = Ok ts → t ∈ ts →
  (∀ r, p r = true → tg_outbox_id r = i ∧ tg_target_ordinal r = ordinal t) →
  (∀ r, tg_outbox_id (f r) = tg_outbox_id r ∧ tg_target_ordinal (f r) = tg_target_ordinal r) →
  (∀ r u, tg_outbox_id r = i → target_view r u → p r = q u ∧ (p r = true → target_view (f r) (g u))) →
  let db' := with_targets db rows in
  tables_ok db' = true ∧ read_targets i db' = Ok (map (at_ordinal (ordinal t) g) ts) ∧
  (∀ j, j ≠ i → read_targets j db' = read_targets j db) ∧
  q t = true ∧ ∃ r, r ∈ targets db ∧ tg_outbox_id r = i ∧ target_view r t ∧ p r = true ∧
    row_guard r (f r) = true ∧ target_ok (g t).
Proof.
  intros Hok Hup Hn Hv Hts Ht Hp Hf Hq db'.
  destruct (update_targets_view db p f rows n i q g ts Hok Hup Hn) as
    (Hok' & Hts' & Hother & r & Hr & Hpr & Hg & Hc); [intros r Hr; by apply Hp|done..|].
  destruct (read_targets_rows _ _ _ _ Hts Ht) as (rt & Hrt & Hi & Hvt & _).
  destruct (Hp r Hpr) as [Hri Hro]. apply tables_ok_split in Hok as (_ & _ & Htab & _).
  assert (r = rt) as ->.
  { apply (target_rows_unique db); try done; [congruence|]. rewrite Hro. symmetry. apply Hvt. }
  destruct (Hq rt t Hi Hvt) as [Hpq Hgv]. specialize (Hgv Hpr).
  split_and!; try done.
  - etrans; [exact Hts'|]. f_equal. apply map_ext_in. intros u Hu%list_elem_of_In. unfold at_ordinal.
    destruct (read_targets_rows _ _ _ _ Hts Hu) as (ru & Hru & Hiu & Hvu & _).
    destruct (Hq ru u Hiu Hvu) as [Hpu _]. rewrite <- Hpu.
    destruct (Z.eqb_spec (ordinal u) (ordinal t)) as [E|E].
    + assert (u = t) as -> by (by apply (ordinal_unique o ts)).
      assert (ru = rt) as ->; [|by rewrite Hpr].
      apply (target_rows_unique db); try done; [congruence|].
      rewrite (tv_ordinal _ _ Hvu), (tv_ordinal _ _ Hvt). done.
    + destruct (p ru) eqn:Epu; [|done]. destruct (Hp ru Epu) as [_ Ho].
      rewrite (tv_ordinal _ _ Hvu) in Ho. done.
  - congruence.
  - exists rt. split_and!; try done. by eapply target_check_ok.
Qed.

(** ** Shared facts about leases and writes *)

(** The lease a caller holds is exactly the durable record, and live. *)
Record holds_lease (l : RhiPublicationLease) (now : Z) (db : publication_db) : Prop := {
  hl_current : read_outbox (id (lease_outbox l)) db = Ok (Some (lease_outbox l));
  hl_leased : state (lease_outbox l) = Leased;
  hl_owner : lease_owner (lease_outbox l) = Some (owner l);
  hl_expires : lease_expires (lease_outbox l) = Some (expires_at l);
  hl_live : now < expires_at l;
}.

Lemma validate_lease_Ok l now db :
  validate_lease l now true db = Ok tt ↔ holds_lease l now db.
Proof.
  unfold validate_lease. split.
  - intros Hv. bind Hv as c Hc. bind Hv as c' Hc'. apply reject_if_Ok in Hv.
    apply ok_or_Ok, filter_opt_Some in Hc' as [-> ->%bool_decide_eq_true]. simpl in Hv.
    to_prop. split; done || lia.
  - intros []. rewrite hl_current0; simpl. rewrite bool_decide_eq_true_2 by done; simpl.
    rewrite hl_leased0, hl_owner0, hl_expires0. rewrite !bool_decide_eq_true_2 by done.
    by destruct (Z.leb_spec (expires_at l) now); [lia|].
Qed.

Lemma optional_i64_Ok v w :
  optional_i64 v = Ok w ↔ w = v ∧ ∀ x, v = Some x → 0 ≤ x ≤ I64_MAX.
Proof.
  unfold optional_i64, i64_value. destruct v as [x|]; [|naive_solver].
  rewrite and_then_Ok. setoid_rewrite ok_or_Ok. setoid_rewrite try_from_Some. split.
  - intros (y & [-> Hx] & [= <-]). naive_solver.
  - intros [-> Hx]. exists x. specialize (Hx x eq_refl). naive_solver.
Qed.

Lemma pub_i64_value_Ok v w : i64_value v = Ok w ↔ w = v ∧ 0 ≤ v ≤ I64_MAX.
Proof. unfold i64_value. by rewrite ok_or_Ok, try_from_Some. Qed.

Lemma pub_exec_Ok {A} (r : result sql_error A) x : exec r = Ok x ↔ r = Ok x.
Proof. apply map_err_Ok. Qed.

Lemma holds_outbox_true i rev own expires now live r :
  holds_outbox i rev own expires now live r = true →
  ob_outbox_id r = i ∧ ob_revision r = rev ∧ ob_state r = "leased"%string ∧
  ob_lease_owner r = Some own ∧ ob_lease_expires_unix_ms r = Some expires ∧
  (if live then now < expires else expires ≤ now) ∧ ob_updated_at_unix_ms r ≤ now.
Proof.
  unfold holds_outbox, col_blob_eq, col_eq, col_gt, col_le. intros Hh. to_prop.
  repeat match goal with H : bytes_eqb _ _ = true |- _ => apply bytes_eqb_true in H end.
  match goal with H : String.eqb _ _ = true |- _ => apply String.eqb_eq in H end.
  destruct (ob_lease_owner r) as [b|], (ob_lease_expires_unix_ms r) as [e|]; simpl in *; try done.
  repeat match goal with H : bytes_eqb _ _ = true |- _ => apply bytes_eqb_true in H end.
  to_prop. subst. destruct live; to_prop; split_and!; try done.
Qed.

(** The row whose identity a record was read under. *)
Lemma read_outbox_unique db o r :
  tables_ok db = true → read_outbox (id o) db = Ok (Some o) → r ∈ outboxes db →
  ob_outbox_id r = id o → outbox_view r o ∧ outbox_ok o.
Proof.
  intros (_ & Hob & _)%tables_ok_split Hread Hr Hid.
  rewrite <- Hid, (read_outbox_row db r Hob Hr) in Hread. bind Hread as o' Hd. injection Hread as ->.
  by apply decode_outbox_Ok in Hd.
Qed.

(** Closing the lease of an outbox, as recording and recovery do. *)
Lemma close_outbox_view db o own expires now live d rows n :
  tables_ok db = true → read_outbox (id o) db = Ok (Some o) →
  update_rows (holds_outbox (id o) (revision o) own expires now live)
    (with_lifecycle (outbox_code (d_state d)) (d_next_attempt d) None None now) (outboxes db)
    = Ok (rows, n) → n = 1 →
  let db' := with_outboxes db rows in
  tables_ok db' = true ∧ read_outbox (id o) db' = Ok (Some (close_record d now o)) ∧
  outbox_ok (close_record d now o) ∧
  (∀ j, j ≠ id o → read_outbox j db' = read_outbox j db) ∧ updated_at o ≤ now.
Proof.
  intros Hok Hread Hup Hn db'.
  destruct (update_outboxes_view db _ _ rows n (id o) (close_record d now o) Hok Hup Hn)
    as (Hok' & Hread' & Hokr & Hother & r & Hr & Hp).
  - intros r Hr. by apply holds_outbox_true in Hr as [? _].
  - done.
  - intros r Hr Hp. apply holds_outbox_true in Hp as (Hid & Hrev & _).
    destruct (read_outbox_unique db o r Hok Hread Hr Hid) as [[] _].
    split; [|by intros b]. split; simpl; congruence || lia.
  - split_and!; try done. apply holds_outbox_true in Hp as (Hid & _ & _ & _ & _ & _ & Hle).
    destruct (read_outbox_unique db o r Hok Hread Hr Hid) as [[] _]. lia.
Qed.

(** An outbox update that keeps the event reference keeps the committed event. *)
Lemma update_keeps_committed `{Sha256} db p f rows n i pub :
  tables_ok db = true → update_rows p f (outboxes db) = Ok (rows, n) →
  (∀ r, ob_outbox_id (f r) = ob_outbox_id r ∧ ob_event_id (f r) = ob_event_id r ∧
        ob_event_sha256 (f r) = ob_event_sha256 r) →
  read_committed i db = Ok pub → read_committed i (with_outboxes db rows) = Ok pub.
Proof.
  intros (He & Ho & _)%tables_ok_split Hup Hf Hpub.
  pose proof (update_rows_ok outbox_conflict_sym _ _ _ _ _ Ho Hup) as Ho'.
  apply update_rows_Ok in Hup as (-> & _).
  apply read_committed_Ok in Hpub as (r & e & Hr & Hev & <- & Hid & Hsha & -> & Hdig & _).
  set (r' := apply_where p f r).
  assert (ob_outbox_id r' = ob_outbox_id r ∧ ob_event_id r' = ob_event_id r ∧
          ob_event_sha256 r' = ob_event_sha256 r) as (Hi & Hi' & Hs).
  { subst r'. unfold apply_where. destruct (p r); [apply Hf|done]. }
  rewrite <- Hi, <- Hi', <- Hs in *. apply read_committed_intro; try done.
  apply list_elem_of_In, in_map, list_elem_of_In, Hr.
Qed.

(** ** [claim_next] *)

Lemma without_owner_pending r :
  row_check r = true → ob_state r = "pending"%string → without_owner r = r.
Proof.
  intros Hc Hs. destruct (outbox_check_shape r Pending Hc Hs) as [Hshape _]. simpl in Hshape.
  to_prop. destruct r as [????????????????? ?]; simpl in *. by destruct ob_lease_owner0.
Qed.

Lemma claimable_true now r :
  claimable now r = true ↔
  ob_state r = "pending"%string ∧ ∃ v, ob_next_attempt_unix_ms r = Some v ∧ v ≤ now.
Proof.
  unfold claimable, col_le. rewrite andb_true_iff, String.eqb_eq.
  destruct (ob_next_attempt_unix_ms r) as [v|]; simpl; rewrite ?Z.leb_le; naive_solver.
Qed.

(** A pending outbox with its next attempt at [v], not later than [now]. *)
Definition due (now : Z) (r : outbox_row) (v : Z) : Prop :=
  ob_state r = "pending"%string ∧ ob_next_attempt_unix_ms r = Some v ∧ v ≤ now.

(** Earlier next attempt first, then the older outbox, then the smaller identity. *)
Definition served_before (r s : outbox_row) (v w : Z) : Prop :=
  v < w ∨ v = w ∧ (ob_created_at_unix_ms r < ob_created_at_unix_ms s ∨
    ob_created_at_unix_ms r = ob_created_at_unix_ms s ∧
    is_le (bytes_cmp (ob_outbox_id r) (ob_outbox_id s))).

Lemma claim_order_due now r s v w :
  due now r v → due now s w → is_le (claim_order r s) → served_before r s v w.
Proof.
  intros (_ & Hr & _) (_ & Hs & _). unfold claim_order, cmp_then, cmp_on, served_before.
  rewrite Hr, Hs; simpl. destruct (Z.compare_spec v w); simpl; [|by left|done].
  destruct (Z.compare_spec (ob_created_at_unix_ms r) (ob_created_at_unix_ms s)); simpl; naive_solver.
Qed.

Lemma pub_claim_next_Ok `{Sha256} own now a db l db' :
  tables_ok db = true → nonzero_owner own → claim_next own now a db = Ok (Some l, db') →
  ∃ r o ts rows,
    r ∈ outboxes db ∧ claimable now r = true ∧
    (∀ s, s ∈ outboxes db → claimable now s = true → is_le (claim_order r s)) ∧
    outbox_view r o ∧ outbox_ok o ∧ read_outbox (id o) db = Ok (Some o) ∧
    validate_authority o a = Ok tt ∧ read_targets (id o) db = Ok ts ∧
    validate_targets o ts = Ok tt ∧ updated_at o ≤ now ∧ 0 ≤ now ∧
    now + attempt_deadline_ms o ≤ I64_MAX ∧
    l = MkLease (claim_record own (now + attempt_deadline_ms o) now o) own
          (now + attempt_deadline_ms o) ∧
    db' = with_outboxes db rows ∧ tables_ok db' = true ∧
    read_outbox (id o) db' = Ok (Some (lease_outbox l)) ∧
    (∀ j, j ≠ id o → read_outbox j db' = read_outbox j db).
Proof.
  intros Hok Hown Hc. unfold claim_next in Hc. bind Hc as now' Hnow. apply pub_i64_value_Ok in Hnow as [-> Hnow].
  bind Hc as row Hrow. destruct row as [row|]; [|by inv_ok].
  unfold READ_CLAIMABLE_OUTBOX_SQL in Hrow.
  destruct (sort_by claim_order _) as [|r l0] eqn:Hsort; simpl in Hrow; [done|]. injection Hrow as <-.
  destruct (sort_by_head claim_order (List.filter (claimable now) (outboxes db)) r) as [Hr Hmin].
  { by rewrite Hsort. }
  apply list_elem_of_In, filter_In in Hr as [Hr Hcl]. apply list_elem_of_In in Hr.
  pose proof Hok as (_ & Hob & _)%tables_ok_split.
  pose proof (rows_ok_check _ _ Hob Hr) as Hcheck.
  pose proof Hcl as [Hpend (nx & Hnx & Hnxle)]%claimable_true.
  rewrite without_owner_pending in Hc by done.
  bind Hc as o Hd. pose proof Hd as [Hv Hook]%decode_outbox_Ok.
  bind Hc as u1 Hauth. destruct u1. bind Hc as u2 Hinv. destruct u2.
  unfold validate_target_inventory in Hinv. bind Hinv as ts Hts.
  bind Hc as e He. apply ok_or_Ok, filter_opt_Some in He as [He Hle]. inv_int. apply Z.leb_le in Hle.
  bind Hc as e' He'. apply pub_i64_value_Ok in He' as [-> He'].
  bind Hc as rev Hrev. apply pub_i64_value_Ok in Hrev as [-> Hrev].
  bind Hc as x Hx. destruct x as [rows n]. apply pub_exec_Ok in Hx. bind Hc as u3 Haff.
  apply reject_if_Ok in Haff. to_prop.
  assert (read_outbox (id o) db = Ok (Some o)) as Hread.
  { rewrite <- (ov_id _ _ Hv), (read_outbox_row db r Hob Hr), Hd. done. }
  destruct (update_outboxes_view db _ _ rows n (id o)
              (claim_record own (now + attempt_deadline_ms o) now o) Hok Hx Haff)
    as (Hok' & Hread' & Hokr & Hother & s & Hs & Hps).
  { intros s Hs. to_prop. by apply bytes_eqb_true. }
  { done. }
  { intros s Hs Hp. to_prop.
    match goal with H : bytes_eqb _ _ = true |- _ => apply bytes_eqb_true in H; rename H into Hid end.
    destruct (read_outbox_unique db o s Hok Hread Hs Hid) as [[] _].
    split; [|by intros b [= <-]]. split; simpl; congruence || lia. }
  bind Hc as lo Hlo. simpl in Hread', Hlo. rewrite Hread' in Hlo. injection Hlo as <-.
  bind Hc as lo' Hlo'. apply ok_or_Ok, filter_opt_Some in Hlo' as [[= <-] _].
  injection Hc as <- <-. to_prop.
  match goal with H : bytes_eqb _ _ = true |- _ => apply bytes_eqb_true in H; rename H into Hid end.
  destruct (read_outbox_unique db o s Hok Hread Hs Hid) as [Hvs _].
  exists r, o, ts, rows. split_and!; try done.
  - intros s' Hs' Hcs'. apply Hmin. apply list_elem_of_In, filter_In.
    split; [by apply list_elem_of_In|done].
  - rewrite <- (ov_updated _ _ Hvs). done.
  - lia.
Qed.

Lemma claim_keeps_committed `{Sha256} own now a db l db' i pub :
  tables_ok db = true → claim_next own now a db = Ok (Some l, db') →
  read_committed i db = Ok pub → read_committed i db' = Ok pub.
Proof.
  intros Hok Hc. unfold claim_next in Hc. bind Hc as now' Hnow. bind Hc as row Hrow.
  destruct row as [row|]; [|by inv_ok]. bind Hc as o Hd. bind Hc as u1 Hauth. bind Hc as u2 Hinv.
  bind Hc as e He. bind Hc as e' He'. bind Hc as rev Hrev.
  bind Hc as x Hx. destruct x as [rows n]. apply pub_exec_Ok in Hx. bind Hc as u3 Haff.
  bind Hc as lo Hlo. bind Hc as lo' Hlo'. injection Hc as _ <-.
  by apply (update_keeps_committed db _ _ _ _ _ _ Hok Hx).
Qed.

(** ** [prepare_next] *)

Lemma target_due_true t maximum now :
  target_is_due t maximum now = true ↔
  retryable_state (t_state t) = true ∧ t_attempt_count t < maximum ∧
  ∃ v, t_next_attempt t = Some v ∧ v ≤ now.
Proof.
  unfold target_is_due. rewrite !andb_true_iff, Z.ltb_lt.
  destruct (t_next_attempt t) as [v|]; simpl; rewrite ?Z.leb_le; naive_solver.
Qed.

Lemma submit_view r t attempt now :
  target_view r t →
  target_view
    (TargetRow (tg_outbox_id r) (tg_target_ordinal r) (tg_relay_id r) (tg_required r) "submitted"
       (tg_revision r + 1) (tg_attempt_count r + 1) None (Some attempt) now)
    (submit_record attempt now t).
Proof. intros []. split; simpl; congruence. Qed.

Lemma settle_view r t st next now :
  target_view r t →
  target_view
    (TargetRow (tg_outbox_id r) (tg_target_ordinal r) (tg_relay_id r) (tg_required r)
       (target_code st) (tg_revision r + 1) (tg_attempt_count r) next (tg_last_attempt_id r) now)
    (settle_record st next now t).
Proof. intros []. split; simpl; congruence. Qed.

Lemma read_publication_Ok `{Sha256} i db p :
  read_publication i db = Ok p ↔ read_committed i db = Ok p.
Proof. apply map_err_Ok. Qed.

(** The result of a successful preparation. *)
Record prepared_state `{Sha256} (l : RhiPublicationLease) (now : Z) (db db' : publication_db)
    (p : RhiPreparedPublicationAttempt) (ts : list TargetRecord) (t : TargetRecord) : Prop := {
  ps_lease : holds_lease l now db;
  ps_targets : read_targets (id (lease_outbox l)) db = Ok ts;
  ps_valid : validate_targets (lease_outbox l) ts = Ok tt;
  ps_first : List.find (λ t, target_is_due t (max_attempts (lease_outbox l)) now) ts = Some t;
  ps_prepared : p = MkPrepared l (p_target p) (p_attempt_id p) now (expires_at l) (p_publication p);
  ps_target : p_target p = submit_record (p_attempt_id p) now t;
  ps_attempt : p_attempt_id p =
    derive_attempt_id (id (lease_outbox l)) (outbox_event_sha256 (lease_outbox l)) (ordinal t)
      (t_attempt_count t + 1);
  ps_target_ok : target_ok (p_target p);
  ps_updated : t_updated_at t ≤ now;
  ps_after : read_targets (id (lease_outbox l)) db' =
    Ok (map (at_ordinal (ordinal t) (submit_record (p_attempt_id p) now)) ts);
  ps_others : ∀ j, j ≠ id (lease_outbox l) → read_targets j db' = read_targets j db;
  ps_publication : read_committed (id (lease_outbox l)) db' = Ok (p_publication p);
  ps_event : event_sha256 (p_publication p) = outbox_event_sha256 (lease_outbox l);
  ps_tables : tables_ok db' = true;
  ps_frame : events db' = events db ∧ outboxes db' = outboxes db ∧ attempts db' = attempts db;
}.

(** The statement's [state IN (...)] is [retryable_state]. *)
Lemma retryable_code st :
  one_of ["pending"; "failed"; "rate_limited"; "unknown"] (target_code st) = retryable_state st.
Proof. by destruct st. Qed.

Lemma find_at_ordinal g ts t k :
  List.find (λ u, ordinal u =? k) (map (at_ordinal k g) ts) = Some t →
  (∀ u, ordinal (g u) = ordinal u) →
  ∃ u, u ∈ ts ∧ ordinal u = k ∧ t = g u.
Proof.
  intros [Hin Hk]%find_some Hg. apply in_map_iff in Hin as (u & <- & Hu).
  apply Z.eqb_eq in Hk. unfold at_ordinal in *. exists u. apply list_elem_of_In in Hu.
  destruct (Z.eqb_spec (ordinal u) k); [done|]. congruence.
Qed.

Lemma prepare_update_spec `{Sha256} db o now ts t aid rows n :
  tables_ok db = true →
  PREPARE_TARGET_SQL aid now (id o) (ordinal t) (t_revision t) (max_attempts o) now now (targets db)
    = Ok (rows, n) → n = 1 →
  validate_targets o ts = Ok tt → read_targets (id o) db = Ok ts → t ∈ ts →
  let db' := with_targets db rows in
  tables_ok db' = true ∧
  read_targets (id o) db' = Ok (map (at_ordinal (ordinal t) (submit_record aid now)) ts) ∧
  (∀ j, j ≠ id o → read_targets j db' = read_targets j db) ∧
  t_updated_at t ≤ now ∧ target_ok (submit_record aid now t).
Proof.
  intros Hok Hx Hn Hval Hts Hin db'.
  destruct (update_one_target db _ _ rows n (id o)
              (λ u, (ordinal u =? ordinal t) && (t_revision u =? t_revision t)
                    && retryable_state (t_state u) && (t_attempt_count u <? max_attempts o)
                    && col_le (t_next_attempt u) now && (t_updated_at u <=? now))
              (submit_record aid now) o ts t Hok Hx Hn Hval Hts Hin)
    as (Hok' & Hts' & Hother & Hq & _ & _ & _ & _ & _ & _ & Htok).
  { intros r Hr. to_prop. split; [by apply bytes_eqb_true|done]. }
  { done. }
  { intros r u Hi Hv. split; [|intros _; by apply submit_view].
    rewrite Hi, bytes_eqb_refl; cbn [andb]. destruct Hv as [-> _ _ -> -> -> -> _ ->].
    by rewrite retryable_code. }
  to_prop. by split_and!.
Qed.

Lemma prepare_next_Ok `{Sha256} l now db p db' :
  tables_ok db = true → prepare_next l now db = Ok (p, db') →
  ∃ ts t, prepared_state l now db db' p ts t.
Proof.
  intros Hok Hp. unfold prepare_next in Hp. cbv zeta in Hp. set (o := lease_outbox l) in *.
  bind Hp as u1 Hl. destruct u1. apply validate_lease_Ok in Hl.
  bind Hp as ts Hts. bind Hp as u2 Hval. destruct u2. bind Hp as t Hfind. apply ok_or_Ok in Hfind.
  pose proof (find_some _ _ Hfind) as [Hin Hdue]. apply list_elem_of_In in Hin.
  apply target_due_true in Hdue as (Hret & Hlt & nx & Hnx & Hnxle).
  bind Hp as num Hnum. apply ok_or_Ok, filter_opt_Some in Hnum as [Hnum _]. inv_int.
  bind Hp as now' Hnow. apply pub_i64_value_Ok in Hnow as [-> Hnow].
  bind Hp as rev Hrev. apply pub_i64_value_Ok in Hrev as [-> Hrev].
  bind Hp as x Hx. destruct x as [rows n]. apply pub_exec_Ok in Hx.
  bind Hp as u3 Haff. apply reject_if_Ok in Haff. to_prop.
  set (aid := derive_attempt_id (id o) (outbox_event_sha256 o) (ordinal t) (t_attempt_count t + 1)) in *.
  destruct (prepare_update_spec db o now ts t aid rows n Hok Hx Haff Hval Hts Hin)
    as (Hok' & Hts' & Hother & Hupd & Htok).
  bind Hp as ts' Hts2. simpl in Hts', Hts2. rewrite Hts' in Hts2. injection Hts2 as <-.
  bind Hp as t' Ht'. apply ok_or_Ok, filter_opt_Some in Ht' as [Ht' _].
  apply find_at_ordinal in Ht' as (u & Hu & Huk & ->); [|done].
  assert (u = t) as -> by (by apply (ordinal_unique o ts)).
  bind Hp as pub Hpub. apply read_publication_Ok in Hpub. bind Hp as u4 Hsha.
  apply reject_if_Ok in Hsha. to_prop. injection Hp as <- <-.
  exists ts, t. split; simpl; try done; by apply bytes_eqb_true.
Qed.

(** ** Recording one outcome *)

Lemma insert_attempt_Ok i db db' :
  tables_ok db = true → insert_attempt i db = Ok db' →
  db' = with_attempts db (attempts db ++ [attempt_row_of i (i_started_at i) (i_finished_at i)]) ∧
  tables_ok db' = true ∧
  row_check (attempt_row_of i (i_started_at i) (i_finished_at i)) = true ∧
  0 ≤ i_started_at i ≤ i_finished_at i ∧ i_finished_at i ≤ I64_MAX.
Proof.
  intros Hok Hi. unfold insert_attempt in Hi. bind Hi as s Hs. apply pub_i64_value_Ok in Hs as [-> Hs].
  bind Hi as f Hf. apply pub_i64_value_Ok in Hf as [-> Hf]. bind Hi as rows Hrows.
  apply pub_exec_Ok in Hrows. injection Hi as <-.
  pose proof Hok as (He & Ho & Ht & Ha)%tables_ok_split.
  pose proof (insert_row_ok attempt_conflict_sym _ _ _ _ Ha Hrows) as Ha'.
  apply insert_row_Ok in Hrows as (-> & _ & Hadm). unfold row_admissible in Hadm. to_prop.
  split_and!; try done; [by apply tables_ok_split| | |].
  all: match goal with H : row_check _ = true |- _ => simpl in H end; to_prop; inv_int; lia.
Qed.

(** The attempt just inserted can be read back. *)
Lemma read_inserted_attempt `{Sha256} i db :
  tables_ok db = true → attempt_row_of i (i_started_at i) (i_finished_at i) ∈ attempts db →
  read_attempt (i_attempt_id i) db = Ok (Some (attempt_from_input i)).
Proof.
  intros (_ & _ & _ & Ha)%tables_ok_split Hin.
  change (i_attempt_id i) with
    (at_attempt_id (attempt_row_of i (i_started_at i) (i_finished_at i))).
  rewrite (read_attempt_row db _ Ha Hin).
  rewrite (decode_attempt_intro _ (attempt_from_input i)); [done|by split|].
  by apply (rows_ok_check (attempts db)).
Qed.

Lemma outcome_schedule_Ok i st next :
  target_outcome_schedule i = Ok (st, next) →
  st = target_state (i_outcome i) ∧ i_outcome i ≠ Submitted ∧
  let more := retryable_outcome (i_outcome i)
              && (i_attempt_number i <? max_attempts (lease_outbox (i_lease i))) in
  next = (if more then Some (i_finished_at i + i_retry_delay i) else None) ∧
  (if more
   then i_retry_delay i ≤ retry_upper_bound (lease_outbox (i_lease i)) (i_attempt_number i) ∧
        i_finished_at i + i_retry_delay i ≤ I64_MAX
   else i_retry_delay i = 0).
Proof.
  unfold target_outcome_schedule, MAX_UNIX_MILLISECONDS. intros Hs. bind Hs as u Hu.
  apply reject_if_Ok, bool_decide_eq_false in Hu. bind Hs as nx Hnx. injection Hs as <- <-.
  split_and!; try done; destruct (_ && _).
  - inv_ok. inv_int. done.
  - by inv_ok.
  - inv_ok. inv_int. to_prop. lia.
  - inv_ok. to_prop. done.
Qed.

Lemma update_target_outcome_Ok `{Sha256} i st next db db' o ts t :
  tables_ok db = true → update_target_outcome i st next db = Ok db' →
  id o = id (lease_outbox (i_lease i)) → validate_targets o ts = Ok tt →
  read_targets (id o) db = Ok ts → t ∈ ts → ordinal t = i_target_ordinal i →
  tables_ok db' = true ∧
  read_targets (id o) db' =
    Ok (map (at_ordinal (ordinal t) (settle_record st next (i_finished_at i))) ts) ∧
  (∀ j, j ≠ id o → read_targets j db' = read_targets j db) ∧
  t_state t = TSubmitted ∧ t_attempt_count t = i_attempt_number i ∧
  t_last_attempt_id t = Some (i_attempt_id i) ∧ t_revision t = i_target_revision i ∧
  target_ok (settle_record st next (i_finished_at i) t) ∧ t_updated_at t ≤ i_finished_at i ∧
  ∃ rows, db' = with_targets db rows.
Proof.
  intros Hok Hu Hid Hval Hts Hin Hord. unfold update_target_outcome in Hu.
  bind Hu as nx Hnx. apply optional_i64_Ok in Hnx as [-> Hnx].
  bind Hu as f Hf. apply pub_i64_value_Ok in Hf as [-> Hf].
  bind Hu as rev Hrev. apply pub_i64_value_Ok in Hrev as [-> Hrev].
  bind Hu as x Hx. destruct x as [rows n]. apply pub_exec_Ok in Hx.
  bind Hu as u1 Haff. apply reject_if_Ok in Haff. to_prop. injection Hu as <-.
  rewrite <- Hid in Hx.
  destruct (update_one_target db _ _ rows n (id o)
              (λ u, (ordinal u =? i_target_ordinal i) && (t_revision u =? i_target_revision i)
                    && String.eqb (target_code (t_state u)) "submitted"
                    && (t_attempt_count u =? i_attempt_number i)
                    && col_blob_eq (t_last_attempt_id u) (i_attempt_id i))
              (settle_record st next (i_finished_at i)) o ts t Hok Hx Haff Hval Hts Hin)
    as (Hok' & Hts' & Hother & Hq & r & Hr & Hri & Hrv & Hrp & Hg & Htok).
  { intros r Hr. to_prop. split; [by apply bytes_eqb_true|congruence]. }
  { done. }
  { intros r u Hi Hv. split; [|intros _; by apply settle_view].
    rewrite Hi, bytes_eqb_refl; simpl. by destruct Hv as [-> _ _ -> -> -> _ -> _]. }
  to_prop.
  match goal with H : String.eqb (target_code _) _ = true |- _ => apply String.eqb_eq in H end.
  unfold col_blob_eq in *. destruct (t_last_attempt_id t) as [b|] eqn:Hb; simpl in *; [|done].
  match goal with H : bytes_eqb b _ = true |- _ => apply bytes_eqb_true in H; subst b end.
  split_and!; try done.
  - by apply target_code_inj.
  - simpl in Hg. to_prop. rewrite <- (tv_updated _ _ Hrv). done.
  - by exists rows.
Qed.

Lemma disposition_valid `{Sha256} o ts d : disposition o ts = Ok d → validate_targets o ts = Ok tt.
Proof. unfold disposition. intros Hd. bind Hd as u Hu. by destruct u. Qed.

(** Recording validates the inventory after the write; the write keeps it. *)
Lemma update_target_outcome_valid `{Sha256} i st next db db' o o' ts ts' :
  tables_ok db = true → update_target_outcome i st next db = Ok db' →
  read_targets (id (lease_outbox (i_lease i))) db = Ok ts →
  read_targets (id (lease_outbox (i_lease i))) db' = Ok ts' →
  target_count o' = target_count o → required_target_count o' = required_target_count o →
  outbox_target_set_sha256 o' = outbox_target_set_sha256 o →
  validate_targets o' ts' = Ok tt → validate_targets o ts = Ok tt.
Proof.
  intros Hok Hu Hts Hts' Hc Hreq Hs Hval. unfold update_target_outcome in Hu.
  bind Hu as nx Hnx. apply optional_i64_Ok in Hnx as [-> _].
  bind Hu as f Hf. apply pub_i64_value_Ok in Hf as [-> _].
  bind Hu as rev Hrev. apply pub_i64_value_Ok in Hrev as [-> _].
  bind Hu as x Hx. destruct x as [rows n]. apply pub_exec_Ok in Hx.
  bind Hu as u1 Haff. apply reject_if_Ok in Haff. to_prop. injection Hu as <-.
  destruct (update_targets_view db _ _ rows n (id (lease_outbox (i_lease i)))
              (λ u, (ordinal u =? i_target_ordinal i) && (t_revision u =? i_target_revision i)
                    && String.eqb (target_code (t_state u)) "submitted"
                    && (t_attempt_count u =? i_attempt_number i)
                    && col_blob_eq (t_last_attempt_id u) (i_attempt_id i))
              (settle_record st next (i_finished_at i)) ts Hok Hx Haff)
    as (_ & Hts2 & _); try done.
  { intros r Hr. to_prop. by apply bytes_eqb_true. }
  { intros r u Hi Hv. split; [|intros _; by apply settle_view].
    rewrite Hi, bytes_eqb_refl; simpl. by destruct Hv as [-> _ _ -> -> -> _ -> _]. }
  simpl in Hts2. rewrite Hts2 in Hts'. injection Hts' as <-.
  erewrite validate_targets_map in Hval; [exact Hval| |done..].
  intros u. simpl. by destruct (_ && _).
Qed.

(** The result of recording an outcome for the first time. *)
Record recorded_state `{Sha256} (i : RecordInput) (db db' : publication_db)
    (c : RhiPublicationAttemptCommit) (ts : list TargetRecord) (t : TargetRecord)
    (next : option Z) (d : OutboxDisposition) : Prop := {
  rs_lease : holds_lease (i_lease i) (i_finished_at i) db;
  rs_targets : read_targets (id (lease_outbox (i_lease i))) db = Ok ts;
  rs_valid : validate_targets (lease_outbox (i_lease i)) ts = Ok tt;
  rs_target : t ∈ ts;
  rs_ordinal : ordinal t = i_target_ordinal i;
  rs_submitted : t_state t = TSubmitted ∧ t_revision t = i_target_revision i ∧
    t_attempt_count t = i_attempt_number i ∧ t_last_attempt_id t = Some (i_attempt_id i) ∧
    t_updated_at t = i_started_at i;
  rs_schedule : target_outcome_schedule i = Ok (target_state (i_outcome i), next);
  rs_after : read_targets (id (lease_outbox (i_lease i))) db' =
    Ok (map (at_ordinal (ordinal t) (settle_record (target_state (i_outcome i)) next (i_finished_at i)))
          ts);
  rs_disposition : disposition (lease_outbox (i_lease i))
    (map (at_ordinal (ordinal t) (settle_record (target_state (i_outcome i)) next (i_finished_at i)))
       ts) = Ok d;
  rs_outbox : read_outbox (id (lease_outbox (i_lease i))) db' =
    Ok (Some (close_record d (i_finished_at i) (lease_outbox (i_lease i))));
  rs_outbox_ok : outbox_ok (close_record d (i_finished_at i) (lease_outbox (i_lease i)));
  rs_target_ok : target_ok
    (settle_record (target_state (i_outcome i)) next (i_finished_at i) t);
  rs_times : i_started_at i ≤ i_finished_at i;
  rs_commit : c = commit_of i (target_state (i_outcome i)) (d_state d);
  rs_others : ∀ j, j ≠ id (lease_outbox (i_lease i)) →
    read_targets j db' = read_targets j db ∧ read_outbox j db' = read_outbox j db;
  rs_attempts : attempts db' =
    attempts db ++ [attempt_row_of i (i_started_at i) (i_finished_at i)];
  rs_events : events db' = events db;
  rs_tables : tables_ok db' = true;
}.

Lemma record_fresh_Ok `{Sha256} i db c db' :
  tables_ok db = true → record_outcome i db = Ok (c, db') →
  read_attempt (i_attempt_id i) db = Ok None →
  ∃ ts t next d, recorded_state i db db' c ts t next d.
Proof.
  intros Hok Hrec Hnone. unfold record_outcome in Hrec. rewrite Hnone in Hrec.
  cbn [and_then] in Hrec. cbv zeta in Hrec.
  set (o := lease_outbox (i_lease i)) in *.
  bind Hrec as u1 Hl. destruct u1. apply validate_lease_Ok in Hl.
  bind Hrec as ts Hts. bind Hrec as t Hfind. apply ok_or_Ok in Hfind.
  apply find_some in Hfind as [Hin Hord]. apply list_elem_of_In in Hin. apply Z.eqb_eq in Hord.
  bind Hrec as u2 Hrej. apply reject_if_Ok in Hrej. to_prop.
  bind Hrec as db1 Hins. destruct (insert_attempt_Ok i db db1 Hok Hins) as (-> & Hok1 & _ & Htm & _).
  bind Hrec as sn Hsched. destruct sn as [st next].
  pose proof (outcome_schedule_Ok _ _ _ Hsched) as (-> & _).
  bind Hrec as db2 Hupd. bind Hrec as ts' Hts'. bind Hrec as d Hd. bind Hrec as db3 Hout.
  injection Hrec as <- <-.
  pose proof (disposition_valid _ _ _ Hd) as Hval'.
  assert (read_targets (id o) (with_attempts db
            (attempts db ++ [attempt_row_of i (i_started_at i) (i_finished_at i)])) = Ok ts) as Hts1
    by exact Hts.
  assert (validate_targets o ts = Ok tt) as Hval
    by (by eapply (update_target_outcome_valid i _ _ _ _ o o)).
  destruct (update_target_outcome_Ok i _ _ _ _ o ts t Hok1 Hupd eq_refl Hval Hts1 Hin Hord)
    as (Hok2 & Hts2 & Hoth2 & _ & _ & _ & _ & Htok & _ & rows & ->).
  rewrite Hts2 in Hts'. injection Hts' as <-.
  unfold update_outbox_after_attempt in Hout. cbv zeta in Hout. fold o in Hout.
  bind Hout as nx Hnx. apply optional_i64_Ok in Hnx as [-> Hnx].
  bind Hout as f Hf. apply pub_i64_value_Ok in Hf as [-> Hf].
  bind Hout as rev Hrev. apply pub_i64_value_Ok in Hrev as [-> Hrev].
  bind Hout as ex Hex. apply pub_i64_value_Ok in Hex as [-> Hex].
  bind Hout as x Hx. destruct x as [orows n]. apply pub_exec_Ok in Hx.
  bind Hout as u3 Haff. apply reject_if_Ok in Haff. to_prop. injection Hout as <-.
  destruct (close_outbox_view _ o _ _ _ _ d orows n Hok2 (hl_current _ _ _ Hl) Hx Haff)
    as (Hok3 & Hread & Hokr & Hoth3 & _).
  exists ts, t, next, d. split; try done; try lia.
  - intros j Hj. split; [exact (Hoth2 j Hj)|exact (Hoth3 j Hj)].
Qed.

(** ** [recover_expired] *)

Definition recover_record (o : OutboxRecord) (now delay : Z) (t : TargetRecord) : TargetRecord :=
  settle_record TUnknown (if t_attempt_count t <? max_attempts o then Some (now + delay) else None)
    now t.

Definition recovered_attempt (o : OutboxRecord) (own : bytes) (now : Z) (t : TargetRecord) :
    attempt_row :=
  AttemptRow (default [] (t_last_attempt_id t)) (id o) (ordinal t) (t_attempt_count t)
    (outbox_event_sha256 o) own (t_updated_at t) now "unknown" "unknown".

(** The targets in [done] have been recovered. *)
Definition recover_some (o : OutboxRecord) (now delay : Z) (done : list TargetRecord)
    (t : TargetRecord) : TargetRecord :=
  if existsb (λ x, ordinal x =? ordinal t) done then recover_record o now delay t else t.

Record recovering `{Sha256} (o : OutboxRecord) (own : bytes) (now delay : Z) (ts : list TargetRecord)
    (db0 : publication_db) (done : list TargetRecord) (db : publication_db) : Prop := {
  rg_tables : tables_ok db = true;
  rg_targets : read_targets (id o) db = Ok (map (recover_some o now delay done) ts);
  rg_others : ∀ j, j ≠ id o → read_targets j db = read_targets j db0;
  rg_attempts : attempts db = attempts db0 ++ map (recovered_attempt o own now) done;
  rg_frame : events db = events db0 ∧ outboxes db = outboxes db0;
}.

Lemma recover_some_keys o now delay done t :
  ordinal (recover_some o now delay done t) = ordinal t ∧
  relay_id (recover_some o now delay done t) = relay_id t ∧
  required (recover_some o now delay done t) = required t.
Proof. unfold recover_some. by destruct (existsb _ _). Qed.

Lemma existsb_ordinal `{Sha256} o ts l t :
  validate_targets o ts = Ok tt → t ∈ ts → l ⊆ ts →
  existsb (λ x, ordinal x =? ordinal t) l = true ↔ t ∈ l.
Proof.
  intros Hv Ht Hl. rewrite existsb_exists. setoid_rewrite Z.eqb_eq.
  setoid_rewrite <- list_elem_of_In. split.
  - intros (x & Hx & E). assert (x = t) as <-; [|done].
    apply (ordinal_unique o ts); [done|by apply Hl|done|done].
  - intros Hin. by exists t.
Qed.

Lemma recover_target_Ok `{Sha256} o own now delay ts db0 done t db db' :
  validate_targets o ts = Ok tt → t ∈ ts → done ⊆ ts → t ∉ done → read_outbox (id o) db0 = Ok (Some o) →
  recovering o own now delay ts db0 done db → recover_target o own now delay t db = Ok db' →
  recovering o own now delay ts db0 (done ++ [t]) db' ∧
  t_last_attempt_id t =
    Some (derive_attempt_id (id o) (outbox_event_sha256 o) (ordinal t) (t_attempt_count t)) ∧
  t_updated_at t ≤ now ∧
  (if t_attempt_count t <? max_attempts o
   then delay ≤ retry_upper_bound o (t_attempt_count t) else delay = 0).
Proof.
  intros Hval Ht Hdone Hnew Hread [Hok Hts Hoth Hatt [Hev Hob]] Hr.
  unfold recover_target in Hr. bind Hr as aid Haid. apply ok_or_Ok in Haid.
  bind Hr as pub Hpub. apply read_publication_Ok in Hpub.
  bind Hr as ev Hevid. apply map_err_Ok in Hevid. bind Hr as u1 Hid. apply reject_if_Ok in Hid.
  bind Hr as rec Hrec. bind Hr as u2 Hnull. bind Hr as ex Hex. bind Hr as db1 Hins.
  bind Hr as sn Hsched. destruct sn as [st next].
  pose proof (outcome_schedule_Ok _ _ _ Hsched) as (-> & _ & Hnext). cbv zeta in Hnext. simpl in Hnext.
  destruct (insert_attempt_Ok _ _ _ Hok Hins) as (-> & Hok1 & _ & Htm & _).
  assert (recover_some o now delay done t = t) as Hsame.
  { unfold recover_some. destruct (existsb _ done) eqn:E; [|done].
    exfalso. apply Hnew. by apply (existsb_ordinal o ts). }
  assert (validate_targets o (map (recover_some o now delay done) ts) = Ok tt) as Hval'.
  { rewrite (validate_targets_map o o); [done| |done..]. intros u. apply recover_some_keys. }
  destruct (update_target_outcome_Ok _ _ _ _ _ o (map (recover_some o now delay done) ts) t
              Hok1 Hr eq_refl Hval' Hts) as (Hok2 & Hts2 & Hoth2 & _ & _ & _ & _ & _ & _ & rows & ->).
  { apply list_elem_of_fmap. by exists t. }
  { done. }
  unfold evidence_new in Hevid. bind Hevid as ord Hord. apply ok_or_Ok, filter_opt_Some in Hord as [Hord _].
  inv_int. bind Hevid as u3 Hnum. bind Hevid as u4 Hlt. apply reject_if_Ok in Hlt. injection Hevid as <-.
  simpl in Hid. to_prop. apply bytes_eqb_true in Hid.
  apply read_committed_Ok in Hpub as (r & e & Hro & _ & Hrid & _ & _ & -> & _). simpl in Hid.
  assert (ob_event_sha256 r = outbox_event_sha256 o) as Hsha.
  { apply read_outbox_Ok in Hread as (r0 & Hr0 & Hid0 & Hv0 & _).
    pose proof Hok as (_ & Hobs & _)%tables_ok_split. rewrite Hob in Hro, Hobs.
    assert (r = r0) as -> by (apply (rows_ok_unique (outboxes db0)); try done;
      [apply outbox_conflict_sym|apply outbox_key; congruence]). apply Hv0. }
  rewrite Hsha in Hid. split_and!; try done.
  - split; simpl.
    + done.
    + etrans; [exact Hts2|]. f_equal. rewrite map_map. apply map_ext_in. intros u Hu%list_elem_of_In.
      unfold at_ordinal. rewrite (proj1 (recover_some_keys o now delay done u)).
      destruct (Z.eqb_spec (ordinal u) (ordinal t)) as [E|E].
      * assert (u = t) as -> by (by apply (ordinal_unique o ts)). rewrite Hsame.
        unfold recover_some. rewrite existsb_app; simpl. rewrite Z.eqb_refl, orb_true_r.
        unfold recover_record. f_equal. by destruct Hnext as [-> _].
      * unfold recover_some. rewrite existsb_app; simpl.
        destruct (Z.eqb_spec (ordinal t) (ordinal u)); [congruence|]. by rewrite !orb_false_r.
    + intros j Hj. rewrite <- (Hoth j Hj). exact (Hoth2 j Hj).
    + rewrite Hatt, map_app, app_assoc; simpl. unfold recovered_attempt, attempt_row_of; simpl.
      by rewrite Haid.
    + done.
  - congruence.
  - destruct Hnext as [_ Hb]. destruct (_ <? _); [by destruct Hb|done].
Qed.

Lemma recover_targets_Ok `{Sha256} o own now delay ts db0 l done db db' :
  validate_targets o ts = Ok tt → read_outbox (id o) db0 = Ok (Some o) →
  (done ++ l) ⊆ ts → NoDup (done ++ l) →
  recovering o own now delay ts db0 done db → recover_targets o own now delay l db = Ok db' →
  recovering o own now delay ts db0 (done ++ l) db' ∧
  Forall (λ t, t_last_attempt_id t =
      Some (derive_attempt_id (id o) (outbox_event_sha256 o) (ordinal t) (t_attempt_count t)) ∧
    t_updated_at t ≤ now ∧
    (if t_attempt_count t <? max_attempts o
     then delay ≤ retry_upper_bound o (t_attempt_count t) else delay = 0)) l.
Proof.
  intros Hval Hread. revert done db; induction l as [|t l IH]; intros done db Hsub Hnd Hrg Hr; simpl in Hr.
  { injection Hr as <-. rewrite app_nil_r. by split. }
  bind Hr as db1 Hdb1.
  destruct (recover_target_Ok o own now delay ts db0 done t db db1 Hval) as (Hrg1 & Hfacts); try done.
  { apply Hsub. apply elem_of_app. right. left. }
  { intros x Hx. apply Hsub. apply elem_of_app. by left. }
  { apply list.NoDup_app in Hnd as (_ & Hd & _). intros Hin. eapply Hd; [done|left]. }
  replace (done ++ t :: l) with ((done ++ [t]) ++ l) in * by by rewrite <- app_assoc.
  destruct (IH (done ++ [t]) db1 Hsub Hnd Hrg1 Hr) as [Hrg2 Hall]. split; [done|]. by constructor.
Qed.

Record recovered_state `{Sha256} (c : RecoveryCandidate) (now delay : Z) (db db' : publication_db)
    (ts : list TargetRecord) (own : bytes) (expires : Z) (d : OutboxDisposition) : Prop := {
  rc_current : read_outbox (id (candidate_outbox c)) db = Ok (Some (candidate_outbox c));
  rc_leased : state (candidate_outbox c) = Leased;
  rc_owner : lease_owner (candidate_outbox c) = Some own;
  rc_expires : lease_expires (candidate_outbox c) = Some expires;
  rc_expired : expires ≤ now;
  rc_targets : read_targets (id (candidate_outbox c)) db = Ok ts;
  rc_valid : validate_targets (candidate_outbox c) ts = Ok tt;
  rc_submitted : Forall (λ t, t_last_attempt_id t =
      Some (derive_attempt_id (id (candidate_outbox c)) (outbox_event_sha256 (candidate_outbox c))
              (ordinal t) (t_attempt_count t)) ∧
    t_updated_at t ≤ now ∧
    (if t_attempt_count t <? max_attempts (candidate_outbox c)
     then delay ≤ retry_upper_bound (candidate_outbox c) (t_attempt_count t) else delay = 0))
    (submitted_targets ts);
  rc_after : read_targets (id (candidate_outbox c)) db' =
    Ok (map (λ t, if bool_decide (t_state t = TSubmitted)
                  then recover_record (candidate_outbox c) now delay t else t) ts);
  rc_disposition : disposition (candidate_outbox c)
    (map (λ t, if bool_decide (t_state t = TSubmitted)
               then recover_record (candidate_outbox c) now delay t else t) ts) = Ok d;
  rc_outbox : read_outbox (id (candidate_outbox c)) db' =
    Ok (Some (close_record d now (candidate_outbox c)));
  rc_attempts : attempts db' =
    attempts db ++ map (recovered_attempt (candidate_outbox c) own now) (submitted_targets ts);
  rc_others : ∀ j, j ≠ id (candidate_outbox c) →
    read_targets j db' = read_targets j db ∧ read_outbox j db' = read_outbox j db;
  rc_events : events db' = events db;
  rc_tables : tables_ok db' = true;
}.

Lemma NoDup_validated `{Sha256} o ts : validate_targets o ts = Ok tt → NoDup ts.
Proof.
  intros (_ & _ & _ & _ & Hnd & _)%target_key_facts. by eapply NoDup_fmap_1.
Qed.

Lemma recover_expired_Ok `{Sha256} c now delay db b db' :
  tables_ok db = true → recover_expired c now delay db = Ok (b, db') →
  b = true ∧ ∃ ts own expires d, recovered_state c now delay db db' ts own expires d.
Proof.
  intros Hok Hr. unfold recover_expired in Hr. bind Hr as cur Hcur. bind Hr as o Ho.
  apply ok_or_Ok, filter_opt_Some in Ho as [-> ->%bool_decide_eq_true].
  set (o := candidate_outbox c) in *. bind Hr as u1 Hrej. apply reject_if_Ok in Hrej. to_prop.
  bind Hr as own Hown. apply ok_or_Ok in Hown. bind Hr as ts Hts. bind Hr as u2 Hval. destruct u2.
  bind Hr as db1 Hdb1. bind Hr as ts' Hts'. bind Hr as d Hd.
  bind Hr as nx Hnx. apply optional_i64_Ok in Hnx as [-> _].
  bind Hr as now' Hnow. apply pub_i64_value_Ok in Hnow as [-> _].
  bind Hr as rev Hrev. apply pub_i64_value_Ok in Hrev as [-> _].
  bind Hr as ex Hex. apply ok_or_Ok in Hex. bind Hr as ex' Hex'. apply pub_i64_value_Ok in Hex' as [-> _].
  bind Hr as x Hx. destruct x as [rows n]. apply pub_exec_Ok in Hx.
  bind Hr as u3 Haff. apply reject_if_Ok in Haff. to_prop. injection Hr as <- <-.
  destruct (recover_targets_Ok o own now delay ts db (submitted_targets ts) [] db db1 Hval Hcur)
    as ([Hok1 Hts1 Hoth1 Hatt1 [Hev1 Hob1]] & Hall); [| | |done|].
  { intros t Ht. by apply list_elem_of_In, filter_In in Ht as [Ht%list_elem_of_In _]. }
  { apply NoDup_ListNoDup, List.NoDup_filter, NoDup_ListNoDup. by eapply NoDup_validated. }
  { split; try done. simpl. rewrite map_id_on; done. simpl. by rewrite app_nil_r. }
  simpl in Hts1, Hatt1.
  assert (map (recover_some o now delay (submitted_targets ts)) ts =
    map (λ t, if bool_decide (t_state t = TSubmitted) then recover_record o now delay t else t) ts)
    as Hmap.
  { apply map_ext_in. intros t Ht%list_elem_of_In. unfold recover_some.
    assert (existsb (λ x, ordinal x =? ordinal t) (submitted_targets ts)
            = bool_decide (t_state t = TSubmitted)) as ->; [|done].
    apply eq_bool_prop_intro. rewrite !Is_true_true. rewrite (existsb_ordinal o ts); [|done..|].
    - unfold submitted_targets. rewrite list_elem_of_In, filter_In, <- list_elem_of_In. naive_solver.
    - intros y Hy. by apply list_elem_of_In, filter_In in Hy as [Hy%list_elem_of_In _]. }
  rewrite Hmap in Hts1. rewrite Hts1 in Hts'. injection Hts' as <-.
  assert (read_outbox (id o) db1 = Ok (Some o)) as Hcur1.
  { unfold read_outbox in *. by rewrite Hob1. }
  destruct (close_outbox_view db1 o _ _ _ _ d rows n Hok1 Hcur1 Hx Haff)
    as (Hok2 & Hread & _ & Hoth2 & _).
  split; [done|]. exists ts, own, ex, d. split; try done.
  - rewrite Hex in *. simpl in *. by to_prop.
  - intros j Hj. split; [exact (Hoth1 j Hj)|]. etrans; [exact (Hoth2 j Hj)|].
    unfold read_outbox. by rewrite Hob1.
Qed.

End Refine.
