(* ===== verification/PublicationHistory.v ===== *)
(** * Histories of publication operations

    The lemmas behind [PublicationSafety]: the exact retry bound, the
    specification of [disposition], the growth order that every committed
    operation respects, the consistency of schedules as an invariant, and the
    totality of preparing a due target. *)

From Stdlib Require Import ZArith Lia.
From stdpp Require Import list strings relations.
From S2P Require Import Prelude.
From S2P Require Import Sql.
From S2P Require Import Interfaces.
From S2P Require Import RuntimeAdapters.
From S2P Require Import StateMetadata.
From S2P Require Import Publication.
From S2P Require Import PublicationState.
From S2P Require Import PublicationSubmission.
From S2P Require Import PublicationExecution.
From S2P Require Import PublicationViews.
From S2P Require Import PublicationRefine.

Module History.
Import PubState Submission Execution Views Refine.

(** ** The retry bound *)

Lemma retry_loop_exact k maximum bound :
  1 ≤ bound ≤ maximum → maximum ≤ 3600000 →
  retry_loop k maximum bound = Z.min (bound * 2 ^ Z.of_nat k) maximum.
Proof.
  intros Hb Hm. revert bound Hb. induction k as [|k IH]; intros bound Hb; simpl retry_loop; [lia|].
  assert (u64_saturating_mul bound 2 = bound * 2) as ->.
  { unfold u64_saturating_mul. unfold_max. lia. }
  rewrite IH by lia. rewrite Nat2Z.inj_succ, Z.pow_succ_r by lia.
  pose proof (Z.pow_pos_nonneg 2 (Z.of_nat k) ltac:(lia) ltac:(lia)).
  destruct (Z.min_spec (bound * 2) maximum) as [[? ->]|[? ->]]; [f_equal; lia|]. nia.
Qed.

Lemma retry_bound_exact o n :
  outbox_ok o → 1 ≤ n →
  retry_upper_bound o n = Z.min (initial_backoff_ms o * 2 ^ (n - 1)) (maximum_backoff_ms o).
Proof.
  intros [] Hn. unfold retry_upper_bound. rewrite retry_loop_exact by lia.
  rewrite Z2Nat.id by lia. lia.
Qed.

(** ** Consistent schedules *)

(** Only a target that may be attempted again has a time for it. *)
Definition schedule_ok (o : OutboxRecord) (ts : list TargetRecord) : Prop :=
  Forall (λ t, ∀ v, t_next_attempt t = Some v →
            retryable_state (t_state t) = true ∧ t_attempt_count t < max_attempts o) ts.

Definition required_next (ts : list TargetRecord) : option Z :=
  minimum (omap t_next_attempt (List.filter required ts)).

Definition consistent (o : OutboxRecord) (ts : list TargetRecord) : Prop :=
  schedule_ok o ts ∧ Forall (λ t, t_attempt_count t ≤ max_attempts o) ts ∧
  (state o = Pending → next_attempt o = required_next ts).

Lemma minimum_Some l v :
  minimum l = Some v ↔ v ∈ l ∧ ∀ x, x ∈ l → v ≤ x.
Proof.
  revert v; induction l as [|x l IH]; intros v; simpl.
  - split; [done|]. by intros [?%elem_of_nil _].
  - destruct (minimum l) as [y|] eqn:E.
    + destruct (proj1 (IH y) eq_refl) as [Hy Hmin]. split.
      * intros [= <-]. split.
        { destruct (Z.min_spec x y) as [[_ ->]|[_ ->]]; [left|by right]. }
        intros z [->|Hz]%elem_of_cons; [lia|]. specialize (Hmin z Hz). lia.
      * intros [[->|Hv]%elem_of_cons Hall]; f_equal.
        { specialize (Hall y ltac:(by right)). lia. }
        specialize (Hmin v Hv). pose proof (Hall x ltac:(left)). pose proof (Hall y ltac:(by right)). lia.
    + assert (l = []) as ->.
      { destruct l as [|z l]; [done|]. simpl in E. by destruct (minimum l). }
      split.
      * intros [= <-]. split; [left|]. by intros z [->|?%elem_of_nil]%elem_of_cons.
      * intros [[->|?%elem_of_nil]%elem_of_cons _]; done.
Qed.

Lemma minimum_None l : minimum l = None → l = [].
Proof. destruct l as [|z l]; [done|]. simpl. by destruct (minimum l). Qed.

Lemma required_next_Some ts v :
  required_next ts = Some v ↔
  (∃ t, t ∈ ts ∧ required t = true ∧ t_next_attempt t = Some v) ∧
  (∀ t w, t ∈ ts → required t = true → t_next_attempt t = Some w → v ≤ w).
Proof.
  unfold required_next. rewrite minimum_Some, list_elem_of_omap. split.
  - intros [(t & Ht & Hv) Hmin]. apply list_elem_of_In, filter_In in Ht as [Ht Hr].
    split; [exists t; split_and!; [by apply list_elem_of_In|done..]|].
    intros u w Hu Hru Hw. apply Hmin. apply list_elem_of_omap. exists u. split; [|done].
    apply list_elem_of_In, filter_In. split; [by apply list_elem_of_In|done].
  - intros [(t & Ht & Hr & Hv) Hmin]. split.
    + exists t. split; [|done]. apply list_elem_of_In, filter_In.
      split; [by apply list_elem_of_In|done].
    + intros w (u & Hu & Hw)%list_elem_of_omap. apply list_elem_of_In, filter_In in Hu as [Hu Hru].
      apply list_elem_of_In in Hu. by eapply Hmin.
Qed.

Lemma forallb_required ts (p : TargetRecord → bool) :
  forallb p (List.filter required ts) = true ↔ ∀ t, t ∈ ts → required t = true → p t = true.
Proof.
  rewrite forallb_forall. setoid_rewrite filter_In. setoid_rewrite <- list_elem_of_In. naive_solver.
Qed.

Lemma existsb_required ts (p : TargetRecord → bool) :
  existsb p (List.filter required ts) = true ↔ ∃ t, t ∈ ts ∧ required t = true ∧ p t = true.
Proof.
  rewrite existsb_exists. setoid_rewrite filter_In. setoid_rewrite <- list_elem_of_In. naive_solver.
Qed.

(** The specification of [disposition]. *)
Definition all_accepted (ts : list TargetRecord) : Prop :=
  ∀ t, t ∈ ts → required t = true → t_state t = TAccepted.
(** A target that can make no further progress: refused for good, or out of
    attempts with none scheduled. *)
Definition blocked (maximum : Z) (t : TargetRecord) : Prop :=
  t_state t ∈ [TRejected; TAuthRequired] ∨
  (t_state t ∈ [TPending; TFailed; TRateLimited; TUnknown] ∧ maximum ≤ t_attempt_count t ∧
   t_next_attempt t = None).

Definition some_blocking (o : OutboxRecord) (ts : list TargetRecord) : Prop :=
  ∃ t, t ∈ ts ∧ required t = true ∧ blocked (max_attempts o) t.

Lemma blocked_true t maximum : target_is_blocking t maximum = true ↔ blocked maximum t.
Proof.
  unfold target_is_blocking, blocked, retryable_state, is_null.
  rewrite !elem_of_cons, !elem_of_nil.
  destruct (t_state t), (t_next_attempt t); rewrite ?orb_true_iff, ?andb_true_iff, ?Z.leb_le; naive_solver.
Qed.

Lemma disposition_Ok `{Sha256} o ts d :
  disposition o ts = Ok d ↔
  validate_targets o ts = Ok tt ∧
  ((all_accepted ts ∧ d = MkDisposition Complete None) ∨
   (¬ all_accepted ts ∧ some_blocking o ts ∧ d = MkDisposition Blocked None) ∨
   (¬ all_accepted ts ∧ ¬ some_blocking o ts ∧
    ∃ v, required_next ts = Some v ∧ d = MkDisposition Pending (Some v))).
Proof.
  unfold disposition. rewrite and_then_Ok.
  assert (forallb (λ t, bool_decide (t_state t = TAccepted)) (List.filter required ts) = true
          ↔ all_accepted ts) as Hall.
  { rewrite forallb_required. unfold all_accepted. setoid_rewrite bool_decide_eq_true. done. }
  assert (existsb (λ t, target_is_blocking t (max_attempts o)) (List.filter required ts) = true
          ↔ some_blocking o ts) as Hblk.
  { rewrite existsb_required. unfold some_blocking. by setoid_rewrite blocked_true. }
  assert (∀ r, (∃ a : unit, validate_targets o ts = Ok a ∧ r = Ok d) ↔
               validate_targets o ts = Ok tt ∧ r = Ok (E := OperationError) d) as Hunit.
  { intros r. split; [intros ([] & ? & ?); done|intros []; by exists tt]. }
  rewrite Hunit. clear Hunit. apply and_iff_compat_l.
  destruct (forallb _ _) eqn:Ea; [|destruct (existsb _ _) eqn:Eb].
  - assert (all_accepted ts) by (by apply Hall). naive_solver.
  - assert (¬ all_accepted ts) by (by intros ?%Hall). assert (some_blocking o ts) by (by apply Hblk).
    naive_solver.
  - assert (¬ all_accepted ts) by (by intros ?%Hall).
    assert (¬ some_blocking o ts) by (by intros ?%Hblk).
    unfold required_next. destruct (minimum _) as [v|]; simpl; naive_solver.
Qed.

(** ** Histories of operations *)

Section history.
Context `{Sha256}.

(** One committed operation of some caller, at any time and with any lease. *)
Inductive pub_step : publication_db → publication_db → Prop :=
| step_claim own now a db l db' :
    nonzero_owner own → claim_next own now a db = Ok (l, db') → pub_step db db'
| step_prepare l now db p db' : prepare_next l now db = Ok (p, db') → pub_step db db'
| step_record i db c db' : record_outcome i db = Ok (c, db') → pub_step db db'
| step_recover c now delay db b db' : recover_expired c now delay db = Ok (b, db') → pub_step db db'.

(** How one target may change. *)
Record target_grows (t t' : TargetRecord) : Prop := {
  tg_same_ordinal : ordinal t' = ordinal t;
  tg_same_relay : relay_id t' = relay_id t;
  tg_same_required : required t' = required t;
  tg_attempts_grow : t_attempt_count t ≤ t_attempt_count t';
  tg_revision_grows : t_revision t ≤ t_revision t';
  tg_accepted_final : t_state t = TAccepted → t' = t;
}.

#[local] Instance target_grows_preorder : PreOrder target_grows.
Proof.
  split.
  - intros t. by split.
  - intros t u v [] []. split; try congruence; try lia. intros Ha.
    assert (u = t) as -> by auto. auto.
Qed.

(** How the whole state may change. *)
Record db_grows (db db' : publication_db) : Prop := {
  dg_tables : tables_ok db' = true;
  dg_events : events db' = events db;
  dg_attempts : attempts db `prefix_of` attempts db';
  dg_outbox : ∀ i o, read_outbox i db = Ok (Some o) →
    ∃ o', read_outbox i db' = Ok (Some o') ∧ same_outbox_identity o' o = true ∧
          revision o ≤ revision o';
  dg_targets : ∀ i ts, read_targets i db = Ok ts →
    ∃ ts', read_targets i db' = Ok ts' ∧ Forall2 target_grows ts ts';
}.

Lemma same_identity_refl o : same_outbox_identity o o = true.
Proof. unfold same_outbox_identity. by rewrite !bytes_eqb_refl, !Z.eqb_refl. Qed.

Lemma same_identity_fields c p :
  same_outbox_identity c p = true ↔
  id c = id p ∧ outbox_event_sha256 c = outbox_event_sha256 p ∧
  outbox_authority_sha256 c = outbox_authority_sha256 p ∧
  outbox_target_set_sha256 c = outbox_target_set_sha256 p ∧ target_count c = target_count p ∧
  required_target_count c = required_target_count p ∧ max_attempts c = max_attempts p ∧
  initial_backoff_ms c = initial_backoff_ms p ∧ maximum_backoff_ms c = maximum_backoff_ms p ∧
  attempt_deadline_ms c = attempt_deadline_ms p ∧ created_at c = created_at p.
Proof.
  unfold same_outbox_identity. rewrite !andb_true_iff, !bytes_eqb_true, !Z.eqb_eq. tauto.
Qed.

Lemma grows_refl ts : Forall2 target_grows ts ts.
Proof. induction ts; constructor; done. Qed.

Lemma db_grows_refl db : tables_ok db = true → db_grows db db.
Proof.
  intros Hok. split; try done.
  - intros i o Ho. exists o. split_and!; [done|apply same_identity_refl|lia].
  - intros i ts Hts. exists ts. split; [done|apply grows_refl].
Qed.

Lemma db_grows_trans db1 db2 db3 : db_grows db1 db2 → db_grows db2 db3 → db_grows db1 db3.
Proof.
  intros [_ He Ha Ho Ht] [Hok He' Ha' Ho' Ht']. split; [done|congruence|by etrans|..].
  - intros i o (o1 & H1 & Hs1 & Hr1)%Ho. destruct (Ho' _ _ H1) as (o2 & H2 & Hs2 & Hr2).
    exists o2. rewrite same_identity_fields in *. split_and!; try done; try lia; naive_solver congruence.
  - intros i ts (ts1 & H1 & Hf1)%Ht. destruct (Ht' _ _ H1) as (ts2 & H2 & Hf2).
    exists ts2. split; [done|]. by etrans.
Qed.

Lemma grows_map g ts :
  (∀ t, t ∈ ts → target_grows t (g t)) → Forall2 target_grows ts (map g ts).
Proof.
  intros Hg. induction ts as [|t ts IH]; constructor.
  - apply Hg. left.
  - apply IH. intros u Hu. apply Hg. by right.
Qed.

Lemma submit_grows t attempt now k :
  retryable_state (t_state t) = true ∨ ordinal t ≠ k →
  target_grows t (at_ordinal k (submit_record attempt now) t).
Proof.
  unfold at_ordinal. intros Hr. destruct (Z.eqb_spec (ordinal t) k) as [E|E]; [|by split].
  destruct Hr as [Hr|]; [|done]. split; simpl; try done; try lia. intros Ha. by rewrite Ha in Hr.
Qed.

Lemma settle_grows t st next now k :
  t_state t = TSubmitted ∨ ordinal t ≠ k →
  target_grows t (at_ordinal k (settle_record st next now) t).
Proof.
  unfold at_ordinal. intros Hr. destruct (Z.eqb_spec (ordinal t) k) as [E|E]; [|by split].
  destruct Hr as [Hr|]; [|done]. split; simpl; try done; try lia. intros Ha. congruence.
Qed.

(** Reads of the one outbox and one inventory an operation changes. *)
Lemma grows_intro db db' i o o' ts ts' :
  tables_ok db' = true → events db' = events db → attempts db `prefix_of` attempts db' →
  read_outbox i db = Ok (Some o) → read_outbox i db' = Ok (Some o') →
  same_outbox_identity o' o = true → revision o ≤ revision o' →
  read_targets i db = Ok ts → read_targets i db' = Ok ts' → Forall2 target_grows ts ts' →
  (∀ j, j ≠ i → read_targets j db' = read_targets j db ∧ read_outbox j db' = read_outbox j db) →
  db_grows db db'.
Proof.
  intros Hok He Ha Ho Ho' Hs Hr Ht Ht' Hf Hj. split; try done.
  - intros j x Hx. destruct (decide (j = i)) as [->|Hne].
    + rewrite Ho in Hx. injection Hx as <-. by exists o'.
    + exists x. rewrite (proj2 (Hj j Hne)). split_and!; [done|apply same_identity_refl|lia].
  - intros j x Hx. destruct (decide (j = i)) as [->|Hne].
    + rewrite Ht in Hx. injection Hx as <-. by exists ts'.
    + exists x. rewrite (proj1 (Hj j Hne)). split; [done|apply grows_refl].
Qed.

Lemma claim_grows own now a db l db' :
  tables_ok db = true → nonzero_owner own → claim_next own now a db = Ok (l, db') → db_grows db db'.
Proof.
  intros Hok Hown Hc. destruct l as [l|].
  - apply pub_claim_next_Ok in Hc as (r & o & ts & rows & _ & _ & _ & _ & _ & Hread & _ & Hts & _ & _ &
      _ & _ & Hl & Hdb & Hok' & Hread' & Hoth); [|done..].
    subst. eapply (grows_intro _ _ (id o) o _ ts ts);
      [exact Hok'|done|done|exact Hread|exact Hread'| | |exact Hts|exact Hts|apply grows_refl|].
    + apply same_identity_fields. by split_and!.
    + simpl. lia.
    + intros j Hj. split; [done|by apply Hoth].
  - assert (db' = db) as ->; [|by apply db_grows_refl].
    unfold claim_next in Hc. bind Hc as n Hn. bind Hc as row Hrow. destruct row; [|by injection Hc].
    do 6 (apply and_then_Ok in Hc as (? & _ & Hc)). bind Hc as res Hres. destruct res as [rows k].
    do 3 (apply and_then_Ok in Hc as (? & _ & Hc)). done.
Qed.

Lemma prepare_grows l now db p db' :
  tables_ok db = true → prepare_next l now db = Ok (p, db') → db_grows db db'.
Proof.
  intros Hok (ts & t & [])%prepare_next_Ok; [|done]. destruct ps_frame0 as (He & Ho & Ha).
  pose proof (find_some _ _ ps_first0) as [Hin Hdue]. apply target_due_true in Hdue as [Hret _].
  apply list_elem_of_In in Hin.
  assert (∀ j, read_outbox j db' = read_outbox j db) as Hro
    by (intros j; unfold read_outbox; by rewrite Ho).
  destruct ps_lease0 as [Hread _ _ _ _].
  eapply (grows_intro db db'); [done|done|by rewrite Ha|exact Hread|by rewrite Hro| | |done|done| |].
  - apply same_identity_refl.
  - lia.
  - apply grows_map. intros u Hu. apply submit_grows.
    destruct (Z.eq_dec (ordinal u) (ordinal t)) as [E|]; [left|by right].
    by rewrite (ordinal_unique _ _ _ _ ps_valid0 Hu Hin E).
  - intros j Hj. split; [by apply ps_others0|done].
Qed.

Lemma record_grows i db c db' :
  tables_ok db = true → record_outcome i db = Ok (c, db') → db_grows db db'.
Proof.
  intros Hok Hr. destruct (read_attempt (i_attempt_id i) db) as [[a|]|] eqn:Ha.
  - unfold record_outcome in Hr. rewrite Ha in Hr. cbn [and_then] in Hr. bind Hr as cm Hcm.
    injection Hr as <- <-. by apply db_grows_refl.
  - apply record_fresh_Ok in Hr as (ts & t & next & d & []); [|done..].
    destruct rs_lease0 as [Hread _ _ _ _].
    eapply (grows_intro db db');
      [done|done|by rewrite rs_attempts0; eexists|exact Hread|done| | |done|done| |done].
    + apply same_identity_fields. by split_and!.
    + simpl. lia.
    + apply grows_map. intros u Hu. apply settle_grows.
      destruct (Z.eq_dec (ordinal u) (ordinal t)) as [E|]; [left|by right].
      rewrite (ordinal_unique _ _ _ _ rs_valid0 Hu rs_target0 E). by destruct rs_submitted0.
  - unfold record_outcome in Hr. by rewrite Ha in Hr.
Qed.

Lemma recover_grows c now delay db b db' :
  tables_ok db = true → recover_expired c now delay db = Ok (b, db') → db_grows db db'.
Proof.
  intros Hok (_ & ts & own & ex & d & [])%recover_expired_Ok; [|done].
  eapply (grows_intro db db');
    [done|done|by rewrite rc_attempts0; eexists|done|done| | |done|done| |done].
  - apply same_identity_fields. by split_and!.
  - simpl. lia.
  - apply grows_map. intros u Hu. destruct (bool_decide_reflect (t_state u = TSubmitted)); [|by split].
    split; simpl; try done; try lia. congruence.
Qed.

Lemma step_grows db db' : tables_ok db = true → pub_step db db' → db_grows db db'.
Proof.
  intros Hok Hs. destruct Hs; [by eapply claim_grows|by eapply prepare_grows|by eapply record_grows
    |by eapply recover_grows].
Qed.

Lemma history_grows db db' : tables_ok db = true → rtc pub_step db db' → db_grows db db'.
Proof.
  intros Hok Hs. induction Hs as [db|db1 db2 db3 H12 _ IH]; [by apply db_grows_refl|].
  pose proof (step_grows _ _ Hok H12) as Hg. eapply db_grows_trans; [done|].
  apply IH. by destruct Hg.
Qed.

(** ** Consistency is an invariant *)

Definition db_consistent (db : publication_db) : Prop :=
  ∀ i o ts, read_outbox i db = Ok (Some o) → read_targets i db = Ok ts → consistent o ts.

Lemma consistent_intro db db' i o' ts' :
  db_consistent db → read_outbox i db' = Ok (Some o') → read_targets i db' = Ok ts' →
  consistent o' ts' →
  (∀ j, j ≠ i → read_targets j db' = read_targets j db ∧ read_outbox j db' = read_outbox j db) →
  db_consistent db'.
Proof.
  intros Hc Ho Ht Hn Hj j x us Hx Hus. destruct (decide (j = i)) as [->|Hne].
  - rewrite Ho in Hx. rewrite Ht in Hus. by simplify_eq.
  - destruct (Hj j Hne) as [E1 E2]. rewrite E2 in Hx. rewrite E1 in Hus. by eapply Hc.
Qed.

(** Mapping the targets keeps schedules and attempt budgets when each target does. *)
Lemma consistent_map o o' ts g :
  consistent o ts → max_attempts o' = max_attempts o →
  (∀ t, t ∈ ts → t_attempt_count t ≤ max_attempts o →
     t_attempt_count (g t) ≤ max_attempts o ∧
     ∀ v, t_next_attempt (g t) = Some v →
       t_next_attempt t = Some v ∧ g t = t ∨
       retryable_state (t_state (g t)) = true ∧ t_attempt_count (g t) < max_attempts o) →
  (state o' = Pending → next_attempt o' = required_next (map g ts)) →
  consistent o' (map g ts).
Proof.
  intros (Hs & Hc & _) Hm Hg Hn. unfold consistent, schedule_ok in *. rewrite Hm.
  rewrite List.Forall_forall in Hs, Hc. rewrite !List.Forall_forall. split_and!; [| |done].
  - intros u Hu. apply in_map_iff in Hu as (t & <- & Ht). intros v Hv.
    destruct (Hg t) as [_ Hgv]; [by apply list_elem_of_In|by apply Hc|].
    destruct (Hgv v Hv) as [[Hv' ->]|]; [by eapply Hs|done].
  - intros u Hu. apply in_map_iff in Hu as (t & <- & Ht).
    apply Hg; [by apply list_elem_of_In|by apply Hc].
Qed.

Lemma disposition_pending o ts d now :
  disposition o ts = Ok d → state (close_record d now o) = Pending →
  next_attempt (close_record d now o) = required_next ts.
Proof.
  intros [_ Hd]%disposition_Ok. simpl.
  destruct Hd as [[_ ->]|[(_ & _ & ->)|(_ & _ & v & Hv & ->)]]; simpl; done.
Qed.

Lemma claim_consistent own now a db l db' :
  tables_ok db = true → nonzero_owner own → claim_next own now a db = Ok (Some l, db') →
  db_consistent db → db_consistent db'.
Proof.
  intros Hok Hown Hc Hcons. apply pub_claim_next_Ok in Hc as
    (r & o & ts & rows & _ & _ & _ & _ & _ & Hread & _ & Hts & _ & _ & _ & _ & Hl & Hdb & _ & Hread' & Hoth);
    [|done..].
  subst. eapply (consistent_intro db); [done|exact Hread'|exact Hts| |].
  - destruct (Hcons _ _ _ Hread Hts) as (Hs & Hn & _). by split_and!.
  - intros j Hj. split; [done|by apply Hoth].
Qed.

Lemma prepare_consistent l now db p db' :
  tables_ok db = true → prepare_next l now db = Ok (p, db') → db_consistent db → db_consistent db'.
Proof.
  intros Hok (ts & t & [])%prepare_next_Ok Hcons; [|done]. destruct ps_frame0 as (_ & Ho & _).
  assert (∀ j, read_outbox j db' = read_outbox j db) as Hro
    by (intros j; unfold read_outbox; by rewrite Ho).
  destruct ps_lease0 as [Hread Hleased _ _ _].
  pose proof (find_some _ _ ps_first0) as [Hin Hdue]. apply target_due_true in Hdue as (_ & Hlt & _).
  apply list_elem_of_In in Hin.
  eapply (consistent_intro db); [done|rewrite Hro; exact Hread|exact ps_after0| |].
  - eapply consistent_map; [by eapply Hcons|done| |by rewrite Hleased].
    intros u Hu Hle. unfold at_ordinal. destruct (Z.eqb_spec (ordinal u) (ordinal t)) as [E|E].
    + assert (u = t) as -> by (by eapply ordinal_unique). simpl. split; [lia|done].
    + split; [done|]. intros v Hv. by left.
  - intros j Hj. split; [by apply ps_others0|done].
Qed.

Lemma record_consistent i db c db' :
  tables_ok db = true → record_outcome i db = Ok (c, db') → db_consistent db → db_consistent db'.
Proof.
  intros Hok Hr Hcons. destruct (read_attempt (i_attempt_id i) db) as [[a|]|] eqn:Ha.
  - unfold record_outcome in Hr. rewrite Ha in Hr. cbn [and_then] in Hr. bind Hr as cm Hcm.
    by injection Hr as <- <-.
  - apply record_fresh_Ok in Hr as (ts & t & next & d & []); [|done..].
    destruct rs_lease0 as [Hread _ _ _ _]. apply outcome_schedule_Ok in rs_schedule0 as (_ & _ & Hnx).
    cbv zeta in Hnx. destruct Hnx as [-> _]. destruct rs_submitted0 as (_ & _ & Hcount & _).
    eapply (consistent_intro db); [done|exact rs_outbox0|exact rs_after0| |done].
    eapply consistent_map; [by eapply Hcons|done| |by apply disposition_pending].
    intros u Hu Hle. unfold at_ordinal. destruct (Z.eqb_spec (ordinal u) (ordinal t)) as [E|E].
    + assert (u = t) as -> by (by eapply ordinal_unique). simpl. split; [done|].
      intros v Hv. right. destruct (retryable_outcome (i_outcome i)) eqn:Er; simpl in Hv; [|done].
      destruct (Z.ltb_spec (i_attempt_number i) (max_attempts (lease_outbox (i_lease i)))); [|done].
      split; [by destruct (i_outcome i)|lia].
    + split; [done|]. intros v Hv. by left.
  - unfold record_outcome in Hr. by rewrite Ha in Hr.
Qed.

Lemma recover_consistent c now delay db b db' :
  tables_ok db = true → recover_expired c now delay db = Ok (b, db') → db_consistent db →
  db_consistent db'.
Proof.
  intros Hok (_ & ts & own & ex & d & [])%recover_expired_Ok Hcons; [|done].
  eapply (consistent_intro db); [done|exact rc_outbox0|exact rc_after0| |done].
  eapply consistent_map; [by eapply Hcons|done| |by apply disposition_pending].
  intros u Hu Hle. destruct (bool_decide_reflect (t_state u = TSubmitted)).
  - simpl. split; [done|]. intros v Hv. right.
    destruct (Z.ltb_spec (t_attempt_count u) (max_attempts (candidate_outbox c))); [by split|done].
  - split; [done|]. intros v Hv. by left.
Qed.

Lemma claim_none own now a db db' : claim_next own now a db = Ok (None, db') → db' = db.
Proof.
  unfold claim_next. intros Hc. bind Hc as n Hn. bind Hc as row Hrow.
  destruct row; [|by injection Hc].
  do 6 (apply and_then_Ok in Hc as (? & _ & Hc)). bind Hc as res Hres. destruct res as [rows k].
  do 3 (apply and_then_Ok in Hc as (? & _ & Hc)). done.
Qed.

Lemma step_consistent db db' :
  tables_ok db = true → pub_step db db' → db_consistent db → db_consistent db'.
Proof.
  intros Hok Hs. destruct Hs as [own now a db [l|] db1 Hown Hc|l now db p db1 Hp|i db c db1 Hr
    |c now delay db b db1 Hr].
  - by eapply claim_consistent.
  - by apply claim_none in Hc as ->.
  - by eapply prepare_consistent.
  - by eapply record_consistent.
  - by eapply recover_consistent.
Qed.

Lemma history_consistent db db' :
  tables_ok db = true → rtc pub_step db db' → db_consistent db → db_consistent db'.
Proof.
  intros Hok Hs. induction Hs as [db|db1 db2 db3 H12 _ IH]; [done|]. intros Hc.
  apply IH; [|by eapply step_consistent]. by destruct (step_grows _ _ Hok H12).
Qed.

(** No target is scheduled before its own last write: the clock, not a stored
    time, decides when it is due.  The delays are the code's [u64] values. *)
Definition forward (t : TargetRecord) : Prop :=
  ∀ v, t_next_attempt t = Some v → t_updated_at t ≤ v.

Definition db_forward (db : publication_db) : Prop :=
  ∀ i ts, read_targets i db = Ok ts → Forall forward ts.

Lemma forward_intro db db' i ts g :
  db_forward db → read_targets i db = Ok ts → read_targets i db' = Ok (map g ts) →
  (∀ t, t ∈ ts → forward t → forward (g t)) →
  (∀ j, j ≠ i → read_targets j db' = read_targets j db) → db_forward db'.
Proof.
  intros Hf Hts Hts' Hg Hj j us Hus. destruct (decide (j = i)) as [->|Hne].
  - rewrite Hts' in Hus. injection Hus as <-. apply List.Forall_forall. intros u Hu.
    apply in_map_iff in Hu as (t & <- & Ht%list_elem_of_In).
    apply Hg; [done|]. exact (elem_of_Forall _ _ _ (Hf _ _ Hts) Ht).
  - apply (Hf j). by rewrite <- Hj.
Qed.

(** Every operation keeps it. *)
Lemma claim_forward own now a db l db' :
  tables_ok db = true → nonzero_owner own → claim_next own now a db = Ok (l, db') →
  db_forward db → db_forward db'.
Proof.
  intros Hok Hown Hc Hf. destruct l as [l|]; [|by apply claim_none in Hc as ->].
  apply pub_claim_next_Ok in Hc as
    (r & o & ts & rows & _ & _ & _ & _ & _ & _ & _ & _ & _ & _ & _ & _ & _ & -> & _);
    [|done..].
  exact Hf.
Qed.

Lemma prepare_forward l now db p db' :
  tables_ok db = true → prepare_next l now db = Ok (p, db') → db_forward db → db_forward db'.
Proof.
  intros Hok (ts & t & [])%prepare_next_Ok Hf; [|done].
  eapply forward_intro; [done|done|done| |done]. intros u _ Hu. unfold at_ordinal.
  by destruct (_ =? _).
Qed.

Lemma record_forward i db c db' :
  tables_ok db = true → 0 ≤ i_retry_delay i → record_outcome i db = Ok (c, db') →
  db_forward db → db_forward db'.
Proof.
  intros Hok Hdelay Hr Hf. destruct (read_attempt (i_attempt_id i) db) as [[a|]|] eqn:Ha.
  - unfold record_outcome in Hr. rewrite Ha in Hr. cbn [and_then] in Hr. bind Hr as cm Hcm.
    by injection Hr as <- <-.
  - apply record_fresh_Ok in Hr as (ts & t & next & d & []); [|done..].
    apply outcome_schedule_Ok in rs_schedule0 as (_ & _ & Hnx). cbv zeta in Hnx.
    destruct Hnx as [-> _]. eapply forward_intro; [done|done|done| |intros j Hj; by apply rs_others0].
    intros u _ Hu. unfold at_ordinal. destruct (_ =? _); [|done]. intros v Hv. simpl in *.
    destruct (_ && _); [|done]. injection Hv as <-. lia.
  - unfold record_outcome in Hr. by rewrite Ha in Hr.
Qed.

Lemma recover_forward c now delay db b db' :
  tables_ok db = true → 0 ≤ delay → recover_expired c now delay db = Ok (b, db') →
  db_forward db → db_forward db'.
Proof.
  intros Hok Hdelay (_ & ts & own & ex & d & [])%recover_expired_Ok Hf; [|done].
  eapply forward_intro; [done|done|done| |intros j Hj; by apply rc_others0].
  intros u _ Hu. cbn beta. destruct (bool_decide _); [|done]. intros v Hv. simpl in *.
  destruct (_ <? _); [|done]. injection Hv as <-. lia.
Qed.

(** ** Enough to prepare *)

Lemma find_at_ordinal_intro o ts t g :
  validate_targets o ts = Ok tt → t ∈ ts → (∀ u, ordinal (g u) = ordinal u) →
  List.find (λ u, ordinal u =? ordinal t) (map (at_ordinal (ordinal t) g) ts) = Some (g t).
Proof.
  intros Hval Hin Hg. destruct (List.find _ _) as [u|] eqn:E.
  - apply find_at_ordinal in E as (v & Hv & Ho & ->); [|done].
    by rewrite (ordinal_unique o ts v t).
  - exfalso. pose proof (find_none _ _ E (at_ordinal (ordinal t) g t)) as Hn.
    assert (ordinal (at_ordinal (ordinal t) g t) = ordinal t) as Ho.
    { unfold at_ordinal. rewrite Z.eqb_refl. apply Hg. }
    cbn beta in Hn. rewrite Ho, Z.eqb_refl in Hn. discriminate Hn. apply in_map_iff.
    exists t. split; [done|by apply list_elem_of_In].
Qed.

Definition prepare_where (i : bytes) (t : TargetRecord) (maximum now : Z) (r : target_row) : bool :=
  bytes_eqb (tg_outbox_id r) i && (tg_target_ordinal r =? ordinal t)
  && (tg_revision r =? t_revision t)
  && one_of ["pending"; "failed"; "rate_limited"; "unknown"] (tg_state r)
  && (tg_attempt_count r <? maximum) && col_le (tg_next_attempt_unix_ms r) now
  && (tg_updated_at_unix_ms r <=? now).

(** The preparing update succeeds on a due target and touches its row only. *)
Lemma prepare_update_total db o now t r aid :
  tables_ok db = true → 0 ≤ now ≤ I64_MAX → length aid = 32%nat →
  r ∈ targets db → tg_outbox_id r = id o → target_view r t →
  retryable_state (t_state t) = true → t_attempt_count t < max_attempts o → max_attempts o ≤ 100 →
  (∃ v, t_next_attempt t = Some v ∧ v ≤ now) → t_updated_at t ≤ now → t_revision t < I64_MAX →
  ∃ rows, PREPARE_TARGET_SQL aid now (id o) (ordinal t) (t_revision t) (max_attempts o) now now
            (targets db) = Ok (rows, 1).
Proof.
  intros Hok Hnow Haid Hr Hri Hrv Hret Hlt Hmax (nx & Hnx & Hnxle) Hupd Hrev.
  pose proof Hok as (_ & _ & Htab & _)%tables_ok_split.
  pose proof (rows_ok_check _ _ Htab Hr) as Hcheck. pose proof (target_check_ok r t Hcheck Hrv) as Htok.
  assert (prepare_where (id o) t (max_attempts o) now r = true) as Hpr.
  { unfold prepare_where. destruct Hrv as [-> _ _ -> -> -> -> _ ->].
    rewrite Hri, bytes_eqb_refl, !Z.eqb_refl, retryable_code, Hret, Hnx. unfold col_le; simpl.
    rewrite !andb_true_iff, Z.ltb_lt, !Z.leb_le. done. }
  assert (∀ s, s ∈ targets db → prepare_where (id o) t (max_attempts o) now s = true → s = r) as Huniq.
  { intros s Hs Hps. unfold prepare_where in Hps. to_prop.
    apply (target_rows_unique db); try done; [|by rewrite (tv_ordinal _ _ Hrv)].
    rewrite Hri. by apply bytes_eqb_true. }
  unfold PREPARE_TARGET_SQL. rewrite (update_rows_intro target_conflict_sym); [|done| |].
  - eexists. f_equal. f_equal.
    destruct (filter_unique (prepare_where (id o) t (max_attempts o) now) (targets db) Htab)
      as [Hn|(s & _ & _ & Hs)].
    + intros x y Hx Hy. unfold prepare_where in Hx, Hy. to_prop. simpl.
      repeat match goal with E : bytes_eqb _ _ = true |- _ => apply bytes_eqb_true in E; rewrite E end.
      rewrite bytes_eqb_refl; simpl. replace (tg_target_ordinal x) with (tg_target_ordinal y) by congruence.
      by rewrite Z.eqb_refl.
    + exfalso. assert (In r (List.filter (prepare_where (id o) t (max_attempts o) now) (targets db)))
        as Hin by (apply filter_In; split; [by apply list_elem_of_In|done]).
      by rewrite Hn in Hin.
    + unfold prepare_where in Hs. by rewrite Hs.
  - intros s Hs Hps. assert (s = r) as -> by (by apply Huniq).
    pose proof Hcheck as Hcheck'. destruct Htok, Hrv. simpl in Hcheck' |- *.
    unfold target_check, blob_of in *. simpl. to_prop.
    rewrite !bytes_eqb_refl, !Z.eqb_refl, String.eqb_refl.
    split.
    + rewrite !andb_true_iff, !Z.leb_le. split_and!; try done; try lia.
      rewrite negb_true_iff. apply String.eqb_neq. rewrite tv_state0. intros Ha.
      destruct (t_state t); done.
    + repeat match goal with E : _ = true |- _ => rewrite E; clear E end. simpl.
      rewrite Haid, !andb_true_iff, !between_true. split_and!; done || lia.
  - done.
Qed.

(** A due target of a held lease can be prepared. *)
Lemma prepare_next_total `{!Sha256Laws} l now db ts pub :
  tables_ok db = true → holds_lease l now db → 0 ≤ now ≤ I64_MAX →
  read_targets (id (lease_outbox l)) db = Ok ts → validate_targets (lease_outbox l) ts = Ok tt →
  (∃ t, t ∈ ts ∧ target_is_due t (max_attempts (lease_outbox l)) now = true) →
  Forall forward ts → Forall (λ t, t_revision t < I64_MAX) ts →
  max_attempts (lease_outbox l) ≤ 100 →
  read_committed (id (lease_outbox l)) db = Ok pub →
  event_sha256 pub = outbox_event_sha256 (lease_outbox l) →
  ∃ p db', prepare_next l now db = Ok (p, db').
Proof.
  intros Hok Hl Hnow Hts Hval (t0 & Ht0 & Hdue0) Hfwd Hall Hmax Hpub Hsha. set (o := lease_outbox l) in *.
  destruct (List.find (λ t, target_is_due t (max_attempts o) now) ts) as [t|] eqn:Hfind.
  2: { apply list_elem_of_In in Ht0. pose proof (find_none _ _ Hfind _ Ht0) as Hn. simpl in Hn.
       congruence. }
  pose proof (find_some _ _ Hfind) as [Hin Hdue]. apply list_elem_of_In in Hin.
  apply target_due_true in Hdue as (Hret & Hlt & nx & Hnx & Hnxle).
  pose proof (elem_of_Forall _ _ _ Hall Hin) as Hrevlt. simpl in Hrevlt.
  assert (t_updated_at t ≤ now) as Hupd
    by (pose proof (elem_of_Forall _ _ _ Hfwd Hin _ Hnx); lia).
  destruct (read_targets_rows _ _ _ _ Hts Hin) as (r & Hr & Hri & Hrv & Htok).
  pose proof Hok as (_ & _ & Htab & _)%tables_ok_split.
  set (aid := derive_attempt_id (id o) (outbox_event_sha256 o) (ordinal t) (t_attempt_count t + 1)).
  destruct Htok as [Hto Htr Htc Htl Hta Htrev Htn Htu].
  destruct (prepare_update_total db o now t r aid) as [rows Hrows]; try done;
    [apply sha256_length|by exists nx|].
  exists (MkPrepared l (submit_record aid now t) aid now (expires_at l) pub), (with_targets db rows).
  unfold prepare_next. fold o. cbv zeta.
  rewrite (proj2 (validate_lease_Ok l now db) Hl); cbn [and_then].
  rewrite Hts; cbn [and_then]. rewrite Hval; cbn [and_then]. rewrite Hfind; cbn [and_then ok_or].
  unfold u16_checked_add. destruct (Z.leb_spec (t_attempt_count t + 1) U16_MAX); [|unfold_max; lia].
  simpl filter_opt. destruct (Z.leb_spec (t_attempt_count t + 1) (max_attempts o)); [|lia].
  cbn [and_then ok_or]. fold aid.
  rewrite (proj2 (pub_i64_value_Ok now now)) by done. cbn [and_then].
  rewrite (proj2 (pub_i64_value_Ok (t_revision t) (t_revision t))) by (split; [done|lia]). cbn [and_then].
  rewrite Hrows. cbn [exec map_err and_then reject_if negb Z.eqb Pos.eqb].
  assert (prepared_target_view : read_targets (id o) (with_targets db rows) =
            Ok (map (at_ordinal (ordinal t) (submit_record aid now)) ts)).
  { destruct (prepare_update_spec db o now ts t aid rows 1) as (_ & Hafter & _); done. }
  rewrite prepared_target_view. cbn [and_then].
  rewrite (find_at_ordinal_intro o ts t) by done. simpl filter_opt.
  rewrite Z.eqb_refl, bool_decide_eq_true_2 by done. cbn [ok_or and_then].
  change (read_publication (id o) (with_targets db rows)) with (read_publication (id o) db).
  rewrite (proj2 (read_publication_Ok (id o) db pub) Hpub). cbn [and_then].
  by rewrite Hsha, bytes_eqb_refl.
Qed.

(** ** Recording again *)

Lemma recorded_again i db db' c ts t next d :
  recorded_state i db db' c ts t next d → record_outcome i db' = Ok (c, db').
Proof.
  intros []. set (o := lease_outbox (i_lease i)) in *.
  unfold record_outcome. rewrite (read_inserted_attempt i db' rs_tables0); cbn [and_then].
  2: { rewrite rs_attempts0. apply elem_of_app. right. left. }
  set (ts' := map _ ts) in *. unfold reconcile_recorded. fold o.
  rewrite bool_decide_eq_true_2 by done. cbn [negb reject_if and_then].
  rewrite rs_outbox0. cbn [ok_or and_then].
  destruct rs_outbox_ok0 as [_ _ _ _ _ _ _ _ _ _ _ Hrev _ _ _ _ _]. simpl in Hrev.
  unfold u64_checked_add at 1. rewrite (proj2 (Z.leb_le (revision o + 1) U64_MAX)) by (unfold_max; lia).
  cbn [ok_or and_then].
  assert (same_outbox_identity (close_record d (i_finished_at i) o) o = true) as ->
    by (apply same_identity_fields; by split_and!).
  simpl. rewrite !Z.eqb_refl; cbn [negb orb reject_if and_then].
  rewrite rs_after0; cbn [and_then].
  assert (validate_targets (close_record d (i_finished_at i) o) ts' = Ok tt) as ->
    by exact (disposition_valid _ _ _ rs_disposition0).
  cbn [and_then]. rewrite rs_schedule0; cbn [and_then].
  destruct rs_submitted0 as (_ & Htr & Htc & Htl & _).
  destruct rs_target_ok0 as [_ _ _ _ _ Hrevt _ _]. simpl in Hrevt.
  unfold u64_checked_add. rewrite (proj2 (Z.leb_le (i_target_revision i + 1) U64_MAX))
    by (unfold_max; lia).
  cbn [ok_or and_then]. unfold ts'. rewrite <- rs_ordinal0, (find_at_ordinal_intro o ts t) by done.
  simpl. rewrite Htr, Htc, Htl, !Z.eqb_refl, !bool_decide_eq_true_2 by done. cbn [andb ok_or and_then].
  change (disposition (close_record d (i_finished_at i) o)) with (disposition o).
  fold ts'. rewrite rs_disposition0. cbn [and_then].
  rewrite !bool_decide_eq_true_2 by done. cbn [negb orb reject_if and_then].
  rewrite rs_commit0. unfold commit_of. by rewrite <- rs_ordinal0.
Qed.

(** ** Decoding fails only with [Invariant] *)

Definition only_invariant {A} (c : result OperationError A) : Prop := ∀ e, c = Err e → e = OpInvariant.

Lemma only_invariant_bind {A B} (c : result OperationError A) (k : A → result OperationError B) :
  only_invariant c → (∀ a, only_invariant (k a)) → only_invariant (and_then c k).
Proof. intros Hc Hk e [?|(a & _ & ?)]%and_then_Err; [by apply Hc|by eapply Hk]. Qed.

Lemma only_invariant_ok_or {A} (o : option A) : only_invariant (ok_or o OpInvariant).
Proof. by intros e [_ ?]%ok_or_Err. Qed.

Lemma only_invariant_reject b : only_invariant (reject_if b OpInvariant).
Proof. by intros e [_ ?]%reject_if_Err. Qed.

Lemma decode_attempt_only r : only_invariant (decode_attempt r).
Proof.
  unfold decode_attempt, bounded_text, nonnegative_millis.
  repeat first
    [ apply only_invariant_bind; [|intros ?] | apply only_invariant_reject
    | apply only_invariant_ok_or ]; try (by intros ?).
  unfold decode_attempt_outcome. intros e He. repeat case_match; by simplify_eq.
Qed.

(** An attempt that is recorded differently is refused. *)
Lemma conflicting_record i db r :
  tables_ok db = true → r ∈ attempts db → at_attempt_id r = i_attempt_id i →
  ¬ attempt_view r (attempt_from_input i) → record_outcome i db = Err OpInvariant.
Proof.
  intros (_ & _ & _ & Ha)%tables_ok_split Hr Hid Hne. unfold record_outcome.
  rewrite <- Hid, (read_attempt_row db r Ha Hr).
  destruct (decode_attempt r) as [a|e] eqn:Hd; cbn [and_then].
  - unfold reconcile_recorded. rewrite bool_decide_eq_false_2; [done|]. intros ->.
    by apply Hne, decode_attempt_view.
  - by rewrite (decode_attempt_only r e Hd).
Qed.

(** ** Running repository methods *)

Lemma run_Ok `{TransactionLaws publication_db} {A}
    (op : publication_db → result OperationError (A * publication_db)) db a db' :
  run op db = (Ok a, db') → op db = Ok (a, db').
Proof.
  unfold run. destruct (transaction op db) as [r d] eqn:E. intros [= Hr <-].
  apply map_err_Ok in Hr as ->. by eapply tx_committed.
Qed.

(** A method that fails leaves the state it found, or the one it meant to commit. *)
Lemma run_Err `{TransactionLaws publication_db} {A}
    (op : publication_db → result OperationError (A * publication_db)) db e db' :
  run op db = (Err e, db') → db' = db ∨ e = CommitOutcomeUnknown ∧ ∃ a, op db = Ok (a, db').
Proof.
  unfold run. destruct (transaction op db) as [[a|te] d] eqn:E; intros [= He <-].
  destruct (commit_outcome_unknown te) eqn:Eu.
  - destruct (tx_unknown _ _ _ _ E Eu) as (a & d' & Hop & [->| ->]); [by left|right].
    split; [|by exists a]. unfold map_transaction_error in He. by rewrite Eu in He.
  - left. by destruct (tx_rolled_back _ _ _ _ E Eu).
Qed.

(** Recovery and claims through a host keep the tables well formed. *)
Lemma run_tables `{TransactionLaws publication_db} {A}
    (op : publication_db → result OperationError (A * publication_db)) db r db' :
  tables_ok db = true → (∀ a d, op db = Ok (a, d) → tables_ok d = true) →
  run op db = (r, db') → tables_ok db' = true.
Proof.
  intros Hok Hop Hr. destruct r as [a|e].
  - by eapply Hop, run_Ok.
  - destruct (run_Err _ _ _ _ Hr) as [->|(_ & a & Ha)]; [done|by eapply Hop].
Qed.

Lemma recover_one_tables `{TransactionLaws publication_db, WallClock W, !EntropySource W}
    writable now authority db (w : W) r db' w' :
  tables_ok db = true → recover_one_expired_publication writable now authority db w = (r, db', w') →
  tables_ok db' = true.
Proof.
  intros Hok Hr. unfold recover_one_expired_publication in Hr.
  destruct writable; simpl in Hr; [|by injection Hr as _ <- _].
  destruct (from_authority authority) as [b|]; [|by injection Hr as _ <- _].
  destruct (run _ db) as [res db1] eqn:E1.
  assert (tables_ok db1 = true) as Hok1.
  { eapply run_tables; [exact Hok| |exact E1]. intros a d Ha. cbv beta in Ha.
    bind Ha as x Hx. by injection Ha as _ <-. }
  destruct res as [[c|]|e]; [|by injection Hr as _ <- _..].
  destruct (sample_retry_delay _ w) as [[delay|e] w1]; [|by injection Hr as _ <- _].
  destruct (run (recover_expired c now delay) db1) as [res2 db2] eqn:E2.
  injection Hr as _ <- _. eapply run_tables; [exact Hok1| |exact E2].
  intros a d Ha. by destruct (recover_grows _ _ _ _ _ _ Hok1 Ha).
Qed.

Lemma prepare_execution_Ok `{TransactionLaws publication_db, WallClock W, !EntropySource W}
    writable own authority db (w : W) p db1 w1 :
  tables_ok db = true → nonzero_owner own →
  prepare_execution writable own authority db w = (Ok (Some p), db1, w1) →
  let o := lease_outbox (p_lease p) in
  writable = true ∧ tables_ok db1 = true ∧
  (∃ b, from_authority authority = Some b ∧ validate_authority o b = Ok tt) ∧
  read_outbox (id o) db1 = Ok (Some o) ∧ state o = Leased ∧ lease_owner o = Some own ∧
  (∃ ts, read_targets (id o) db1 = Ok ts ∧ p_target p ∈ ts) ∧
  t_state (p_target p) = TSubmitted ∧ t_last_attempt_id (p_target p) = Some (p_attempt_id p) ∧
  read_committed (id o) db1 = Ok (p_publication p) ∧
  sha256 (exact_signed_event_bytes (p_publication p)) = outbox_event_sha256 o.
Proof.
  intros Hok Hown Hp o. subst o. unfold prepare_execution in Hp.
  destruct (publication_now w) as [[now|e] w2]; [|done].
  destruct (recover_one_expired_publication writable now authority db w2) as [[[b|e] db2] w3] eqn:Er;
    [|done].
  pose proof (recover_one_tables _ _ _ _ _ _ _ _ Hok Er) as Hok2. clear Er.
  destruct (claim_next_publication writable own now authority db2) as [[[l|]|e] db3] eqn:Ec; [|done..].
  destruct (prepare_next_publication_target writable l now db3) as [[q|e] db4] eqn:Ep; [|done].
  injection Hp as <- <- <-.
  unfold claim_next_publication in Ec. destruct writable; simpl in Ec; [|done].
  destruct (from_authority authority) as [bind|] eqn:Eb; [|done].
  apply run_Ok in Ec. pose proof (claim_grows _ _ _ _ _ _ Hok2 Hown Ec) as [Hok3 _ _ _ _].
  apply pub_claim_next_Ok in Ec as (r & o & ts & rows & _ & _ & _ & _ & _ & _ & Hauth & _ & _ & _ & _ & _ &
    -> & _ & _ & _ & _); [|done..].
  unfold prepare_next_publication_target in Ep. simpl in Ep. apply run_Ok in Ep.
  apply prepare_next_Ok in Ep as (ts' & t & []); [|done].
  destruct ps_frame0 as (_ & Hob & _). destruct ps_lease0 as [Hread Hst Hown' _ _].
  pose proof (find_some _ _ ps_first0) as [Hin _]. apply list_elem_of_In in Hin.
  pose proof (read_committed_Ok _ _ _ ps_publication0) as (r' & e & _ & _ & _ & _ & _ & Hpub & Hd & _).
  rewrite ps_prepared0; simpl. rewrite ps_target0; simpl. split_and!; try done.
  - by exists bind.
  - unfold read_outbox. by rewrite Hob.
  - eexists. split; [exact ps_after0|]. apply list_elem_of_fmap. exists t.
    unfold at_ordinal. by rewrite Z.eqb_refl.
  - rewrite <- ps_event0, Hpub in *. simpl in *. congruence.
Qed.

(** ** Stored targets and the authority *)

Lemma inventory_digest ts :
  map target_digest_part ts =
  map Authority.target_material (map (λ t, Authority.MkTarget (ordinal t) (relay_id t) (required t)) ts).
Proof. by rewrite map_map. Qed.

Lemma validate_authority_Ok o b :
  validate_authority o b = Ok tt →
  outbox_target_set_sha256 o = b_target_set_sha256 b ∧ target_count o = b_target_count b ∧
  required_target_count o = b_required_target_count b ∧ max_attempts o = b_max_attempts b.
Proof.
  unfold validate_authority. rewrite reject_if_Ok. intros Hv. to_prop.
  split_and!; try done. by apply bytes_eqb_true.
Qed.

Lemma from_authority_Some a b :
  from_authority a = Some b →
  b_target_set_sha256 b = Authority.target_set_sha256 a ∧
  b_target_count b = Z.of_nat (length (Authority.targets a)) ∧
  b_required_target_count b =
    Z.of_nat (length (List.filter Authority.target_required (Authority.targets a))).
Proof.
  unfold from_authority. destruct (bool_decide _); [done|]. destruct (Authority.retry a); [|done].
  destruct (try_from U8_MAX _) eqn:E1; [|done]. destruct (try_from U8_MAX _) eqn:E2 in |- *; [|done].
  intros [= <-]. simpl. inv_int. done.
Qed.

(** The converse of [target_key_facts]. *)
Lemma validate_targets_intro o ts :
  Z.of_nat (length ts) = target_count o → Z.of_nat (length ts) ≤ 32 →
  (∀ i t, ts !! i = Some t → ordinal t = Z.of_nat i) →
  Z.of_nat (length (List.filter required ts)) = required_target_count o →
  NoDup (map relay_id ts) →
  Forall (λ t, Authority.valid_relay_id (relay_id t) = true) ts →
  sha256 (TARGET_SET_DOMAIN ++ to_be_bytes 4 (target_count o) ++ concat (map target_digest_part ts))
    = outbox_target_set_sha256 o →
  validate_targets o ts = Ok tt.
Proof.
  intros Hlen H32 Hord Hreq Hnd Hval Hd.
  unfold validate_targets, RHI_PUBLICATION_TARGET_ORDINAL_MAXIMUM.
  assert (forallb (λ p, ordinal p.2 =? Z.of_nat p.1) (zip (seq 0 (length ts)) ts) = true) as ->.
  { apply forallb_forall. intros [i t] Hin%list_elem_of_In. apply list_elem_of_lookup in Hin as [k Hk].
    apply lookup_zip_with_Some in Hk as (i' & t' & [= <- <-] & Hi & Ht).
    apply lookup_seq in Hi as [-> _]. simpl. rewrite (Hord _ _ Ht). by apply Z.eqb_eq. }
  rewrite Hlen, Hreq, !Z.eqb_refl. rewrite (proj2 (Z.ltb_ge _ _)) by lia. cbn [negb orb reject_if and_then].
  assert (repeated_relay ts = false) as ->.
  { clear -Hnd. induction ts as [|t ts IH]; simpl in *; [done|]. inversion Hnd as [|? ? Hn Hnd']; subst.
    rewrite IH by done. rewrite orb_false_r. destruct (existsb _ ts) eqn:E; [|done]. exfalso.
    apply Hn. apply existsb_exists in E as (u & Hu & <-%String.eqb_eq). apply list_elem_of_fmap.
    exists u. split; [done|by apply list_elem_of_In]. }
  cbn [reject_if and_then].
  destruct (collect_total (λ t, ok_or (try_from U64_MAX (Z.of_nat (length (as_bytes (relay_id t)))))
              OpInvariant) ts) as [us ->].
  { eapply Forall_impl; [|exact Hval]. intros t Ht. exists (Z.of_nat (length (as_bytes (relay_id t)))).
    apply ok_or_Ok, try_from_Some. apply valid_relay_id_length in Ht. rewrite <- length_as_bytes in Ht.
    unfold_max. split; [done|lia]. }
  cbn [and_then]. rewrite Hd, bytes_eqb_refl. done.
Qed.

Lemma filter_stored ts :
  length (List.filter required ts) =
  length (List.filter Authority.target_required
            (map (λ t, Authority.MkTarget (ordinal t) (relay_id t) (required t)) ts)).
Proof.
  induction ts as [|t ts IH]; simpl; [done|]. destruct (required t); simpl; [by f_equal|done].
Qed.

Lemma authorized_inventory `{!Sha256Laws} {V} `{JsonValue V, !JsonWriter V} au b o ts :
  Authority.authority_ok au → from_authority au = Some b → validate_authority o b = Ok tt →
  Forall target_ok ts →
  let stored := map (λ t, Authority.MkTarget (ordinal t) (relay_id t) (required t)) ts in
  (validate_targets o ts = Ok tt → stored = Authority.targets au ∨ sha256_collision) ∧
  (stored = Authority.targets au → validate_targets o ts = Ok tt).
Proof.
  intros (Ht & _ & Hset & _) (Hbs & Hbc & Hbr)%from_authority_Some
    (Hs & Hc & Hr & _)%validate_authority_Ok Hok stored.
  pose proof (Authority.target_set_digest_Ok _ _ Hset) as Hdig. split.
  - intros (Hlen & H32 & Hord & _ & Hnd & Hd)%target_key_facts.
    rewrite Hs, Hbs, Hdig, (inventory_digest ts), Hc, Hbc in Hd.
    apply sha256_inj_or_collision in Hd as [Hd|]; [left|by right].
    do 2 apply app_inv_head in Hd. apply Authority.target_materials_inj in Hd; [done| |done|].
    + unfold Authority.targets_ok, Authority.RHI_PUBLICATION_MAX_TARGETS. rewrite length_map, map_map.
      split_and!; try done.
      * intros i t Hi. apply list_lookup_fmap_Some in Hi as (u & -> & Hu). simpl. by apply Hord.
      * apply Forall_map. eapply Forall_impl; [|exact Hok]. by intros t [].
    + unfold stored. rewrite length_map. apply Nat2Z.inj. congruence.
  - intros Heq. destruct Ht as (H32 & Hord & Hnd & Hv). rewrite <- Heq in *.
    unfold stored in *. rewrite length_map in *. rewrite map_map in Hnd.
    unfold Authority.RHI_PUBLICATION_MAX_TARGETS in H32.
    apply validate_targets_intro; try done; try congruence.
    + intros i t Hi. specialize (Hord i (Authority.MkTarget (ordinal t) (relay_id t) (required t))).
      apply Hord. by rewrite (list_lookup_fmap _ ts i), Hi.
    + rewrite filter_stored. congruence.
    + rewrite Forall_map in Hv. done.
    + rewrite Hs, Hbs, Hdig, inventory_digest, Hc, Hbc. done.
Qed.

End history.

End History.
