(* ===== verification/PublicationSafety.v ===== *)
(** * Safety and liveness of publication execution

    The properties of [PublicationExecution]: the retry bound and the outbox
    disposition, what each operation commits, idempotence and finality of recorded
    outcomes, the invariants of every history of operations, and that exact bytes
    reach the remote sink only after [Submitted] is durable.  A concrete outbox
    with two targets witnesses the hypotheses. *)

From Stdlib Require Import ZArith Lia.
From stdpp Require Import list strings relations.
From S2P Require Import Prelude.
From S2P Require Import Sql.
From S2P Require Import Interfaces.
From S2P Require Import RuntimeAdapters.
From S2P Require Import StateMetadata.
From S2P Require Import Publication.
From S2P Require Import PublicationState.
From S2P Require Import PublicationSubmission.
From S2P Require Import PublicationExecution.
From S2P Require Import PublicationViews.
From S2P Require Import PublicationRefine.
From S2P Require Import PublicationHistory.

Module Safety.
Import PubState Submission Execution Views Refine History.

(** ** Properties *)

Section properties.
Context `{Sha256}.

(** The retry bound computed by the doubling loop is the capped exponential
    [min (initial * 2^(attempt - 1)) maximum], and the saturating multiplication
    never saturates: the bound always lies between the initial and the maximum
    backoff. *)
Theorem retry_bound_is_capped_exponential r o n :
  decode_outbox r = Ok o → 1 ≤ n →
  retry_upper_bound o n = Z.min (initial_backoff_ms o * 2 ^ (n - 1)) (maximum_backoff_ms o) ∧
  initial_backoff_ms o ≤ retry_upper_bound o n ≤ maximum_backoff_ms o ∧
  retry_upper_bound o n ≤ 3600000.
Proof.
  intros [_ Hok]%decode_outbox_Ok Hn. rewrite (retry_bound_exact o n Hok Hn).
  destruct Hok. pose proof (Z.pow_pos_nonneg 2 (n - 1) ltac:(lia) ltac:(lia)).
  split; [done|]. nia.
Qed.

(** Disposition is decided by the required targets alone: the outbox is
    complete exactly when all of them are accepted, blocked exactly when it is not
    complete and one of them can make no further progress, and otherwise pending
    until the earliest time any required target may be attempted again; an
    inventory that does not validate is refused. *)
Theorem disposition_is_exact o ts d :
  disposition o ts = Ok d ↔
  validate_targets o ts = Ok tt ∧
  ((all_accepted ts ∧ d = MkDisposition Complete None) ∨
   (¬ all_accepted ts ∧ some_blocking o ts ∧ d = MkDisposition Blocked None) ∨
   (¬ all_accepted ts ∧ ¬ some_blocking o ts ∧
    ∃ v, d = MkDisposition Pending (Some v) ∧
      (∃ t, t ∈ ts ∧ required t = true ∧ t_next_attempt t = Some v) ∧
      (∀ t w, t ∈ ts → required t = true → t_next_attempt t = Some w → v ≤ w))).
Proof. rewrite disposition_Ok. setoid_rewrite required_next_Some. naive_solver. Qed.

(** A claim takes the outbox whose next attempt is earliest (ties broken by
    creation time and identity), only if it is pending and due, only if it was
    written under exactly the given publication authority and its stored targets
    match it, and grants a lease for its attempt deadline; nothing else changes. *)
Theorem claim_takes_earliest_due own now a db l db' :
  tables_ok db = true → nonzero_owner own → claim_next own now a db = Ok (Some l, db') →
  ∃ r o ts v,
    r ∈ outboxes db ∧ outbox_view r o ∧ due now r v ∧
    (∀ s w, s ∈ outboxes db → due now s w → served_before r s v w) ∧
    validate_authority o a = Ok tt ∧ read_targets (id o) db = Ok ts ∧
    validate_targets o ts = Ok tt ∧
    l = MkLease (claim_record own (now + attempt_deadline_ms o) now o) own
          (now + attempt_deadline_ms o) ∧
    read_outbox (id o) db' = Ok (Some (lease_outbox l)) ∧
    (∀ j, j ≠ id o → read_outbox j db' = read_outbox j db) ∧
    targets db' = targets db ∧ attempts db' = attempts db ∧ events db' = events db.
Proof.
  intros Hok Hown Hc. apply pub_claim_next_Ok in Hc as
    (r & o & ts & rows & Hr & Hcl & Hmin & Hv & _ & _ & Ha & Hts & Hval & _ & _ & _ & Hl & Hdb & _ &
     Hread & Hoth); [|done..].
  pose proof Hcl as (Hp & v & Hn & Hle)%claimable_true.
  exists r, o, ts, v. subst db'. split_and!; try done.
  intros s w Hs Hd. apply (claim_order_due now); [done..|]. apply Hmin; [done|].
  destruct Hd as (? & ? & ?). apply claimable_true. eauto.
Qed.

(** Exact bytes are exposed only under a live lease and only for a target
    that the same transaction marked [Submitted]: the prepared target is the first
    due one, its attempt number is the next one and within the configured maximum,
    its attempt identity is derived from outbox, event, ordinal and number, and
    the bytes are the committed ones with the digest the outbox was written for. *)
Theorem submitted_before_bytes l now db p db' :
  tables_ok db = true → prepare_next l now db = Ok (p, db') →
  let o := lease_outbox l in
  holds_lease l now db ∧
  ∃ ts t, read_targets (id o) db = Ok ts ∧
    List.find (λ t, target_is_due t (max_attempts o) now) ts = Some t ∧
    read_targets (id o) db' =
      Ok (map (at_ordinal (ordinal t) (submit_record (p_attempt_id p) now)) ts) ∧
    p_target p = submit_record (p_attempt_id p) now t ∧
    t_attempt_count (p_target p) = t_attempt_count t + 1 ∧
    t_attempt_count (p_target p) ≤ max_attempts o ∧
    p_attempt_id p =
      derive_attempt_id (id o) (outbox_event_sha256 o) (ordinal t) (t_attempt_count (p_target p)) ∧
    p_deadline_at p = expires_at l ∧
    read_committed (id o) db' = Ok (p_publication p) ∧
    sha256 (exact_signed_event_bytes (p_publication p)) = outbox_event_sha256 o ∧
    outboxes db' = outboxes db ∧ attempts db' = attempts db.
Proof.
  intros Hok (ts & t & [])%prepare_next_Ok o; [|done]. subst o. split; [done|].
  pose proof (find_some _ _ ps_first0) as [_ Hdue]. apply target_due_true in Hdue as (_ & Hlt & _).
  pose proof (read_committed_Ok _ _ _ ps_publication0) as (r & e & _ & _ & _ & _ & _ & Hp & Hd & _).
  exists ts, t. rewrite ps_target0. simpl. split_and!; try done; [lia|by rewrite ps_prepared0| | |].
  - rewrite <- ps_event0, Hp in *; simpl in *. congruence.
  - by destruct ps_frame0 as (_ & ? & _).
  - by destruct ps_frame0 as (_ & _ & ?).
Qed.

(** C6. Recording a first outcome is one atomic step: under a live lease it
    appends exactly one attempt with the observed facts, settles the submitted
    target with the outcome and its bounded retry time, and closes the lease with
    the disposition of the settled targets. *)
Theorem outcome_is_committed_atomically i db c db' :
  tables_ok db = true → read_attempt (i_attempt_id i) db = Ok None →
  record_outcome i db = Ok (c, db') →
  let o := lease_outbox (i_lease i) in
  holds_lease (i_lease i) (i_finished_at i) db ∧ i_outcome i ≠ Submitted ∧
  ∃ ts t next d,
    read_targets (id o) db = Ok ts ∧ t ∈ ts ∧ ordinal t = i_target_ordinal i ∧
    t_state t = TSubmitted ∧ t_last_attempt_id t = Some (i_attempt_id i) ∧
    target_outcome_schedule i = Ok (target_state (i_outcome i), next) ∧
    (∀ v, next = Some v → v = i_finished_at i + i_retry_delay i ∧
       i_retry_delay i ≤ retry_upper_bound o (i_attempt_number i) ∧
       retryable_outcome (i_outcome i) = true ∧ i_attempt_number i < max_attempts o) ∧
    let ts' := map (at_ordinal (ordinal t)
                 (settle_record (target_state (i_outcome i)) next (i_finished_at i))) ts in
    read_targets (id o) db' = Ok ts' ∧ disposition o ts' = Ok d ∧
    read_outbox (id o) db' = Ok (Some (close_record d (i_finished_at i) o)) ∧
    attempts db' = attempts db ++ [attempt_row_of i (i_started_at i) (i_finished_at i)] ∧
    c = commit_of i (target_state (i_outcome i)) (d_state d) ∧
    (∀ j, j ≠ id o → read_targets j db' = read_targets j db ∧ read_outbox j db' = read_outbox j db) ∧
    events db' = events db.
Proof.
  intros Hok Hnone Hr o. subst o. apply record_fresh_Ok in Hr as (ts & t & next & d & []); [|done..].
  split; [done|]. pose proof (outcome_schedule_Ok _ _ _ rs_schedule0) as (_ & Hne & Hnx). split; [done|].
  destruct rs_submitted0 as (? & _ & _ & ? & _). exists ts, t, next, d.
  split_and!; try done. intros v ->. cbv zeta in Hnx. destruct Hnx as [Hv Hb].
  destruct (_ && _) eqn:E; [|done]. injection Hv as ->. apply andb_true_iff in E as [E1 E2%Z.ltb_lt].
  split_and!; done || lia.
Qed.

(** Recording is idempotent: repeating a recording that succeeded, also
    after a lost answer, returns the same commit and changes nothing. *)
Theorem recording_is_idempotent i db c db' :
  tables_ok db = true → record_outcome i db = Ok (c, db') → record_outcome i db' = Ok (c, db').
Proof.
  intros Hok Hr. destruct (read_attempt (i_attempt_id i) db) as [[a|]|] eqn:Ha.
  - pose proof Hr as Hr'. unfold record_outcome in Hr'. rewrite Ha in Hr'. cbn [and_then] in Hr'.
    bind Hr' as cm Hcm. by injection Hr' as <- <-.
  - apply record_fresh_Ok in Hr as (ts & t & next & d & Hs); [|done..].
    by eapply recorded_again.
  - unfold record_outcome in Hr. by rewrite Ha in Hr.
Qed.

(** A recorded outcome is final: once an attempt is recorded, after any
    further history of operations, recording the same attempt with any different
    fact (outcome, time, owner, number, event) is refused. *)
Theorem recorded_outcome_is_final db db' r i :
  tables_ok db = true → rtc pub_step db db' → r ∈ attempts db →
  i_attempt_id i = at_attempt_id r → ¬ attempt_view r (attempt_from_input i) →
  record_outcome i db' = Err OpInvariant.
Proof.
  intros Hok Hs Hr Hid Hne. destruct (history_grows _ _ Hok Hs) as [Hok' _ Hpre _ _].
  apply (conflicting_record i db' r); try done. by eapply elem_of_prefix.
Qed.

(** C37. Recovery settles an expired lease completely: every submitted target
    becomes unknown, with one recorded unknown attempt and a retry time when
    attempts remain, every other target is kept, no target is left submitted, and
    the outbox leaves the leased state with the disposition of its targets. *)
Theorem recovery_settles_expired_lease c now delay db b db' :
  tables_ok db = true → recover_expired c now delay db = Ok (b, db') →
  let o := candidate_outbox c in
  b = true ∧ read_outbox (id o) db = Ok (Some o) ∧ state o = Leased ∧
  ∃ ts own expires d,
    lease_owner o = Some own ∧ lease_expires o = Some expires ∧ expires ≤ now ∧
    read_targets (id o) db = Ok ts ∧
    let ts' := map (λ t, if bool_decide (t_state t = TSubmitted) then recover_record o now delay t
                         else t) ts in
    read_targets (id o) db' = Ok ts' ∧
    (∀ t, t ∈ ts' → t_state t ≠ TSubmitted) ∧
    attempts db' = attempts db ++ map (recovered_attempt o own now) (submitted_targets ts) ∧
    (∀ t, t ∈ submitted_targets ts → t_last_attempt_id t =
       Some (derive_attempt_id (id o) (outbox_event_sha256 o) (ordinal t) (t_attempt_count t))) ∧
    disposition o ts' = Ok d ∧ d_state d ≠ Leased ∧
    read_outbox (id o) db' = Ok (Some (close_record d now o)) ∧
    (∀ j, j ≠ id o → read_targets j db' = read_targets j db ∧ read_outbox j db' = read_outbox j db).
Proof.
  intros Hok Hr o. subst o. apply recover_expired_Ok in Hr as (-> & ts & own & ex & d & []); [|done].
  split_and!; try done. exists ts, own, ex, d. cbv zeta. split_and!; try done.
  - intros t Ht. apply list_elem_of_In, in_map_iff in Ht as (u & <- & _).
    by destruct (bool_decide_reflect (t_state u = TSubmitted)).
  - intros t Ht. by apply (elem_of_Forall _ _ _ rc_submitted0) in Ht as [? _].
  - apply disposition_Ok in rc_disposition0 as [_ Hd].
    destruct Hd as [[_ ->]|[(_ & _ & ->)|(_ & _ & v & _ & ->)]]; done.
Qed.

(** C38. Due work makes progress.  Let the tables be within their constraints, the
    schedules consistent (only a retryable target with attempts left has a next
    attempt, and a pending outbox has its required targets' earliest), no target
    scheduled before its own last write, the target revisions below the largest
    signed 64-bit integer, and the outbox's event intact.  Then an outbox claimed
    at time [now] has a target due at [now], and preparing under the new lease
    succeeds at once: it never answers [NotReady] or a lost lease. *)
Theorem claimed_work_is_prepared `{!Sha256Laws} own now a db l db' ts pub :
  tables_ok db = true → db_consistent db → db_forward db → nonzero_owner own →
  claim_next own now a db = Ok (Some l, db') →
  read_targets (id (lease_outbox l)) db = Ok ts →
  Forall (λ t, t_revision t < I64_MAX) ts →
  read_committed (id (lease_outbox l)) db = Ok pub →
  ∃ p db'', prepare_next l now db' = Ok (p, db'').
Proof.
  intros Hok Hcons Hfwd Hown Hc Hts Hall Hpub.
  pose proof (claim_keeps_committed _ _ _ _ _ _ _ _ Hok Hc Hpub) as Hpub'. apply pub_claim_next_Ok in Hc as
    (r & o & ts' & rows & Hr & Hcl & _ & Hv & Hook & Hread & _ & Hts' & Hval & _ & Hnow & Hsum & -> & -> &
     Hok' & Hread' & _); [|done..]. simpl in Hts, Hpub, Hpub'.
  rewrite Hts in Hts'. injection Hts' as <-.
  destruct (Hcons _ _ _ Hread Hts) as (Hsched & _ & Hpend).
  apply claimable_true in Hcl as (Hst & v & Hnx & Hle).
  rewrite (ov_next _ _ Hv) in Hnx. rewrite (ov_state _ _ Hv) in Hst.
  rewrite Hpend in Hnx by (by destruct (state o)).
  apply required_next_Some in Hnx as [(t & Ht & _ & Htn) _].
  pose proof (elem_of_Forall _ _ _ Hsched Ht _ Htn) as [Hret Hlt].
  pose proof (read_committed_Ok _ _ _ Hpub) as (r' & e & Hr' & _ & Hid' & _ & _ & -> & _).
  destruct (read_outbox_unique db o r' Hok Hread Hr' Hid') as [Hv' _].
  destruct Hook as [_ _ _ _ _ _ Hmax _ _ Hdl _ _ _ _ _ _ _].
  eapply prepare_next_total; [done| |lia|exact Hts|exact Hval| |exact (Hfwd _ _ Hts)|exact Hall|simpl; lia|exact Hpub'|].
  - split; simpl; try done. lia.
  - exists t. split; [done|]. apply target_due_true. simpl. eauto.
  - simpl. by destruct Hv'.
Qed.

(** Every history of operations, in any interleaving and with any leases and
    clocks, keeps the tables within their constraints, never changes an event or
    the identity and policy of an outbox, only appends to the recorded attempts,
    never decreases an attempt count, never changes an accepted target, and keeps
    every target within its attempt budget with consistent schedules. *)
Theorem history_is_monotone db db' :
  tables_ok db = true → db_consistent db → rtc pub_step db db' →
  tables_ok db' = true ∧ events db' = events db ∧ attempts db `prefix_of` attempts db' ∧
  (∀ i o, read_outbox i db = Ok (Some o) →
     ∃ o', read_outbox i db' = Ok (Some o') ∧ same_outbox_identity o' o = true ∧
           revision o ≤ revision o') ∧
  (∀ i ts, read_targets i db = Ok ts →
     ∃ ts', read_targets i db' = Ok ts' ∧
       Forall2 (λ t t', ordinal t' = ordinal t ∧ relay_id t' = relay_id t ∧
                  required t' = required t ∧ t_attempt_count t ≤ t_attempt_count t' ∧
                  (t_state t = TAccepted → t' = t)) ts ts') ∧
  (∀ i o ts, read_outbox i db' = Ok (Some o) → read_targets i db' = Ok ts →
     Forall (λ t, t_attempt_count t ≤ max_attempts o) ts ∧
     (state o = Pending → next_attempt o = required_next ts)).
Proof.
  intros Hok Hcons Hs. destruct (history_grows _ _ Hok Hs) as [Hok' He Ha Ho Ht].
  pose proof (history_consistent _ _ Hok Hs Hcons) as Hcons'. split_and!; try done.
  - intros i ts (ts' & Hts' & Hg)%Ht. exists ts'. split; [done|].
    eapply Forall2_impl; [|exact Hg]. by intros t t' [].
  - intros i o ts Hro Hrt. by destruct (Hcons' _ _ _ Hro Hrt) as (_ & ? & ?).
Qed.

(** Only the configured targets are published to: the stored targets of an
    outbox that passes [validate_authority] and [validate_targets] are exactly
    the authority's targets in order, with the configured relay and requiredness,
    unless a SHA-256 collision is at hand; and targets stored as configured
    always validate. *)
Theorem stored_targets_are_authorized {V} `{!Sha256Laws, JsonValue V, !JsonLaws V, !JsonWriter V}
    (document : V) profile au b o ts :
  Authority.derive_authority document profile = Ok au → from_authority au = Some b →
  validate_authority o b = Ok tt → Forall target_ok ts →
  let stored := map (λ t, Authority.MkTarget (ordinal t) (relay_id t) (required t)) ts in
  (validate_targets o ts = Ok tt → stored = Authority.targets au ∨ sha256_collision) ∧
  (stored = Authority.targets au → validate_targets o ts = Ok tt).
Proof.
  intros (Hau & _)%Authority.derive_authority_Ok Hb Ho Hts stored.
  by eapply authorized_inventory.
Qed.

(** C4. Over any transaction host, the remote sink is reached only after the
    submission is durable: when execution has a prepared attempt to submit, the
    committed state leases its outbox to this owner under the given authority and
    marks its target submitted with exactly this attempt, and the bytes are the
    committed ones; and the sink is consulted for that attempt only, so a failed
    or unknown commit exposes no bytes. *)
Theorem remote_sees_only_durable_submission
    `{TransactionLaws publication_db, WallClock W, !EntropySource W}
    writable own authority db (w : W) :
  tables_ok db = true → nonzero_owner own →
  (∀ p db1 w1, prepare_execution writable own authority db w = (Ok (Some p), db1, w1) →
     let o := lease_outbox (p_lease p) in
     writable = true ∧ tables_ok db1 = true ∧
     (∃ b, from_authority authority = Some b ∧ validate_authority o b = Ok tt) ∧
     read_outbox (id o) db1 = Ok (Some o) ∧ state o = Leased ∧ lease_owner o = Some own ∧
     (∃ ts, read_targets (id o) db1 = Ok ts ∧ p_target p ∈ ts) ∧
     t_state (p_target p) = TSubmitted ∧ t_last_attempt_id (p_target p) = Some (p_attempt_id p) ∧
     read_committed (id o) db1 = Ok (p_publication p) ∧
     sha256 (exact_signed_event_bytes (p_publication p)) = outbox_event_sha256 o) ∧
  (∀ sink sink',
     (∀ p db1 w1, prepare_execution writable own authority db w = (Ok (Some p), db1, w1) →
        sink p w1 = sink' p w1) →
     execute_next_publication writable sink own authority db w =
     execute_next_publication writable sink' own authority db w).
Proof.
  intros Hok Hown. split.
  - intros p db1 w1 Hp. by eapply prepare_execution_Ok.
  - intros sink sink' Heq. unfold execute_next_publication.
    destruct (prepare_execution writable own authority db w) as [[[[p|]|] db1] w1]; try done.
    by rewrite (Heq p db1 w1 eq_refl).
Qed.

End properties.

(** ** A concrete publication *)

#[local] Existing Instance checksum.
#[local] Existing Instance checksum_laws.
#[local] Existing Instance json_value.
#[local] Existing Instance json_laws.
#[local] Existing Instance json_writer.

Definition demo_bytes : bytes := as_bytes "signed event".
Definition demo_id (n : Z) : bytes := to_be_bytes 32 n.
Definition demo_owner : bytes := to_be_bytes 16 7.

Definition demo_event : event_row :=
  EventRow (demo_id 1) (demo_id 2) (sha256 demo_bytes) (demo_id 3) 1 demo_bytes.

Definition demo_authority : Authority.RhiPublicationAuthority := Authority.demo_authority 3.

Definition demo_binding : AuthorityBinding :=
  default (MkBinding [] [] 0 0 0 0 0 0) (from_authority demo_authority).

Definition demo_row : outbox_row :=
  OutboxRow (demo_id 9) (demo_id 1) (sha256 demo_bytes) (Authority.authority_sha256 demo_authority)
    (Authority.target_set_sha256 demo_authority) 2 1 3 250 30000 15000 "pending" 1 (Some 1000) None
    None 1000 1000.

Definition demo_target (ord : Z) (relay : string) (req : Z) : target_row :=
  TargetRow (demo_id 9) ord relay req "pending" 1 0 (Some 1000) None 1000.

Definition demo_db : publication_db :=
  PublicationDb [demo_event] [demo_row] [demo_target 0 "relay-a" 1; demo_target 1 "relay-b" 0] [].

(** The lease, attempt, outcome and recovery reached from it. *)
Definition run_ok {E A} (r : result E A) : option A := match r with Ok x => Some x | Err _ => None end.

Definition demo_claim : option (RhiPublicationLease * publication_db) :=
  '(l, db) ← run_ok (claim_next demo_owner 2000 demo_binding demo_db); l ← l; Some (l, db).

Definition demo_prepare : option (RhiPreparedPublicationAttempt * publication_db) :=
  '(l, db) ← demo_claim; run_ok (prepare_next l 2000 db).

Lemma run_ok_Some {E A} (r : result E A) x : run_ok r = Some x ↔ r = Ok x.
Proof. destruct r; naive_solver. Qed.

Lemma demo_tables : tables_ok demo_db = true.
Proof. vm_compute. reflexivity. Qed.

Lemma demo_owner_nonzero : nonzero_owner demo_owner.
Proof. vm_compute. reflexivity. Qed.

Definition no_outbox : OutboxRecord :=
  MkOutbox [] [] [] [] 0 0 0 0 0 0 Pending 0 None None None 0 0.
Definition no_lease : RhiPublicationLease := MkLease no_outbox [] 0.
Definition no_prepared : RhiPreparedPublicationAttempt :=
  MkPrepared no_lease (MkTargetRecord 0 "" false TPending 0 0 None None 0) [] 0 0
    (MkCommitted [] [] [] []).

Definition demo_lease : RhiPublicationLease := (default (no_lease, demo_db) demo_claim).1.
Definition demo_db1 : publication_db := (default (no_lease, demo_db) demo_claim).2.
Definition demo_attempt : RhiPreparedPublicationAttempt :=
  (default (no_prepared, demo_db) demo_prepare).1.
Definition demo_db2 : publication_db := (default (no_prepared, demo_db) demo_prepare).2.
Definition demo_input : RecordInput :=
  default (MkInput no_lease 0 0 0 [] 0 0 Failed 0) (run_ok (from_prepared demo_attempt 3000 Failed 100)).
Definition demo_record : option (RhiPublicationAttemptCommit * publication_db) :=
  run_ok (record_outcome demo_input demo_db2).
Definition no_commit : RhiPublicationAttemptCommit := MkCommit [] [] 0 0 Failed TFailed Pending.
Definition demo_commit : RhiPublicationAttemptCommit := (default (no_commit, demo_db) demo_record).1.
Definition demo_db3 : publication_db := (default (no_commit, demo_db) demo_record).2.
Definition demo_candidate : RecoveryCandidate :=
  default (MkCandidate no_outbox 0)
    (mjoin (run_ok (read_expired_candidate 20000 demo_binding demo_db2))).
Definition demo_db4 : publication_db :=
  (default (false, demo_db) (run_ok (recover_expired demo_candidate 20000 200 demo_db2))).2.

Lemma demo_claimed : claim_next demo_owner 2000 demo_binding demo_db = Ok (Some demo_lease, demo_db1).
Proof. vm_compute. reflexivity. Qed.

Lemma demo_prepared : prepare_next demo_lease 2000 demo_db1 = Ok (demo_attempt, demo_db2).
Proof. vm_compute. reflexivity. Qed.

Lemma demo_recorded :
  from_prepared demo_attempt 3000 Failed 100 = Ok demo_input ∧
  record_outcome demo_input demo_db2 = Ok (demo_commit, demo_db3) ∧
  read_attempt (i_attempt_id demo_input) demo_db2 = Ok None.
Proof. vm_compute. repeat split. Qed.

Lemma demo_expired : read_expired_candidate 20000 demo_binding demo_db2 = Ok (Some demo_candidate).
Proof. vm_compute. reflexivity. Qed.

Lemma demo_recovered : recover_expired demo_candidate 20000 200 demo_db2 = Ok (true, demo_db4).
Proof. vm_compute. reflexivity. Qed.

Definition demo_outbox : OutboxRecord :=
  default no_outbox (mjoin (run_ok (read_outbox (demo_id 9) demo_db))).
Definition demo_targets : list TargetRecord := default [] (run_ok (read_targets (demo_id 9) demo_db)).

Lemma demo_read :
  decode_outbox demo_row = Ok demo_outbox ∧ read_outbox (demo_id 9) demo_db = Ok (Some demo_outbox) ∧
  read_targets (demo_id 9) demo_db = Ok demo_targets.
Proof. vm_compute. repeat split. Qed.

Lemma same_result {E A} (r : result E A) x y : r = Ok x → r = Ok y → x = y.
Proof. by intros -> [=]. Qed.

Lemma demo_tables1 : tables_ok demo_db1 = true.
Proof. vm_compute. reflexivity. Qed.

Lemma demo_tables2 : tables_ok demo_db2 = true.
Proof. vm_compute. reflexivity. Qed.

Lemma single_consistent db r i o ts :
  outboxes db = [r] → ob_outbox_id r = i → read_outbox i db = Ok (Some o) → read_targets i db = Ok ts →
  consistent o ts → db_consistent db.
Proof.
  intros Hdb Hid E1 E2 Hc j o' ts' Ho Hts. pose proof (read_outbox_Ok _ _ _ Ho) as (s & Hs & Hsid & _).
  rewrite Hdb in Hs. apply list_elem_of_singleton in Hs as ->. rewrite <- Hsid, Hid in *.
  pose proof (same_result _ _ _ Ho E1) as Eo. apply Some_inj in Eo as ->.
  by pose proof (same_result _ _ _ Hts E2) as ->.
Qed.

Lemma demo_consistent : db_consistent demo_db.
Proof.
  apply (single_consistent demo_db demo_row (demo_id 9) demo_outbox demo_targets).
  - exact eq_refl.
  - exact eq_refl.
  - exact (proj1 (proj2 demo_read)).
  - exact (proj2 (proj2 demo_read)).
  - split_and!.
    + vm_compute. repeat constructor; intros v [= <-]; repeat split.
    + vm_compute. repeat constructor; discriminate.
    + intros _. vm_compute. reflexivity.
Qed.

(** The hypotheses of the properties hold of it. *)

Lemma retry_bound_is_capped_exponential_witness : retry_upper_bound demo_outbox 3 = 1000.
Proof.
  exact (proj1 (retry_bound_is_capped_exponential demo_row demo_outbox 3 (proj1 demo_read) ltac:(lia))).
Defined.

Lemma claim_takes_earliest_due_witness :
  ∃ r v, r ∈ outboxes demo_db ∧ due 2000 r v.
Proof.
  destruct (claim_takes_earliest_due _ _ _ _ _ _ demo_tables demo_owner_nonzero demo_claimed)
    as (r & o & ts & v & Hr & _ & Hc & _).
  exact (ex_intro _ r (ex_intro _ v (conj Hr Hc))).
Defined.

Lemma submitted_before_bytes_witness :
  holds_lease demo_lease 2000 demo_db1.
Proof.
  destruct (submitted_before_bytes _ _ _ _ _ demo_tables1 demo_prepared) as [Hl _].
  exact Hl.
Defined.

Lemma outcome_is_committed_atomically_witness :
  holds_lease (i_lease demo_input) (i_finished_at demo_input) demo_db2.
Proof.
  destruct (outcome_is_committed_atomically demo_input demo_db2 demo_commit demo_db3 demo_tables2
    (proj2 (proj2 demo_recorded)) (proj1 (proj2 demo_recorded))) as [Hl _].
  exact Hl.
Defined.

Lemma recording_is_idempotent_witness :
  record_outcome demo_input demo_db3 = Ok (demo_commit, demo_db3).
Proof.
  exact (recording_is_idempotent demo_input demo_db2 demo_commit demo_db3 demo_tables2
    (proj1 (proj2 demo_recorded))).
Defined.

(** The same attempt, reported accepted after it was recorded as failed. *)
Definition demo_rewrite : RecordInput :=
  default (MkInput no_lease 0 0 0 [] 0 0 Failed 0) (run_ok (from_prepared demo_attempt 3000 Accepted 0)).

Definition demo_recorded_row : attempt_row :=
  attempt_row_of demo_input (i_started_at demo_input) (i_finished_at demo_input).

Lemma other_outcome r a :
  String.eqb (at_outcome r) (outcome_code (a_outcome a)) = false → ¬ attempt_view r a.
Proof. intros He Hv. by rewrite (av_outcome _ _ Hv), String.eqb_refl in He. Qed.

Lemma demo_tables3 : tables_ok demo_db3 = true.
Proof. vm_compute. reflexivity. Qed.

Lemma demo_recorded_in : demo_recorded_row ∈ attempts demo_db3.
Proof. vm_compute. left. Qed.

Lemma recorded_outcome_is_final_witness : record_outcome demo_rewrite demo_db3 = Err OpInvariant.
Proof.
  apply (recorded_outcome_is_final demo_db3 demo_db3 demo_recorded_row).
  - exact demo_tables3.
  - exact (rtc_refl _ _).
  - exact demo_recorded_in.
  - vm_compute. reflexivity.
  - apply other_outcome. vm_compute. reflexivity.
Defined.

Lemma recovery_settles_expired_lease_witness :
  state (candidate_outbox demo_candidate) = Leased.
Proof.
  exact (proj1 (proj2 (proj2 (recovery_settles_expired_lease demo_candidate 20000 200 demo_db2 true
    demo_db4 demo_tables2 demo_recovered)))).
Defined.

Lemma demo_revisions : Forall (λ t, t_revision t < I64_MAX) demo_targets.
Proof.
  apply Forall_forall. intros t Ht.
  assert (forallb (λ t, t_revision t <? I64_MAX) demo_targets = true) as Hall
    by (vm_compute; reflexivity).
  rewrite forallb_forall in Hall. apply Hall in Ht. to_prop. lia.
Qed.

Lemma demo_forward : db_forward demo_db.
Proof.
  intros i ts Hts. apply list.Forall_forall. intros t Ht v Hv.
  destruct (read_targets_rows _ _ _ _ Hts Ht) as (r & Hr & _ & Hview & _).
  assert (forallb (λ r, match tg_next_attempt_unix_ms r with
                        | Some v => tg_updated_at_unix_ms r <=? v | None => true end)
            (targets demo_db) = true) as Hall by (vm_compute; reflexivity).
  rewrite forallb_forall in Hall. apply list_elem_of_In, Hall in Hr.
  rewrite (tv_next _ _ Hview), (tv_updated _ _ Hview), Hv in Hr. by to_prop.
Qed.

Lemma claimed_work_is_prepared_witness : ∃ p db, prepare_next demo_lease 2000 demo_db1 = Ok (p, db).
Proof.
  apply (claimed_work_is_prepared demo_owner 2000 demo_binding demo_db demo_lease demo_db1 demo_targets
    (MkCommitted (demo_id 9) (demo_id 1) (sha256 demo_bytes) demo_bytes)).
  - exact demo_tables.
  - exact demo_consistent.
  - exact demo_forward.
  - exact demo_owner_nonzero.
  - exact demo_claimed.
  - vm_compute. reflexivity.
  - exact demo_revisions.
  - vm_compute. reflexivity.
Defined.

Lemma history_is_monotone_witness :
  tables_ok demo_db3 = true ∧ attempts demo_db `prefix_of` attempts demo_db3.
Proof.
  destruct (history_is_monotone demo_db demo_db3 demo_tables demo_consistent) as (Hok & _ & Ha & _).
  - eapply rtc_l; [exact (step_claim _ _ _ _ _ _ demo_owner_nonzero demo_claimed)|].
    eapply rtc_l; [exact (step_prepare _ _ _ _ _ demo_prepared)|].
    apply rtc_once. apply (step_record demo_input demo_db2 demo_commit).
    exact (proj1 (proj2 demo_recorded)).
  - exact (conj Hok Ha).
Defined.

Lemma stored_targets_are_authorized_witness :
  map (λ t, Authority.MkTarget (ordinal t) (relay_id t) (required t)) demo_targets =
    Authority.targets demo_authority ∧
  validate_targets demo_outbox demo_targets = Ok tt.
Proof.
  assert (map (λ t, Authority.MkTarget (ordinal t) (relay_id t) (required t)) demo_targets =
    Authority.targets demo_authority) as Heq by (vm_compute; reflexivity).
  destruct (stored_targets_are_authorized (Authority.demo_document 3) Metadata.Production demo_authority
    demo_binding demo_outbox demo_targets) as [_ Hv].
  - vm_compute. reflexivity.
  - vm_compute. reflexivity.
  - vm_compute. reflexivity.
  - apply Forall_forall. intros t Ht%list_elem_of_In.
    destruct (read_targets_rows _ _ _ _ (proj2 (proj2 demo_read)) Ht) as (r & _ & _ & _ & Hok). exact Hok.
  - exact (conj Heq (Hv Heq)).
Defined.

Definition demo_env : scripted := Scripted [2; 3] [5].
Definition demo_env_after : scripted := Scripted [3] [5].

Lemma demo_prepare_execution :
  @prepare_execution checksum (reliable_host publication_db) true scripted scripted_clock scripted_entropy
    demo_owner demo_authority demo_db demo_env = (Ok (Some demo_attempt), demo_db2, demo_env_after).
Proof. vm_compute. reflexivity. Qed.

Lemma remote_sees_only_durable_submission_witness :
  t_state (p_target demo_attempt) = TSubmitted ∧ tables_ok demo_db2 = true.
Proof.
  destruct (@remote_sees_only_durable_submission checksum (reliable_host publication_db)
    (reliable_host_laws publication_db) scripted scripted_clock scripted_entropy true demo_owner
    demo_authority demo_db demo_env demo_tables demo_owner_nonzero) as [Hp _].
  destruct (Hp _ _ _ demo_prepare_execution) as (_ & Hok & _ & _ & _ & _ & _ & Ht & _).
  exact (conj Ht Hok).
Defined.

End Safety.
