(* ===== verification/FinalizationState.v ===== *)
(** * Finalization tables: [evidence_manifests], [trade_projections] and
    [attestation_reports] of [src/src/state_catalog.rs]

    The immutable rows a finalized attempt leaves, with their column constraints,
    unique keys and references, and the database they share with the reconciliation
    and the publication tables. *)

From Stdlib Require Import ZArith Lia.
From stdpp Require Import list strings.
From S2P Require Import Prelude.
From S2P Require Import Sql.
From S2P Require Import PublicationState.
From S2P Require Import ReconciliationCommit.

Module FinalState.
Import PubState.

Record manifest_row : Type := ManifestRow {
  mn_manifest_sha256 : bytes;
  mn_attempt_id : bytes;
  mn_trade_id : bytes;
  mn_trade_generation : Z;
  mn_policy : bytes;
  mn_canonical_manifest : bytes;
  mn_observed_at : Z;
  mn_source_count : Z;
  mn_observation_count : Z;
}.

Record projection_row : Type := ProjectionRow {
  pr_projection_sha256 : bytes;
  pr_manifest_sha256 : bytes;
  pr_shared_sha256 : bytes;
  pr_reducer_contract : string;
  pr_reducer_version : Z;
  pr_issue_count : Z;
}.

Record report_row : Type := ReportRow {
  rp_statement_sha256 : bytes;
  rp_manifest_sha256 : bytes;
  rp_projection_sha256 : bytes;
  rp_trade_id : bytes;
  rp_claim_mutation_id : bytes;
  rp_issuer_public_key : bytes;
  rp_outcome : string;
  rp_canonical_report : bytes;
  rp_observed_at : Z;
  rp_supersedes_statement : option bytes;
  rp_supersedes_event : option bytes;
}.

#[export] Instance manifest_row_eq_dec : EqDecision manifest_row.
Proof. solve_decision. Defined.
#[export] Instance projection_row_eq_dec : EqDecision projection_row.
Proof. solve_decision. Defined.
#[export] Instance report_row_eq_dec : EqDecision report_row.
Proof. solve_decision. Defined.
#[export] Instance event_row_eq_dec : EqDecision event_row.
Proof. solve_decision. Defined.

(** [length(column) BETWEEN 1 AND maximum] *)
Definition sized (maximum : Z) (b : bytes) : bool := between 1 maximum (Z.of_nat (length b)).

(** [PRIMARY KEY (manifest_sha256)], [UNIQUE (attempt_id)]; [evidence_manifests_no_update] *)
#[export] Instance manifest_table : Table manifest_row := {|
  row_check := λ r,
    blob_of 32 (mn_manifest_sha256 r) && blob_of 32 (mn_attempt_id r) && blob_of 16 (mn_trade_id r)
    && between 1 I64_MAX (mn_trade_generation r) && blob_of 32 (mn_policy r)
    && sized 16777216 (mn_canonical_manifest r) && between 0 I64_MAX (mn_observed_at r)
    && between 1 16 (mn_source_count r) && between 0 65536 (mn_observation_count r);
  row_guard := λ _ _, false;
  row_conflict := λ r o,
    bytes_eqb (mn_manifest_sha256 r) (mn_manifest_sha256 o)
    || bytes_eqb (mn_attempt_id r) (mn_attempt_id o);
|}.

Definition REDUCER_CONTRACT : string := "radroots.trade.reducer.v1".

(** [PRIMARY KEY (projection_sha256)], [UNIQUE (manifest_sha256)]; [trade_projections_no_update] *)
#[export] Instance projection_table : Table projection_row := {|
  row_check := λ r,
    blob_of 32 (pr_projection_sha256 r) && blob_of 32 (pr_manifest_sha256 r)
    && blob_of 32 (pr_shared_sha256 r) && String.eqb (pr_reducer_contract r) REDUCER_CONTRACT
    && (pr_reducer_version r =? 1) && between 0 65536 (pr_issue_count r);
  row_guard := λ _ _, false;
  row_conflict := λ r o,
    bytes_eqb (pr_projection_sha256 r) (pr_projection_sha256 o)
    || bytes_eqb (pr_manifest_sha256 r) (pr_manifest_sha256 o);
|}.

(** Two values of a unique column: [NULL]s do not conflict. *)
Definition same_value (x y : option bytes) : bool :=
  match x, y with Some x, Some y => bytes_eqb x y | _, _ => false end.

(** [PRIMARY KEY (statement_sha256)], [attestation_reports_one_successor];
    [attestation_reports_no_update] *)
#[export] Instance report_table : Table report_row := {|
  row_check := λ r,
    blob_of 32 (rp_statement_sha256 r) && blob_of 32 (rp_manifest_sha256 r)
    && blob_of 32 (rp_projection_sha256 r) && blob_of 16 (rp_trade_id r)
    && blob_of 32 (rp_claim_mutation_id r) && blob_of 32 (rp_issuer_public_key r)
    && one_of ["valid"; "invalid"; "indeterminate"] (rp_outcome r)
    && sized 16384 (rp_canonical_report r) && between 0 I64_MAX (rp_observed_at r)
    && Commit.null_or (blob_of 32) (rp_supersedes_statement r)
    && Commit.null_or (blob_of 32) (rp_supersedes_event r)
    && eqb (is_null (rp_supersedes_statement r)) (is_null (rp_supersedes_event r));
  row_guard := λ _ _, false;
  row_conflict := λ r o,
    bytes_eqb (rp_statement_sha256 r) (rp_statement_sha256 o)
    || same_value (rp_supersedes_statement r) (rp_supersedes_statement o);
|}.

Record finalization_db : Type := FinalizationDb {
  fd_reconciliation : Commit.reconciliation_db;
  fd_manifests : list manifest_row;
  fd_projections : list projection_row;
  fd_reports : list report_row;
  fd_publication : publication_db;
}.

(** ** References *)

Definition references_attempt (db : finalization_db) (r : manifest_row) : bool :=
  existsb (λ a, bytes_eqb (Commit.ar_attempt_id a) (mn_attempt_id r))
    (Commit.rd_attempts (fd_reconciliation db)).

Definition has_manifest (db : finalization_db) (i : bytes) : bool :=
  existsb (λ m, bytes_eqb (mn_manifest_sha256 m) i) (fd_manifests db).

(** A report may supersede a stored report, or (as SQLite checks it) itself. *)
Definition references_report (db : finalization_db) (r : report_row) : bool :=
  has_manifest db (rp_manifest_sha256 r)
  && existsb (λ p, bytes_eqb (pr_projection_sha256 p) (rp_projection_sha256 r)) (fd_projections db)
  && Commit.null_or
       (λ s, existsb (λ o, bytes_eqb (rp_statement_sha256 o) s) (r :: fd_reports db))
       (rp_supersedes_statement r).

Definition has_report (db : finalization_db) (i : bytes) : bool :=
  existsb (λ r, bytes_eqb (rp_statement_sha256 r) i) (fd_reports db).

Definition has_event (db : publication_db) (i : bytes) : bool :=
  existsb (λ e, bytes_eqb (ev_event_id e) i) (events db).

Definition has_outbox (db : publication_db) (i : bytes) : bool :=
  existsb (λ o, bytes_eqb (ob_outbox_id o) i) (outboxes db).

(** ** Lemmas *)

Lemma manifest_conflict_sym (r o : manifest_row) : row_conflict r o = row_conflict o r.
Proof.
  simpl. by rewrite (bytes_eqb_sym (mn_manifest_sha256 r)), (bytes_eqb_sym (mn_attempt_id r)).
Qed.

Lemma projection_conflict_sym (r o : projection_row) : row_conflict r o = row_conflict o r.
Proof.
  simpl. by rewrite (bytes_eqb_sym (pr_projection_sha256 r)), (bytes_eqb_sym (pr_manifest_sha256 r)).
Qed.

Lemma report_conflict_sym (r o : report_row) : row_conflict r o = row_conflict o r.
Proof.
  simpl. rewrite (bytes_eqb_sym (rp_statement_sha256 r)). f_equal.
  unfold same_value. destruct (rp_supersedes_statement r), (rp_supersedes_statement o); try done.
  apply bytes_eqb_sym.
Qed.

Lemma manifest_conflict_self (r : manifest_row) : row_conflict r r = true.
Proof. simpl. by rewrite bytes_eqb_refl. Qed.

Lemma projection_conflict_self (r : projection_row) : row_conflict r r = true.
Proof. simpl. by rewrite bytes_eqb_refl. Qed.

Lemma report_conflict_self (r : report_row) : row_conflict r r = true.
Proof. simpl. by rewrite bytes_eqb_refl. Qed.

Lemma event_conflict_self (r : event_row) : row_conflict r r = true.
Proof. simpl. by rewrite bytes_eqb_refl. Qed.

End FinalState.
