(* ===== verification/ReconciliationFinalization.v ===== *)
(** * Finalization preflight: [src/src/reconciliation_finalization.rs]

    The identity an evaluated attempt is finalized under, and the fence that lease,
    dirty generation and committed attempt pass before anything is written.  The
    theorem joins the commit of an attempt, its manifest, the reduction and the
    evaluation with the fence: an attempt that found new evidence is never
    finalized, and one that found none passes as long as its lease lives. *)

From Stdlib Require Import ZArith Lia.
From stdpp Require Import sets list strings gmap sorting.
From S2P Require Import Prelude.
From S2P Require Import Sql.
From S2P Require Import Interfaces.
From S2P Require Import SourceIngest.
From S2P Require Import StateTrade.
From S2P Require Import EvidenceHistory.
From S2P Require Import SourceState.
From S2P Require Import ReconciliationJob.
From S2P Require Import ReconciliationAttempt.
From S2P Require Import ReconciliationReplay.
From S2P Require Import ReconciliationManifest.
From S2P Require Import ReconciliationReducer.
From S2P Require Import ReconciliationCommit.
From S2P Require Import ReconciliationCommitSafety.
From S2P Require Import PublicationState.
From S2P Require Import FinalizationState.

(** What finalization reads of a shared manifest beside [EvidenceLibrary]. *)
Class ManifestReader (M : Type) : Type := {
  manifest_trade_generation : M → Z;
  manifest_canonical_bytes : M → bytes;
  manifest_sources : M → list Manifest.ManifestSource;
}.

(** A manifest answers the generation it was built for, and keeps the order of
    sources that are given in the order of their identifiers. *)
Class ManifestReaderLaws (M : Type) `{Manifest.EvidenceLibrary M, ManifestReader M} : Prop :=
  manifest_new_reads trade generation policy at_s pre sources observations m :
    Manifest.manifest_new trade generation policy at_s pre sources observations = Some m →
    manifest_trade_generation m = generation ∧
    (StronglySorted (λ s o, is_lt (bytes_cmp (as_bytes (Manifest.ms_source_id s))
                                            (as_bytes (Manifest.ms_source_id o)))) sources →
     manifest_sources m = sources).

Module Finalization.
Import Job Source SourceState Attempt Replay Manifest Reducer Commit FinalState.

Inductive RhiReconciliationFinalizationErrorKind : Type :=
| InvalidMode | InvalidInput | LeaseLost | GenerationConflict | AttemptUnavailable
| ProjectionUnavailable | Storage | CommitOutcomeUnknown.

Inductive FinalizationOperationError : Type :=
| OpLeaseLost | OpGenerationConflict | OpAttemptUnavailable | OpStorage.

Record FinalizationIdentity : Type := MkIdentity {
  fi_attempt_id : bytes;
  fi_job_id : bytes;
  fi_trade_id : bytes;
  fi_generation : Z;
  fi_policy_digest : bytes;
}.

Definition map_source_error (e : SourceOperationError) : FinalizationOperationError :=
  match e with
  | SourceState.OpGenerationConflict => OpGenerationConflict
  | OpPersistence _ | OpSourceStorage => OpStorage
  end.

Definition MATCH_COMMITTED_ATTEMPT_SQL (i : FinalizationIdentity) (generation : Z)
    (rows : list attempt_row) : Z :=
  count_rows (λ r, bytes_eqb (ar_attempt_id r) (fi_attempt_id i)
                   && bytes_eqb (ar_job_id r) (fi_job_id i)
                   && bytes_eqb (ar_trade_id r) (fi_trade_id i)
                   && (ar_input_generation r =? generation)
                   && bytes_eqb (ar_policy r) (fi_policy_digest i)) rows.

Definition validate_finalization_identity `{Sha256} (lease : Job.RhiReconciliationLease) (i : FinalizationIdentity)
    (now : Z) (db : reconciliation_db) : result FinalizationOperationError unit :=
  reject_if (Job.lease_expires_at lease <=? now) OpLeaseLost ;?
  map_err (λ e, match e with
                | Job.ValidationLeaseLost => OpLeaseLost
                | Job.ValidationStorage => OpStorage
                end) (Job.validate_exact_lease lease (rd_job db)) ;?
  let? dirty :=
    map_err map_source_error (read_dirty (fi_trade_id i) (Job.dirty_generations (rd_job db))) in
  let? _ :=
    ok_or (filter_opt (λ d, (generation d =? fi_generation i)
                            && bytes_eqb (dirty_policy d) (fi_policy_digest i)) dirty)
      OpGenerationConflict in
  let? generation := ok_or (try_from I64_MAX (fi_generation i)) OpStorage in
  reject_if (negb (MATCH_COMMITTED_ATTEMPT_SQL i generation (rd_attempts db) =? 1)) OpAttemptUnavailable.

Section finalization.
Context `{Sha256, EvidenceLibrary M, !ManifestReader M, ReducerLibrary P}.

Record RhiReconciliationFinalizationFence : Type := MkFence {
  fence_lease : Job.RhiReconciliationLease;
  fence_identity : FinalizationIdentity;
  fence_evaluation : RhiReconciliationEvaluation (M := M) (P := P);
}.

Definition finalization_identity (lease : Job.RhiReconciliationLease)
    (evaluation : RhiReconciliationEvaluation (M := M) (P := P)) (now : Z) :
    result RhiReconciliationFinalizationErrorKind FinalizationIdentity :=
  let job := Job.lease_job lease in
  let manifest := pj_manifest (ev_projection evaluation) in
  reject_if
    (negb (bool_decide (Job.state job = Job.Leased))
     || (Job.attempt_count job =? 0)
     || negb (bytes_eqb (mf_job_id manifest) (Job.id job))
     || negb (bytes_eqb (mf_attempt_id manifest) (attempt_id (Job.id job) (Job.attempt_count job)))
     || negb (bytes_eqb (manifest_trade_id (inner manifest)) (Job.trade_id job))
     || negb (manifest_trade_generation (inner manifest) =? Job.input_generation job)
     || negb (bytes_eqb (manifest_policy_digest (inner manifest)) (Job.policy_digest job)))
    InvalidInput ;?
  reject_if (Job.lease_expires_at lease <=? now) LeaseLost ;?
  reject_if (is_null (pj_digest (ev_projection evaluation))) ProjectionUnavailable ;?
  Ok (MkIdentity (mf_attempt_id manifest) (mf_job_id manifest) (Job.trade_id job)
        (Job.input_generation job) (Job.policy_digest job)).

Definition validate_finalization_fence (fence : RhiReconciliationFinalizationFence) (now : Z)
    (db : reconciliation_db) : result FinalizationOperationError unit :=
  validate_finalization_identity (fence_lease fence) (fence_identity fence) now db.

Definition map_transaction_error (e : tx_error FinalizationOperationError) :
    RhiReconciliationFinalizationErrorKind :=
  if commit_outcome_unknown e then CommitOutcomeUnknown
  else match operation_error e with
       | Some OpLeaseLost => LeaseLost
       | Some OpGenerationConflict => GenerationConflict
       | Some OpAttemptUnavailable => AttemptUnavailable
       | Some OpStorage | None => Storage
       end.

Context `{TransactionHost finalization_db}.

Definition prepare_finalization (writable : bool) (lease : Job.RhiReconciliationLease)
    (evaluation : RhiReconciliationEvaluation (M := M) (P := P)) (now : Z) (db : finalization_db) :
    result RhiReconciliationFinalizationErrorKind RhiReconciliationFinalizationFence * finalization_db :=
  match (reject_if (negb writable) InvalidMode ;? finalization_identity lease evaluation now) with
  | Err e => (Err e, db)
  | Ok identity =>
      let fence := MkFence lease identity evaluation in
      let '(res, db) :=
        transaction (λ db, validate_finalization_fence fence now (fd_reconciliation db) ;? Ok (fence, db)) db in
      (map_err map_transaction_error res, db)
  end.
End finalization.

(** ** Lemmas *)

Import CommitSafety.

Lemma validate_exact_lease_jobs `{Sha256} l db db' :
  Job.jobs db' = Job.jobs db → Job.validate_exact_lease l db' = Job.validate_exact_lease l db.
Proof. intros Hj. unfold Job.validate_exact_lease, Job.read_job. by rewrite Hj. Qed.

(** The identity under which an attempt of the lease's job is finalized. *)
Definition plan_identity (lease : Job.RhiReconciliationLease) (plan : RhiReconciliationAttemptPlan) :
    FinalizationIdentity :=
  MkIdentity (plan_id plan) (plan_job_id plan) (Job.trade_id (Job.lease_job lease))
    (plan_input_generation plan) (plan_policy_digest plan).

Section lemmas.
Context `{Sha256}.

(** The committed attempt is found once. *)
Lemma committed_attempt_found lease plan parts advanced db db' g :
  committed lease plan parts advanced db db' →
  request_trade_id <$> head (requests plan) = Some (Job.trade_id (Job.lease_job lease)) →
  try_from I64_MAX (plan_input_generation plan) = Some g →
  MATCH_COMMITTED_ATTEMPT_SQL (plan_identity lease plan) g (rd_attempts db') = 1.
Proof.
  intros Hc Htrade [-> _]%try_from_Some. destruct (cd_attempt _ _ _ _ _ _ Hc) as (row & Hrow & ->).
  unfold attempt_row_of in Hrow. rewrite Htrade in Hrow. unfold i64_value in Hrow. inv_ok. inv_int.
  unfold MATCH_COMMITTED_ATTEMPT_SQL. rewrite count_rows_app, (proj2 (count_rows_none _ (rd_attempts db))).
  - rewrite count_rows_all; [done|]. constructor; [|done]. simpl. by rewrite !bytes_eqb_refl, Z.eqb_refl.
  - intros a Ha. simpl. destruct (bytes_eqb (ar_attempt_id a) (plan_id plan)) eqn:E; [|done].
    apply bytes_eqb_true in E. by destruct (cd_new _ _ _ _ _ _ Hc a Ha).
Qed.

(** After the commit of an attempt, its lease still alive, the fence passes exactly
    when the commit brought no new evidence. *)
Lemma fence_after_commit lease plan parts advanced db db' now :
  recon_inv db → committed lease plan parts advanced db db' →
  request_trade_id <$> head (requests plan) = Some (Job.trade_id (Job.lease_job lease)) →
  now < Job.lease_expires_at lease →
  validate_finalization_identity lease (plan_identity lease plan) now db' =
    if advanced then Err OpGenerationConflict else Ok tt.
Proof.
  intros Hinv Hc Htrade Hnow. pose proof (cd_dirty _ _ _ _ _ _ Hc) as (_ & Hquiet & Hadv & _ & Hjobs).
  destruct (cd_generation _ _ _ _ _ _ Hc) as (d & Hread & Hgen & Hpol).
  unfold validate_finalization_identity. rewrite (proj2 (Z.leb_gt _ _) Hnow). simpl.
  rewrite (validate_exact_lease_jobs _ _ _ Hjobs), (cd_lease _ _ _ _ _ _ Hc). simpl. destruct advanced.
  - destruct (Hadv eq_refl) as (at_s & ->). simpl.
    rewrite (proj2 (Z.eqb_neq _ _)) by lia. done.
  - rewrite (Hquiet eq_refl), Hread. simpl. rewrite Hgen, Hpol, Z.eqb_refl, bytes_eqb_refl. simpl.
    destruct (cd_attempt _ _ _ _ _ _ Hc) as (row & Hrow & _).
    assert (∃ g, try_from I64_MAX (plan_input_generation plan) = Some g) as [g Hg].
    { unfold attempt_row_of, i64_value in Hrow. inv_ok. by eexists. }
    rewrite Hg. simpl. by rewrite (committed_attempt_found _ _ _ _ _ _ _ Hc Htrade Hg).
Qed.

Lemma reduced_manifest `{EvidenceLibrary M, ReducerLibrary P} (mf : RhiReconciliationManifest (M := M))
    (p : RhiReconciliationProjection (P := P)) :
  reduce_rhi_reconciliation_manifest mf = Ok p → pj_manifest p = mf.
Proof. unfold reduce_rhi_reconciliation_manifest. intros. by inv_ok. Qed.

Lemma evaluated_projection `{EvidenceLibrary M, ReducerLibrary P}
    (p : RhiReconciliationProjection (M := M) (P := P)) claim :
  ev_projection (evaluate_rhi_reconciliation_claim p claim) = p.
Proof. unfold evaluate_rhi_reconciliation_claim. by destruct (classify_evaluation _). Qed.
End lemmas.

Section pipeline.
Context `{Sha256, JsonValue V, !JsonWriter V, EvidenceLibrary M, !EvidenceLaws M, !ManifestReader M,
  !ManifestReaderLaws M, ReducerLibrary P, TransactionLaws reconciliation_db, TransactionLaws finalization_db}.

(** The evaluation of a committed attempt has the identity of its plan. *)
Lemma committed_identity lease0 (normalized : V) start lease plan parts advanced db db' material at_s pre
    (mf : RhiReconciliationManifest (M := M)) (p : RhiReconciliationProjection (P := P)) claim now :
  from_claim lease0 normalized start = Ok plan →
  Job.attempt_count (Job.lease_job lease) = Job.attempt_count (Job.lease_job lease0) →
  plan_mismatch lease plan = false → committed lease plan parts advanced db db' →
  Forall (λ q, cp_trade_id q = Job.trade_id (Job.lease_job lease)) parts →
  committed_manifest_material plan parts = Some material →
  freeze_manifest material at_s pre = Ok mf → reduce_rhi_reconciliation_manifest mf = Ok p →
  is_Some (pj_digest p) → now < Job.lease_expires_at lease →
  finalization_identity lease (evaluate_rhi_reconciliation_claim p claim) now = Ok (plan_identity lease plan).
Proof.
  intros Hplan Hcount Hmis Hc Htrades Hm Hf Hp [dg Hdg] Hnow.
  apply from_claim_Ok in Hplan as (_ & Hcnt & _ & _ & _ & Hid & Hjob & _).
  unfold plan_mismatch in Hmis. to_prop.
  repeat match goal with H : bytes_eqb _ _ = true |- _ => apply bytes_eqb_true in H end.
  apply committed_material_identity in Hm as Hmi. destruct Hmi as (Hm1 & Hm2 & Hm3 & Hm4 & _).
  apply committed_material_Some in Hm as (_ & _ & _ & Hm5 & _).
  assert (manifest_trade_generation (inner mf) = cm_generation material) as Hgen.
  { unfold freeze_manifest in Hf. bind Hf as u Hu. bind Hf as m Hnew. apply ok_or_Ok in Hnew.
    injection Hf as <-. by apply manifest_new_reads in Hnew as [? _]. }
  apply freeze_manifest_Ok in Hf as (_ & _ & _ & Hf1 & Hf2 & Hf3 & _ & Hf4 & _).
  assert (cm_trade_id material = Job.trade_id (Job.lease_job lease)) as Htr.
  { destruct parts as [|q parts]; [done|]. simpl in Hm4. injection Hm4 as ->. by inversion Htrades. }
  assert (Job.state (Job.lease_job lease) = Job.Leased) as Hst.
  { pose proof (cd_lease _ _ _ _ _ _ Hc) as Hl. unfold Job.validate_exact_lease in Hl.
    bind Hl as cur Hcur. destruct (_ && _) eqn:E in Hl; [|done]. by to_prop. }
  assert (plan_job_id plan = Job.id (Job.lease_job lease)) as Hj by done.
  unfold finalization_identity. rewrite evaluated_projection, (reduced_manifest _ _ Hp).
  rewrite Hf1, Hf2, Hf3, Hf4, Hgen, Hm1, Hm2, Hm3, Hm5, Htr, Hst. rewrite bool_decide_eq_true_2 by done.
  rewrite (proj2 (Z.eqb_neq _ _)) by congruence.
  rewrite Hid, Hcount, <- Hj, Hjob. unfold plan_identity.
  rewrite !bytes_eqb_refl, Hdg, (proj2 (Z.leb_gt _ _) Hnow). simpl.
  match goal with H1 : plan_input_generation plan = _, H2 : plan_policy_digest plan = _ |- _ =>
    rewrite <- H1, <- H2 end.
  rewrite Z.eqb_refl, bytes_eqb_refl. simpl. congruence.
Qed.

(** ** Properties *)

(** C8. Only quiescent attempts are finalized.  After the first commit of an attempt,
    carried through its manifest, the reduction and the evaluation of any claim, the
    preflight changes nothing; with the lease alive it grants a fence exactly under the
    attempt's identity and only when the commit brought no new evidence, it refuses
    with a generation conflict only when it did, and it fails otherwise only because
    the host could not answer. *)
Theorem finalization_requires_quiescence lease0 (normalized : V) start writable lease plan replays db out
    fdb at_s pre (mf : RhiReconciliationManifest (M := M)) (p : RhiReconciliationProjection (P := P)) claim now
    res fdb' :
  recon_inv db → from_claim lease0 normalized start = Ok plan →
  Job.attempt_count (Job.lease_job lease) = Job.attempt_count (Job.lease_job lease0) →
  commit_source_replays writable lease plan replays db = (Ok out, fd_reconciliation fdb) →
  out_created out = true → freeze_manifest (manifest_material out) at_s pre = Ok mf →
  reduce_rhi_reconciliation_manifest mf = Ok p → is_Some (pj_digest p) → now < Job.lease_expires_at lease →
  prepare_finalization true lease (evaluate_rhi_reconciliation_claim p claim) now fdb = (res, fdb') →
  fdb' = fdb ∧
  match res with
  | Ok fence => dirty_generation_advanced out = false ∧
      fence = MkFence lease (plan_identity lease plan) (evaluate_rhi_reconciliation_claim p claim)
  | Err GenerationConflict => dirty_generation_advanced out = true
  | Err e => e = Storage ∨ e = CommitOutcomeUnknown
  end.
Proof.
  intros Hinv Hplan Hcount Hrun Hcr Hf Hp Hd Hnow Hprep.
  eapply commit_source_replays_Ok in Hrun as (parts & Hv & Hc); [|done..]. rewrite Hcr in Hc.
  eapply validate_commit_Ok in Hv as (_ & _ & _ & Hmis & _ & Htr & Hm & Htrade); [|done].
  unfold prepare_finalization in Hprep. simpl in Hprep.
  rewrite (committed_identity _ _ _ _ _ _ _ _ _ _ _ _ _ _ _ _ Hplan Hcount Hmis Hc Htr Hm Hf Hp Hd Hnow) in Hprep.
  pose proof (fence_after_commit _ _ _ _ _ _ _ Hinv Hc Htrade Hnow) as Hfence.
  destruct (transaction _ fdb) as [[fence|e] fdb1] eqn:Htx; injection Hprep as <- <-; simpl.
  - apply tx_committed in Htx. unfold validate_finalization_fence in Htx. simpl in Htx. rewrite Hfence in Htx.
    destruct (dirty_generation_advanced out); [done|]. by injection Htx as <- <-.
  - unfold map_transaction_error. destruct (commit_outcome_unknown e) eqn:Hu.
    + destruct (tx_unknown _ _ _ _ Htx Hu) as (x & fdb2 & Hop & Hdb). unfold validate_finalization_fence in Hop.
      simpl in Hop. rewrite Hfence in Hop. destruct (dirty_generation_advanced out); [done|].
      injection Hop as _ <-. split; [by destruct Hdb|by right].
    + destruct (tx_rolled_back _ _ _ _ Htx Hu) as [-> Herr]. split; [done|].
      destruct (operation_error e) as [oe|]; [|by left]. specialize (Herr _ eq_refl).
      unfold validate_finalization_fence in Herr. simpl in Herr. rewrite Hfence in Herr.
      destruct (dirty_generation_advanced out); [|done]. simpl in Herr. by injection Herr as <-.
Qed.
End pipeline.

(** ** A concrete attempt that finds nothing new *)

#[local] Existing Instance checksum.
#[local] Existing Instance json_value.
#[local] Existing Instance json_writer.
#[local] Existing Instance demo_library.
#[local] Existing Instance Manifest.demo_laws.
#[local] Existing Instance demo_reducer.
#[local] Existing Instance reliable_host.
#[local] Existing Instance reliable_host_laws.

Definition demo_reader : ManifestReader demo_manifest := {|
  manifest_trade_generation := dm_generation;
  manifest_canonical_bytes := λ m, [123] ++ dm_trade m ++ dm_policy m ++ [125];
  manifest_sources := dm_sources;
|}.

#[local] Existing Instance demo_reader.

Lemma demo_reader_laws : ManifestReaderLaws demo_manifest.
Proof. intros t g p a pre ss os m. simpl. by intros [= <-]. Qed.

#[local] Existing Instance demo_reader_laws.

Definition quiet_replays : list RhiReconciliationSourceReplay :=
  Eval vm_compute in
    match requests CommitSafety.demo_plan with
    | [request] =>
        match from_request CommitSafety.demo_plan request Attempt.demo_document None with
        | Ok p => match finish p request Complete 2500 4000 [] with Ok r => [r] | Err _ => [] end
        | Err _ => []
        end
    | _ => []
    end.

Definition quiet_commit :=
  commit_source_replays true CommitSafety.demo_lease CommitSafety.demo_plan quiet_replays CommitSafety.demo_state.

Definition quiet_outcome : RhiReconciliationSourceCommitOutcome RhiCommittedManifestMaterial :=
  Eval vm_compute in
    match quiet_commit.1 with
    | Ok out => out
    | Err _ => MkOutcome _ false 0 0 false [] (MkCommittedMaterial [] [] [] 0 [] 0 [] [] [])
    end.

Definition quiet_state : finalization_db :=
  FinalizationDb quiet_commit.2 [] [] [] (PubState.PublicationDb [] [] [] []).

Definition quiet_manifest : RhiReconciliationManifest (M := demo_manifest) :=
  match freeze_manifest (manifest_material quiet_outcome) 5 Satisfied with
  | Ok mf => mf
  | Err _ => MkManifest (DemoManifest [] 0 0 [] [] []) [] [] []
  end.

Definition quiet_projection : RhiReconciliationProjection :=
  match reduce_rhi_reconciliation_manifest quiet_manifest with
  | Ok p => p
  | Err _ => MkProjection quiet_manifest ([], []) None None
  end.

Definition quiet_evaluation : RhiReconciliationEvaluation :=
  evaluate_rhi_reconciliation_claim quiet_projection (repeat 4 32).

Definition quiet_fence : RhiReconciliationFinalizationFence :=
  MkFence CommitSafety.demo_lease (plan_identity CommitSafety.demo_lease CommitSafety.demo_plan) quiet_evaluation.

Lemma quiet_commit_outcome : quiet_commit.1 = Ok quiet_outcome.
Proof. vm_compute. reflexivity. Qed.

Lemma quiet_commit_Ok : quiet_commit = (Ok quiet_outcome, fd_reconciliation quiet_state).
Proof. rewrite (surjective_pairing quiet_commit). by rewrite quiet_commit_outcome. Qed.

Lemma quiet_frozen : freeze_manifest (manifest_material quiet_outcome) 5 Satisfied = Ok quiet_manifest.
Proof. vm_compute. reflexivity. Qed.

Lemma quiet_reduced : reduce_rhi_reconciliation_manifest quiet_manifest = Ok quiet_projection.
Proof. vm_compute. reflexivity. Qed.

Lemma quiet_digest : is_Some (pj_digest quiet_projection).
Proof. vm_compute. by eexists. Qed.

Lemma quiet_prepared :
  prepare_finalization true CommitSafety.demo_lease quiet_evaluation 5000 quiet_state =
    (Ok quiet_fence, quiet_state).
Proof.
  assert ((prepare_finalization true CommitSafety.demo_lease quiet_evaluation 5000 quiet_state).1 = Ok quiet_fence)
    as Hp by (vm_compute; reflexivity).
  rewrite (surjective_pairing (prepare_finalization _ _ _ _ _)), Hp. reflexivity.
Qed.

Lemma finalization_requires_quiescence_witness : dirty_generation_advanced quiet_outcome = false.
Proof.
  exact (proj1 (proj2 (finalization_requires_quiescence CommitSafety.demo_lease Attempt.demo_document 2000 true
    CommitSafety.demo_lease CommitSafety.demo_plan quiet_replays CommitSafety.demo_state quiet_outcome quiet_state
    5 Satisfied quiet_manifest quiet_projection (repeat 4 32) 5000 (Ok quiet_fence) quiet_state
    CommitSafety.demo_state_ok CommitSafety.demo_claim_planned eq_refl quiet_commit_Ok eq_refl quiet_frozen
    quiet_reduced quiet_digest eq_refl quiet_prepared))).
Defined.

End Finalization.
