(* ===== verification/ReconciliationAttestation.v ===== *)
(** * Signed attestations: [src/src/reconciliation_attestation.rs]

    The report, the event plan, the signature and the independent verification of
    one evaluated attempt, and the reloading of a stored attestation as the
    predecessor of a new one.  The shared report, the event codecs, the wire parser
    and the signer are interfaces. *)

From Stdlib Require Import ZArith Lia Ascii.
From stdpp Require Import list strings countable.
From S2P Require Import Prelude.
From S2P Require Import Sql.
From S2P Require Import Interfaces.
From S2P Require Import RuntimeAdapters.
From S2P Require Import JsonText.
From S2P Require Import ReconciliationManifest.
From S2P Require Import ReconciliationReducer.
From S2P Require Import ReconciliationFinalization.

Module Attestation.
Import Manifest Reducer Finalization.

Definition RHI_RECONCILIATION_SIGNED_ATTESTATION_MAX_BYTES : Z := 32768.
Definition MAXIMUM_TAGS : Z := 7.
Definition MAXIMUM_TAG_ELEMENTS : Z := 21.
Definition MAXIMUM_TAG_ELEMENT_BYTES : Z := 128.
Definition MAXIMUM_TAG_BYTES : Z := 1024.

Inductive RhiReconciliationAttestationErrorKind : Type :=
| InvalidInput | IdentityMismatch | EntropyUnavailable | ReportInvalid | EventPlanInvalid
| SigningFailed | VerificationFailed | SupersessionInvalid.

(** [EventWireLimits] *)
Record EventWireLimits : Type := MkLimits {
  max_raw_json_bytes : Z;
  max_content_bytes : Z;
  max_tag_count : Z;
  max_total_tag_elements : Z;
  max_tag_element_bytes : Z;
  max_total_tag_bytes : Z;
  max_extra_fields : Z;
  max_total_extra_json_bytes : Z;
}.

(** What is read of a parsed event. *)
Record EventEnvelope : Type := MkEnvelope {
  ee_id : bytes;
  ee_author : bytes;
  ee_created_at : Z;
  ee_kind : Z;
  ee_tags : list (list string);
  ee_content : bytes;
}.

(** [AuthoredEventBody] and [AuthoredEventPlan] *)
Record AuthoredEventPlan : Type := MkEventPlan {
  ep_kind : Z;
  ep_tags : list (list string);
  ep_content : bytes;
  ep_created_at : Z;
  ep_author : bytes;
  ep_expected_event_id : bytes;
}.

(** [RadrootsRhiEvidenceReportV1] and its typed attestation, the planner, the signing
    identity [Idn] and the wire codec. *)
Class AttestationLibrary (M Idn : Type) : Type := {
  RADROOTS_RHI_EVIDENCE_REPORT_MAXIMUM_CANONICAL_BYTES : Z;
  Report : Type;
  Typed : Type;
  Body : Type;
  Unsigned : Type;
  report_eq_dec :: EqDecision Report;
  to_hex : bytes → string;
  public_key_parse : string → option bytes;
  public_identity_hex : Idn → string;
  reason_parse : string → bool;
  report_new : bytes → bytes → RhiReconciliationOutcome → list RhiReconciliationReasonCode → bytes → M →
    option (bytes * bytes) → option Report;
  report_validates : Report → M → bool;
  report_from_canonical_content : bytes → option Report;
  report_canonical_content : Report → bytes;
  report_statement_digest : Report → bytes;
  report_issuer_public_key : Report → bytes;
  report_claim_mutation_id : Report → bytes;
  report_observed_at : Report → Z;
  report_trade_id : Report → bytes;
  report_supersession : Report → option (bytes * bytes);
  typed_from_canonical_content : bytes → option Typed;
  typed_canonical_content : Typed → bytes;
  rhi_evidence_attestation_from_event : EventEnvelope → option Typed;
  validate_rhi_evidence_attestation_supersession : Typed → bytes → Typed → bool;
  body_from_rhi_evidence_attestation : Typed → option Body;
  plan_bind : Body → Z → string → option AuthoredEventPlan;
  tag_parse : list string → bool;
  event_build : Z → bytes → list (list string) → Z → bytes → Unsigned;
  unsigned_id : Unsigned → option bytes;
  sign_nostr_event : Idn → Unsigned → bytes → option Unsigned;
  event_to_vec : Unsigned → option bytes;
  parse_event : list Z → EventWireLimits → option EventEnvelope;
  verify_id : EventEnvelope → bool;
  verify : EventEnvelope → bool;
}.

(** Canonical content decodes to its report, a key has one hexadecimal form, and a
    plan is bound to the author and the time it is given. *)
Class AttestationLaws (M Idn : Type) `{AttestationLibrary M Idn} : Prop := {
  canonical_content_roundtrip r : report_from_canonical_content (report_canonical_content r) = Some r;
  public_key_parse_hex text k : public_key_parse text = Some k → to_hex k = text;
  to_hex_inj k k' : to_hex k = to_hex k' → k = k';
  plan_bind_author body at_s text plan : plan_bind body at_s text = Some plan → to_hex (ep_author plan) = text;
  plan_bind_time body at_s text plan : plan_bind body at_s text = Some plan → ep_created_at plan = at_s;
  report_new_issuer issuer claim o rs d m s r :
    report_new issuer claim o rs d m s = Some r → report_issuer_public_key r = issuer;
}.

Section attestation.
Context `{Sha256, EvidenceLibrary M, !ManifestReader M, ReducerLibrary P, AttestationLibrary M Idn}.

Record RhiEvidenceAttestationSupersession : Type := MkSupersession {
  su_report : Report;
  su_event_id : bytes;
}.

Record RhiSignedEvidenceAttestation : Type := MkSigned {
  sa_fence : RhiReconciliationFinalizationFence (M := M) (P := P);
  sa_report : Report;
  sa_event_id : bytes;
  sa_signed_event_bytes : bytes;
  sa_signed_event_sha256 : bytes;
  sa_created_at : Z;
}.

Definition from_attestation (a : RhiSignedEvidenceAttestation) : RhiEvidenceAttestationSupersession :=
  MkSupersession (sa_report a) (sa_event_id a).

Definition signed_event_limits : EventWireLimits :=
  MkLimits RHI_RECONCILIATION_SIGNED_ATTESTATION_MAX_BYTES
    RADROOTS_RHI_EVIDENCE_REPORT_MAXIMUM_CANONICAL_BYTES MAXIMUM_TAGS MAXIMUM_TAG_ELEMENTS
    MAXIMUM_TAG_ELEMENT_BYTES MAXIMUM_TAG_BYTES 0 0.

Definition from_persisted (trade_id statement_sha256 event_id canonical_report canonical_event_json : bytes) :
    result RhiReconciliationAttestationErrorKind RhiEvidenceAttestationSupersession :=
  let? report := ok_or (report_from_canonical_content canonical_report) SupersessionInvalid in
  reject_if (negb (bytes_eqb (report_trade_id report) trade_id)
             || negb (bytes_eqb (report_statement_digest report) statement_sha256)) SupersessionInvalid ;?
  let? source := ok_or (JsonText.from_utf8 canonical_event_json) SupersessionInvalid in
  let? event := ok_or (parse_event source signed_event_limits) SupersessionInvalid in
  reject_if (negb (verify_id event) || negb (verify event)
             || negb (bytes_eqb (ee_id event) event_id)
             || negb (bytes_eqb (ee_author event) (report_issuer_public_key report))) SupersessionInvalid ;?
  let? typed := ok_or (rhi_evidence_attestation_from_event event) SupersessionInvalid in
  reject_if (negb (bytes_eqb (typed_canonical_content typed) (report_canonical_content report)))
    SupersessionInvalid ;?
  Ok (MkSupersession report event_id).

Definition report_reason (reason : RhiReconciliationReasonCode) :
    result RhiReconciliationAttestationErrorKind RhiReconciliationReasonCode :=
  if reason_parse (reason_code reason) then Ok reason else Err ReportInvalid.

Definition sign_plan (identity : Idn) (plan : AuthoredEventPlan) (auxiliary : bytes) :
    result RhiReconciliationAttestationErrorKind Unsigned :=
  let? kind := ok_or (try_from U16_MAX (ep_kind plan)) EventPlanInvalid in
  reject_if (negb (forallb tag_parse (ep_tags plan))) EventPlanInvalid ;?
  let? author := ok_or (public_key_parse (public_identity_hex identity)) IdentityMismatch in
  let unsigned := event_build kind (ep_content plan) (ep_tags plan) (ep_created_at plan) author in
  reject_if (negb (bool_decide (unsigned_id unsigned = Some (ep_expected_event_id plan)))) EventPlanInvalid ;?
  ok_or (sign_nostr_event identity unsigned auxiliary) SigningFailed.

Definition verify_signed_event_plan (plan : AuthoredEventPlan) (signed_event_bytes : bytes) :
    result RhiReconciliationAttestationErrorKind EventEnvelope :=
  reject_if ((length signed_event_bytes =? 0)%nat
             || (RHI_RECONCILIATION_SIGNED_ATTESTATION_MAX_BYTES <? Z.of_nat (length signed_event_bytes)))
    VerificationFailed ;?
  let? source := ok_or (JsonText.from_utf8 signed_event_bytes) VerificationFailed in
  let? event := ok_or (parse_event source signed_event_limits) VerificationFailed in
  reject_if (negb (verify_id event) || negb (verify event)) VerificationFailed ;?
  reject_if
    (negb (bytes_eqb (ee_id event) (ep_expected_event_id plan))
     || negb (String.eqb (to_hex (ee_author event)) (to_hex (ep_author plan)))
     || negb (ee_created_at event =? ep_created_at plan)
     || negb (ee_kind event =? ep_kind plan)
     || negb (bool_decide (ee_tags event = ep_tags plan))
     || negb (bytes_eqb (ee_content event) (ep_content plan))) VerificationFailed ;?
  Ok event.

Definition verify_signed_event (plan : AuthoredEventPlan) (report : Report) (manifest : M)
    (signed_event_bytes : bytes) : result RhiReconciliationAttestationErrorKind EventEnvelope :=
  let? event := verify_signed_event_plan plan signed_event_bytes in
  let? typed := ok_or (rhi_evidence_attestation_from_event event) VerificationFailed in
  reject_if (negb (bytes_eqb (typed_canonical_content typed) (report_canonical_content report)))
    VerificationFailed ;?
  let? reparsed := ok_or (report_from_canonical_content (ee_content event)) VerificationFailed in
  reject_if (negb (report_validates reparsed manifest)) VerificationFailed ;?
  reject_if (negb (bool_decide (reparsed = report))) VerificationFailed ;?
  Ok event.

(** Everything before the entropy is drawn: the report and the plan of its event. *)
Definition plan_attestation (fence : RhiReconciliationFinalizationFence (M := M) (P := P)) (identity : Idn)
    (created_at : Z) (supersession : option RhiEvidenceAttestationSupersession) :
    result RhiReconciliationAttestationErrorKind (Report * AuthoredEventPlan) :=
  let evaluation := fence_evaluation fence in
  let projection := ev_projection evaluation in
  let manifest := inner (pj_manifest projection) in
  let? projection_digest := ok_or (pj_digest projection) InvalidInput in
  let? issuer := ok_or (public_key_parse (public_identity_hex identity)) IdentityMismatch in
  let? reasons := collect report_reason (reason_codes evaluation) in
  let shared_supersession :=
    (λ prior, (report_statement_digest (su_report prior), su_event_id prior)) <$> supersession in
  let? report :=
    ok_or (report_new issuer (claim_mutation_id evaluation) (ev_outcome evaluation) reasons projection_digest
             manifest shared_supersession) ReportInvalid in
  reject_if (negb (report_validates report manifest)) ReportInvalid ;?
  let? attestation := ok_or (typed_from_canonical_content (report_canonical_content report)) ReportInvalid in
  match supersession with
  | None => Ok tt
  | Some prior =>
      let? current :=
        ok_or (typed_from_canonical_content (report_canonical_content (su_report prior))) SupersessionInvalid in
      reject_if (negb (validate_rhi_evidence_attestation_supersession current (su_event_id prior) attestation))
        SupersessionInvalid
  end ;?
  let? body := ok_or (body_from_rhi_evidence_attestation attestation) EventPlanInvalid in
  let? plan := ok_or (plan_bind body created_at (public_identity_hex identity)) EventPlanInvalid in
  Ok (report, plan).

(** The signature and its independent verification. *)
Definition sign_attestation (fence : RhiReconciliationFinalizationFence (M := M) (P := P)) (identity : Idn)
    (created_at : Z) (report : Report) (plan : AuthoredEventPlan) (auxiliary : bytes) :
    result RhiReconciliationAttestationErrorKind RhiSignedEvidenceAttestation :=
  let? signed_event := sign_plan identity plan auxiliary in
  let? signed_event_bytes := ok_or (event_to_vec signed_event) SigningFailed in
  reject_if (RHI_RECONCILIATION_SIGNED_ATTESTATION_MAX_BYTES <? Z.of_nat (length signed_event_bytes))
    SigningFailed ;?
  let manifest := inner (pj_manifest (ev_projection (fence_evaluation fence))) in
  let? verified := verify_signed_event plan report manifest signed_event_bytes in
  Ok (MkSigned fence report (ee_id verified) signed_event_bytes (sha256 signed_event_bytes) created_at).

Context `{EntropySource W}.

Definition build_rhi_signed_evidence_attestation
    (fence : RhiReconciliationFinalizationFence (M := M) (P := P)) (identity : Idn) (created_at : Z)
    (supersession : option RhiEvidenceAttestationSupersession) (w : W) :
    result RhiReconciliationAttestationErrorKind RhiSignedEvidenceAttestation * W :=
  match plan_attestation fence identity created_at supersession with
  | Err e => (Err e, w)
  | Ok (report, plan) =>
      match fill_bytes 32 w with
      | (None, w) => (Err EntropyUnavailable, w)
      | (Some auxiliary, w) => (sign_attestation fence identity created_at report plan auxiliary, w)
      end
  end.

(** ** Lemmas *)

Lemma verify_plan_Ok plan b event :
  verify_signed_event_plan plan b = Ok event →
  1 ≤ Z.of_nat (length b) ≤ RHI_RECONCILIATION_SIGNED_ATTESTATION_MAX_BYTES ∧
  (∃ source, JsonText.from_utf8 b = Some source ∧ parse_event source signed_event_limits = Some event) ∧
  verify_id event = true ∧ verify event = true ∧
  ee_id event = ep_expected_event_id plan ∧ to_hex (ee_author event) = to_hex (ep_author plan) ∧
  ee_created_at event = ep_created_at plan ∧ ee_kind event = ep_kind plan ∧
  ee_tags event = ep_tags plan ∧ ee_content event = ep_content plan.
Proof.
  unfold verify_signed_event_plan. intros Hv. inv_ok. to_prop.
  repeat match goal with
  | H : bytes_eqb _ _ = true |- _ => apply bytes_eqb_true in H
  | H : String.eqb _ _ = true |- _ => apply String.eqb_eq in H
  | H : (_ =? _)%nat = false |- _ => apply Nat.eqb_neq in H
  end.
  split_and!; eauto; lia.
Qed.

Lemma verify_event_Ok plan report (manifest : M) b event :
  verify_signed_event plan report manifest b = Ok event →
  verify_signed_event_plan plan b = Ok event ∧
  (∃ typed, rhi_evidence_attestation_from_event event = Some typed ∧
     typed_canonical_content typed = report_canonical_content report) ∧
  report_from_canonical_content (ee_content event) = Some report ∧ report_validates report manifest = true.
Proof.
  unfold verify_signed_event. intros Hv. bind Hv as e He. bind Hv as t Ht. bind Hv as u Hu. bind Hv as r Hr.
  inv_ok. to_prop.
  repeat match goal with H : bytes_eqb _ _ = true |- _ => apply bytes_eqb_true in H end. subst.
  split_and!; eauto.
Qed.

Lemma sign_attestation_Ok fence identity created_at report plan aux a :
  sign_attestation fence identity created_at report plan aux = Ok a →
  ∃ signed event,
    sign_plan identity plan aux = Ok signed ∧ event_to_vec signed = Some (sa_signed_event_bytes a) ∧
    verify_signed_event plan report (inner (pj_manifest (ev_projection (fence_evaluation fence))))
      (sa_signed_event_bytes a) = Ok event ∧
    a = MkSigned fence report (ee_id event) (sa_signed_event_bytes a) (sha256 (sa_signed_event_bytes a)) created_at.
Proof.
  unfold sign_attestation. intros Ha. bind Ha as signed Hs. bind Ha as b Hb. apply ok_or_Ok in Hb.
  bind Ha as u Hu. bind Ha as event He. injection Ha as <-. by exists signed, event.
Qed.

Lemma sign_attestation_intro fence identity created_at report plan aux signed b event manifest :
  sign_plan identity plan aux = Ok signed → event_to_vec signed = Some b →
  pj_manifest (ev_projection (fence_evaluation fence)) = manifest →
  verify_signed_event plan report (inner manifest) b = Ok event →
  sign_attestation fence identity created_at report plan aux =
    Ok (MkSigned fence report (ee_id event) b (sha256 b) created_at).
Proof.
  intros Hs Hb <- Hv. unfold sign_attestation. rewrite Hs. simpl. rewrite Hb. simpl.
  pose proof Hv as [Hp _]%verify_event_Ok. apply verify_plan_Ok in Hp as [[_ Hlen] _].
  rewrite (proj2 (Z.ltb_ge _ _) Hlen). simpl. by rewrite Hv.
Qed.

Lemma plan_attestation_Ok fence identity created_at supersession report plan :
  plan_attestation fence identity created_at supersession = Ok (report, plan) →
  let evaluation := fence_evaluation fence in
  (∃ issuer d reasons, public_key_parse (public_identity_hex identity) = Some issuer ∧
     pj_digest (ev_projection evaluation) = Some d ∧
     report_new issuer (claim_mutation_id evaluation) (ev_outcome evaluation) reasons d
       (inner (pj_manifest (ev_projection evaluation)))
       ((λ prior, (report_statement_digest (su_report prior), su_event_id prior)) <$> supersession) = Some report) ∧
  ∃ body, plan_bind body created_at (public_identity_hex identity) = Some plan.
Proof.
  unfold plan_attestation. intros Hp. bind Hp as d Hd. bind Hp as issuer Hi. bind Hp as rs Hrs.
  bind Hp as r Hr. bind Hp as u Hu. bind Hp as t Ht. bind Hp as u2 Hu2. bind Hp as body Hb. bind Hp as pl Hpl.
  injection Hp as <- <-. apply ok_or_Ok in Hd, Hi, Hr, Hpl. split; eauto 6.
Qed.

Lemma build_Ok fence identity created_at supersession (w : W) a w' :
  build_rhi_signed_evidence_attestation fence identity created_at supersession w = (Ok a, w') →
  ∃ report plan aux, plan_attestation fence identity created_at supersession = Ok (report, plan) ∧
    fill_bytes 32 w = (Some aux, w') ∧ sign_attestation fence identity created_at report plan aux = Ok a.
Proof.
  unfold build_rhi_signed_evidence_attestation.
  destruct (plan_attestation _ _ _ _) as [[report plan]|]; [|done].
  destruct (fill_bytes 32 w) as [[aux|] w1]; [|done]. intros [= Ha <-]. by exists report, plan, aux.
Qed.

(** ** Properties *)

(** C36. An issued attestation is verified independently of its signer and draws
    entropy once: the builder leaves the entropy source untouched or draws exactly 32
    bytes from it; what it issues are 1 to 32768 bytes that parse, under the wire
    limits, to an event whose identifier and signature verify, authored by the
    configured identity and created at the given second, which the attestation also
    carries, and whose content is a report on the fence's
    claim, outcome, projection digest and manifest. *)
Theorem attestations_are_verified `{!AttestationLaws M Idn} fence identity created_at supersession (w : W) res w' :
  build_rhi_signed_evidence_attestation fence identity created_at supersession w = (res, w') →
  (w' = w ∨ w' = (fill_bytes 32 w).2) ∧
  match res with
  | Err _ => True
  | Ok a =>
      (∃ aux, fill_bytes 32 w = (Some aux, w')) ∧ sa_fence a = fence ∧
      1 ≤ Z.of_nat (length (sa_signed_event_bytes a)) ≤ RHI_RECONCILIATION_SIGNED_ATTESTATION_MAX_BYTES ∧
      sa_signed_event_sha256 a = sha256 (sa_signed_event_bytes a) ∧
      ∃ source event,
        JsonText.from_utf8 (sa_signed_event_bytes a) = Some source ∧
        parse_event source signed_event_limits = Some event ∧ verify_id event = true ∧ verify event = true ∧
        ee_id event = sa_event_id a ∧ to_hex (ee_author event) = public_identity_hex identity ∧
        ee_created_at event = created_at ∧ sa_created_at a = created_at ∧
        report_from_canonical_content (ee_content event) = Some (sa_report a) ∧
        let evaluation := fence_evaluation fence in
        let manifest := inner (pj_manifest (ev_projection evaluation)) in
        report_validates (sa_report a) manifest = true ∧
        ∃ reasons d, pj_digest (ev_projection evaluation) = Some d ∧
          report_new (ee_author event) (claim_mutation_id evaluation) (ev_outcome evaluation) reasons d manifest
            ((λ prior, (report_statement_digest (su_report prior), su_event_id prior)) <$> supersession)
            = Some (sa_report a)
  end.
Proof.
  intros Hb. split.
  - unfold build_rhi_signed_evidence_attestation in Hb.
    destruct (plan_attestation _ _ _ _) as [[report plan]|]; [|by injection Hb as _ <-; left].
    destruct (fill_bytes 32 w) as [[aux|] w1]; injection Hb as _ <-; by right.
  - destruct res as [a|]; [|done].
    apply build_Ok in Hb as (report & plan & aux & Hp & Hw & Hs).
    apply plan_attestation_Ok in Hp as ((issuer & d & reasons & Hi & Hd & Hr) & body & Hbind).
    apply sign_attestation_Ok in Hs as (signed & event & _ & _ & Hv & ->). simpl in *.
    apply verify_event_Ok in Hv as (Hv & _ & Hrep & Hval).
    apply verify_plan_Ok in Hv as (Hlen & (source & Hsrc & Hparse) & Hid & Hver & Heid & Hauth & Htime & _).
    rewrite (plan_bind_time _ _ _ _ Hbind) in Htime.
    apply plan_bind_author in Hbind. apply public_key_parse_hex in Hi. rewrite Hbind in Hauth.
    assert (issuer = ee_author event) as -> by (apply to_hex_inj; congruence).
    split; [by exists aux|]. split; [done|]. split; [exact Hlen|]. split; [done|].
    exists source, event. split_and!; eauto.
Qed.

(** What finalization stores of an issued attestation reloads: from the canonical
    report, the signed bytes and the identifiers, the stored attestation is verified
    again and becomes exactly the predecessor the attestation itself gives. *)
Theorem issued_attestations_reload `{!AttestationLaws M Idn} fence identity created_at supersession (w : W) a w' :
  build_rhi_signed_evidence_attestation fence identity created_at supersession w = (Ok a, w') →
  from_persisted (report_trade_id (sa_report a)) (report_statement_digest (sa_report a)) (sa_event_id a)
    (report_canonical_content (sa_report a)) (sa_signed_event_bytes a) = Ok (from_attestation a).
Proof.
  intros (report & plan & aux & Hp & _ & Hs)%build_Ok.
  apply plan_attestation_Ok in Hp as ((issuer & d & reasons & Hi & _ & Hr) & body & Hbind).
  apply sign_attestation_Ok in Hs as (signed & event & _ & _ & Hv & ->). simpl in *.
  apply verify_event_Ok in Hv as (Hv & (typed & Ht & Htc) & _ & _).
  apply verify_plan_Ok in Hv as (_ & (source & Hsrc & Hparse) & Hid & Hver & _ & Hauth & _).
  apply plan_bind_author in Hbind. apply public_key_parse_hex in Hi.
  assert (ee_author event = issuer) as Ha by (apply to_hex_inj; congruence).
  apply report_new_issuer in Hr as Hri.
  unfold from_persisted. rewrite canonical_content_roundtrip. simpl. rewrite !bytes_eqb_refl. simpl.
  rewrite Hsrc. simpl. rewrite Hparse. simpl. rewrite Hid, Hver, Ha, Hri, !bytes_eqb_refl. simpl.
  rewrite Ht. simpl. by rewrite Htc, bytes_eqb_refl.
Qed.
End attestation.

(** ** A concrete attestation of the attempt of [ReconciliationFinalization] *)

#[local] Existing Instance checksum.
#[local] Existing Instance Manifest.demo_library.
#[local] Existing Instance demo_reducer.
#[local] Existing Instance demo_reader.

Definition demo_key : bytes := repeat 7 32.

(** One text per key: the binary digits of its encoding. *)
Fixpoint binary_text (p : positive) : string :=
  match p with
  | xH => EmptyString
  | xO p => String.String Ascii.zero (binary_text p)
  | xI p => String.String Ascii.one (binary_text p)
  end.

Definition demo_hex (k : bytes) : string := binary_text (encode k).

Lemma demo_hex_inj k k' : demo_hex k = demo_hex k' → k = k'.
Proof.
  intros Hk. apply (inj encode). revert Hk. unfold demo_hex. generalize (encode k'), (encode k).
  intros p' p. revert p'. induction p as [p IH|p IH|]; intros [p'|p'|]; simpl; try done;
    intros [= Hp]; by rewrite (IH _ Hp).
Qed.

(** A report is its content: the issuer, then the claim.  The signature is the event's
    content itself, and every event is the demo key's at time 6. *)
Definition demo_attestation_library : AttestationLibrary demo_manifest unit := {|
  RADROOTS_RHI_EVIDENCE_REPORT_MAXIMUM_CANONICAL_BYTES := 16384;
  Report := bytes;
  Typed := bytes;
  Body := bytes;
  Unsigned := bytes;
  to_hex := demo_hex;
  public_key_parse := λ text, if String.eqb text (demo_hex demo_key) then Some demo_key else None;
  public_identity_hex := λ _, demo_hex demo_key;
  reason_parse := λ _, true;
  report_new := λ issuer claim _ _ _ _ _, if (length issuer =? 32)%nat then Some (issuer ++ claim) else None;
  report_validates := λ _ _, true;
  report_from_canonical_content := Some;
  report_canonical_content := λ r, r;
  report_statement_digest := sha256;
  report_issuer_public_key := take 32;
  report_claim_mutation_id := drop 32;
  report_observed_at := λ _, 5;
  report_trade_id := λ _, repeat 1 16;
  report_supersession := λ _, None;
  typed_from_canonical_content := Some;
  typed_canonical_content := λ t, t;
  rhi_evidence_attestation_from_event := λ e, Some (ee_content e);
  validate_rhi_evidence_attestation_supersession := λ _ _ _, true;
  body_from_rhi_evidence_attestation := Some;
  plan_bind := λ body at_s text,
    if String.eqb text (demo_hex demo_key)
    then Some (MkEventPlan 30000 [] body at_s demo_key (sha256 body)) else None;
  tag_parse := λ _, true;
  event_build := λ _ content _ _ _, content;
  unsigned_id := λ u, Some (sha256 u);
  sign_nostr_event := λ _ u _, Some u;
  event_to_vec := Some;
  parse_event := λ text _, Some (MkEnvelope (sha256 text) demo_key 6 30000 [] text);
  verify_id := λ _, true;
  verify := λ _, true;
|}.

#[local] Existing Instance demo_attestation_library.

Lemma demo_attestation_laws : AttestationLaws demo_manifest unit.
Proof.
  split; simpl.
  - done.
  - intros text k. destruct (String.eqb_spec text (demo_hex demo_key)); [|done]. by intros [= <-].
  - apply demo_hex_inj.
  - intros body at_s text plan. destruct (String.eqb_spec text (demo_hex demo_key)); [|done].
    by intros [= <-].
  - intros body at_s text plan. destruct (String.eqb text (demo_hex demo_key)); [|done]. by intros [= <-].
  - intros issuer claim o rs d m s r. destruct (Nat.eqb_spec (length issuer) 32) as [Hl|]; [|done].
    intros [= <-]. by rewrite take_app_length'.
Qed.

#[local] Existing Instance demo_attestation_laws.

Definition demo_entropy : scripted := Scripted [] [9; 10].

Definition demo_content : bytes := demo_key ++ repeat 4 32.

Definition demo_event_plan : AuthoredEventPlan :=
  MkEventPlan 30000 [] demo_content 6 demo_key (sha256 demo_content).

Definition demo_signed : RhiSignedEvidenceAttestation (M := demo_manifest) (Idn := unit) :=
  MkSigned quiet_fence demo_content (sha256 demo_content) demo_content (sha256 demo_content) 6.

Lemma demo_planned : plan_attestation quiet_fence tt 6 None = Ok (demo_content, demo_event_plan).
Proof. vm_compute. reflexivity. Qed.

Lemma demo_plan_signed aux : sign_plan tt demo_event_plan aux = Ok demo_content.
Proof. vm_compute. reflexivity. Qed.

Lemma demo_verified :
  verify_signed_event demo_event_plan demo_content (inner quiet_manifest) demo_content =
    Ok (MkEnvelope (sha256 demo_content) demo_key 6 30000 [] demo_content).
Proof. vm_compute. reflexivity. Qed.

Lemma demo_sign aux : sign_attestation quiet_fence tt 6 demo_content demo_event_plan aux = Ok demo_signed.
Proof.
  refine (sign_attestation_intro _ _ _ _ _ _ _ demo_content _ quiet_manifest
    (demo_plan_signed aux) eq_refl _ demo_verified).
  unfold quiet_fence, quiet_evaluation. cbn [fence_evaluation]. rewrite evaluated_projection.
  apply reduced_manifest, quiet_reduced.
Qed.

Lemma demo_drawn : fill_bytes 32 demo_entropy = (Some (to_be_bytes 32 9), Scripted [] [10]).
Proof. reflexivity. Qed.

Lemma demo_signed_Ok :
  build_rhi_signed_evidence_attestation quiet_fence tt 6 None demo_entropy = (Ok demo_signed, Scripted [] [10]).
Proof.
  unfold build_rhi_signed_evidence_attestation. rewrite demo_planned, demo_drawn. by rewrite demo_sign.
Qed.

Lemma attestations_are_verified_witness :
  (∃ aux, fill_bytes 32 demo_entropy = (Some aux, Scripted [] [10])) ∧
  ∃ source event, JsonText.from_utf8 (sa_signed_event_bytes demo_signed) = Some source ∧
    parse_event source signed_event_limits = Some event ∧ verify_id event = true ∧ verify event = true ∧
    to_hex (ee_author event) = demo_hex demo_key ∧ ee_created_at event = 6.
Proof.
  destruct (attestations_are_verified quiet_fence tt 6 None demo_entropy _ _ demo_signed_Ok)
    as (_ & Haux & _ & _ & _ & source & event & Hs & Hp & Hid & Hv & _ & Ha & Ht & _).
  split; [exact Haux|]. exists source, event. exact (conj Hs (conj Hp (conj Hid (conj Hv (conj Ha Ht))))).
Defined.

Lemma issued_attestations_reload_witness :
  from_persisted (repeat 1 16) (sha256 (sa_report demo_signed)) (sa_event_id demo_signed) (sa_report demo_signed)
    (sa_signed_event_bytes demo_signed) = Ok (from_attestation demo_signed).
Proof. exact (issued_attestations_reload quiet_fence tt 6 None demo_entropy _ _ demo_signed_Ok). Defined.

End Attestation.
