(* ===== verification/FinalizationCommit.v ===== *)
(** * Finalization commits: [src/src/reconciliation_finalization_commit.rs]

    One transaction stores the manifest, the projection, the report and the signed
    event of an attested attempt, queues its publication under the configured
    authority, and completes the job; an attempt already finalized is recognised
    from the rows it left. *)

From Stdlib Require Import ZArith Lia.
From stdpp Require Import list strings.
From S2P Require Import Prelude.
From S2P Require Import Sql.
From S2P Require Import Interfaces.
From S2P Require Import SourceState.
From S2P Require Import ReconciliationJob.
From S2P Require Import ReconciliationManifest.
From S2P Require Import ReconciliationReducer.
From S2P Require Import ReconciliationCommit.
From S2P Require Import Publication.
From S2P Require Import PublicationState.
From S2P Require Import FinalizationState.
From S2P Require Import ReconciliationFinalization.
From S2P Require Import ReconciliationAttestation.

Module FinalCommit.
Import Manifest Reducer Commit Authority PubState FinalState Finalization Attestation.
#[local] Notation string := String.string.
#[local] Existing Instance Job.job_table.

Definition OUTBOX_ID_DOMAIN : bytes := as_bytes "radroots.rhi.publication_outbox.v1" ++ [0].

Inductive RhiReconciliationFinalizationCommitErrorKind : Type :=
| InvalidMode | InvalidInput | LeaseLost | GenerationConflict | AttemptUnavailable
| PublicationQueueFull | Conflict | Storage | CommitOutcomeUnknown.

Inductive OperationError : Type :=
| OpLeaseLost | OpGenerationConflict | OpAttemptUnavailable | OpQueueFull | OpConflict | OpStorage.

Record RhiReconciliationFinalizationCommitOutcome : Type := MkOutcome {
  created : bool;
  publication_mode : RhiPublicationMode;
  out_target_count : Z;
  out_outbox_id : option bytes;
}.

(** ** The record of one finalization *)

Record FinalizationTarget : Type := MkFinalTarget {
  ft_ordinal : Z;
  ft_relay_id : string;
  ft_required : bool;
}.

Record FinalizationSource : Type := MkFinalSource {
  fs_source_id : string;
  fs_required : bool;
  fs_completion : SourceCompletion;
  fs_admitted_event_count : Z;
}.

Record RequiredPublication : Type := MkRequired {
  rq_outbox_id : bytes;
  rq_authority_sha256 : bytes;
  rq_target_set_sha256 : bytes;
  rq_queue_capacity : Z;
  rq_maximum_attempts : Z;
  rq_initial_backoff_ms : Z;
  rq_maximum_backoff_ms : Z;
  rq_attempt_deadline_ms : Z;
  rq_target_count : Z;
  rq_targets : list FinalizationTarget;
}.

Inductive FinalizationPublication : Type :=
| PublicationDisabled
| PublicationRequired (required : RequiredPublication).

Record FinalizationRecord : Type := MkRecord {
  fr_lease : Job.RhiReconciliationLease;
  fr_identity : FinalizationIdentity;
  fr_now : Z;
  fr_manifest_sha256 : bytes;
  fr_canonical_manifest : bytes;
  fr_observed_at : Z;
  fr_source_count : Z;
  fr_sources : list FinalizationSource;
  fr_observation_count : Z;
  fr_projection_sha256 : bytes;
  fr_shared_projection_sha256 : bytes;
  fr_issue_count : Z;
  fr_statement_sha256 : bytes;
  fr_claim_mutation_id : bytes;
  fr_issuer_public_key : bytes;
  fr_outcome : string;
  fr_canonical_report : bytes;
  fr_supersession : option (bytes * bytes);
  fr_event_id : bytes;
  fr_event_sha256 : bytes;
  fr_authored_at : Z;
  fr_canonical_event_json : bytes;
  fr_publication : FinalizationPublication;
}.

Definition outcome_code (o : RhiReconciliationOutcome) : string :=
  match o with Valid => "valid" | Invalid => "invalid" | Indeterminate => "indeterminate" end.

Definition outbox_id `{Sha256} (event_id authority_sha256 target_set_sha256 : bytes) : bytes :=
  sha256 (OUTBOX_ID_DOMAIN ++ event_id ++ authority_sha256 ++ target_set_sha256).

Definition final_target (t : RhiPublicationTarget) : FinalizationTarget :=
  MkFinalTarget (target_ordinal t) (target_relay_id t) (target_required t).

Definition final_source (s : ManifestSource) : FinalizationSource :=
  MkFinalSource (ms_source_id s) (ms_required s) (ms_completion s) (ms_accepted s).

(** The [match publication.mode()] of [from_inputs]. *)
Definition final_publication `{Sha256} (event_id : bytes) (publication : RhiPublicationAuthority) :
    option FinalizationPublication :=
  match mode publication with
  | Disabled =>
      if negb (length (Authority.targets publication) =? 0)%nat || negb (is_null (retry publication)) then None
      else Some PublicationDisabled
  | Required =>
      policy ← retry publication;
      let targets := map final_target (Authority.targets publication) in
      if (length targets =? 0)%nat
         || (RHI_PUBLICATION_MAX_TARGETS <? Z.of_nat (length targets))
         || existsb (λ p, negb (ft_ordinal p.2 =? Z.of_nat p.1)) (zip (seq 0 (length targets)) targets)
      then None
      else
        count ← try_from U8_MAX (Z.of_nat (length targets));
        Some (PublicationRequired
          (MkRequired (outbox_id event_id (authority_sha256 publication) (target_set_sha256 publication))
             (authority_sha256 publication) (target_set_sha256 publication) (queue_capacity publication)
             (maximum_attempts policy) (initial_backoff_milliseconds policy)
             (maximum_backoff_milliseconds policy) (attempt_deadline_milliseconds policy) count targets))
  end.

Section record.
Context `{Sha256, EvidenceLibrary M, !ManifestReader M, ReducerLibrary P, AttestationLibrary M Idn}.

Definition from_inputs (attestation : RhiSignedEvidenceAttestation (M := M) (P := P) (Idn := Idn))
    (publication : RhiPublicationAuthority) (now : Z) : option FinalizationRecord :=
  let fence := sa_fence attestation in
  let evaluation := fence_evaluation fence in
  let projection := ev_projection evaluation in
  let manifest := inner (pj_manifest projection) in
  let report := sa_report attestation in
  projection_sha256 ← pj_digest projection;
  shared ← shared_projection_digest projection;
  source_count ← try_from U8_MAX (Z.of_nat (length (manifest_sources manifest)));
  observation_count ← try_from U32_MAX (Z.of_nat (length (manifest_observations manifest)));
  issue_count ← try_from U32_MAX (Z.of_nat (issues (pj_shared projection)));
  let observed := manifest_observed_at manifest in
  if negb (report_observed_at report =? observed)
     || existsb (λ v, is_null (try_from I64_MAX v))
          [now; observed; sa_created_at attestation; manifest_trade_generation manifest]
  then None
  else
    publication ← final_publication (sa_event_id attestation) publication;
    Some (MkRecord (fence_lease fence) (fence_identity fence) now (manifest_digest manifest)
            (manifest_canonical_bytes manifest) observed source_count
            (map final_source (manifest_sources manifest)) observation_count projection_sha256 shared
            issue_count (report_statement_digest report) (report_claim_mutation_id report)
            (report_issuer_public_key report) (outcome_code (ev_outcome evaluation))
            (report_canonical_content report) (report_supersession report) (sa_event_id attestation)
            (sa_signed_event_sha256 attestation) (sa_created_at attestation)
            (sa_signed_event_bytes attestation) publication).
End record.

Definition outcome (r : FinalizationRecord) (created : bool) : RhiReconciliationFinalizationCommitOutcome :=
  match fr_publication r with
  | PublicationDisabled => MkOutcome created Disabled 0 None
  | PublicationRequired q => MkOutcome created Required (rq_target_count q) (Some (rq_outbox_id q))
  end.

(** ** The rows of one finalization *)

Definition i64_value (value : Z) : result OperationError Z := ok_or (try_from I64_MAX value) OpStorage.

Definition manifest_row_of (r : FinalizationRecord) : result OperationError manifest_row :=
  let? generation := i64_value (fi_generation (fr_identity r)) in
  let? observed := i64_value (fr_observed_at r) in
  Ok (ManifestRow (fr_manifest_sha256 r) (fi_attempt_id (fr_identity r)) (fi_trade_id (fr_identity r))
        generation (fi_policy_digest (fr_identity r)) (fr_canonical_manifest r) observed
        (fr_source_count r) (fr_observation_count r)).

Definition projection_row_of (r : FinalizationRecord) : projection_row :=
  ProjectionRow (fr_projection_sha256 r) (fr_manifest_sha256 r) (fr_shared_projection_sha256 r)
    REDUCER_CONTRACT 1 (fr_issue_count r).

Definition report_row_of (r : FinalizationRecord) : result OperationError report_row :=
  let? observed := i64_value (fr_observed_at r) in
  Ok (ReportRow (fr_statement_sha256 r) (fr_manifest_sha256 r) (fr_projection_sha256 r)
        (fi_trade_id (fr_identity r)) (fr_claim_mutation_id r) (fr_issuer_public_key r) (fr_outcome r)
        (fr_canonical_report r) observed (fst <$> fr_supersession r) (snd <$> fr_supersession r)).

Definition event_row_of (r : FinalizationRecord) : result OperationError event_row :=
  let? authored := i64_value (fr_authored_at r) in
  Ok (EventRow (fr_event_id r) (fr_statement_sha256 r) (fr_event_sha256 r) (fr_issuer_public_key r)
        authored (fr_canonical_event_json r)).

Definition required_count (q : RequiredPublication) : Z :=
  Z.of_nat (length (List.filter ft_required (rq_targets q))).

Definition outbox_row_of (r : FinalizationRecord) (q : RequiredPublication) : result OperationError outbox_row :=
  let? count := i64_value (Z.of_nat (length (rq_targets q))) in
  let? required := i64_value (required_count q) in
  let? initial := i64_value (rq_initial_backoff_ms q) in
  let? maximum := i64_value (rq_maximum_backoff_ms q) in
  let? deadline := i64_value (rq_attempt_deadline_ms q) in
  let? now := i64_value (fr_now r) in
  Ok (OutboxRow (rq_outbox_id q) (fr_event_id r) (fr_event_sha256 r) (rq_authority_sha256 q)
        (rq_target_set_sha256 q) count required (rq_maximum_attempts q) initial maximum deadline
        "pending" 1 (Some now) None None now now).

Definition target_row_of (r : FinalizationRecord) (q : RequiredPublication) (t : FinalizationTarget) :
    result OperationError target_row :=
  let? now := i64_value (fr_now r) in
  Ok (TargetRow (rq_outbox_id q) (ft_ordinal t) (ft_relay_id t) (if ft_required t then 1 else 0) "pending" 1 0
        (Some now) None now).

(** [execute_one] of an insertion *)
Definition execute_one {row} (r : result sql_error (list row)) : result OperationError (list row) :=
  map_err (λ _, OpStorage) r.

Fixpoint insert_targets (r : FinalizationRecord) (q : RequiredPublication) (l : list FinalizationTarget)
    (db : publication_db) : result OperationError publication_db :=
  match l with
  | [] => Ok db
  | t :: l =>
      let? row := target_row_of r q t in
      let? rows := execute_one (insert_row (λ x, has_outbox db (tg_outbox_id x)) row (PubState.targets db)) in
      insert_targets r q l (with_targets db rows)
  end.

Definition insert_publication (r : FinalizationRecord) (db : publication_db) :
    result OperationError publication_db :=
  match fr_publication r with
  | PublicationDisabled => Ok db
  | PublicationRequired q =>
      let? row := outbox_row_of r q in
      let? rows := execute_one (insert_row (λ x, has_event db (ob_event_id x)) row (outboxes db)) in
      insert_targets r q (rq_targets q) (with_outboxes db rows)
  end.

Definition insert_finalization (r : FinalizationRecord) (db : finalization_db) :
    result OperationError finalization_db :=
  let? row := manifest_row_of r in
  let? manifests := execute_one (insert_row (references_attempt db) row (fd_manifests db)) in
  let db := FinalizationDb (fd_reconciliation db) manifests (fd_projections db) (fd_reports db) (fd_publication db) in
  let? projections :=
    execute_one (insert_row (λ p, has_manifest db (pr_manifest_sha256 p)) (projection_row_of r)
                   (fd_projections db)) in
  let db := FinalizationDb (fd_reconciliation db) (fd_manifests db) projections (fd_reports db) (fd_publication db) in
  let? row := report_row_of r in
  let? reports := execute_one (insert_row (references_report db) row (fd_reports db)) in
  let db := FinalizationDb (fd_reconciliation db) (fd_manifests db) (fd_projections db) reports (fd_publication db) in
  let? row := event_row_of r in
  let pub := fd_publication db in
  let? events := execute_one (insert_row (λ e, has_report db (ev_statement_sha256 e)) row (events pub)) in
  let? pub := insert_publication r (PublicationDb events (outboxes pub) (PubState.targets pub) (attempts pub)) in
  Ok (FinalizationDb (fd_reconciliation db) (fd_manifests db) (fd_projections db) (fd_reports db) pub).

(** ** Validation *)

(** [CASE ? WHEN 'complete' ... END] on a stored completion *)
Definition completion_matches (c : SourceCompletion) (stored : string) : bool :=
  match c with
  | SourceComplete => String.eqb stored "complete"
  | SourceUnsupported => String.eqb stored "unsupported"
  | SourceIncomplete =>
      one_of ["incomplete_timeout"; "incomplete_unavailable"; "incomplete_resource_limit"; "incomplete_unknown"]
        stored
  end.

Fixpoint validate_sources (attempt_id : bytes) (ordinal : Z) (sources : list FinalizationSource)
    (rows : list result_row) : result OperationError unit :=
  match sources with
  | [] => Ok tt
  | s :: sources =>
      let? n := i64_value ordinal in
      let matches :=
        count_rows (λ r, bytes_eqb (rr_attempt_id r) attempt_id && (rr_source_ordinal r =? n)
                         && String.eqb (rr_source_id r) (fs_source_id s)
                         && (rr_required r =? flag (fs_required s))
                         && (rr_accepted_event_count r =? fs_admitted_event_count s)
                         && completion_matches (fs_completion s) (rr_completion r)) rows in
      reject_if (negb (matches =? 1)) OpAttemptUnavailable ;?
      validate_sources attempt_id (ordinal + 1) sources rows
  end.

Definition validate_source_inventory (r : FinalizationRecord) (db : reconciliation_db) :
    result OperationError unit :=
  let attempt := fi_attempt_id (fr_identity r) in
  let attempt_count :=
    count_rows (λ a, bytes_eqb (ar_attempt_id a) attempt && (ar_source_count a =? fr_source_count r))
      (rd_attempts db) in
  reject_if (negb (attempt_count =? 1)) OpAttemptUnavailable ;?
  let count := count_rows (λ s, bytes_eqb (rr_attempt_id s) attempt) (rd_results db) in
  reject_if (negb (count =? fr_source_count r)) OpAttemptUnavailable ;?
  validate_sources attempt 0 (fr_sources r) (rd_results db).

(** The rows of the [LEFT JOIN] for one source row that the [WHERE] clause counts:
    without a checkpoint the joined columns are [NULL]; a comparison with [NULL] is
    not true. *)
Definition bad_checkpoints (policy : bytes) (rows : list SourceState.checkpoint_row) (s : result_row) : Z :=
  let joined :=
    List.filter (λ c, String.eqb (SourceState.cr_source_id c) (rr_source_id s)
                      && bytes_eqb (SourceState.cr_policy c) policy
                      && bytes_eqb (SourceState.cr_trade_id c) (rr_trade_id s)) rows in
  match joined with
  | [] => 1
  | _ =>
      count_rows (λ c,
        is_some_and (λ v, negb (SourceState.cr_created_at c =? v)) (rr_candidate_created_at s)
        || is_some_and (λ v, negb (bytes_eqb (SourceState.cr_event_id c) v)) (rr_candidate_event_id s)) joined
  end.

Definition validate_advanced_checkpoints (r : FinalizationRecord) (db : reconciliation_db) :
    result OperationError unit :=
  let sources :=
    List.filter (λ s, bytes_eqb (rr_attempt_id s) (fi_attempt_id (fr_identity r))
                      && (rr_checkpoint_advanced s =? 1)) (rd_results db) in
  let bad_checkpoint :=
    fold_left Z.add
      (map (bad_checkpoints (fi_policy_digest (fr_identity r)) (rd_checkpoints db)) sources) 0 in
  reject_if (negb (bad_checkpoint =? 0)) OpGenerationConflict.

(** [attestation_reports JOIN signed_attestation_events] *)
Definition validate_supersession (r : FinalizationRecord) (db : finalization_db) : result OperationError unit :=
  match fr_supersession r with
  | None => Ok tt
  | Some (statement, event) =>
      let count :=
        fold_left Z.add
          (map (λ p, count_rows (λ e, bytes_eqb (ev_statement_sha256 e) (rp_statement_sha256 p)
                                      && bytes_eqb (ev_event_id e) event) (events (fd_publication db)))
             (List.filter (λ p, bytes_eqb (rp_statement_sha256 p) statement) (fd_reports db))) 0 in
      reject_if (negb (count =? 1)) OpConflict
  end.

(** ** An attempt already finalized *)

Definition match_count {row} `{EqDecision row} (row0 : row) (rows : list row) : bool :=
  count_rows (λ r, bool_decide (r = row0)) rows =? 1.

Definition manifest_matches (r : FinalizationRecord) (db : finalization_db) : result OperationError bool :=
  let? row := manifest_row_of r in Ok (match_count row (fd_manifests db)).

Definition projection_matches (r : FinalizationRecord) (db : finalization_db) : result OperationError bool :=
  Ok (match_count (projection_row_of r) (fd_projections db)).

Definition report_matches (r : FinalizationRecord) (db : finalization_db) : result OperationError bool :=
  let? row := report_row_of r in Ok (match_count row (fd_reports db)).

Definition event_matches (r : FinalizationRecord) (db : finalization_db) : result OperationError bool :=
  let? row := event_row_of r in Ok (match_count row (events (fd_publication db))).

(** The columns of an outbox and of a target that publication never changes. *)
Definition outbox_matches (row o : outbox_row) : bool :=
  bytes_eqb (ob_outbox_id o) (ob_outbox_id row) && bytes_eqb (ob_event_id o) (ob_event_id row)
  && bytes_eqb (ob_event_sha256 o) (ob_event_sha256 row)
  && bytes_eqb (ob_authority_sha256 o) (ob_authority_sha256 row)
  && bytes_eqb (ob_target_set_sha256 o) (ob_target_set_sha256 row)
  && (ob_target_count o =? ob_target_count row)
  && (ob_required_target_count o =? ob_required_target_count row)
  && (ob_max_attempts o =? ob_max_attempts row) && (ob_initial_backoff_ms o =? ob_initial_backoff_ms row)
  && (ob_maximum_backoff_ms o =? ob_maximum_backoff_ms row)
  && (ob_attempt_deadline_ms o =? ob_attempt_deadline_ms row).

Definition target_matches (q : RequiredPublication) (t : FinalizationTarget) (o : target_row) : bool :=
  bytes_eqb (tg_outbox_id o) (rq_outbox_id q) && (tg_target_ordinal o =? ft_ordinal t)
  && String.eqb (tg_relay_id o) (ft_relay_id t) && (tg_required o =? (if ft_required t then 1 else 0)).

Definition publication_matches (r : FinalizationRecord) (db : publication_db) : result OperationError bool :=
  match fr_publication r with
  | PublicationDisabled =>
      Ok (count_rows (λ o, bytes_eqb (ob_event_id o) (fr_event_id r)) (outboxes db) =? 0)
  | PublicationRequired q =>
      let? row := outbox_row_of r q in
      if negb (count_rows (outbox_matches row) (outboxes db) =? 1) then Ok false
      else if negb (count_rows (λ t, bytes_eqb (tg_outbox_id t) (rq_outbox_id q)) (PubState.targets db)
                    =? Z.of_nat (length (rq_targets q)))
      then Ok false
      else Ok (forallb (λ t, count_rows (target_matches q t) (PubState.targets db) =? 1) (rq_targets q))
  end.

Definition completed_job_matches (r : FinalizationRecord) (rows : list Job.job_row) :
    result OperationError bool :=
  let job := Job.lease_job (fr_lease r) in
  let? generation := i64_value (fi_generation (fr_identity r)) in
  let? next := ok_or (u64_checked_add (Job.revision job) 1) OpStorage in
  let? revision := i64_value next in
  Ok (count_rows (λ j,
        bytes_eqb (Job.col_job_id j) (fi_job_id (fr_identity r))
        && bytes_eqb (Job.col_trade_id j) (fi_trade_id (fr_identity r))
        && (Job.col_input_generation j =? generation)
        && bytes_eqb (Job.col_evidence_policy_sha256 j) (fi_policy_digest (fr_identity r))
        && String.eqb (Job.col_state j) "completed" && (Job.col_revision j =? revision)
        && (Job.col_attempt_count j =? Job.attempt_count job)
        && (Job.col_failure_count j =? Job.failure_count job)
        && (Job.col_max_attempts j =? Job.max_attempts (Job.policy job))
        && is_null (Job.col_next_attempt_unix_ms j) && is_null (Job.col_lease_owner j)
        && is_null (Job.col_lease_expires_unix_ms j)) rows =? 1).

Definition footprint (r : FinalizationRecord) (db : finalization_db) : Z :=
  let pub := fd_publication db in
  let event := fr_event_id r in
  count_rows (λ m, bytes_eqb (mn_manifest_sha256 m) (fr_manifest_sha256 r)
                   || bytes_eqb (mn_attempt_id m) (fi_attempt_id (fr_identity r))) (fd_manifests db)
  + count_rows (λ p, bytes_eqb (pr_projection_sha256 p) (fr_projection_sha256 r)
                     || bytes_eqb (pr_manifest_sha256 p) (fr_manifest_sha256 r)) (fd_projections db)
  + count_rows (λ p, bytes_eqb (rp_statement_sha256 p) (fr_statement_sha256 r)) (fd_reports db)
  + count_rows (λ e, bytes_eqb (ev_event_id e) event
                     || bytes_eqb (ev_statement_sha256 e) (fr_statement_sha256 r)
                     || bytes_eqb (ev_event_sha256 e) (fr_event_sha256 r)) (events pub)
  + count_rows (λ o, bytes_eqb (ob_event_id o) event) (outboxes pub)
  + count_rows (λ j, bytes_eqb (Job.col_job_id j) (fi_job_id (fr_identity r))
                     && String.eqb (Job.col_state j) "completed")
      (Job.jobs (rd_job (fd_reconciliation db))).

Inductive ExistingState : Type := Absent | Exact.

(** [a? && b?]: the second query runs only when the first matched. *)
Definition and_matches (a : result OperationError bool) (b : unit → result OperationError bool) :
    result OperationError bool :=
  let? x := a in if (x : bool) then b tt else Ok false.

Definition everything_matches (r : FinalizationRecord) (db : finalization_db) : result OperationError bool :=
  and_matches (manifest_matches r db) (λ _,
  and_matches (projection_matches r db) (λ _,
  and_matches (report_matches r db) (λ _,
  and_matches (event_matches r db) (λ _,
  and_matches (publication_matches r (fd_publication db)) (λ _,
  completed_job_matches r (Job.jobs (rd_job (fd_reconciliation db)))))))).

Definition reconcile_existing (r : FinalizationRecord) (db : finalization_db) :
    result OperationError ExistingState :=
  if footprint r db =? 0 then Ok Absent
  else
    let? matches := everything_matches r db in
    if (matches : bool) then
      validate_source_inventory r (fd_reconciliation db) ;?
      validate_supersession r db ;?
      Ok Exact
    else Err OpConflict.

(** ** The commit *)

Definition map_finalization_error (e : FinalizationOperationError) : OperationError :=
  match e with
  | Finalization.OpLeaseLost => OpLeaseLost
  | Finalization.OpGenerationConflict => OpGenerationConflict
  | Finalization.OpAttemptUnavailable => OpAttemptUnavailable
  | Finalization.OpStorage => OpStorage
  end.

Definition validate_queue (r : FinalizationRecord) (db : publication_db) : result OperationError unit :=
  match fr_publication r with
  | PublicationDisabled => Ok tt
  | PublicationRequired q =>
      let active := count_rows (λ o, negb (String.eqb (ob_state o) "complete")) (outboxes db) in
      reject_if (rq_queue_capacity q <=? active) OpQueueFull
  end.

Definition complete_job (r : FinalizationRecord) (db : finalization_db) : result OperationError finalization_db :=
  let recon := fd_reconciliation db in
  let? now := i64_value (fr_now r) in
  let? rev := i64_value (Job.revision (Job.lease_job (fr_lease r))) in
  let? expires := i64_value (Job.lease_expires_at (fr_lease r)) in
  let? (rows, affected) :=
    map_err (λ _, OpStorage)
      (Job.COMPLETE_JOB_SQL now (fi_job_id (fr_identity r)) rev (Job.owner (fr_lease r)) expires
         (Job.jobs (rd_job recon))) in
  reject_if (negb (affected =? 1)) OpLeaseLost ;?
  Ok (FinalizationDb
        (ReconciliationDb (Job.with_jobs (rd_job recon) rows) (rd_evidence recon) (rd_checkpoints recon)
           (rd_attempts recon) (rd_results recon))
        (fd_manifests db) (fd_projections db) (fd_reports db) (fd_publication db)).

Definition commit `{Sha256} (r : FinalizationRecord) (db : finalization_db) :
    result OperationError (RhiReconciliationFinalizationCommitOutcome * finalization_db) :=
  let? existing := reconcile_existing r db in
  match existing with
  | Exact => Ok (outcome r false, db)
  | Absent =>
      map_err map_finalization_error
        (validate_finalization_identity (fr_lease r) (fr_identity r) (fr_now r) (fd_reconciliation db)) ;?
      validate_source_inventory r (fd_reconciliation db) ;?
      validate_advanced_checkpoints r (fd_reconciliation db) ;?
      validate_supersession r db ;?
      validate_queue r (fd_publication db) ;?
      let? db := insert_finalization r db in
      let? db := complete_job r db in
      Ok (outcome r true, db)
  end.

Definition map_transaction_error (e : tx_error OperationError) : RhiReconciliationFinalizationCommitErrorKind :=
  if commit_outcome_unknown e then CommitOutcomeUnknown
  else match operation_error e with
       | Some OpLeaseLost => LeaseLost
       | Some OpGenerationConflict => GenerationConflict
       | Some OpAttemptUnavailable => AttemptUnavailable
       | Some OpQueueFull => PublicationQueueFull
       | Some OpConflict => Conflict
       | Some OpStorage | None => Storage
       end.

Section repository.
Context `{Sha256, EvidenceLibrary M, !ManifestReader M, ReducerLibrary P, AttestationLibrary M Idn,
  TransactionHost finalization_db}.

Definition commit_finalization (writable : bool) (configuration_digest : bytes)
    (attestation : RhiSignedEvidenceAttestation (M := M) (P := P) (Idn := Idn))
    (publication : RhiPublicationAuthority) (now : Z) (db : finalization_db) :
    result RhiReconciliationFinalizationCommitErrorKind RhiReconciliationFinalizationCommitOutcome
    * finalization_db :=
  match (reject_if (negb writable) InvalidMode ;?
         reject_if (negb (bytes_eqb (configuration_sha256 publication) configuration_digest)) InvalidInput ;?
         ok_or (from_inputs attestation publication now) InvalidInput) with
  | Err e => (Err e, db)
  | Ok record =>
      let '(res, db) := transaction (commit record) db in (map_err map_transaction_error res, db)
  end.
End repository.

End FinalCommit.
