(* ===== verification/FinalizationCommitSafety.v ===== *)
(** * Correctness of finalization commits

    What the commit of [FinalizationCommit] leaves in the tables, that it is fenced
    and all or nothing, that committing the same attestation again recognises it
    however far its publication has come, and that the publication it queues is one
    the executor of [PublicationExecution] can claim. *)

From Stdlib Require Import ZArith Lia.
From stdpp Require Import sets list strings relations.
From S2P Require Import Prelude.
From S2P Require Import Sql.
From S2P Require Import Interfaces.
From S2P Require Import RuntimeAdapters.
From S2P Require Import StateMetadata.
From S2P Require Import SourceState.
From S2P Require Import ReconciliationJob.
From S2P Require Import ReconciliationJobSafety.
From S2P Require Import ReconciliationManifest.
From S2P Require Import ReconciliationReducer.
From S2P Require Import ReconciliationCommit.
From S2P Require Import ReconciliationCommitSafety.
From S2P Require Import Publication.
From S2P Require Import PublicationState.
From S2P Require Import PublicationSubmission.
From S2P Require Import PublicationExecution.
From S2P Require Import PublicationViews.
From S2P Require Import PublicationHistory.
From S2P Require Import FinalizationState.
From S2P Require Import ReconciliationFinalization.
From S2P Require Import ReconciliationAttestation.
From S2P Require Import FinalizationCommit.

Module FinalSafety.
Import Manifest Reducer Commit CommitSafety Authority PubState FinalState Finalization Attestation FinalCommit.
#[local] Notation string := String.string.
#[local] Existing Instance Job.job_table.

(** ** The progress of a publication, row by row *)

(** A target keeps the columns [publication_targets_guard_update] fixes. *)
Definition same_target_columns (old new : target_row) : bool :=
  bytes_eqb (tg_outbox_id new) (tg_outbox_id old) && (tg_target_ordinal new =? tg_target_ordinal old)
  && String.eqb (tg_relay_id new) (tg_relay_id old) && (tg_required new =? tg_required old).

Lemma same_outbox_iff o o' :
  same_outbox_columns o o' = true ↔
  ob_outbox_id o' = ob_outbox_id o ∧ ob_event_id o' = ob_event_id o ∧
  ob_event_sha256 o' = ob_event_sha256 o ∧ ob_authority_sha256 o' = ob_authority_sha256 o ∧
  ob_target_set_sha256 o' = ob_target_set_sha256 o ∧ ob_target_count o' = ob_target_count o ∧
  ob_required_target_count o' = ob_required_target_count o ∧ ob_max_attempts o' = ob_max_attempts o ∧
  ob_initial_backoff_ms o' = ob_initial_backoff_ms o ∧ ob_maximum_backoff_ms o' = ob_maximum_backoff_ms o ∧
  ob_attempt_deadline_ms o' = ob_attempt_deadline_ms o ∧ ob_created_at_unix_ms o' = ob_created_at_unix_ms o.
Proof.
  unfold same_outbox_columns. rewrite !andb_true_iff, !bytes_eqb_true, !Z.eqb_eq. tauto.
Qed.

Lemma same_target_iff t t' :
  same_target_columns t t' = true ↔
  tg_outbox_id t' = tg_outbox_id t ∧ tg_target_ordinal t' = tg_target_ordinal t ∧
  tg_relay_id t' = tg_relay_id t ∧ tg_required t' = tg_required t.
Proof.
  unfold same_target_columns. rewrite !andb_true_iff, bytes_eqb_true, String.eqb_eq, !Z.eqb_eq. tauto.
Qed.

Definition outbox_kept (o o' : outbox_row) : Prop := same_outbox_columns o o' = true.
Definition target_kept (t t' : target_row) : Prop := same_target_columns t t' = true.

#[local] Instance outbox_kept_preorder : PreOrder outbox_kept.
Proof.
  split; [intros o|intros o1 o2 o3]; unfold outbox_kept; rewrite !same_outbox_iff; naive_solver congruence.
Qed.

#[local] Instance target_kept_preorder : PreOrder target_kept.
Proof.
  split; [intros o|intros o1 o2 o3]; unfold target_kept; rewrite !same_target_iff; naive_solver congruence.
Qed.

Record progress (db db' : publication_db) : Prop := {
  pg_events : events db' = events db;
  pg_outboxes : Forall2 outbox_kept (outboxes db) (outboxes db');
  pg_targets : Forall2 target_kept (PubState.targets db) (PubState.targets db');
}.

#[local] Instance progress_preorder : PreOrder progress.
Proof.
  split.
  - intros db. by split.
  - intros db1 db2 db3 [] []. split; [congruence|by etrans..].
Qed.

Lemma update_rows_Forall2 {row} `{Table row} (R : row → row → Prop) p f rows rows' n :
  (∀ r, R r r) → (∀ r o, row_guard r o = true → R r o) →
  update_rows p f rows = Ok (rows', n) → Forall2 R rows rows'.
Proof.
  intros Hrefl Hg (-> & _ & Hall)%update_rows_Ok. induction Hall as [|r rows Hr _ IH]; simpl; constructor; [|done].
  unfold apply_where. destruct (p r) eqn:Hp; [|done]. apply Hg. by apply Hr.
Qed.

Lemma progress_outboxes db p f rows n :
  update_rows p f (outboxes db) = Ok (rows, n) → progress db (with_outboxes db rows).
Proof.
  intros Hup. split; [done| |by simpl]. eapply update_rows_Forall2; [done| |exact Hup].
  intros r o Hg. simpl in Hg. by to_prop.
Qed.

Lemma progress_targets db p f rows n :
  update_rows p f (PubState.targets db) = Ok (rows, n) → progress db (with_targets db rows).
Proof.
  intros Hup. split; [done|by simpl|]. eapply update_rows_Forall2; [done| |exact Hup].
  intros r o Hg. simpl in Hg. to_prop. unfold target_kept, same_target_columns.
  rewrite !andb_true_iff, !Z.eqb_eq. done.
Qed.

(** Every successful statement of the executor is an insertion of an attempt or an
    update of outboxes or targets. *)
Ltac step_progress :=
  repeat match goal with
  | H : Execution.exec _ = Ok _ |- _ => apply map_err_Ok in H
  | H : (let (_, _) := ?x in _) = Ok _ |- _ => destruct x as [? ?] eqn:?; simpl in H
  | H : and_then _ _ = Ok _ |- _ => apply and_then_Ok in H as (? & ? & H)
  | H : Ok _ = Ok _ |- _ => injection H as H; subst
  end.

Lemma insert_attempt_progress `{Sha256} i db db' : Execution.insert_attempt i db = Ok db' → progress db db'.
Proof. unfold Execution.insert_attempt. intros. step_progress. by split. Qed.

Lemma update_target_outcome_progress i st next db db' :
  Execution.update_target_outcome i st next db = Ok db' → progress db db'.
Proof. unfold Execution.update_target_outcome. intros. step_progress. by eapply progress_targets. Qed.

Lemma recover_targets_progress `{Sha256} current own now delay ts db db' :
  Execution.recover_targets current own now delay ts db = Ok db' → progress db db'.
Proof.
  revert db; induction ts as [|t ts IH]; intros db Hr; simpl in Hr; [by injection Hr as <-|].
  bind Hr as db1 Ht. etrans; [|by eapply IH]. unfold Execution.recover_target in Ht. step_progress.
  etrans; [by eapply insert_attempt_progress|by eapply update_target_outcome_progress].
Qed.

Lemma step_progresses `{Sha256} db db' : History.pub_step db db' → progress db db'.
Proof.
  intros Hs. destruct Hs as [own now a db l db' _ Hop|l now db p db' Hop|i db c db' Hop|c now delay db b db' Hop].
  - unfold Execution.claim_next in Hop. bind Hop as n Hn. bind Hop as row Hrow.
    destruct row; [|by injection Hop as _ <-]. step_progress. by eapply progress_outboxes.
  - unfold Execution.prepare_next in Hop. step_progress. by eapply progress_targets.
  - unfold Execution.record_outcome in Hop. bind Hop as ex Hex. destruct ex; step_progress; [done|].
    etrans; [by eapply insert_attempt_progress|]. etrans; [by eapply update_target_outcome_progress|].
    unfold Execution.update_outbox_after_attempt in *. step_progress. by eapply progress_outboxes.
  - unfold Execution.recover_expired in Hop. step_progress.
    etrans; [by eapply recover_targets_progress|]. by eapply progress_outboxes.
Qed.

Lemma history_progresses `{Sha256} db db' : rtc History.pub_step db db' → progress db db'.
Proof. induction 1 as [|db1 db2 db3 H12 _ IH]; [done|]. etrans; [by apply step_progresses|done]. Qed.

(** ** The invariant and what a first commit establishes *)

Section safety.
Context `{Sha256}.

Record final_inv (db : finalization_db) : Prop := {
  fv_recon : recon_inv (fd_reconciliation db);
  fv_jobs : Job.db_inv (rd_job (fd_reconciliation db));
  fv_manifests : rows_ok (fd_manifests db) = true;
  fv_projections : rows_ok (fd_projections db) = true;
  fv_reports : rows_ok (fd_reports db) = true;
  fv_publication : tables_ok (fd_publication db) = true;
  fv_targets t : t ∈ PubState.targets (fd_publication db) →
    has_outbox (fd_publication db) (tg_outbox_id t) = true;
}.

(** Lease, dirty generation and committed attempt of the record. *)
Definition fenced (r : FinalizationRecord) (db : reconciliation_db) : Prop :=
  let i := fr_identity r in
  fr_now r < Job.lease_expires_at (fr_lease r) ∧
  Job.validate_exact_lease (fr_lease r) (rd_job db) = Ok tt ∧
  (∃ d, SourceState.read_dirty (fi_trade_id i) (Job.dirty_generations (rd_job db)) = Ok (Some d) ∧
        SourceState.generation d = fi_generation i ∧ SourceState.dirty_policy d = fi_policy_digest i) ∧
  MATCH_COMMITTED_ATTEMPT_SQL i (fi_generation i) (rd_attempts db) = 1.

(** The checkpoint of an advanced result is the cursor the attempt advanced it to. *)
Definition checkpoint_current (policy : bytes) (rows : list SourceState.checkpoint_row) (s : result_row) : Prop :=
  ∃ c, c ∈ rows ∧ SourceState.cr_source_id c = rr_source_id s ∧ SourceState.cr_policy c = policy ∧
    SourceState.cr_trade_id c = rr_trade_id s ∧
    (∀ v, rr_candidate_created_at s = Some v → SourceState.cr_created_at c = v) ∧
    (∀ v, rr_candidate_event_id s = Some v → SourceState.cr_event_id c = v).

Definition checkpoints_current (r : FinalizationRecord) (db : reconciliation_db) : Prop :=
  ∀ s, s ∈ rd_results db → rr_attempt_id s = fi_attempt_id (fr_identity r) → rr_checkpoint_advanced s = 1 →
    checkpoint_current (fi_policy_digest (fr_identity r)) (rd_checkpoints db) s.

(** A superseded report is stored together with its signed event. *)
Definition supersedes_stored (r : FinalizationRecord) (db : finalization_db) : Prop :=
  ∀ statement event, fr_supersession r = Some (statement, event) →
    ∃ p e, p ∈ fd_reports db ∧ e ∈ events (fd_publication db) ∧
      rp_statement_sha256 p = statement ∧ ev_statement_sha256 e = statement ∧ ev_event_id e = event.

(** The publication is queued below capacity, under the configured authority. *)
Definition queued (r : FinalizationRecord) (pub pub' : publication_db) : Prop :=
  match fr_publication r with
  | PublicationDisabled => outboxes pub' = outboxes pub ∧ PubState.targets pub' = PubState.targets pub
  | PublicationRequired q =>
      count_rows (λ o, negb (String.eqb (ob_state o) "complete")) (outboxes pub) < rq_queue_capacity q ∧
      (∃ row, outbox_row_of r q = Ok row ∧ outboxes pub' = outboxes pub ++ [row]) ∧
      ∃ rows, Forall2 (λ t row, target_row_of r q t = Ok row) (rq_targets q) rows ∧
              PubState.targets pub' = PubState.targets pub ++ rows
  end.

(** The leased row of the job is closed as completed, one revision later. *)
Definition job_completed (r : FinalizationRecord) (db db' : Job.job_db) : Prop :=
  ∃ row, Job.col_state row = "leased" ∧
    Job.col_revision row = Job.revision (Job.lease_job (fr_lease r)) ∧
    Job.col_lease_owner row = Some (Job.owner (fr_lease r)) ∧
    JobSafety.swapped (fi_job_id (fr_identity r)) (Job.set_closed "completed" (fr_now r)) row
      (Job.jobs db) (Job.jobs db') ∧
    Job.dirty_generations db' = Job.dirty_generations db.

Record finalized (r : FinalizationRecord) (db db' : finalization_db) : Prop := {
  fz_new : footprint r db = 0;
  fz_fenced : fenced r (fd_reconciliation db);
  fz_sources : validate_source_inventory r (fd_reconciliation db) = Ok tt;
  fz_checkpoints : checkpoints_current r (fd_reconciliation db);
  fz_supersedes : supersedes_stored r db;
  fz_manifest : ∃ row, manifest_row_of r = Ok row ∧ fd_manifests db' = fd_manifests db ++ [row];
  fz_projection : fd_projections db' = fd_projections db ++ [projection_row_of r];
  fz_report : ∃ row, report_row_of r = Ok row ∧ fd_reports db' = fd_reports db ++ [row];
  fz_event : ∃ row, event_row_of r = Ok row ∧
    events (fd_publication db') = events (fd_publication db) ++ [row];
  fz_queued : queued r (fd_publication db) (fd_publication db');
  fz_job : job_completed r (rd_job (fd_reconciliation db)) (rd_job (fd_reconciliation db'));
  fz_frame : attempts (fd_publication db') = attempts (fd_publication db) ∧
    ∃ jobs, fd_reconciliation db' = with_jobs jobs (fd_reconciliation db);
  fz_inv : final_inv db';
}.

Lemma fold_add_nonneg {A} (f : A → Z) (l : list A) :
  (∀ x, 0 ≤ f x) → ∀ acc, acc ≤ fold_left Z.add (map f l) acc.
Proof. intros Hf. induction l as [|x l IH]; intros acc; simpl; [lia|]. specialize (IH (acc + f x)). pose proof (Hf x). lia. Qed.

Lemma fold_add_zero {A} (f : A → Z) (l : list A) :
  (∀ x, 0 ≤ f x) → fold_left Z.add (map f l) 0 = 0 → ∀ x, x ∈ l → f x = 0.
Proof.
  intros Hf. assert (∀ acc, 0 ≤ acc → fold_left Z.add (map f l) acc = 0 → acc = 0 ∧ ∀ x, x ∈ l → f x = 0) as Hgen;
    [|intros H0; by apply (Hgen 0)].
  induction l as [|y l IH]; intros acc Hacc; simpl; [by split; [|intros ? ?%elem_of_nil]|].
  intros Hs. pose proof (Hf y). apply IH in Hs as [? Hall]; [|lia]. split; [lia|].
  intros x [->|Hx]%elem_of_cons; [lia|by apply Hall].
Qed.

Lemma count_rows_nonneg {row} (p : row → bool) l : 0 ≤ count_rows p l.
Proof. unfold count_rows. lia. Qed.

Lemma count_rows_some {row} (p : row → bool) l : count_rows p l ≠ 0 ↔ ∃ r, r ∈ l ∧ p r = true.
Proof.
  unfold count_rows. destruct (List.filter p l) as [|x k] eqn:E; simpl.
  - split; [done|]. intros (r & Hr & Hp). assert (In r (List.filter p l)) as Hin; [|by rewrite E in Hin].
    apply filter_In. split; [by apply list_elem_of_In|done].
  - split; [|lia]. intros _. assert (In x (List.filter p l)) as [? ?]%filter_In by (rewrite E; by left).
    exists x. by rewrite list_elem_of_In.
Qed.

Lemma bad_checkpoints_zero policy rows s : bad_checkpoints policy rows s = 0 → checkpoint_current policy rows s.
Proof.
  unfold bad_checkpoints. destruct (List.filter _ rows) as [|c l] eqn:E; [done|].
  intros Hc. pose proof (proj1 (count_rows_none _ _) Hc c ltac:(by left)) as Hf. apply orb_false_iff in Hf as [H1 H2].
  assert (In c (c :: l)) as Hin by (by left). rewrite <- E in Hin. apply filter_In in Hin as [Hin Hk]. to_prop.
  exists c. split_and!; [by apply list_elem_of_In|by apply String.eqb_eq|by apply bytes_eqb_true
    |by apply bytes_eqb_true| |].
  - intros v Hv. rewrite Hv in H1. simpl in H1. by to_prop.
  - intros v Hv. rewrite Hv in H2. simpl in H2. apply negb_false_iff in H2. by apply bytes_eqb_true.
Qed.

Lemma validate_advanced_checkpoints_Ok r db :
  validate_advanced_checkpoints r db = Ok tt → checkpoints_current r db.
Proof.
  unfold validate_advanced_checkpoints. intros Hz%reject_if_Ok. to_prop. intros s Hs Hid Hadv.
  eapply bad_checkpoints_zero, fold_add_zero; [|exact Hz|].
  - intros x. unfold bad_checkpoints.
    match goal with |- _ ≤ match ?l with _ => _ end => destruct l; [done|] end. apply count_rows_nonneg.
  - apply list_elem_of_In, filter_In. split; [by apply list_elem_of_In|].
    by rewrite Hid, bytes_eqb_refl, Hadv.
Qed.

Lemma fold_add_some {A} (f : A → Z) (l : list A) :
  fold_left Z.add (map f l) 0 ≠ 0 → ∃ x, x ∈ l ∧ f x ≠ 0.
Proof.
  assert (∀ acc, fold_left Z.add (map f l) acc ≠ acc → ∃ x, x ∈ l ∧ f x ≠ 0) as Hgen; [|apply Hgen].
  induction l as [|y l IH]; intros acc; simpl; [done|]. intros Hs.
  destruct (Z.eq_dec (f y) 0) as [Hy|Hy]; [|exists y; by split; [left|]].
  rewrite Hy, Z.add_0_r in Hs. destruct (IH _ Hs) as (x & Hx & Hfx). exists x. by split; [right|].
Qed.

Lemma validate_supersession_Ok r db : validate_supersession r db = Ok tt → supersedes_stored r db.
Proof.
  unfold validate_supersession. intros Hv statement event Hs. rewrite Hs in Hv. apply reject_if_Ok in Hv. to_prop.
  match type of Hv with fold_left _ (map ?f ?l) 0 = _ =>
    destruct (fold_add_some f l) as (p & Hp & (e & He & Hpe)%count_rows_some); [by rewrite Hv|] end.
  apply list_elem_of_In, filter_In in Hp as [Hp Hst%bytes_eqb_true]. to_prop.
  exists p, e. rewrite list_elem_of_In. split_and!; try done; [|by apply bytes_eqb_true].
  rewrite <- Hst. by apply bytes_eqb_true.
Qed.

Lemma validate_identity_Ok r db :
  validate_finalization_identity (fr_lease r) (fr_identity r) (fr_now r) db = Ok tt → fenced r db.
Proof.
  unfold validate_finalization_identity, fenced. intros Hv. bind Hv as u Hnow. apply reject_if_Ok in Hnow.
  bind Hv as u1 Hl. apply map_err_Ok in Hl. destruct u1. bind Hv as d Hd. apply map_err_Ok in Hd.
  bind Hv as d' Hd'. apply ok_or_Ok, filter_opt_Some in Hd' as [-> Hg]. bind Hv as g Hgen.
  apply ok_or_Ok, try_from_Some in Hgen as [-> _]. apply reject_if_Ok in Hv. to_prop.
  split_and!; try done. exists d'. split_and!; [done|done|]. by apply bytes_eqb_true.
Qed.

(** ** The statements of the commit *)

Lemma insert_targets_Ok r q l db db' :
  tables_ok db = true → insert_targets r q l db = Ok db' →
  tables_ok db' = true ∧ ∃ rows, Forall2 (λ t row, target_row_of r q t = Ok row) l rows ∧
    db' = with_targets db (PubState.targets db ++ rows).
Proof.
  revert db; induction l as [|t l IH]; intros db Hok Hi; simpl in Hi.
  - injection Hi as <-. split; [done|]. exists []. split; [constructor|]. rewrite app_nil_r. by destruct db.
  - bind Hi as row Hrow. bind Hi as rows Hins. apply map_err_Ok in Hins.
    unfold tables_ok in Hok. to_prop.
    match goal with H : rows_ok (PubState.targets db) = true |- _ =>
      pose proof (insert_row_ok target_conflict_sym _ _ _ _ H Hins) as Hok' end.
    apply insert_row_Ok in Hins as (-> & _ & _). apply IH in Hi as (Hok2 & rows & Hall & ->).
    + split; [done|]. exists (row :: rows). split; [by constructor|]. simpl. by rewrite <- app_assoc.
    + unfold tables_ok, with_targets. simpl. by repeat (apply andb_true_iff; split).
Qed.

Lemma insert_publication_Ok r db db' :
  tables_ok db = true → validate_queue r db = Ok tt → insert_publication r db = Ok db' →
  tables_ok db' = true ∧ queued r db db' ∧ events db' = events db ∧ attempts db' = attempts db.
Proof.
  unfold insert_publication, queued, validate_queue. intros Hok Hq Hi.
  destruct (fr_publication r) as [|q]; [injection Hi as <-; by split_and!|].
  apply reject_if_Ok in Hq. to_prop. bind Hi as row Hrow. bind Hi as rows Hins. apply map_err_Ok in Hins.
  unfold tables_ok in Hok. to_prop.
  match goal with H : rows_ok (outboxes db) = true |- _ =>
    pose proof (insert_row_ok outbox_conflict_sym _ _ _ _ H Hins) as Hok' end.
  apply insert_row_Ok in Hins as (-> & _ & _). apply insert_targets_Ok in Hi as (Hok2 & trows & Hall & ->).
  - simpl. split_and!; try done; by eexists.
  - unfold tables_ok. simpl. by repeat (apply andb_true_iff; split).
Qed.

Lemma i64_Ok v w : i64_value v = Ok w ↔ w = v ∧ 0 ≤ v ≤ I64_MAX.
Proof. unfold i64_value. by rewrite ok_or_Ok, try_from_Some. Qed.

(** The rows the insertions append. *)
Lemma insert_finalization_Ok r db db' :
  rows_ok (fd_manifests db) = true → rows_ok (fd_projections db) = true → rows_ok (fd_reports db) = true →
  tables_ok (fd_publication db) = true → validate_queue r (fd_publication db) = Ok tt →
  insert_finalization r db = Ok db' →
  (rows_ok (fd_manifests db') = true ∧ rows_ok (fd_projections db') = true ∧
   rows_ok (fd_reports db') = true ∧ tables_ok (fd_publication db') = true) ∧
  (∃ row, manifest_row_of r = Ok row ∧ fd_manifests db' = fd_manifests db ++ [row]) ∧
  fd_projections db' = fd_projections db ++ [projection_row_of r] ∧
  (∃ row, report_row_of r = Ok row ∧ fd_reports db' = fd_reports db ++ [row]) ∧
  (∃ row, event_row_of r = Ok row ∧ events (fd_publication db') = events (fd_publication db) ++ [row]) ∧
  queued r (fd_publication db) (fd_publication db') ∧
  attempts (fd_publication db') = attempts (fd_publication db) ∧
  fd_reconciliation db' = fd_reconciliation db.
Proof.
  intros Hm Hp Hr Hpub Hq Hi. unfold insert_finalization in Hi. unfold tables_ok in Hpub. to_prop.
  bind Hi as mrow Hmrow. bind Hi as ms Hms. apply map_err_Ok in Hms.
  pose proof (insert_row_ok manifest_conflict_sym _ _ _ _ Hm Hms) as Hm'. apply insert_row_Ok in Hms as (-> & _ & _).
  bind Hi as ps Hps. apply map_err_Ok in Hps.
  pose proof (insert_row_ok projection_conflict_sym _ _ _ _ Hp Hps) as Hp'. apply insert_row_Ok in Hps as (-> & _ & _).
  bind Hi as rrow Hrrow. bind Hi as rs Hrs. apply map_err_Ok in Hrs.
  pose proof (insert_row_ok report_conflict_sym _ _ _ _ Hr Hrs) as Hr'. apply insert_row_Ok in Hrs as (-> & _ & _).
  bind Hi as erow Herow. bind Hi as es Hes. apply map_err_Ok in Hes. cbn [fd_publication] in Hes, Hi.
  match goal with E : rows_ok (events (fd_publication db)) = true |- _ =>
    pose proof (insert_row_ok event_conflict_sym _ _ _ _ E Hes) as He' end.
  apply insert_row_Ok in Hes as (-> & _ & _). bind Hi as pub Hins. injection Hi as <-.
  apply insert_publication_Ok in Hins as (Hok & Hqd & Hev & Hat); [|..|exact Hq].
  - cbn [fd_manifests fd_projections fd_reports fd_publication fd_reconciliation events attempts] in *.
    split_and!; try done; by eexists.
  - unfold tables_ok. simpl. by repeat (apply andb_true_iff; split).
Qed.

Lemma complete_job_Ok r db db' :
  Job.db_inv (rd_job (fd_reconciliation db)) → complete_job r db = Ok db' →
  job_completed r (rd_job (fd_reconciliation db)) (rd_job (fd_reconciliation db')) ∧
  Job.db_inv (rd_job (fd_reconciliation db')) ∧
  (∃ jobs, fd_reconciliation db' = with_jobs jobs (fd_reconciliation db)) ∧
  fd_manifests db' = fd_manifests db ∧ fd_projections db' = fd_projections db ∧
  fd_reports db' = fd_reports db ∧ fd_publication db' = fd_publication db.
Proof.
  intros Hinv Hc. unfold complete_job in Hc. bind Hc as now Hnow. apply i64_Ok in Hnow as [-> _].
  bind Hc as rev Hrev. apply i64_Ok in Hrev as [-> _]. bind Hc as ex Hex. apply i64_Ok in Hex as [-> _].
  bind Hc as x Hx. destruct x as [rows n]. apply map_err_Ok in Hx. bind Hc as u Hn. apply reject_if_Ok in Hn. to_prop.
  subst n. injection Hc as <-. cbn [fd_reconciliation fd_manifests fd_projections fd_reports fd_publication rd_job].
  assert (Job.keeps_identity (Job.set_closed "completed" (fr_now r))) as Hkeep by apply Job.keeps_closed.
  apply (JobSafety.update_swapped _ _ (fi_job_id (fr_identity r))) in Hx as (row & Hp & Hsw); [|apply Hinv| |done].
  2: { intros y Hy. to_prop. by apply bytes_eqb_true. }
  to_prop. split_and!; try done; [|by eapply JobSafety.swapped_inv; [done|done|by apply Job.consistent_no_owner|]
    |by eexists].
  exists row. unfold col_blob_eq in *. destruct (Job.col_lease_owner row) as [o|] eqn:Ho; [|done]. simpl in *.
  split_and!; try done; [by apply String.eqb_eq|f_equal; by apply bytes_eqb_true].
Qed.

(** ** The commit operation *)

Lemma recon_inv_jobs db jobs :
  recon_inv db → Job.dirty_generations jobs = Job.dirty_generations (rd_job db) → recon_inv (with_jobs jobs db).
Proof. intros [] Hd. split; simpl; rewrite ?Hd; done. Qed.

Lemma has_outbox_elem db i : has_outbox db i = true ↔ ∃ o, o ∈ outboxes db ∧ ob_outbox_id o = i.
Proof.
  unfold has_outbox. rewrite existsb_exists. setoid_rewrite <- list_elem_of_In.
  by setoid_rewrite bytes_eqb_true.
Qed.

Lemma target_row_outbox r q t row : target_row_of r q t = Ok row → tg_outbox_id row = rq_outbox_id q.
Proof. unfold target_row_of. intros. by inv_ok. Qed.

Lemma target_rows_outbox r q l rows :
  Forall2 (λ t row, target_row_of r q t = Ok row) l rows → Forall (λ row, tg_outbox_id row = rq_outbox_id q) rows.
Proof. induction 1; constructor; [by eapply target_row_outbox|done]. Qed.

Lemma outbox_row_id r q row :
  outbox_row_of r q = Ok row → ob_outbox_id row = rq_outbox_id q ∧ ob_event_id row = fr_event_id r.
Proof. unfold outbox_row_of. intros. by inv_ok. Qed.

(** Queueing keeps every target under an outbox. *)
Lemma queued_targets r pub pub' :
  queued r pub pub' → (∀ t, t ∈ PubState.targets pub → has_outbox pub (tg_outbox_id t) = true) →
  ∀ t, t ∈ PubState.targets pub' → has_outbox pub' (tg_outbox_id t) = true.
Proof.
  unfold queued. setoid_rewrite has_outbox_elem. destruct (fr_publication r) as [|q].
  - by intros [-> ->].
  - intros (_ & (row & Hrow & Ho) & rows & Hall & Ht) Hold t. rewrite Ht, Ho.
    intros [Hin|Hin]%elem_of_app.
    + destruct (Hold t Hin) as (o & Hoin & <-). exists o. split; [|done]. apply elem_of_app. by left.
    + exists row. split; [apply elem_of_app; right; by left|]. rewrite (proj1 (outbox_row_id _ _ _ Hrow)).
      symmetry. by eapply (elem_of_Forall _ _ _ (target_rows_outbox _ _ _ _ Hall)).
Qed.

Lemma finalization_Ok r db out db' :
  final_inv db → FinalCommit.commit r db = Ok (out, db') →
  (out = outcome r false ∧ db' = db ∧ reconcile_existing r db = Ok Exact) ∨
  (out = outcome r true ∧ finalized r db db' ∧ validate_supersession r db = Ok tt).
Proof.
  intros [Hrec Hjobs Hm Hp Hr Hpub Htg] Hc. unfold FinalCommit.commit in Hc. bind Hc as ex Hex. destruct ex; cycle 1.
  { left. by injection Hc as <- <-. }
  right. bind Hc as u Hfence. apply map_err_Ok in Hfence. destruct u. bind Hc as u Hsrc. destruct u.
  bind Hc as u Hck. destruct u. bind Hc as u Hsup. destruct u. bind Hc as u Hq. destruct u.
  bind Hc as db1 Hins. bind Hc as db2 Hjob. injection Hc as <- <-. split; [done|]. split; [|done].
  apply insert_finalization_Ok in Hins as ((Hm' & Hp' & Hr' & Hpub') & Hmr & Hpr & Hrr & Her & Hqd & Hat & Hrc);
    [|done..].
  rewrite <- Hrc in Hjobs. apply complete_job_Ok in Hjob as (Hcomp & Hjinv & [jobs Hw] & Em & Ep & Er & Epub); [|done].
  rewrite Hrc in Hcomp, Hw. split; rewrite ?Em, ?Ep, ?Er, ?Epub; try done.
  - unfold reconcile_existing in Hex. destruct (Z.eqb_spec (footprint r db) 0); [done|]. bind Hex as m Hmm.
    destruct m; [|done]. bind Hex as u1 H1. by bind Hex as u2 H2.
  - by apply validate_identity_Ok.
  - by apply validate_advanced_checkpoints_Ok.
  - by apply validate_supersession_Ok.
  - split; [done|]. by exists jobs.
  - split; rewrite ?Em, ?Ep, ?Er, ?Epub; try done; [|by eapply queued_targets]. rewrite Hw. apply recon_inv_jobs; [done|].
    destruct Hcomp as (row & _ & _ & _ & _ & Hd). by rewrite Hw in Hd.
Qed.

(** ** What an exact match means *)

Lemma match_count_elem {row} `{EqDecision row} (row0 : row) rows : match_count row0 rows = true → row0 ∈ rows.
Proof.
  unfold match_count. intros Hc. to_prop.
  destruct (proj1 (count_rows_some (λ r, bool_decide (r = row0)) rows)) as (x & Hx & ->%bool_decide_eq_true);
    [by rewrite Hc|done].
Qed.

Lemma match_count_self {row} `{Table row, EqDecision row} (row0 : row) rows :
  (∀ r : row, row_conflict r r = true) → rows_ok rows = true → row0 ∈ rows → match_count row0 rows = true.
Proof. intros Hself Hok Hin. unfold match_count. by rewrite count_rows_self. Qed.

(** The rows of the finalization are stored, the publication at whatever progress. *)
Definition recorded (r : FinalizationRecord) (db : finalization_db) : Prop :=
  (∃ row, manifest_row_of r = Ok row ∧ row ∈ fd_manifests db) ∧
  projection_row_of r ∈ fd_projections db ∧
  (∃ row, report_row_of r = Ok row ∧ row ∈ fd_reports db) ∧
  (∃ row, event_row_of r = Ok row ∧ row ∈ events (fd_publication db)) ∧
  match fr_publication r with
  | PublicationDisabled => ∀ o, o ∈ outboxes (fd_publication db) → ob_event_id o ≠ fr_event_id r
  | PublicationRequired q =>
      (∃ row o, outbox_row_of r q = Ok row ∧ o ∈ outboxes (fd_publication db) ∧ outbox_matches row o = true) ∧
      Forall (λ t, ∃ tr, tr ∈ PubState.targets (fd_publication db) ∧ target_matches q t tr = true) (rq_targets q)
  end ∧
  ∃ j, j ∈ Job.jobs (rd_job (fd_reconciliation db)) ∧ Job.col_job_id j = fi_job_id (fr_identity r) ∧
       Job.col_state j = "completed".

Lemma and_matches_true a b : and_matches a b = Ok true ↔ a = Ok true ∧ b tt = Ok true.
Proof. unfold and_matches. destruct a as [[]|]; simpl; naive_solver. Qed.

Lemma publication_matches_true r db :
  publication_matches r db = Ok true →
  match fr_publication r with
  | PublicationDisabled => ∀ o, o ∈ outboxes db → ob_event_id o ≠ fr_event_id r
  | PublicationRequired q =>
      (∃ row o, outbox_row_of r q = Ok row ∧ o ∈ outboxes db ∧ outbox_matches row o = true) ∧
      Forall (λ t, ∃ tr, tr ∈ PubState.targets db ∧ target_matches q t tr = true) (rq_targets q)
  end.
Proof.
  unfold publication_matches. destruct (fr_publication r) as [|q].
  - intros Hm. injection Hm as Hm. to_prop. intros o Ho Heq.
    pose proof (proj1 (count_rows_none _ _) Hm o Ho) as Hf. simpl in Hf. by rewrite Heq, bytes_eqb_refl in Hf.
  - intros Hm. bind Hm as row Hrow. destruct (_ =? 1) eqn:H1 in Hm; [|done]. simpl in Hm.
    destruct (_ =? _) eqn:H2 in Hm; [|done]. simpl in Hm. injection Hm as Hm. to_prop. split.
    + destruct (proj1 (count_rows_some (outbox_matches row) (outboxes db))) as (o & Ho & Hmo); [by rewrite H1|].
      by exists row, o.
    + apply List.Forall_forall. intros t Ht. rewrite forallb_forall in Hm. specialize (Hm t Ht). to_prop.
      apply count_rows_some. by rewrite Hm.
Qed.

Lemma reconcile_existing_recorded r db : reconcile_existing r db = Ok Exact → recorded r db.
Proof.
  unfold reconcile_existing. destruct (footprint r db =? 0); [done|]. intros He. bind He as m Hm. destruct m; [|done].
  unfold everything_matches in Hm. rewrite !and_matches_true in Hm.
  destruct Hm as (Hmm & Hpm & Hrm & Hem & Hpub & Hjob). unfold recorded.
  unfold manifest_matches in Hmm. bind Hmm as mrow Hmrow. injection Hmm as Hmm%match_count_elem.
  unfold projection_matches in Hpm. injection Hpm as Hpm%match_count_elem.
  unfold report_matches in Hrm. bind Hrm as rrow Hrrow. injection Hrm as Hrm%match_count_elem.
  unfold event_matches in Hem. bind Hem as erow Herow. injection Hem as Hem%match_count_elem.
  split_and!; [by eexists|done|by eexists|by eexists|by apply publication_matches_true|].
  unfold completed_job_matches in Hjob. bind Hjob as g Hg. bind Hjob as nx Hnx. bind Hjob as rv Hrv.
  injection Hjob as Hjob. to_prop.
  match type of Hjob with count_rows ?f ?l = _ =>
    destruct (proj1 (count_rows_some f l)) as (j & Hj & Hpj); [by rewrite Hjob|] end.
  to_prop. exists j. split_and!; [done|by apply bytes_eqb_true|by apply String.eqb_eq].
Qed.

(** ** Recognising a finalization *)

(** The same finalization carried out at another time. *)
Definition at_time (now : Z) (r : FinalizationRecord) : FinalizationRecord :=
  MkRecord (fr_lease r) (fr_identity r) now (fr_manifest_sha256 r) (fr_canonical_manifest r) (fr_observed_at r)
    (fr_source_count r) (fr_sources r) (fr_observation_count r) (fr_projection_sha256 r)
    (fr_shared_projection_sha256 r) (fr_issue_count r) (fr_statement_sha256 r) (fr_claim_mutation_id r)
    (fr_issuer_public_key r) (fr_outcome r) (fr_canonical_report r) (fr_supersession r) (fr_event_id r)
    (fr_event_sha256 r) (fr_authored_at r) (fr_canonical_event_json r) (fr_publication r).

(** The same state with the publication further on. *)
Definition with_publication (pub : publication_db) (db : finalization_db) : finalization_db :=
  FinalizationDb (fd_reconciliation db) (fd_manifests db) (fd_projections db) (fd_reports db) pub.

(** Counting rows that pairwise agree on the predicate. *)
Lemma count_rows_Forall2 {row} (R : row → row → Prop) (p : row → bool) l k :
  (∀ x y, R x y → p x = p y) → Forall2 R l k → count_rows p k = count_rows p l.
Proof.
  unfold count_rows. intros Hp. induction 1 as [|x y l k Hxy _ IH]; [done|]. simpl. rewrite <- (Hp x y Hxy).
  destruct (p x); simpl; lia.
Qed.

Lemma outbox_matches_kept row o o' : outbox_kept o o' → outbox_matches row o = outbox_matches row o'.
Proof.
  unfold outbox_kept. rewrite same_outbox_iff.
  intros (E1 & E2 & E3 & E4 & E5 & E6 & E7 & E8 & E9 & E10 & E11 & _). unfold outbox_matches.
  by rewrite E1, E2, E3, E4, E5, E6, E7, E8, E9, E10, E11.
Qed.

Lemma target_matches_kept q t o o' : target_kept o o' → target_matches q t o = target_matches q t o'.
Proof.
  unfold target_kept. rewrite same_target_iff. intros (E1 & E2 & E3 & E4). unfold target_matches.
  by rewrite E1, E2, E3, E4.
Qed.

Lemma outbox_matches_refl row : outbox_matches row row = true.
Proof. unfold outbox_matches. by rewrite !bytes_eqb_refl, !Z.eqb_refl. Qed.

Lemma outbox_matches_id row o : outbox_matches row o = true → ob_outbox_id o = ob_outbox_id row.
Proof. unfold outbox_matches. intros. to_prop. by apply bytes_eqb_true. Qed.

(** In a well-formed table a predicate that pins a unique key selects a stored row once. *)
Lemma count_rows_key {row} `{Table row} (p : row → bool) l r :
  rows_ok l = true → r ∈ l → p r = true → (∀ x y, p x = true → p y = true → row_conflict x y = true) →
  count_rows p l = 1.
Proof.
  intros Hok Hr Hp Hc. unfold count_rows. destruct (filter_unique p l Hok Hc) as [Hn|(x & _ & _ & ->)]; [|done].
  assert (In r (List.filter p l)) as Hin; [|by rewrite Hn in Hin].
  apply filter_In. split; [by apply list_elem_of_In|done].
Qed.

(** ** Committing again *)

Definition identity_bound (r : FinalizationRecord) : Prop :=
  let j := Job.lease_job (fr_lease r) in let i := fr_identity r in
  fi_job_id i = Job.id j ∧ fi_trade_id i = Job.trade_id j ∧ fi_generation i = Job.input_generation j ∧
  fi_policy_digest i = Job.policy_digest j.

Lemma outbox_row_at_time r q now row :
  0 ≤ now ≤ I64_MAX → outbox_row_of r q = Ok row →
  ∃ row', outbox_row_of (at_time now r) q = Ok row' ∧ ∀ o, outbox_matches row' o = outbox_matches row o.
Proof.
  unfold outbox_row_of. intros Hnow Hr. repeat (bind Hr as ? Hv; rewrite Hv; clear Hv; simpl). 
  bind Hr as n Hn. rewrite (proj2 (i64_Ok now now)) by done. injection Hr as <-. by eexists.
Qed.

Lemma new_outbox r q pub pub' row :
  tables_ok pub' = true → outbox_row_of r q = Ok row → outboxes pub' = outboxes pub ++ [row] →
  ∀ o, o ∈ outboxes pub → ob_outbox_id o ≠ rq_outbox_id q.
Proof.
  unfold tables_ok. intros Hok Hrow Ho o Hin Heq. to_prop.
  match goal with E : rows_ok (outboxes pub') = true |- _ => rewrite Ho, rows_ok_middle in E by exact outbox_conflict_sym;
    unfold row_admissible in E; rewrite app_nil_r in E end.
  to_prop. match goal with E : forallb _ (outboxes pub) = true |- _ => rewrite forallb_forall in E;
    specialize (E o (proj1 (list_elem_of_In _ _) Hin)) end.
  simpl in *. rewrite (proj1 (outbox_row_id _ _ _ Hrow)), Heq, bytes_eqb_refl in *. done.
Qed.

Lemma target_row_matches r q t row : target_row_of r q t = Ok row → target_matches q t row = true.
Proof.
  unfold target_row_of, target_matches. intros. inv_ok. simpl.
  by rewrite bytes_eqb_refl, !Z.eqb_refl, String.eqb_refl.
Qed.

(** The queued publication matches at any progress. *)
Lemma publication_matches_again r now pub pub' pub'' :
  0 ≤ now ≤ I64_MAX → tables_ok pub' = true →
  (∀ t, t ∈ PubState.targets pub → has_outbox pub (tg_outbox_id t) = true) →
  count_rows (λ o, bytes_eqb (ob_event_id o) (fr_event_id r)) (outboxes pub) = 0 →
  queued r pub pub' → progress pub' pub'' → publication_matches (at_time now r) pub'' = Ok true.
Proof.
  intros Hnow Hok Htg Hnew Hq [_ Hob Htar]. unfold publication_matches, queued in *. simpl fr_publication.
  destruct (fr_publication r) as [|q].
  - destruct Hq as [Ho _]. erewrite (count_rows_Forall2 outbox_kept _ (outboxes pub')); [| |exact Hob].
    + rewrite Ho. f_equal. apply Z.eqb_eq. exact Hnew.
    + intros x y Hxy%same_outbox_iff. destruct Hxy as (_ & -> & _). done.
  - destruct Hq as (_ & (row & Hrow & Ho) & rows & Hall & Ht).
    pose proof (new_outbox _ _ _ _ _ Hok Hrow Ho) as Hfresh. unfold tables_ok in Hok. to_prop.
    destruct (outbox_row_at_time _ _ _ _ Hnow Hrow) as (row' & -> & Hrow'). simpl.
    erewrite (count_rows_Forall2 outbox_kept _ (outboxes pub')); [|apply outbox_matches_kept|exact Hob].
    rewrite (count_rows_key _ _ row); [|done|rewrite Ho; apply elem_of_app; right; by left
      |by rewrite Hrow', outbox_matches_refl|].
    2: { intros x y Hx%outbox_matches_id Hy%outbox_matches_id. simpl. rewrite Hx, Hy. by rewrite bytes_eqb_refl. }
    simpl.
    erewrite (count_rows_Forall2 target_kept _ (PubState.targets pub')); [| |exact Htar].
    2: { intros x y Hxy%same_target_iff. destruct Hxy as (-> & _). done. }
    rewrite Ht, count_rows_app, (proj2 (count_rows_none _ (PubState.targets pub))).
    2: { intros t Hin. destruct (bytes_eqb _ _) eqn:E; [|done]. apply bytes_eqb_true in E.
      apply Htg, has_outbox_elem in Hin as (o & Hoin & Heq). destruct (Hfresh o Hoin). congruence. }
    rewrite count_rows_all.
    2: { eapply Forall_impl; [|exact (target_rows_outbox _ _ _ _ Hall)]. intros x ->. apply bytes_eqb_refl. }
    rewrite <- (Forall2_length Hall), Z.eqb_refl. simpl. f_equal. apply forallb_forall. intros t Hin.
    apply Z.eqb_eq. erewrite (count_rows_Forall2 target_kept _ (PubState.targets pub'));
      [|apply target_matches_kept|exact Htar].
    apply list_elem_of_In, list_elem_of_lookup in Hin as [k Hk].
    destruct (Forall2_lookup_l _ _ _ _ _ Hall Hk) as (trow & Htk & Htrow).
    apply (count_rows_key _ _ trow); [done| |by eapply target_row_matches|].
    + rewrite Ht. apply elem_of_app. right. by eapply list_elem_of_lookup_2.
    + intros x y Hx Hy. unfold target_matches in Hx, Hy. to_prop. simpl.
      repeat match goal with E : bytes_eqb _ _ = true |- _ => apply bytes_eqb_true in E end.
      apply andb_true_iff. split; [apply bytes_eqb_true; congruence|].
      apply orb_true_iff. left. apply Z.eqb_eq. congruence.
Qed.

(** The lease names the row it closes. *)
Lemma leased_row r db row :
  Job.db_inv (rd_job db) → identity_bound r → fenced r db → 
  find_by Job.col_job_id bytes_eqb (fi_job_id (fr_identity r)) (Job.jobs (rd_job db)) = Some row →
  Job.job_of row = Job.lease_job (fr_lease r).
Proof.
  intros Hinv (Hid & _) (_ & Hl & _) Hf. unfold Job.validate_exact_lease in Hl. bind Hl as cur Hcur.
  apply map_err_Ok in Hcur. rewrite <- Hid, Job.read_job_of, Hf in Hcur by done. injection Hcur as <-.
  destruct (_ && _) eqn:E in Hl; [|done]. to_prop. by simplify_eq/=.
Qed.

Lemma completed_job_again r db db' :
  Job.db_inv (rd_job db) → identity_bound r → fenced r db → is_ok (manifest_row_of r) →
  job_completed r (rd_job db) (rd_job db') →
  completed_job_matches r (Job.jobs (rd_job db')) = Ok true.
Proof.
  intros Hinv Hid Hf [mrow Hm] (row & _ & Hrev & _ & Hsw & _).
  pose proof (leased_row _ _ _ Hinv Hid Hf (JobSafety.swap_before _ _ _ _ _ Hsw)) as Hj.
  destruct Hid as (Hid1 & Hid2 & Hid3 & Hid4).
  pose proof (JobSafety.swap_check _ _ _ _ _ Hsw) as Hcheck.
  assert (1 ≤ Job.revision (Job.lease_job (fr_lease r)) + 1 ≤ I64_MAX) as Hr.
  { apply Job.row_check_iff in Hcheck as (Hc & _). unfold Job.job_columns_check in Hc. to_prop. inv_int.
    simpl in *. lia. }
  unfold completed_job_matches. unfold manifest_row_of in Hm. bind Hm as g Hg. apply i64_Ok in Hg as [-> Hg].
  rewrite (proj2 (i64_Ok _ (fi_generation (fr_identity r)))) by done. simpl.
  rewrite (proj2 (u64_checked_add_Some _ _ _)) by (split; [done|unfold_max; lia]). simpl.
  rewrite (proj2 (i64_Ok _ _)) by (split; [done|lia]). simpl. f_equal. apply Z.eqb_eq.
  apply (count_rows_key _ _ (Job.set_closed "completed" (fr_now r) row)); [by eapply JobSafety.swap_ok| | |].
  - pose proof (JobSafety.swap_after _ _ _ _ _ Hsw (fi_job_id (fr_identity r))) as Hs.
    rewrite bytes_eqb_refl in Hs. by apply find_by_elem in Hs as [? _].
  - rewrite Hid1, Hid2, Hid3, Hid4, <- Hj. simpl. rewrite !bytes_eqb_refl, !Z.eqb_refl.
    rewrite <- Hj in Hrev. simpl in Hrev. done.
  - intros x y Hx Hy. to_prop. apply Job.row_conflict_same_id.
    repeat match goal with E : bytes_eqb (Job.col_job_id _) _ = true |- _ => apply bytes_eqb_true in E end. congruence.
Qed.

Lemma sum_zero (a b c d e f : Z) :
  0 ≤ a → 0 ≤ b → 0 ≤ c → 0 ≤ d → 0 ≤ e → 0 ≤ f → a + b + c + d + e + f = 0 →
  a = 0 ∧ b = 0 ∧ c = 0 ∧ d = 0 ∧ e = 0 ∧ f = 0.
Proof. lia. Qed.

(** Nothing of the finalization is stored. *)
Lemma footprint_zero r db :
  footprint r db = 0 →
  count_rows (λ m, bytes_eqb (mn_manifest_sha256 m) (fr_manifest_sha256 r)
                   || bytes_eqb (mn_attempt_id m) (fi_attempt_id (fr_identity r))) (fd_manifests db) = 0 ∧
  count_rows (λ p, bytes_eqb (pr_projection_sha256 p) (fr_projection_sha256 r)
                   || bytes_eqb (pr_manifest_sha256 p) (fr_manifest_sha256 r)) (fd_projections db) = 0 ∧
  count_rows (λ p, bytes_eqb (rp_statement_sha256 p) (fr_statement_sha256 r)) (fd_reports db) = 0 ∧
  count_rows (λ e, bytes_eqb (ev_event_id e) (fr_event_id r)
                   || bytes_eqb (ev_statement_sha256 e) (fr_statement_sha256 r)
                   || bytes_eqb (ev_event_sha256 e) (fr_event_sha256 r)) (events (fd_publication db)) = 0 ∧
  count_rows (λ o, bytes_eqb (ob_event_id o) (fr_event_id r)) (outboxes (fd_publication db)) = 0 ∧
  count_rows (λ j, bytes_eqb (Job.col_job_id j) (fi_job_id (fr_identity r))
                   && String.eqb (Job.col_state j) "completed")
    (Job.jobs (rd_job (fd_reconciliation db))) = 0.
Proof. apply sum_zero; apply count_rows_nonneg. Qed.

(** A stored manifest of the attempt shows in the footprint. *)
Lemma footprint_manifest r db m :
  m ∈ fd_manifests db → mn_attempt_id m = fi_attempt_id (fr_identity r) → footprint r db ≠ 0.
Proof.
  intros Hm Hid [Hz _]%footprint_zero. pose proof (proj1 (count_rows_none _ _) Hz m Hm) as Hb.
  simpl in Hb. by rewrite Hid, bytes_eqb_refl, orb_true_r in Hb.
Qed.

Lemma supersession_again r now db db' :
  finalized r db db' → validate_supersession r db = Ok tt →
  ∀ pub, events pub = events (fd_publication db') →
  validate_supersession (at_time now r) (with_publication pub db') = Ok tt.
Proof.
  intros Hf Hv pub Hev. unfold validate_supersession in *. simpl fr_supersession. simpl fd_reports. simpl fd_publication.
  destruct (fr_supersession r) as [[statement event]|] eqn:Hs; [|done]. apply reject_if_Ok in Hv. to_prop.
  destruct (fz_report _ _ _ Hf) as (rrow & Hrrow & ->). destruct (fz_event _ _ _ Hf) as (erow & Herow & He).
  assert (rp_statement_sha256 rrow = fr_statement_sha256 r) as Hrs by (unfold report_row_of in Hrrow; by inv_ok).
  assert (ev_statement_sha256 erow = fr_statement_sha256 r) as Hes by (unfold event_row_of in Herow; by inv_ok).
  assert (statement ≠ fr_statement_sha256 r) as Hne.
  { destruct (fz_supersedes _ _ _ Hf statement event Hs) as (p & _ & Hp & _ & Hpst & _). intros Heq.
    pose proof (footprint_zero _ _ (fz_new _ _ _ Hf)) as (_ & _ & Hz & _).
    pose proof (proj1 (count_rows_none _ _) Hz p Hp) as Hb. simpl in Hb. by rewrite Hpst, Heq, bytes_eqb_refl in Hb. }
  rewrite filter_app, Hev, He. simpl. rewrite Hrs.
  destruct (bytes_eqb (fr_statement_sha256 r) statement) eqn:E; [by apply bytes_eqb_true in E|].
  rewrite app_nil_r. erewrite map_ext_in; [rewrite Hv; done|].
  intros p Hp. apply filter_In in Hp as [_ Hp%bytes_eqb_true]. rewrite count_rows_app.
  unfold count_rows at 2. simpl. rewrite Hes, Hp.
  destruct (bytes_eqb _ statement); [done|]. simpl. lia.
Qed.

Lemma reconcile_again r now db db' pub :
  final_inv db → identity_bound r → 0 ≤ now ≤ I64_MAX → finalized r db db' →
  validate_supersession r db = Ok tt → progress (fd_publication db') pub →
  reconcile_existing (at_time now r) (with_publication pub db') = Ok Exact.
Proof.
  intros Hinv Hid Hnow Hf Hsup Hpg.
  destruct (fz_manifest _ _ _ Hf) as (mrow & Hmrow & Hm). destruct (fz_report _ _ _ Hf) as (rrow & Hrrow & Hr).
  destruct (fz_event _ _ _ Hf) as (erow & Herow & He). pose proof (fz_inv _ _ _ Hf) as Hinv'.
  pose proof (footprint_zero _ _ (fz_new _ _ _ Hf)) as (_ & _ & _ & _ & Hno & _).
  destruct (fz_frame _ _ _ Hf) as [_ [jobs Hw]]. unfold reconcile_existing.
  destruct (Z.eqb_spec (footprint (at_time now r) (with_publication pub db')) 0) as [Hz|_].
  { exfalso. revert Hz. eapply (footprint_manifest _ _ mrow).
    - simpl. rewrite Hm. apply elem_of_app. right. by left.
    - unfold manifest_row_of in Hmrow. by inv_ok. }
  assert (everything_matches (at_time now r) (with_publication pub db') = Ok true) as ->.
  { unfold everything_matches. rewrite !and_matches_true. split_and!.
    - unfold manifest_matches. change (manifest_row_of (at_time now r)) with (manifest_row_of r).
      rewrite Hmrow. simpl. f_equal. apply match_count_self; [apply manifest_conflict_self|apply Hinv'|].
      rewrite Hm. apply elem_of_app. right. by left.
    - unfold projection_matches. f_equal. apply match_count_self; [apply projection_conflict_self|apply Hinv'|].
      simpl. rewrite (fz_projection _ _ _ Hf). apply elem_of_app. right. by left.
    - unfold report_matches. change (report_row_of (at_time now r)) with (report_row_of r).
      rewrite Hrrow. simpl. f_equal. apply match_count_self; [apply report_conflict_self|apply Hinv'|].
      rewrite Hr. apply elem_of_app. right. by left.
    - unfold event_matches. change (event_row_of (at_time now r)) with (event_row_of r).
      rewrite Herow. simpl. rewrite (pg_events _ _ Hpg). f_equal.
      pose proof (fv_publication _ Hinv') as Hok. unfold tables_ok in Hok. to_prop.
      apply match_count_self; [apply event_conflict_self|done|]. rewrite He. apply elem_of_app. right. by left.
    - eapply publication_matches_again; [done|apply Hinv'|apply Hinv|exact Hno|by apply fz_queued|done].
    - change (completed_job_matches r (Job.jobs (rd_job (fd_reconciliation db'))) = Ok true).
      apply (completed_job_again r (fd_reconciliation db)); [apply Hinv|done|by eapply fz_fenced|by eexists|by apply fz_job]. }
  simpl. assert (validate_source_inventory (at_time now r) (fd_reconciliation db') = Ok tt) as ->.
  { rewrite Hw. exact (fz_sources _ _ _ Hf). }
  simpl. by rewrite (supersession_again r now db db' Hf Hsup pub (pg_events _ _ Hpg)).
Qed.

End safety.

(** ** The queued publication *)

Section queued.
Context `{Sha256}.

(** Sorting leaves a sorted list alone. *)
Lemma sort_by_id {A} (cmp : A → A → comparison) l : sorted_by cmp l → sort_by cmp l = l.
Proof.
  induction 1 as [|x l _ IH Hall]; [done|]. simpl. rewrite IH. destruct l as [|y l]; [done|]. simpl.
  inversion Hall as [|? ? Hxy _]; subst. by destruct (is_le (cmp x y)).
Qed.

Definition fresh_target (now : Z) (t : FinalizationTarget) : Execution.TargetRecord :=
  Execution.MkTargetRecord (ft_ordinal t) (ft_relay_id t) (ft_required t) Submission.TPending 1 0 (Some now) None now.

Lemma decode_fresh r q t row :
  target_row_of r q t = Ok row → row_check row = true →
  Execution.decode_target row = Ok (fresh_target (fr_now r) t) ∧ Views.target_ok (fresh_target (fr_now r) t).
Proof.
  intros Hrow Hc. assert (Views.target_view row (fresh_target (fr_now r) t)) as Hv.
  { unfold target_row_of in Hrow. bind Hrow as n Hn. apply i64_Ok in Hn as [-> _]. injection Hrow as <-. by split. }
  pose proof (Views.target_check_ok _ _ Hc Hv) as Hok. split; [|done]. by apply Views.decode_target_Ok.
Qed.

(** Targets numbered in order give rows in order. *)
Lemma target_rows_sorted r q l rows k :
  (∀ i t, l !! i = Some t → ft_ordinal t = Z.of_nat (k + i)) →
  Forall2 (λ t row, target_row_of r q t = Ok row) l rows →
  sorted_by Execution.target_order rows ∧ Forall (λ row, Z.of_nat k ≤ tg_target_ordinal row) rows.
Proof.
  intros Hord Hall. revert k Hord. induction Hall as [|t row l rows Ht _ IH]; intros k Hord; [by split; constructor|].
  destruct (IH (S k)) as [Hs Hge].
  { intros i u Hu. rewrite (Hord (S i) u Hu). f_equal. lia. }
  assert (tg_target_ordinal row = Z.of_nat k) as Hk.
  { pose proof (Hord 0%nat t eq_refl) as H0'. rewrite Nat.add_0_r in H0'. unfold target_row_of in Ht. by inv_ok. }
  split; constructor; [done| |lia|].
  - eapply Forall_impl; [|exact Hge]. intros x Hx. cbv beta in Hx. unfold Execution.target_order, cmp_on, is_le. rewrite Hk.
    destruct (Z.compare_spec (Z.of_nat k) (tg_target_ordinal x)); [done|done|lia].
  - eapply Forall_impl; [|exact Hge]. simpl. intros x Hx. lia.
Qed.

(** The inventory read back is the configured targets, all pending and due. *)
Lemma read_fresh_targets r q pub pub' row rows :
  tables_ok pub' = true → (∀ t, t ∈ PubState.targets pub → has_outbox pub (tg_outbox_id t) = true) →
  outbox_row_of r q = Ok row → outboxes pub' = outboxes pub ++ [row] →
  Forall2 (λ t row, target_row_of r q t = Ok row) (rq_targets q) rows →
  PubState.targets pub' = PubState.targets pub ++ rows →
  (∀ i t, rq_targets q !! i = Some t → ft_ordinal t = Z.of_nat i) → Z.of_nat (length (rq_targets q)) ≤ 32 →
  Execution.read_targets (rq_outbox_id q) pub' = Ok (map (fresh_target (fr_now r)) (rq_targets q)) ∧
  Forall Views.target_ok (map (fresh_target (fr_now r)) (rq_targets q)).
Proof.
  intros Hok Htg Hrow Ho Hall Ht Hord Hlen. pose proof (new_outbox _ _ _ _ _ Hok Hrow Ho) as Hfresh.
  pose proof (target_rows_outbox _ _ _ _ Hall) as Hids. unfold tables_ok in Hok. to_prop.
  assert (List.filter (λ x, bytes_eqb (tg_outbox_id x) (rq_outbox_id q)) (PubState.targets pub') = rows) as Hf.
  { rewrite Ht, filter_app.
    assert (∀ l, Forall (λ x, tg_outbox_id x = rq_outbox_id q) l →
      List.filter (λ x, bytes_eqb (tg_outbox_id x) (rq_outbox_id q)) l = l) as Hself.
    { induction 1 as [|x l Hx _ IH]; [done|]. simpl. by rewrite Hx, bytes_eqb_refl, IH. }
    rewrite (Hself rows Hids).
    assert (∀ l, (∀ t, t ∈ l → tg_outbox_id t ≠ rq_outbox_id q) →
      List.filter (λ x, bytes_eqb (tg_outbox_id x) (rq_outbox_id q)) l = []) as Hnone.
    { induction l as [|x l IH]; intros Hl; [done|]. simpl. destruct (bytes_eqb _ _) eqn:E.
      - apply bytes_eqb_true in E. by destruct (Hl x ltac:(by left)).
      - apply IH. intros t Hin. apply Hl. by right. }
    rewrite Hnone; [done|]. intros t Hin Heq. apply Htg, has_outbox_elem in Hin as (o & Hoin & Hid).
    apply (Hfresh o Hoin). congruence. }
  assert (Forall2 (λ t row, Execution.decode_target row = Ok (fresh_target (fr_now r) t) ∧
    Views.target_ok (fresh_target (fr_now r) t)) (rq_targets q) rows) as Hdec.
  { assert (∀ x, x ∈ rows → row_check x = true) as Hchk.
    { intros x Hx. eapply rows_ok_check; [eassumption|]. rewrite Ht. apply elem_of_app. by right. }
    clear -Hall Hchk. induction Hall as [|t x l rows Hx _ IH]; constructor.
    - apply (decode_fresh _ q); [done|]. apply Hchk. by left.
    - apply IH. intros y Hy. apply Hchk. by right. }
  split.
  - unfold Execution.read_targets, Execution.READ_TARGETS_SQL. rewrite Hf, sort_by_id.
    2: { apply (target_rows_sorted r q (rq_targets q) rows 0); [|done]. intros i t. apply Hord. }
    rewrite take_ge by (rewrite <- (Forall2_length Hall); lia). apply collect_Ok.
    clear -Hdec. induction Hdec as [|t x l rows [Hx _] _ IH]; simpl; by constructor.
  - clear -Hdec. induction Hdec as [|t x l rows [_ Hx] _ IH]; simpl; by constructor.
Qed.

Lemma read_fresh_outbox r q pub pub' row :
  tables_ok pub' = true → outbox_row_of r q = Ok row → outboxes pub' = outboxes pub ++ [row] →
  ∃ o, Execution.read_outbox (rq_outbox_id q) pub' = Ok (Some o) ∧ Views.outbox_view row o.
Proof.
  intros Hok Hrow Ho. unfold tables_ok in Hok. to_prop.
  assert (row ∈ outboxes pub') as Hin by (rewrite Ho; apply elem_of_app; right; by left).
  destruct (Views.decode_outbox_total row) as (o & Hd & Hv).
  - by eapply rows_ok_check.
  - intros b Hb. unfold outbox_row_of in Hrow. by inv_ok.
  - exists o. split; [|done]. rewrite <- (proj1 (outbox_row_id _ _ _ Hrow)), Views.read_outbox_row, Hd; done.
Qed.

(** The exact bytes of the signed event are what the executor submits. *)
Lemma read_fresh_publication r q pub pub' row erow :
  tables_ok pub' = true → outbox_row_of r q = Ok row → outboxes pub' = outboxes pub ++ [row] →
  event_row_of r = Ok erow → events pub' = events pub ++ [erow] →
  sha256 (fr_canonical_event_json r) = fr_event_sha256 r →
  Submission.read_committed (rq_outbox_id q) pub' =
    Ok (Submission.MkCommitted (rq_outbox_id q) (fr_event_id r) (fr_event_sha256 r) (fr_canonical_event_json r)).
Proof.
  intros Hok Hrow Ho Herow He Hsha. unfold tables_ok in Hok. to_prop.
  assert (row ∈ outboxes pub') as Hin by (rewrite Ho; apply elem_of_app; right; by left).
  assert (erow ∈ events pub') as Hein by (rewrite He; apply elem_of_app; right; by left).
  assert (row_check row = true) as Hrc by (by eapply rows_ok_check).
  assert (row_check erow = true) as Hec by (by eapply rows_ok_check).
  destruct (outbox_row_id _ _ _ Hrow) as [Hid Hevid].
  assert (ob_event_sha256 row = fr_event_sha256 r) as Hos by (unfold outbox_row_of in Hrow; by inv_ok).
  assert (ev_event_id erow = fr_event_id r ∧ ev_event_sha256 erow = fr_event_sha256 r ∧
    ev_canonical_event_json erow = fr_canonical_event_json r) as (Hei & Hes & Hej)
    by (unfold event_row_of in Herow; by inv_ok).
  assert (Submission.READ_COMMITTED_PUBLICATION_SQL (rq_outbox_id q) pub' = [(row, Some erow)]) as Hread.
  { unfold Submission.READ_COMMITTED_PUBLICATION_SQL. rewrite <- Hid.
    rewrite (Submission.filter_key_unique ob_outbox_id) by (done || apply Views.outbox_key). simpl.
    unfold Submission.joined_event. rewrite Hevid, <- Hei.
    rewrite (Submission.filter_key_unique ev_event_id); [done|done| |done].
    intros x y Hxy. simpl. by rewrite Hxy, bytes_eqb_refl. }
  unfold Submission.read_committed. rewrite Hread. simpl in Hrc, Hec. unfold outbox_columns_check in Hrc. to_prop.
  unfold Submission.blob32. simpl. rewrite Hid, Hevid, Hos, Hei, Hes, Hej in *.
  repeat match goal with E : blob_of 32 _ = true |- _ => rewrite E; clear E end. simpl.
  match goal with E : between 1 32768 _ = true |- _ => rewrite E; apply between_true in E end. simpl.
  rewrite Hsha, !bytes_eqb_refl, (proj2 (Nat.eqb_neq _ _)) by lia. simpl.
  by rewrite (proj2 (Z.ltb_ge _ _)) by (unfold Submission.SIGNED_EVENT_BYTES_MAXIMUM; lia).
Qed.

(** ** The configured authority *)

Lemma filter_final_target ts :
  length (List.filter ft_required (map final_target ts)) = length (List.filter target_required ts).
Proof. induction ts as [|t ts IH]; simpl; [done|]. destruct (target_required t); simpl; by rewrite IH. Qed.

(** The record of a required publication is the executor's binding of the authority. *)
Lemma final_publication_required e (au : RhiPublicationAuthority) q :
  final_publication e au = Some (PublicationRequired q) →
  rq_targets q = map final_target (Authority.targets au) ∧
  ∃ policy, mode au = Required ∧ retry au = Some policy ∧
    q = MkRequired (outbox_id e (authority_sha256 au) (target_set_sha256 au)) (authority_sha256 au)
          (target_set_sha256 au) (queue_capacity au) (maximum_attempts policy)
          (initial_backoff_milliseconds policy) (maximum_backoff_milliseconds policy)
          (attempt_deadline_milliseconds policy) (Z.of_nat (length (Authority.targets au))) (map final_target (Authority.targets au)) ∧
    Execution.from_authority au =
      Some (Execution.MkBinding (authority_sha256 au) (target_set_sha256 au) (Z.of_nat (length (Authority.targets au)))
              (Z.of_nat (length (List.filter target_required (Authority.targets au)))) (maximum_attempts policy)
              (initial_backoff_milliseconds policy) (maximum_backoff_milliseconds policy)
              (attempt_deadline_milliseconds policy)).
Proof.
  unfold final_publication. destruct (mode au) eqn:Hm; [intros Hf|by destruct (_ || _)].
  apply bind_Some in Hf as (policy & Hp & Hf). destruct (_ || _) in Hf; [done|].
  apply bind_Some in Hf as (n & Hn & Hf). apply try_from_Some in Hn as [-> Hn]. injection Hf as <-.
  rewrite length_map in *. split; [done|]. exists policy. split_and!; try done.
  unfold Execution.from_authority. rewrite Hm, Hp. simpl.
  assert (∀ n, 0 ≤ n ≤ U8_MAX → try_from U8_MAX n = Some n) as Htry by (intros n ?; by apply try_from_Some).
  rewrite !Htry; [done| |done]. pose proof (List.filter_length_le target_required (Authority.targets au)). lia.
Qed.

Lemma fresh_inventory now ts :
  map (λ t, MkTarget (Execution.ordinal t) (Execution.relay_id t) (Execution.required t))
    (map (fresh_target now) (map final_target ts)) = ts.
Proof. rewrite !map_map. apply map_id_on. by intros [] _. Qed.

(** The stored outbox carries the configured authority. *)
Lemma fresh_authority r q au e row o b :
  outbox_row_of r q = Ok row → Views.outbox_view row o →
  final_publication e au = Some (PublicationRequired q) → Execution.from_authority au = Some b →
  Execution.validate_authority o b = Ok tt ∧ Execution.state o = Execution.Pending ∧
  Execution.next_attempt o = Some (fr_now r) ∧ Execution.id o = rq_outbox_id q ∧
  Execution.max_attempts o = rq_maximum_attempts q.
Proof.
  intros Hrow [] (Htq & policy & _ & _ & -> & Hb)%final_publication_required Hb'. rewrite Hb in Hb'. injection Hb' as <-.
  unfold outbox_row_of, i64_value in Hrow. inv_ok. inv_int. simpl in *.
  unfold Execution.validate_authority. simpl. 
  assert (Execution.state o = Execution.Pending) as Hst by (by apply Views.outbox_code_inj).
  unfold required_count in *. simpl in *. rewrite filter_final_target, length_map in *.
  repeat match goal with E : _ = _ o |- _ => rewrite <- E; clear E end.
  rewrite !bytes_eqb_refl, !Z.eqb_refl. by split_and!.
Qed.

End queued.

(** ** The repository method *)

Section repository.
Context `{Sha256, EvidenceLibrary M, !ManifestReader M, ReducerLibrary P, AttestationLibrary M Idn,
  TransactionLaws finalization_db}.

#[local] Abbreviation signed := (Attestation.RhiSignedEvidenceAttestation (M := M) (P := P) (Idn := Idn)).

Lemma from_inputs_lease (a : signed) publication now r :
  from_inputs a publication now = Some r →
  fr_lease r = fence_lease (Attestation.sa_fence a) ∧ fr_identity r = fence_identity (Attestation.sa_fence a) ∧
  fr_now r = now ∧ 0 ≤ now ≤ I64_MAX ∧ fr_event_id r = Attestation.sa_event_id a ∧
  fr_event_sha256 r = Attestation.sa_signed_event_sha256 a ∧
  fr_canonical_event_json r = Attestation.sa_signed_event_bytes a ∧
  final_publication (Attestation.sa_event_id a) publication = Some (fr_publication r).
Proof.
  unfold from_inputs. intros Hf.
  repeat (apply bind_Some in Hf as (? & ? & Hf)). destruct (_ || _) eqn:E in Hf; [done|].
  apply bind_Some in Hf as (p & Hp & Hf). injection Hf as <-. simpl. apply orb_false_iff in E as [_ E].
  simpl in E. apply orb_false_iff in E as [E _]. unfold is_null in E.
  destruct (try_from I64_MAX now) eqn:Ht; [|done]. apply try_from_Some in Ht as [_ Ht]. split_and!; first [done|apply Ht].
Qed.

Lemma from_inputs_at (a : signed) publication now now' r :
  from_inputs a publication now = Some r → 0 ≤ now' ≤ I64_MAX →
  from_inputs a publication now' = Some (at_time now' r).
Proof.
  unfold from_inputs. intros Hf Hnow.
  repeat (apply bind_Some in Hf as (? & Hv & Hf); rewrite Hv; clear Hv; simpl).
  destruct (_ || _) eqn:E in Hf; [done|]. apply orb_false_iff in E as [-> E]. simpl in E.
  apply orb_false_iff in E as [_ E]. simpl.
  rewrite (proj2 (try_from_Some _ _ _)) by (split; [done|exact Hnow]). simpl. rewrite E.
  apply bind_Some in Hf as (p & Hp & Hf). rewrite Hp. by injection Hf as <-.
Qed.

(** How a call may end. *)
Lemma commit_finalization_Ok writable digest (a : signed) publication now db res db' :
  final_inv db → commit_finalization writable digest a publication now db = (res, db') →
  match res with
  | Ok out => ∃ r, from_inputs a publication now = Some r ∧ out = outcome r (created out) ∧
      if created out then finalized r db db' ∧ validate_supersession r db = Ok tt
      else db' = db ∧ reconcile_existing r db = Ok Exact
  | Err e => db' = db ∨
      e = CommitOutcomeUnknown ∧ ∃ r, from_inputs a publication now = Some r ∧ finalized r db db' ∧
        validate_supersession r db = Ok tt
  end.
Proof.
  intros Hinv. unfold commit_finalization.
  destruct (reject_if _ _ ;? _) as [r|e] eqn:Hr; [|intros [= <- <-]; by left].
  do 2 (apply and_then_Ok in Hr as (? & _ & Hr)). apply ok_or_Ok in Hr.
  assert (∀ c, created (outcome r c) = c) as Hcr by (intros c; unfold outcome; by destruct (fr_publication r)).
  destruct (transaction _ db) as [[out|e] db1] eqn:Htx; intros [= <- <-]; simpl.
  - apply tx_committed, finalization_Ok in Htx as [(-> & ? & ?)|(-> & ?)]; [| |done]; exists r; by rewrite Hcr.
  - unfold map_transaction_error. destruct (commit_outcome_unknown e) eqn:Hu.
    + destruct (tx_unknown _ _ _ _ Htx Hu) as (out & db2 & Hop & [->| ->]); [by left|].
      apply finalization_Ok in Hop as [(_ & -> & _)|(_ & ? & ?)]; [by left| |done]. right. split; [done|]. by exists r.
    + destruct (tx_rolled_back _ _ _ _ Htx Hu) as [-> _]. by left.
Qed.

Lemma commit_finalization_moved writable digest (a : signed) publication now db res db' :
  final_inv db → commit_finalization writable digest a publication now db = (res, db') → db' ≠ db →
  ∃ r, from_inputs a publication now = Some r ∧ finalized r db db' ∧ validate_supersession r db = Ok tt.
Proof.
  intros Hinv Hc Hne. apply commit_finalization_Ok in Hc; [|done]. destruct res as [out|e].
  - destruct Hc as (r & Hr & _ & Hc). destruct (created out); [|by destruct Hc]. exists r. by split.
  - destruct Hc as [->|[_ Hc]]; done.
Qed.

(** Once its footprint shows, a finalization changes nothing any more. *)
Lemma commit_footprint r db :
  footprint r db ≠ 0 → ∀ out db', FinalCommit.commit r db = Ok (out, db') → out = outcome r false ∧ db' = db.
Proof.
  intros Hf out db' Hc. unfold FinalCommit.commit, reconcile_existing in Hc.
  rewrite (proj2 (Z.eqb_neq _ _) Hf) in Hc. bind Hc as ex Hex. bind Hex as m Hm. destruct m; [|done].
  bind Hex as u1 H1'. bind Hex as u2 H2'. injection Hex as <-. by injection Hc as <- <-.
Qed.

(** The fence a preflight grants names the job of its lease. *)
Lemma prepared_bound writable lease evaluation t fdb (fence : RhiReconciliationFinalizationFence (M := M) (P := P))
    fdb' :
  prepare_finalization writable lease evaluation t fdb = (Ok fence, fdb') →
  let j := Job.lease_job (fence_lease fence) in let i := fence_identity fence in
  fi_job_id i = Job.id j ∧ fi_trade_id i = Job.trade_id j ∧ fi_generation i = Job.input_generation j ∧
  fi_policy_digest i = Job.policy_digest j.
Proof.
  unfold prepare_finalization. destruct (reject_if _ _ ;? _) as [i|] eqn:Hi; [|done].
  destruct (transaction _ fdb) as [[f|] fdb1] eqn:Htx; [|done]. intros [= <- <-]. apply tx_committed in Htx.
  bind Htx as u Hu. injection Htx as <- _. bind Hi as u1 Hu1. unfold finalization_identity in Hi.
  bind Hi as u2 Hm. apply reject_if_Ok in Hm. bind Hi as u3 Hu3. bind Hi as u4 Hu4. injection Hi as <-. simpl.
  to_prop. split_and!; try done. by apply bytes_eqb_true.
Qed.

(** ** Properties *)

(** C1. The commit of a finalization is atomic and fenced, over any transaction host.
    A first commit succeeds only under the exact live lease, at the dirty generation
    and policy of the attempt, with the attempt's results and advanced checkpoints
    still in place, a superseded report stored, and the publication queue below its
    capacity; it then holds exactly one more manifest, projection, report and signed
    event, the outbox with one pending target per configured relay, and the job
    completed one revision later.  A commit of an attestation already stored changes
    nothing; an unknown outcome leaves the state before or such a state after; every
    other failure leaves the state as it was. *)
Theorem finalization_is_atomic writable digest (a : signed) publication now db res db' :
  final_inv db → commit_finalization writable digest a publication now db = (res, db') →
  match res with
  | Ok out => ∃ r, from_inputs a publication now = Some r ∧ out = outcome r (created out) ∧
      if created out then finalized r db db' else db' = db ∧ recorded r db
  | Err CommitOutcomeUnknown => db' = db ∨ ∃ r, from_inputs a publication now = Some r ∧ finalized r db db'
  | Err _ => db' = db
  end.
Proof.
  intros Hinv Hc. apply commit_finalization_Ok in Hc; [|done]. destruct res as [out|e].
  - destruct Hc as (r & Hr & Ho & Hc). exists r. split_and!; [done..|].
    destruct (created out); [by destruct Hc|]. destruct Hc as [-> Hc]. split; [done|].
    by apply reconcile_existing_recorded.
  - destruct Hc as [->|[-> (r & Hr & Hf & _)]]; [by destruct e; try left|]. right. by exists r.
Qed.

(** C2. Retrying a finalization is exact.  Once an attestation of a granted fence has
    been committed (whatever the first call answered), committing it again at any
    later or earlier time, after any number of publication steps, changes nothing: the
    answer is the first outcome with [created] false, unless the host fails. *)
Theorem finalization_retry_is_exact writable0 lease evaluation t fdb fdb' writable writable' digest (a : signed)
    publication now now' db res db' pub res' db'' :
  final_inv db →
  prepare_finalization writable0 lease evaluation t fdb = (Ok (Attestation.sa_fence a), fdb') →
  commit_finalization writable digest a publication now db = (res, db') → db' ≠ db →
  0 ≤ now' ≤ I64_MAX → rtc History.pub_step (fd_publication db') pub →
  commit_finalization writable' digest a publication now' (with_publication pub db') = (res', db'') →
  db'' = with_publication pub db' ∧
  match res' with
  | Ok out => created out = false ∧ ∀ first, res = Ok first →
      publication_mode out = publication_mode first ∧ out_target_count out = out_target_count first ∧
      out_outbox_id out = out_outbox_id first
  | Err e => e = Storage ∨ e = CommitOutcomeUnknown ∨ writable' = false
  end.
Proof.
  intros Hinv Hp Hc Hne Hnow Hs Hc'. pose proof Hc as Hc0.
  apply commit_finalization_moved in Hc as (r & Hr & Hf & Hsup); [|done..].
  assert (∃ c, res = Ok (outcome r c) ∨ ∃ e, res = Err e) as [c0 Hres].
  { apply commit_finalization_Ok in Hc0; [|done]. destruct res as [out|e]; [|by exists true; right; exists e].
    destruct Hc0 as (r' & Hr' & -> & _). rewrite Hr in Hr'. injection Hr' as <-. exists (created out). by left. }
  assert (identity_bound r) as Hid.
  { unfold identity_bound. destruct (from_inputs_lease _ _ _ _ Hr) as (-> & -> & _). by eapply prepared_bound. }
  pose proof (reconcile_again r now' db db' pub Hinv Hid Hnow Hf Hsup (history_progresses _ _ Hs)) as Hex.
  unfold commit_finalization in Hc', Hc0. rewrite (from_inputs_at _ _ _ _ _ Hr Hnow) in Hc'.
  destruct writable'; simpl in Hc'; [|injection Hc' as <- <-; split; [done|by right; right]].
  destruct (negb (bytes_eqb (configuration_sha256 publication) digest)) eqn:Hcfg; simpl in Hc'.
  { exfalso. apply Hne. simpl in Hc0. destruct writable; simpl in Hc0; by injection Hc0. }
  assert (FinalCommit.commit (at_time now' r) (with_publication pub db') =
    Ok (outcome (at_time now' r) false, with_publication pub db')) as Hop.
  { unfold FinalCommit.commit. by rewrite Hex. }
  destruct (transaction _ _) as [[out|e] db2] eqn:Htx; injection Hc' as <- <-; simpl.
  - apply tx_committed in Htx. rewrite Hop in Htx. injection Htx as <- <-. split; [done|].
    unfold outcome in *. simpl fr_publication.
    destruct (fr_publication r); (split; [done|]); intros first ->; by destruct Hres as [[= ->]|[? ?]].
  - unfold map_transaction_error. destruct (commit_outcome_unknown e) eqn:Hu.
    + destruct (tx_unknown _ _ _ _ Htx Hu) as (x & db3 & Hx & Hdb). rewrite Hop in Hx. injection Hx as _ <-.
      split; [by destruct Hdb|by right; left].
    + destruct (tx_rolled_back _ _ _ _ Htx Hu) as [-> Herr]. split; [done|].
      destruct (operation_error e) as [oe|]; [|by left]. specialize (Herr oe eq_refl). by rewrite Hop in Herr.
Qed.

(** An attempt is finalized at most once: after a commit that took effect, and
    any publication progress, no attestation of the same attempt (another claim,
    another signature, another publication authority) changes the state or is
    reported as created. *)
Theorem attempt_is_finalized_once writable digest (a : signed) publication now db res db' pub
    writable' digest' (a' : signed) publication' now' res' db'' :
  final_inv db → commit_finalization writable digest a publication now db = (res, db') → db' ≠ db →
  rtc History.pub_step (fd_publication db') pub →
  fi_attempt_id (fence_identity (Attestation.sa_fence a')) = fi_attempt_id (fence_identity (Attestation.sa_fence a)) →
  commit_finalization writable' digest' a' publication' now' (with_publication pub db') = (res', db'') →
  db'' = with_publication pub db' ∧ ∀ out, res' = Ok out → created out = false.
Proof.
  intros Hinv Hc Hne Hs Hsame Hc'. apply commit_finalization_moved in Hc as (r & Hr & Hf & _); [|done..].
  assert (∀ r', from_inputs a' publication' now' = Some r' → footprint r' (with_publication pub db') ≠ 0) as Hfoot.
  { intros r' Hr'. destruct (fz_manifest _ _ _ Hf) as (mrow & Hmrow & Hm). apply (footprint_manifest _ _ mrow).
    - simpl. rewrite Hm. apply elem_of_app. right. by left.
    - destruct (from_inputs_lease _ _ _ _ Hr) as (_ & Hi & _), (from_inputs_lease _ _ _ _ Hr') as (_ & -> & _).
      rewrite Hsame, <- Hi. unfold manifest_row_of in Hmrow. by inv_ok. }
  unfold commit_finalization in Hc'. destruct (reject_if _ _ ;? _) as [r'|e] eqn:Hr'; [|by injection Hc' as <- <-].
  do 2 (apply and_then_Ok in Hr' as (? & _ & Hr')). apply ok_or_Ok in Hr'.
  pose proof (commit_footprint _ _ (Hfoot r' Hr')) as Hop.
  destruct (transaction _ _) as [[out|e] db2] eqn:Htx; injection Hc' as <- <-; simpl.
  - apply tx_committed, Hop in Htx as [-> ->]. split; [done|]. intros out' [= <-]. unfold outcome.
    by destruct (fr_publication r').
  - split; [|done]. destruct (commit_outcome_unknown e) eqn:Hu.
    + destruct (tx_unknown _ _ _ _ Htx Hu) as (out & db3 & [_ ->]%Hop & [->| ->]); done.
    + by destruct (tx_rolled_back _ _ _ _ Htx Hu) as [-> _].
Qed.
(** C16. What finalization queues the executor can publish.  When a required authority
    derived from the configuration finalizes an issued attestation, the outbox reads
    back pending and due at once, under exactly the authority the executor checks;
    its inventory is the configured relays in order, valid, every target due; and the
    committed publication is the exact signed event, with its identifier and digest. *)
Theorem finalized_publication_is_claimable `{!Sha256Laws, JsonValue V, !JsonLaws V, !JsonWriter V, EntropySource W}
    (document : V) profile au fence identity created_at supersession (w : W) w' (a : signed) writable digest now
    db res db' :
  final_inv db → derive_authority document profile = Ok au → mode au = Required →
  build_rhi_signed_evidence_attestation fence identity created_at supersession w = (Ok a, w') →
  commit_finalization writable digest a au now db = (res, db') → db' ≠ db →
  let pub := fd_publication db' in
  let i := outbox_id (Attestation.sa_event_id a) (authority_sha256 au) (target_set_sha256 au) in
  ∃ b o ts,
    Execution.from_authority au = Some b ∧ Execution.read_outbox i pub = Ok (Some o) ∧
    Execution.state o = Execution.Pending ∧ Execution.next_attempt o = Some now ∧
    Execution.validate_authority o b = Ok tt ∧ Execution.read_targets i pub = Ok ts ∧
    map (λ t, MkTarget (Execution.ordinal t) (Execution.relay_id t) (Execution.required t)) ts =
      Authority.targets au ∧
    Execution.validate_targets o ts = Ok tt ∧
    Forall (λ t, Execution.target_is_due t (Execution.max_attempts o) now = true) ts ∧
    Submission.read_committed i pub =
      Ok (Submission.MkCommitted i (Attestation.sa_event_id a) (Attestation.sa_signed_event_sha256 a)
            (Attestation.sa_signed_event_bytes a)).
Proof.
  intros Hinv (Hau & _)%derive_authority_Ok Hm Hbuild Hc Hne pub i.
  apply commit_finalization_moved in Hc as (r & Hr & Hf & _); [|done..].
  destruct (from_inputs_lease _ _ _ _ Hr) as (_ & _ & Hnow & _ & Hei & Hes & Hej & Hpub).
  apply build_Ok in Hbuild as (report & plan & aux & _ & _ & Hs).
  apply sign_attestation_Ok in Hs as (sg & event & _ & _ & _ & Ha).
  assert (sha256 (fr_canonical_event_json r) = fr_event_sha256 r) as Hsha by (rewrite Hes, Hej, Ha; done).
  pose proof (fv_publication _ (fz_inv _ _ _ Hf)) as Hok. pose proof (fv_targets _ Hinv) as Htg.
  destruct (fz_event _ _ _ Hf) as (erow & Herow & Hev). pose proof (fz_queued _ _ _ Hf) as Hq. unfold queued in Hq.
  destruct (fr_publication r) as [|q] eqn:Hfp.
  { exfalso. unfold final_publication in Hpub. rewrite Hm in Hpub.
    apply bind_Some in Hpub as (? & _ & Hx). destruct (_ || _) in Hx; [done|]. by apply bind_Some in Hx as (? & _ & ?). }
  destruct Hq as (_ & (row & Hrow & Ho) & rows & Hall & Ht).
  destruct (final_publication_required _ _ _ Hpub) as (Htq & policy & _ & Hretry & Hqe & Hb).
  assert (rq_outbox_id q = i) as Hqi by (by rewrite Hqe). pose proof Hau as ((Hlen & Hord & _) & _ & _ & _ & Hret).
  rewrite Hm in Hret. destruct Hret as (_ & policy' & Hp' & Hpol). rewrite Hretry in Hp'. injection Hp' as <-.
  destruct (read_fresh_outbox _ _ _ _ _ Hok Hrow Ho) as (o & Hread & Hview).
  destruct (fresh_authority _ _ _ _ _ _ _ Hrow Hview Hpub Hb) as (Hval & Hst & Hnext & _ & Hmax).
  destruct (read_fresh_targets _ _ _ _ _ _ Hok Htg Hrow Ho Hall Ht) as [Hts Htok].
  { rewrite Htq. intros k t Hk. apply list_lookup_fmap_Some in Hk as (u & -> & Hu). by apply Hord. }
  { rewrite Htq, length_map. exact Hlen. }
  rewrite Htq in Hts, Htok. pose proof (fresh_inventory (fr_now r) (Authority.targets au)) as Hinventory.
  rewrite Hqi in *. rewrite <- Hnow. eexists _, o, _. split_and!; try done.
  - by eapply (proj2 (History.authorized_inventory _ _ _ _ Hau Hb Hval Htok)).
  - apply Forall_map, Forall_map, List.Forall_forall. intros t _. unfold Execution.target_is_due. simpl.
    rewrite Hmax, Hqe. simpl. destruct Hpol as [[Hmx _] _]. rewrite Z.leb_refl, andb_true_r. by apply Z.ltb_lt, Z.lt_le_trans with 1.
  - rewrite <- Hei, <- Hes, <- Hej, <- Hqi. by eapply read_fresh_publication.
Qed.
End repository.

(** ** A concrete finalization, retried after its publication was claimed *)

#[local] Existing Instance checksum.
#[local] Existing Instance json_value.
#[local] Existing Instance json_laws.
#[local] Existing Instance json_writer.
#[local] Existing Instance Manifest.demo_library.
#[local] Existing Instance Manifest.demo_laws.
#[local] Existing Instance demo_reducer.
#[local] Existing Instance demo_reader.
#[local] Existing Instance demo_attestation_library.
#[local] Existing Instance reliable_host.
#[local] Existing Instance reliable_host_laws.

Definition final_authority : RhiPublicationAuthority := Authority.demo_authority 3.

#[local] Abbreviation final_run now db :=
  (commit_finalization true (configuration_sha256 final_authority) Attestation.demo_signed final_authority now db).

Definition final_outcome : RhiReconciliationFinalizationCommitOutcome :=
  Eval vm_compute in match (final_run 6000 quiet_state).1 with Ok o => o | Err _ => MkOutcome false Disabled 0 None end.

Definition final_db : finalization_db := (final_run 6000 quiet_state).2.

Lemma final_run_Ok : final_run 6000 quiet_state = (Ok final_outcome, final_db).
Proof.
  assert ((final_run 6000 quiet_state).1 = Ok final_outcome) as Hr by (vm_compute; reflexivity).
  revert Hr. unfold final_db. generalize (final_run 6000 quiet_state). intros [res db]. simpl. by intros ->.
Qed.

Lemma final_db_moved : final_db ≠ quiet_state.
Proof.
  intros E. apply (f_equal (λ db, length (fd_manifests db))) in E. revert E. vm_compute. discriminate.
Qed.

Lemma quiet_jobs_inv : Job.db_inv (rd_job (fd_reconciliation quiet_state)).
Proof.
  split; [vm_compute; reflexivity|..]; apply (bool_decide_unpack _); vm_compute; reflexivity.
Qed.

Lemma quiet_inv : final_inv quiet_state.
Proof.
  split; [|exact quiet_jobs_inv|done|done|done|done|by intros ? ?%elem_of_nil].
  destruct (commit_source_replays_Ok _ _ _ _ _ _ _ _ _ _ CommitSafety.demo_state_ok CommitSafety.demo_claim_planned
    quiet_commit_Ok) as (parts & _ & Hc).
  exact (cd_inv _ _ _ _ _ _ Hc).
Qed.

Lemma finalization_is_atomic_witness :
  ∃ r, from_inputs Attestation.demo_signed final_authority 6000 = Some r ∧ finalized r quiet_state final_db.
Proof.
  destruct (finalization_is_atomic true (configuration_sha256 final_authority) Attestation.demo_signed
    final_authority 6000 quiet_state (Ok final_outcome) final_db quiet_inv final_run_Ok) as (r & Hr & _ & Hf).
  exists r. exact (conj Hr Hf).
Defined.

(** The publication after its outbox was claimed. *)
Definition final_binding : Execution.AuthorityBinding :=
  Eval vm_compute in default (Execution.MkBinding [] [] 0 0 0 0 0 0) (Execution.from_authority final_authority).

Definition final_pub : publication_db :=
  match Execution.claim_next (repeat 8 16) 6500 final_binding (fd_publication final_db) with
  | Ok (_, db) => db
  | Err _ => fd_publication final_db
  end.

Lemma final_pub_claimed : rtc History.pub_step (fd_publication final_db) final_pub.
Proof.
  unfold final_pub. destruct (Execution.claim_next _ _ _ _) as [[l db]|e] eqn:Hc; [|done].
  apply rtc_once. eapply History.step_claim; [|exact Hc]. by vm_compute.
Qed.

Lemma final_pub_moved : map ob_state (outboxes final_pub) = ["leased"]%string.
Proof. vm_compute. reflexivity. Qed.

Definition retry_db : finalization_db := (final_run 7000 (with_publication final_pub final_db)).2.

Definition retry_outcome : RhiReconciliationFinalizationCommitOutcome :=
  Eval vm_compute in match (final_run 7000 (with_publication final_pub final_db)).1 with Ok o => o | Err _ => MkOutcome true Disabled 0 None end.

Lemma retry_run_Ok : final_run 7000 (with_publication final_pub final_db) = (Ok retry_outcome, retry_db).
Proof.
  assert ((final_run 7000 (with_publication final_pub final_db)).1 = Ok retry_outcome) as Hr
    by (vm_compute; reflexivity).
  revert Hr. unfold retry_db. generalize (final_run 7000 (with_publication final_pub final_db)).
  intros [res db]. simpl. by intros ->.
Qed.

Lemma finalization_retry_is_exact_witness :
  retry_db = with_publication final_pub final_db ∧ created retry_outcome = false.
Proof.
  destruct (finalization_retry_is_exact true CommitSafety.demo_lease quiet_evaluation 5000 quiet_state quiet_state
    true true (configuration_sha256 final_authority) Attestation.demo_signed final_authority 6000 7000 quiet_state
    (Ok final_outcome) final_db final_pub (Ok retry_outcome) retry_db quiet_inv quiet_prepared final_run_Ok
    final_db_moved ltac:(by vm_compute) final_pub_claimed retry_run_Ok) as [Hdb [Hcr _]].
  exact (conj Hdb Hcr).
Defined.

Lemma attempt_is_finalized_once_witness :
  retry_db = with_publication final_pub final_db ∧ created retry_outcome = false.
Proof.
  destruct (attempt_is_finalized_once true (configuration_sha256 final_authority) Attestation.demo_signed
    final_authority 6000 quiet_state (Ok final_outcome) final_db final_pub true (configuration_sha256 final_authority)
    Attestation.demo_signed final_authority 7000 (Ok retry_outcome) retry_db quiet_inv final_run_Ok final_db_moved
    final_pub_claimed eq_refl retry_run_Ok) as [Hdb Hcr].
  exact (conj Hdb (Hcr retry_outcome eq_refl)).
Defined.

Lemma final_authority_derived :
  derive_authority (Authority.demo_document 3) Metadata.Production = Ok final_authority.
Proof. vm_compute. reflexivity. Qed.

#[local] Existing Instance checksum_laws.

Lemma finalized_publication_is_claimable_witness :
  ∃ b, Execution.from_authority final_authority = Some b.
Proof.
  destruct (finalized_publication_is_claimable (Authority.demo_document 3) Metadata.Production final_authority
    quiet_fence tt 6 None demo_entropy (Scripted [] [10]) Attestation.demo_signed true
    (configuration_sha256 final_authority) 6000 quiet_state (Ok final_outcome) final_db quiet_inv
    final_authority_derived eq_refl demo_signed_Ok final_run_Ok final_db_moved) as (b & o & ts & Hb & _).
  exists b. exact Hb.
Defined.

End FinalSafety.
