(* ===== verification/StateConfig.v ===== *)
(** * Configuration bindings: [src/src/state_config.rs]

    The append-only history of the configurations an instance was bound to, with
    [RhiStateMetadata]'s identity and versions of [src/src/state_metadata.rs] and the
    table [rhi_config_bindings] of [src/src/state_catalog.rs].  Applying a
    configuration with another evidence policy advances every dirty generation, so
    that work planned under the old policy is fenced. *)

From Stdlib Require Import ZArith Lia.
From stdpp Require Import list strings.
From S2P Require Import Prelude.
From S2P Require Import Sql.
From S2P Require Import Interfaces.
From S2P Require Import StateMetadata.
From S2P Require Import ReconciliationJob.
From S2P Require Import SourceState.

(** [nostr::PublicKey]: parsing, the x-only check and the canonical form. *)
Class PublicKeyLibrary (K : Type) : Type := {
  key_from_hex : string → option K;
  key_xonly : K → bool;
  key_to_hex : K → string;
}.

(** [radroots_service_sqlite::MigrationBuildIdentity]: what it is built from. *)
Record BuildFields : Type := MkBuildFields {
  bf_service_version : string;
  bf_service_commit : string;
  bf_lib_revision : string;
  bf_rust_version : string;
  bf_target : string;
  bf_feature_profile : string;
  bf_config_contract_version : Z;
  bf_state_contract_version : Z;
  bf_admin_contract_version : Z;
  bf_status_contract_version : Z;
  bf_provider_contract_version : Z;
}.

Class BuildLibrary (B : Type) : Type := {
  build_new : BuildFields → option B;
  build_fields : B → BuildFields;
}.

(** A build identity answers the fields it was built from. *)
Class BuildLaws (B : Type) `{BuildLibrary B} : Prop :=
  build_new_fields f b : build_new f = Some b → build_fields b = f.

Module Config.
#[local] Existing Instance SourceState.dirty_table.

Definition RHI_CONFIG_SCHEMA_VERSION : Z := 1.
Definition RHI_STATE_BASE_SCHEMA_VERSION : Z := 1.
Definition RHI_STATE_SCHEMA_VERSION : Z := 11.
Definition RHI_ADMIN_CONTRACT_VERSION : Z := 1.
Definition RHI_STATUS_CONTRACT_VERSION : Z := 1.
Definition RHI_PROVIDER_CONTRACT_VERSION : Z := 1.
Definition RHI_CONFIG_BINDING_MAX_GENERATIONS : Z := 1024.

Inductive RhiConfigApplyErrorKind : Type :=
| InvalidInput | Binding | ResourceExhausted | Transaction | CommitOutcomeUnknown | Close.

Inductive ConfigOperationError : Type := OpInvalidInput | OpBinding | OpResourceExhausted | OpStorage.

Record RhiConfigApplyOutcome : Type := MkOutcome {
  out_generation : Z;
  changed : bool;
}.

(** ** Metadata *)

Record RhiStatePolicyVersions : Type := MkVersions {
  v_configuration : Z;
  v_state : Z;
  v_admin : Z;
  v_status : Z;
  v_provider : Z;
}.

(** [RhiStatePolicyVersions::governed] *)
Definition governed : RhiStatePolicyVersions :=
  MkVersions RHI_CONFIG_SCHEMA_VERSION RHI_STATE_SCHEMA_VERSION RHI_ADMIN_CONTRACT_VERSION
    RHI_STATUS_CONTRACT_VERSION RHI_PROVIDER_CONTRACT_VERSION.

(** [RhiStateMetadata] without the paths and the database metadata of
    [radroots_service_sqlite]. *)
Record RhiStateMetadata : Type := MkMetadata {
  md_configuration : bytes;
  md_evidence_policy : bytes;
  md_identity : string;
  md_versions : RhiStatePolicyVersions;
}.

Section metadata.
Context `{Sha256, JsonValue V, !JsonWriter V, PublicKeyLibrary K}.
Import Metadata.

(** [RhiExpectedPublicIdentity::from_hex] *)
Definition identity_from_hex (value : String.string) : result RhiStateMetadataErrorKind String.string :=
  let? key := ok_or (key_from_hex value) Identity in
  reject_if (negb (key_xonly key)) Identity ;?
  reject_if (negb (String.eqb (key_to_hex key) value)) Identity ;?
  Ok (key_to_hex key).

Definition expected_identity (normalized : V) : result RhiStateMetadataErrorKind String.string :=
  let? value :=
    ok_or (match pointer normalized "/identity/service/expected_public_key" with
           | Some v => as_str v | None => None end) Identity in
  identity_from_hex value.

(** [RhiStateMetadata::new]; [database] is the outcome of the library calls that build
    the paths and the database metadata. *)
Definition metadata_new (runtime : RhiBootstrapProfileV1) (profile : RhiConfigProfile) (normalized : V)
    (database : result RhiStateMetadataErrorKind unit) : result RhiStateMetadataErrorKind RhiStateMetadata :=
  require_profile_binding runtime profile ;?
  database ;?
  let? configuration := normalized_config_digest profile normalized in
  let? policy := evidence_policy_digest normalized in
  let? identity := expected_identity normalized in
  Ok (MkMetadata configuration policy identity governed).

Definition matches_configuration (md : RhiStateMetadata) (profile : RhiConfigProfile) (normalized : V) : bool :=
  match normalized_config_digest profile normalized with
  | Ok d => bytes_eqb d (md_configuration md) | Err _ => false end
  && match evidence_policy_digest normalized with
     | Ok d => bytes_eqb d (md_evidence_policy md) | Err _ => false end
  && match expected_identity normalized with
     | Ok i => String.eqb i (md_identity md) | Err _ => false end.
End metadata.

(** ** Bindings and their rows *)

Record ConfigBinding : Type := MkBinding {
  cb_normalized_config_sha256 : bytes;
  cb_evidence_policy_sha256 : bytes;
  cb_service_public_key : string;
  cb_config_contract_version : Z;
  cb_state_contract_version : Z;
  cb_admin_contract_version : Z;
  cb_status_contract_version : Z;
  cb_provider_contract_version : Z;
}.

#[export] Instance binding_eq_dec : EqDecision ConfigBinding.
Proof. solve_decision. Defined.

Definition is_governed (b : ConfigBinding) : bool :=
  (cb_config_contract_version b =? RHI_CONFIG_SCHEMA_VERSION)
  && between RHI_STATE_BASE_SCHEMA_VERSION RHI_STATE_SCHEMA_VERSION (cb_state_contract_version b)
  && (cb_admin_contract_version b =? RHI_ADMIN_CONTRACT_VERSION)
  && (cb_status_contract_version b =? RHI_STATUS_CONTRACT_VERSION)
  && (cb_provider_contract_version b =? RHI_PROVIDER_CONTRACT_VERSION).

Definition is_same_identity_and_policy_except_state_version (b o : ConfigBinding) : bool :=
  bytes_eqb (cb_normalized_config_sha256 b) (cb_normalized_config_sha256 o)
  && bytes_eqb (cb_evidence_policy_sha256 b) (cb_evidence_policy_sha256 o)
  && String.eqb (cb_service_public_key b) (cb_service_public_key o)
  && (cb_config_contract_version b =? cb_config_contract_version o)
  && (cb_admin_contract_version b =? cb_admin_contract_version o)
  && (cb_status_contract_version b =? cb_status_contract_version o)
  && (cb_provider_contract_version b =? cb_provider_contract_version o)
  && (cb_state_contract_version b <? cb_state_contract_version o).

Definition from_metadata (md : RhiStateMetadata) : ConfigBinding :=
  MkBinding (md_configuration md) (md_evidence_policy md) (md_identity md) (v_configuration (md_versions md))
    (v_state (md_versions md)) (v_admin (md_versions md)) (v_status (md_versions md))
    (v_provider (md_versions md)).

Record config_row : Type := ConfigRow {
  cg_generation : Z;
  cg_normalized_config_sha256 : bytes;
  cg_evidence_policy_sha256 : bytes;
  cg_service_public_key : string;
  cg_config_contract_version : Z;
  cg_state_contract_version : Z;
  cg_admin_contract_version : Z;
  cg_status_contract_version : Z;
  cg_provider_contract_version : Z;
  cg_applied_at_unix_s : Z;
  cg_service_version : string;
  cg_service_commit : string;
  cg_lib_revision : string;
  cg_rust_version : string;
  cg_target : string;
  cg_feature_profile : string;
}.

(** [is_ascii_hexdigit() && !is_ascii_uppercase()], [GLOB '*[^0-9a-f]*'] *)
Definition lower_hex_byte (b : Z) : bool := between 48 57 b || between 97 102 b.
Definition lower_hex (s : string) : bool := forallb lower_hex_byte (as_bytes s).
Definition text_size (s : string) : Z := Z.of_nat (String.length s).

(** [PRIMARY KEY (generation)]; [rhi_config_bindings_no_update] *)
#[export] Instance config_table : Table config_row := {|
  row_check := λ r,
    between 1 1024 (cg_generation r) && (length (cg_normalized_config_sha256 r) =? 32)%nat
    && (length (cg_evidence_policy_sha256 r) =? 32)%nat
    && (text_size (cg_service_public_key r) =? 64) && lower_hex (cg_service_public_key r)
    && between 1 U32_MAX (cg_config_contract_version r) && between 1 U32_MAX (cg_state_contract_version r)
    && between 1 U32_MAX (cg_admin_contract_version r) && between 1 U32_MAX (cg_status_contract_version r)
    && between 1 U32_MAX (cg_provider_contract_version r) && between 0 I64_MAX (cg_applied_at_unix_s r)
    && between 1 128 (text_size (cg_service_version r)) && (text_size (cg_service_commit r) =? 40)
    && (text_size (cg_lib_revision r) =? 40) && between 1 128 (text_size (cg_rust_version r))
    && between 1 128 (text_size (cg_target r)) && between 1 128 (text_size (cg_feature_profile r));
  row_guard := λ _ _, false;
  row_conflict := λ r o, cg_generation r =? cg_generation o;
|}.

(** [SELECT MAX(column)]: [NULL] without rows. *)
Definition sql_max {row} (column : row → Z) (rows : list row) : option Z :=
  fold_right (λ r m, Some (match m with Some m => Z.max (column r) m | None => column r end)) None rows.

(** [rhi_config_bindings_guard_insert] *)
Definition guard_insert (rows : list config_row) (r : config_row) : bool :=
  (cg_generation r =? match sql_max cg_generation rows with Some m => m + 1 | None => 1 end)
  && negb (1024 <=? Z.of_nat (length rows))
  && negb (cg_applied_at_unix_s r <? default 0 (sql_max cg_applied_at_unix_s rows)).

Record config_db : Type := ConfigDb {
  cf_bindings : list config_row;
  cf_jobs : Job.job_db;
}.

(** ** History *)

Section history.
Context `{PublicKeyLibrary K, BuildLibrary B}.

Record HistoryEntry : Type := MkEntry {
  he_generation : Z;
  he_binding : ConfigBinding;
  he_applied_at_unix_s : Z;
  he_build : B;
}.

Definition exact_digest (col : bytes) : result ConfigOperationError bytes :=
  ok_or (filter_opt (λ b, (length b =? 32)%nat) (Some col)) OpBinding.

(** [field_bytes] and [substr(field, 1, maximum + 1)]; a text of at most [maximum]
    bytes is selected whole. *)
Definition bounded_text (col : string) (minimum maximum : Z) : result ConfigOperationError string :=
  let? size := ok_or (filter_opt (between minimum maximum) (Some (text_size col))) OpBinding in
  let value := String.substring 0 (Z.to_nat maximum + 1) col in
  reject_if (negb (text_size value =? size)) OpBinding ;?
  Ok value.

Definition bounded_u16 (col minimum maximum : Z) : result ConfigOperationError Z :=
  ok_or (filter_opt (between minimum maximum) (try_from U16_MAX col)) OpBinding.

Definition positive_u32 (col : Z) : result ConfigOperationError Z :=
  ok_or (filter_opt (λ v, negb (v =? 0)) (try_from U32_MAX col)) OpBinding.

Definition nonnegative_u64 (col : Z) : result ConfigOperationError Z := ok_or (try_from U64_MAX col) OpBinding.

Definition decode_entry (r : config_row) : result ConfigOperationError HistoryEntry :=
  let? generation := bounded_u16 (cg_generation r) 1 RHI_CONFIG_BINDING_MAX_GENERATIONS in
  let? normalized := exact_digest (cg_normalized_config_sha256 r) in
  let? policy := exact_digest (cg_evidence_policy_sha256 r) in
  let? key := bounded_text (cg_service_public_key r) 64 64 in
  reject_if (negb (lower_hex key) || is_null (key_from_hex key)) OpBinding ;?
  let? config := positive_u32 (cg_config_contract_version r) in
  let? state := positive_u32 (cg_state_contract_version r) in
  let? admin := positive_u32 (cg_admin_contract_version r) in
  let? status := positive_u32 (cg_status_contract_version r) in
  let? provider := positive_u32 (cg_provider_contract_version r) in
  let? applied_at := nonnegative_u64 (cg_applied_at_unix_s r) in
  let? service_version := bounded_text (cg_service_version r) 1 128 in
  let? service_commit := bounded_text (cg_service_commit r) 40 40 in
  let? lib_revision := bounded_text (cg_lib_revision r) 40 40 in
  let? rust_version := bounded_text (cg_rust_version r) 1 128 in
  let? target := bounded_text (cg_target r) 1 128 in
  let? feature_profile := bounded_text (cg_feature_profile r) 1 128 in
  let? build :=
    ok_or (build_new (MkBuildFields service_version service_commit lib_revision rust_version target
                        feature_profile config state admin status provider)) OpBinding in
  Ok (MkEntry generation (MkBinding normalized policy key config state admin status provider) applied_at build).

Definition generation_order : config_row → config_row → comparison := cmp_on cg_generation Z.compare.

Definition READ_HISTORY_SQL (rows : list config_row) : list config_row :=
  take 1025 (sort_by generation_order rows).

Definition read_history (db : config_db) : result ConfigOperationError (list HistoryEntry) :=
  let rows := READ_HISTORY_SQL (cf_bindings db) in
  reject_if (RHI_CONFIG_BINDING_MAX_GENERATIONS <? Z.of_nat (length rows)) OpResourceExhausted ;?
  collect decode_entry rows.

Definition entry_valid (index : nat) (previous_time : Z) (e : HistoryEntry) : bool :=
  let b := he_binding e in let f := build_fields (he_build e) in
  (he_generation e =? Z.of_nat index + 1)
  && negb (he_applied_at_unix_s e <? previous_time)
  && is_governed b
  && (bf_config_contract_version f =? cb_config_contract_version b)
  && (bf_state_contract_version f =? cb_state_contract_version b)
  && (bf_admin_contract_version f =? cb_admin_contract_version b)
  && (bf_status_contract_version f =? cb_status_contract_version b)
  && (bf_provider_contract_version f =? cb_provider_contract_version b).

Fixpoint validate_entries (index : nat) (previous_time : Z) (history : list HistoryEntry) :
    result ConfigOperationError unit :=
  match history with
  | [] => Ok tt
  | e :: history =>
      reject_if (negb (entry_valid index previous_time e)) OpBinding ;?
      validate_entries (S index) (he_applied_at_unix_s e) history
  end.

Definition validate_history (history : list HistoryEntry) : result ConfigOperationError unit :=
  validate_entries 0 0 history.

(** ** Operations *)

Definition binding_row (generation : Z) (b : ConfigBinding) (applied_at : Z) (build : B) : config_row :=
  let f := build_fields build in
  ConfigRow generation (cb_normalized_config_sha256 b) (cb_evidence_policy_sha256 b) (cb_service_public_key b)
    (cb_config_contract_version b) (cb_state_contract_version b) (cb_admin_contract_version b)
    (cb_status_contract_version b) (cb_provider_contract_version b) applied_at (bf_service_version f)
    (bf_service_commit f) (bf_lib_revision f) (bf_rust_version f) (bf_target f) (bf_feature_profile f).

Definition insert_binding (generation : Z) (b : ConfigBinding) (applied_at : Z) (build : B) (db : config_db) :
    result ConfigOperationError config_db :=
  let? applied_at := ok_or (try_from I64_MAX applied_at) OpInvalidInput in
  let? rows :=
    map_err (λ _, OpStorage)
      (insert_row (guard_insert (cf_bindings db)) (binding_row generation b applied_at build) (cf_bindings db)) in
  Ok (ConfigDb rows (cf_jobs db)).

Definition other_policy (policy : bytes) (r : Job.dirty_row) : bool :=
  negb (bytes_eqb (Job.dirty_policy_sha256 r) policy).

(** READ_DIRTY_POLICY_BOUNDS_SQL *)
Definition dirty_policy_bounds (policy : bytes) (rows : list Job.dirty_row) : Z * Z :=
  let others := List.filter (other_policy policy) rows in
  (Z.of_nat (length (List.filter (λ r, I64_MAX <=? Job.dirty_generation r) others)),
   default 0 (sql_max Job.dirty_updated_at_unix_s others)).

Definition advance_dirty (policy : bytes) (updated_at : Z) (r : Job.dirty_row) : Job.dirty_row :=
  Job.DirtyRow (Job.dirty_trade_id r) (Job.dirty_generation r + 1) policy updated_at.

Definition advance_dirty_policy (policy : bytes) (updated_at : Z) (db : config_db) :
    result ConfigOperationError config_db :=
  let rows := Job.dirty_generations (cf_jobs db) in
  let '(exhausted, latest) := dirty_policy_bounds policy rows in
  let? latest := ok_or (try_from U64_MAX latest) OpStorage in
  reject_if (negb (exhausted =? 0)) OpResourceExhausted ;?
  reject_if (updated_at <? latest) OpInvalidInput ;?
  let? updated_at := ok_or (try_from I64_MAX updated_at) OpInvalidInput in
  let? (rows, _) :=
    map_err (λ _, OpStorage) (update_rows (other_policy policy) (advance_dirty policy updated_at) rows) in
  Ok (ConfigDb (cf_bindings db) (Job.JobDb rows (Job.jobs (cf_jobs db)))).

Definition bind_or_verify_op (expected : ConfigBinding) (applied_at : Z) (build : B) (db : config_db) :
    result ConfigOperationError (unit * config_db) :=
  let? history := read_history db in
  let? (history, db) :=
    match history with
    | [] =>
        let? db := insert_binding 1 expected applied_at build db in
        let? history := read_history db in
        Ok (history, db)
    | _ => Ok (history, db)
    end in
  validate_history history ;?
  match list.last history with
  | Some actual =>
      if bool_decide (he_binding actual = expected) then Ok (tt, db)
      else if is_same_identity_and_policy_except_state_version (he_binding actual) expected then
        reject_if (RHI_CONFIG_BINDING_MAX_GENERATIONS <=? he_generation actual) OpResourceExhausted ;?
        reject_if (applied_at <? he_applied_at_unix_s actual) OpInvalidInput ;?
        let? db := insert_binding (he_generation actual + 1) expected applied_at build db in
        Ok (tt, db)
      else Err OpBinding
  | None => Err OpBinding
  end.

Definition verify_binding_op (expected : ConfigBinding) (db : config_db) :
    result ConfigOperationError (unit * config_db) :=
  let? history := read_history db in
  validate_history history ;?
  match list.last history with
  | Some actual => if bool_decide (he_binding actual = expected) then Ok (tt, db) else Err OpBinding
  | None => Err OpBinding
  end.

Definition current_generation_op (db : config_db) : result ConfigOperationError (Z * config_db) :=
  let? history := read_history db in
  validate_history history ;?
  let? entry := ok_or (list.last history) OpBinding in
  Ok (he_generation entry, db).

Definition append_configuration_op (current candidate : ConfigBinding) (applied_at : Z) (build : B)
    (db : config_db) : result ConfigOperationError (RhiConfigApplyOutcome * config_db) :=
  let? history := read_history db in
  validate_history history ;?
  let? latest := ok_or (list.last history) OpBinding in
  reject_if (negb (bool_decide (he_binding latest = current))) OpBinding ;?
  if bool_decide (he_binding latest = candidate) then Ok (MkOutcome (he_generation latest) false, db)
  else
    reject_if (RHI_CONFIG_BINDING_MAX_GENERATIONS <=? he_generation latest) OpResourceExhausted ;?
    reject_if (applied_at <? he_applied_at_unix_s latest) OpInvalidInput ;?
    let generation := he_generation latest + 1 in
    let? db :=
      if bytes_eqb (cb_evidence_policy_sha256 (he_binding latest)) (cb_evidence_policy_sha256 candidate)
      then Ok db
      else advance_dirty_policy (cb_evidence_policy_sha256 candidate) applied_at db in
    let? db := insert_binding generation candidate applied_at build db in
    let? updated := read_history db in
    validate_history updated ;?
    let? actual := ok_or (list.last updated) OpBinding in
    reject_if (negb (he_generation actual =? generation) || negb (bool_decide (he_binding actual = candidate)))
      OpBinding ;?
    Ok (MkOutcome generation true, db).

Definition map_transaction_error (e : tx_error ConfigOperationError) : RhiConfigApplyErrorKind :=
  if commit_outcome_unknown e then CommitOutcomeUnknown
  else match operation_error e with
       | Some OpInvalidInput => InvalidInput
       | Some OpBinding => Binding
       | Some OpResourceExhausted => ResourceExhausted
       | Some OpStorage | None => Transaction
       end.

Context `{TransactionHost config_db}.

Definition run {A} (op : config_db → result ConfigOperationError (A * config_db)) (db : config_db) :
    result RhiConfigApplyErrorKind A * config_db :=
  let '(res, db) := transaction op db in (map_err map_transaction_error res, db).

Definition bind_or_verify (expected : RhiStateMetadata) (applied_at : Z) (build : B) :=
  run (bind_or_verify_op (from_metadata expected) applied_at build).

Definition verify_binding (expected : RhiStateMetadata) := run (verify_binding_op (from_metadata expected)).

Definition current_generation := run current_generation_op.

Definition append_configuration (current candidate : RhiStateMetadata) (applied_at : Z) (build : B) :=
  run (append_configuration_op (from_metadata current) (from_metadata candidate) applied_at build).
End history.

End Config.
