(* ===== verification/StateConfigSafety.v ===== *)
(** * Correctness of configuration bindings

    The history of [StateConfig] is consecutive, ordered in time, bounded and
    append-only under every operation; applying a configuration is atomic; and a
    change of the evidence policy fences every attempt planned before it. *)

From Stdlib Require Import ZArith Lia Sorted.
From stdpp Require Import sets list strings relations.
From S2P Require Import Prelude.
From S2P Require Import Sql.
From S2P Require Import Interfaces.
From S2P Require Import StateMetadata.
From S2P Require Import ReconciliationJob.
From S2P Require Import StateTrade.
From S2P Require Import SourceState.
From S2P Require Import SourceCommit.
From S2P Require Import ReconciliationAttempt.
From S2P Require Import ReconciliationReplay.
From S2P Require Import ReconciliationManifest.
From S2P Require Import ReconciliationCommit.
From S2P Require Import ReconciliationCommitSafety.
From S2P Require Import FinalizationState.
From S2P Require Import ReconciliationFinalization.
From S2P Require Import StateConfig.

Module ConfigSafety.
Import Config.
#[local] Existing Instance SourceState.dirty_table.

(** ** The invariant *)

Record config_inv (db : config_db) : Prop := {
  ci_rows : rows_ok (cf_bindings db) = true;
  ci_order i r : cf_bindings db !! i = Some r → cg_generation r = Z.of_nat i + 1;
  ci_times : StronglySorted (λ r o, cg_applied_at_unix_s r ≤ cg_applied_at_unix_s o) (cf_bindings db);
  ci_bounded : Z.of_nat (length (cf_bindings db)) ≤ RHI_CONFIG_BINDING_MAX_GENERATIONS;
  ci_dirty : rows_ok (Job.dirty_generations (cf_jobs db)) = true;
}.

Lemma config_conflict_sym (r o : config_row) : row_conflict r o = row_conflict o r.
Proof. apply Z.eqb_sym. Qed.

Lemma sql_max_Some {row} (f : row → Z) rows m :
  sql_max f rows = Some m → (∃ r, r ∈ rows ∧ f r = m) ∧ ∀ r, r ∈ rows → f r ≤ m.
Proof.
  revert m; induction rows as [|r rows IH]; intros m; simpl; [done|]. fold (sql_max f rows).
  destruct (sql_max f rows) as [k|] eqn:E; intros [= <-].
  - destruct (IH k eq_refl) as [(o & Ho & <-) Hall]. split.
    + destruct (Z.max_spec (f r) (f o)) as [[_ ->]|[_ ->]]; [exists o|exists r]; split; [by right|done|by left|done].
    + intros x [->|Hx]%elem_of_cons; [lia|]. specialize (Hall x Hx). lia.
  - assert (rows = []) as ->.
    { destruct rows as [|x rows]; [done|]. simpl in E. discriminate E. }
    split; [exists r; split; [by left|done]|]. intros x [->|?%elem_of_nil]%elem_of_cons; [lia|done].
Qed.

Lemma sql_max_None {row} (f : row → Z) rows : sql_max f rows = None → rows = [].
Proof. by destruct rows. Qed.

(** In a consecutive history the largest generation is the length. *)
Lemma next_generation db :
  config_inv db →
  match sql_max cg_generation (cf_bindings db) with Some m => m + 1 | None => 1 end
    = Z.of_nat (length (cf_bindings db)) + 1.
Proof.
  intros [_ Hord _ _ _]. destruct (sql_max _ _) as [m|] eqn:E.
  - apply sql_max_Some in E as [(r & Hr & <-) Hall]. apply list_elem_of_lookup in Hr as [i Hi].
    pose proof (Hord i r Hi) as Hg. pose proof (lookup_lt_Some _ _ _ Hi) as Hlt.
    destruct (lookup_lt_is_Some_2 (cf_bindings db) (length (cf_bindings db) - 1)) as [o Ho]; [lia|].
    pose proof (Hord _ o Ho) as Hgo. specialize (Hall o ltac:(by eapply list_elem_of_lookup_2)). lia.
  - apply sql_max_None in E. rewrite E. done.
Qed.

Lemma sorted_snoc {A} (R : A → A → Prop) l x :
  StronglySorted R l → (∀ y, y ∈ l → R y x) → StronglySorted R (l ++ [x]).
Proof.
  induction 1 as [|y l Hl IH Hy]; intros Hx; simpl; [by repeat constructor|].
  constructor; [apply IH; intros z Hz; apply Hx; by right|].
  apply List.Forall_app. split; [done|]. constructor; [apply Hx; by left|done].
Qed.

Section bindings.
Context `{PublicKeyLibrary K, BuildLibrary B}.
#[local] Abbreviation HistoryEntry := (HistoryEntry (B := B)).

Lemma insert_binding_Ok generation b applied_at (build : B) db db' :
  config_inv db → insert_binding generation b applied_at build db = Ok db' →
  generation = Z.of_nat (length (cf_bindings db)) + 1 ∧ 0 ≤ applied_at ≤ I64_MAX ∧
  (∀ r, r ∈ cf_bindings db → cg_applied_at_unix_s r ≤ applied_at) ∧
  db' = ConfigDb (cf_bindings db ++ [binding_row generation b applied_at build]) (cf_jobs db) ∧ config_inv db'.
Proof.
  intros Hinv Hi. unfold insert_binding in Hi. bind Hi as at_s Hat. apply ok_or_Ok, try_from_Some in Hat as [-> Hat].
  bind Hi as rows Hrows. apply map_err_Ok in Hrows. injection Hi as <-.
  pose proof (insert_row_ok config_conflict_sym _ _ _ _ (ci_rows _ Hinv) Hrows) as Hok.
  apply insert_row_Ok in Hrows as (-> & Hg & _). unfold guard_insert in Hg. to_prop.
  match goal with E : cg_generation _ = _ |- _ => rewrite (next_generation _ Hinv) in E; simpl in E; rename E into Hgen end.
  assert (∀ r, r ∈ cf_bindings db → cg_applied_at_unix_s r ≤ applied_at) as Htime.
  { intros r Hr. simpl in *. destruct (sql_max cg_applied_at_unix_s (cf_bindings db)) as [m|] eqn:E.
    - apply sql_max_Some in E as [_ Hall]. specialize (Hall r Hr). simpl in *. lia.
    - apply sql_max_None in E. rewrite E in Hr. by apply elem_of_nil in Hr. }
  destruct Hinv as [_ Hord Ht Hlen Hd]. split_and!; try done; try lia. split; simpl; try done.
  - intros i r [Hr|[Hge Hr]]%lookup_app_Some; [by apply Hord|].
    apply list_lookup_singleton_Some in Hr as [Hi <-]. simpl. lia.
  - by apply sorted_snoc.
  - rewrite length_app. simpl. unfold RHI_CONFIG_BINDING_MAX_GENERATIONS. lia.
Qed.

(** ** Reading the history *)

Definition row_binding (r : config_row) : ConfigBinding :=
  MkBinding (cg_normalized_config_sha256 r) (cg_evidence_policy_sha256 r) (cg_service_public_key r)
    (cg_config_contract_version r) (cg_state_contract_version r) (cg_admin_contract_version r)
    (cg_status_contract_version r) (cg_provider_contract_version r).

Lemma substring_all n s : (String.length s ≤ n)%nat → String.substring 0 n s = s.
Proof.
  revert n; induction s as [|c s IH]; intros [|n] Hn; simpl in *; try done; try lia. by rewrite IH by lia.
Qed.

Lemma config_bounded_text_Ok col lo hi s :
  0 ≤ lo → bounded_text col lo hi = Ok s → s = col ∧ lo ≤ text_size col ≤ hi.
Proof.
  intros Hlo. unfold bounded_text. intros Hb. bind Hb as n Hn. apply ok_or_Ok, filter_opt_Some in Hn as [Hn Hr].
  injection Hn as <-. apply between_true in Hr. bind Hb as u Hu. injection Hb as <-. split; [|done].
  apply substring_all. unfold text_size in Hr. lia.
Qed.

Lemma decode_entry_Ok r (e : HistoryEntry) :
  decode_entry r = Ok e →
  he_generation e = cg_generation r ∧ he_binding e = row_binding r ∧
  he_applied_at_unix_s e = cg_applied_at_unix_s r.
Proof.
  unfold decode_entry, bounded_u16, exact_digest, positive_u32, nonnegative_u64. intros Hd. inv_ok.
  repeat match goal with E : bounded_text _ _ _ = Ok _ |- _ => apply config_bounded_text_Ok in E as [-> _]; [|done] end.
  inv_int. unfold row_binding. simplify_eq. done.
Qed.

Lemma sorted_generations db : config_inv db → sorted_by generation_order (cf_bindings db).
Proof.
  intros [_ Hord _ _ _]. revert Hord. generalize (cf_bindings db). intros rows.
  assert (∀ k, (∀ i r, rows !! i = Some r → cg_generation r = Z.of_nat (k + i)) →
    sorted_by generation_order rows ∧ Forall (λ r, Z.of_nat k ≤ cg_generation r) rows) as Hgen.
  { induction rows as [|r rows IH]; intros k Hord; [by split; constructor|].
    destruct (IH (S k)) as [Hs Hge].
    { intros i o Ho. rewrite (Hord (S i) o Ho). f_equal. lia. }
    pose proof (Hord 0%nat r eq_refl) as Hr. rewrite Nat.add_0_r in Hr. split; constructor; [done| |lia|].
    - eapply Forall_impl; [|exact Hge]. intros o Ho. cbv beta in Ho. unfold generation_order, cmp_on, is_le.
      rewrite Hr. destruct (Z.compare_spec (Z.of_nat k) (cg_generation o)); [done|done|lia].
    - eapply Forall_impl; [|exact Hge]. intros o Ho. cbv beta in Ho. lia. }
  intros Hord. apply (Hgen 1%nat). intros i r Hi. rewrite (Hord i r Hi). lia.
Qed.

Lemma sort_by_same {A} (cmp : A → A → comparison) l : sorted_by cmp l → sort_by cmp l = l.
Proof.
  induction 1 as [|x l _ IH Hall]; [done|]. simpl. rewrite IH. destruct l as [|y l]; [done|]. simpl.
  inversion Hall as [|? ? Hxy _]; subst. by destruct (is_le (cmp x y)).
Qed.

Lemma read_history_rows db :
  config_inv db → read_history (B := B) db = collect decode_entry (cf_bindings db).
Proof.
  intros Hinv. unfold read_history, READ_HISTORY_SQL. rewrite sort_by_same by (by apply sorted_generations).
  pose proof (ci_bounded _ Hinv) as Hlen. unfold RHI_CONFIG_BINDING_MAX_GENERATIONS in *.
  rewrite take_ge by lia. by rewrite (proj2 (Z.ltb_ge _ _)) by done.
Qed.

(** The last entry read is the last row. *)
Lemma read_history_last db (history : list HistoryEntry) :
  config_inv db → read_history db = Ok history →
  length history = length (cf_bindings db) ∧
  ∀ e, list.last history = Some e →
    ∃ r, list.last (cf_bindings db) = Some r ∧ he_binding e = row_binding r ∧
      he_generation e = Z.of_nat (length (cf_bindings db)) ∧ he_applied_at_unix_s e = cg_applied_at_unix_s r.
Proof.
  intros Hinv. rewrite read_history_rows, collect_Ok by done. intros Hall. split; [by rewrite (Forall2_length Hall)|].
  intros e He. rewrite last_lookup in He. destruct (Forall2_lookup_r _ _ _ _ _ Hall He) as (r & Hr & Hd).
  pose proof (ci_order _ Hinv _ _ Hr) as Hg. apply decode_entry_Ok in Hd as (Hd1 & Hd2 & Hd3).
  exists r. rewrite last_lookup, (Forall2_length Hall). split_and!; try done. rewrite Hd1, Hg.
  apply lookup_lt_Some in Hr. rewrite (Forall2_length Hall) in Hr. lia.
Qed.

(** ** Applying a configuration *)

(** A dirty generation recorded under another evidence policy moves to its successor, under
    the new policy at the time of the change; one under the new policy stays. *)
Definition policy_moved (policy : bytes) (applied_at : Z) (r r' : Job.dirty_row) : Prop :=
  (Job.dirty_policy_sha256 r = policy → r' = r) ∧
  (Job.dirty_policy_sha256 r ≠ policy →
     Job.dirty_trade_id r' = Job.dirty_trade_id r ∧
     Job.dirty_generation r' = Job.dirty_generation r + 1 ∧ Job.dirty_generation r < I64_MAX ∧
     Job.dirty_policy_sha256 r' = policy ∧
     Job.dirty_updated_at_unix_s r' = applied_at ∧ Job.dirty_updated_at_unix_s r ≤ applied_at).

(** What an applied change has done. *)
Record applied (current candidate : ConfigBinding) (applied_at : Z) (build : B) (db db' : config_db) : Prop := {
  ap_changed : current ≠ candidate;
  ap_latest : ∃ r, list.last (cf_bindings db) = Some r ∧ row_binding r = current ∧
                   cg_applied_at_unix_s r ≤ applied_at;
  ap_bindings : ∃ row, cf_bindings db' = cf_bindings db ++ [row] ∧
    cg_generation row = Z.of_nat (length (cf_bindings db)) + 1 ∧ row_binding row = candidate ∧
    cg_applied_at_unix_s row = applied_at;
  ap_same_policy : cb_evidence_policy_sha256 current = cb_evidence_policy_sha256 candidate →
                   cf_jobs db' = cf_jobs db;
  ap_new_policy : cb_evidence_policy_sha256 current ≠ cb_evidence_policy_sha256 candidate →
    Job.jobs (cf_jobs db') = Job.jobs (cf_jobs db) ∧
    Forall2 (policy_moved (cb_evidence_policy_sha256 candidate) applied_at)
      (Job.dirty_generations (cf_jobs db)) (Job.dirty_generations (cf_jobs db'));
}.

Lemma advance_dirty_policy_Ok policy applied_at db db' :
  config_inv db → advance_dirty_policy policy applied_at db = Ok db' →
  config_inv db' ∧ cf_bindings db' = cf_bindings db ∧ Job.jobs (cf_jobs db') = Job.jobs (cf_jobs db) ∧
  Forall2 (policy_moved policy applied_at) (Job.dirty_generations (cf_jobs db)) (Job.dirty_generations (cf_jobs db')).
Proof.
  intros Hinv Ha. unfold advance_dirty_policy in Ha. destruct (dirty_policy_bounds _ _) as [ex la].
  bind Ha as la' Hla. bind Ha as u1 Hex. bind Ha as u2 Htime. bind Ha as at_s Hat.
  apply ok_or_Ok, try_from_Some in Hat as [-> _]. bind Ha as [rows n] Hup. apply map_err_Ok in Hup.
  injection Ha as <-. pose proof (update_rows_ok SourceState.dirty_conflict_sym _ _ _ _ _ (ci_dirty _ Hinv) Hup) as Hok.
  apply update_rows_Ok in Hup as (-> & _ & Hall). simpl. split_and!; try done.
  - by destruct Hinv.
  - apply Forall2_fmap_r, Forall_Forall2_diag, Forall_forall. intros r Hr. rewrite List.Forall_forall in Hall.
    specialize (Hall r Hr). unfold policy_moved, apply_where, other_policy in *. simpl in *.
    destruct (bytes_eqb (Job.dirty_policy_sha256 r) policy) eqn:E; simpl in *; [apply bytes_eqb_true in E; split; [done|by intros []]|].
    split; [intros Hp; by rewrite Hp, bytes_eqb_refl in E|intros _]. destruct (Hall eq_refl) as [Hg Hc].
    unfold Job.dirty_ok in Hc. simpl in *. to_prop. inv_int. split_and!; done || lia.
Qed.

Lemma append_op_Ok current candidate applied_at (build : B) db out db' :
  config_inv db → append_configuration_op current candidate applied_at build db = Ok (out, db') →
  config_inv db' ∧ out_generation out = Z.of_nat (length (cf_bindings db')) ∧
  if changed out then applied current candidate applied_at build db db'
  else db' = db ∧ current = candidate.
Proof.
  intros Hinv Ha. unfold append_configuration_op in Ha. bind Ha as history Hread. bind Ha as u1 Hvalid.
  bind Ha as latest Hlast. apply ok_or_Ok in Hlast. bind Ha as u2 Hcur. apply reject_if_Ok in Hcur. to_prop.
  apply (read_history_last _ _ Hinv) in Hread as [_ Hread].
  destruct (Hread _ Hlast) as (r & Hr & Hb & Hg & Ht). subst current.
  destruct (bool_decide (_ = candidate)) eqn:Hsame.
  - to_prop. injection Ha as <- <-. by rewrite <- Hsame.
  - to_prop. bind Ha as u3 Hfull. bind Ha as u4 Htime. apply reject_if_Ok in Htime. to_prop.
    bind Ha as db1 Hadv. bind Ha as db2 Hins. bind Ha as updated Hupd. bind Ha as u5 Hv. bind Ha as actual Hac.
    bind Ha as u6 Hch. injection Ha as <- <-. simpl.
    assert (config_inv db1 ∧ cf_bindings db1 = cf_bindings db) as [Hinv1 Hb1].
    { destruct (bytes_eqb _ _); [by injection Hadv as <-|].
      by apply advance_dirty_policy_Ok in Hadv as (? & ? & _). }
    eapply insert_binding_Ok in Hins as (Hgen & _ & _ & -> & Hinv2); [|done]. simpl.
    rewrite Hb1, length_app in *. simpl. split_and!; [done|lia|]. split; simpl; try done.
    + exists r. rewrite <- Hb. split_and!; [done|done|lia].
    + eexists. split; [by rewrite Hgen|]. by destruct candidate.
    + intros Heq. rewrite Heq, bytes_eqb_refl in Hadv. by injection Hadv as <-.
    + intros Hne. destruct (bytes_eqb _ _) eqn:E in Hadv; [by apply bytes_eqb_true in E|].
      by apply advance_dirty_policy_Ok in Hadv as (_ & _ & ?).
Qed.

(** ** Binding at startup *)

Definition row_fields (r : config_row) : BuildFields :=
  MkBuildFields (cg_service_version r) (cg_service_commit r) (cg_lib_revision r) (cg_rust_version r)
    (cg_target r) (cg_feature_profile r) (cg_config_contract_version r) (cg_state_contract_version r)
    (cg_admin_contract_version r) (cg_status_contract_version r) (cg_provider_contract_version r).

Lemma bounded_text_total col lo hi : 0 ≤ lo → between lo hi (text_size col) = true → bounded_text col lo hi = Ok col.
Proof.
  intros Hlo Hb. unfold bounded_text. simpl. rewrite Hb. simpl. apply between_true in Hb.
  rewrite substring_all by (unfold text_size in Hb; lia). by rewrite Z.eqb_refl.
Qed.

Lemma positive_u32_total v : between 1 U32_MAX v = true → positive_u32 v = Ok v.
Proof.
  intros Hv. apply between_true in Hv. unfold positive_u32.
  rewrite (proj2 (try_from_Some U32_MAX v v)) by (split; [done|lia]). simpl.
  by rewrite (proj2 (Z.eqb_neq _ _)) by lia.
Qed.

(** A row the table admits is read back whenever its key and build are. *)
Lemma decode_entry_total r (b : B) :
  row_check r = true → is_null (key_from_hex (cg_service_public_key r)) = false →
  build_new (row_fields r) = Some b →
  decode_entry r = Ok (MkEntry (cg_generation r) (row_binding r) (cg_applied_at_unix_s r) b).
Proof.
  intros Hc Hk Hb. simpl in Hc. do 16 apply andb_true_iff in Hc as [Hc ?].
  unfold decode_entry, bounded_u16, exact_digest, nonnegative_u64.
  repeat match goal with E : (text_size ?x =? ?n) = true |- _ =>
    assert (between n n (text_size x) = true) by (apply between_true; apply Z.eqb_eq in E; lia); clear E end.
  rewrite !bounded_text_total, !positive_u32_total by done.
  pose proof (proj1 (between_true _ _ _) Hc) as Hg. rewrite (proj2 (try_from_Some U16_MAX _ (cg_generation r))).
  2: { split; [done|]. unfold_max. lia. }
  match goal with E : between 0 I64_MAX _ = true |- _ => apply between_true in E end.
  rewrite (proj2 (try_from_Some U64_MAX _ (cg_applied_at_unix_s r))) by (split; [done|]; unfold_max; lia).
  simpl. unfold RHI_CONFIG_BINDING_MAX_GENERATIONS. rewrite Hc. simpl.
  repeat match goal with E : _ = true |- context [if ?c then Some _ else None] => rewrite E; simpl end.
  rewrite Hk. simpl.
  unfold row_fields in Hb. by rewrite Hb.
Qed.

Lemma validate_entries_app n t h1 (h2 : list HistoryEntry) :
  validate_entries n t (h1 ++ h2) =
    (validate_entries n t h1 ;?
     validate_entries (n + length h1) (default t (he_applied_at_unix_s <$> list.last h1)) h2).
Proof.
  revert n t; induction h1 as [|e h1 IH]; intros n t; [by rewrite Nat.add_0_r|]. rewrite list.last_cons. simpl.
  destruct (entry_valid n t e); simpl; [|done]. rewrite IH, Nat.add_succ_r.
  by destruct (list.last h1).
Qed.

Lemma bind_op_Ok expected applied_at (build : B) db u db' :
  config_inv db → bind_or_verify_op expected applied_at build db = Ok (u, db') →
  config_inv db' ∧ cf_jobs db' = cf_jobs db ∧
  (db' = db ∨ cf_bindings db' = cf_bindings db ++
     [binding_row (Z.of_nat (length (cf_bindings db)) + 1) expected applied_at build]).
Proof.
  intros Hinv Hb. unfold bind_or_verify_op in Hb. bind Hb as history Hread.
  bind Hb as [history1 db1] Hfirst. bind Hb as u1 Hvalid.
  assert (config_inv db1 ∧ cf_jobs db1 = cf_jobs db ∧ (db1 = db ∨ (cf_bindings db = [] ∧
    cf_bindings db1 = [binding_row 1 expected applied_at build] ∧
    ∀ e, list.last history1 = Some e → he_binding e = expected))) as (Hinv1 & Hj & Hcase).
  { destruct history as [|e history]; [|injection Hfirst as _ <-; by auto].
    bind Hfirst as db2 Hins. bind Hfirst as h2 Hr2. injection Hfirst as <- <-.
    eapply insert_binding_Ok in Hins as (_ & _ & _ & -> & Hinv1); [|done].
    apply (read_history_last _ _ Hinv) in Hread as [Hlen _]. simpl in Hlen. symmetry in Hlen.
    apply nil_length_inv in Hlen. split_and!; [done|done|]. right. apply (read_history_last _ _ Hinv1) in Hr2 as [_ Hr2].
    simpl in *. rewrite Hlen in *. split_and!; [done|done|]. intros e (r & [= <-] & -> & _)%Hr2. by destruct expected. }
  destruct (list.last history1) as [actual|] eqn:Hlast; [|done]. destruct (bool_decide _) eqn:Hsame.
  - injection Hb as <- <-. split_and!; [done|done|]. destruct Hcase as [->|(Hnil & -> & _)]; [by left|right].
    by rewrite Hnil.
  - to_prop. destruct (is_same_identity_and_policy_except_state_version _ _) eqn:Hs; [|done].
    bind Hb as u2 Hfull. bind Hb as u3 Htime. bind Hb as db2 Hins. injection Hb as <- <-.
    destruct Hcase as [->|(_ & _ & He)]; [|by destruct (Hsame (He _ eq_refl))].
    eapply insert_binding_Ok in Hins as (Hgen & _ & _ & -> & ?); [|done]. split_and!; [done|done|]. right.
    simpl. by rewrite Hgen.
Qed.

(** The contract versions a build of this code carries. *)
Definition build_governed (f : BuildFields) : Prop :=
  bf_config_contract_version f = RHI_CONFIG_SCHEMA_VERSION ∧ bf_state_contract_version f = RHI_STATE_SCHEMA_VERSION ∧
  bf_admin_contract_version f = RHI_ADMIN_CONTRACT_VERSION ∧
  bf_status_contract_version f = RHI_STATUS_CONTRACT_VERSION ∧
  bf_provider_contract_version f = RHI_PROVIDER_CONTRACT_VERSION.

Lemma insert_binding_row generation b applied_at (build : B) db db' :
  insert_binding generation b applied_at build db = Ok db' →
  row_check (binding_row generation b applied_at build) = true.
Proof.
  unfold insert_binding. intros Hi. bind Hi as at_s Hat. apply ok_or_Ok, try_from_Some in Hat as [-> _].
  bind Hi as rows Hrows. apply map_err_Ok, insert_row_Ok in Hrows as (_ & _ & Hadm).
  unfold row_admissible in Hadm. by to_prop.
Qed.

(** A row of a build of this code is read back as a valid next entry. *)
Lemma read_history_snoc f db (history : list HistoryEntry) b applied_at (build : B) db' :
  BuildLaws B → build_new f = Some build → build_governed f →
  config_inv db → read_history db = Ok history → validate_history history = Ok tt →
  is_null (key_from_hex (cb_service_public_key b)) = false → is_governed b = true →
  cb_state_contract_version b = RHI_STATE_SCHEMA_VERSION →
  insert_binding (Z.of_nat (length (cf_bindings db)) + 1) b applied_at build db = Ok db' →
  ∃ e, read_history db' = Ok (history ++ [e]) ∧ validate_history (history ++ [e]) = Ok tt ∧ he_binding e = b.
Proof.
  intros Hlaws Hnew (Hf1 & Hf2 & Hf3 & Hf4 & Hf5) Hinv Hread Hvalid Hkey Hgov Hstate Hins.
  pose proof (insert_binding_row _ _ _ _ _ _ Hins) as Hrow.
  eapply insert_binding_Ok in Hins as (_ & _ & Htime & -> & Hinv'); [|done].
  pose proof (build_new_fields _ _ Hnew) as Hfields. unfold is_governed in Hgov. to_prop.
  assert (row_fields (binding_row (Z.of_nat (length (cf_bindings db)) + 1) b applied_at build) = f) as Hrf.
  { unfold row_fields. simpl. rewrite Hfields. destruct f; simpl in *. congruence. }
  eexists (MkEntry (Z.of_nat (length (cf_bindings db)) + 1) b applied_at build). split_and!; [| |done].
  - rewrite read_history_rows in * by done. rewrite collect_Ok in *. apply Forall2_app; [done|].
    constructor; [|constructor]. simpl. rewrite (decode_entry_total _ build) by (by rewrite ?Hrf). by destruct b.
  - pose proof (read_history_last _ _ Hinv Hread) as [Hlen Hlast]. unfold validate_history in *.
    rewrite validate_entries_app, Hvalid. simpl. unfold entry_valid. simpl. rewrite Hfields, Hlen.
    assert (default 0 (he_applied_at_unix_s <$> list.last history) ≤ applied_at) as Hle.
    { destruct (list.last history) as [e|] eqn:E; simpl.
      - destruct (Hlast e eq_refl) as (r & Hr & _ & _ & ->). apply Htime.
        rewrite last_lookup in Hr. by eapply list_elem_of_lookup_2.
      - simpl in Hrow. to_prop. inv_int. lia. }
    rewrite (proj2 (Z.ltb_ge _ _) Hle), Z.eqb_refl. simpl. unfold is_governed.
    rewrite Hf1, Hf2, Hf3, Hf4, Hf5. 
    repeat match goal with E : _ b = _ |- _ => rewrite E end. vm_compute. done.
Qed.

(** What is verified is bound already. *)
Lemma verified_binds expected again (build : B) db :
  verify_binding_op (B := B) expected db = Ok (tt, db) →
  bind_or_verify_op expected again build db = Ok (tt, db).
Proof.
  unfold verify_binding_op, bind_or_verify_op. intros Hv. bind Hv as history Hread. bind Hv as u Hvalid.
  rewrite Hread. destruct history as [|e history]; [done|]. simpl and_then at 1. rewrite Hvalid.
  destruct (list.last _) as [actual|]; [|done]. simpl. by destruct (bool_decide _).
Qed.

Lemma history_matches n rows (history : list HistoryEntry) :
  (∀ i r, rows !! i = Some r → cg_generation r = Z.of_nat (n + i)) →
  Forall2 (λ r e, decode_entry r = Ok e) rows history →
  map he_binding history = map row_binding rows ∧
  map he_generation history = map Z.of_nat (seq n (length rows)).
Proof.
  intros Hord Hall. revert n Hord. induction Hall as [|r e rows history Hd _ IH]; intros n Hord; [done|].
  destruct (IH (S n)) as [Hb Hg]; [intros i o Ho; rewrite (Hord (S i) o Ho); lia|].
  apply decode_entry_Ok in Hd as (Hd1 & Hd2 & _). simpl. rewrite Hb, Hg, Hd1, Hd2, (Hord 0%nat r eq_refl).
  by rewrite Nat.add_0_r.
Qed.

Lemma metadata_new_Ok `{Sha256, JsonValue V, !JsonWriter V} runtime profile (normalized : V) database md :
  metadata_new runtime profile normalized database = Ok md →
  is_null (key_from_hex (cb_service_public_key (from_metadata md))) = false ∧
  is_governed (from_metadata md) = true ∧ cb_state_contract_version (from_metadata md) = RHI_STATE_SCHEMA_VERSION.
Proof.
  unfold metadata_new, expected_identity, identity_from_hex. intros Hm. bind Hm as u1 Hu1. bind Hm as u2 Hu2.
  bind Hm as configuration Hc. bind Hm as policy Hp. bind Hm as identity Hi. injection Hm as <-. simpl.
  split_and!; [|done|done]. bind Hi as value Hv. bind Hi as key Hk. apply ok_or_Ok in Hk. bind Hi as u3 Hx.
  bind Hi as u4 He. apply reject_if_Ok in He. injection Hi as <-. to_prop. apply String.eqb_eq in He. by rewrite He, Hk.
Qed.

Lemma bind_op_verified f expected applied_at (build : B) db u db' :
  BuildLaws B → build_new f = Some build → build_governed f →
  is_null (key_from_hex (cb_service_public_key expected)) = false → is_governed expected = true →
  cb_state_contract_version expected = RHI_STATE_SCHEMA_VERSION → config_inv db →
  bind_or_verify_op expected applied_at build db = Ok (u, db') → verify_binding_op expected db' = Ok (tt, db').
Proof.
  intros Hlaws Hnew Hf Hkey Hgov Hstate Hinv Hb. unfold bind_or_verify_op in Hb. bind Hb as history Hread.
  bind Hb as [history1 db1] Hfirst. bind Hb as u1 Hvalid. destruct u1.
  assert (config_inv db1 ∧ read_history db1 = Ok history1) as [Hinv1 Hread1].
  { destruct history as [|e history]; [|by injection Hfirst as <- <-].
    bind Hfirst as db2 Hins. bind Hfirst as h2 Hr2. injection Hfirst as <- <-.
    by eapply insert_binding_Ok in Hins as (_ & _ & _ & _ & ?). }
  destruct (list.last history1) as [actual|] eqn:Hlast; [|done]. unfold verify_binding_op.
  destruct (bool_decide _) eqn:Hsame.
  - injection Hb as _ <-. rewrite Hread1. simpl. rewrite Hvalid. simpl. by rewrite Hlast, Hsame.
  - destruct (is_same_identity_and_policy_except_state_version _ _) eqn:Hs; [|done].
    bind Hb as u2 Hfull. bind Hb as u3 Htime. bind Hb as db2 Hins. injection Hb as _ <-.
    pose proof Hins as Hgen. eapply insert_binding_Ok in Hgen as (Hgen & _); [|done]. rewrite Hgen in Hins.
    destruct (read_history_snoc f db1 history1 expected applied_at build db2) as (e & Hr & Hv & He); try done.
    rewrite Hr. simpl. rewrite Hv. simpl. rewrite last_snoc, bool_decide_eq_true_2 by done. done.
Qed.

(** ** The repository calls *)

Context `{TransactionLaws config_db}.

(** What holds before and after a committed operation holds after every answer. *)
Lemma run_preserves {A} (op : config_db → result ConfigOperationError (A * config_db)) (Q : config_db → Prop)
    db res db' :
  run op db = (res, db') → Q db → (∀ a db1, op db = Ok (a, db1) → Q db1) → Q db'.
Proof.
  unfold run. destruct (transaction op db) as [[a|e] db1] eqn:Htx; intros [= <- <-] Hdb Hop.
  - apply tx_committed in Htx. by eapply Hop.
  - destruct (commit_outcome_unknown e) eqn:Hu.
    + destruct (tx_unknown _ _ _ _ Htx Hu) as (a & db2 & Ha & [->| ->]); [done|by eapply Hop].
    + by destruct (tx_rolled_back _ _ _ _ Htx Hu) as [-> _].
Qed.

Lemma config_run_Ok {A} (op : config_db → result ConfigOperationError (A * config_db)) db a db' :
  run op db = (Ok a, db') → op db = Ok (a, db').
Proof.
  unfold run. destruct (transaction op db) as [[a'|e] db1] eqn:Htx; simpl; [|done]. intros [= <- <-].
  by apply tx_committed in Htx.
Qed.

Lemma config_run_Err {A} (op : config_db → result ConfigOperationError (A * config_db)) db e db' :
  run op db = (Err e, db') →
  db' = db ∨ (e = CommitOutcomeUnknown ∧ ∃ a, op db = Ok (a, db')).
Proof.
  unfold run. destruct (transaction op db) as [[a'|te] db1] eqn:Htx; simpl; [done|]. intros [= <- <-].
  unfold map_transaction_error. destruct (commit_outcome_unknown te) eqn:Hu.
  - destruct (tx_unknown _ _ _ _ Htx Hu) as (a & db2 & Ha & [->| ->]); [by left|right; eauto].
  - left. by destruct (tx_rolled_back _ _ _ _ Htx Hu).
Qed.

(** One step of the state: a call of this module, with any answer of the host, or any
    other operation on jobs and dirty generations. *)
Inductive config_step (db db' : config_db) : Prop :=
| step_bind md applied_at (build : B) res : bind_or_verify md applied_at build db = (res, db') → config_step db db'
| step_verify md res : verify_binding md db = (res, db') → config_step db db'
| step_current res : current_generation db = (res, db') → config_step db db'
| step_append current candidate applied_at (build : B) res :
    append_configuration current candidate applied_at build db = (res, db') → config_step db db'
| step_jobs : cf_bindings db' = cf_bindings db → rows_ok (Job.dirty_generations (cf_jobs db')) = true →
    config_step db db'.

Definition extends (db db' : config_db) : Prop := cf_bindings db `prefix_of` cf_bindings db'.

Lemma extends_refl db : extends db db.
Proof. unfold extends. done. Qed.

Lemma read_op_same {A} (op : config_db → result ConfigOperationError (A * config_db)) db a db1 :
  (∀ a db1, op db = Ok (a, db1) → db1 = db) → config_inv db → op db = Ok (a, db1) → config_inv db1 ∧ extends db db1.
Proof. intros Hop Hinv Ho. apply Hop in Ho as ->. split; [done|apply extends_refl]. Qed.

Lemma config_step_inv db db' : config_inv db → config_step db db' → config_inv db' ∧ extends db db'.
Proof.
  intros Hinv Hstep. destruct Hstep as [md at_s build res Hr|md res Hr|res Hr|cur cand at_s build res Hr|Hb Hd].
  - eapply (run_preserves _ (λ db', config_inv db' ∧ extends db db')) in Hr; [done|by auto using extends_refl|].
    intros a db1 (? & _ & [->|Hx])%bind_op_Ok; [by auto using extends_refl|split; [done|]|done]. unfold extends. rewrite Hx. by eexists.
  - eapply (run_preserves _ (λ db', config_inv db' ∧ extends db db')) in Hr; [done|by auto using extends_refl|].
    intros a db1. apply read_op_same; [|done]. intros a' db2 Ho. unfold verify_binding_op in Ho. inv_ok.
    repeat case_match; by inv_ok.
  - eapply (run_preserves _ (λ db', config_inv db' ∧ extends db db')) in Hr; [done|by auto using extends_refl|].
    intros a db1. apply read_op_same; [|done]. intros a' db2 Ho. unfold current_generation_op in Ho. by inv_ok.
  - eapply (run_preserves _ (λ db', config_inv db' ∧ extends db db')) in Hr; [done|by auto using extends_refl|].
    intros a db1 (? & _ & Hc)%append_op_Ok; [|done]. split; [done|]. unfold extends.
    destruct (changed a); [destruct (ap_bindings _ _ _ _ _ _ Hc) as (row & -> & _); by eexists|destruct Hc as [-> _]; apply extends_refl].
  - split; [|by unfold extends; rewrite Hb]. destruct Hinv. split; by rewrite ?Hb.
Qed.


(** ** Fencing *)

(** The row of a trade after the policy changed. *)
Lemma moved_row policy applied_at trade rows rows' r :
  Forall2 (policy_moved policy applied_at) rows rows' → SourceState.READ_DIRTY_SQL trade rows = Some r →
  ∃ r', SourceState.READ_DIRTY_SQL trade rows' = Some r' ∧ policy_moved policy applied_at r r'.
Proof.
  unfold SourceState.READ_DIRTY_SQL. induction 1 as [|x x' rows rows' Hx _ IH]; simpl; [done|].
  assert (Job.dirty_trade_id x' = Job.dirty_trade_id x) as ->.
  { destruct Hx as [Hs Hm]. destruct (decide (Job.dirty_policy_sha256 x = policy)) as [He|He].
    - by rewrite (Hs He).
    - by destruct (Hm He). }
  destruct (bytes_eqb _ _); [|done]. intros [= <-]. by exists x'.
Qed.

(** What a trade is read with after the policy changed: its dirty state, or the next
    generation of it under the new policy. *)
Lemma dirty_after_policy_change policy applied_at trade rows rows' d :
  Forall2 (policy_moved policy applied_at) rows rows' → rows_ok rows = true → rows_ok rows' = true →
  SourceState.read_dirty trade rows = Ok (Some d) →
  SourceState.read_dirty trade rows' =
    Ok (Some (if decide (SourceState.dirty_policy d = policy) then d
              else SourceState.MkDirty (SourceState.generation d + 1) policy applied_at)).
Proof.
  intros Hall Hok Hok' Hread. rewrite SourceState.read_dirty_rows in * by done. injection Hread as Hread.
  destruct (SourceState.READ_DIRTY_SQL trade rows) as [r|] eqn:Hr; [|done]. injection Hread as <-. simpl.
  destruct (moved_row _ _ _ _ _ _ Hall Hr) as (r' & -> & Hsame & Hmoved). simpl.
  destruct (decide _) as [He|He]; [by rewrite (Hsame He)|]. destruct (Hmoved He) as (_ & Hg & _ & Hp & Hu & _).
  do 2 f_equal. unfold SourceState.view_dirty. by rewrite Hg, Hp, Hu.
Qed.

(** ** Properties *)

(** C17. Applying a configuration is atomic.  Over any host that keeps the laws of a
    transaction, a call keeps the state well-formed, and when it answers, the
    generation it names is the length of the history: either the candidate was already
    the latest configuration and nothing changed, or exactly one row of the candidate
    was appended, with the next generation and the time given, to a history whose latest
    row was the current configuration, no earlier than it.  When the evidence policy is
    the same the jobs and the dirty generations stay; when it changed, each dirty
    generation under another policy than the candidate's moves to its successor under the
    candidate's, those already under it stay, and the jobs stay.  A failure changes
    nothing, and an unknown outcome is one of the two. *)
Theorem configuration_changes_are_atomic (current candidate : RhiStateMetadata) applied_at (build : B) db res db' :
  config_inv db → append_configuration current candidate applied_at build db = (res, db') →
  config_inv db' ∧
  match res with
  | Ok out =>
      out_generation out = Z.of_nat (length (cf_bindings db')) ∧
      if changed out
      then applied (from_metadata current) (from_metadata candidate) applied_at build db db'
      else db' = db ∧ from_metadata current = from_metadata candidate
  | Err CommitOutcomeUnknown =>
      db' = db ∨ applied (from_metadata current) (from_metadata candidate) applied_at build db db'
  | Err _ => db' = db
  end.
Proof.
  intros Hinv Hrun. split.
  - eapply config_step_inv; [done|]. by eapply step_append.
  - unfold append_configuration in Hrun. destruct res as [out|e].
    + apply config_run_Ok in Hrun. by apply append_op_Ok in Hrun as (_ & ? & ?).
    + apply config_run_Err in Hrun as [->|[-> [out Hop]]]; [destruct e; auto|].
      apply append_op_Ok in Hop as (_ & _ & Hc); [|done]. destruct (changed out); [by right|by left; destruct Hc].
Qed.

(** C19. The configuration history is append-only and consecutive.  From any
    well-formed state, whatever calls of the module run, with whatever answers of the
    host, between whatever other work on jobs and dirty generations, the generations
    are the numbers from one in order, at most 1024 of them, at times that never
    decrease, and no binding ever written is changed or removed; every history read
    back is that list. *)
Theorem configuration_history_is_consecutive db db' :
  config_inv db → rtc config_step db db' →
  config_inv db' ∧ cf_bindings db `prefix_of` cf_bindings db' ∧
  ∀ history : list HistoryEntry, read_history db' = Ok history →
    map he_binding history = map row_binding (cf_bindings db') ∧
    map he_generation history = map Z.of_nat (seq 1 (length (cf_bindings db'))).
Proof.
  intros Hinv Hsteps. induction Hsteps as [db|db db1 db' Hstep _ IH].
  - split_and!; [done|done|]. intros history Hread. rewrite read_history_rows, collect_Ok in Hread by done.
    apply history_matches; [|done]. intros i r Hr. rewrite (ci_order _ Hinv i r Hr). lia.
  - destruct (config_step_inv _ _ Hinv Hstep) as [Hinv1 Hext]. destruct (IH Hinv1) as (? & ? & ?).
    split_and!; [done|by etrans|done].
Qed.

(** A configuration that was bound at startup verifies.  When binding the metadata of
    a configuration succeeds, for a build of this code, whether the history was empty,
    already ended with it or was carried over from an older state version, verifying
    the same metadata on the resulting state succeeds and binding it again, at
    whatever time, changes nothing. *)
Theorem bound_configuration_verifies `{Sha256, JsonValue V, !JsonWriter V, !BuildLaws B} runtime profile
    (normalized : V) database expected f applied_at again (build : B) db db' :
  metadata_new runtime profile normalized database = Ok expected →
  build_new f = Some build → build_governed f → config_inv db →
  bind_or_verify expected applied_at build db = (Ok tt, db') →
  verify_binding_op (from_metadata expected) db' = Ok (tt, db') ∧
  bind_or_verify_op (from_metadata expected) again build db' = Ok (tt, db').
Proof.
  intros Hmd Hnew Hf Hinv Hrun. apply config_run_Ok in Hrun. apply metadata_new_Ok in Hmd as (Hkey & Hgov & Hst).
  assert (verify_binding_op (from_metadata expected) db' = Ok (tt, db')) as Hv by by eapply bind_op_verified.
  split; [done|by apply verified_binds].
Qed.

Lemma append_configuration_effect current candidate applied_at (build : B) db res db' :
  config_inv db → append_configuration current candidate applied_at build db = (res, db') →
  db' = db ∨ config_inv db' ∧ applied (from_metadata current) (from_metadata candidate) applied_at build db db'.
Proof.
  intros Hinv Hrun. unfold append_configuration in Hrun. destruct res as [out|e].
  - apply config_run_Ok in Hrun. apply append_op_Ok in Hrun as (? & _ & Hc); [|done].
    destruct (changed out); [by right|left; by destruct Hc].
  - apply config_run_Err in Hrun as [->|[-> [out Hop]]]; [by left|].
    apply append_op_Ok in Hop as (? & _ & Hc); [|done]. destruct (changed out); [by right|left; by destruct Hc].
Qed.

End bindings.
Section fencing.
Context `{PublicKeyLibrary K, BuildLibrary B, TransactionLaws config_db}.
Context `{Sha256, JsonValue V, !JsonWriter V, Manifest.EvidenceLibrary M, TransactionLaws Commit.reconciliation_db}.
Context `{TransactionLaws SourceCommit.source_db}.

(** The work of the service on the jobs and the dirty generations, with any answers of its hosts:
    the queue leaves the dirty generations; the three other writers are the commit of an
    ingestion, the commit of a reconciliation attempt, and a change of configuration. *)
Inductive trade_work (db db' : Job.job_db) : Prop :=
| work_queue : Job.dirty_generations db' = Job.dirty_generations db → trade_work db db'
| work_ingest source trade attempt initial fetched sdb res sdb' :
    SourceCommit.source_inv sdb → SourceCommit.sd_dirty sdb = Job.dirty_generations db →
    SourceCommit.commit_source_result source trade attempt initial fetched sdb = (res, sdb') →
    Job.dirty_generations db' = SourceCommit.sd_dirty sdb' → trade_work db db'
| work_reconcile lease0 (normalized : V) start writable lease plan replays rdb res rdb' :
    CommitSafety.recon_inv rdb → Commit.rd_job rdb = db → Attempt.from_claim lease0 normalized start = Ok plan →
    Commit.commit_source_replays writable lease plan replays rdb = (res, rdb') → Commit.rd_job rdb' = db' →
    trade_work db db'
| work_configure current candidate applied_at (build : B) cdb res cdb' :
    config_inv cdb → cf_jobs cdb = db → append_configuration current candidate applied_at build cdb = (res, cdb') →
    cf_jobs cdb' = db' → trade_work db db'.

(** No trade goes back to an earlier dirty generation. *)
Definition no_earlier (db db' : Job.job_db) : Prop :=
  rows_ok (Job.dirty_generations db') = true ∧
  ∀ trade d, SourceState.read_dirty trade (Job.dirty_generations db) = Ok (Some d) →
    ∃ d', SourceState.read_dirty trade (Job.dirty_generations db') = Ok (Some d') ∧
      SourceState.generation d ≤ SourceState.generation d'.

Lemma no_earlier_same db db' :
  Job.dirty_generations db' = Job.dirty_generations db → rows_ok (Job.dirty_generations db) = true → no_earlier db db'.
Proof. intros He Hok. unfold no_earlier. rewrite He. split; [done|]. intros trade d Hd. by exists d. Qed.

(** A committed step is fenced by the generation it read, and moves one trade to its successor. *)
Lemma no_earlier_advanced db db' trade n pol at_s :
  rows_ok (Job.dirty_generations db') = true →
  (∀ d, SourceState.read_dirty trade (Job.dirty_generations db) = Ok (Some d) → SourceState.generation d ≤ n) →
  SourceState.read_dirty trade (Job.dirty_generations db') = Ok (Some (SourceState.MkDirty n pol at_s)) →
  (∀ other, other ≠ trade → SourceState.read_dirty other (Job.dirty_generations db') =
                            SourceState.read_dirty other (Job.dirty_generations db)) →
  no_earlier db db'.
Proof.
  intros Hok Hle Hnew Hother. split; [done|]. intros other d Hd. destruct (decide (other = trade)) as [->|Hne].
  - eexists. split; [exact Hnew|]. by apply Hle.
  - exists d. by rewrite Hother.
Qed.

Lemma ingest_no_earlier db db' source trade attempt initial fetched out sdb sdb' :
  SourceCommit.sd_dirty sdb = Job.dirty_generations db → SourceCommit.sd_dirty sdb' = Job.dirty_generations db' →
  rows_ok (Job.dirty_generations db) = true →
  SourceCommit.committed source trade attempt initial fetched out sdb sdb' → no_earlier db db'.
Proof.
  intros Hs Hs' Hok Hc. pose proof (SourceCommit.si_dirty _ (SourceCommit.co_inv _ _ _ _ _ _ _ _ Hc)) as Hok'.
  pose proof (SourceCommit.co_fence _ _ _ _ _ _ _ _ Hc) as Hf. unfold SourceCommit.read_state in Hf.
  bind Hf as c Hck. bind Hf as d0 Hd0. injection Hf as Hf. rewrite Hs in Hd0.
  destruct (SourceCommit.co_dirty _ _ _ _ _ _ _ _ Hc) as (Hadv & Hgrew & Hsame & Hother). rewrite Hs, Hs' in *.
  destruct (SourceCommit.out_dirty_generation_advanced out).
  - destruct (Hgrew (proj1 Hadv eq_refl)) as [_ Hnew]. eapply no_earlier_advanced; [done| |exact Hnew|exact Hother].
    intros d Hd. rewrite Hd in Hd0. injection Hd0 as <-. rewrite <- Hf. simpl. lia.
  - destruct Hsame as [Hrows _]; [by intros ?%Hadv|]. by apply no_earlier_same.
Qed.

Lemma reconcile_no_earlier lease plan parts advanced rdb rdb' :
  rows_ok (Job.dirty_generations (Commit.rd_job rdb)) = true →
  CommitSafety.committed lease plan parts advanced rdb rdb' → no_earlier (Commit.rd_job rdb) (Commit.rd_job rdb').
Proof.
  intros Hok Hc. pose proof (CommitSafety.cd_inv _ _ _ _ _ _ Hc) as Hinv'.
  destruct (CommitSafety.cd_generation _ _ _ _ _ _ Hc) as (d0 & Hd0 & Hg & _).
  destruct (CommitSafety.cd_dirty _ _ _ _ _ _ Hc) as (_ & Hsame & Hnew & Hother & _). destruct advanced.
  - destruct (Hnew eq_refl) as [at_s Hr]. eapply no_earlier_advanced; [exact (CommitSafety.ri_dirty _ Hinv')| |exact Hr|exact Hother].
    intros d Hd. rewrite Hd in Hd0. injection Hd0 as <-. lia.
  - apply no_earlier_same; [|done]. by rewrite (Hsame eq_refl).
Qed.

Lemma configure_no_earlier current candidate applied_at (build : B) cdb cdb' :
  config_inv cdb → config_inv cdb' → applied current candidate applied_at build cdb cdb' →
  no_earlier (cf_jobs cdb) (cf_jobs cdb').
Proof.
  intros [_ _ _ _ Hok] [_ _ _ _ Hok'] Hap.
  destruct (decide (cb_evidence_policy_sha256 current = cb_evidence_policy_sha256 candidate)) as [He|Hne].
  - apply no_earlier_same; [|done]. by rewrite (ap_same_policy _ _ _ _ _ _ Hap He).
  - destruct (ap_new_policy _ _ _ _ _ _ Hap Hne) as [_ Hall]. split; [done|]. intros trade d Hd. eexists.
    split; [by eapply dirty_after_policy_change|]. destruct (decide _); simpl; lia.
Qed.

Lemma work_no_earlier db db' : rows_ok (Job.dirty_generations db) = true → trade_work db db' → no_earlier db db'.
Proof.
  intros Hok Hstep.
  destruct Hstep as [Hs|source trade attempt initial fetched sdb res sdb' Hinv Hs Hrun Hs'
    |lease0 normalized start writable lease plan replays rdb res rdb' Hinv <- Hplan Hrun <-
    |current candidate applied_at build cdb res cdb' Hinv <- Hrun <-].
  - by apply no_earlier_same.
  - apply SourceCommit.commit_source_result_cases in Hrun; [|done]. destruct res as [out|e].
    + by eapply ingest_no_earlier.
    + assert (sdb' = sdb ∨ ∃ out, SourceCommit.committed source trade attempt initial fetched out sdb sdb')
        as [->|[out Hc]] by (destruct e; naive_solver).
      * apply no_earlier_same; [congruence|done].
      * by eapply ingest_no_earlier.
  - assert (rdb' = rdb ∨ ∃ parts advanced, CommitSafety.committed lease plan parts advanced rdb rdb')
      as [->|(parts & advanced & Hc)] by (by eapply CommitSafety.commit_source_replays_effect).
    + by apply no_earlier_same.
    + by eapply reconcile_no_earlier.
  - assert (cdb' = cdb ∨ config_inv cdb' ∧ applied (from_metadata current) (from_metadata candidate) applied_at build cdb cdb')
      as [->|[Hinv' Hap]] by (by eapply append_configuration_effect).
    + by apply no_earlier_same.
    + by eapply configure_no_earlier.
Qed.

Lemma later_no_earlier db db' : rows_ok (Job.dirty_generations db) = true → rtc trade_work db db' → no_earlier db db'.
Proof.
  intros Hok Hsteps. induction Hsteps as [db|db db1 db2 Hstep _ IH]; [by apply no_earlier_same|].
  apply work_no_earlier in Hstep as [Hok1 Hw1]; [|done]. destruct (IH Hok1) as [Hok2 Hw2]. split; [done|].
  intros trade d (d1 & Hd1 & Hle1)%Hw1. destruct (Hw2 _ _ Hd1) as (d2 & Hd2 & Hle2). exists d2. split; [done|lia].
Qed.

(** C18. A change of the evidence policy fences the attempts planned before it.  When an
    applied configuration changes the policy, every trade whose evidence was collected
    under another policy moves to its next dirty generation under the new one.  From then
    on, after any further work of the queue, of ingestions, of reconciliation commits and of
    configuration changes, the trade is at that generation or a later one, and no attempt
    planned at the old generation or an earlier one can be committed for the first time,
    under any lease of the trade and with any replays, and none can pass the fence of its
    finalization. *)
Theorem policy_change_fences_attempts current candidate applied_at (build : B) db out db' trade d rdb :
  config_inv db → append_configuration current candidate applied_at build db = (Ok out, db') →
  changed out = true → md_evidence_policy current ≠ md_evidence_policy candidate →
  SourceState.read_dirty trade (Job.dirty_generations (cf_jobs db)) = Ok (Some d) →
  SourceState.dirty_policy d ≠ md_evidence_policy candidate →
  rtc trade_work (cf_jobs db') (Commit.rd_job rdb) → CommitSafety.recon_inv rdb →
  SourceState.read_dirty trade (Job.dirty_generations (cf_jobs db')) =
    Ok (Some (SourceState.MkDirty (SourceState.generation d + 1) (md_evidence_policy candidate) applied_at)) ∧
  (∃ later, SourceState.read_dirty trade (Job.dirty_generations (Commit.rd_job rdb)) = Ok (Some later) ∧
     SourceState.generation d < SourceState.generation later) ∧
  (∀ lease0 (normalized : V) start writable lease plan replays committed rdb',
     Attempt.from_claim lease0 normalized start = Ok plan → Job.trade_id (Job.lease_job lease) = trade →
     Attempt.plan_input_generation plan ≤ SourceState.generation d →
     Commit.commit_source_replays writable lease plan replays rdb = (Ok committed, rdb') →
     Commit.out_created committed = false) ∧
  (∀ lease i now, Finalization.fi_trade_id i = trade → Finalization.fi_generation i ≤ SourceState.generation d →
     Finalization.validate_finalization_identity lease i now rdb ≠ Ok tt).
Proof.
  intros Hinv Hrun Hch Hpol Hread Hne Hlater Hrinv. apply config_run_Ok in Hrun.
  apply append_op_Ok in Hrun as (Hinv' & _ & Hap); [|done]. rewrite Hch in Hap.
  destruct (ap_new_policy _ _ _ _ _ _ Hap Hpol) as (_ & Hdirty). simpl in Hdirty.
  pose proof (dirty_after_policy_change _ applied_at _ _ _ _ Hdirty (ci_dirty _ Hinv) (ci_dirty _ Hinv') Hread) as Hnew.
  rewrite decide_False in Hnew by done.
  destruct (proj2 (later_no_earlier _ _ (ci_dirty _ Hinv') Hlater) _ _ Hnew) as (later & Hr' & Hg'). simpl in Hg'.
  split_and!; [done|exists later; split; [done|lia]| |].
  - intros lease0 normalized start writable lease plan replays committed rdb' Hplan Htrade Hle Hcommit.
    eapply CommitSafety.commit_source_replays_Ok in Hcommit as (parts & _ & Hc); [|done..].
    destruct (Commit.out_created committed); [|done]. destruct (CommitSafety.cd_generation _ _ _ _ _ _ Hc) as (d' & Hr & Hg & _).
    rewrite Htrade, Hr' in Hr. injection Hr as <-. lia.
  - intros lease i now Htrade Hle Hval. unfold Finalization.validate_finalization_identity in Hval.
    bind Hval as u1 Hl. bind Hval as u2 Hx. bind Hval as dirty Hd. apply map_err_Ok in Hd.
    bind Hval as d' Hd'. apply ok_or_Ok, filter_opt_Some in Hd' as [-> Hd']. to_prop.
    rewrite Htrade, Hr' in Hd. injection Hd as <-. simpl in *. lia.
Qed.
End fencing.

(** ** A concrete instance *)

#[local] Existing Instance checksum.
#[local] Existing Instance json_value.
#[local] Existing Instance json_writer.
#[local] Existing Instance reliable_host.
#[local] Existing Instance reliable_host_laws.

(** Keys are their hexadecimal texts, builds their fields. *)
Definition demo_keys : PublicKeyLibrary string := {|
  key_from_hex := λ s, if lower_hex s && (text_size s =? 64) then Some s else None;
  key_xonly := λ _, true;
  key_to_hex := λ s, s;
|}.

Definition demo_builds : BuildLibrary BuildFields := {|
  build_new := λ f, if (text_size (bf_service_commit f) =? 40) then Some f else None;
  build_fields := λ f, f;
|}.

#[local] Existing Instance Manifest.demo_library.
#[local] Existing Instance demo_keys.
#[local] Existing Instance demo_builds.

Lemma demo_build_laws : BuildLaws BuildFields.
Proof. intros f b. unfold build_new, demo_builds. by destruct (_ =? 40); [intros [= ->]|]. Qed.

Definition demo_key : string := "4f355bdcb7cc0af728ef3cceb9615d90684bb5b2ca5f859ab0f0b704075871aa".

Definition demo_build : BuildFields :=
  MkBuildFields "0.1.0" "0123456789abcdef0123456789abcdef01234567" "89abcdef0123456789abcdef0123456789abcdef"
    "1.90.0" "x86_64-unknown-linux-gnu" "service-host" 1 11 1 1 1.

Definition demo_normalized : json :=
  match Attempt.demo_document with
  | JObject members =>
      JObject (("identity", JObject [("service", JObject [("expected_public_key", JString demo_key)])]) :: members)
  | v => v
  end.

Definition demo_current : RhiStateMetadata :=
  Eval vm_compute in
    match metadata_new Metadata.ServiceHost Metadata.Production demo_normalized (Ok tt) with
    | Ok md => md | Err _ => MkMetadata [] [] "" governed end.

Definition demo_candidate : RhiStateMetadata := MkMetadata (repeat 5 32) (repeat 6 32) demo_key governed.

Definition demo_unbound : config_db := ConfigDb [] CommitSafety.demo_jobs.

Definition demo_bound : config_db := Eval vm_compute in (bind_or_verify demo_current 1500 demo_build demo_unbound).2.

Definition demo_applied : config_db :=
  Eval vm_compute in (append_configuration demo_current demo_candidate 2600 demo_build demo_bound).2.

Lemma demo_unbound_ok : config_inv demo_unbound.
Proof. split; try done; constructor. Qed.

Lemma demo_bound_run : bind_or_verify demo_current 1500 demo_build demo_unbound = (Ok tt, demo_bound).
Proof. vm_compute. reflexivity. Qed.

Lemma demo_bound_ok : config_inv demo_bound.
Proof. exact (proj1 (config_step_inv _ _ demo_unbound_ok (step_bind _ _ _ _ _ _ demo_bound_run))). Qed.

Lemma demo_applied_run :
  append_configuration demo_current demo_candidate 2600 demo_build demo_bound = (Ok (MkOutcome 2 true), demo_applied).
Proof. vm_compute. reflexivity. Qed.

Lemma configuration_changes_are_atomic_witness :
  config_inv demo_applied ∧
  applied (from_metadata demo_current) (from_metadata demo_candidate) 2600 demo_build demo_bound demo_applied ∧
  map Job.dirty_generation (Job.dirty_generations (cf_jobs demo_bound)) = [1] ∧
  map Job.dirty_generation (Job.dirty_generations (cf_jobs demo_applied)) = [2].
Proof.
  destruct (configuration_changes_are_atomic demo_current demo_candidate 2600 demo_build demo_bound
    (Ok (MkOutcome 2 true)) demo_applied demo_bound_ok demo_applied_run) as (Hinv & _ & Hap).
  split_and!; [exact Hinv|exact Hap|reflexivity|reflexivity].
Defined.

Lemma configuration_history_is_consecutive_witness :
  map cg_generation (cf_bindings demo_applied) = [1; 2] ∧ config_inv demo_applied.
Proof.
  split; [reflexivity|].
  exact (proj1 (configuration_history_is_consecutive demo_unbound demo_applied demo_unbound_ok
    (rtc_l _ _ _ _ (step_bind _ _ _ _ _ _ demo_bound_run)
       (rtc_once _ _ (step_append _ _ _ _ _ _ _ demo_applied_run))))).
Defined.

Lemma demo_metadata_new : metadata_new Metadata.ServiceHost Metadata.Production demo_normalized (Ok tt) = Ok demo_current.
Proof. vm_compute. reflexivity. Qed.

Lemma demo_build_governed : build_governed demo_build.
Proof. done. Qed.

#[local] Existing Instance demo_build_laws.

Lemma bound_configuration_verifies_witness :
  verify_binding_op (from_metadata demo_current) demo_bound = Ok (tt, demo_bound).
Proof.
  exact (proj1 (bound_configuration_verifies Metadata.ServiceHost Metadata.Production demo_normalized (Ok tt)
    demo_current demo_build 1500 0 demo_build demo_unbound demo_bound demo_metadata_new eq_refl demo_build_governed
    demo_unbound_ok demo_bound_run)).
Defined.

(** The policy changes once more, and the queue does its own work. *)
Definition demo_later_candidate : RhiStateMetadata := MkMetadata (repeat 5 32) (repeat 8 32) demo_key governed.

Definition demo_later : config_db :=
  Eval vm_compute in (append_configuration demo_candidate demo_later_candidate 2700 demo_build demo_applied).2.

Lemma demo_later_run :
  append_configuration demo_candidate demo_later_candidate 2700 demo_build demo_applied =
    (Ok (MkOutcome 3 true), demo_later).
Proof. vm_compute. reflexivity. Qed.

Definition fenced_state : Commit.reconciliation_db :=
  Commit.ReconciliationDb (Job.JobDb (Job.dirty_generations (cf_jobs demo_later)) []) Evidence.empty_db [] [] [].

Lemma fenced_state_ok : CommitSafety.recon_inv fenced_state.
Proof. destruct CommitSafety.demo_state_ok. by split. Qed.

Lemma demo_later_work :
  rtc (trade_work (B := BuildFields) (V := json) (M := Manifest.demo_manifest)) (cf_jobs demo_applied)
    (Commit.rd_job fenced_state).
Proof.
  eapply rtc_l.
  - eapply (work_configure _ _ demo_candidate demo_later_candidate 2700 demo_build demo_applied);
      [|done|exact demo_later_run|done].
    exact (proj1 (config_step_inv _ _ demo_bound_ok (step_append _ _ _ _ _ _ _ demo_applied_run))).
  - apply rtc_once, work_queue. reflexivity.
Qed.

Lemma policy_change_fences_attempts_witness :
  (∃ later, SourceState.read_dirty (repeat 1 16) (Job.dirty_generations (Commit.rd_job fenced_state)) = Ok (Some later) ∧
     1 < SourceState.generation later) ∧
  Finalization.validate_finalization_identity CommitSafety.demo_lease
    (Finalization.plan_identity CommitSafety.demo_lease CommitSafety.demo_plan) 5000 fenced_state ≠ Ok tt.
Proof.
  destruct (policy_change_fences_attempts (V := json) (M := Manifest.demo_manifest) demo_current demo_candidate 2600
    demo_build demo_bound (MkOutcome 2 true) demo_applied (repeat 1 16) (SourceState.MkDirty 1 Attempt.demo_digest 0)
    fenced_state demo_bound_ok demo_applied_run eq_refl) as (_ & Hlater & _ & Hfence);
    [vm_compute; done|vm_compute; done|vm_compute; done|exact demo_later_work|exact fenced_state_ok|].
  split; [exact Hlater|]. apply Hfence; vm_compute; done.
Defined.

End ConfigSafety.
