(* ===== verification/PresenceState.v ===== *)
(** * Presence tables: the presence part of [src/src/state_catalog.rs]

    [presence_desired_state], [presence_outbox], [presence_targets] and
    [presence_attempts] with their column constraints, shape checks, triggers, unique
    keys and references.  The desired state is one row that only moves forward; an
    outbox and its targets change only along the transitions their triggers admit;
    attempts are immutable. *)

From Stdlib Require Import ZArith Lia.
From stdpp Require Import list strings.
From S2P Require Import Prelude.
From S2P Require Import Sql.
From S2P Require Import Publication.
From S2P Require Import PublicationState.
From S2P Require Import StateConfig.

Module PresenceState.
Import PubState.

Definition flag_column (v : Z) : bool := (v =? 0) || (v =? 1).

(** ** [presence_desired_state] *)

Record desired_row : Type := DesiredRow {
  ds_singleton : Z;
  ds_generation : Z;
  ds_enabled : Z;
  ds_profile : Z;
  ds_application_handler : Z;
  ds_target_set_sha256 : bytes;
  ds_target_count : Z;
  ds_required_target_count : Z;
  ds_queue_capacity : Z;
  ds_desired_sha256 : bytes;
}.

Definition desired_shape_check (r : desired_row) : bool :=
  ((ds_enabled r =? 0) && (ds_profile r =? 0) && (ds_application_handler r =? 0)
   && (ds_target_count r =? 0) && (ds_required_target_count r =? 0) && (ds_queue_capacity r =? 0))
  || ((ds_enabled r =? 1) && ((ds_profile r =? 1) || (ds_application_handler r =? 1))
      && between 1 32 (ds_target_count r) && between 1 4096 (ds_queue_capacity r)).

#[export] Instance desired_table : Table desired_row := {|
  row_check := λ r,
    (ds_singleton r =? 1) && between 1 I64_MAX (ds_generation r)
    && flag_column (ds_enabled r) && flag_column (ds_profile r) && flag_column (ds_application_handler r)
    && blob_of 32 (ds_target_set_sha256 r) && between 0 32 (ds_target_count r)
    && between 0 (ds_target_count r) (ds_required_target_count r)
    && between 0 4096 (ds_queue_capacity r) && blob_of 32 (ds_desired_sha256 r)
    && desired_shape_check r;
  row_guard := λ old new,
    (ds_singleton new =? ds_singleton old) && negb (I64_MAX <=? ds_generation old)
    && (ds_generation new =? ds_generation old + 1)
    && negb (bytes_eqb (ds_desired_sha256 new) (ds_desired_sha256 old));
  row_conflict := λ r o,
    (ds_singleton r =? ds_singleton o) || bytes_eqb (ds_desired_sha256 r) (ds_desired_sha256 o);
|}.

(** [presence_desired_state_guard_insert] *)
Definition desired_guard_insert (rows : list desired_row) (r : desired_row) : bool :=
  (ds_generation r =? 1) && match rows with [] => true | _ => false end.

(** ** [presence_outbox] *)

Record outbox_row : Type := OutboxRow {
  po_outbox_id : bytes;
  po_desired_generation : Z;
  po_document_kind : string;
  po_desired_sha256 : bytes;
  po_target_set_sha256 : bytes;
  po_event_id : bytes;
  po_event_sha256 : bytes;
  po_exact_signed_event_bytes : bytes;
  po_authored_at_unix_s : Z;
  po_service_public_key : string;
  po_target_count : Z;
  po_required_target_count : Z;
  po_max_attempts : Z;
  po_initial_backoff_ms : Z;
  po_maximum_backoff_ms : Z;
  po_attempt_deadline_ms : Z;
  po_state : string;
  po_revision : Z;
  po_next_attempt_unix_ms : option Z;
  po_lease_owner : option bytes;
  po_lease_expires_unix_ms : option Z;
  po_created_at_unix_ms : Z;
  po_updated_at_unix_ms : Z;
}.

Definition presence_closed (s : string) : bool := one_of ["complete"; "blocked"; "superseded"] s.

Definition presence_columns_check (r : outbox_row) : bool :=
  blob_of 32 (po_outbox_id r) && between 1 I64_MAX (po_desired_generation r)
  && one_of ["service_profile"; "application_handler"] (po_document_kind r)
  && blob_of 32 (po_desired_sha256 r) && blob_of 32 (po_target_set_sha256 r)
  && blob_of 32 (po_event_id r) && blob_of 32 (po_event_sha256 r)
  && between 1 32768 (Z.of_nat (length (po_exact_signed_event_bytes r)))
  && between 0 I64_MAX (po_authored_at_unix_s r)
  && (Config.text_size (po_service_public_key r) =? 64) && Config.lower_hex (po_service_public_key r)
  && between 1 32 (po_target_count r) && between 0 (po_target_count r) (po_required_target_count r)
  && (po_max_attempts r =? 100) && (po_initial_backoff_ms r =? 250)
  && (po_maximum_backoff_ms r =? 30000) && (po_attempt_deadline_ms r =? 15000)
  && one_of ["pending"; "leased"; "complete"; "blocked"; "superseded"] (po_state r)
  && between 1 I64_MAX (po_revision r)
  && check_passes (sql_between 0 I64_MAX (po_next_attempt_unix_ms r))
  && check_passes (blob_of 16 <$> po_lease_owner r)
  && check_passes (sql_between 1 I64_MAX (po_lease_expires_unix_ms r))
  && between 0 I64_MAX (po_created_at_unix_ms r)
  && between (po_created_at_unix_ms r) I64_MAX (po_updated_at_unix_ms r).

Definition presence_shape_check (r : outbox_row) : bool :=
  (String.eqb (po_state r) "pending" && negb (is_null (po_next_attempt_unix_ms r))
   && is_null (po_lease_owner r) && is_null (po_lease_expires_unix_ms r))
  || (String.eqb (po_state r) "leased" && is_null (po_next_attempt_unix_ms r)
      && negb (is_null (po_lease_owner r)) && negb (is_null (po_lease_expires_unix_ms r)))
  || (presence_closed (po_state r) && is_null (po_next_attempt_unix_ms r)
      && is_null (po_lease_owner r) && is_null (po_lease_expires_unix_ms r)).

(** The columns [presence_outbox_guard_update] keeps fixed. *)
Definition same_presence_columns (old new : outbox_row) : bool :=
  bytes_eqb (po_outbox_id new) (po_outbox_id old)
  && (po_desired_generation new =? po_desired_generation old)
  && String.eqb (po_document_kind new) (po_document_kind old)
  && bytes_eqb (po_desired_sha256 new) (po_desired_sha256 old)
  && bytes_eqb (po_target_set_sha256 new) (po_target_set_sha256 old)
  && bytes_eqb (po_event_id new) (po_event_id old)
  && bytes_eqb (po_event_sha256 new) (po_event_sha256 old)
  && bytes_eqb (po_exact_signed_event_bytes new) (po_exact_signed_event_bytes old)
  && (po_authored_at_unix_s new =? po_authored_at_unix_s old)
  && String.eqb (po_service_public_key new) (po_service_public_key old)
  && (po_target_count new =? po_target_count old)
  && (po_required_target_count new =? po_required_target_count old)
  && (po_max_attempts new =? po_max_attempts old)
  && (po_initial_backoff_ms new =? po_initial_backoff_ms old)
  && (po_maximum_backoff_ms new =? po_maximum_backoff_ms old)
  && (po_attempt_deadline_ms new =? po_attempt_deadline_ms old)
  && (po_created_at_unix_ms new =? po_created_at_unix_ms old).

Definition presence_transition (old new : string) : bool :=
  (String.eqb old "pending" && one_of ["leased"; "superseded"] new)
  || (String.eqb old "leased" && one_of ["pending"; "complete"; "blocked"; "superseded"] new)
  || (String.eqb old "blocked" && one_of ["pending"; "superseded"] new).

#[export] Instance outbox_table : Table outbox_row := {|
  row_check := λ r, presence_columns_check r && presence_shape_check r;
  row_guard := λ old new,
    same_presence_columns old new && (po_revision new =? po_revision old + 1)
    && (po_updated_at_unix_ms old <=? po_updated_at_unix_ms new)
    && presence_transition (po_state old) (po_state new);
  row_conflict := λ r o,
    bytes_eqb (po_outbox_id r) (po_outbox_id o)
    || ((po_desired_generation r =? po_desired_generation o)
        && String.eqb (po_document_kind r) (po_document_kind o));
|}.

(** ** [presence_targets] *)

Record target_row : Type := TargetRow {
  pt_outbox_id : bytes;
  pt_target_ordinal : Z;
  pt_relay_id : string;
  pt_required : Z;
  pt_state : string;
  pt_revision : Z;
  pt_attempt_count : Z;
  pt_next_attempt_unix_ms : option Z;
  pt_last_attempt_id : option bytes;
  pt_updated_at_unix_ms : Z;
}.

Definition retry_states : list string := ["rate_limited"; "failed"; "unknown"].
Definition final_states : list string := ["accepted"; "rejected"; "auth_required"].

Definition target_shape_check (r : target_row) : bool :=
  (String.eqb (pt_state r) "pending" && (pt_attempt_count r =? 0)
   && negb (is_null (pt_next_attempt_unix_ms r)) && is_null (pt_last_attempt_id r))
  || (one_of ("submitted" :: final_states) (pt_state r) && between 1 100 (pt_attempt_count r)
      && is_null (pt_next_attempt_unix_ms r) && negb (is_null (pt_last_attempt_id r)))
  || (one_of retry_states (pt_state r) && between 1 99 (pt_attempt_count r)
      && negb (is_null (pt_next_attempt_unix_ms r)) && negb (is_null (pt_last_attempt_id r)))
  || (one_of retry_states (pt_state r) && (pt_attempt_count r =? 100)
      && is_null (pt_next_attempt_unix_ms r) && negb (is_null (pt_last_attempt_id r))).

(** [NEW.last_attempt_id IS NOT OLD.last_attempt_id] *)
Definition differs (a b : option bytes) : bool := negb (bool_decide (a = b)).

(** The attempt of a submitted target and of its outcome is never [NULL]. *)
Definition target_transition (old new : target_row) : bool :=
  (one_of ("pending" :: retry_states) (pt_state old) && String.eqb (pt_state new) "submitted"
   && (pt_attempt_count new =? pt_attempt_count old + 1)
   && negb (is_null (pt_last_attempt_id new)) && differs (pt_last_attempt_id new) (pt_last_attempt_id old))
  || (String.eqb (pt_state old) "submitted" && one_of (final_states ++ retry_states) (pt_state new)
      && (pt_attempt_count new =? pt_attempt_count old)
      && match pt_last_attempt_id new, pt_last_attempt_id old with
         | Some a, Some b => bytes_eqb a b | _, _ => false end).

#[export] Instance target_table : Table target_row := {|
  row_check := λ r,
    blob_of 32 (pt_outbox_id r) && between 0 31 (pt_target_ordinal r)
    && Authority.valid_relay_id (pt_relay_id r) && flag_column (pt_required r)
    && one_of target_states (pt_state r) && between 1 I64_MAX (pt_revision r)
    && between 0 100 (pt_attempt_count r)
    && check_passes (sql_between 0 I64_MAX (pt_next_attempt_unix_ms r))
    && check_passes (blob_of 32 <$> pt_last_attempt_id r)
    && between 0 I64_MAX (pt_updated_at_unix_ms r) && target_shape_check r;
  row_guard := λ old new,
    bytes_eqb (pt_outbox_id new) (pt_outbox_id old)
    && (pt_target_ordinal new =? pt_target_ordinal old)
    && String.eqb (pt_relay_id new) (pt_relay_id old)
    && (pt_required new =? pt_required old)
    && (pt_revision new =? pt_revision old + 1)
    && (pt_updated_at_unix_ms old <=? pt_updated_at_unix_ms new)
    && target_transition old new;
  row_conflict := λ r o,
    bytes_eqb (pt_outbox_id r) (pt_outbox_id o)
    && ((pt_target_ordinal r =? pt_target_ordinal o) || String.eqb (pt_relay_id r) (pt_relay_id o));
|}.

(** ** [presence_attempts] *)

Record attempt_row : Type := AttemptRow {
  pa_attempt_id : bytes;
  pa_outbox_id : bytes;
  pa_target_ordinal : Z;
  pa_attempt_number : Z;
  pa_event_sha256 : bytes;
  pa_lease_owner : bytes;
  pa_started_at_unix_ms : Z;
  pa_finished_at_unix_ms : Z;
  pa_outcome : string;
  pa_result_code : string;
}.

#[export] Instance attempt_table : Table attempt_row := {|
  row_check := λ r,
    blob_of 32 (pa_attempt_id r) && blob_of 32 (pa_outbox_id r)
    && between 0 31 (pa_target_ordinal r) && between 1 100 (pa_attempt_number r)
    && blob_of 32 (pa_event_sha256 r) && blob_of 16 (pa_lease_owner r)
    && between 0 I64_MAX (pa_started_at_unix_ms r)
    && between (pa_started_at_unix_ms r) I64_MAX (pa_finished_at_unix_ms r)
    && one_of (final_states ++ retry_states) (pa_outcome r)
    && between 1 64 (Config.text_size (pa_result_code r));
  row_guard := λ _ _, false;
  row_conflict := λ r o,
    bytes_eqb (pa_attempt_id r) (pa_attempt_id o)
    || (bytes_eqb (pa_outbox_id r) (pa_outbox_id o)
        && (pa_target_ordinal r =? pa_target_ordinal o)
        && (pa_attempt_number r =? pa_attempt_number o));
|}.

(** ** The presence state *)

Record presence_db : Type := PresenceDb {
  pr_bindings : list Config.config_row;
  pr_desired : list desired_row;
  pr_outboxes : list outbox_row;
  pr_targets : list target_row;
  pr_attempts : list attempt_row;
}.

Definition with_desired (db : presence_db) (rows : list desired_row) : presence_db :=
  PresenceDb (pr_bindings db) rows (pr_outboxes db) (pr_targets db) (pr_attempts db).
Definition with_outboxes (db : presence_db) (rows : list outbox_row) : presence_db :=
  PresenceDb (pr_bindings db) (pr_desired db) rows (pr_targets db) (pr_attempts db).
Definition with_targets (db : presence_db) (rows : list target_row) : presence_db :=
  PresenceDb (pr_bindings db) (pr_desired db) (pr_outboxes db) rows (pr_attempts db).
Definition with_attempts (db : presence_db) (rows : list attempt_row) : presence_db :=
  PresenceDb (pr_bindings db) (pr_desired db) (pr_outboxes db) (pr_targets db) rows.

(** [FOREIGN KEY (outbox_id)], [FOREIGN KEY (outbox_id, target_ordinal)] *)
Definition target_references (db : presence_db) (r : target_row) : bool :=
  existsb (λ o, bytes_eqb (po_outbox_id o) (pt_outbox_id r)) (pr_outboxes db).
Definition attempt_references (db : presence_db) (r : attempt_row) : bool :=
  existsb (λ t, bytes_eqb (pt_outbox_id t) (pa_outbox_id r)
                && (pt_target_ordinal t =? pa_target_ordinal r)) (pr_targets db).

Definition tables_ok (db : presence_db) : bool :=
  rows_ok (pr_desired db) && rows_ok (pr_outboxes db) && rows_ok (pr_targets db) && rows_ok (pr_attempts db).

(** ** Lemmas *)

Lemma desired_conflict_sym (r o : desired_row) : row_conflict r o = row_conflict o r.
Proof. simpl. by rewrite Z.eqb_sym, bytes_eqb_sym. Qed.

Lemma presence_outbox_conflict_sym (r o : outbox_row) : row_conflict r o = row_conflict o r.
Proof. simpl. by rewrite bytes_eqb_sym, Z.eqb_sym, String.eqb_sym. Qed.

Lemma presence_target_conflict_sym (r o : target_row) : row_conflict r o = row_conflict o r.
Proof. simpl. by rewrite bytes_eqb_sym, Z.eqb_sym, String.eqb_sym. Qed.

Lemma presence_attempt_conflict_sym (r o : attempt_row) : row_conflict r o = row_conflict o r.
Proof.
  simpl. by rewrite (bytes_eqb_sym (pa_attempt_id r)), (bytes_eqb_sym (pa_outbox_id r)),
    (Z.eqb_sym (pa_target_ordinal r)), (Z.eqb_sym (pa_attempt_number r)).
Qed.

(** The desired state is at most one row. *)
Lemma desired_single rows :
  rows_ok rows = true → rows = [] ∨ ∃ r : desired_row, rows = [r] ∧ row_check r = true.
Proof.
  intros Hok. destruct rows as [|r [|o rows]]; [by left| |].
  - right. exists r. split; [done|]. apply (rows_ok_check _ _ Hok). by left.
  - exfalso. pose proof (rows_ok_check _ r Hok ltac:(by left)) as Hr.
    pose proof (rows_ok_check _ o Hok ltac:(by right; left)) as Ho.
    simpl in Hok. unfold row_admissible in Hok. simpl in *. to_prop.
    lia.
Qed.

End PresenceState.
