(* ===== verification/PresenceDesired.v ===== *)
(** * Presence desired state: [src/src/presence_desired.rs]

    The documents and the ordered targets a configuration grants to the service's
    presence, the digests that identify them, and the compare-and-swap that commits
    them as the next generation of the one desired-state row, only while the
    configuration they come from is the latest bound one. *)

From Stdlib Require Import ZArith Lia.
From stdpp Require Import list strings.
From S2P Require Import Prelude.
From S2P Require Import Sql.
From S2P Require Import Interfaces.
From S2P Require Import StateMetadata.
From S2P Require Import Publication.
From S2P Require Import PublicationState.
From S2P Require Import StateConfig.
From S2P Require Import PresenceState.

Module Presence.
Import PubState PresenceState.

Definition RHI_PRESENCE_DESIRED_MAX_TARGETS : Z := 32.
Definition TARGET_SET_DOMAIN : bytes := as_bytes "radroots.rhi.presence_target_set.v1" ++ [0].
Definition DESIRED_STATE_DOMAIN : bytes := as_bytes "radroots.rhi.presence_desired_state.v1" ++ [0].

Inductive RhiPresenceDesiredMode : Type := Disabled | Enabled.
Inductive RhiPresenceDocumentKind : Type := ServiceProfile | ApplicationHandler.

#[export] Instance desired_mode_eq_dec : EqDecision RhiPresenceDesiredMode.
Proof. solve_decision. Defined.
#[export] Instance document_kind_eq_dec : EqDecision RhiPresenceDocumentKind.
Proof. solve_decision. Defined.

Definition document_code (k : RhiPresenceDocumentKind) : string :=
  match k with ServiceProfile => "service_profile" | ApplicationHandler => "application_handler" end.

Definition document_kind_tag (k : RhiPresenceDocumentKind) : Z :=
  match k with ServiceProfile => 0 | ApplicationHandler => 1 end.

(** The struct [RhiPresenceTarget] has the fields of a publication target: ordinal, relay
    and requiredness. *)
Abbreviation RhiPresenceTarget := Authority.RhiPublicationTarget.

Record RhiPresenceDesiredAuthority : Type := MkAuthority {
  au_configuration_sha256 : bytes;
  au_service_public_key : string;
  au_mode : RhiPresenceDesiredMode;
  au_document_kinds : list RhiPresenceDocumentKind;
  au_targets : list RhiPresenceTarget;
  au_queue_capacity : Z;
  au_target_set_sha256 : bytes;
  au_desired_sha256 : bytes;
}.

Record RhiPresenceDesiredState : Type := MkState {
  de_generation : Z;
  de_mode : RhiPresenceDesiredMode;
  de_profile : bool;
  de_application_handler : bool;
  de_target_set_sha256 : bytes;
  de_target_count : Z;
  de_required_target_count : Z;
  de_queue_capacity : Z;
  de_desired_sha256 : bytes;
}.

#[export] Instance desired_state_eq_dec : EqDecision RhiPresenceDesiredState.
Proof. solve_decision. Defined.

Record RhiPresenceDesiredCommitOutcome : Type := MkOutcome {
  dout_state : RhiPresenceDesiredState;
  dout_changed : bool;
}.

Inductive RhiPresenceDesiredErrorKind : Type :=
| InvalidConfiguration | TargetInventory | InvalidMode | Binding | ResourceExhausted | Storage
| CommitOutcomeUnknown.

Inductive OperationError : Type := OpInvalidInput | OpBinding | OpResourceExhausted | OpStorage.

Section authority.
Context `{Sha256, JsonValue V, !JsonWriter V, PublicKeyLibrary K}.

Definition boolean (document : V) (p : string) : result RhiPresenceDesiredErrorKind bool :=
  ok_or (Authority.pointer_bool document p) InvalidConfiguration.
Definition integer (document : V) (p : string) : result RhiPresenceDesiredErrorKind Z :=
  ok_or (match pointer document p with Some v => as_u64 v | None => None end) InvalidConfiguration.
Definition pointer_array (document : V) (p : string) : result RhiPresenceDesiredErrorKind (list V) :=
  ok_or (match pointer document p with Some v => as_array v | None => None end) TargetInventory.

Definition valid_public_key (value : string) : bool :=
  (Config.text_size value =? 64) && Config.lower_hex value
  && is_some_and key_xonly (key_from_hex value).

(** The target loop is the one of publication, statement by statement, with this
    module's error. *)
Definition derive_targets (document : V) (p : string) :
    result RhiPresenceDesiredErrorKind (list RhiPresenceTarget) :=
  let? target_ids := pointer_array document p in
  reject_if ((length target_ids =? 0)%nat
             || (RHI_PRESENCE_DESIRED_MAX_TARGETS <? Z.of_nat (length target_ids))) TargetInventory ;?
  let? relays := pointer_array document "/relays" in
  map_err (λ _, TargetInventory) (Authority.derive_targets relays [] target_ids).

(** What both digests hash of the targets. *)
Definition targets_material (ts : list RhiPresenceTarget) : result RhiPresenceDesiredErrorKind bytes :=
  let? count := ok_or (try_from U32_MAX (Z.of_nat (length ts))) TargetInventory in
  let? _ := collect (λ t, ok_or (try_from U64_MAX
              (Z.of_nat (length (as_bytes (Authority.target_relay_id t))))) TargetInventory) ts in
  Ok (to_be_bytes 4 count ++ concat (map Authority.target_material ts)).

Definition target_set_digest (ts : list RhiPresenceTarget) : result RhiPresenceDesiredErrorKind bytes :=
  let? material := targets_material ts in
  Ok (sha256 (TARGET_SET_DOMAIN ++ material)).

Definition desired_state_digest (mode : RhiPresenceDesiredMode) (kinds : list RhiPresenceDocumentKind)
    (ts : list RhiPresenceTarget) (queue_capacity : Z) (service_public_key : string) :
    result RhiPresenceDesiredErrorKind bytes :=
  let? kind_count := ok_or (try_from U32_MAX (Z.of_nat (length kinds))) InvalidConfiguration in
  let? material := targets_material ts in
  let? _ := ok_or (try_from U64_MAX (Z.of_nat (length (as_bytes service_public_key)))) InvalidConfiguration in
  Ok (sha256
        (DESIRED_STATE_DOMAIN ++ [match mode with Disabled => 0 | Enabled => 1 end]
         ++ to_be_bytes 4 kind_count ++ map document_kind_tag kinds ++ material
         ++ to_be_bytes 4 queue_capacity ++ framed (as_bytes service_public_key))).

Definition derive_authority (document : V) (profile : Metadata.RhiConfigProfile) :
    result RhiPresenceDesiredErrorKind RhiPresenceDesiredAuthority :=
  let? configuration :=
    map_err (λ _, InvalidConfiguration) (Metadata.normalized_config_digest profile document) in
  let? key :=
    ok_or (filter_opt valid_public_key
             (Authority.pointer_str document "/identity/service/expected_public_key")) InvalidConfiguration in
  let? enabled := boolean document "/presence/enabled" in
  let? profile_document := boolean document "/presence/profile" in
  let? application_handler := boolean document "/presence/application_handler" in
  let? configured_queue := integer document "/resource_limits/queues/presence" in
  let? configured_queue := ok_or (try_from U32_MAX configured_queue) InvalidConfiguration in
  reject_if ((configured_queue =? 0) || (4096 <? configured_queue)) InvalidConfiguration ;?
  let mode := if enabled then Enabled else Disabled in
  let? (kinds, ts, queue_capacity) :=
    match mode with
    | Disabled =>
        reject_if (profile_document || application_handler
                   || bool_decide (is_Some (pointer document "/presence/target_relay_ids")))
          InvalidConfiguration ;?
        Ok ([], [], 0)
    | Enabled =>
        let kinds := (if profile_document then [ServiceProfile] else [])
                     ++ (if application_handler then [ApplicationHandler] else []) in
        reject_if (length kinds =? 0)%nat InvalidConfiguration ;?
        let? ts := derive_targets document "/presence/target_relay_ids" in
        Ok (kinds, ts, configured_queue)
    end in
  let? target_set := target_set_digest ts in
  let? desired := desired_state_digest mode kinds ts queue_capacity key in
  Ok (MkAuthority configuration key mode kinds ts queue_capacity target_set desired).
End authority.

(** [impl PartialEq], the derived equality of targets and of authorities. *)
#[export] Instance presence_target_eq_dec : EqDecision RhiPresenceTarget.
Proof. solve_decision. Defined.
#[export] Instance presence_authority_eq_dec : EqDecision RhiPresenceDesiredAuthority.
Proof. solve_decision. Defined.

Definition validate_rhi_presence_desired_authority `{Sha256, JsonValue V, !JsonWriter V, PublicKeyLibrary K}
    (document : V) (profile : Metadata.RhiConfigProfile) (authority : RhiPresenceDesiredAuthority) :
    result RhiPresenceDesiredErrorKind unit :=
  let? expected := derive_authority document profile in
  if bool_decide (expected = authority) then Ok tt else Err Binding.

Definition has_document (a : RhiPresenceDesiredAuthority) (k : RhiPresenceDocumentKind) : bool :=
  existsb (λ o, bool_decide (o = k)) (au_document_kinds a).

Definition required_count (ts : list RhiPresenceTarget) : Z :=
  Z.of_nat (length (List.filter Authority.target_required ts)).

Definition matches_authority (s : RhiPresenceDesiredState) (a : RhiPresenceDesiredAuthority) : bool :=
  bool_decide (de_mode s = au_mode a)
  && eqb (de_profile s) (has_document a ServiceProfile)
  && eqb (de_application_handler s) (has_document a ApplicationHandler)
  && bytes_eqb (de_target_set_sha256 s) (au_target_set_sha256 a)
  && (de_target_count s =? Z.of_nat (length (au_targets a)))
  && (de_required_target_count s =? required_count (au_targets a))
  && (de_queue_capacity s =? au_queue_capacity a)
  && bytes_eqb (de_desired_sha256 s) (au_desired_sha256 a).

Definition presence_authority_matches_state (s : RhiPresenceDesiredState) (a : RhiPresenceDesiredAuthority) :
    bool :=
  matches_authority s a.

(** ** Rows *)

Definition digest (col : bytes) : result OperationError bytes :=
  ok_or (filter_opt (blob_of 32) (Some col)) OpBinding.
Definition positive_u64 (col : Z) : result OperationError Z :=
  ok_or (filter_opt (λ v, negb (v =? 0)) (try_from U64_MAX col)) OpBinding.
Definition boolean_i64 (col : Z) : result OperationError bool :=
  if col =? 0 then Ok false else if col =? 1 then Ok true else Err OpBinding.
Definition count_u8 (col maximum : Z) : result OperationError Z :=
  ok_or (filter_opt (λ v, v <=? maximum) (try_from U8_MAX col)) OpBinding.
Definition bool_i64 (b : bool) : Z := if b then 1 else 0.
Definition i64_count (n : nat) : result OperationError Z :=
  ok_or (try_from I64_MAX (Z.of_nat n)) OpInvalidInput.
Definition i64_value (v : Z) : result OperationError Z := ok_or (try_from I64_MAX v) OpResourceExhausted.

(** An enabled state has documents, targets and a queue; a disabled one has none. *)
Definition valid_desired (enabled profile application_handler : bool) (count required queue : Z) : bool :=
  if enabled then (profile || application_handler) && (0 <? count) && (0 <? queue)
  else negb profile && negb application_handler && (count =? 0) && (required =? 0) && (queue =? 0).

Definition decode_desired (r : desired_row) : result OperationError RhiPresenceDesiredState :=
  reject_if (negb (ds_singleton r =? 1)) OpBinding ;?
  let? generation := positive_u64 (ds_generation r) in
  let? enabled := boolean_i64 (ds_enabled r) in
  let? profile := boolean_i64 (ds_profile r) in
  let? application_handler := boolean_i64 (ds_application_handler r) in
  let? target_set := digest (ds_target_set_sha256 r) in
  let? count := count_u8 (ds_target_count r) RHI_PRESENCE_DESIRED_MAX_TARGETS in
  let? required := count_u8 (ds_required_target_count r) count in
  let? queue := ok_or (filter_opt (λ v, v <=? 4096) (try_from U32_MAX (ds_queue_capacity r))) OpBinding in
  let? desired := digest (ds_desired_sha256 r) in
  reject_if (negb (valid_desired enabled profile application_handler count required queue)) OpBinding ;?
  Ok (MkState generation (if enabled then Enabled else Disabled) profile application_handler target_set count
        required queue desired).

Definition READ_DESIRED_SQL (rows : list desired_row) : list desired_row := take 2 rows.

Definition read_desired (db : presence_db) : result OperationError (option RhiPresenceDesiredState) :=
  match READ_DESIRED_SQL (pr_desired db) with
  | [] => Ok None
  | [r] => let? s := decode_desired r in Ok (Some s)
  | _ => Err OpBinding
  end.

Definition latest_first : Config.config_row → Config.config_row → comparison :=
  cmp_on Config.cg_generation (λ x y, Z.compare y x).

Definition READ_CURRENT_CONFIG_SQL (rows : list Config.config_row) : list Config.config_row :=
  take 1 (sort_by latest_first rows).

(** ** Operations *)

Section operations.
Context `{PublicKeyLibrary K}.

Definition require_current_config (a : RhiPresenceDesiredAuthority) (db : presence_db) :
    result OperationError unit :=
  match READ_CURRENT_CONFIG_SQL (pr_bindings db) with
  | [row] =>
      let? configuration := digest (Config.cg_normalized_config_sha256 row) in
      let? key_bytes :=
        ok_or (filter_opt (λ v, v =? 64) (Some (Config.text_size (Config.cg_service_public_key row)))) OpBinding in
      let key := String.substring 0 65 (Config.cg_service_public_key row) in
      reject_if (negb (Config.text_size key =? key_bytes) || negb (valid_public_key key)
                 || negb (bytes_eqb configuration (au_configuration_sha256 a))
                 || negb (String.eqb key (au_service_public_key a))) OpBinding
  | _ => Err OpBinding
  end.

(** The values both statements bind. *)
Definition desired_values (generation : Z) (a : RhiPresenceDesiredAuthority) : result OperationError desired_row :=
  let? count := i64_count (length (au_targets a)) in
  let? required := i64_count (length (List.filter Authority.target_required (au_targets a))) in
  Ok (DesiredRow 1 generation (bool_i64 (bool_decide (au_mode a = Enabled)))
        (bool_i64 (has_document a ServiceProfile)) (bool_i64 (has_document a ApplicationHandler))
        (au_target_set_sha256 a) count required (au_queue_capacity a) (au_desired_sha256 a)).

Definition UPDATE_DESIRED_SQL (values : desired_row) (generation : Z) (desired : bytes)
    (rows : list desired_row) : result sql_error (list desired_row * Z) :=
  update_rows
    (λ r, (ds_singleton r =? 1) && (ds_generation r =? generation) && bytes_eqb (ds_desired_sha256 r) desired)
    (λ r, DesiredRow (ds_singleton r) (ds_generation r + 1) (ds_enabled values) (ds_profile values)
            (ds_application_handler values) (ds_target_set_sha256 values) (ds_target_count values)
            (ds_required_target_count values) (ds_queue_capacity values) (ds_desired_sha256 values)) rows.

Definition INSERT_DESIRED_SQL (values : desired_row) (rows : list desired_row) :
    result sql_error (list desired_row * Z) :=
  let? rows := insert_row (desired_guard_insert rows) values rows in Ok (rows, 1).

(** [rows_affected() != 1] is a lost binding. *)
Definition exec_one (r : result sql_error (list desired_row * Z)) : result OperationError (list desired_row) :=
  let? (rows, affected) := map_err (λ _, OpStorage) r in
  reject_if (negb (affected =? 1)) OpBinding ;? Ok rows.

Definition commit_desired (a : RhiPresenceDesiredAuthority) (db : presence_db) :
    result OperationError (RhiPresenceDesiredCommitOutcome * presence_db) :=
  require_current_config a db ;?
  let? current := read_desired db in
  match filter_opt (λ s, matches_authority s a) current with
  | Some s => Ok (MkOutcome s false, db)
  | None =>
    let? rows :=
      match current with
      | Some s =>
          reject_if (de_generation s =? I64_MAX) OpResourceExhausted ;?
          let? values := desired_values 1 a in
          let? generation := i64_value (de_generation s) in
          exec_one (UPDATE_DESIRED_SQL values generation (de_desired_sha256 s) (pr_desired db))
      | None =>
          let? values := desired_values 1 a in
          exec_one (INSERT_DESIRED_SQL values (pr_desired db))
      end in
    let db := with_desired db rows in
    let? read := read_desired db in
    let? committed := ok_or (filter_opt (λ s, matches_authority s a) read) OpBinding in
    Ok (MkOutcome committed true, db)
  end.

Definition map_transaction_error (e : tx_error OperationError) : RhiPresenceDesiredErrorKind :=
  if commit_outcome_unknown e then CommitOutcomeUnknown
  else match operation_error e with
       | Some OpInvalidInput => InvalidConfiguration
       | Some OpBinding => Binding
       | Some OpResourceExhausted => ResourceExhausted
       | Some OpStorage | None => Storage
       end.

Context `{TransactionHost presence_db}.

(** [RhiDesiredPresenceRepository::commit] *)
Definition commit (writable : bool) (a : RhiPresenceDesiredAuthority) (db : presence_db) :
    result RhiPresenceDesiredErrorKind RhiPresenceDesiredCommitOutcome * presence_db :=
  if writable then
    let '(res, db) := transaction (commit_desired a) db in (map_err map_transaction_error res, db)
  else (Err InvalidMode, db).

(** [RhiDesiredPresenceRepository::current] *)
Definition current (db : presence_db) :
    result RhiPresenceDesiredErrorKind (option RhiPresenceDesiredState) * presence_db :=
  let '(res, db) := transaction (λ db, let? s := read_desired db in Ok (s, db)) db in
  (map_err map_transaction_error res, db).
End operations.

End Presence.
