(* ===== verification/PresenceDesiredSafety.v ===== *)
(** * Correctness of the presence desired state

    A derived authority is well-formed and its digest identifies it; committing it is
    an atomic compare-and-swap on the one desired-state row, and it succeeds whenever
    the authority belongs to the bound configuration. *)

From Stdlib Require Import ZArith Lia.
From stdpp Require Import list strings.
From S2P Require Import Prelude.
From S2P Require Import Sql.
From S2P Require Import Interfaces.
From S2P Require Import StateMetadata.
From S2P Require Import Publication.
From S2P Require Import PublicationState.
From S2P Require Import StateConfig.
From S2P Require Import StateConfigSafety.
From S2P Require Import PresenceState.
From S2P Require Import PresenceDesired.

Module PresenceSafety.
Import PresenceState Presence.

(** ** Well-formed authorities *)

Definition presence_ok `{Sha256} (a : RhiPresenceDesiredAuthority) : Prop :=
  Authority.targets_ok (au_targets a) ∧
  Config.text_size (au_service_public_key a) = 64 ∧
  target_set_digest (au_targets a) = Ok (au_target_set_sha256 a) ∧
  desired_state_digest (au_mode a) (au_document_kinds a) (au_targets a) (au_queue_capacity a)
    (au_service_public_key a) = Ok (au_desired_sha256 a) ∧
  match au_mode a with
  | Enabled => au_targets a ≠ [] ∧ 1 ≤ au_queue_capacity a ≤ 4096 ∧
      (au_document_kinds a = [ServiceProfile] ∨ au_document_kinds a = [ApplicationHandler] ∨
       au_document_kinds a = [ServiceProfile; ApplicationHandler])
  | Disabled => au_targets a = [] ∧ au_queue_capacity a = 0 ∧ au_document_kinds a = []
  end.

Section authority.
Context `{Sha256, JsonValue V, !JsonLaws V, !JsonWriter V, PublicKeyLibrary K}.

Lemma derive_presence_targets_Ok (document : V) p ts :
  derive_targets document p = Ok ts → Authority.targets_ok ts ∧ ts ≠ [].
Proof.
  unfold derive_targets. intros Hd. bind Hd as ids Hids. bind Hd as u Hu. bind Hd as relays Hr.
  apply map_err_Ok in Hd. apply reject_if_Ok in Hu. to_prop.
  match goal with E : (_ =? _)%nat = false |- _ => apply Nat.eqb_neq in E end.
  apply Authority.derive_targets_Ok in Hd as (Hlen & Hord & Hnd & Hv & _); [|done|constructor..].
  unfold Authority.targets_ok, Authority.RHI_PUBLICATION_MAX_TARGETS, RHI_PRESENCE_DESIRED_MAX_TARGETS in *.
  simpl in Hlen. split; [split_and!; try done; lia|]. intros ->. simpl in Hlen. lia.
Qed.

Lemma derive_presence_Ok (document : V) profile a :
  Presence.derive_authority document profile = Ok a → presence_ok a.
Proof.
  unfold Presence.derive_authority. intros Ha. bind Ha as conf Hconf. bind Ha as key Hk.
  bind Ha as en He. bind Ha as pr Hp. bind Ha as ah Hah. bind Ha as q Hq. bind Ha as q' Hq'. bind Ha as u Hu.
  bind Ha as krt Hkrt. destruct krt as [[kinds ts] queue]. bind Ha as set Hset. bind Ha as des Hdes.
  injection Ha as <-. apply ok_or_Ok, filter_opt_Some in Hk as [_ Hk]. unfold valid_public_key in Hk.
  apply ok_or_Ok, try_from_Some in Hq' as [-> Hq']. apply reject_if_Ok in Hu. to_prop.
  unfold presence_ok. simpl. destruct en.
  - bind Hkrt as u1 Hne. apply reject_if_Ok in Hne. bind Hkrt as ts' Hts. injection Hkrt as <- <- <-.
    apply derive_presence_targets_Ok in Hts as [Hts Hnil]. split_and!; try done; try lia.
    destruct pr, ah; simpl in *; auto; done.
  - bind Hkrt as u1 Hne. injection Hkrt as <- <- <-. split_and!; try done.
    unfold Authority.targets_ok, Authority.RHI_PUBLICATION_MAX_TARGETS. simpl. split_and!; try done; constructor.
Qed.

Lemma targets_material_Ok ts m :
  targets_material ts = Ok m →
  m = to_be_bytes 4 (Z.of_nat (length ts)) ++ concat (map Authority.target_material ts).
Proof.
  unfold targets_material. intros Hm. bind Hm as c Hc. bind Hm as l Hl. apply ok_or_Ok, try_from_Some in Hc as [-> _].
  by injection Hm.
Qed.

Lemma targets_materials_app_inj ts ts' k k' :
  Authority.targets_ok ts → Authority.targets_ok ts' → length ts = length ts' →
  concat (map Authority.target_material ts) ++ k = concat (map Authority.target_material ts') ++ k' →
  ts = ts' ∧ k = k'.
Proof.
  intros Hok Hok'. pose proof (λ t, Authority.targets_ok_in_range ts t Hok) as Hr.
  pose proof (λ t, Authority.targets_ok_in_range ts' t Hok') as Hr'. clear Hok Hok'. revert ts' Hr'.
  induction ts as [|t ts IH]; intros [|t' ts'] Hr' Hl Heq; try done.
  cbn [map concat] in Heq. rewrite <- !app_assoc in Heq.
  apply Authority.target_material_inj in Heq as [-> Heq]; [|apply Hr; left|apply Hr'; left].
  apply IH in Heq as [-> ->]; [done| | |by injection Hl]; intros x Hx; [apply Hr|apply Hr']; by right.
Qed.

Lemma kinds_app_inj a a' k k' :
  presence_ok a → presence_ok a' →
  [match au_mode a with Disabled => 0 | Enabled => 1 end] ++ to_be_bytes 4 (Z.of_nat (length (au_document_kinds a)))
    ++ map document_kind_tag (au_document_kinds a) ++ k =
  [match au_mode a' with Disabled => 0 | Enabled => 1 end] ++ to_be_bytes 4 (Z.of_nat (length (au_document_kinds a')))
    ++ map document_kind_tag (au_document_kinds a') ++ k' →
  au_mode a = au_mode a' ∧ au_document_kinds a = au_document_kinds a' ∧ k = k'.
Proof.
  intros (_ & _ & _ & _ & Hm) (_ & _ & _ & _ & Hm') Heq.
  destruct (au_mode a), (au_mode a'); try discriminate Heq; apply app_inv_head in Heq;
    (split; [done|]); apply app_inj_fixed in Heq as [Hn Heq]; try (by rewrite !length_to_be_bytes).
  - destruct Hm as (_ & _ & Hk), Hm' as (_ & _ & Hk'). rewrite Hk, Hk' in *. done.
  - destruct Hm as (_ & _ & Hk), Hm' as (_ & _ & Hk').
    destruct Hk as [Hk|[Hk|Hk]], Hk' as [Hk'|[Hk'|Hk']]; rewrite Hk, Hk' in *;
      apply to_be_bytes_inj in Hn; simpl in *; try lia; try discriminate Heq; by injection Heq.
Qed.

Lemma desired_state_digest_Ok mode kinds ts queue key d :
  desired_state_digest mode kinds ts queue key = Ok d →
  d = sha256 (DESIRED_STATE_DOMAIN ++ [match mode with Disabled => 0 | Enabled => 1 end]
         ++ to_be_bytes 4 (Z.of_nat (length kinds)) ++ map document_kind_tag kinds
         ++ (to_be_bytes 4 (Z.of_nat (length ts)) ++ concat (map Authority.target_material ts))
         ++ to_be_bytes 4 queue ++ framed (as_bytes key)) ∧
  Z.of_nat (length (as_bytes key)) ≤ U64_MAX.
Proof.
  unfold desired_state_digest. intros Hd. bind Hd as n Hn. bind Hd as m Hmat. bind Hd as l Hl.
  apply ok_or_Ok, try_from_Some in Hn as [-> _], Hl as [_ Hl]. apply targets_material_Ok in Hmat as ->.
  split; [by injection Hd|lia].
Qed.

Lemma desired_digest_inj a a' :
  presence_ok a → presence_ok a' → au_desired_sha256 a = au_desired_sha256 a' →
  (au_mode a = au_mode a' ∧ au_document_kinds a = au_document_kinds a' ∧ au_targets a = au_targets a' ∧
   au_queue_capacity a = au_queue_capacity a' ∧ au_service_public_key a = au_service_public_key a' ∧
   au_target_set_sha256 a = au_target_set_sha256 a') ∨ sha256_collision.
Proof.
  intros Hok Hok' Heq. pose proof Hok as (Hts & Hkey & Hset & Hd & Hm). pose proof Hok' as (Hts' & Hkey' & Hset' & Hd' & Hm').
  apply desired_state_digest_Ok in Hd as [Hd Hl], Hd' as [Hd' Hl'].
  rewrite Hd, Hd' in Heq. apply sha256_inj_or_collision in Heq as [Heq|]; [left|by right].
  apply app_inv_head in Heq. apply kinds_app_inj in Heq as (Hmode & Hkinds & Heq); [|done..].
  rewrite <- !app_assoc in Heq. apply app_inj_fixed in Heq as [Hc Heq]; [|by rewrite !length_to_be_bytes].
  assert (Z.of_nat (length (au_targets a)) ≤ 32 ∧ Z.of_nat (length (au_targets a')) ≤ 32) as [Hb Hb'].
  { destruct Hts as [? _], Hts' as [? _]. unfold Authority.RHI_PUBLICATION_MAX_TARGETS in *. done. }
  apply to_be_bytes_inj in Hc; [|simpl; lia..]. apply targets_materials_app_inj in Heq as [Htargets Heq]; [|done|done|by apply Nat2Z.inj].
  apply app_inj_fixed in Heq as [Hq Heq]; [|by rewrite !length_to_be_bytes].
  apply to_be_bytes_inj in Hq;
    [|destruct (au_mode a); simpl; [destruct Hm as (_ & -> & _)|destruct Hm as (_ & ? & _)]; lia
     |destruct (au_mode a'); simpl; [destruct Hm' as (_ & -> & _)|destruct Hm' as (_ & ? & _)]; lia].
  rewrite <- (app_nil_r (framed _)), <- (app_nil_r (framed (as_bytes (au_service_public_key a')))) in Heq.
  apply framed_app_inj in Heq as [Hk _]; [|lia..]. apply as_bytes_inj in Hk.
  rewrite Htargets in Hset. split_and!; congruence.
Qed.
End authority.

(** ** The desired-state row *)

Lemma read_desired_cases db s :
  rows_ok (pr_desired db) = true → read_desired db = Ok s →
  match s with
  | None => pr_desired db = []
  | Some s => ∃ r, pr_desired db = [r] ∧ row_check r = true ∧ decode_desired r = Ok s
  end.
Proof.
  intros Hok. unfold read_desired, READ_DESIRED_SQL.
  destruct (desired_single _ Hok) as [->|(r & -> & Hr)]; simpl; [by intros [= <-]|].
  intros Hs. bind Hs as d Hd. injection Hs as <-. eauto.
Qed.

Lemma decode_desired_Ok r s :
  decode_desired r = Ok s →
  de_generation s = ds_generation r ∧ de_target_set_sha256 s = ds_target_set_sha256 r ∧
  de_target_count s = ds_target_count r ∧ de_required_target_count s = ds_required_target_count r ∧
  de_queue_capacity s = ds_queue_capacity r ∧ de_desired_sha256 s = ds_desired_sha256 r ∧
  ds_singleton r = 1.
Proof.
  unfold decode_desired, digest, positive_u64, count_u8. intros Hd. inv_ok. to_prop. inv_int. simpl. done.
Qed.

(** A row written from the values of an authority reads back as that authority's state. *)
Definition values_row (generation : Z) (a : RhiPresenceDesiredAuthority) : desired_row :=
  DesiredRow 1 generation (bool_i64 (bool_decide (au_mode a = Enabled)))
    (bool_i64 (has_document a ServiceProfile)) (bool_i64 (has_document a ApplicationHandler))
    (au_target_set_sha256 a) (Z.of_nat (length (au_targets a))) (required_count (au_targets a))
    (au_queue_capacity a) (au_desired_sha256 a).

Definition values_state (generation : Z) (a : RhiPresenceDesiredAuthority) : RhiPresenceDesiredState :=
  MkState generation (au_mode a) (has_document a ServiceProfile) (has_document a ApplicationHandler)
    (au_target_set_sha256 a) (Z.of_nat (length (au_targets a))) (required_count (au_targets a))
    (au_queue_capacity a) (au_desired_sha256 a).

Lemma values_state_matches generation a : matches_authority (values_state generation a) a = true.
Proof.
  unfold matches_authority, values_state. simpl.
  rewrite bool_decide_eq_true_2 by done. by rewrite !eqb_reflx, !bytes_eqb_refl, !Z.eqb_refl.
Qed.

Lemma desired_values_Ok generation a r : desired_values generation a = Ok r → r = values_row generation a.
Proof.
  unfold desired_values, i64_count. intros Hv. bind Hv as c Hc. bind Hv as q Hq.
  apply ok_or_Ok, try_from_Some in Hc as [-> _], Hq as [-> _]. by injection Hv.
Qed.

Lemma required_count_le ts : 0 ≤ required_count ts ≤ Z.of_nat (length ts).
Proof. unfold required_count. pose proof (List.filter_length_le Authority.target_required ts). lia. Qed.

Section values.
Context `{Sha256, !Sha256Laws}.

Lemma presence_digest_lengths a :
  presence_ok a → length (au_target_set_sha256 a) = 32%nat ∧ length (au_desired_sha256 a) = 32%nat.
Proof.
  intros (_ & _ & Hset & Hd & _). unfold target_set_digest in Hset. bind Hset as m Hm.
  apply desired_state_digest_Ok in Hd as [-> _]. split; [injection Hset as <-|]; apply sha256_length.
Qed.

Lemma presence_shape a :
  presence_ok a →
  Z.of_nat (length (au_targets a)) ≤ 32 ∧ 0 ≤ au_queue_capacity a ≤ 4096 ∧
  match au_mode a with
  | Enabled => 1 ≤ Z.of_nat (length (au_targets a)) ∧ 1 ≤ au_queue_capacity a ∧
      has_document a ServiceProfile || has_document a ApplicationHandler = true
  | Disabled => length (au_targets a) = 0%nat ∧ au_queue_capacity a = 0 ∧
      has_document a ServiceProfile = false ∧ has_document a ApplicationHandler = false
  end.
Proof.
  intros ((Hlen & _) & _ & _ & _ & Hm). unfold Authority.RHI_PUBLICATION_MAX_TARGETS, has_document in *.
  destruct (au_mode a).
  - destruct Hm as (-> & -> & ->). simpl. split_and!; done || lia.
  - destruct Hm as (Hne & Hq & Hk). assert (1 ≤ Z.of_nat (length (au_targets a))) by (destruct (au_targets a); [done|simpl; lia]).
    split_and!; try lia. by destruct Hk as [->|[->| ->]].
Qed.

Lemma values_row_check generation a :
  presence_ok a → 1 ≤ generation ≤ I64_MAX → row_check (values_row generation a) = true.
Proof.
  intros Ha Hg. destruct (presence_digest_lengths a Ha) as [Hl1 Hl2].
  destruct (presence_shape a Ha) as (Hlen & Hq & Hm). pose proof (required_count_le (au_targets a)) as Hr.
  simpl. unfold PubState.blob_of, flag_column. rewrite Hl1, Hl2.
  rewrite !(proj2 (between_true _ _ _)) by lia.
  unfold desired_shape_check. simpl. destruct (au_mode a).
  - destruct Hm as (Hn & -> & -> & ->). rewrite Hn in *. simpl in *. replace (required_count _) with 0 by lia. done.
  - destruct Hm as (Hn & Hq1 & Hdoc). rewrite !(proj2 (between_true _ _ _)) by lia. simpl.
    by destruct (has_document a ServiceProfile), (has_document a ApplicationHandler).
Qed.

Lemma decode_values_row generation a :
  presence_ok a → 1 ≤ generation ≤ I64_MAX → decode_desired (values_row generation a) = Ok (values_state generation a).
Proof.
  intros Ha Hg. destruct (presence_digest_lengths a Ha) as [Hl1 Hl2].
  destruct (presence_shape a Ha) as (Hlen & Hq & Hm). pose proof (required_count_le (au_targets a)) as Hr.
  unfold decode_desired, digest, positive_u64, count_u8, PubState.blob_of, RHI_PRESENCE_DESIRED_MAX_TARGETS. simpl.
  rewrite Hl1, Hl2. unfold_max. unfold boolean_i64, valid_desired, values_state.
  rewrite !(proj2 (try_from_Some _ _ _)) by (split; [done|unfold_max; lia]). simpl.
  rewrite (proj2 (Z.eqb_neq generation 0)) by lia. simpl.
  rewrite !(proj2 (Z.leb_le _ _)) by lia. simpl. destruct (au_mode a); simpl.
  - destruct Hm as (Hn & -> & -> & ->). rewrite Hn in *. simpl in *. replace (required_count _) with 0 by lia. done.
  - destruct Hm as (Hn & Hq1 & Hdoc). rewrite !(proj2 (Z.leb_le _ _)) by lia. simpl.
    rewrite !(proj2 (Z.ltb_lt 0 _)) by lia.
    by destruct (has_document a ServiceProfile), (has_document a ApplicationHandler).
Qed.
End values.

(** ** The compare-and-swap *)

(** The latest bound configuration is the authority's. *)
Definition bound_configuration (a : RhiPresenceDesiredAuthority) (db : presence_db) : Prop :=
  ∃ r, r ∈ pr_bindings db ∧ (∀ o, o ∈ pr_bindings db → Config.cg_generation o ≤ Config.cg_generation r) ∧
    Config.cg_normalized_config_sha256 r = au_configuration_sha256 a ∧
    Config.cg_service_public_key r = au_service_public_key a.

(** What a commit that wrote a generation has done. *)
Record desired_advanced (a : RhiPresenceDesiredAuthority) (s : RhiPresenceDesiredState) (db db' : presence_db) :
    Prop := {
  da_previous : ∃ previous, read_desired db = Ok previous ∧
    is_some_and (λ s, matches_authority s a) previous = false ∧
    de_generation s = match previous with None => 1 | Some p => de_generation p + 1 end;
  da_read : read_desired db' = Ok (Some s);
  da_matches : matches_authority s a = true;
  da_frame : ∃ rows, db' = with_desired db rows ∧ rows_ok rows = true;
}.

#[export] Instance latest_first_ordering : Ordering latest_first.
Proof.
  split; unfold latest_first, cmp_on; intros *.
  - by rewrite Z.compare_antisym.
  - intros H1 H2. destruct c; rewrite ?Z.compare_eq_iff, ?Z.compare_lt_iff, ?Z.compare_gt_iff in *; lia.
  - rewrite Z.compare_eq_iff. by intros ->.
Qed.

Section commit.
Context `{PublicKeyLibrary K}.

Lemma current_config_Ok a db u : require_current_config a db = Ok u → bound_configuration a db.
Proof.
  unfold require_current_config, READ_CURRENT_CONFIG_SQL.
  destruct (sort_by latest_first (pr_bindings db)) as [|r rows] eqn:Hs; [done|]. cbn [take]. intros Hc.
  bind Hc as conf Hconf. apply ok_or_Ok, filter_opt_Some in Hconf as [[= <-] _].
  bind Hc as kb Hkb. apply ok_or_Ok, filter_opt_Some in Hkb as [[= <-] Hkb].
  apply reject_if_Ok in Hc. to_prop.
  repeat match goal with
  | E : bytes_eqb _ _ = true |- _ => apply bytes_eqb_true in E
  | E : String.eqb _ _ = true |- _ => apply String.eqb_eq in E
  end.
  rewrite ConfigSafety.substring_all in * by (unfold Config.text_size in *; lia).
  pose proof (sort_by_head latest_first (pr_bindings db) r) as Hh. rewrite Hs in Hh.
  destruct (Hh eq_refl) as [Hin Hmin]. exists r. split_and!; try done.
  intros o Ho. specialize (Hmin o Ho). unfold is_le, latest_first, cmp_on in Hmin.
  destruct (Z.compare_spec (Config.cg_generation o) (Config.cg_generation r)); lia || done.
Qed.

Lemma update_desired_Ok values generation desired rows rows' n :
  rows_ok rows = true → UPDATE_DESIRED_SQL values generation desired rows = Ok (rows', n) →
  rows_ok rows' = true.
Proof. intros Hok Hu. by eapply (update_rows_ok desired_conflict_sym). Qed.

Lemma exec_one_Ok r rows : exec_one r = Ok rows ↔ r = Ok (rows, 1).
Proof.
  unfold exec_one. destruct r as [[rows0 n]|]; simpl; [|split; done].
  destruct (Z.eqb_spec n 1) as [->|]; simpl; split; naive_solver.
Qed.

Lemma commit_desired_Ok a db out db' :
  rows_ok (pr_desired db) = true → commit_desired a db = Ok (out, db') →
  bound_configuration a db ∧
  if dout_changed out then desired_advanced a (dout_state out) db db'
  else db' = db ∧ read_desired db = Ok (Some (dout_state out)) ∧ matches_authority (dout_state out) a = true.
Proof.
  intros Hok Hc. unfold commit_desired in Hc. bind Hc as u Hcur. apply current_config_Ok in Hcur. split; [done|].
  bind Hc as current Hread. destruct (filter_opt _ current) as [s|] eqn:Hf.
  - apply filter_opt_Some in Hf as [-> Hm]. by injection Hc as <- <-.
  - assert (is_some_and (λ s, matches_authority s a) current = false) as Hno.
    { destruct current as [s|]; [|done]. simpl in *. by destruct (matches_authority s a). }
    bind Hc as rows Hrows. bind Hc as read Hr. bind Hc as committed Hcm. injection Hc as <- <-. simpl.
    apply ok_or_Ok, filter_opt_Some in Hcm as [-> Hm].
    assert (rows_ok rows = true ∧ ∀ r, rows = [r] → ds_generation r =
      match current with None => 1 | Some p => de_generation p + 1 end) as [Hok' Hgen].
    { destruct current as [p|].
      - bind Hrows as u1 Hmax. bind Hrows as values Hv. bind Hrows as g Hg. apply exec_one_Ok in Hrows.
        split; [by eapply update_desired_Ok|]. intros r ->.
        destruct (read_desired_cases _ _ Hok Hread) as (r0 & Hr0 & _ & Hd). rewrite Hr0 in Hrows.
        apply decode_desired_Ok in Hd as (-> & _).
        apply update_rows_Ok in Hrows as (Hrs & Hn & _). simpl in Hrs, Hn. unfold apply_where in Hrs.
        destruct (_ && _) in Hrs, Hn; [|done]. by injection Hrs as ->.
      - bind Hrows as values Hv. apply exec_one_Ok in Hrows. unfold INSERT_DESIRED_SQL in Hrows.
        bind Hrows as rows0 Hins. injection Hrows as <-.
        pose proof (insert_row_ok desired_conflict_sym _ _ _ _ Hok Hins). split; [done|].
        apply insert_row_Ok in Hins as (-> & Hg & _). unfold desired_guard_insert in Hg. to_prop.
        destruct (pr_desired db); [|done]. by intros r [= <-]. }
    split; simpl.
    + exists current. split_and!; [done|done|].
      destruct (read_desired_cases (with_desired db rows) _ Hok' Hr) as (r & Hrr & _ & Hd). simpl in Hrr.
      apply decode_desired_Ok in Hd as (-> & _). by apply Hgen.
    + done.
    + done.
    + by exists rows.
Qed.
End commit.

(** ** Progress *)

(** The state an earlier commit of some authority left behind. *)
Definition committed_before `{Sha256} (db : presence_db) : Prop :=
  read_desired db = Ok None ∨
  ∃ s a0, read_desired db = Ok (Some s) ∧ presence_ok a0 ∧ matches_authority s a0 = true ∧
    1 ≤ de_generation s < I64_MAX.

Section progress.
Context `{Sha256, !Sha256Laws, PublicKeyLibrary K}.

Lemma matches_authority_true s a :
  matches_authority s a = true ↔ s = values_state (de_generation s) a.
Proof.
  split; [|intros ->; apply values_state_matches]. unfold matches_authority. intros Hm. to_prop.
  repeat match goal with
  | E : bytes_eqb _ _ = true |- _ => apply bytes_eqb_true in E
  | E : eqb _ _ = true |- _ => apply eqb_prop in E
  end.
  unfold values_state. destruct s; simpl in *. by f_equal.
Qed.

Lemma desired_values_total generation a :
  presence_ok a → desired_values generation a = Ok (values_row generation a).
Proof.
  intros Ha. destruct (presence_shape a Ha) as (Hlen & _). pose proof (required_count_le (au_targets a)) as Hr.
  unfold desired_values, i64_count, required_count in *.
  by rewrite !(proj2 (try_from_Some _ _ _)) by (split; [done|unfold_max; lia]).
Qed.

Lemma read_one db r s : pr_desired db = [r] → decode_desired r = Ok s → read_desired db = Ok (Some s).
Proof. unfold read_desired. intros -> Hd. simpl. by rewrite Hd. Qed.

(** The write of one generation. *)
Lemma commit_written a db rows generation :
  presence_ok a → 1 ≤ generation ≤ I64_MAX → rows = [values_row generation a] →
  (let? read := read_desired (with_desired db rows) in
   let? committed := ok_or (filter_opt (λ s, matches_authority s a) read) OpBinding in
   Ok (MkOutcome committed true, with_desired db rows)) =
    Ok (MkOutcome (values_state generation a) true, with_desired db rows).
Proof.
  intros Ha Hg ->. rewrite (read_one _ (values_row generation a) (values_state generation a)); [|done|by apply decode_values_row].
  simpl. by rewrite values_state_matches.
Qed.

Lemma update_desired_total a r s :
  presence_ok a → row_check r = true → decode_desired r = Ok s → de_generation s < I64_MAX →
  au_desired_sha256 a ≠ de_desired_sha256 s →
  UPDATE_DESIRED_SQL (values_row 1 a) (de_generation s) (de_desired_sha256 s) [r] =
    Ok ([values_row (de_generation s + 1) a], 1).
Proof.
  intros Ha Hr Hd Hlt Hne. apply decode_desired_Ok in Hd as (Hg & _ & _ & _ & _ & Hs & Hone). rewrite Hg, Hs in *.
  assert (row_check (values_row (ds_generation r + 1) a) = true) as Hv.
  { apply values_row_check; [done|]. simpl in Hr. to_prop. inv_int. lia. }
  assert (row_guard r (values_row (ds_generation r + 1) a) = true) as Hguard.
  { simpl. rewrite Hone, !Z.eqb_refl, (proj2 (Z.leb_gt _ _) Hlt). simpl.
    destruct (bytes_eqb _ _) eqn:E; [|done]. by apply bytes_eqb_true in E. }
  unfold UPDATE_DESIRED_SQL, update_rows. cbn [update_rows_from].
  rewrite Hone, !Z.eqb_refl, bytes_eqb_refl. cbn [andb app].
  change (DesiredRow _ _ _ _ _ _ _ _ _ _) with (values_row (ds_generation r + 1) a).
  unfold row_admissible. by rewrite Hguard, Hv.
Qed.

Lemma same_digest_same_state generation a a' :
  presence_ok a → presence_ok a' → au_desired_sha256 a = au_desired_sha256 a' →
  values_state generation a = values_state generation a' ∨ sha256_collision.
Proof.
  intros Ha Ha' Hd. destruct (desired_digest_inj a a' Ha Ha' Hd) as [(Hm & Hk & Ht & Hq & _ & Hs)|]; [left|by right].
  unfold values_state, has_document. congruence.
Qed.

(** The desired state of a configuration can always be committed.  When the latest
    bound configuration is the one an authority was derived from, and the stored
    desired state, if any, was committed for some authority and has a generation left,
    the compare-and-swap succeeds; only a SHA-256 collision could stop it. *)
Theorem desired_commit_succeeds `{JsonValue V, !JsonWriter V} (document : V) profile a db :
  derive_authority document profile = Ok a → require_current_config a db = Ok tt →
  rows_ok (pr_desired db) = true → committed_before db →
  (∃ out db', commit_desired a db = Ok (out, db') ∧ dout_state out = values_state (de_generation (dout_state out)) a) ∨
  sha256_collision.
Proof.
  intros Ha%derive_presence_Ok Hcur Hok Hb. unfold commit_desired. rewrite Hcur. cbn [and_then].
  destruct Hb as [Hnone|(s & a0 & Hs & Ha0 & Hm0 & Hlt)].
  - rewrite Hnone. cbn [and_then filter_opt]. rewrite desired_values_total by done. cbn [and_then].
    apply read_desired_cases in Hnone; [|done]. rewrite Hnone. unfold INSERT_DESIRED_SQL, insert_row, row_admissible.
    rewrite (values_row_check 1 a Ha) by (unfold_max; lia). simpl.
    left. eexists _, _. split; [apply (commit_written a db _ 1); [done|unfold_max; lia|done]|done].
  - rewrite Hs. cbn [and_then filter_opt]. destruct (matches_authority s a) eqn:Hm.
    { left. eexists _, _. split; [done|]. simpl. by apply matches_authority_true. }
    rewrite (proj2 (Z.eqb_neq _ _)) by lia. cbn [reject_if and_then]. rewrite desired_values_total by done.
    cbn [and_then]. unfold i64_value. rewrite (proj2 (try_from_Some _ _ (de_generation s))) by (split; [done|lia]).
    cbn [ok_or and_then]. destruct (read_desired_cases _ _ Hok Hs) as (r & Hr & Hrc & Hd). rewrite Hr.
    destruct (decide (au_desired_sha256 a = de_desired_sha256 s)) as [Heq|Hne].
    + right. apply matches_authority_true in Hm0. rewrite Hm0 in Heq. simpl in Heq.
      destruct (same_digest_same_state (de_generation s) a a0 Ha Ha0 Heq) as [Hsame|]; [|done].
      exfalso. rewrite Hm0, <- Hsame in Hm. by rewrite values_state_matches in Hm.
    + rewrite update_desired_total by (done || lia). cbn [exec_one map_err and_then].
      left. eexists _, _. split; [apply (commit_written a db _ (de_generation s + 1)); [done|lia|done]|done].
Qed.

(** A desired state identifies what it desires.  Two authorities, of whatever
    configurations, that match the same committed state grant the same mode, documents,
    targets, queue and service key, unless a SHA-256 collision is at hand; so a change
    of any of them is a new generation, and other changes of the configuration are not. *)
Theorem desired_state_identifies_authority `{JsonValue V, !JsonWriter V} (document document' : V) profile profile' a a' s :
  derive_authority document profile = Ok a → derive_authority document' profile' = Ok a' →
  matches_authority s a = true → matches_authority s a' = true →
  (au_mode a = au_mode a' ∧ au_document_kinds a = au_document_kinds a' ∧ au_targets a = au_targets a' ∧
   au_queue_capacity a = au_queue_capacity a' ∧ au_service_public_key a = au_service_public_key a' ∧
   au_target_set_sha256 a = au_target_set_sha256 a') ∨ sha256_collision.
Proof.
  intros Ha%derive_presence_Ok Ha'%derive_presence_Ok Hm%matches_authority_true Hm'%matches_authority_true.
  apply desired_digest_inj; [done|done|]. rewrite Hm in Hm'. by injection Hm'.
Qed.

(** C24. Committing a desired state is an atomic compare-and-swap.  Over any host that
    keeps the laws of a transaction, a commit touches nothing but the desired-state
    row; when it answers, the authority's configuration is the latest bound one and
    the answered state is stored and matches the authority: either it was stored
    already and nothing changed, or it did not match and is stored at the next
    generation.  A failure changes nothing; an unknown outcome is one of the two. *)
Theorem desired_commit_is_compare_and_swap `{TransactionLaws presence_db} writable a db res db' :
  rows_ok (pr_desired db) = true → commit writable a db = (res, db') →
  match res with
  | Ok out => writable = true ∧ bound_configuration a db ∧
      if dout_changed out then desired_advanced a (dout_state out) db db'
      else db' = db ∧ read_desired db = Ok (Some (dout_state out)) ∧ matches_authority (dout_state out) a = true
  | Err CommitOutcomeUnknown => db' = db ∨ ∃ s, desired_advanced a s db db'
  | Err _ => db' = db
  end.
Proof.
  intros Hok. unfold commit. destruct writable; [|by intros [= <- <-]].
  destruct (transaction _ db) as [[out|e] db1] eqn:Htx; intros [= <- <-]; simpl.
  - apply tx_committed in Htx. split; [done|]. by apply commit_desired_Ok.
  - unfold map_transaction_error. destruct (commit_outcome_unknown e) eqn:Hu.
    + destruct (tx_unknown _ _ _ _ Htx Hu) as (out & db2 & Hop & [-> | ->]); [by left|].
      apply commit_desired_Ok in Hop as [_ Hout]; [|done]. destruct (dout_changed out); [right; eauto|by left; destruct Hout].
    + destruct (tx_rolled_back _ _ _ _ Htx Hu) as [-> _]. by destruct (operation_error e) as [[]|].
Qed.
End progress.

(** ** A concrete configuration *)

#[local] Existing Instance checksum.
#[local] Existing Instance checksum_laws.
#[local] Existing Instance json_value.
#[local] Existing Instance json_laws.
#[local] Existing Instance json_writer.
#[local] Existing Instance reliable_host.
#[local] Existing Instance reliable_host_laws.
#[local] Existing Instance ConfigSafety.demo_keys.
#[local] Existing Instance ConfigSafety.demo_builds.

Definition demo_presence (application_handler : bool) : json :=
  JObject
    [("identity", JObject [("service", JObject [("expected_public_key", JString ConfigSafety.demo_key)])]);
     ("presence", JObject
        [("enabled", JBool true); ("profile", JBool true); ("application_handler", JBool application_handler);
         ("target_relay_ids", JArray [JString "relay-a"; JString "relay-b"])]);
     ("resource_limits", JObject [("queues", JObject [("presence", JNumber 16)])]);
     ("relays", JArray [Authority.demo_relay "relay-b" true false; Authority.demo_relay "relay-a" true true])].

Definition demo_desired (application_handler : bool) : RhiPresenceDesiredAuthority :=
  match derive_authority (demo_presence application_handler) Metadata.Production with
  | Ok a => a
  | Err _ => MkAuthority [] "" Disabled [] [] 0 [] []
  end.

Definition demo_binding (generation : Z) (a : RhiPresenceDesiredAuthority) : Config.config_row :=
  Config.binding_row generation
    (Config.MkBinding (au_configuration_sha256 a) (repeat 6 32) (au_service_public_key a) 1 11 1 1 1) 1500
    ConfigSafety.demo_build.

(** The first configuration is committed, then the second is bound. *)
Definition demo_first : presence_db :=
  Eval vm_compute in (commit true (demo_desired false) (PresenceDb [demo_binding 1 (demo_desired false)] [] [] [] [])).2.

Definition demo_second : presence_db :=
  Eval vm_compute in
    PresenceDb [demo_binding 1 (demo_desired false); demo_binding 2 (demo_desired true)] (pr_desired demo_first) [] [] [].

Definition demo_committed : presence_db := Eval vm_compute in (commit true (demo_desired true) demo_second).2.

Definition demo_state (generation : Z) (application_handler : bool) : RhiPresenceDesiredState :=
  values_state generation (demo_desired application_handler).

Lemma demo_derived b : derive_authority (demo_presence b) Metadata.Production = Ok (demo_desired b).
Proof. destruct b; vm_compute; reflexivity. Qed.

Lemma demo_committed_run :
  commit true (demo_desired true) demo_second = (Ok (MkOutcome (demo_state 2 true) true), demo_committed).
Proof. vm_compute. reflexivity. Qed.

Lemma demo_second_ok : rows_ok (pr_desired demo_second) = true.
Proof. vm_compute. reflexivity. Qed.

Lemma demo_second_before : committed_before demo_second.
Proof.
  right. exists (demo_state 1 false), (demo_desired false). split; [vm_compute; reflexivity|].
  split; [exact (derive_presence_Ok _ _ _ (demo_derived false))|]. split; [vm_compute; reflexivity|vm_compute; done].
Qed.

Lemma desired_commit_is_compare_and_swap_witness :
  desired_advanced (demo_desired true) (demo_state 2 true) demo_second demo_committed.
Proof.
  exact (proj2 (proj2 (desired_commit_is_compare_and_swap true (demo_desired true) demo_second
    (Ok (MkOutcome (demo_state 2 true) true)) demo_committed demo_second_ok demo_committed_run))).
Defined.

Lemma demo_second_bound : require_current_config (demo_desired true) demo_second = Ok tt.
Proof. vm_compute. reflexivity. Qed.

Lemma desired_commit_succeeds_witness :
  (∃ out db', commit_desired (demo_desired true) demo_second = Ok (out, db') ∧
     dout_state out = values_state (de_generation (dout_state out)) (demo_desired true)) ∨ sha256_collision.
Proof.
  exact (desired_commit_succeeds (demo_presence true) Metadata.Production (demo_desired true) demo_second
    (demo_derived true) demo_second_bound demo_second_ok demo_second_before).
Defined.

Definition demo_local : RhiPresenceDesiredAuthority :=
  match derive_authority (demo_presence true) Metadata.RepoLocal with Ok a => a | Err _ => demo_desired false end.

Lemma demo_local_derived : derive_authority (demo_presence true) Metadata.RepoLocal = Ok demo_local.
Proof. vm_compute. reflexivity. Qed.

Lemma demo_matches :
  matches_authority (demo_state 2 true) (demo_desired true) = true ∧
  matches_authority (demo_state 2 true) demo_local = true ∧
  au_configuration_sha256 (demo_desired true) ≠ au_configuration_sha256 demo_local.
Proof. vm_compute. repeat split; discriminate. Qed.

Lemma desired_state_identifies_authority_witness :
  au_targets (demo_desired true) = au_targets demo_local ∨ sha256_collision.
Proof.
  destruct (desired_state_identifies_authority (demo_presence true) (demo_presence true) Metadata.Production
    Metadata.RepoLocal (demo_desired true) demo_local (demo_state 2 true) (demo_derived true) demo_local_derived
    (proj1 demo_matches) (proj1 (proj2 demo_matches))) as [(_ & _ & Ht & _)|Hc]; [left; exact Ht|right; exact Hc].
Defined.

End PresenceSafety.
