(* ===== verification/PresencePublication.v ===== *)
(** * Signed presence documents: [src/src/presence_publication.rs], first part

    The documents a committed desired state grants, built, signed and independently
    verified; the decoding of the presence tables; and the transaction that commits
    the exact bytes and every target of one generation and supersedes the generations
    before it.  The authored plans, the event builder, the signer and the wire parser
    are the radroots and nostr libraries, an interface here. *)

From Stdlib Require Import ZArith Lia.
From stdpp Require Import list strings.
From S2P Require Import Prelude.
From S2P Require Import Sql.
From S2P Require Import Interfaces.
From S2P Require Import RuntimeAdapters.
From S2P Require Import JsonText.
From S2P Require Import Publication.
From S2P Require Import PublicationState.
From S2P Require Import StateConfig.
From S2P Require Import ReconciliationAttestation.
From S2P Require Import PresenceState.
From S2P Require Import PresenceDesired.

(** Plans of presence events, the application-handler builder, the signer of the
    service identity [Idn] and the wire codec, over public keys [K]. *)
Class PresenceLibrary (K Idn : Type) : Type := {
  PresenceBuilder : Type;
  PresenceUnsigned : Type;
  PresenceSigned : Type;
  KIND_APPLICATION_HANDLER : Z;
  presence_hex : bytes → string;
  presence_identity_hex : Idn → string;
  profile_plan : string → string → string → bool → Z → string → option Attestation.AuthoredEventPlan;
  metadata_json : string → string → option bytes;
  application_handler : list Z → string → string → string → option PresenceBuilder;
  external_request_id : PresenceBuilder → Z → K → option bytes;
  generic_plan : string → Z → Z → list (list string) → bytes → string → option Attestation.AuthoredEventPlan;
  presence_tag : list string → bool;
  presence_event : Z → bytes → list (list string) → Z → K → PresenceUnsigned;
  presence_unsigned_id : PresenceUnsigned → option bytes;
  sign_presence : Idn → PresenceUnsigned → bytes → option PresenceSigned;
  presence_to_vec : PresenceSigned → option bytes;
  presence_parse : list Z → Attestation.EventWireLimits → option Attestation.EventEnvelope;
  presence_verify_id : Attestation.EventEnvelope → bool;
  presence_verify : Attestation.EventEnvelope → bool;
}.

Module PresencePub.
Import PresenceState Presence Attestation.

Definition RHI_PRESENCE_SIGNED_EVENT_MAX_BYTES : Z := 32768.
Definition RHI_PRESENCE_MAX_ATTEMPTS : Z := 100.
Definition PROFILE_NAME : string := "rhi".
Definition PROFILE_DISPLAY_NAME : string := "Radroots RHI".
Definition PROFILE_ABOUT : string := "Radroots evidence reconciliation and attestation service".
Definition APPLICATION_HANDLER_IDENTIFIER : string := "rhi".
Definition APPLICATION_HANDLER_KINDS : list Z := [3441].
Definition INITIAL_BACKOFF_MILLISECONDS : Z := 250.
Definition MAXIMUM_BACKOFF_MILLISECONDS : Z := 30000.
Definition ATTEMPT_DEADLINE_MILLISECONDS : Z := 15000.
Definition MAX_UNIX_MILLISECONDS : Z := I64_MAX.
Definition OUTBOX_ID_DOMAIN : bytes := as_bytes "radroots.rhi.presence_outbox.v1" ++ [0].
Definition ATTEMPT_ID_DOMAIN : bytes := as_bytes "radroots.rhi.presence_attempt.v1" ++ [0].

Inductive RhiPresencePublicationErrorKind : Type :=
| InvalidMode | InvalidInput | DesiredStateMismatch | IdentityMismatch | EntropyUnavailable
| RenderingFailed | VerificationFailed | NotReady | LeaseLost | Invariant | ClockUnavailable | Storage
| CommitOutcomeUnknown.

Inductive PresenceOperationError : Type :=
| OpInvalidInput | OpDesiredStateMismatch | OpVerificationFailed | OpNotReady | OpLeaseLost | OpInvariant
| OpStorage.

Record RhiSignedPresenceDocument : Type := MkDocument {
  sd_kind : RhiPresenceDocumentKind;
  sd_event_id : bytes;
  sd_signed_event_sha256 : bytes;
  sd_signed_event_bytes : bytes;
  sd_created_at_unix_seconds : Z;
}.

Record RhiSignedPresenceDocuments : Type := MkDocuments {
  dd_desired_state : RhiPresenceDesiredState;
  dd_service_public_key : string;
  dd_targets : list RhiPresenceTarget;
  dd_documents : list RhiSignedPresenceDocument;
}.

Inductive RhiPresenceOutboxState : Type := Pending | Leased | Complete | Blocked | Superseded.
Inductive RhiPresenceTargetState : Type :=
| TPending | TSubmitted | TAccepted | TRejected | TRateLimited | TAuthRequired | TFailed | TUnknown.
Inductive RhiPresenceAttemptOutcome : Type :=
| Submitted | Accepted | Rejected | RateLimited | AuthRequired | Failed | Unknown.

#[export] Instance presence_outbox_state_eq_dec : EqDecision RhiPresenceOutboxState.
Proof. solve_decision. Defined.
#[export] Instance presence_target_state_eq_dec : EqDecision RhiPresenceTargetState.
Proof. solve_decision. Defined.
#[export] Instance presence_outcome_eq_dec : EqDecision RhiPresenceAttemptOutcome.
Proof. solve_decision. Defined.

Definition outbox_code (s : RhiPresenceOutboxState) : string :=
  match s with
  | Pending => "pending" | Leased => "leased" | Complete => "complete" | Blocked => "blocked"
  | Superseded => "superseded"
  end.

Definition target_code (s : RhiPresenceTargetState) : string :=
  match s with
  | TPending => "pending" | TSubmitted => "submitted" | TAccepted => "accepted" | TRejected => "rejected"
  | TRateLimited => "rate_limited" | TAuthRequired => "auth_required" | TFailed => "failed"
  | TUnknown => "unknown"
  end.

Definition outcome_code (o : RhiPresenceAttemptOutcome) : string :=
  match o with
  | Submitted => "submitted" | Accepted => "accepted" | Rejected => "rejected"
  | RateLimited => "rate_limited" | AuthRequired => "auth_required" | Failed => "failed"
  | Unknown => "unknown"
  end.

Record RhiPresenceCommitOutcome : Type := MkCommitOutcome {
  co_desired_state : RhiPresenceDesiredState;
  co_document_count : Z;
  co_changed : bool;
}.

Definition presence_unix_milliseconds_new (v : Z) : result RhiPresencePublicationErrorKind Z :=
  reject_if (MAX_UNIX_MILLISECONDS <? v) InvalidInput ;? Ok v.
Definition presence_retry_delay_new (v : Z) : result RhiPresencePublicationErrorKind Z :=
  reject_if (MAXIMUM_BACKOFF_MILLISECONDS <? v) InvalidInput ;? Ok v.
Definition presence_owner_from_bytes (b : bytes) : result RhiPresencePublicationErrorKind bytes :=
  reject_if (forallb (λ x, x =? 0) b) InvalidInput ;? Ok b.

(** ** Documents *)

Definition presence_wire_limits : EventWireLimits :=
  MkLimits RHI_PRESENCE_SIGNED_EVENT_MAX_BYTES 4096 4 8 64 256 0 0.

Section documents.
Context `{Sha256, PublicKeyLibrary K, PresenceLibrary K Idn}.

Definition presence_plan (kind : RhiPresenceDocumentKind) (author : string) (created_at : Z) :
    result RhiPresencePublicationErrorKind AuthoredEventPlan :=
  match kind with
  | ServiceProfile =>
      ok_or (profile_plan PROFILE_NAME PROFILE_DISPLAY_NAME PROFILE_ABOUT true created_at author) RenderingFailed
  | ApplicationHandler =>
      let? content := ok_or (metadata_json PROFILE_DISPLAY_NAME PROFILE_ABOUT) RenderingFailed in
      let? builder :=
        ok_or (application_handler APPLICATION_HANDLER_KINDS APPLICATION_HANDLER_IDENTIFIER PROFILE_DISPLAY_NAME
                 PROFILE_ABOUT) RenderingFailed in
      let? public_key := ok_or (key_from_hex author) IdentityMismatch in
      let? request := ok_or (external_request_id builder created_at public_key) RenderingFailed in
      let? plan :=
        ok_or (generic_plan "radroots.application.handler.v1" KIND_APPLICATION_HANDLER created_at
                 [["d"; APPLICATION_HANDLER_IDENTIFIER]; ["k"; "3441"]] content author) RenderingFailed in
      reject_if (negb (bytes_eqb request (ep_expected_event_id plan))) RenderingFailed ;?
      Ok plan
  end.

Definition sign_plan (identity : Idn) (plan : AuthoredEventPlan) (auxiliary : bytes) :
    result RhiPresencePublicationErrorKind PresenceSigned :=
  let? kind := ok_or (try_from U16_MAX (ep_kind plan)) RenderingFailed in
  reject_if (negb (forallb presence_tag (ep_tags plan))) RenderingFailed ;?
  let? author := ok_or (key_from_hex (presence_identity_hex identity)) IdentityMismatch in
  let unsigned := presence_event kind (ep_content plan) (ep_tags plan) (ep_created_at plan) author in
  reject_if (negb (bool_decide (presence_unsigned_id unsigned = Some (ep_expected_event_id plan))))
    RenderingFailed ;?
  ok_or (sign_presence identity unsigned auxiliary) RenderingFailed.

Definition validate_signed_document (kind : RhiPresenceDocumentKind) (author : string) (created_at : Z)
    (b : bytes) : result RhiPresencePublicationErrorKind EventEnvelope :=
  reject_if ((length b =? 0)%nat || (RHI_PRESENCE_SIGNED_EVENT_MAX_BYTES <? Z.of_nat (length b)))
    VerificationFailed ;?
  let? source := ok_or (JsonText.from_utf8 b) VerificationFailed in
  let? event := ok_or (presence_parse source presence_wire_limits) VerificationFailed in
  reject_if
    (negb (presence_verify_id event) || negb (presence_verify event)
     || negb (String.eqb (presence_hex (ee_author event)) author)
     || negb (ee_created_at event =? created_at)) VerificationFailed ;?
  let? expected := presence_plan kind author created_at in
  reject_if
    (negb (bytes_eqb (ee_id event) (ep_expected_event_id expected))
     || negb (ee_kind event =? ep_kind expected)
     || negb (bool_decide (ee_tags event = ep_tags expected))
     || negb (bytes_eqb (ee_content event) (ep_content expected))) VerificationFailed ;?
  Ok event.

(** One document, from its plan and the auxiliary entropy. *)
Definition sign_document (identity : Idn) (created_at : Z) (kind : RhiPresenceDocumentKind)
    (plan : AuthoredEventPlan) (auxiliary : bytes) :
    result RhiPresencePublicationErrorKind RhiSignedPresenceDocument :=
  let? event := sign_plan identity plan auxiliary in
  let? b := ok_or (presence_to_vec event) RenderingFailed in
  let? verified := validate_signed_document kind (presence_identity_hex identity) created_at b in
  Ok (MkDocument kind (ee_id verified) (sha256 b) b created_at).

Context `{EntropySource W}.

Fixpoint sign_documents (identity : Idn) (created_at : Z) (kinds : list RhiPresenceDocumentKind) (w : W) :
    result RhiPresencePublicationErrorKind (list RhiSignedPresenceDocument) * W :=
  match kinds with
  | [] => (Ok [], w)
  | kind :: kinds =>
      match presence_plan kind (presence_identity_hex identity) created_at with
      | Err e => (Err e, w)
      | Ok plan =>
          match fill_bytes 32 w with
          | (None, w) => (Err EntropyUnavailable, w)
          | (Some auxiliary, w) =>
              match sign_document identity created_at kind plan auxiliary with
              | Err e => (Err e, w)
              | Ok document =>
                  let '(documents, w) := sign_documents identity created_at kinds w in
                  (let? documents := documents in Ok (document :: documents), w)
              end
          end
      end
  end.

Definition build_rhi_signed_presence_documents (desired : RhiPresenceDesiredCommitOutcome)
    (authority : RhiPresenceDesiredAuthority) (identity : Idn) (created_at : Z) (w : W) :
    result RhiPresencePublicationErrorKind RhiSignedPresenceDocuments * W :=
  let state := dout_state desired in
  match
    (reject_if (I64_MAX <? created_at) InvalidInput ;?
     reject_if (negb (presence_authority_matches_state state authority)) DesiredStateMismatch ;?
     reject_if (negb (String.eqb (presence_identity_hex identity) (au_service_public_key authority)))
       IdentityMismatch)
  with
  | Err e => (Err e, w)
  | Ok _ =>
      let '(documents, w) := sign_documents identity created_at (au_document_kinds authority) w in
      (let? documents := documents in
       reject_if
         ((bool_decide (de_mode state = Disabled) && negb (length documents =? 0)%nat)
          || (bool_decide (de_mode state = Enabled)
              && negb (length documents =? length (au_document_kinds authority))%nat)) Invariant ;?
       Ok (MkDocuments state (au_service_public_key authority) (au_targets authority) documents), w)
  end.
End documents.

Section validate.
Context `{Sha256, PublicKeyLibrary K, PresenceLibrary K Idn}.

Fixpoint validate_documents (author : string) (documents : list RhiSignedPresenceDocument)
    (kinds : list RhiPresenceDocumentKind) : result RhiPresencePublicationErrorKind unit :=
  match documents, kinds with
  | document :: documents, kind :: kinds =>
      reject_if (negb (bool_decide (sd_kind document = kind))
                 || negb (bytes_eqb (sha256 (sd_signed_event_bytes document)) (sd_signed_event_sha256 document)))
        VerificationFailed ;?
      let? verified :=
        validate_signed_document (sd_kind document) author (sd_created_at_unix_seconds document)
          (sd_signed_event_bytes document) in
      reject_if (negb (bytes_eqb (ee_id verified) (sd_event_id document))) VerificationFailed ;?
      validate_documents author documents kinds
  | _, _ => Ok tt
  end.

Definition validate_rhi_signed_presence_documents (d : RhiSignedPresenceDocuments)
    (authority : RhiPresenceDesiredAuthority) : result RhiPresencePublicationErrorKind unit :=
  reject_if
    (negb (presence_authority_matches_state (dd_desired_state d) authority)
     || negb (String.eqb (dd_service_public_key d) (au_service_public_key authority))
     || negb (bool_decide (dd_targets d = au_targets authority))
     || negb (length (dd_documents d) =? length (au_document_kinds authority))%nat) DesiredStateMismatch ;?
  validate_documents (au_service_public_key authority) (dd_documents d) (au_document_kinds authority).
End validate.

End PresencePub.
