(* ===== verification/PresenceRecords.v ===== *)
(** * Presence records and the commit of a generation:
    [src/src/presence_publication.rs], second part

    The records decoded from the presence tables, the validation of a target
    inventory, and [commit_signed]: the exact bytes and every target of one desired
    generation become durable together, and the open generations before it are
    superseded. *)

From Stdlib Require Import ZArith Lia.
From stdpp Require Import list strings.
From S2P Require Import Prelude.
From S2P Require Import Sql.
From S2P Require Import Interfaces.
From S2P Require Import Publication.
From S2P Require Import PublicationState.
From S2P Require Import StateConfig.
From S2P Require Import ReconciliationAttestation.
From S2P Require Import PresenceState.
From S2P Require Import PresenceDesired.
From S2P Require Import PresencePublication.

Module PresenceRecords.
Import PubState PresenceState Presence PresencePub.

Record PresenceTargetRecord : Type := MkTarget {
  t_ordinal : Z;
  t_relay_id : string;
  t_required : bool;
  t_state : RhiPresenceTargetState;
  t_revision : Z;
  t_attempt_count : Z;
  t_next_attempt : option Z;
  t_last_attempt_id : option bytes;
  t_updated_at : Z;
}.

#[export] Instance presence_target_record_eq_dec : EqDecision PresenceTargetRecord.
Proof. solve_decision. Defined.

Record PresenceOutboxRecord : Type := MkOutbox {
  o_id : bytes;
  o_desired_generation : Z;
  o_document_kind : RhiPresenceDocumentKind;
  o_desired_sha256 : bytes;
  o_target_set_sha256 : bytes;
  o_event_id : bytes;
  o_event_sha256 : bytes;
  o_exact_signed_event_bytes : bytes;
  o_authored_at_unix_s : Z;
  o_service_public_key : string;
  o_target_count : Z;
  o_required_target_count : Z;
  o_max_attempts : Z;
  o_state : RhiPresenceOutboxState;
  o_revision : Z;
  o_next_attempt : option Z;
  o_lease_owner : option bytes;
  o_lease_expires : option Z;
  o_created_at : Z;
  o_updated_at : Z;
  o_targets : list PresenceTargetRecord;
}.

#[export] Instance presence_outbox_record_eq_dec : EqDecision PresenceOutboxRecord.
Proof. solve_decision. Defined.

(** ** Decoding: every failure is [PresenceOperationError::Invariant] *)

Definition blob (n : nat) (col : bytes) : result PresenceOperationError bytes :=
  ok_or (filter_opt (blob_of n) (Some col)) OpInvariant.

(** The length of the whole column, then [substr(column, 1, maximum + 1)]. *)
Definition bounded_text (maximum : Z) (col : string) : result PresenceOperationError string :=
  let? size := ok_or (filter_opt (between 1 maximum) (Some (Config.text_size col))) OpInvariant in
  let value := String.substring 0 (Z.to_nat maximum + 1) col in
  reject_if (negb (Config.text_size value =? size)) OpInvariant ;?
  Ok value.

Definition bounded_u8 (col maximum : Z) : result PresenceOperationError Z :=
  ok_or (filter_opt (λ v, v <=? maximum) (try_from U8_MAX col)) OpInvariant.
Definition bounded_u16 (col maximum : Z) : result PresenceOperationError Z :=
  ok_or (filter_opt (λ v, v <=? maximum) (try_from U16_MAX col)) OpInvariant.
Definition bounded_u64 (col maximum : Z) : result PresenceOperationError Z :=
  ok_or (filter_opt (λ v, v <=? maximum) (try_from U64_MAX col)) OpInvariant.
Definition nonnegative_u64 (col : Z) : result PresenceOperationError Z :=
  ok_or (try_from U64_MAX col) OpInvariant.
Definition positive_u64 (col : Z) : result PresenceOperationError Z :=
  let? value := nonnegative_u64 col in
  ok_or (filter_opt (λ v, negb (v =? 0)) (Some value)) OpInvariant.
Definition boolean_i64 (col : Z) : result PresenceOperationError bool :=
  if col =? 0 then Ok false else if col =? 1 then Ok true else Err OpInvariant.
Definition optional_millis (col : option Z) : result PresenceOperationError (option Z) :=
  match col with
  | None => Ok None
  | Some v => let? v := ok_or (try_from U64_MAX v) OpInvariant in Ok (Some v)
  end.

Definition optional_owner (col : option bytes) : result PresenceOperationError (option bytes) :=
  match col with
  | None => Ok None
  | Some b =>
      let value := take 17 b in
      reject_if (negb (length b =? 16)%nat) OpInvariant ;?
      reject_if (negb (length value =? 16)%nat) OpInvariant ;?
      reject_if (forallb (λ x, x =? 0) value) OpInvariant ;?
      Ok (Some value)
  end.

Definition optional_attempt_id (col : option bytes) : result PresenceOperationError (option bytes) :=
  match col with
  | None => Ok None
  | Some b =>
      let value := take 33 b in
      reject_if (negb (length b =? 32)%nat) OpInvariant ;?
      reject_if (negb (length value =? 32)%nat) OpInvariant ;?
      Ok (Some value)
  end.

Definition decode_document_kind (s : string) : result PresenceOperationError RhiPresenceDocumentKind :=
  if String.eqb s "service_profile" then Ok ServiceProfile
  else if String.eqb s "application_handler" then Ok ApplicationHandler
  else Err OpInvariant.

Definition decode_outbox_state (s : string) : result PresenceOperationError RhiPresenceOutboxState :=
  if String.eqb s "pending" then Ok Pending
  else if String.eqb s "leased" then Ok Leased
  else if String.eqb s "complete" then Ok Complete
  else if String.eqb s "blocked" then Ok Blocked
  else if String.eqb s "superseded" then Ok Superseded
  else Err OpInvariant.

Definition decode_target_state (s : string) : result PresenceOperationError RhiPresenceTargetState :=
  if String.eqb s "pending" then Ok TPending
  else if String.eqb s "submitted" then Ok TSubmitted
  else if String.eqb s "accepted" then Ok TAccepted
  else if String.eqb s "rejected" then Ok TRejected
  else if String.eqb s "rate_limited" then Ok TRateLimited
  else if String.eqb s "auth_required" then Ok TAuthRequired
  else if String.eqb s "failed" then Ok TFailed
  else if String.eqb s "unknown" then Ok TUnknown
  else Err OpInvariant.

Definition valid_outbox_shape (s : RhiPresenceOutboxState) (next : option Z) (own : option bytes)
    (expires : option Z) : bool :=
  match s with
  | Pending => negb (is_null next) && is_null own && is_null expires
  | Leased => is_null next && negb (is_null own) && negb (is_null expires)
  | Complete | Blocked | Superseded => is_null next && is_null own && is_null expires
  end.

Definition valid_target_shape (s : RhiPresenceTargetState) (count : Z) (next : option Z)
    (last : option bytes) : bool :=
  match s with
  | TPending => (count =? 0) && negb (is_null next) && is_null last
  | TSubmitted | TAccepted | TRejected | TAuthRequired =>
      (0 <? count) && is_null next && negb (is_null last)
  | TRateLimited | TFailed | TUnknown =>
      (0 <? count) && negb (is_null last)
      && (if count <? RHI_PRESENCE_MAX_ATTEMPTS then negb (is_null next) else is_null next)
  end.

Definition decode_target (r : target_row) : result PresenceOperationError PresenceTargetRecord :=
  let? ordinal := bounded_u8 (pt_target_ordinal r) (RHI_PRESENCE_DESIRED_MAX_TARGETS - 1) in
  let? relay := bounded_text 64 (pt_relay_id r) in
  let? required := boolean_i64 (pt_required r) in
  let? text := bounded_text 13 (pt_state r) in
  let? state := decode_target_state text in
  let? revision := positive_u64 (pt_revision r) in
  let? count := bounded_u16 (pt_attempt_count r) RHI_PRESENCE_MAX_ATTEMPTS in
  let? next := optional_millis (pt_next_attempt_unix_ms r) in
  let? last := optional_attempt_id (pt_last_attempt_id r) in
  let? updated := nonnegative_u64 (pt_updated_at_unix_ms r) in
  reject_if (negb (Authority.valid_relay_id relay) || negb (valid_target_shape state count next last)) OpInvariant ;?
  Ok (MkTarget ordinal relay required state revision count next last updated).

Definition target_order : target_row → target_row → comparison := cmp_on pt_target_ordinal Z.compare.

Definition READ_TARGETS_SQL (i : bytes) (rows : list target_row) : list target_row :=
  take 33 (sort_by target_order (List.filter (λ r, bytes_eqb (pt_outbox_id r) i) rows)).

Definition read_targets (i : bytes) (db : presence_db) : result PresenceOperationError (list PresenceTargetRecord) :=
  let rows := READ_TARGETS_SQL i (pr_targets db) in
  reject_if (RHI_PRESENCE_DESIRED_MAX_TARGETS <? Z.of_nat (length rows)) OpInvariant ;?
  collect decode_target rows.

Definition i64_value (v : Z) : result PresenceOperationError Z := ok_or (try_from I64_MAX v) OpInvalidInput.
Definition optional_i64 (v : option Z) : result PresenceOperationError (option Z) :=
  match v with None => Ok None | Some v => let? v := i64_value v in Ok (Some v) end.

(** [PresenceDesiredBinding] has the fields of the desired state, decoded in the same
    order with this module's error. *)
Definition read_desired_binding (db : presence_db) : result PresenceOperationError RhiPresenceDesiredState :=
  match READ_DESIRED_SQL (pr_desired db) with
  | [row] => map_err (λ _, OpInvariant) (decode_desired row)
  | _ => Err OpDesiredStateMismatch
  end.

Definition document_count (d : RhiPresenceDesiredState) : nat :=
  (if de_profile d then 1 else 0) + (if de_application_handler d then 1 else 0).

Definition document_kinds (d : RhiPresenceDesiredState) : list RhiPresenceDocumentKind :=
  (if de_profile d then [ServiceProfile] else [])
  ++ (if de_application_handler d then [ApplicationHandler] else []).

Definition kind_order (s : string) : Z :=
  if String.eqb s "service_profile" then 0 else if String.eqb s "application_handler" then 1 else 2.

Definition generation_order : outbox_row → outbox_row → comparison :=
  cmp_on (λ r, kind_order (po_document_kind r)) Z.compare.

Definition READ_GENERATION_OUTBOX_SQL (generation : Z) (rows : list outbox_row) : list outbox_row :=
  take 3 (sort_by generation_order (List.filter (λ r, po_desired_generation r =? generation) rows)).

Definition READ_OUTBOX_SQL (i : bytes) (rows : list outbox_row) : list outbox_row :=
  take 2 (List.filter (λ r, bytes_eqb (po_outbox_id r) i) rows).

Definition exactly_zero_or_one {A} (rows : list A) : result PresenceOperationError (option A) :=
  match rows with [] => Ok None | [r] => Ok (Some r) | _ => Err OpInvariant end.

Definition exec {A} (r : result sql_error A) : result PresenceOperationError A := map_err (λ _, OpStorage) r.

Section records.
Context `{Sha256, PublicKeyLibrary K}.

(** Without the x-only check of [presence_desired.rs]. *)
Definition valid_presence_key (value : string) : bool :=
  (Config.text_size value =? 64) && Config.lower_hex value && negb (is_null (key_from_hex value)).

Definition decode_outbox (r : outbox_row) : result PresenceOperationError PresenceOutboxRecord :=
  let? i := blob 32 (po_outbox_id r) in
  let? generation := positive_u64 (po_desired_generation r) in
  let? kind_text := bounded_text 19 (po_document_kind r) in
  let? kind := decode_document_kind kind_text in
  let? desired := blob 32 (po_desired_sha256 r) in
  let? target_set := blob 32 (po_target_set_sha256 r) in
  let? event_id := blob 32 (po_event_id r) in
  let? event_sha := blob 32 (po_event_sha256 r) in
  let? exact_length := positive_u64 (Z.of_nat (length (po_exact_signed_event_bytes r))) in
  reject_if (RHI_PRESENCE_SIGNED_EVENT_MAX_BYTES <? exact_length) OpInvariant ;?
  let exact := take 32769 (po_exact_signed_event_bytes r) in
  let? authored := nonnegative_u64 (po_authored_at_unix_s r) in
  let? key := bounded_text 64 (po_service_public_key r) in
  let? count := bounded_u8 (po_target_count r) RHI_PRESENCE_DESIRED_MAX_TARGETS in
  let? required := bounded_u8 (po_required_target_count r) count in
  let? attempts := bounded_u16 (po_max_attempts r) RHI_PRESENCE_MAX_ATTEMPTS in
  let? initial := bounded_u64 (po_initial_backoff_ms r) INITIAL_BACKOFF_MILLISECONDS in
  let? maximum := bounded_u64 (po_maximum_backoff_ms r) MAXIMUM_BACKOFF_MILLISECONDS in
  let? deadline := bounded_u64 (po_attempt_deadline_ms r) ATTEMPT_DEADLINE_MILLISECONDS in
  let? state_text := bounded_text 10 (po_state r) in
  let? state := decode_outbox_state state_text in
  let? revision := positive_u64 (po_revision r) in
  let? next := optional_millis (po_next_attempt_unix_ms r) in
  let? own := optional_owner (po_lease_owner r) in
  let? expires := optional_millis (po_lease_expires_unix_ms r) in
  let? created := nonnegative_u64 (po_created_at_unix_ms r) in
  let? updated := nonnegative_u64 (po_updated_at_unix_ms r) in
  reject_if
    (negb (Z.of_nat (length exact) =? exact_length) || (length exact =? 0)%nat
     || negb (bytes_eqb (sha256 exact) event_sha) || negb (valid_presence_key key)
     || negb (attempts =? RHI_PRESENCE_MAX_ATTEMPTS) || negb (initial =? INITIAL_BACKOFF_MILLISECONDS)
     || negb (maximum =? MAXIMUM_BACKOFF_MILLISECONDS) || negb (deadline =? ATTEMPT_DEADLINE_MILLISECONDS)
     || (maximum <? initial) || (updated <? created) || negb (valid_outbox_shape state next own expires))
    OpInvariant ;?
  Ok (MkOutbox i generation kind desired target_set event_id event_sha exact authored key count required attempts
        state revision next own expires created updated []).

Definition with_record_targets (o : PresenceOutboxRecord) (ts : list PresenceTargetRecord) : PresenceOutboxRecord :=
  MkOutbox (o_id o) (o_desired_generation o) (o_document_kind o) (o_desired_sha256 o) (o_target_set_sha256 o)
    (o_event_id o) (o_event_sha256 o) (o_exact_signed_event_bytes o) (o_authored_at_unix_s o)
    (o_service_public_key o) (o_target_count o) (o_required_target_count o) (o_max_attempts o) (o_state o)
    (o_revision o) (o_next_attempt o) (o_lease_owner o) (o_lease_expires o) (o_created_at o) (o_updated_at o) ts.

(** A decoded row with its targets. *)
Definition load_outbox (db : presence_db) (r : outbox_row) : result PresenceOperationError PresenceOutboxRecord :=
  let? o := decode_outbox r in
  let? ts := read_targets (o_id o) db in
  Ok (with_record_targets o ts).

Definition read_generation_outboxes (generation : Z) (db : presence_db) :
    result PresenceOperationError (list PresenceOutboxRecord) :=
  let? generation := i64_value generation in
  let rows := READ_GENERATION_OUTBOX_SQL generation (pr_outboxes db) in
  reject_if (2 <? length rows)%nat OpInvariant ;?
  collect (load_outbox db) rows.

Definition read_outbox (i : bytes) (db : presence_db) :
    result PresenceOperationError (option PresenceOutboxRecord) :=
  let? row := exactly_zero_or_one (READ_OUTBOX_SQL i (pr_outboxes db)) in
  match row with
  | None => Ok None
  | Some row => let? o := load_outbox db row in Ok (Some o)
  end.

(** ** Validation *)

Definition record_target (t : PresenceTargetRecord) : RhiPresenceTarget :=
  Authority.MkTarget (t_ordinal t) (t_relay_id t) (t_required t).

(** [targets[index + 1..].iter().any(..)] over all indexes *)
Fixpoint repeated_relay (ts : list PresenceTargetRecord) : bool :=
  match ts with
  | [] => false
  | t :: ts => existsb (λ later, String.eqb (t_relay_id later) (t_relay_id t)) ts || repeated_relay ts
  end.

Definition validate_targets (o : PresenceOutboxRecord) (ts : list PresenceTargetRecord) :
    result PresenceOperationError unit :=
  reject_if
    (negb (Z.of_nat (length ts) =? o_target_count o) || (length ts =? 0)%nat
     || (RHI_PRESENCE_DESIRED_MAX_TARGETS <? Z.of_nat (length ts))
     || negb (Z.of_nat (length (List.filter t_required ts)) =? o_required_target_count o)
     || existsb (λ p, negb (t_ordinal p.2 =? Z.of_nat p.1)) (zip (seq 0 (length ts)) ts)
     || repeated_relay ts) OpInvariant ;?
  let? material := map_err (λ _, OpInvariant) (targets_material (map record_target ts)) in
  reject_if (negb (bytes_eqb (sha256 (Presence.TARGET_SET_DOMAIN ++ material)) (o_target_set_sha256 o))) OpInvariant.

Definition target_set_digest (ts : list RhiPresenceTarget) : result PresenceOperationError bytes :=
  let? material := map_err (λ _, OpInvalidInput) (targets_material ts) in
  Ok (sha256 (Presence.TARGET_SET_DOMAIN ++ material)).

Definition derive_outbox_id (generation : Z) (kind : RhiPresenceDocumentKind) (desired event : bytes) : bytes :=
  sha256 (OUTBOX_ID_DOMAIN ++ to_be_bytes 8 generation ++ [document_kind_tag kind] ++ desired ++ event).

Definition derive_attempt_id (outbox event : bytes) (ordinal attempt_number : Z) : bytes :=
  sha256 (ATTEMPT_ID_DOMAIN ++ outbox ++ event ++ [ordinal] ++ to_be_bytes 2 attempt_number).

Definition same_target (p : RhiPresenceTarget * PresenceTargetRecord) : bool :=
  (Authority.target_ordinal p.1 =? t_ordinal p.2)
  && String.eqb (Authority.target_relay_id p.1) (t_relay_id p.2)
  && eqb (Authority.target_required p.1) (t_required p.2).

Definition document_matches (d : RhiSignedPresenceDocuments) (document : RhiSignedPresenceDocument)
    (o : PresenceOutboxRecord) : bool :=
  let s := dd_desired_state d in
  (o_desired_generation o =? de_generation s) && bytes_eqb (o_desired_sha256 o) (de_desired_sha256 s)
  && bytes_eqb (o_target_set_sha256 o) (de_target_set_sha256 s) && (o_target_count o =? de_target_count s)
  && (o_required_target_count o =? de_required_target_count s)
  && bytes_eqb (o_id o) (derive_outbox_id (o_desired_generation o) (sd_kind document) (o_desired_sha256 o)
                           (sd_signed_event_sha256 document))
  && bool_decide (sd_kind document = o_document_kind o) && bytes_eqb (sd_event_id document) (o_event_id o)
  && bytes_eqb (sd_signed_event_sha256 document) (o_event_sha256 o)
  && bytes_eqb (sd_signed_event_bytes document) (o_exact_signed_event_bytes o)
  && (sd_created_at_unix_seconds document =? o_authored_at_unix_s o)
  && String.eqb (dd_service_public_key d) (o_service_public_key o)
  && forallb same_target (zip (dd_targets d) (o_targets o)).

Fixpoint generation_matches_from (d : RhiSignedPresenceDocuments) (documents : list RhiSignedPresenceDocument)
    (current : list PresenceOutboxRecord) : result PresenceOperationError bool :=
  match documents, current with
  | document :: documents, o :: current =>
      if negb (document_matches d document o) then Ok false
      else validate_targets o (o_targets o) ;? generation_matches_from d documents current
  | _, _ => Ok true
  end.

Definition generation_matches (d : RhiSignedPresenceDocuments) (current : list PresenceOutboxRecord) :
    result PresenceOperationError bool :=
  if negb (length (dd_documents d) =? length current)%nat then Ok false
  else generation_matches_from d (dd_documents d) current.

Context `{PresenceLibrary K Idn}.

Fixpoint verify_documents (key : string) (documents : list RhiSignedPresenceDocument)
    (kinds : list RhiPresenceDocumentKind) : result PresenceOperationError unit :=
  match documents, kinds with
  | document :: documents, kind :: kinds =>
      let b := sd_signed_event_bytes document in
      reject_if (negb (bool_decide (sd_kind document = kind)) || (length b =? 0)%nat
                 || (RHI_PRESENCE_SIGNED_EVENT_MAX_BYTES <? Z.of_nat (length b))
                 || negb (bytes_eqb (sha256 b) (sd_signed_event_sha256 document))) OpVerificationFailed ;?
      let? event :=
        map_err (λ _, OpVerificationFailed)
          (validate_signed_document (sd_kind document) key (sd_created_at_unix_seconds document) b) in
      reject_if (negb (bytes_eqb (Attestation.ee_id event) (sd_event_id document))) OpVerificationFailed ;?
      verify_documents key documents kinds
  | _, _ => Ok tt
  end.

Definition validate_document_set (d : RhiSignedPresenceDocuments) (desired : RhiPresenceDesiredState) :
    result PresenceOperationError unit :=
  reject_if (negb (bool_decide (dd_desired_state d = desired))
             || negb (Z.of_nat (length (dd_targets d)) =? de_target_count desired)
             || negb (length (dd_documents d) =? document_count desired)%nat) OpDesiredStateMismatch ;?
  let? target_set := target_set_digest (dd_targets d) in
  reject_if (negb (bytes_eqb target_set (de_target_set_sha256 desired))
             || negb (valid_presence_key (dd_service_public_key d))) OpDesiredStateMismatch ;?
  verify_documents (dd_service_public_key d) (dd_documents d) (document_kinds desired).

(** ** The commit of a generation *)

Definition READ_MAX_AUTHORED_SQL (kind : string) (rows : list outbox_row) : option Z :=
  Config.sql_max po_authored_at_unix_s (List.filter (λ r, String.eqb (po_document_kind r) kind) rows).

(** Every document is authored after the ones of its kind. *)
Fixpoint require_later (documents : list RhiSignedPresenceDocument) (rows : list outbox_row) :
    result PresenceOperationError unit :=
  match documents with
  | [] => Ok tt
  | document :: documents =>
      match READ_MAX_AUTHORED_SQL (document_code (sd_kind document)) rows with
      | None => Ok tt
      | Some previous =>
          let? previous := ok_or (try_from U64_MAX previous) OpInvariant in
          reject_if (sd_created_at_unix_seconds document <=? previous) OpInvalidInput
      end ;?
      require_later documents rows
  end.

Definition COUNT_STALE_LEASES_SQL (generation : Z) (rows : list outbox_row) : Z :=
  Z.of_nat (length (List.filter (λ r, negb (po_desired_generation r =? generation)
                                      && String.eqb (po_state r) "leased") rows)).

(** The columns of an outbox that the statements of this module change. *)
Definition with_lifecycle (st : string) (next : option Z) (own : option bytes) (expires : option Z)
    (updated : Z) (r : outbox_row) : outbox_row :=
  OutboxRow (po_outbox_id r) (po_desired_generation r) (po_document_kind r) (po_desired_sha256 r)
    (po_target_set_sha256 r) (po_event_id r) (po_event_sha256 r) (po_exact_signed_event_bytes r)
    (po_authored_at_unix_s r) (po_service_public_key r) (po_target_count r) (po_required_target_count r)
    (po_max_attempts r) (po_initial_backoff_ms r) (po_maximum_backoff_ms r) (po_attempt_deadline_ms r) st
    (po_revision r + 1) next own expires (po_created_at_unix_ms r) updated.

Definition superseded_by (generation committed_at : Z) (r : outbox_row) : bool :=
  negb (po_desired_generation r =? generation) && one_of ["pending"; "blocked"] (po_state r)
  && (po_updated_at_unix_ms r <=? committed_at).

Definition SUPERSEDE_OUTBOX_SQL (updated generation not_after : Z) (rows : list outbox_row) :=
  update_rows (superseded_by generation not_after) (with_lifecycle "superseded" None None None updated) rows.

Definition INSERT_OUTBOX_SQL (d : RhiSignedPresenceDocuments) (desired : RhiPresenceDesiredState)
    (document : RhiSignedPresenceDocument) (i : bytes) (generation authored committed_at : Z) : outbox_row :=
  OutboxRow i generation (document_code (sd_kind document)) (de_desired_sha256 desired)
    (de_target_set_sha256 desired) (sd_event_id document) (sd_signed_event_sha256 document)
    (sd_signed_event_bytes document) authored (dd_service_public_key d) (de_target_count desired)
    (de_required_target_count desired) 100 250 30000 15000 "pending" 1 (Some committed_at) None None committed_at
    committed_at.

(** The statement has six placeholders; the call binds the commit time once more than they
    need, and the surplus value reaches no column. *)
Definition INSERT_TARGET_SQL (i : bytes) (t : RhiPresenceTarget) (committed_at : Z) : target_row :=
  TargetRow i (Authority.target_ordinal t) (Authority.target_relay_id t) (bool_i64 (Authority.target_required t))
    "pending" 1 0 (Some committed_at) None committed_at.

Fixpoint insert_targets (i : bytes) (ts : list RhiPresenceTarget) (committed_at : Z) (db : presence_db) :
    result PresenceOperationError presence_db :=
  match ts with
  | [] => Ok db
  | t :: ts =>
      let? committed_value := i64_value committed_at in
      let? rows := exec (insert_row (target_references db) (INSERT_TARGET_SQL i t committed_value) (pr_targets db)) in
      insert_targets i ts committed_at (with_targets db rows)
  end.

Fixpoint insert_documents (d : RhiSignedPresenceDocuments) (desired : RhiPresenceDesiredState)
    (documents : list RhiSignedPresenceDocument) (committed_at : Z) (db : presence_db) :
    result PresenceOperationError presence_db :=
  match documents with
  | [] => Ok db
  | document :: documents =>
      let i := derive_outbox_id (de_generation desired) (sd_kind document) (de_desired_sha256 desired)
                 (sd_signed_event_sha256 document) in
      let? generation := i64_value (de_generation desired) in
      let? authored := i64_value (sd_created_at_unix_seconds document) in
      let? committed_value := i64_value committed_at in
      let? rows :=
        exec (insert_row (λ _, true) (INSERT_OUTBOX_SQL d desired document i generation authored committed_value)
                (pr_outboxes db)) in
      let? db := insert_targets i (dd_targets d) committed_at (with_outboxes db rows) in
      insert_documents d desired documents committed_at db
  end.

Definition commit_signed (d : RhiSignedPresenceDocuments) (committed_at : Z) (db : presence_db) :
    result PresenceOperationError (RhiPresenceCommitOutcome * presence_db) :=
  let? desired := read_desired_binding db in
  validate_document_set d desired ;?
  let? current := read_generation_outboxes (de_generation desired) db in
  let? replayed := match current with [] => Ok false | _ => generation_matches d current end in
  if replayed then
    let? count := ok_or (try_from U8_MAX (Z.of_nat (length (dd_documents d)))) OpInvariant in
    Ok (MkCommitOutcome (dd_desired_state d) count false, db)
  else
    reject_if (negb (length current =? 0)%nat) OpInvariant ;?
    (if bool_decide (de_mode (dd_desired_state d) = Enabled) then require_later (dd_documents d) (pr_outboxes db)
     else Ok tt) ;?
    let? generation := i64_value (de_generation desired) in
    reject_if (negb (COUNT_STALE_LEASES_SQL generation (pr_outboxes db) =? 0)) OpNotReady ;?
    let? committed_value := i64_value committed_at in
    let? (rows, superseded) :=
      exec (SUPERSEDE_OUTBOX_SQL committed_value generation committed_value (pr_outboxes db)) in
    let? db := insert_documents d desired (dd_documents d) committed_at (with_outboxes db rows) in
    let? committed := read_generation_outboxes (de_generation desired) db in
    let? matches := generation_matches d committed in
    reject_if (negb matches) OpInvariant ;?
    let? count := ok_or (try_from U8_MAX (Z.of_nat (length (dd_documents d)))) OpInvariant in
    Ok (MkCommitOutcome (dd_desired_state d) count (negb (length (dd_documents d) =? 0)%nat || negb (superseded =? 0)),
        db).
End records.

End PresenceRecords.
