(* ===== verification/PresenceDelivery.v ===== *)
(** * Presence delivery: [src/src/presence_publication.rs], third part

    The durable executor of signed presence: claiming the oldest due outbox of the
    current desired generation under a lease, persisting [Submitted] before the exact
    bytes are exposed, recording one closed outcome by compare-and-swap, recovering an
    expired lease, and one execution step through an injected sink. *)

From Stdlib Require Import ZArith Lia.
From stdpp Require Import list strings.
From S2P Require Import Prelude.
From S2P Require Import Sql.
From S2P Require Import Interfaces.
From S2P Require Import RuntimeAdapters.
From S2P Require Import Publication.
From S2P Require Import PublicationState.
From S2P Require Import StateConfig.
From S2P Require Import PresenceState.
From S2P Require Import PresenceDesired.
From S2P Require Import PresencePublication.
From S2P Require Import PresenceRecords.

Module PresenceDelivery.
Import PubState PresenceState Presence PresencePub PresenceRecords.

(** ** Data *)

Record RhiPresenceLease : Type := MkLease {
  lease_outbox : PresenceOutboxRecord;
  owner : bytes;
  expires_at : Z;
}.

Record RhiPreparedPresenceAttempt : Type := MkPrepared {
  p_lease : RhiPresenceLease;
  p_target : PresenceTargetRecord;
  p_attempt_id : bytes;
  p_started_at : Z;
  p_deadline_at : Z;
  p_exact_signed_event_bytes : bytes;
}.

Record RhiPresenceAttemptCommit : Type := MkAttemptCommit {
  ac_outbox_id : bytes;
  ac_attempt_id : bytes;
  ac_target_ordinal : Z;
  ac_attempt_number : Z;
  ac_outcome : RhiPresenceAttemptOutcome;
  ac_target_state : RhiPresenceTargetState;
  ac_outbox_state : RhiPresenceOutboxState;
}.

Record PresenceRecoveryCandidate : Type := MkCandidate {
  rc_outbox : PresenceOutboxRecord;
  rc_retry_upper_bound : Z;
  rc_current_desired : bool;
}.

Record PresenceRecordInput : Type := MkInput {
  i_outbox_id : bytes;
  i_outbox_revision : Z;
  i_event_sha256 : bytes;
  i_owner : bytes;
  i_lease_expires : Z;
  i_target_ordinal : Z;
  i_target_revision : Z;
  i_attempt_number : Z;
  i_attempt_id : bytes;
  i_started_at : Z;
  i_finished_at : Z;
  i_outcome : RhiPresenceAttemptOutcome;
  i_retry_delay : Z;
}.

Record PresenceAttemptRecord : Type := MkAttempt {
  a_attempt_id : bytes;
  a_outbox_id : bytes;
  a_target_ordinal : Z;
  a_attempt_number : Z;
  a_event_sha256 : bytes;
  a_owner : bytes;
  a_started_at : Z;
  a_finished_at : Z;
  a_outcome : RhiPresenceAttemptOutcome;
}.

#[export] Instance presence_attempt_record_eq_dec : EqDecision PresenceAttemptRecord.
Proof. solve_decision. Defined.

Definition from_input (i : PresenceRecordInput) : PresenceAttemptRecord :=
  MkAttempt (i_attempt_id i) (i_outbox_id i) (i_target_ordinal i) (i_attempt_number i) (i_event_sha256 i)
    (i_owner i) (i_started_at i) (i_finished_at i) (i_outcome i).

Record PresenceOutboxDisposition : Type := MkDisposition {
  dp_state : RhiPresenceOutboxState;
  dp_next_attempt : option Z;
}.

(** ** Pure decisions *)

Definition retryable_state (s : RhiPresenceTargetState) : bool :=
  match s with TPending | TFailed | TRateLimited | TUnknown => true | _ => false end.

Definition retryable_outcome (o : RhiPresenceAttemptOutcome) : bool :=
  match o with RateLimited | Failed | Unknown => true | _ => false end.

Definition target_state_for_outcome (o : RhiPresenceAttemptOutcome) :
    result PresenceOperationError RhiPresenceTargetState :=
  match o with
  | Submitted => Err OpInvalidInput
  | Accepted => Ok TAccepted
  | Rejected => Ok TRejected
  | RateLimited => Ok TRateLimited
  | AuthRequired => Ok TAuthRequired
  | Failed => Ok TFailed
  | Unknown => Ok TUnknown
  end.

(** [for _ in 1..attempt_number] *)
Fixpoint backoff_rounds (rounds : nat) (bound : Z) : Z :=
  match rounds with
  | O => bound
  | S rounds => backoff_rounds rounds (Z.min (u64_saturating_mul bound 2) MAXIMUM_BACKOFF_MILLISECONDS)
  end.

Definition retry_upper_bound (attempt_number : Z) : Z :=
  Z.min (backoff_rounds (Z.to_nat (attempt_number - 1)) INITIAL_BACKOFF_MILLISECONDS)
    MAXIMUM_BACKOFF_MILLISECONDS.

Definition target_is_blocking (t : PresenceTargetRecord) (maximum : Z) : bool :=
  match t_state t with TRejected | TAuthRequired => true | _ => false end
  || (retryable_state (t_state t) && (maximum <=? t_attempt_count t) && is_null (t_next_attempt t)).

Definition target_is_due (t : PresenceTargetRecord) (maximum now : Z) : bool :=
  retryable_state (t_state t) && (t_attempt_count t <? maximum)
  && is_some_and (λ next, next <=? now) (t_next_attempt t).

Definition target_outcome_schedule (i : PresenceRecordInput) :
    result PresenceOperationError (RhiPresenceTargetState * option Z) :=
  let? state := target_state_for_outcome (i_outcome i) in
  let? next :=
    if retryable_outcome (i_outcome i) && (i_attempt_number i <? RHI_PRESENCE_MAX_ATTEMPTS) then
      reject_if (retry_upper_bound (i_attempt_number i) <? i_retry_delay i) OpInvalidInput ;?
      let? at_time :=
        ok_or (filter_opt (λ v, v <=? MAX_UNIX_MILLISECONDS)
                 (u64_checked_add (i_finished_at i) (i_retry_delay i))) OpInvalidInput in
      Ok (Some at_time)
    else
      reject_if (negb (i_retry_delay i =? 0)) OpInvalidInput ;?
      Ok None in
  Ok (state, next).

(** [filter_map(..).min()] *)
Fixpoint minimum (l : list Z) : option Z :=
  match l with
  | [] => None
  | x :: l => match minimum l with Some y => Some (Z.min x y) | None => Some x end
  end.

Definition same_outbox_identity (c p : PresenceOutboxRecord) : bool :=
  bytes_eqb (o_id c) (o_id p) && (o_desired_generation c =? o_desired_generation p)
  && bool_decide (o_document_kind c = o_document_kind p) && bytes_eqb (o_desired_sha256 c) (o_desired_sha256 p)
  && bytes_eqb (o_target_set_sha256 c) (o_target_set_sha256 p) && bytes_eqb (o_event_id c) (o_event_id p)
  && bytes_eqb (o_event_sha256 c) (o_event_sha256 p)
  && bytes_eqb (o_exact_signed_event_bytes c) (o_exact_signed_event_bytes p)
  && (o_authored_at_unix_s c =? o_authored_at_unix_s p)
  && String.eqb (o_service_public_key c) (o_service_public_key p) && (o_target_count c =? o_target_count p)
  && (o_required_target_count c =? o_required_target_count p) && (o_max_attempts c =? o_max_attempts p)
  && (o_created_at c =? o_created_at p).

Definition same_outbox (c p : PresenceOutboxRecord) : bool :=
  same_outbox_identity c p && bool_decide (o_state c = o_state p) && (o_revision c =? o_revision p)
  && bool_decide (o_next_attempt c = o_next_attempt p) && bool_decide (o_lease_owner c = o_lease_owner p)
  && bool_decide (o_lease_expires c = o_lease_expires p) && (o_updated_at c =? o_updated_at p)
  && bool_decide (o_targets c = o_targets p).

Definition desired_matches_outbox (d : RhiPresenceDesiredState) (o : PresenceOutboxRecord) : bool :=
  bool_decide (de_mode d = Enabled) && (de_generation d =? o_desired_generation o)
  && bytes_eqb (de_desired_sha256 d) (o_desired_sha256 o)
  && bytes_eqb (de_target_set_sha256 d) (o_target_set_sha256 o) && (de_target_count d =? o_target_count o)
  && (de_required_target_count d =? o_required_target_count o)
  && existsb (λ k, bool_decide (k = o_document_kind o)) (document_kinds d).

(** ** Statements *)

(** [READ_CLAIMABLE_OUTBOX_SQL]: the due outboxes joined with the desired state. *)
Definition claimable (desired : list desired_row) (now : Z) (r : outbox_row) : bool :=
  String.eqb (po_state r) "pending" && col_le (po_next_attempt_unix_ms r) now
  && existsb (λ d, (ds_singleton d =? 1) && (ds_generation d =? po_desired_generation r)
                   && bytes_eqb (ds_desired_sha256 d) (po_desired_sha256 r)) desired.

Definition claim_order : outbox_row → outbox_row → comparison :=
  cmp_then (cmp_on (λ r, default (-1) (po_next_attempt_unix_ms r)) Z.compare)
    (cmp_then (cmp_on po_created_at_unix_ms Z.compare)
       (cmp_then generation_order (cmp_on po_outbox_id bytes_cmp))).

Definition READ_CLAIMABLE_OUTBOX_SQL (now : Z) (db : presence_db) : list outbox_row :=
  take 1 (sort_by claim_order (List.filter (claimable (pr_desired db) now) (pr_outboxes db))).

Definition expired (now : Z) (r : outbox_row) : bool :=
  String.eqb (po_state r) "leased" && col_le (po_lease_expires_unix_ms r) now.

Definition expiry_order : outbox_row → outbox_row → comparison :=
  cmp_then (cmp_on (λ r, default (-1) (po_lease_expires_unix_ms r)) Z.compare)
    (cmp_then (cmp_on po_created_at_unix_ms Z.compare)
       (cmp_then (cmp_on (λ r, as_bytes (po_document_kind r)) bytes_cmp) (cmp_on po_outbox_id bytes_cmp))).

Definition READ_EXPIRED_OUTBOX_SQL (now : Z) (rows : list outbox_row) : list outbox_row :=
  take 1 (sort_by expiry_order (List.filter (expired now) rows)).

Definition CLAIM_OUTBOX_SQL (own : bytes) (expires updated : Z) (i : bytes) (revision due not_after : Z)
    (rows : list outbox_row) :=
  update_rows
    (λ r, bytes_eqb (po_outbox_id r) i && (po_revision r =? revision) && String.eqb (po_state r) "pending"
          && col_le (po_next_attempt_unix_ms r) due && (po_updated_at_unix_ms r <=? not_after))
    (with_lifecycle "leased" None (Some own) (Some expires) updated) rows.

Definition PREPARE_TARGET_SQL (attempt : bytes) (updated : Z) (i : bytes) (ordinal revision maximum due
    not_after : Z) (rows : list target_row) :=
  update_rows
    (λ r, bytes_eqb (pt_outbox_id r) i && (pt_target_ordinal r =? ordinal) && (pt_revision r =? revision)
          && one_of ["pending"; "failed"; "rate_limited"; "unknown"] (pt_state r)
          && (pt_attempt_count r <? maximum) && col_le (pt_next_attempt_unix_ms r) due
          && (pt_updated_at_unix_ms r <=? not_after))
    (λ r, TargetRow (pt_outbox_id r) (pt_target_ordinal r) (pt_relay_id r) (pt_required r) "submitted"
            (pt_revision r + 1) (pt_attempt_count r + 1) None (Some attempt) updated) rows.

Definition UPDATE_TARGET_OUTCOME_SQL (st : string) (next : option Z) (updated : Z) (i : bytes)
    (ordinal revision number : Z) (attempt : bytes) (rows : list target_row) :=
  update_rows
    (λ r, bytes_eqb (pt_outbox_id r) i && (pt_target_ordinal r =? ordinal) && (pt_revision r =? revision)
          && String.eqb (pt_state r) "submitted" && (pt_attempt_count r =? number)
          && col_blob_eq (pt_last_attempt_id r) attempt)
    (λ r, TargetRow (pt_outbox_id r) (pt_target_ordinal r) (pt_relay_id r) (pt_required r) st
            (pt_revision r + 1) (pt_attempt_count r) next (pt_last_attempt_id r) updated) rows.

(** The two outbox updates differ only in the sense of the lease test. *)
Definition holds_outbox (i : bytes) (revision : Z) (own : bytes) (expires now : Z) (live : bool)
    (r : outbox_row) : bool :=
  bytes_eqb (po_outbox_id r) i && (po_revision r =? revision) && String.eqb (po_state r) "leased"
  && col_blob_eq (po_lease_owner r) own && col_eq (po_lease_expires_unix_ms r) expires
  && (if live then col_gt (po_lease_expires_unix_ms r) now else col_le (po_lease_expires_unix_ms r) now)
  && (po_updated_at_unix_ms r <=? now).

Definition UPDATE_OUTBOX_AFTER_ATTEMPT_SQL (st : string) (next : option Z) (updated : Z) (i : bytes)
    (revision : Z) (own : bytes) (expires now : Z) (rows : list outbox_row) :=
  update_rows (holds_outbox i revision own expires now true) (with_lifecycle st next None None updated) rows.

Definition UPDATE_OUTBOX_RECOVERY_SQL (st : string) (next : option Z) (updated : Z) (i : bytes)
    (revision : Z) (own : bytes) (expires now : Z) (rows : list outbox_row) :=
  update_rows (holds_outbox i revision own expires now false) (with_lifecycle st next None None updated) rows.

Definition READ_ATTEMPT_SQL (i : bytes) (rows : list attempt_row) : list attempt_row :=
  take 2 (List.filter (λ r, bytes_eqb (pa_attempt_id r) i) rows).

Definition decode_attempt_outcome (s : string) : result PresenceOperationError RhiPresenceAttemptOutcome :=
  if String.eqb s "submitted" then Ok Submitted
  else if String.eqb s "accepted" then Ok Accepted
  else if String.eqb s "rejected" then Ok Rejected
  else if String.eqb s "rate_limited" then Ok RateLimited
  else if String.eqb s "auth_required" then Ok AuthRequired
  else if String.eqb s "failed" then Ok Failed
  else if String.eqb s "unknown" then Ok Unknown
  else Err OpInvariant.

Definition decode_attempt (r : attempt_row) : result PresenceOperationError PresenceAttemptRecord :=
  let? i := blob 32 (pa_attempt_id r) in
  let? outbox := blob 32 (pa_outbox_id r) in
  let? ordinal := bounded_u8 (pa_target_ordinal r) (RHI_PRESENCE_DESIRED_MAX_TARGETS - 1) in
  let? number := bounded_u16 (pa_attempt_number r) RHI_PRESENCE_MAX_ATTEMPTS in
  let? event := blob 32 (pa_event_sha256 r) in
  let? own := blob 16 (pa_lease_owner r) in
  let? started := nonnegative_u64 (pa_started_at_unix_ms r) in
  let? finished := nonnegative_u64 (pa_finished_at_unix_ms r) in
  let? text := bounded_text 13 (pa_outcome r) in
  let? outcome := decode_attempt_outcome text in
  let? code := bounded_text 64 (pa_result_code r) in
  reject_if (forallb (λ x, x =? 0) own || (finished <? started) || negb (String.eqb code (outcome_code outcome)))
    OpInvariant ;?
  Ok (MkAttempt i outbox ordinal number event own started finished outcome).

Definition read_attempt (i : bytes) (db : presence_db) :
    result PresenceOperationError (option PresenceAttemptRecord) :=
  let? row := exactly_zero_or_one (READ_ATTEMPT_SQL i (pr_attempts db)) in
  match row with None => Ok None | Some row => let? a := decode_attempt row in Ok (Some a) end.

Definition insert_attempt (i : PresenceRecordInput) (db : presence_db) : result PresenceOperationError presence_db :=
  let? started := i64_value (i_started_at i) in
  let? finished := i64_value (i_finished_at i) in
  let? rows :=
    exec (insert_row (attempt_references db)
            (AttemptRow (i_attempt_id i) (i_outbox_id i) (i_target_ordinal i) (i_attempt_number i)
               (i_event_sha256 i) (i_owner i) started finished (outcome_code (i_outcome i))
               (outcome_code (i_outcome i))) (pr_attempts db)) in
  Ok (with_attempts db rows).

(** The [UPDATE_TARGET_OUTCOME_SQL] block shared by recording and recovery. *)
Definition update_target_outcome (i : PresenceRecordInput) (st : RhiPresenceTargetState) (next : option Z)
    (db : presence_db) : result PresenceOperationError presence_db :=
  let? next := optional_i64 next in
  let? finished := i64_value (i_finished_at i) in
  let? revision := i64_value (i_target_revision i) in
  let? (rows, affected) :=
    exec (UPDATE_TARGET_OUTCOME_SQL (target_code st) next finished (i_outbox_id i) (i_target_ordinal i) revision
            (i_attempt_number i) (i_attempt_id i) (pr_targets db)) in
  reject_if (negb (affected =? 1)) OpLeaseLost ;?
  Ok (with_targets db rows).

Definition update_outbox_after_attempt (i : PresenceRecordInput) (d : PresenceOutboxDisposition)
    (db : presence_db) : result PresenceOperationError presence_db :=
  let? next := optional_i64 (dp_next_attempt d) in
  let? finished := i64_value (i_finished_at i) in
  let? revision := i64_value (i_outbox_revision i) in
  let? expires := i64_value (i_lease_expires i) in
  let? (rows, affected) :=
    exec (UPDATE_OUTBOX_AFTER_ATTEMPT_SQL (outbox_code (dp_state d)) next finished (i_outbox_id i) revision
            (i_owner i) expires finished (pr_outboxes db)) in
  reject_if (negb (affected =? 1)) OpLeaseLost ;?
  Ok (with_outboxes db rows).

Section operations.
Context `{Sha256, PublicKeyLibrary K, !PresenceLibrary K Idn}.

Definition disposition (o : PresenceOutboxRecord) (ts : list PresenceTargetRecord) :
    result PresenceOperationError PresenceOutboxDisposition :=
  validate_targets o ts ;?
  let required := List.filter t_required ts in
  if forallb (λ t, bool_decide (t_state t = TAccepted)) required then Ok (MkDisposition Complete None)
  else if existsb (λ t, target_is_blocking t (o_max_attempts o)) required then Ok (MkDisposition Blocked None)
  else
    let? next := ok_or (minimum (omap t_next_attempt required)) OpInvariant in
    Ok (MkDisposition Pending (Some next)).

Definition validate_current_desired (o : PresenceOutboxRecord) (db : presence_db) :
    result PresenceOperationError unit :=
  let? desired := read_desired_binding db in
  reject_if (negb (desired_matches_outbox desired o)) OpDesiredStateMismatch.

Definition validate_lease (l : RhiPresenceLease) (now : Z) (require_unexpired : bool) (db : presence_db) :
    result PresenceOperationError unit :=
  let? current := read_outbox (o_id (lease_outbox l)) db in
  let? current := ok_or (filter_opt (λ c, same_outbox c (lease_outbox l)) current) OpLeaseLost in
  validate_current_desired current db ;?
  reject_if
    (negb (bool_decide (o_state current = Leased))
     || negb (bool_decide (o_lease_owner current = Some (owner l)))
     || negb (bool_decide (o_lease_expires current = Some (expires_at l)))
     || (require_unexpired && (expires_at l <=? now))) OpLeaseLost.

Definition validate_input_lease (i : PresenceRecordInput) (require_unexpired : bool) (db : presence_db) :
    result PresenceOperationError unit :=
  let? current := read_outbox (i_outbox_id i) db in
  let? current := ok_or current OpLeaseLost in
  validate_current_desired current db ;?
  reject_if
    (negb (o_revision current =? i_outbox_revision i)
     || negb (bytes_eqb (o_event_sha256 current) (i_event_sha256 i))
     || negb (bool_decide (o_state current = Leased))
     || negb (bool_decide (o_lease_owner current = Some (i_owner i)))
     || negb (bool_decide (o_lease_expires current = Some (i_lease_expires i)))
     || (require_unexpired && (i_lease_expires i <=? i_finished_at i))) OpLeaseLost.

Definition claim_next (own : bytes) (now : Z) (db : presence_db) :
    result PresenceOperationError (option RhiPresenceLease * presence_db) :=
  let? now_value := i64_value now in
  let? row := exactly_zero_or_one (READ_CLAIMABLE_OUTBOX_SQL now_value db) in
  match row with
  | None => Ok (None, db)
  | Some row =>
      let? i := blob 32 (po_outbox_id row) in
      let? o := read_outbox i db in
      let? o := ok_or o OpInvariant in
      validate_current_desired o db ;?
      validate_targets o (o_targets o) ;?
      let? expires :=
        ok_or (filter_opt (λ v, v <=? MAX_UNIX_MILLISECONDS) (u64_checked_add now ATTEMPT_DEADLINE_MILLISECONDS))
          OpInvalidInput in
      let? expires_value := i64_value expires in
      let? revision := i64_value (o_revision o) in
      let? (rows, affected) :=
        exec (CLAIM_OUTBOX_SQL own expires_value now_value (o_id o) revision now_value now_value (pr_outboxes db)) in
      reject_if (negb (affected =? 1)) OpLeaseLost ;?
      let db := with_outboxes db rows in
      let? leased := read_outbox i db in
      let? leased :=
        ok_or (filter_opt (λ r, bool_decide (o_state r = Leased) && bool_decide (o_lease_owner r = Some own)
                                && bool_decide (o_lease_expires r = Some expires)) leased) OpInvariant in
      Ok (Some (MkLease leased own expires), db)
  end.

Definition prepare_next (l : RhiPresenceLease) (started : Z) (db : presence_db) :
    result PresenceOperationError (RhiPreparedPresenceAttempt * presence_db) :=
  let o := lease_outbox l in
  validate_lease l started true db ;?
  let? candidate := ok_or (List.find (λ t, target_is_due t (o_max_attempts o) started) (o_targets o)) OpNotReady in
  let? number :=
    ok_or (filter_opt (λ v, v <=? o_max_attempts o) (u16_checked_add (t_attempt_count candidate) 1)) OpInvariant in
  let attempt_id := derive_attempt_id (o_id o) (o_event_sha256 o) (t_ordinal candidate) number in
  let? started_value := i64_value started in
  let? revision := i64_value (t_revision candidate) in
  let? (rows, affected) :=
    exec (PREPARE_TARGET_SQL attempt_id started_value (o_id o) (t_ordinal candidate) revision (o_max_attempts o)
            started_value started_value (pr_targets db)) in
  reject_if (negb (affected =? 1)) OpLeaseLost ;?
  let db := with_targets db rows in
  let? current := read_outbox (o_id o) db in
  let? current := ok_or current OpInvariant in
  reject_if (negb (same_outbox_identity current o)) OpLeaseLost ;?
  let? target :=
    ok_or (filter_opt (λ t, bool_decide (t_state t = TSubmitted) && (t_attempt_count t =? number)
                            && bool_decide (t_last_attempt_id t = Some attempt_id) && (t_updated_at t =? started))
             (List.find (λ t, t_ordinal t =? t_ordinal candidate) (o_targets current))) OpInvariant in
  let? _ :=
    map_err (λ _, OpInvariant)
      (validate_signed_document (o_document_kind o) (o_service_public_key o) (o_authored_at_unix_s o)
         (o_exact_signed_event_bytes o)) in
  Ok (MkPrepared l target attempt_id started (expires_at l) (o_exact_signed_event_bytes o), db).

Definition commit_of (i : PresenceRecordInput) (t : RhiPresenceTargetState) (o : RhiPresenceOutboxState) :
    RhiPresenceAttemptCommit :=
  MkAttemptCommit (i_outbox_id i) (i_attempt_id i) (i_target_ordinal i) (i_attempt_number i) (i_outcome i) t o.

Definition reconcile_recorded (i : PresenceRecordInput) (existing : PresenceAttemptRecord) (db : presence_db) :
    result PresenceOperationError RhiPresenceAttemptCommit :=
  reject_if (negb (bool_decide (existing = from_input i))) OpInvariant ;?
  let? o := read_outbox (i_outbox_id i) db in
  let? o := ok_or o OpInvariant in
  let? expected_revision := ok_or (u64_checked_add (i_outbox_revision i) 1) OpInvariant in
  reject_if
    (negb (o_revision o =? expected_revision) || negb (o_updated_at o =? i_finished_at i)
     || negb (is_null (o_lease_owner o)) || negb (is_null (o_lease_expires o))
     || negb (bytes_eqb (o_event_sha256 o) (i_event_sha256 i))) OpInvariant ;?
  validate_targets o (o_targets o) ;?
  let? (expected_state, expected_next) := target_outcome_schedule i in
  let? expected_target_revision := ok_or (u64_checked_add (i_target_revision i) 1) OpInvariant in
  let? target :=
    ok_or (filter_opt
             (λ t, (t_revision t =? expected_target_revision) && (t_attempt_count t =? i_attempt_number i)
                   && bool_decide (t_last_attempt_id t = Some (i_attempt_id i))
                   && bool_decide (t_state t = expected_state) && bool_decide (t_next_attempt t = expected_next)
                   && (t_updated_at t =? i_finished_at i))
             (List.find (λ t, t_ordinal t =? i_target_ordinal i) (o_targets o))) OpInvariant in
  let? expected := disposition o (o_targets o) in
  reject_if
    (negb (bool_decide (o_state o = dp_state expected))
     || negb (bool_decide (o_next_attempt o = dp_next_attempt expected))) OpInvariant ;?
  Ok (MkAttemptCommit (o_id o) (i_attempt_id i) (i_target_ordinal i) (i_attempt_number i) (i_outcome i)
        (t_state target) (o_state o)).

Definition record_outcome (i : PresenceRecordInput) (db : presence_db) :
    result PresenceOperationError (RhiPresenceAttemptCommit * presence_db) :=
  let? existing := read_attempt (i_attempt_id i) db in
  match existing with
  | Some existing => let? commit := reconcile_recorded i existing db in Ok (commit, db)
  | None =>
      validate_input_lease i true db ;?
      let? o := read_outbox (i_outbox_id i) db in
      let? o := ok_or o OpInvariant in
      let? target := ok_or (List.find (λ t, t_ordinal t =? i_target_ordinal i) (o_targets o)) OpInvariant in
      reject_if
        (negb (bool_decide (t_state target = TSubmitted)) || negb (t_revision target =? i_target_revision i)
         || negb (t_attempt_count target =? i_attempt_number i)
         || negb (bool_decide (t_last_attempt_id target = Some (i_attempt_id i)))
         || negb (t_updated_at target =? i_started_at i)) OpLeaseLost ;?
      let? db := insert_attempt i db in
      let? (next_state, next) := target_outcome_schedule i in
      let? db := update_target_outcome i next_state next db in
      let? ts := read_targets (i_outbox_id i) db in
      let? d := disposition o ts in
      let? db := update_outbox_after_attempt i d db in
      Ok (commit_of i next_state (dp_state d), db)
  end.

Definition submitted_targets (ts : list PresenceTargetRecord) : list PresenceTargetRecord :=
  List.filter (λ t, bool_decide (t_state t = TSubmitted)) ts.

Definition read_expired_candidate (now : Z) (db : presence_db) :
    result PresenceOperationError (option PresenceRecoveryCandidate) :=
  let? now_value := i64_value now in
  let? row := exactly_zero_or_one (READ_EXPIRED_OUTBOX_SQL now_value (pr_outboxes db)) in
  match row with
  | None => Ok None
  | Some row =>
      let? i := blob 32 (po_outbox_id row) in
      let? o := read_outbox i db in
      let? o := ok_or o OpInvariant in
      let? desired := read_desired_binding db in
      let current_desired := desired_matches_outbox desired o in
      validate_targets o (o_targets o) ;?
      let submitted := map t_attempt_count (submitted_targets (o_targets o)) in
      reject_if (1 <? length submitted)%nat OpInvariant ;?
      let bound :=
        if current_desired then
          match filter_opt (λ n, n <? o_max_attempts o) (head submitted) with
          | Some n => retry_upper_bound n
          | None => 0
          end
        else 0 in
      Ok (Some (MkCandidate o bound current_desired))
  end.

(** One round of the recovery loop over the [Submitted] targets. *)
Definition recover_target (current : PresenceOutboxRecord) (own : bytes) (expires now delay : Z)
    (t : PresenceTargetRecord) (db : presence_db) : result PresenceOperationError presence_db :=
  let? attempt_id := ok_or (t_last_attempt_id t) OpInvariant in
  let? recorded := read_attempt attempt_id db in
  reject_if (negb (is_null recorded)) OpInvariant ;?
  let i := MkInput (o_id current) (o_revision current) (o_event_sha256 current) own expires (t_ordinal t)
             (t_revision t) (t_attempt_count t) attempt_id (t_updated_at t) now Unknown delay in
  let? db := insert_attempt i db in
  let? (st, next) := target_outcome_schedule i in
  update_target_outcome i st next db.

Fixpoint recover_targets (current : PresenceOutboxRecord) (own : bytes) (expires now delay : Z)
    (ts : list PresenceTargetRecord) (db : presence_db) : result PresenceOperationError presence_db :=
  match ts with
  | [] => Ok db
  | t :: ts =>
      let? db := recover_target current own expires now delay t db in
      recover_targets current own expires now delay ts db
  end.

Definition recover_expired (c : PresenceRecoveryCandidate) (now delay : Z) (db : presence_db) :
    result PresenceOperationError (bool * presence_db) :=
  let? current := read_outbox (o_id (rc_outbox c)) db in
  let? current := ok_or (filter_opt (λ r, same_outbox r (rc_outbox c)) current) OpLeaseLost in
  reject_if
    (negb (bool_decide (o_state current = Leased))
     || is_none_or (λ expires, now <? expires) (o_lease_expires current)) OpLeaseLost ;?
  let? own := ok_or (o_lease_owner current) OpInvariant in
  let? expires := ok_or (o_lease_expires current) OpInvariant in
  let? db := recover_targets current own expires now delay (submitted_targets (o_targets current)) db in
  let? ts := read_targets (o_id current) db in
  let? d :=
    if rc_current_desired c then disposition current ts else Ok (MkDisposition Superseded None) in
  let? next := optional_i64 (dp_next_attempt d) in
  let? now_value := i64_value now in
  let? revision := i64_value (o_revision current) in
  let? expires_value := i64_value expires in
  let? (rows, affected) :=
    exec (UPDATE_OUTBOX_RECOVERY_SQL (outbox_code (dp_state d)) next now_value (o_id current) revision own
            expires_value now_value (pr_outboxes db)) in
  reject_if (negb (affected =? 1)) OpLeaseLost ;?
  Ok (true, with_outboxes db rows).

Definition from_prepared (p : RhiPreparedPresenceAttempt) (finished : Z) (o : RhiPresenceAttemptOutcome)
    (delay : Z) : result RhiPresencePublicationErrorKind PresenceRecordInput :=
  let l := p_lease p in let t := p_target p in
  reject_if ((finished <? p_started_at p) || bool_decide (o = Submitted)) InvalidInput ;?
  let expected := derive_attempt_id (o_id (lease_outbox l)) (o_event_sha256 (lease_outbox l)) (t_ordinal t)
                    (t_attempt_count t) in
  reject_if (negb (bytes_eqb expected (p_attempt_id p))) Invariant ;?
  Ok (MkInput (o_id (lease_outbox l)) (o_revision (lease_outbox l)) (o_event_sha256 (lease_outbox l)) (owner l)
        (expires_at l) (t_ordinal t) (t_revision t) (t_attempt_count t) (p_attempt_id p) (p_started_at p) finished
        o delay).

(** ** The repository methods *)

Definition map_transaction_error (e : tx_error PresenceOperationError) : RhiPresencePublicationErrorKind :=
  if commit_outcome_unknown e then CommitOutcomeUnknown
  else
    match operation_error e with
    | Some OpInvalidInput => InvalidInput
    | Some OpDesiredStateMismatch => DesiredStateMismatch
    | Some OpVerificationFailed => VerificationFailed
    | Some OpNotReady => NotReady
    | Some OpLeaseLost => LeaseLost
    | Some OpInvariant => Invariant
    | Some OpStorage | None => Storage
    end.

Section repository.
Context `{TransactionHost presence_db}.

(** [host().mode() == ReadWriteExisting] *)
Context (writable : bool).

Definition run {A} (op : presence_db → result PresenceOperationError (A * presence_db)) (db : presence_db) :
    result RhiPresencePublicationErrorKind A * presence_db :=
  if negb writable then (Err InvalidMode, db)
  else let '(r, db) := transaction op db in (map_err map_transaction_error r, db).

Definition commit_signed_presence (d : RhiSignedPresenceDocuments) (committed_at : Z) :=
  run (commit_signed d committed_at).

Definition claim_next_presence (own : bytes) (now : Z) := run (claim_next own now).

Definition prepare_next_presence_target (l : RhiPresenceLease) (started : Z) := run (prepare_next l started).

Definition record_presence_outcome (p : RhiPreparedPresenceAttempt) (finished : Z) (o : RhiPresenceAttemptOutcome)
    (delay : Z) (db : presence_db) : result RhiPresencePublicationErrorKind RhiPresenceAttemptCommit * presence_db :=
  if negb writable then (Err InvalidMode, db)
  else
    match from_prepared p finished o delay with
    | Err e => (Err e, db)
    | Ok input => run (record_outcome input) db
    end.

(** ** Time, entropy and the sink *)

Context `{WallClock W, !EntropySource W}.

Definition presence_now (w : W) : result RhiPresencePublicationErrorKind Z * W :=
  let '(value, w) := Adapters.now_utc_milliseconds w in
  (let? value := map_err (λ _, ClockUnavailable) value in
   map_err (λ _, ClockUnavailable) (presence_unix_milliseconds_new value), w).

Definition sample_retry_delay (cap : Z) (w : W) : result RhiPresencePublicationErrorKind Z * W :=
  if cap =? 0 then (Ok 0, w)
  else
    match Adapters.jitter_bound_new cap with
    | Err _ => (Err InvalidInput, w)
    | Ok bound =>
        let '(r, w) := Adapters.sample_full_jitter bound w in (map_err (λ _, EntropyUnavailable) r, w)
    end.

Definition recover_one_expired_presence (now : Z) (db : presence_db) (w : W) :
    result RhiPresencePublicationErrorKind bool * presence_db * W :=
  match run (λ db, let? c := read_expired_candidate now db in Ok (c, db)) db with
  | (Err e, db) => (Err e, db, w)
  | (Ok None, db) => (Ok false, db, w)
  | (Ok (Some candidate), db) =>
      match sample_retry_delay (rc_retry_upper_bound candidate) w with
      | (Err e, w) => (Err e, db, w)
      | (Ok delay, w) => let '(r, db) := run (recover_expired candidate now delay) db in (r, db, w)
      end
  end.

(** The part of [execute_next_presence] before the sink is called. *)
Definition prepare_execution (own : bytes) (db : presence_db) (w : W) :
    result RhiPresencePublicationErrorKind (option RhiPreparedPresenceAttempt) * presence_db * W :=
  match presence_now w with
  | (Err e, w) => (Err e, db, w)
  | (Ok now, w) =>
      match recover_one_expired_presence now db w with
      | (Err e, db, w) => (Err e, db, w)
      | (Ok _, db, w) =>
          match claim_next_presence own now db with
          | (Err e, db) => (Err e, db, w)
          | (Ok None, db) => (Ok None, db, w)
          | (Ok (Some lease), db) =>
              match prepare_next_presence_target lease now db with
              | (Err e, db) => (Err e, db, w)
              | (Ok prepared, db) => (Ok (Some prepared), db, w)
              end
          end
      end
  end.

(** The part after the sink answered. *)
Definition finish_execution (prepared : RhiPreparedPresenceAttempt) (answer : RhiPresenceAttemptOutcome)
    (db : presence_db) (w : W) : result RhiPresencePublicationErrorKind RhiPresenceAttemptCommit * presence_db * W :=
  let outcome := match answer with Submitted => Unknown | o => o end in
  match presence_now w with
  | (Err e, w) => (Err e, db, w)
  | (Ok finished, w) =>
      match
        if retryable_outcome outcome then sample_retry_delay (retry_upper_bound (t_attempt_count (p_target prepared))) w
        else (Ok 0, w)
      with
      | (Err e, w) => (Err e, db, w)
      | (Ok delay, w) => let '(r, db) := record_presence_outcome prepared finished outcome delay db in (r, db, w)
      end
  end.

(** [submit_exact] may take time and use the environment. *)
Definition execute_next_presence (submit_exact : RhiPreparedPresenceAttempt → W → RhiPresenceAttemptOutcome * W)
    (own : bytes) (db : presence_db) (w : W) :
    result RhiPresencePublicationErrorKind (option RhiPresenceAttemptCommit) * presence_db * W :=
  match prepare_execution own db w with
  | (Err e, db, w) => (Err e, db, w)
  | (Ok None, db, w) => (Ok None, db, w)
  | (Ok (Some prepared), db, w) =>
      let '(answer, w) := submit_exact prepared w in
      match finish_execution prepared answer db w with
      | (Err e, db, w) => (Err e, db, w)
      | (Ok commit, db, w) => (Ok (Some commit), db, w)
      end
  end.
End repository.
End operations.

End PresenceDelivery.
