(* ===== verification/PresenceViews.v ===== *)
(** * Reading the presence tables

    What a successful read says of the stored row: each decoded record is the row, the
    exact bytes are the ones the stored digest names, and the row with a given key is
    the only one. *)

From Stdlib Require Import ZArith Lia.
From stdpp Require Import list strings.
From S2P Require Import Prelude.
From S2P Require Import Sql.
From S2P Require Import Interfaces.
From S2P Require Import Publication.
From S2P Require Import PublicationState.
From S2P Require Import StateConfig.
From S2P Require Import StateConfigSafety.
From S2P Require Import PresenceState.
From S2P Require Import PresenceDesired.
From S2P Require Import PresencePublication.
From S2P Require Import PresenceRecords.
From S2P Require Import PresenceDelivery.

Module PresenceViews.
Import PubState PresenceState Presence PresencePub PresenceRecords PresenceDelivery.

(** ** Columns *)

Lemma presence_blob_Ok n col b : blob n col = Ok b → b = col ∧ length b = n.
Proof.
  unfold blob, blob_of. rewrite ok_or_Ok, filter_opt_Some, Nat.eqb_eq. naive_solver.
Qed.

Lemma presence_text_Ok n col s : 0 ≤ n → bounded_text n col = Ok s → s = col.
Proof.
  unfold bounded_text. intros Hn Hb. bind Hb as size Hs. apply ok_or_Ok, filter_opt_Some in Hs as [[= <-] Hr].
  bind Hb as u Hu. injection Hb as <-. apply between_true in Hr. unfold Config.text_size in Hr.
  apply ConfigSafety.substring_all. lia.
Qed.

Lemma presence_millis_Ok col v : optional_millis col = Ok v → v = col.
Proof.
  unfold optional_millis. destruct col as [x|]; intros Hv; [|by injection Hv].
  bind Hv as y Hy. apply ok_or_Ok, try_from_Some in Hy as [-> _]. by injection Hv.
Qed.

Lemma presence_owner_Ok col v : optional_owner col = Ok v → v = col.
Proof.
  unfold optional_owner. destruct col as [b|]; intros Hv; [|by injection Hv].
  bind Hv as u Hu. bind Hv as u1 Hu1. bind Hv as u2 Hu2. injection Hv as <-.
  apply reject_if_Ok, negb_false_iff, Nat.eqb_eq in Hu. by rewrite take_ge by lia.
Qed.

Lemma presence_attempt_Ok col v : optional_attempt_id col = Ok v → v = col.
Proof.
  unfold optional_attempt_id. destruct col as [b|]; intros Hv; [|by injection Hv].
  bind Hv as u Hu. bind Hv as u1 Hu1. injection Hv as <-.
  apply reject_if_Ok, negb_false_iff, Nat.eqb_eq in Hu. by rewrite take_ge by lia.
Qed.

Lemma presence_u8_Ok col m v : bounded_u8 col m = Ok v → v = col ∧ 0 ≤ v ≤ m.
Proof.
  unfold bounded_u8. rewrite ok_or_Ok, filter_opt_Some, try_from_Some, Z.leb_le. naive_solver lia.
Qed.

Lemma presence_u16_Ok col m v : bounded_u16 col m = Ok v → v = col ∧ 0 ≤ v ≤ m.
Proof.
  unfold bounded_u16. rewrite ok_or_Ok, filter_opt_Some, try_from_Some, Z.leb_le. naive_solver lia.
Qed.

Lemma presence_nonnegative_Ok col v : nonnegative_u64 col = Ok v → v = col.
Proof. unfold nonnegative_u64. rewrite ok_or_Ok, try_from_Some. naive_solver. Qed.

Lemma presence_positive_Ok col v : positive_u64 col = Ok v → v = col.
Proof.
  unfold positive_u64. intros Hv. bind Hv as x Hx. apply presence_nonnegative_Ok in Hx as ->.
  apply ok_or_Ok, filter_opt_Some in Hv as [Hv _]. by injection Hv.
Qed.

Lemma presence_i64_Ok v w : i64_value v = Ok w ↔ w = v ∧ 0 ≤ v ≤ I64_MAX.
Proof. unfold i64_value. by rewrite ok_or_Ok, try_from_Some. Qed.

Lemma presence_optional_i64_Ok v w : optional_i64 v = Ok w → w = v.
Proof.
  unfold optional_i64. destruct v as [x|]; intros Hw; [|by injection Hw].
  bind Hw as y Hy. apply presence_i64_Ok in Hy as [-> _]. by injection Hw.
Qed.

Lemma presence_boolean_Ok col b : boolean_i64 col = Ok b → col = if b then 1 else 0.
Proof.
  unfold boolean_i64. destruct (Z.eqb_spec col 0) as [->|_]; [by intros [= <-]|].
  by destruct (Z.eqb_spec col 1) as [->|_]; [intros [= <-]|].
Qed.

Lemma document_kind_decoded s k : PresenceRecords.decode_document_kind s = Ok k → s = document_code k.
Proof.
  unfold PresenceRecords.decode_document_kind. intros Hd.
  repeat match type of Hd with (if String.eqb s ?x then _ else _) = _ => destruct (String.eqb_spec s x) as [->|_] end;
    by inv_ok.
Qed.

Lemma outbox_state_decoded s st : PresenceRecords.decode_outbox_state s = Ok st → s = outbox_code st.
Proof.
  unfold PresenceRecords.decode_outbox_state. intros Hd.
  repeat match type of Hd with (if String.eqb s ?x then _ else _) = _ => destruct (String.eqb_spec s x) as [->|_] end;
    by inv_ok.
Qed.

Lemma target_state_decoded s st : PresenceRecords.decode_target_state s = Ok st → s = target_code st.
Proof.
  unfold PresenceRecords.decode_target_state. intros Hd.
  repeat match type of Hd with (if String.eqb s ?x then _ else _) = _ => destruct (String.eqb_spec s x) as [->|_] end;
    by inv_ok.
Qed.

Lemma presence_outbox_code_inj s t : outbox_code s = outbox_code t → s = t.
Proof. by destruct s, t. Qed.

Lemma presence_target_code_inj s t : target_code s = target_code t → s = t.
Proof. by destruct s, t. Qed.

(** ** Rows *)

Record outbox_seen `{Sha256} (r : outbox_row) (o : PresenceOutboxRecord) : Prop := {
  os_id : po_outbox_id r = o_id o;
  os_generation : po_desired_generation r = o_desired_generation o;
  os_kind : po_document_kind r = document_code (o_document_kind o);
  os_authored : po_authored_at_unix_s r = o_authored_at_unix_s o;
  os_key : po_service_public_key r = o_service_public_key o;
  os_desired : po_desired_sha256 r = o_desired_sha256 o;
  os_target_set : po_target_set_sha256 r = o_target_set_sha256 o;
  os_event_id : po_event_id r = o_event_id o;
  os_event : po_event_sha256 r = o_event_sha256 o;
  os_bytes : po_exact_signed_event_bytes r = o_exact_signed_event_bytes o;
  os_digest : sha256 (o_exact_signed_event_bytes o) = o_event_sha256 o;
  os_state : po_state r = outbox_code (o_state o);
  os_revision : po_revision r = o_revision o;
  os_next : po_next_attempt_unix_ms r = o_next_attempt o;
  os_owner : po_lease_owner r = o_lease_owner o;
  os_expires : po_lease_expires_unix_ms r = o_lease_expires o;
  os_updated : po_updated_at_unix_ms r = o_updated_at o;
  os_maximum : o_max_attempts o = RHI_PRESENCE_MAX_ATTEMPTS;
}.

Lemma decode_outbox_seen `{Sha256, PublicKeyLibrary K} r o :
  PresenceRecords.decode_outbox r = Ok o → outbox_seen r o.
Proof.
  unfold PresenceRecords.decode_outbox. intros Hd.
  bind Hd as i Hi. bind Hd as g Hg. bind Hd as kt Hkt. bind Hd as k Hk. bind Hd as d Hde. bind Hd as ts Hts.
  bind Hd as ei Hei. bind Hd as es Hes. bind Hd as len Hlen. bind Hd as u1 Hu1. bind Hd as au Hau. bind Hd as key Hkey.
  bind Hd as c Hc. bind Hd as rc Hrc. bind Hd as ma Hma. bind Hd as ini Hini. bind Hd as mx Hmx. bind Hd as dl Hdl.
  bind Hd as st0 Hst0. bind Hd as st Hst. bind Hd as rev Hrev. bind Hd as nx Hnx. bind Hd as ow How.
  bind Hd as ex Hex. bind Hd as cr Hcr. bind Hd as up Hup. bind Hd as u2 Hu2.
  apply presence_text_Ok in Hkt as ->; [|lia]. apply document_kind_decoded in Hk.
  apply presence_nonnegative_Ok in Hau as ->. apply presence_text_Ok in Hkey as ->; [|lia].
  apply presence_blob_Ok in Hi as [-> _], Hde as [-> _], Hts as [-> _], Hei as [-> _], Hes as [-> _].
  apply presence_positive_Ok in Hg as ->. apply presence_positive_Ok in Hlen as ->.
  apply presence_positive_Ok in Hrev as ->. apply presence_text_Ok in Hst0 as ->; [|lia].
  apply outbox_state_decoded in Hst. apply presence_millis_Ok in Hnx as ->. apply presence_millis_Ok in Hex as ->.
  apply presence_owner_Ok in How as ->. apply presence_nonnegative_Ok in Hup as ->.
  apply reject_if_Ok, Z.ltb_ge in Hu1. apply reject_if_Ok in Hu2. unfold RHI_PRESENCE_SIGNED_EVENT_MAX_BYTES in Hu1.
  assert (take 32769 (po_exact_signed_event_bytes r) = po_exact_signed_event_bytes r) as Htk.
  { apply take_ge, Nat2Z.inj_le. etrans; [exact Hu1|]. vm_compute. discriminate. }
  rewrite Htk in *. injection Hd as <-. to_prop.
  repeat match goal with E : bytes_eqb _ _ = true |- _ => apply bytes_eqb_true in E end.
  by split.
Qed.

Record target_seen (r : target_row) (t : PresenceTargetRecord) : Prop := {
  se_ordinal : pt_target_ordinal r = t_ordinal t;
  se_relay : pt_relay_id r = t_relay_id t;
  se_required : pt_required r = if t_required t then 1 else 0;
  se_state : pt_state r = target_code (t_state t);
  se_revision : pt_revision r = t_revision t;
  se_count : pt_attempt_count r = t_attempt_count t;
  se_next : pt_next_attempt_unix_ms r = t_next_attempt t;
  se_last : pt_last_attempt_id r = t_last_attempt_id t;
  se_updated : pt_updated_at_unix_ms r = t_updated_at t;
}.

Lemma decode_target_seen r t : PresenceRecords.decode_target r = Ok t → target_seen r t.
Proof.
  unfold PresenceRecords.decode_target. intros Hd.
  bind Hd as od Ho. bind Hd as re Hre. bind Hd as rq Hrq. bind Hd as st0 Hst0. bind Hd as st Hst.
  bind Hd as rev Hrev. bind Hd as n Hn. bind Hd as nx Hnx. bind Hd as la Hla. bind Hd as up Hup. bind Hd as u Hu.
  injection Hd as <-. apply presence_u8_Ok in Ho as [-> _]. apply presence_text_Ok in Hre as ->; [|lia].
  apply presence_text_Ok in Hst0 as ->; [|lia]. apply target_state_decoded in Hst.
  apply presence_positive_Ok in Hrev as ->. apply presence_u16_Ok in Hn as [-> _].
  apply presence_millis_Ok in Hnx as ->. apply presence_attempt_Ok in Hla as ->.
  apply presence_nonnegative_Ok in Hup as ->. apply presence_boolean_Ok in Hrq. by split.
Qed.

(** ** Keys *)

Lemma presence_tables_split db :
  tables_ok db = true ↔ rows_ok (pr_desired db) = true ∧ rows_ok (pr_outboxes db) = true ∧
    rows_ok (pr_targets db) = true ∧ rows_ok (pr_attempts db) = true.
Proof. unfold tables_ok. rewrite !andb_true_iff. tauto. Qed.

Lemma presence_outbox_unique db r s :
  tables_ok db = true → r ∈ pr_outboxes db → s ∈ pr_outboxes db → po_outbox_id r = po_outbox_id s → r = s.
Proof.
  intros (_ & Ho & _)%presence_tables_split Hr Hs He.
  apply (rows_ok_unique _ _ _ presence_outbox_conflict_sym Ho Hr Hs). simpl. by rewrite He, bytes_eqb_refl.
Qed.

Lemma presence_target_unique db r s :
  tables_ok db = true → r ∈ pr_targets db → s ∈ pr_targets db →
  pt_outbox_id r = pt_outbox_id s → pt_target_ordinal r = pt_target_ordinal s → r = s.
Proof.
  intros (_ & _ & Ht & _)%presence_tables_split Hr Hs He Ho.
  apply (rows_ok_unique _ _ _ presence_target_conflict_sym Ht Hr Hs). simpl. by rewrite He, Ho, bytes_eqb_refl, Z.eqb_refl.
Qed.

Lemma presence_attempt_unique db r s :
  tables_ok db = true → r ∈ pr_attempts db → s ∈ pr_attempts db → pa_attempt_id r = pa_attempt_id s → r = s.
Proof.
  intros (_ & _ & _ & Ha)%presence_tables_split Hr Hs He.
  apply (rows_ok_unique _ _ _ presence_attempt_conflict_sym Ha Hr Hs). simpl. by rewrite He, bytes_eqb_refl.
Qed.

(** [exactly_zero_or_one] of a key lookup. *)
Lemma single_row {row} (p : row → bool) rows r :
  exactly_zero_or_one (take 2 (List.filter p rows)) = Ok (Some r) → r ∈ rows ∧ p r = true.
Proof.
  unfold exactly_zero_or_one. destruct (take 2 _) as [|x [|]] eqn:E; try done. intros [= <-].
  assert (In x (List.filter p rows)) as Hin.
  { rewrite <- (take_drop 2 (List.filter p rows)). apply in_or_app. left. rewrite E. by left. }
  apply filter_In in Hin as [Hin Hp]. by apply list_elem_of_In in Hin.
Qed.

Lemma single_none {row} (p : row → bool) rows :
  exactly_zero_or_one (take 2 (List.filter p rows)) = Ok None → ∀ r, r ∈ rows → p r = false.
Proof.
  unfold exactly_zero_or_one. destruct (List.filter p rows) as [|x l] eqn:E.
  - intros _ r Hr. destruct (p r) eqn:Hp; [|done].
    assert (In r (List.filter p rows)) as Hin by (apply filter_In; by rewrite <- list_elem_of_In).
    by rewrite E in Hin.
  - simpl. by destruct l.
Qed.

Section reads.
Context `{Sha256, PublicKeyLibrary K}.

(** A record was read from the one row of its identity, with its targets. *)
Lemma read_outbox_seen i db o :
  read_outbox i db = Ok (Some o) →
  ∃ r, r ∈ pr_outboxes db ∧ po_outbox_id r = i ∧ o_id o = i ∧ outbox_seen r o ∧
    read_targets i db = Ok (o_targets o).
Proof.
  unfold read_outbox, READ_OUTBOX_SQL. intros Hr. bind Hr as row Hrow. destruct row as [r|]; [|done].
  bind Hr as o' Ho. injection Hr as <-. apply single_row in Hrow as [Hin Hid%bytes_eqb_true].
  unfold load_outbox in Ho. bind Ho as o1 Hd. bind Ho as ts Hts. injection Ho as <-.
  apply decode_outbox_seen in Hd. pose proof (os_id _ _ Hd) as Hoi. exists r. simpl.
  split_and!; [done|done|congruence| |congruence]. by destruct Hd.
Qed.

Lemma presence_read_outbox_row i db o r :
  tables_ok db = true → read_outbox i db = Ok (Some o) → r ∈ pr_outboxes db → po_outbox_id r = i →
  outbox_seen r o.
Proof.
  intros Hok (r' & Hr' & Hi & _ & Hs & _)%read_outbox_seen Hr Hid.
  by rewrite (presence_outbox_unique db r r' Hok Hr Hr' ltac:(congruence)).
Qed.
End reads.

Lemma read_targets_seen i db ts t :
  read_targets i db = Ok ts → t ∈ ts → ∃ r, r ∈ pr_targets db ∧ pt_outbox_id r = i ∧ target_seen r t.
Proof.
  unfold read_targets, READ_TARGETS_SQL. intros Hr Ht. bind Hr as u Hu. apply collect_Ok in Hr.
  apply list_elem_of_lookup in Ht as [k Hk]. destruct (Forall2_lookup_r _ _ _ _ _ Hr Hk) as (r & Hrk & Hd).
  apply list_elem_of_lookup_2, subseteq_take, list_elem_of_In in Hrk.
  assert (r ∈ List.filter (λ r, bytes_eqb (pt_outbox_id r) i) (pr_targets db)) as Hin.
  { rewrite <- (sort_by_perm target_order). by apply list_elem_of_In. }
  apply list_elem_of_In, filter_In in Hin as [Hin Hid%bytes_eqb_true]. apply list_elem_of_In in Hin.
  exists r. split_and!; [done|done|by apply decode_target_seen].
Qed.

Lemma read_attempt_seen i db a :
  read_attempt i db = Ok (Some a) → ∃ r, r ∈ pr_attempts db ∧ pa_attempt_id r = i ∧ decode_attempt r = Ok a.
Proof.
  unfold read_attempt, READ_ATTEMPT_SQL. intros Hr. bind Hr as row Hrow. destruct row as [r|]; [|done].
  bind Hr as a' Ha. injection Hr as <-. apply single_row in Hrow as [Hin Hid%bytes_eqb_true]. by exists r.
Qed.

Lemma read_attempt_absent i db : read_attempt i db = Ok None → ∀ r, r ∈ pr_attempts db → pa_attempt_id r ≠ i.
Proof.
  unfold read_attempt, READ_ATTEMPT_SQL. intros Hr. bind Hr as row Hrow. destruct row as [r|].
  - bind Hr as a Ha. done.
  - intros r Hin <-. pose proof (single_none _ _ Hrow r Hin) as Hn. cbv beta in Hn. by rewrite bytes_eqb_refl in Hn.
Qed.

End PresenceViews.
