(* ===== verification/PresenceHistory.v ===== *)
(** * Histories of presence operations

    How the presence tables may change: rows are never removed, an outbox keeps what
    it publishes, a settled target and a recorded attempt are final, and the recorded
    attempts agree with the targets they belong to.  Every statement the operations
    run respects this order, so every operation does. *)

From Stdlib Require Import ZArith Lia.
From stdpp Require Import list strings relations.
From S2P Require Import Prelude.
From S2P Require Import Sql.
From S2P Require Import Interfaces.
From S2P Require Import Publication.
From S2P Require Import PublicationState.
From S2P Require Import PublicationViews.
From S2P Require Import StateConfig.
From S2P Require Import PresenceState.
From S2P Require Import PresenceDesired.
From S2P Require Import PresenceDesiredSafety.
From S2P Require Import PresencePublication.
From S2P Require Import PresenceRecords.
From S2P Require Import PresenceDelivery.
From S2P Require Import PresenceViews.

Module PresenceHistory.
Import PubState PresenceState Presence PresencePub PresenceRecords PresenceDelivery PresenceViews.

(** ** Growing tables *)

Section rows.
Context `{Table row} (R : row → row → Prop) `{!PreOrder R}.

(** No row is removed; every row changes along [R]. *)
Definition rows_grow (rows rows' : list row) : Prop :=
  ∃ kept added, rows' = kept ++ added ∧ Forall2 R rows kept.

#[export] Instance rows_grow_preorder : PreOrder rows_grow.
Proof.
  split.
  - intros rows. exists rows, []. rewrite app_nil_r. split; [done|]. by apply Forall_Forall2_diag, Forall_true.
  - intros l1 l2 l3 (k1 & a1 & -> & H1) (k2 & a2 & -> & H2).
    apply Forall2_app_inv_l in H2 as (k & a & Hk & _ & ->). exists k, (a ++ a2).
    rewrite <- app_assoc. split; [done|]. by etrans.
Qed.

Lemma rows_grow_elem rows rows' r : rows_grow rows rows' → r ∈ rows → ∃ r', r' ∈ rows' ∧ R r r'.
Proof.
  intros (k & a & -> & Hk) [i Hi]%list_elem_of_lookup.
  destruct (Forall2_lookup_l _ _ _ _ _ Hk Hi) as (r' & Hr' & HR). exists r'. split; [|done].
  apply elem_of_app. left. by eapply list_elem_of_lookup_2.
Qed.

Lemma rows_grow_added rows added : rows_grow rows (rows ++ added).
Proof. exists rows, added. split; [done|]. by apply Forall_Forall2_diag, Forall_true. Qed.

(** A statement whose trigger admits only [R] respects it. *)
Lemma rows_grow_update p f rows rows' n :
  (∀ r r', row_guard r r' = true → R r r') → update_rows p f rows = Ok (rows', n) → rows_grow rows rows'.
Proof.
  intros HR (-> & _ & Hall)%update_rows_Ok. exists (map (apply_where p f) rows), []. rewrite app_nil_r.
  split; [done|]. apply Forall2_fmap_r, Forall_Forall2_diag. eapply Forall_impl; [|exact Hall].
  intros r Hr. change (R r (apply_where p f r)). cbv beta in Hr. unfold apply_where. destruct (p r); [|reflexivity]. apply HR. by apply Hr.
Qed.

Lemma rows_grow_insert refs r rows rows' : insert_row refs r rows = Ok rows' → rows_grow rows rows'.
Proof. intros (-> & _)%insert_row_Ok. apply rows_grow_added. Qed.
End rows.

(** ** How each row may change *)

Definition desired_grows (r r' : desired_row) : Prop := ds_generation r ≤ ds_generation r'.

Record outbox_grows (r r' : outbox_row) : Prop := {
  og_columns : same_presence_columns r r' = true;
  og_revision : po_revision r ≤ po_revision r';
  og_updated : po_updated_at_unix_ms r ≤ po_updated_at_unix_ms r';
  og_final : one_of ["complete"; "superseded"] (po_state r) = true → r' = r;
}.

Record target_grows (r r' : target_row) : Prop := {
  tr_outbox : pt_outbox_id r' = pt_outbox_id r;
  tr_ordinal : pt_target_ordinal r' = pt_target_ordinal r;
  tr_relay : pt_relay_id r' = pt_relay_id r;
  tr_required : pt_required r' = pt_required r;
  tr_revision : pt_revision r ≤ pt_revision r';
  tr_count : pt_attempt_count r ≤ pt_attempt_count r';
  tr_final : one_of final_states (pt_state r) = true → r' = r;
  (** While an attempt is current, only its outcome changes the target. *)
  tr_settled : pt_attempt_count r' = pt_attempt_count r → pt_state r ≠ "submitted"%string → r' = r;
}.

#[export] Instance desired_grows_preorder : PreOrder desired_grows.
Proof. split; unfold desired_grows; [by intros ?|intros ? ? ?; lia]. Qed.

Lemma same_presence_true r r' :
  same_presence_columns r r' = true →
  po_outbox_id r' = po_outbox_id r ∧ po_desired_generation r' = po_desired_generation r ∧
  po_document_kind r' = po_document_kind r ∧ po_desired_sha256 r' = po_desired_sha256 r ∧
  po_target_set_sha256 r' = po_target_set_sha256 r ∧ po_event_id r' = po_event_id r ∧
  po_event_sha256 r' = po_event_sha256 r ∧ po_exact_signed_event_bytes r' = po_exact_signed_event_bytes r ∧
  po_authored_at_unix_s r' = po_authored_at_unix_s r ∧ po_service_public_key r' = po_service_public_key r ∧
  po_target_count r' = po_target_count r ∧ po_required_target_count r' = po_required_target_count r ∧
  po_max_attempts r' = po_max_attempts r ∧ po_initial_backoff_ms r' = po_initial_backoff_ms r ∧
  po_maximum_backoff_ms r' = po_maximum_backoff_ms r ∧ po_attempt_deadline_ms r' = po_attempt_deadline_ms r ∧
  po_created_at_unix_ms r' = po_created_at_unix_ms r.
Proof.
  unfold same_presence_columns. intros Hs. to_prop.
  repeat match goal with
  | E : bytes_eqb _ _ = true |- _ => apply bytes_eqb_true in E
  | E : String.eqb _ _ = true |- _ => apply String.eqb_eq in E
  end. split_and!; done.
Qed.

Lemma same_presence_refl r : same_presence_columns r r = true.
Proof. unfold same_presence_columns. by rewrite !bytes_eqb_refl, !Z.eqb_refl, !String.eqb_refl. Qed.

Lemma same_presence_trans r s u :
  same_presence_columns r s = true → same_presence_columns s u = true → same_presence_columns r u = true.
Proof.
  intros Hrs%same_presence_true Hsu%same_presence_true.
  destruct Hrs as (A1 & A2 & A3 & A4 & A5 & A6 & A7 & A8 & A9 & A10 & A11 & A12 & A13 & A14 & A15 & A16 & A17).
  destruct Hsu as (B1 & B2 & B3 & B4 & B5 & B6 & B7 & B8 & B9 & B10 & B11 & B12 & B13 & B14 & B15 & B16 & B17).
  unfold same_presence_columns.
  rewrite B1, B2, B3, B4, B5, B6, B7, B8, B9, B10, B11, B12, B13, B14, B15, B16, B17.
  rewrite A1, A2, A3, A4, A5, A6, A7, A8, A9, A10, A11, A12, A13, A14, A15, A16, A17.
  by rewrite !bytes_eqb_refl, !Z.eqb_refl, !String.eqb_refl.
Qed.

#[export] Instance outbox_grows_preorder : PreOrder outbox_grows.
Proof.
  split.
  - intros r. split; [apply same_presence_refl|done..].
  - intros r s u [] []. split; [by eapply same_presence_trans|lia|lia|].
    intros Hf. assert (s = r) as -> by auto. auto.
Qed.

#[export] Instance target_grows_preorder : PreOrder target_grows.
Proof.
  split.
  - intros r. by split.
  - intros r s u [] []. split; try congruence; try lia.
    + intros Hf. assert (s = r) as -> by auto. auto.
    + intros Hc Hs. assert (s = r) as -> by (apply tr_settled0; [lia|done]). apply tr_settled1; [lia|done].
Qed.

(** ** What the triggers admit *)

Lemma desired_guard_grows r r' : row_guard r r' = true → desired_grows r r'.
Proof. simpl. unfold desired_grows. intros Hg. to_prop. lia. Qed.

Lemma presence_outbox_guard_grows r r' : row_guard r r' = true → outbox_grows r r'.
Proof.
  simpl. intros Hg. to_prop. split; [done|lia|lia|]. intros Hf.
  match goal with E : presence_transition _ _ = true |- _ => unfold presence_transition in E end.
  apply Views.one_of_true in Hf. rewrite !elem_of_cons, elem_of_nil in Hf.
  destruct Hf as [Hf|[Hf|[]]]; rewrite Hf in *; discriminate.
Qed.

(** The two moves of a target. *)
Lemma target_transition_cases r r' :
  target_transition r r' = true →
  (one_of ("pending" :: retry_states) (pt_state r) = true ∧ pt_state r' = "submitted"%string ∧
   pt_attempt_count r' = pt_attempt_count r + 1 ∧ pt_last_attempt_id r' ≠ pt_last_attempt_id r) ∨
  (pt_state r = "submitted"%string ∧ one_of (final_states ++ retry_states) (pt_state r') = true ∧
   pt_attempt_count r' = pt_attempt_count r ∧ pt_last_attempt_id r' = pt_last_attempt_id r).
Proof.
  unfold target_transition, differs. intros [Ht|Ht]%orb_true_iff; to_prop;
    repeat match goal with E : String.eqb _ _ = true |- _ => apply String.eqb_eq in E end.
  - left. done.
  - right. destruct (pt_last_attempt_id r') as [a|], (pt_last_attempt_id r) as [b|]; try done.
    match goal with E : bytes_eqb _ _ = true |- _ => apply bytes_eqb_true in E as -> end. done.
Qed.

Lemma presence_target_guard_grows r r' : row_guard r r' = true → target_grows r r'.
Proof.
  simpl. intros Hg. to_prop.
  repeat match goal with
  | E : bytes_eqb _ _ = true |- _ => apply bytes_eqb_true in E
  | E : String.eqb _ _ = true |- _ => apply String.eqb_eq in E
  end.
  match goal with E : target_transition _ _ = true |- _ => apply target_transition_cases in E as
    [(Ho & Hs & Hc & _)|(Hs & _ & Hc & _)] end.
  - split; try done; try lia. intros Hf. exfalso.
    apply Views.one_of_true in Hf. unfold final_states in Hf. rewrite !elem_of_cons, elem_of_nil in Hf.
    destruct Hf as [Hf|[Hf|[Hf|[]]]]; by rewrite Hf in Ho.
  - split; try done; try lia. intros Hf. exfalso.
    by rewrite Hs in Hf.
Qed.

(** ** Recorded evidence *)

(** An attempt names the event of its outbox, and the target it was made for has that
    outcome until a later attempt is submitted. *)
Record attempt_consistent (db : presence_db) (a : attempt_row) : Prop := {
  ev_event : ∃ o, o ∈ pr_outboxes db ∧ po_outbox_id o = pa_outbox_id a ∧ po_event_sha256 o = pa_event_sha256 a;
  ev_target : ∃ t, t ∈ pr_targets db ∧ pt_outbox_id t = pa_outbox_id a ∧ pt_target_ordinal t = pa_target_ordinal a ∧
    pa_attempt_number a ≤ pt_attempt_count t ∧
    (pa_attempt_number a = pt_attempt_count t →
     pt_state t = pa_outcome a ∧ pt_last_attempt_id t = Some (pa_attempt_id a));
}.

Definition evidence_consistent (db : presence_db) : Prop := ∀ a, a ∈ pr_attempts db → attempt_consistent db a.

(** ** Growing states *)

Record presence_grows (db db' : presence_db) : Prop := {
  gr_tables : tables_ok db' = true;
  gr_bindings : pr_bindings db' = pr_bindings db;
  gr_desired : rows_grow desired_grows (pr_desired db) (pr_desired db');
  gr_outboxes : rows_grow outbox_grows (pr_outboxes db) (pr_outboxes db');
  gr_targets : rows_grow target_grows (pr_targets db) (pr_targets db');
  gr_attempts : pr_attempts db `prefix_of` pr_attempts db';
  gr_evidence : evidence_consistent db → evidence_consistent db';
}.

Lemma presence_grows_refl db : tables_ok db = true → presence_grows db db.
Proof. by split. Qed.

Lemma presence_grows_trans db1 db2 db3 : presence_grows db1 db2 → presence_grows db2 db3 → presence_grows db1 db3.
Proof. intros [] []. split; [done|congruence|by etrans..|auto]. Qed.

Lemma consistent_grows db db' a :
  row_check a = true → rows_grow outbox_grows (pr_outboxes db) (pr_outboxes db') →
  rows_grow target_grows (pr_targets db) (pr_targets db') → attempt_consistent db a → attempt_consistent db' a.
Proof.
  intros Ha Ho Ht [(o & Hin & Hid & He) (t & Htin & Hto & Htr & Hn & Heq)]. split.
  - destruct (rows_grow_elem _ _ _ _ Ho Hin) as (o' & Hin' & [Hs _ _ _]). apply same_presence_true in Hs.
    exists o'. split; [done|]. split; [transitivity (po_outbox_id o)|transitivity (po_event_sha256 o)]; tauto.
  - destruct (rows_grow_elem _ _ _ _ Ht Htin) as (t' & Hin' & []). exists t'.
    split_and!; [done|congruence|congruence|lia|]. intros Hcur.
    assert (t' = t) as ->; [|apply Heq; lia]. apply tr_settled0; [lia|]. intros Hsub.
    destruct Heq as [Hst _]; [lia|]. simpl in Ha. to_prop. rewrite <- Hst, Hsub in *. done.
Qed.

(** A change that leaves the attempts alone. *)
Lemma grows_frame db db' :
  tables_ok db = true → tables_ok db' = true → pr_bindings db' = pr_bindings db →
  rows_grow desired_grows (pr_desired db) (pr_desired db') →
  rows_grow outbox_grows (pr_outboxes db) (pr_outboxes db') →
  rows_grow target_grows (pr_targets db) (pr_targets db') → pr_attempts db' = pr_attempts db →
  presence_grows db db'.
Proof.
  intros Hok Hok' Hb Hd Ho Ht Ha. split; try done; [by rewrite Ha|].
  intros Hev a Hin. rewrite Ha in Hin. eapply consistent_grows; [|done|done|by apply Hev].
  apply presence_tables_split in Hok as (_ & _ & _ & Hok). by eapply rows_ok_check.
Qed.

Lemma grows_outbox_update db p f rows n :
  tables_ok db = true → update_rows p f (pr_outboxes db) = Ok (rows, n) → presence_grows db (with_outboxes db rows).
Proof.
  intros Hok Hu. apply grows_frame; simpl; try done.
  - apply presence_tables_split in Hok as (? & ? & ? & ?). apply presence_tables_split. simpl. split_and!; try done.
    by eapply (update_rows_ok presence_outbox_conflict_sym).
  - by eapply rows_grow_update, Hu; [apply _|apply presence_outbox_guard_grows].
Qed.

Lemma grows_target_update db p f rows n :
  tables_ok db = true → update_rows p f (pr_targets db) = Ok (rows, n) → presence_grows db (with_targets db rows).
Proof.
  intros Hok Hu. apply grows_frame; simpl; try done.
  - apply presence_tables_split in Hok as (? & ? & ? & ?). apply presence_tables_split. simpl. split_and!; try done.
    by eapply (update_rows_ok presence_target_conflict_sym).
  - by eapply rows_grow_update, Hu; [apply _|apply presence_target_guard_grows].
Qed.

Lemma grows_outbox_insert db refs r rows :
  tables_ok db = true → insert_row refs r (pr_outboxes db) = Ok rows → presence_grows db (with_outboxes db rows).
Proof.
  intros Hok Hu. apply grows_frame; simpl; try done.
  - apply presence_tables_split in Hok as (? & ? & ? & ?). apply presence_tables_split. simpl. split_and!; try done.
    by eapply (insert_row_ok presence_outbox_conflict_sym).
  - by eapply rows_grow_insert, Hu; apply _.
Qed.

Lemma grows_target_insert db refs r rows :
  tables_ok db = true → insert_row refs r (pr_targets db) = Ok rows → presence_grows db (with_targets db rows).
Proof.
  intros Hok Hu. apply grows_frame; simpl; try done.
  - apply presence_tables_split in Hok as (? & ? & ? & ?). apply presence_tables_split. simpl. split_and!; try done.
    by eapply (insert_row_ok presence_target_conflict_sym).
  - by eapply rows_grow_insert, Hu; apply _.
Qed.

(** ** The operations *)

Section operations.
Context `{Sha256, PublicKeyLibrary K, !PresenceLibrary K Idn}.

Lemma presence_claim_grows own now db l db' :
  tables_ok db = true → claim_next own now db = Ok (l, db') → presence_grows db db'.
Proof.
  unfold claim_next. intros Hok Hc. bind Hc as nv Hnv. bind Hc as row Hrow. destruct row as [row|].
  - bind Hc as i Hi. bind Hc as o Ho. bind Hc as o' Ho'. bind Hc as u1 Hu1. bind Hc as u2 Hu2. bind Hc as ex Hex.
    bind Hc as exv Hexv. bind Hc as rev Hrev. bind Hc as ra Hra. destruct ra as [rows n].
    bind Hc as u3 Hu3. bind Hc as le Hle. bind Hc as le' Hle'. injection Hc as <- <-.
    apply map_err_Ok in Hra. by eapply grows_outbox_update.
  - injection Hc as <- <-. by apply presence_grows_refl.
Qed.

Lemma presence_prepare_grows l now db p db' :
  tables_ok db = true → prepare_next l now db = Ok (p, db') → presence_grows db db'.
Proof.
  unfold prepare_next. intros Hok Hp. bind Hp as u Hu. bind Hp as c Hc. bind Hp as n Hn. bind Hp as sv Hsv.
  bind Hp as rev Hrev. bind Hp as ra Hra. destruct ra as [rows k]. bind Hp as u1 Hu1. bind Hp as cu Hcu.
  bind Hp as cu' Hcu'. bind Hp as u2 Hu2. bind Hp as t Ht. bind Hp as v Hv. injection Hp as <- <-.
  apply map_err_Ok in Hra. by eapply grows_target_update.
Qed.

(** Recording one outcome: the attempt, then its target. *)
Lemma record_attempt_grows i st next db db1 db2 :
  tables_ok db = true →
  (∃ o, o ∈ pr_outboxes db ∧ po_outbox_id o = i_outbox_id i ∧ po_event_sha256 o = i_event_sha256 i) →
  insert_attempt i db = Ok db1 → target_outcome_schedule i = Ok (st, next) →
  update_target_outcome i st next db1 = Ok db2 →
  presence_grows db db2 ∧ pr_outboxes db2 = pr_outboxes db.
Proof.
  intros Hok Hout Hi Hs Hu. unfold insert_attempt in Hi. bind Hi as sv Hsv. bind Hi as fv Hfv. bind Hi as rows Hrows.
  injection Hi as <-. apply map_err_Ok in Hrows. unfold update_target_outcome in Hu. bind Hu as nx Hnx.
  bind Hu as fv' Hfv'. bind Hu as rev Hrev. bind Hu as ra Hra. destruct ra as [ts n]. bind Hu as u Hn.
  injection Hu as <-. apply map_err_Ok in Hra. simpl in Hra. apply reject_if_Ok, negb_false_iff, Z.eqb_eq in Hn. subst n.
  pose proof Hok as Hok0. apply presence_tables_split in Hok0 as (Hd & Ho & Ht & Ha). split; [|done].
  assert (rows_grow target_grows (pr_targets db) ts) as Hgrow.
  { eapply rows_grow_update, Hra; [apply _|apply presence_target_guard_grows]. }
  split; simpl; try done.
  - apply presence_tables_split. simpl. split_and!; try done; [by eapply (update_rows_ok presence_target_conflict_sym)|].
    by eapply (insert_row_ok presence_attempt_conflict_sym).
  - apply insert_row_Ok in Hrows as (-> & _). by eexists.
  - intros Hev a Hin. apply insert_row_Ok in Hrows as (-> & _ & _). simpl in Hin.
    apply elem_of_app in Hin as [Hin|Hin].
    + apply (consistent_grows db); [by eapply rows_ok_check|reflexivity|exact Hgrow|by apply Hev].
    + apply list_elem_of_singleton in Hin as ->. split; simpl; [done|].
      pose proof Hra as Hra0. apply update_rows_Ok in Hra0 as (-> & Hn & _).
      destruct (Views.some_row_affected _ _ (eq_sym Hn)) as (t & Htin & Hp). cbv beta in Hp.
      eexists. split; [apply list_elem_of_In, List.in_map, list_elem_of_In; exact Htin|].
      unfold apply_where. rewrite Hp. to_prop. unfold col_blob_eq in *. destruct (pt_last_attempt_id t) as [b|]; [|done].
      simpl in *. repeat match goal with E : bytes_eqb _ _ = true |- _ => apply bytes_eqb_true in E end.
      subst. split_and!; try done; [lia|]. intros _. split; [|done].
      unfold target_outcome_schedule in Hs. bind Hs as s Hst. bind Hs as nx' Hnx'. injection Hs as <- <-.
      destruct (i_outcome i); by simplify_eq/=.
Qed.

Lemma presence_record_grows i db c db' :
  tables_ok db = true → record_outcome i db = Ok (c, db') → presence_grows db db'.
Proof.
  unfold record_outcome. intros Hok Hr. bind Hr as ex Hex. destruct ex as [ex|].
  - bind Hr as c' Hc'. injection Hr as <- <-. by apply presence_grows_refl.
  - bind Hr as u Hv. bind Hr as o Ho. bind Hr as o' Ho'. bind Hr as t Ht. bind Hr as u1 Hu1. bind Hr as db1 H1.
    bind Hr as sn Hs. destruct sn as [st next]. bind Hr as db2 H2. bind Hr as ts Hts. bind Hr as d Hd.
    bind Hr as db3 H3. injection Hr as <- <-.
    unfold validate_input_lease in Hv. bind Hv as cu Hcu. bind Hv as cu' Hcu'. apply ok_or_Ok in Hcu' as ->.
    bind Hv as u2 Hdes. apply reject_if_Ok in Hv. to_prop.
    apply read_outbox_seen in Hcu as (r & Hin & Hid & _ & Hs' & _).
    edestruct (record_attempt_grows i st next db db1 db2) as [Hg _]; [done| |done..|].
    { exists r. split_and!; [done|done|]. rewrite (os_event _ _ Hs').
      by repeat match goal with E : bytes_eqb _ _ = true |- _ => apply bytes_eqb_true in E end. }
    unfold update_outbox_after_attempt in H3. bind H3 as nx Hnx. bind H3 as fv Hfv. bind H3 as rv Hrv.
    bind H3 as ev Hev. bind H3 as ra Hra. destruct ra as [rows n]. bind H3 as u3 Hu3. injection H3 as <-.
    apply map_err_Ok in Hra. eapply presence_grows_trans; [exact Hg|]. eapply grows_outbox_update, Hra. apply Hg.
Qed.

Lemma recover_targets_grows o own expires now delay ts db db' r :
  tables_ok db = true → r ∈ pr_outboxes db → po_outbox_id r = o_id o → po_event_sha256 r = o_event_sha256 o →
  recover_targets o own expires now delay ts db = Ok db' →
  presence_grows db db' ∧ pr_outboxes db' = pr_outboxes db.
Proof.
  intros Hok Hr Hid He. revert db Hok Hr. induction ts as [|t ts IH]; intros db Hok Hr Hrec; simpl in Hrec.
  - injection Hrec as <-. split; [by apply presence_grows_refl|done].
  - bind Hrec as db1 H1. unfold recover_target in H1. bind H1 as aid Haid. bind H1 as re Hre. bind H1 as u Hu.
    bind H1 as db2 H2. bind H1 as sn Hs. destruct sn as [st next].
    edestruct record_attempt_grows as [Hg Ho]; [exact Hok| |exact H2|exact Hs|exact H1|]; [by exists r|].
    destruct (IH db1) as [Hg' Ho']; [apply Hg|by rewrite Ho|done|].
    split; [by eapply presence_grows_trans|congruence].
Qed.

Lemma presence_recover_grows c now delay db b db' :
  tables_ok db = true → recover_expired c now delay db = Ok (b, db') → presence_grows db db'.
Proof.
  unfold recover_expired. intros Hok Hr. bind Hr as o Ho. bind Hr as cu Hcu. bind Hr as u Hu. bind Hr as own Hown.
  bind Hr as ex Hex. bind Hr as db1 H1. bind Hr as ts Hts. bind Hr as d Hd. bind Hr as nx Hnx. bind Hr as nv Hnv.
  bind Hr as rv Hrv. bind Hr as ev Hev. bind Hr as ra Hra. destruct ra as [rows n]. bind Hr as u1 Hu1.
  injection Hr as <- <-. apply ok_or_Ok, filter_opt_Some in Hcu as [-> _].
  apply read_outbox_seen in Ho as (r & Hin & Hid & Hid' & Hs & _).
  apply (recover_targets_grows _ _ _ _ _ _ _ _ r) in H1 as [Hg _]; [|done|done|congruence|by destruct Hs].
  apply map_err_Ok in Hra. eapply presence_grows_trans; [exact Hg|]. eapply grows_outbox_update, Hra. apply Hg.
Qed.

Lemma insert_targets_grows i ts at_time db db' :
  tables_ok db = true → insert_targets i ts at_time db = Ok db' → presence_grows db db'.
Proof.
  intros Hok. revert db Hok. induction ts as [|t ts IH]; intros db Hok Hi; cbn [insert_targets] in Hi.
  - injection Hi as <-. by apply presence_grows_refl.
  - bind Hi as v Hv. bind Hi as rows Hrows. apply map_err_Ok in Hrows.
    pose proof (grows_target_insert _ _ _ _ Hok Hrows) as Hg. eapply presence_grows_trans; [exact Hg|].
    apply IH; [apply Hg|done].
Qed.

Lemma insert_documents_grows d desired ds at_time db db' :
  tables_ok db = true → insert_documents d desired ds at_time db = Ok db' → presence_grows db db'.
Proof.
  intros Hok. revert db Hok. induction ds as [|doc ds IH]; intros db Hok Hi; cbn [insert_documents] in Hi.
  - injection Hi as <-. by apply presence_grows_refl.
  - bind Hi as g Hg0. bind Hi as au Hau. bind Hi as v Hv. bind Hi as rows Hrows. bind Hi as db1 H1.
    apply map_err_Ok in Hrows. pose proof (grows_outbox_insert _ _ _ _ Hok Hrows) as Hg.
    pose proof (insert_targets_grows _ _ _ _ _ (gr_tables _ _ Hg) H1) as Hg1.
    eapply presence_grows_trans; [exact Hg|]. eapply presence_grows_trans; [exact Hg1|].
    apply IH; [apply Hg1|done].
Qed.

Lemma presence_commit_grows d at_time db out db' :
  tables_ok db = true → commit_signed d at_time db = Ok (out, db') → presence_grows db db'.
Proof.
  unfold commit_signed. intros Hok Hc. bind Hc as de Hde. bind Hc as u Hu. bind Hc as cu Hcu. bind Hc as re Hre.
  destruct re.
  - bind Hc as n Hn. injection Hc as <- <-. by apply presence_grows_refl.
  - bind Hc as u1 Hu1. bind Hc as u2 Hu2. bind Hc as g Hg. bind Hc as u3 Hu3. bind Hc as v Hv. bind Hc as ra Hra.
    destruct ra as [rows n]. bind Hc as db1 H1. bind Hc as com Hcom. bind Hc as m Hm. bind Hc as u4 Hu4.
    bind Hc as k Hk. injection Hc as <- <-. apply map_err_Ok in Hra.
    pose proof (grows_outbox_update _ _ _ _ _ Hok Hra) as Hgr. eapply presence_grows_trans; [exact Hgr|].
    eapply insert_documents_grows, H1. apply Hgr.
Qed.

Lemma presence_desired_grows a db out db' :
  tables_ok db = true → commit_desired a db = Ok (out, db') → presence_grows db db'.
Proof.
  unfold commit_desired. intros Hok Hc. bind Hc as u Hcur. bind Hc as cu Hcu. destruct (filter_opt _ cu).
  { injection Hc as <- <-. by apply presence_grows_refl. }
  bind Hc as rows Hrows. bind Hc as re Hre. bind Hc as co Hco. injection Hc as <- <-.
  pose proof Hok as Hok0. apply presence_tables_split in Hok0 as (Hd & Ho & Ht & Ha).
  assert (rows_ok rows = true ∧ rows_grow desired_grows (pr_desired db) rows) as [Hok' Hg].
  { destruct cu as [s|].
    - bind Hrows as u1 Hmax. bind Hrows as v Hv. bind Hrows as g Hgen. apply PresenceSafety.exec_one_Ok in Hrows.
      split; [by eapply PresenceSafety.update_desired_Ok|].
      eapply rows_grow_update, Hrows; [apply _|apply desired_guard_grows].
    - bind Hrows as v Hv. apply PresenceSafety.exec_one_Ok in Hrows. unfold INSERT_DESIRED_SQL in Hrows.
      bind Hrows as rows' Hi. injection Hrows as <-. split; [by eapply (insert_row_ok desired_conflict_sym)|].
      eapply rows_grow_insert, Hi. apply _. }
  apply grows_frame; simpl; try done. apply presence_tables_split. simpl. done.
Qed.

(** One committed operation of some caller, at any time and with any lease. *)
Inductive presence_step (db db' : presence_db) : Prop :=
| step_desired a out : commit_desired a db = Ok (out, db') → presence_step db db'
| step_commit d at_time out : commit_signed d at_time db = Ok (out, db') → presence_step db db'
| step_claim own now l : claim_next own now db = Ok (l, db') → presence_step db db'
| step_prepare l now p : prepare_next l now db = Ok (p, db') → presence_step db db'
| step_record i c : record_outcome i db = Ok (c, db') → presence_step db db'
| step_recover c now delay b : recover_expired c now delay db = Ok (b, db') → presence_step db db'.

Lemma presence_step_grows db db' : tables_ok db = true → presence_step db db' → presence_grows db db'.
Proof.
  intros Hok [].
  - by eapply presence_desired_grows.
  - by eapply presence_commit_grows.
  - by eapply presence_claim_grows.
  - by eapply presence_prepare_grows.
  - by eapply presence_record_grows.
  - by eapply presence_recover_grows.
Qed.

Lemma presence_history_grows db db' : tables_ok db = true → rtc presence_step db db' → presence_grows db db'.
Proof.
  intros Hok Hs. induction Hs as [db|db1 db2 db3 H12 _ IH]; [by apply presence_grows_refl|].
  apply presence_step_grows in H12; [|done]. eapply presence_grows_trans; [exact H12|]. apply IH, H12.
Qed.
End operations.

End PresenceHistory.
