(* ===== verification/PresenceRefine.v ===== *)
(** * What the presence operations do to the tables

    The exact effect of committing a generation, of preparing a target, of recording an
    outcome and of recovering an expired lease, as equations on the rows. *)

From Stdlib Require Import ZArith Lia.
From stdpp Require Import list strings.
From S2P Require Import Prelude.
From S2P Require Import Sql.
From S2P Require Import Interfaces.
From S2P Require Import RuntimeAdapters.
From S2P Require Import Publication.
From S2P Require Import PublicationState.
From S2P Require Import PublicationViews.
From S2P Require Import StateConfig.
From S2P Require Import ReconciliationAttestation.
From S2P Require Import PresenceState.
From S2P Require Import PresenceDesired.
From S2P Require Import PresencePublication.
From S2P Require Import PresenceRecords.
From S2P Require Import PresenceDelivery.
From S2P Require Import PresenceViews.
From S2P Require Import PresenceHistory.

Module PresenceRefine.
Import PubState PresenceState Presence PresencePub PresenceRecords PresenceDelivery PresenceViews PresenceHistory.

(** ** The commit of a generation *)

Section commit.
Context `{Sha256, PublicKeyLibrary K, !PresenceLibrary K Idn}.

(** The rows a document and its targets are stored as. *)
Definition document_id (d : RhiSignedPresenceDocuments) (document : RhiSignedPresenceDocument) : bytes :=
  derive_outbox_id (de_generation (dd_desired_state d)) (sd_kind document)
    (de_desired_sha256 (dd_desired_state d)) (sd_signed_event_sha256 document).

Definition document_row (d : RhiSignedPresenceDocuments) (at_time : Z) (document : RhiSignedPresenceDocument) :
    outbox_row :=
  let desired := dd_desired_state d in {|
  po_outbox_id := document_id d document;
  po_desired_generation := de_generation desired;
  po_document_kind := document_code (sd_kind document);
  po_desired_sha256 := de_desired_sha256 desired;
  po_target_set_sha256 := de_target_set_sha256 desired;
  po_event_id := sd_event_id document;
  po_event_sha256 := sd_signed_event_sha256 document;
  po_exact_signed_event_bytes := sd_signed_event_bytes document;
  po_authored_at_unix_s := sd_created_at_unix_seconds document;
  po_service_public_key := dd_service_public_key d;
  po_target_count := de_target_count desired;
  po_required_target_count := de_required_target_count desired;
  po_max_attempts := 100;
  po_initial_backoff_ms := 250;
  po_maximum_backoff_ms := 30000;
  po_attempt_deadline_ms := 15000;
  po_state := "pending";
  po_revision := 1;
  po_next_attempt_unix_ms := Some at_time;
  po_lease_owner := None;
  po_lease_expires_unix_ms := None;
  po_created_at_unix_ms := at_time;
  po_updated_at_unix_ms := at_time;
|}.

Definition document_target (d : RhiSignedPresenceDocuments) (at_time : Z) (document : RhiSignedPresenceDocument)
    (t : RhiPresenceTarget) : target_row := {|
  pt_outbox_id := document_id d document;
  pt_target_ordinal := Authority.target_ordinal t;
  pt_relay_id := Authority.target_relay_id t;
  pt_required := if Authority.target_required t then 1 else 0;
  pt_state := "pending";
  pt_revision := 1;
  pt_attempt_count := 0;
  pt_next_attempt_unix_ms := Some at_time;
  pt_last_attempt_id := None;
  pt_updated_at_unix_ms := at_time;
|}.

Definition document_targets (d : RhiSignedPresenceDocuments) (at_time : Z) (document : RhiSignedPresenceDocument) :
    list target_row :=
  map (document_target d at_time document) (dd_targets d).

(** An open outbox of another generation, not written after the commit, and that outbox closed:
    only its state, revision, schedule and time change. *)
Definition open_older (generation at_time : Z) (r : outbox_row) : Prop :=
  po_desired_generation r ≠ generation ∧ (po_state r = "pending" ∨ po_state r = "blocked")%string ∧
  po_updated_at_unix_ms r ≤ at_time.

Definition closed (at_time : Z) (r : outbox_row) : outbox_row := {|
  po_outbox_id := po_outbox_id r;
  po_desired_generation := po_desired_generation r;
  po_document_kind := po_document_kind r;
  po_desired_sha256 := po_desired_sha256 r;
  po_target_set_sha256 := po_target_set_sha256 r;
  po_event_id := po_event_id r;
  po_event_sha256 := po_event_sha256 r;
  po_exact_signed_event_bytes := po_exact_signed_event_bytes r;
  po_authored_at_unix_s := po_authored_at_unix_s r;
  po_service_public_key := po_service_public_key r;
  po_target_count := po_target_count r;
  po_required_target_count := po_required_target_count r;
  po_max_attempts := po_max_attempts r;
  po_initial_backoff_ms := po_initial_backoff_ms r;
  po_maximum_backoff_ms := po_maximum_backoff_ms r;
  po_attempt_deadline_ms := po_attempt_deadline_ms r;
  po_state := "superseded";
  po_revision := po_revision r + 1;
  po_next_attempt_unix_ms := None;
  po_lease_owner := None;
  po_lease_expires_unix_ms := None;
  po_created_at_unix_ms := po_created_at_unix_ms r;
  po_updated_at_unix_ms := at_time;
|}.

(** A document is of its kind, and its exact bytes are a verified event. *)
Definition document_verified (key : string) (document : RhiSignedPresenceDocument) (kind : RhiPresenceDocumentKind) :
    Prop :=
  sd_kind document = kind ∧ sha256 (sd_signed_event_bytes document) = sd_signed_event_sha256 document ∧
  ∃ event, validate_signed_document kind key (sd_created_at_unix_seconds document) (sd_signed_event_bytes document) =
             Ok event ∧ Attestation.ee_id event = sd_event_id document.

Record generation_committed (d : RhiSignedPresenceDocuments) (at_time : Z) (db db' : presence_db) : Prop := {
  gc_desired : read_desired_binding db = Ok (dd_desired_state d);
  gc_verified : Forall2 (document_verified (dd_service_public_key d)) (dd_documents d)
                  (document_kinds (dd_desired_state d));
  gc_no_lease : ∀ r, r ∈ pr_outboxes db → po_desired_generation r ≠ de_generation (dd_desired_state d) →
                  po_state r ≠ "leased"%string;
  gc_outboxes : ∃ kept, pr_outboxes db' = kept ++ map (document_row d at_time) (dd_documents d) ∧
    rewrites (open_older (de_generation (dd_desired_state d)) at_time) (closed at_time) (pr_outboxes db) kept;
  gc_targets : pr_targets db' = pr_targets db ++ concat (map (document_targets d at_time) (dd_documents d));
  gc_frame : pr_bindings db' = pr_bindings db ∧ pr_desired db' = pr_desired db ∧ pr_attempts db' = pr_attempts db;
}.

(** A document is stored: its outbox has its identity, kind, event and exact bytes, and the
    target rows of that outbox are the desired targets. *)
Definition names_target (t : RhiPresenceTarget) (r : target_row) : Prop :=
  pt_target_ordinal r = Authority.target_ordinal t ∧ pt_relay_id r = Authority.target_relay_id t ∧
  pt_required r = if Authority.target_required t then 1 else 0.

Record document_stored (d : RhiSignedPresenceDocuments) (db : presence_db) (document : RhiSignedPresenceDocument)
    (r : outbox_row) : Prop := {
  ds_id : po_outbox_id r = document_id d document;
  ds_kind : po_document_kind r = document_code (sd_kind document);
  ds_desired : po_desired_sha256 r = de_desired_sha256 (dd_desired_state d);
  ds_event_id : po_event_id r = sd_event_id document;
  ds_event : po_event_sha256 r = sd_signed_event_sha256 document;
  ds_bytes : po_exact_signed_event_bytes r = sd_signed_event_bytes document;
  ds_authored : po_authored_at_unix_s r = sd_created_at_unix_seconds document;
  ds_key : po_service_public_key r = dd_service_public_key d;
  ds_targets : ∃ rows,
    rows ≡ₚ List.filter (λ t, bytes_eqb (pt_outbox_id t) (po_outbox_id r)) (pr_targets db) ∧
    Forall2 names_target (dd_targets d) rows;
}.

(** The outboxes of the desired generation are the given documents, and there is no other. *)
Definition generation_stored (d : RhiSignedPresenceDocuments) (db : presence_db) : Prop :=
  ∃ rows, rows ≡ₚ List.filter (λ r, po_desired_generation r =? de_generation (dd_desired_state d)) (pr_outboxes db) ∧
    Forall2 (document_stored d db) (dd_documents d) rows.

Lemma verify_documents_Ok key documents kinds u :
  length documents = length kinds → verify_documents key documents kinds = Ok u →
  Forall2 (document_verified key) documents kinds.
Proof.
  revert kinds. induction documents as [|doc documents IH]; intros [|kind kinds] Hl Hv; try done.
  cbn [verify_documents] in Hv. bind Hv as u1 Hu1. bind Hv as ev Hev. bind Hv as u2 Hu2.
  apply reject_if_Ok in Hu1, Hu2. apply map_err_Ok in Hev. to_prop.
  repeat match goal with E : bytes_eqb _ _ = true |- _ => apply bytes_eqb_true in E end.
  constructor; [|apply IH; [by injection Hl|done]].
  match goal with E : sd_kind doc = kind |- _ => rewrite E in Hev end. split_and!; [done|done|eauto].
Qed.

(** The targets read of an outbox are all of its rows. *)
Lemma stored_targets_rows i db ts :
  read_targets i db = Ok ts →
  ∃ rows, rows ≡ₚ List.filter (λ t, bytes_eqb (pt_outbox_id t) i) (pr_targets db) ∧
    Forall2 target_seen rows ts.
Proof.
  unfold read_targets. intros Hr. bind Hr as u Hu. apply reject_if_Ok, Z.ltb_ge in Hu.
  unfold READ_TARGETS_SQL, RHI_PRESENCE_DESIRED_MAX_TARGETS in *. rewrite take_short in * by lia.
  eexists. split; [apply sort_by_perm|].
  apply collect_Ok in Hr. revert Hr. apply Forall2_impl. intros r t. apply decode_target_seen.
Qed.

(** The outboxes read of a generation are all of its rows. *)
Lemma read_generation_all g db os :
  read_generation_outboxes g db = Ok os →
  ∃ rows, rows ≡ₚ List.filter (λ r, po_desired_generation r =? g) (pr_outboxes db) ∧
    Forall2 (λ r o, load_outbox db r = Ok o) rows os.
Proof.
  unfold read_generation_outboxes. intros Hr. bind Hr as v Hv. apply presence_i64_Ok in Hv as [-> _].
  bind Hr as u Hu. apply reject_if_Ok, Nat.ltb_ge in Hu. unfold READ_GENERATION_OUTBOX_SQL in *.
  rewrite take_short in * by lia. eexists. split; [apply sort_by_perm|]. by apply collect_Ok in Hr.
Qed.

Lemma validate_document_set_Ok d desired u :
  validate_document_set d desired = Ok u →
  dd_desired_state d = desired ∧ Z.of_nat (length (dd_targets d)) = de_target_count desired ∧
  Forall2 (document_verified (dd_service_public_key d)) (dd_documents d) (document_kinds desired).
Proof.
  unfold validate_document_set. intros Hv. bind Hv as u1 Hu1. bind Hv as ts Hts. bind Hv as u2 Hu2.
  apply reject_if_Ok in Hu1. to_prop. match goal with E : (_ =? _)%nat = true |- _ => apply Nat.eqb_eq in E end.
  split; [done|]. split; [done|]. eapply verify_documents_Ok, Hv. rewrite H2. unfold document_count, document_kinds.
  by destruct (de_profile desired), (de_application_handler desired).
Qed.

Lemma presence_insert_targets_Ok i ts at_time db db' :
  insert_targets i ts at_time db = Ok db' →
  db' = with_targets db (pr_targets db ++ map (λ t, INSERT_TARGET_SQL i t at_time) ts).
Proof.
  revert db. induction ts as [|t ts IH]; intros db Hi; cbn [insert_targets] in Hi.
  - injection Hi as <-. rewrite app_nil_r. by destruct db.
  - bind Hi as v Hv. bind Hi as rows Hrows. apply presence_i64_Ok in Hv as [-> _].
    apply map_err_Ok, insert_row_Ok in Hrows as (-> & _). apply IH in Hi as ->. cbn [map]. unfold with_targets. cbn [pr_targets pr_bindings pr_desired pr_outboxes pr_attempts]. by rewrite <- app_assoc.
Qed.

Lemma insert_documents_Ok d documents at_time db db' :
  insert_documents d (dd_desired_state d) documents at_time db = Ok db' →
  pr_outboxes db' = pr_outboxes db ++ map (document_row d at_time) documents ∧
  pr_targets db' = pr_targets db ++ concat (map (document_targets d at_time) documents) ∧
  pr_bindings db' = pr_bindings db ∧ pr_desired db' = pr_desired db ∧ pr_attempts db' = pr_attempts db.
Proof.
  revert db. induction documents as [|doc documents IH]; intros db Hi; cbn [insert_documents] in Hi.
  - injection Hi as <-. by rewrite !app_nil_r.
  - bind Hi as g Hg. bind Hi as au Hau. bind Hi as v Hv. bind Hi as rows Hrows. bind Hi as db1 H1.
    apply presence_i64_Ok in Hg as [-> _], Hau as [-> _], Hv as [-> _].
    apply map_err_Ok, insert_row_Ok in Hrows as (-> & _). apply presence_insert_targets_Ok in H1 as ->.
    apply IH in Hi as (-> & -> & -> & -> & ->). cbn [pr_outboxes pr_targets with_targets with_outboxes map concat].
    rewrite <- !app_assoc. split_and!; try done.
Qed.

Lemma same_targets_names rows ts targets :
  Forall2 target_seen rows ts → forallb same_target (zip targets ts) = true → length targets = length ts →
  Forall2 names_target targets rows.
Proof.
  intros Hseen. revert targets. induction Hseen as [|r t rows ts Hrt _ IH]; intros [|x targets] Hs Hl; try done.
  simpl in Hs. apply andb_true_iff in Hs as [Hx Hs]. constructor; [|apply IH; [done|by injection Hl]].
  unfold same_target in Hx. simpl in Hx. rewrite !andb_true_iff, Z.eqb_eq, String.eqb_eq, Bool.eqb_true_iff in Hx.
  destruct Hx as [[Ho Hr] Hq]. unfold names_target. rewrite (se_ordinal _ _ Hrt), (se_relay _ _ Hrt), (se_required _ _ Hrt).
  by rewrite Ho, Hr, Hq.
Qed.

(** What a comparison that succeeds says of the rows that were read. *)
Lemma document_matches_stored d db r o document :
  load_outbox db r = Ok o → document_matches d document o = true → validate_targets o (o_targets o) = Ok tt →
  Z.of_nat (length (dd_targets d)) = de_target_count (dd_desired_state d) →
  document_stored d db document r.
Proof.
  intros Hl Hm Hv Hlen. unfold load_outbox in Hl. bind Hl as o1 Hd. bind Hl as ts Hts. injection Hl as <-.
  apply decode_outbox_seen in Hd as [Hid Hg Hk Hau Hkey Hde Hset Hei Hes Hb _ _ _ _ _ _ _ _].
  apply stored_targets_rows in Hts as (rows & Hperm & Hseen). rewrite <- Hid in Hperm.
  unfold validate_targets in Hv. bind Hv as u Hu. apply reject_if_Ok in Hu. clear Hv.
  unfold document_matches in Hm. simpl in Hm, Hu. to_prop.
  repeat match goal with
  | E : bytes_eqb _ _ = true |- _ => apply bytes_eqb_true in E
  | E : String.eqb _ _ = true |- _ => apply String.eqb_eq in E
  end.
  split; try congruence.
  - unfold document_id. congruence.
  - exists rows. split; [done|]. eapply same_targets_names; [exact Hseen|done|]. lia.
Qed.

Lemma generation_matches_stored d db os :
  read_generation_outboxes (de_generation (dd_desired_state d)) db = Ok os → generation_matches d os = Ok true →
  Z.of_nat (length (dd_targets d)) = de_target_count (dd_desired_state d) → generation_stored d db.
Proof.
  intros (rows & Hperm & Hall)%read_generation_all Hm Hlen. exists rows. split; [done|].
  unfold generation_matches in Hm. destruct (Nat.eqb_spec (length (dd_documents d)) (length os)) as [Hl|]; [|done].
  simpl in Hm. clear Hperm. revert Hm Hl. generalize (dd_documents d). induction Hall as [|r o rows os Ho _ IH];
    intros [|document documents] Hm Hl; try done.
  simpl in Hm. destruct (document_matches d document o) eqn:Hd; [|done]. simpl in Hm. bind Hm as u Hu. destruct u.
  constructor; [by eapply document_matches_stored|]. apply IH; [done|by injection Hl].
Qed.

(** The statement closes the open outboxes of other generations, and no other row. *)
Lemma superseded_by_open generation at_time r :
  superseded_by generation at_time r = true ↔ open_older generation at_time r.
Proof.
  unfold superseded_by, open_older, one_of. simpl.
  rewrite !andb_true_iff, !orb_true_iff, negb_true_iff, Z.eqb_neq, !String.eqb_eq, Z.leb_le. naive_solver.
Qed.

Definition close_older (generation at_time : Z) : outbox_row → outbox_row :=
  apply_where (superseded_by generation at_time) (with_lifecycle "superseded" None None None at_time).

(** Closing nothing leaves the outboxes alone. *)
Lemma close_none generation at_time rows :
  length (List.filter (superseded_by generation at_time) rows) = 0%nat → map (close_older generation at_time) rows = rows.
Proof.
  intros Hn. apply map_id_on. intros r Hr. unfold close_older, apply_where.
  destruct (superseded_by generation at_time r) eqn:Hs; [|done].
  apply length_zero_iff_nil in Hn. apply list_elem_of_In in Hr.
  assert (In r (List.filter (superseded_by generation at_time) rows)) as Hin by (by apply filter_In).
  by rewrite Hn in Hin.
Qed.

Lemma stale_leases_none generation rows :
  COUNT_STALE_LEASES_SQL generation rows = 0 → ∀ r, r ∈ rows → po_desired_generation r ≠ generation →
  po_state r ≠ "leased"%string.
Proof.
  unfold COUNT_STALE_LEASES_SQL. intros Hc r Hr Hg Hs.
  assert (In r (List.filter (λ r, negb (po_desired_generation r =? generation) && String.eqb (po_state r) "leased") rows))
    as Hin.
  { apply filter_In. split; [by apply list_elem_of_In|]. rewrite Hs. by rewrite (proj2 (Z.eqb_neq _ _) Hg). }
  by destruct (List.filter _ rows).
Qed.

Lemma commit_signed_Ok d at_time db out db' :
  commit_signed d at_time db = Ok (out, db') →
  co_desired_state out = dd_desired_state d ∧ co_document_count out = Z.of_nat (length (dd_documents d)) ∧
  generation_stored d db' ∧
  if co_changed out then generation_committed d at_time db db' else db' = db.
Proof.
  unfold commit_signed. intros Hc. bind Hc as de Hde. bind Hc as u Hu. bind Hc as cu Hcu. bind Hc as re Hre.
  apply validate_document_set_Ok in Hu as (<- & Hlen & Hver). destruct re.
  - bind Hc as n Hn. injection Hc as <- <-. apply ok_or_Ok, try_from_Some in Hn as [-> _].
    split_and!; [done|done| |done]. by destruct cu; [|eapply generation_matches_stored].
  - bind Hc as u1 Hu1. bind Hc as u2 Hu2. bind Hc as g Hg. bind Hc as u3 Hu3. bind Hc as v Hv. bind Hc as ra Hra.
    destruct ra as [rows n]. bind Hc as db1 H1. bind Hc as com Hcom. bind Hc as m Hm. bind Hc as u4 Hu4.
    bind Hc as k Hk. injection Hc as <- <-. apply presence_i64_Ok in Hg as [-> _], Hv as [-> _].
    apply ok_or_Ok, try_from_Some in Hk as [-> _]. apply map_err_Ok, update_rows_Ok in Hra as (-> & -> & _).
    apply reject_if_Ok, negb_false_iff in Hu4. subst m.
    apply insert_documents_Ok in H1 as (Ho & Ht & Hb & Hd & Ha).
    apply reject_if_Ok, negb_false_iff, Z.eqb_eq in Hu3. cbn [co_desired_state co_document_count co_changed].
    split_and!; [done|done|by eapply generation_matches_stored|]. destruct (negb _ || negb _) eqn:Hch.
    + split; try done; [by apply stale_leases_none|]. rewrite Ho. eexists. split; [done|].
      apply (apply_rewrites (open_older _ _) _ (closed at_time)). intros r _. apply superseded_by_open.
    + apply orb_false_iff in Hch as [Hl Hn]. apply negb_false_iff in Hl, Hn. apply Nat.eqb_eq in Hl. apply Z.eqb_eq in Hn.
      apply length_zero_iff_nil in Hl. rewrite Hl in *. cbn [map concat] in *. rewrite app_nil_r in *.
      cbn [pr_outboxes pr_targets pr_bindings pr_desired pr_attempts with_outboxes] in *.
      change (map (apply_where _ _) (pr_outboxes db)) with (map (close_older (de_generation (dd_desired_state d)) at_time) (pr_outboxes db)) in Ho.
      rewrite close_none in Ho by lia. destruct db, db1. simpl in *. by subst.
Qed.
End commit.

(** ** The retry bound *)

Lemma backoff_rounds_exact k bound :
  1 ≤ bound ≤ MAXIMUM_BACKOFF_MILLISECONDS →
  backoff_rounds k bound = Z.min (bound * 2 ^ Z.of_nat k) MAXIMUM_BACKOFF_MILLISECONDS.
Proof.
  unfold MAXIMUM_BACKOFF_MILLISECONDS. intros Hb. revert bound Hb. induction k as [|k IH]; intros bound Hb; simpl backoff_rounds; [lia|].
  assert (u64_saturating_mul bound 2 = bound * 2) as ->.
  { unfold u64_saturating_mul. unfold_max. lia. }
  unfold MAXIMUM_BACKOFF_MILLISECONDS in *. rewrite IH by lia. rewrite Nat2Z.inj_succ, Z.pow_succ_r by lia.
  pose proof (Z.pow_pos_nonneg 2 (Z.of_nat k) ltac:(lia) ltac:(lia)).
  destruct (Z.min_spec (bound * 2) 30000) as [[? ->]|[? ->]]; [f_equal; lia|]. nia.
Qed.

Lemma presence_retry_bound_exact n :
  1 ≤ n → retry_upper_bound n = Z.min (INITIAL_BACKOFF_MILLISECONDS * 2 ^ (n - 1)) MAXIMUM_BACKOFF_MILLISECONDS.
Proof.
  intros Hn. unfold retry_upper_bound. rewrite backoff_rounds_exact by (unfold INITIAL_BACKOFF_MILLISECONDS, MAXIMUM_BACKOFF_MILLISECONDS; lia).
  rewrite Z2Nat.id by lia. lia.
Qed.

Lemma retry_upper_bound_range n : 0 ≤ retry_upper_bound n ≤ MAXIMUM_BACKOFF_MILLISECONDS.
Proof.
  unfold retry_upper_bound. rewrite backoff_rounds_exact by (unfold INITIAL_BACKOFF_MILLISECONDS, MAXIMUM_BACKOFF_MILLISECONDS; lia).
  unfold INITIAL_BACKOFF_MILLISECONDS, MAXIMUM_BACKOFF_MILLISECONDS.
  pose proof (Z.pow_nonneg 2 (Z.of_nat (Z.to_nat (n - 1))) ltac:(lia)). lia.
Qed.

(** ** Leases *)

Lemma same_outbox_eq c p : same_outbox c p = true → c = p.
Proof.
  unfold same_outbox, same_outbox_identity. intros Hs. to_prop.
  repeat match goal with
  | E : bytes_eqb _ _ = true |- _ => apply bytes_eqb_true in E
  | E : String.eqb _ _ = true |- _ => apply String.eqb_eq in E
  end.
  destruct c, p. simpl in *. by subst.
Qed.

Section delivery.
Context `{Sha256, PublicKeyLibrary K, !PresenceLibrary K Idn}.

(** The desired state is the outbox's. *)
Definition desired_current (o : PresenceOutboxRecord) (db : presence_db) : Prop :=
  ∃ d, read_desired_binding db = Ok d ∧ desired_matches_outbox d o = true.

Record holds_presence_lease (l : RhiPresenceLease) (now : Z) (db : presence_db) : Prop := {
  pl_current : read_outbox (o_id (lease_outbox l)) db = Ok (Some (lease_outbox l));
  pl_desired : desired_current (lease_outbox l) db;
  pl_leased : o_state (lease_outbox l) = Leased;
  pl_owner : o_lease_owner (lease_outbox l) = Some (owner l);
  pl_expires : o_lease_expires (lease_outbox l) = Some (expires_at l);
  pl_live : now < expires_at l;
}.

Lemma current_desired_Ok o db u : validate_current_desired o db = Ok u → desired_current o db.
Proof.
  unfold validate_current_desired. intros Hv. bind Hv as d Hd. apply reject_if_Ok, negb_false_iff in Hv. by exists d.
Qed.

Lemma validate_presence_lease_Ok l now db u : validate_lease l now true db = Ok u → holds_presence_lease l now db.
Proof.
  unfold validate_lease. intros Hv. bind Hv as c Hc. bind Hv as c' Hc'. bind Hv as u1 Hu1.
  apply ok_or_Ok, filter_opt_Some in Hc' as [-> Hs]. apply same_outbox_eq in Hs as ->.
  apply current_desired_Ok in Hu1. apply reject_if_Ok in Hv. simpl in Hv. to_prop. by split.
Qed.

(** ** Preparing a target *)

Record presence_prepared (l : RhiPresenceLease) (now : Z) (db : presence_db) (p : RhiPreparedPresenceAttempt)
    (db' : presence_db) : Prop := {
  pp_holds : holds_presence_lease l now db;
  pp_lease : p_lease p = l;
  pp_deadline : p_deadline_at p = expires_at l;
  pp_due : ∃ t, List.find (λ t, target_is_due t (o_max_attempts (lease_outbox l)) now) (o_targets (lease_outbox l)) = Some t ∧
    t_ordinal (p_target p) = t_ordinal t ∧ t_attempt_count (p_target p) = t_attempt_count t + 1;
  pp_bound : t_attempt_count (p_target p) ≤ RHI_PRESENCE_MAX_ATTEMPTS;
  pp_submitted : t_state (p_target p) = TSubmitted ∧ t_last_attempt_id (p_target p) = Some (p_attempt_id p) ∧
    t_updated_at (p_target p) = now;
  pp_attempt : p_attempt_id p = derive_attempt_id (o_id (lease_outbox l)) (o_event_sha256 (lease_outbox l))
    (t_ordinal (p_target p)) (t_attempt_count (p_target p));
  pp_target_row : ∃ r, r ∈ pr_targets db' ∧ pt_outbox_id r = o_id (lease_outbox l) ∧ target_seen r (p_target p);
  pp_outbox_row : ∃ r, r ∈ pr_outboxes db' ∧ outbox_seen r (lease_outbox l) ∧
    po_exact_signed_event_bytes r = p_exact_signed_event_bytes p ∧ sha256 (p_exact_signed_event_bytes p) = po_event_sha256 r;
  pp_verified : ∃ event, validate_signed_document (o_document_kind (lease_outbox l)) (o_service_public_key (lease_outbox l))
    (o_authored_at_unix_s (lease_outbox l)) (p_exact_signed_event_bytes p) = Ok event;
  pp_fresh : evidence_consistent db → ∀ a, a ∈ pr_attempts db' → pa_outbox_id a = o_id (lease_outbox l) →
    pa_target_ordinal a = t_ordinal (p_target p) → pa_attempt_number a < t_attempt_count (p_target p);
  pp_frame : pr_outboxes db' = pr_outboxes db ∧ pr_attempts db' = pr_attempts db ∧ pr_desired db' = pr_desired db ∧
    pr_bindings db' = pr_bindings db;
}.

Lemma prepare_presence_Ok l now db p db' :
  tables_ok db = true → prepare_next l now db = Ok (p, db') → presence_prepared l now db p db'.
Proof.
  intros Hok. unfold prepare_next. intros Hp. bind Hp as u Hl. apply validate_presence_lease_Ok in Hl.
  bind Hp as t Hdue. bind Hp as n Hn. bind Hp as sv Hsv. bind Hp as rev Hrev. bind Hp as ra Hra. destruct ra as [rows k].
  bind Hp as u1 Hu1. bind Hp as cu Hcu. bind Hp as cu' Hcu'. bind Hp as u2 Hu2. bind Hp as t' Ht. bind Hp as v Hv.
  injection Hp as <- <-. apply ok_or_Ok in Hdue, Hcu'. subst cu.
  apply ok_or_Ok, filter_opt_Some in Hn as [Hn Hle]. apply u16_checked_add_Some in Hn as [-> _].
  apply ok_or_Ok, filter_opt_Some in Ht as [Hfind Ht]. apply map_err_Ok in Hv. to_prop.
  apply find_some in Hfind as [Htin Hord%Z.eqb_eq]. apply list_elem_of_In in Htin.
  pose proof Hcu as Hcu0. apply read_outbox_seen in Hcu0 as (r' & _ & _ & Hid & _ & Hts).
  destruct (read_outbox_seen _ _ _ (pl_current _ _ _ Hl)) as (r & Hr & Hrid & _ & Hs & Htso).
  destruct (read_targets_seen _ _ _ _ Hts Htin) as (tr & Htr & Htid & Htseen).
  pose proof (find_some _ _ Hdue) as [Hin0 Hd0]. apply list_elem_of_In in Hin0.
  destruct (read_targets_seen _ _ _ _ Htso Hin0) as (tr0 & Htr0 & Htid0 & Hseen0).
  pose proof (os_id _ _ Hs) as Hsid. pose proof (os_event _ _ Hs) as Hse.
  pose proof (os_bytes _ _ Hs) as Hsb. pose proof (os_digest _ _ Hs) as Hsd.
  pose proof (os_maximum _ _ Hs) as Hsm. destruct Hseen0 as [Hso _ _ _ _ Hsc _ _ _].
  split; cbn [p_lease p_target p_attempt_id p_deadline_at p_exact_signed_event_bytes pr_targets pr_outboxes pr_attempts
    pr_desired pr_bindings with_targets]; try done.
  - exists t. split_and!; done || lia.
  - lia.
  - rewrite Hord. f_equal. lia.
  - by exists tr.
  - exists r. split_and!; [done|done|done|congruence].
  - by exists v.
  - intros Hev a Ha Hao Hat. destruct (Hev a Ha) as [_ (t0 & Ht0 & Ht0o & Ht0r & Hle0 & _)].
    assert (t0 = tr0) as -> by (eapply presence_target_unique; [exact Hok|done|done|congruence|congruence]). lia.
Qed.

(** ** Recording a first outcome *)

Definition attempt_row_of (i : PresenceRecordInput) : attempt_row :=
  AttemptRow (i_attempt_id i) (i_outbox_id i) (i_target_ordinal i) (i_attempt_number i) (i_event_sha256 i) (i_owner i)
    (i_started_at i) (i_finished_at i) (outcome_code (i_outcome i)) (outcome_code (i_outcome i)).

(** The stored target of an attempt under way, and its settlement. *)
Definition attempt_target (i : PresenceRecordInput) (r : target_row) : bool :=
  bytes_eqb (pt_outbox_id r) (i_outbox_id i) && (pt_target_ordinal r =? i_target_ordinal i)
  && (pt_revision r =? i_target_revision i) && String.eqb (pt_state r) "submitted"
  && (pt_attempt_count r =? i_attempt_number i) && col_blob_eq (pt_last_attempt_id r) (i_attempt_id i).

Definition settle_row (st : RhiPresenceTargetState) (next : option Z) (at_time : Z) (r : target_row) : target_row :=
  TargetRow (pt_outbox_id r) (pt_target_ordinal r) (pt_relay_id r) (pt_required r) (target_code st)
    (pt_revision r + 1) (pt_attempt_count r) next (pt_last_attempt_id r) at_time.

Definition changes_one {row} (p : row → bool) (f : row → row) (rows rows' : list row) : Prop :=
  length (List.filter p rows) = 1%nat ∧ rows' = map (apply_where p f) rows.

Record presence_recorded (i : PresenceRecordInput) (c : RhiPresenceAttemptCommit) (db db' : presence_db) : Prop := {
  pc_lease : ∃ o, read_outbox (i_outbox_id i) db = Ok (Some o) ∧ desired_current o db ∧ o_state o = Leased ∧
    o_lease_owner o = Some (i_owner i) ∧ o_lease_expires o = Some (i_lease_expires i) ∧
    i_finished_at i < i_lease_expires i ∧ o_event_sha256 o = i_event_sha256 i ∧
    (** the outbox takes the disposition of its settled targets *)
    ∃ ts d, read_targets (i_outbox_id i) db' = Ok ts ∧ disposition o ts = Ok d ∧ ac_outbox_state c = dp_state d ∧
      changes_one (holds_outbox (i_outbox_id i) (i_outbox_revision i) (i_owner i) (i_lease_expires i) (i_finished_at i) true)
        (with_lifecycle (outbox_code (dp_state d)) (dp_next_attempt d) None None (i_finished_at i))
        (pr_outboxes db) (pr_outboxes db');
  pc_attempt : pr_attempts db' = pr_attempts db ++ [attempt_row_of i];
  pc_target : ∃ next, target_outcome_schedule i = Ok (ac_target_state c, next) ∧
    changes_one (attempt_target i) (settle_row (ac_target_state c) next (i_finished_at i)) (pr_targets db) (pr_targets db');
  pc_commit : ac_outcome c = i_outcome i ∧ ac_attempt_id c = i_attempt_id i;
  pc_frame : pr_desired db' = pr_desired db ∧ pr_bindings db' = pr_bindings db;
}.

Lemma presence_insert_attempt_Ok i db db' :
  insert_attempt i db = Ok db' → db' = with_attempts db (pr_attempts db ++ [attempt_row_of i]).
Proof.
  unfold insert_attempt. intros Hi. bind Hi as sv Hsv. bind Hi as fv Hfv. bind Hi as rows Hrows. injection Hi as <-.
  apply presence_i64_Ok in Hsv as [-> _], Hfv as [-> _]. by apply map_err_Ok, insert_row_Ok in Hrows as (-> & _).
Qed.

Lemma changes_one_Ok `{Table row} p f (rows rows' : list row) n :
  update_rows p f rows = Ok (rows', n) → negb (n =? 1) = false → changes_one p f rows rows'.
Proof. intros (-> & -> & _)%update_rows_Ok Hn%negb_false_iff%Z.eqb_eq. split; [lia|done]. Qed.

Lemma presence_update_target_outcome_Ok i st next db db' :
  update_target_outcome i st next db = Ok db' →
  ∃ rows, db' = with_targets db rows ∧
    changes_one (attempt_target i) (settle_row st next (i_finished_at i)) (pr_targets db) rows ∧
    (rows_ok (pr_targets db) = true → rows_ok rows = true).
Proof.
  unfold update_target_outcome. intros Hu. bind Hu as nx Hnx. bind Hu as fv Hfv. bind Hu as rev Hrev.
  bind Hu as ra Hra. destruct ra as [rows n]. bind Hu as u Hn. injection Hu as <-. exists rows. split; [done|].
  apply presence_optional_i64_Ok in Hnx as ->. apply presence_i64_Ok in Hfv as [-> _], Hrev as [-> _].
  apply map_err_Ok in Hra. apply reject_if_Ok in Hn. split; [eapply changes_one_Ok; [exact Hra|done]|].
  intros Hok. exact (update_rows_ok presence_target_conflict_sym _ _ _ _ _ Hok Hra).
Qed.

Lemma record_presence_Ok i c db db' :
  read_attempt (i_attempt_id i) db = Ok None → record_outcome i db = Ok (c, db') → presence_recorded i c db db'.
Proof.
  unfold record_outcome. intros Hnone Hr. rewrite Hnone in Hr. cbn [and_then] in Hr.
  bind Hr as u Hv. bind Hr as o Ho. bind Hr as o' Ho'. bind Hr as t Ht. bind Hr as u1 Hu1. bind Hr as db1 H1.
  bind Hr as sn Hs. destruct sn as [st next]. bind Hr as db2 H2. bind Hr as ts Hts. bind Hr as d Hd.
  bind Hr as db3 H3. injection Hr as <- <-. apply ok_or_Ok in Ho'. subst o.
  unfold validate_input_lease in Hv. bind Hv as cu Hcu. bind Hv as cu' Hcu'. apply ok_or_Ok in Hcu'. subst cu.
  rewrite Ho in Hcu. injection Hcu as <-. bind Hv as u2 Hdes. apply current_desired_Ok in Hdes.
  apply reject_if_Ok in Hv. simpl in Hv. to_prop.
  repeat match goal with E : bytes_eqb _ _ = true |- _ => apply bytes_eqb_true in E end.
  apply presence_insert_attempt_Ok in H1 as ->. apply presence_update_target_outcome_Ok in H2 as (rows & -> & Hone & _).
  unfold update_outbox_after_attempt in H3. bind H3 as nx Hnx. bind H3 as fv Hfv. bind H3 as rv Hrv.
  bind H3 as ev Hev. bind H3 as ra Hra. destruct ra as [orows n]. bind H3 as u3 Hu3. injection H3 as <-.
  apply presence_optional_i64_Ok in Hnx as ->. apply presence_i64_Ok in Hfv as [-> _], Hrv as [-> _], Hev as [-> _].
  apply map_err_Ok in Hra. apply reject_if_Ok in Hu3. pose proof (changes_one_Ok _ _ _ _ _ Hra Hu3) as Hout.
  split; cbn [ac_target_state ac_outbox_state ac_outcome ac_attempt_id commit_of]; try done.
  - exists o'. split_and!; try done. exists ts, d. split_and!; try done.
  - exists next. split; [done|]. exact Hone.
Qed.

(** ** Recovering an expired lease *)

(** The outcome recovery records for a submitted target: unknown, now. *)
Definition recovery_input (o : PresenceOutboxRecord) (own : bytes) (expires now delay : Z) (t : PresenceTargetRecord) :
    PresenceRecordInput :=
  MkInput (o_id o) (o_revision o) (o_event_sha256 o) own expires (t_ordinal t) (t_revision t) (t_attempt_count t)
    (default [] (t_last_attempt_id t)) (t_updated_at t) now Unknown delay.

Record presence_recovered (c : PresenceRecoveryCandidate) (now delay : Z) (db db' : presence_db) : Prop := {
  pv_current : read_outbox (o_id (rc_outbox c)) db = Ok (Some (rc_outbox c));
  pv_leased : o_state (rc_outbox c) = Leased;
  pv_effect : ∃ own expires, o_lease_owner (rc_outbox c) = Some own ∧ o_lease_expires (rc_outbox c) = Some expires ∧
    expires ≤ now ∧
    pr_attempts db' = pr_attempts db ++
      map (λ t, attempt_row_of (recovery_input (rc_outbox c) own expires now delay t))
        (submitted_targets (o_targets (rc_outbox c))) ∧
    ∃ ts d, read_targets (o_id (rc_outbox c)) db' = Ok ts ∧
      (if rc_current_desired c then disposition (rc_outbox c) ts = Ok d else d = MkDisposition Superseded None) ∧
      changes_one (holds_outbox (o_id (rc_outbox c)) (o_revision (rc_outbox c)) own expires now false)
        (with_lifecycle (outbox_code (dp_state d)) (dp_next_attempt d) None None now) (pr_outboxes db) (pr_outboxes db');
  pv_settled : ∀ r, r ∈ pr_targets db' → pt_outbox_id r = o_id (rc_outbox c) → pt_state r ≠ "submitted"%string;
  pv_frame : pr_desired db' = pr_desired db ∧ pr_bindings db' = pr_bindings db;
}.

Lemma one_match {row} (p : row → bool) rows : length (List.filter p rows) = 1%nat → ∃ r, r ∈ rows ∧ p r = true.
Proof. intros Hl. apply Views.some_row_affected. lia. Qed.

Lemma presence_recover_targets_Ok o own expires now delay ts db db' :
  rows_ok (pr_targets db) = true → recover_targets o own expires now delay ts db = Ok db' →
  pr_attempts db' = pr_attempts db ++ map (λ t, attempt_row_of (recovery_input o own expires now delay t)) ts ∧
  pr_outboxes db' = pr_outboxes db ∧ pr_desired db' = pr_desired db ∧ pr_bindings db' = pr_bindings db ∧
  ∀ r, r ∈ pr_targets db' → pt_state r = "submitted"%string →
    r ∈ pr_targets db ∧ (pt_outbox_id r = o_id o → ∀ t, t ∈ ts → t_ordinal t ≠ pt_target_ordinal r).
Proof.
  revert db. induction ts as [|t ts IH]; intros db Hok Hr; cbn [recover_targets] in Hr.
  - injection Hr as <-. cbn [map]. rewrite app_nil_r. split_and!; try done. intros r Hin _. split; [done|].
    by intros _ t ?%elem_of_nil.
  - bind Hr as db1 H1. unfold recover_target in H1. bind H1 as aid Haid. bind H1 as re Hre. bind H1 as u Hu.
    bind H1 as db2 H2. bind H1 as sn Hs. destruct sn as [st next]. apply ok_or_Ok in Haid.
    apply presence_insert_attempt_Ok in H2 as ->. apply presence_update_target_outcome_Ok in H1 as (rows & -> & [Hone ->] & Hrows).
    unfold target_outcome_schedule in Hs. cbn [i_outcome target_state_for_outcome and_then] in Hs.
    bind Hs as nx Hnx. injection Hs as <- <-.
    apply IH in Hr as (Ha & -> & -> & -> & Hsub); [|by apply Hrows]. split_and!; try done.
    + rewrite Ha. cbn [pr_attempts with_targets with_attempts map]. unfold recovery_input at 2. rewrite Haid.
      cbn [default]. by rewrite <- app_assoc.
    + intros r Hin Hst. destruct (Hsub r Hin Hst) as [Hin1 Hord]. cbn [pr_targets with_targets with_attempts] in Hin1, Hone, Hok.
      apply list_elem_of_In, in_map_iff in Hin1 as (r0 & Hr0 & Hin0). apply list_elem_of_In in Hin0.
      unfold apply_where in Hr0. destruct (attempt_target _ r0) eqn:Hp; [by subst r|]. subst r0. split; [done|].
      intros Hid t0 [->|Ht0]%elem_of_cons; [|by apply Hord]. intros Ho.
      destruct (one_match _ _ Hone) as (r1 & Hr1 & Hp1). pose proof Hp1 as Hp2. unfold attempt_target in Hp2. to_prop.
      cbn [i_outbox_id i_target_ordinal] in *.
      match goal with E : bytes_eqb (pt_outbox_id r1) _ = true |- _ => apply bytes_eqb_true in E end.
      assert (r1 = r) as ->; [|by rewrite Hp1 in Hp].
      apply (rows_ok_unique _ _ _ presence_target_conflict_sym Hok Hr1 Hin0). simpl.
      rewrite (proj2 (bytes_eqb_true _ _)) by congruence. by rewrite (proj2 (Z.eqb_eq _ _)) by congruence.
Qed.

(** A successful read lists every stored target. *)
Lemma read_targets_all i db ts r :
  read_targets i db = Ok ts → r ∈ pr_targets db → pt_outbox_id r = i → ∃ t, t ∈ ts ∧ target_seen r t.
Proof.
  unfold read_targets, READ_TARGETS_SQL. intros Hr Hin Hid. bind Hr as u Hu. apply collect_Ok in Hr.
  apply reject_if_Ok, Z.ltb_ge in Hu. unfold RHI_PRESENCE_DESIRED_MAX_TARGETS in Hu. rewrite length_take in Hu.
  rewrite take_ge in Hr by lia.
  assert (r ∈ sort_by target_order (List.filter (λ r, bytes_eqb (pt_outbox_id r) i) (pr_targets db))) as Hs.
  { rewrite sort_by_perm. apply list_elem_of_In, filter_In. split; [by apply list_elem_of_In|].
    by apply bytes_eqb_true. }
  apply list_elem_of_lookup in Hs as [k Hk]. destruct (Forall2_lookup_l _ _ _ _ _ Hr Hk) as (t & Ht & Hd).
  exists t. split; [by eapply list_elem_of_lookup_2|by apply decode_target_seen].
Qed.

Lemma recover_presence_Ok c now delay db b db' :
  tables_ok db = true → recover_expired c now delay db = Ok (b, db') → presence_recovered c now delay db db'.
Proof.
  intros Hok. unfold recover_expired. intros Hr. bind Hr as o Ho. bind Hr as cu Hcu. bind Hr as u Hu.
  bind Hr as own Hown. bind Hr as ex Hex. bind Hr as db1 H1. bind Hr as ts Hts. bind Hr as d Hd. bind Hr as nx Hnx.
  bind Hr as nv Hnv. bind Hr as rv Hrv. bind Hr as ev Hev. bind Hr as ra Hra. destruct ra as [rows n].
  bind Hr as u1 Hu1. injection Hr as <- <-.
  apply ok_or_Ok, filter_opt_Some in Hcu as [-> Hsame]. apply same_outbox_eq in Hsame as ->.
  apply ok_or_Ok in Hown, Hex. apply reject_if_Ok in Hu. to_prop. rewrite Hex in *. cbn [is_none_or] in *. to_prop.
  apply presence_optional_i64_Ok in Hnx as ->. apply presence_i64_Ok in Hnv as [-> _], Hrv as [-> _], Hev as [-> _].
  apply map_err_Ok in Hra. apply reject_if_Ok in Hu1. pose proof (changes_one_Ok _ _ _ _ _ Hra Hu1) as Hout.
  pose proof Hok as Hok0. apply presence_tables_split in Hok0 as (_ & _ & Htok & _).
  apply presence_recover_targets_Ok in H1 as (Ha & Hob & Hde & Hbi & Hsub); [|done].
  destruct (read_outbox_seen _ _ _ Ho) as (_ & _ & _ & _ & _ & Htso).
  split; try done.
  - exists own, ex. split_and!; try done. exists ts, d. split_and!; try done; [|by rewrite <- Hob].
    destruct (rc_current_desired c); [done|by injection Hd].
  - intros r Hin Hid Hst. destruct (Hsub r Hin Hst) as [Hin0 Hord].
    destruct (read_targets_all _ _ _ _ Htso Hin0 Hid) as (t & Ht & Hseen). apply (Hord Hid t); [|by destruct Hseen].
    unfold submitted_targets. apply list_elem_of_In, filter_In. split; [by apply list_elem_of_In|].
    apply bool_decide_eq_true, presence_target_code_inj. by rewrite <- (se_state _ _ Hseen), Hst.
Qed.

(** The candidate is the stored outbox, and says whether its desired state is current. *)
Lemma expired_candidate_Ok now db c :
  read_expired_candidate now db = Ok (Some c) →
  read_outbox (o_id (rc_outbox c)) db = Ok (Some (rc_outbox c)) ∧
  (rc_current_desired c = true ↔ desired_current (rc_outbox c) db) ∧
  0 ≤ rc_retry_upper_bound c ≤ MAXIMUM_BACKOFF_MILLISECONDS.
Proof.
  unfold read_expired_candidate. intros Hr. bind Hr as nv Hnv. bind Hr as row Hrow. destruct row as [row|]; [|done].
  bind Hr as i Hi. bind Hr as o Ho. bind Hr as o' Ho'. bind Hr as d Hd. bind Hr as u Hu. bind Hr as u1 Hu1.
  injection Hr as <-. apply ok_or_Ok in Ho'. subst o. cbn [rc_outbox rc_current_desired rc_retry_upper_bound].
  pose proof Ho as Ho0. apply read_outbox_seen in Ho0 as (_ & _ & _ & Hid & _). subst i.
  split_and!; [done| |..].
  - split; [by intros Hm; exists d|]. intros (d' & Hd' & Hm). rewrite Hd in Hd'. by injection Hd' as <-.
  - destruct (desired_matches_outbox d o'); [|done]. destruct (filter_opt _ _); [|done]. apply retry_upper_bound_range.
  - destruct (desired_matches_outbox d o'); [|done]. destruct (filter_opt _ _); [|done]. apply retry_upper_bound_range.
Qed.

End delivery.

End PresenceRefine.
