(* ===== verification/PresenceDeliverySafety.v ===== *)
(** * Correctness of presence publication

    A generation is committed atomically with its verified bytes and every target; the
    sink only sees bytes whose submission is durable; an outcome and a recovery are
    atomic and settle what was submitted; and every history of operations only grows
    the tables and keeps the recorded evidence consistent. *)

From Stdlib Require Import ZArith Lia.
From stdpp Require Import list strings relations.
From S2P Require Import Prelude.
From S2P Require Import Sql.
From S2P Require Import Interfaces.
From S2P Require Import RuntimeAdapters.
From S2P Require Import StateMetadata.
From S2P Require Import Publication.
From S2P Require Import PublicationState.
From S2P Require Import StateConfig.
From S2P Require Import StateConfigSafety.
From S2P Require Import ReconciliationAttestation.
From S2P Require Import PresenceState.
From S2P Require Import PresenceDesired.
From S2P Require Import PresenceDesiredSafety.
From S2P Require Import PresencePublication.
From S2P Require Import PresenceRecords.
From S2P Require Import PresenceDelivery.
From S2P Require Import PresenceViews.
From S2P Require Import PresenceHistory.
From S2P Require Import PublicationViews.
From S2P Require Import PresenceRefine.

Module Delivery.
Import PubState PresenceState Presence PresencePub PresenceRecords PresenceDelivery PresenceViews PresenceHistory
  PresenceRefine.

(** ** Running repository methods *)

Section run.
Context `{TransactionLaws presence_db}.

Lemma presence_run_Ok {A} writable (op : presence_db → result PresenceOperationError (A * presence_db)) db a db' :
  run writable op db = (Ok a, db') → writable = true ∧ op db = Ok (a, db').
Proof.
  unfold run. destruct writable; [|done]. cbn [negb]. destruct (transaction op db) as [r d] eqn:E.
  intros [= Hr <-]. apply map_err_Ok in Hr as ->. split; [done|by eapply tx_committed].
Qed.

(** A method that fails leaves the state it found, or the one it meant to commit. *)
Lemma presence_run_Err {A} writable (op : presence_db → result PresenceOperationError (A * presence_db)) db e db' :
  run writable op db = (Err e, db') → db' = db ∨ e = CommitOutcomeUnknown ∧ ∃ a, op db = Ok (a, db').
Proof.
  unfold run. destruct writable; cbn [negb]; [|by intros [= _ <-]; left].
  destruct (transaction op db) as [[a|te] d] eqn:E; intros [= He <-].
  destruct (commit_outcome_unknown te) eqn:Eu.
  - destruct (tx_unknown _ _ _ _ E Eu) as (a & d' & Hop & [->| ->]); [by left|right].
    split; [|by exists a]. unfold map_transaction_error in He. by rewrite Eu in He.
  - left. by destruct (tx_rolled_back _ _ _ _ E Eu).
Qed.

Lemma presence_run_grows {A} writable (op : presence_db → result PresenceOperationError (A * presence_db)) db r db' :
  tables_ok db = true → (∀ a d, op db = Ok (a, d) → presence_grows db d) →
  run writable op db = (r, db') → presence_grows db db'.
Proof.
  intros Hok Hop Hr. destruct r as [a|e].
  - by eapply Hop, presence_run_Ok.
  - destruct (presence_run_Err _ _ _ _ _ Hr) as [->|(_ & a & Ha)]; [by apply presence_grows_refl|by eapply Hop].
Qed.

Context `{Sha256, PublicKeyLibrary K, !PresenceLibrary K Idn, WallClock W, !EntropySource W}.

Lemma recover_one_grows writable now db (w : W) r db' w' :
  tables_ok db = true → recover_one_expired_presence writable now db w = (r, db', w') → presence_grows db db'.
Proof.
  intros Hok Hr. unfold recover_one_expired_presence in Hr. destruct (run writable _ db) as [res db1] eqn:E1.
  assert (presence_grows db db1) as Hgr.
  { eapply presence_run_grows; [done| |exact E1]. intros a d Ha. cbv beta in Ha. bind Ha as x Hx.
    injection Ha as _ <-. by apply presence_grows_refl. }
  destruct res as [[c|]|e]; [|by injection Hr as _ <- _..].
  destruct (sample_retry_delay _ w) as [[delay|e] w1]; [|by injection Hr as _ <- _].
  destruct (run writable (recover_expired c now delay) db1) as [res2 db2] eqn:E2. injection Hr as _ <- _.
  eapply presence_grows_trans; [exact Hgr|]. pose proof (gr_tables _ _ Hgr) as Hok1.
  eapply presence_run_grows; [done| |exact E2]. intros a d Ha. by eapply presence_recover_grows.
Qed.

(** What is prepared, and the state it was prepared from. *)
Lemma prepare_execution_prepared writable own db (w : W) p db1 w1 :
  tables_ok db = true → prepare_execution writable own db w = (Ok (Some p), db1, w1) →
  writable = true ∧ owner (p_lease p) = own ∧ presence_grows db db1 ∧
  ∃ now db0, presence_grows db db0 ∧ presence_prepared (p_lease p) now db0 p db1.
Proof.
  intros Hok Hp. unfold prepare_execution in Hp. destruct (presence_now w) as [[now|e] w2]; [|done].
  destruct (recover_one_expired_presence writable now db w2) as [[[b|e] db2] w3] eqn:Er; [|done].
  apply recover_one_grows in Er; [|done]. pose proof (gr_tables _ _ Er) as Hok2.
  destruct (claim_next_presence writable own now db2) as [[[l|]|e] db3] eqn:Ec; [|done..].
  destruct (prepare_next_presence_target writable l now db3) as [[q|e] db4] eqn:Ep; [|done].
  injection Hp as <- <- <-. apply presence_run_Ok in Ec as [Hw Ec], Ep as [_ Ep].
  pose proof (presence_claim_grows _ _ _ _ _ Hok2 Ec) as Hg3. pose proof (gr_tables _ _ Hg3) as Hok3.
  pose proof (presence_prepare_grows _ _ _ _ _ Hok3 Ep) as Hg4. apply prepare_presence_Ok in Ep; [|done].
  pose proof (pp_lease _ _ _ _ _ Ep) as Hl. rewrite Hl. split; [done|]. split.
  { unfold claim_next in Ec. bind Ec as nv Hnv. bind Ec as row Hrow. destruct row as [row|]; [|done].
    bind Ec as i Hi. bind Ec as o Ho. bind Ec as o' Ho'. bind Ec as u1 Hu1. bind Ec as u2 Hu2. bind Ec as ex Hex.
    bind Ec as exv Hexv. bind Ec as rev Hrev. bind Ec as ra Hra. destruct ra as [rows n]. bind Ec as u3 Hu3.
    bind Ec as le Hle. bind Ec as le' Hle'. by injection Ec as <- _. }
  split; [by do 2 (eapply presence_grows_trans; [eassumption|])|].
  exists now, db3. split; [by eapply presence_grows_trans|done].
Qed.
End run.

(** ** Properties *)

Section properties.
Context `{Sha256, PublicKeyLibrary K, !PresenceLibrary K Idn}.

(** C9. A generation of presence is committed atomically.  Over any host that keeps
    the laws of a transaction, a commit that answers did one of two things: the
    stored generation already is the given one and nothing changed, or the desired
    state is the given one, every document is a verified event of its kind, no lease
    of another generation was held, and exactly then each document and each of its
    targets is stored pending and due at the commit time, every outbox of another
    generation that is pending or blocked and was not written after the commit time is
    superseded, and every other row is kept.  In both cases the stored outboxes of the
    generation are the given documents with their exact bytes and targets.  A failure
    changes nothing; an unknown outcome is one of the two. *)
Theorem presence_generation_is_committed_atomically `{TransactionLaws presence_db} writable d at_time db res db' :
  commit_signed_presence writable d at_time db = (res, db') →
  match res with
  | Ok out => writable = true ∧ co_desired_state out = dd_desired_state d ∧ generation_stored d db' ∧
      if co_changed out then generation_committed d at_time db db' else db' = db
  | Err CommitOutcomeUnknown => db' = db ∨ generation_stored d db' ∧ generation_committed d at_time db db'
  | Err _ => db' = db
  end.
Proof.
  unfold commit_signed_presence. intros Hr. destruct res as [out|e].
  - apply presence_run_Ok in Hr as [Hw Hop]. apply commit_signed_Ok in Hop as (Hd & _ & Hs & Hc). done.
  - destruct (presence_run_Err _ _ _ _ _ Hr) as [->|(-> & out & Hop)]; [by destruct e; auto|].
    apply commit_signed_Ok in Hop as (_ & _ & Hs & Hc). destruct (co_changed out); auto.
Qed.

(** C10. The sink only sees presence whose submission is durable.  For any host that
    keeps the laws of a transaction, any clock and any entropy: when the sink is
    called, the stored outbox is leased to the caller for the current desired state
    and holds exactly the bytes the sink is given, whose digest is the stored one and
    which verify as the event of the outbox; the stored target is already submitted
    with a fresh attempt number of at most 100; and a step depends on the sink only
    through that call. *)
Theorem presence_sink_sees_only_durable_submission
    `{TransactionLaws presence_db, WallClock W, !EntropySource W} writable own db (w : W) :
  tables_ok db = true →
  (∀ p db1 w1, prepare_execution writable own db w = (Ok (Some p), db1, w1) →
     let o := lease_outbox (p_lease p) in
     writable = true ∧ tables_ok db1 = true ∧ desired_current o db1 ∧
     (∃ r, r ∈ pr_outboxes db1 ∧ po_outbox_id r = o_id o ∧ po_state r = "leased"%string ∧
        po_lease_owner r = Some own ∧ po_exact_signed_event_bytes r = p_exact_signed_event_bytes p ∧
        po_event_sha256 r = sha256 (p_exact_signed_event_bytes p)) ∧
     (∃ r, r ∈ pr_targets db1 ∧ pt_outbox_id r = o_id o ∧ pt_target_ordinal r = t_ordinal (p_target p) ∧
        pt_state r = "submitted"%string ∧ pt_last_attempt_id r = Some (p_attempt_id p) ∧
        pt_attempt_count r = t_attempt_count (p_target p) ∧ pt_attempt_count r ≤ 100) ∧
     (∃ event, validate_signed_document (o_document_kind o) (o_service_public_key o) (o_authored_at_unix_s o)
        (p_exact_signed_event_bytes p) = Ok event) ∧
     (evidence_consistent db → ∀ a, a ∈ pr_attempts db1 → pa_outbox_id a = o_id o →
        pa_target_ordinal a = t_ordinal (p_target p) → pa_attempt_number a < t_attempt_count (p_target p))) ∧
  (∀ sink sink',
     (∀ p db1 w1, prepare_execution writable own db w = (Ok (Some p), db1, w1) → sink p w1 = sink' p w1) →
     execute_next_presence writable sink own db w = execute_next_presence writable sink' own db w).
Proof.
  intros Hok. split.
  - intros p db1 w1 Hp o. subst o. apply prepare_execution_prepared in Hp as (Hw & Hown & Hg & now & db0 & Hg0 & Hp); [|done].
    destruct Hp as [Hl _ _ _ Hbound (Hst & Hlast & _) _ (tr & Htr & Htid & Hseen) (r & Hr & Hos & Hrb & Hrd) Hver Hfresh
      (_ & _ & Hde & _)].
    split_and!; [done|by destruct Hg| | | |done|].
    + destruct (pl_desired _ _ _ Hl) as (d & Hd & Hm). exists d. split; [|done]. unfold read_desired_binding in *. by rewrite Hde.
    + exists r. split_and!; [done|apply Hos|by rewrite (os_state _ _ Hos), (pl_leased _ _ _ Hl)| |done|done].
      by rewrite (os_owner _ _ Hos), (pl_owner _ _ _ Hl), Hown.
    + exists tr. unfold RHI_PRESENCE_MAX_ATTEMPTS in Hbound. rewrite (se_count _ _ Hseen). split_and!; try done.
      * apply Hseen.
      * by rewrite (se_state _ _ Hseen), Hst.
      * by rewrite (se_last _ _ Hseen).
    + intros Hev. apply Hfresh. by apply Hg0.
  - intros sink sink' Heq. unfold execute_next_presence.
    destruct (prepare_execution writable own db w) as [[[[p|]|] db1] w1]; try done. by rewrite (Heq p db1 w1 eq_refl).
Qed.

(** A first presence outcome is recorded in one atomic step: under a live lease of
    the current desired state it appends exactly one attempt with the observed facts,
    settles exactly the submitted target it was made for, schedules a retry only for a
    retryable outcome below the limit and within the capped exponential bound, and
    closes the lease with the disposition of the settled targets. *)
Theorem presence_outcome_is_committed_atomically i c db db' :
  read_attempt (i_attempt_id i) db = Ok None → 1 ≤ i_attempt_number i → record_outcome i db = Ok (c, db') →
  presence_recorded i c db db' ∧ i_outcome i ≠ Submitted ∧
  ∃ next, target_outcome_schedule i = Ok (ac_target_state c, next) ∧
    ∀ v, next = Some v → retryable_outcome (i_outcome i) = true ∧ i_attempt_number i < 100 ∧
      v = i_finished_at i + i_retry_delay i ∧ i_retry_delay i ≤ Z.min (250 * 2 ^ (i_attempt_number i - 1)) 30000.
Proof.
  intros Hnone Hn Hr. pose proof (record_presence_Ok _ _ _ _ Hnone Hr) as Hp. split; [done|].
  destruct (pc_target _ _ _ _ Hp) as (next & Hs & _). pose proof Hs as Hs0. unfold target_outcome_schedule in Hs.
  bind Hs as st Hst. split; [intros Hsub; by rewrite Hsub in Hst|]. exists next. split; [done|]. intros v ->.
  bind Hs as nx Hnx. injection Hs as _ ->. destruct (retryable_outcome (i_outcome i)); [|cbn [andb] in Hnx; bind Hnx as u Hu; discriminate Hnx].
  destruct (Z.ltb_spec (i_attempt_number i) RHI_PRESENCE_MAX_ATTEMPTS) as [Hlt|]; [|cbn [andb] in Hnx; bind Hnx as u Hu; discriminate Hnx]. cbn [andb] in Hnx.
  bind Hnx as u Hu. bind Hnx as v' Hv. injection Hnx as ->. apply reject_if_Ok, Z.ltb_ge in Hu.
  apply ok_or_Ok, filter_opt_Some in Hv as [Hv _]. apply u64_checked_add_Some in Hv as [-> _].
  unfold RHI_PRESENCE_MAX_ATTEMPTS in Hlt. rewrite presence_retry_bound_exact in Hu by done. done.
Qed.

(** C11. Recovery settles an expired presence lease: every target that was submitted
    under it gets exactly one recorded attempt with an unknown outcome and none stays
    submitted, and the outbox is superseded when its desired state is no longer the
    current one and otherwise takes the disposition of its targets. *)
Theorem presence_recovery_settles_expired_lease c now delay db b db' :
  tables_ok db = true → read_expired_candidate now db = Ok (Some c) → recover_expired c now delay db = Ok (b, db') →
  presence_recovered c now delay db db' ∧ (rc_current_desired c = true ↔ desired_current (rc_outbox c) db) ∧
  tables_ok db' = true ∧
  ∀ t, t ∈ o_targets (rc_outbox c) → t_state t = TSubmitted →
    ∃ a, a ∈ pr_attempts db' ∧ pa_outbox_id a = o_id (rc_outbox c) ∧ pa_target_ordinal a = t_ordinal t ∧
      pa_attempt_number a = t_attempt_count t ∧ pa_outcome a = "unknown"%string ∧
      pa_event_sha256 a = o_event_sha256 (rc_outbox c).
Proof.
  intros Hok Hc Hr. pose proof (recover_presence_Ok _ _ _ _ _ _ Hok Hr) as Hv. split; [done|].
  apply expired_candidate_Ok in Hc as (_ & Hcur & _). split; [done|].
  split; [by eapply presence_recover_grows|]. intros t Ht Hst.
  destruct (pv_effect _ _ _ _ _ Hv) as (own & ex & _ & _ & _ & Ha & _). rewrite Ha.
  exists (attempt_row_of (recovery_input (rc_outbox c) own ex now delay t)). split; [|done].
  apply elem_of_app. right. apply list_elem_of_In, in_map_iff. exists t. split; [done|]. apply filter_In.
  split; [by apply list_elem_of_In|by apply bool_decide_eq_true].
Qed.

(** C25. Presence history only grows.  Every history of operations, in any interleaving
    and with any leases and clocks, keeps the tables within their constraints and the
    generation of the desired state from decreasing; never removes a row; never
    changes what an outbox publishes, a complete or superseded outbox, a target's
    relay or a settled final target; only appends attempts; and keeps every recorded
    attempt in agreement with its outbox's event and its target's outcome. *)
Theorem presence_history_is_append_only db db' :
  tables_ok db = true → evidence_consistent db → rtc presence_step db db' →
  tables_ok db' = true ∧ evidence_consistent db' ∧ pr_attempts db `prefix_of` pr_attempts db' ∧
  (∀ r, r ∈ pr_desired db → ∃ r', r' ∈ pr_desired db' ∧ ds_generation r ≤ ds_generation r') ∧
  (∀ r, r ∈ pr_outboxes db → ∃ r', r' ∈ pr_outboxes db' ∧ same_presence_columns r r' = true ∧
     po_revision r ≤ po_revision r' ∧ (po_state r ∈ ["complete"; "superseded"]%string → r' = r)) ∧
  (∀ r, r ∈ pr_targets db → ∃ r', r' ∈ pr_targets db' ∧ pt_outbox_id r' = pt_outbox_id r ∧
     pt_target_ordinal r' = pt_target_ordinal r ∧ pt_relay_id r' = pt_relay_id r ∧ pt_required r' = pt_required r ∧
     pt_attempt_count r ≤ pt_attempt_count r' ∧
     (pt_state r ∈ ["accepted"; "rejected"; "auth_required"]%string → r' = r)).
Proof.
  intros Hok Hev Hs. destruct (presence_history_grows _ _ Hok Hs) as [Hok' _ Hd Ho Ht Ha He].
  split_and!; [done|auto|done|..]; intros r Hr.
  - by destruct (rows_grow_elem _ _ _ _ Hd Hr) as (r' & Hr' & HR); exists r'.
  - destruct (rows_grow_elem _ _ _ _ Ho Hr) as (r' & Hr' & []). exists r'. split_and!; try done.
    intros Hf. apply og_final0. by apply Views.one_of_true.
  - destruct (rows_grow_elem _ _ _ _ Ht Hr) as (r' & Hr' & []). exists r'. split_and!; try done.
    intros Hf. apply tr_final0. by apply Views.one_of_true.
Qed.
End properties.

(** ** A concrete generation *)

#[local] Existing Instance checksum.
#[local] Existing Instance checksum_laws.
#[local] Existing Instance json_value.
#[local] Existing Instance json_writer.
#[local] Existing Instance reliable_host.
#[local] Existing Instance reliable_host_laws.
#[local] Existing Instance ConfigSafety.demo_keys.

(** An event is its kind's tag and its time; it is signed by its own digest. *)
Definition demo_event_plan (kind : Z) (tags : list (list string)) (content : bytes) (created_at : Z) :
    Attestation.AuthoredEventPlan :=
  Attestation.MkEventPlan kind tags content created_at (as_bytes ConfigSafety.demo_key)
    (sha256 (kind :: to_be_bytes 8 created_at)).

Definition demo_presence_library : PresenceLibrary string unit := {|
  PresenceBuilder := unit;
  PresenceUnsigned := bytes;
  PresenceSigned := bytes;
  KIND_APPLICATION_HANDLER := 1;
  presence_hex := λ b, if bytes_eqb b (as_bytes ConfigSafety.demo_key) then ConfigSafety.demo_key else "";
  presence_identity_hex := λ _, ConfigSafety.demo_key;
  profile_plan := λ name _ _ _ created_at _, Some (demo_event_plan 0 [] (as_bytes name) created_at);
  metadata_json := λ name _, Some (as_bytes name);
  application_handler := λ _ _ _ _, Some tt;
  external_request_id := λ _ created_at _, Some (sha256 (1 :: to_be_bytes 8 created_at));
  generic_plan := λ _ kind created_at tags content _, Some (demo_event_plan kind tags content created_at);
  presence_tag := λ _, true;
  presence_event := λ kind _ _ created_at _, kind :: to_be_bytes 8 created_at;
  presence_unsigned_id := λ unsigned, Some (sha256 unsigned);
  sign_presence := λ _ unsigned _, Some unsigned;
  presence_to_vec := λ event, Some event;
  presence_parse := λ text _,
    match text with
    | kind :: at_time =>
        Some (Attestation.MkEnvelope (sha256 text) (as_bytes ConfigSafety.demo_key) (of_be_bytes 0 at_time) kind
                (if kind =? 0 then [] else [["d"; "rhi"]; ["k"; "3441"]])
                (as_bytes (if kind =? 0 then PROFILE_NAME else PROFILE_DISPLAY_NAME)))
    | [] => None
    end;
  presence_verify_id := λ _, true;
  presence_verify := λ _, true;
|}.

#[local] Existing Instance demo_presence_library.

Definition demo_desired : RhiPresenceDesiredAuthority := PresenceSafety.demo_desired true.
Definition demo_state : RhiPresenceDesiredState := PresenceSafety.demo_state 2 true.

Definition demo_documents : RhiSignedPresenceDocuments :=
  Eval vm_compute in
    match
      (build_rhi_signed_presence_documents (MkOutcome demo_state true) demo_desired tt 100 (Scripted [] [1; 2; 3; 4; 5; 6; 7; 8])).1
    with
    | Ok d => d
    | Err _ => MkDocuments demo_state "" [] []
    end.

Definition demo_owner : bytes := to_be_bytes 16 7.

Definition demo_db0 : presence_db := Eval vm_compute in PresenceSafety.demo_committed.
Definition demo_db1 : presence_db := Eval vm_compute in (commit_signed_presence true demo_documents 1500 demo_db0).2.
Definition demo_outcome : RhiPresenceCommitOutcome := MkCommitOutcome demo_state 2 true.

Lemma demo_generation : commit_signed_presence true demo_documents 1500 demo_db0 = (Ok demo_outcome, demo_db1).
Proof. vm_compute. reflexivity. Qed.

(** The profile of the first generation was committed and not yet delivered when the second
    generation became desired: its outbox is superseded. *)
Definition demo_first_documents : RhiSignedPresenceDocuments :=
  Eval vm_compute in
    match
      (build_rhi_signed_presence_documents (MkOutcome (PresenceSafety.demo_state 1 false) true)
         (PresenceSafety.demo_desired false) tt 90 (Scripted [] [1; 2; 3; 4; 5; 6; 7; 8])).1
    with
    | Ok d => d
    | Err _ => MkDocuments demo_state "" [] []
    end.

Definition demo_older : presence_db :=
  Eval vm_compute in
    let db := (commit_signed_presence true demo_first_documents 1200 PresenceSafety.demo_first).2 in
    (commit true demo_desired
       (PresenceDb (pr_bindings PresenceSafety.demo_second) (pr_desired db) (pr_outboxes db) (pr_targets db)
          (pr_attempts db))).2.

Definition demo_newer : presence_db := Eval vm_compute in (commit_signed_presence true demo_documents 1500 demo_older).2.

Lemma demo_supersedes : commit_signed_presence true demo_documents 1500 demo_older = (Ok demo_outcome, demo_newer).
Proof. vm_compute. reflexivity. Qed.

Lemma presence_generation_is_committed_atomically_witness :
  generation_committed demo_documents 1500 demo_older demo_newer ∧
  map (λ r, (po_desired_generation r, po_state r)) (pr_outboxes demo_older) = [(1, "pending"%string)] ∧
  map (λ r, (po_desired_generation r, po_state r)) (pr_outboxes demo_newer) =
    [(1, "superseded"); (2, "pending"); (2, "pending")]%string.
Proof.
  split; [|split; vm_compute; reflexivity].
  exact (proj2 (proj2 (proj2 (presence_generation_is_committed_atomically true demo_documents 1500 demo_older
    (Ok demo_outcome) demo_newer demo_supersedes)))).
Defined.

Lemma presence_demo_tables1 : tables_ok demo_db1 = true.
Proof. vm_compute. reflexivity. Qed.

Definition demo_env : scripted := Scripted [2; 3] [5].

Definition demo_env_after : scripted := Eval vm_compute in (prepare_execution true demo_owner demo_db1 demo_env).2.
Definition demo_db2 : presence_db := Eval vm_compute in (prepare_execution true demo_owner demo_db1 demo_env).1.2.

Definition no_target : PresenceTargetRecord := MkTarget 0 "" false TPending 0 0 None None 0.
Definition no_outbox : PresenceOutboxRecord :=
  MkOutbox [] 0 ServiceProfile [] [] [] [] [] 0 "" 0 0 0 Pending 0 None None None 0 0 [].
Definition no_attempt : RhiPreparedPresenceAttempt := MkPrepared (MkLease no_outbox [] 0) no_target [] 0 0 [].

Definition demo_attempt : RhiPreparedPresenceAttempt :=
  Eval vm_compute in
    match (prepare_execution true demo_owner demo_db1 demo_env).1.1 with Ok (Some p) => p | _ => no_attempt end.

Lemma presence_demo_prepared :
  prepare_execution true demo_owner demo_db1 demo_env = (Ok (Some demo_attempt), demo_db2, demo_env_after).
Proof. vm_compute. reflexivity. Qed.

Lemma presence_sink_sees_only_durable_submission_witness :
  tables_ok demo_db2 = true ∧ ∃ r, r ∈ pr_targets demo_db2 ∧ pt_state r = "submitted"%string.
Proof.
  destruct (presence_sink_sees_only_durable_submission true demo_owner demo_db1 demo_env presence_demo_tables1) as [Hp _].
  destruct (Hp _ _ _ presence_demo_prepared) as (_ & Hok & _ & _ & (r & Hr & _ & _ & Hs & _) & _).
  exact (conj Hok (ex_intro _ r (conj Hr Hs))).
Defined.

(** The relay limits the rate, and the attempt is retried 200 milliseconds later. *)
Definition demo_input : PresenceRecordInput :=
  Eval vm_compute in
    match from_prepared demo_attempt 3000 RateLimited 200 with
    | Ok i => i
    | Err _ => MkInput [] 0 [] [] 0 0 0 0 [] 0 0 Failed 0
    end.

Definition demo_recording : result PresenceOperationError (RhiPresenceAttemptCommit * presence_db) :=
  record_outcome demo_input demo_db2.
Definition demo_db3 : presence_db := Eval vm_compute in match demo_recording with Ok (_, db) => db | Err _ => demo_db2 end.
Definition demo_commit : RhiPresenceAttemptCommit :=
  Eval vm_compute in
    match demo_recording with Ok (c, _) => c | Err _ => MkAttemptCommit [] [] 0 0 Failed TFailed Pending end.

Lemma presence_demo_recorded : record_outcome demo_input demo_db2 = Ok (demo_commit, demo_db3).
Proof. vm_compute. reflexivity. Qed.

Lemma demo_unrecorded : read_attempt (i_attempt_id demo_input) demo_db2 = Ok None.
Proof. vm_compute. reflexivity. Qed.

Lemma demo_number : 1 ≤ i_attempt_number demo_input.
Proof. vm_compute. discriminate. Qed.

Lemma presence_outcome_is_committed_atomically_witness :
  presence_recorded demo_input demo_commit demo_db2 demo_db3 ∧ ac_target_state demo_commit = TRateLimited.
Proof.
  destruct (presence_outcome_is_committed_atomically demo_input demo_commit demo_db2 demo_db3 demo_unrecorded demo_number
    presence_demo_recorded) as [Hp _].
  exact (conj Hp eq_refl).
Defined.

(** The lease expires before the outcome is known. *)
Definition demo_candidate : PresenceRecoveryCandidate :=
  Eval vm_compute in
    match read_expired_candidate 20000 demo_db2 with Ok (Some c) => c | _ => MkCandidate no_outbox 0 false end.
Definition demo_db4 : presence_db :=
  Eval vm_compute in match recover_expired demo_candidate 20000 100 demo_db2 with Ok (_, db) => db | Err _ => demo_db2 end.

Lemma presence_demo_tables2 : tables_ok demo_db2 = true.
Proof. vm_compute. reflexivity. Qed.

Lemma presence_demo_expired : read_expired_candidate 20000 demo_db2 = Ok (Some demo_candidate).
Proof. vm_compute. reflexivity. Qed.

Lemma presence_demo_recovered : recover_expired demo_candidate 20000 100 demo_db2 = Ok (true, demo_db4).
Proof. vm_compute. reflexivity. Qed.

Lemma presence_recovery_settles_expired_lease_witness :
  presence_recovered demo_candidate 20000 100 demo_db2 demo_db4 ∧ length (pr_attempts demo_db4) = 1%nat.
Proof.
  destruct (presence_recovery_settles_expired_lease demo_candidate 20000 100 demo_db2 true demo_db4 presence_demo_tables2
    presence_demo_expired presence_demo_recovered) as [Hv _].
  exact (conj Hv eq_refl).
Defined.

Lemma demo_tables0 : tables_ok demo_db0 = true.
Proof. vm_compute. reflexivity. Qed.

Lemma demo_evidence : evidence_consistent demo_db0.
Proof. intros a Ha. by apply elem_of_nil in Ha. Qed.

Lemma demo_committed_signed : commit_signed demo_documents 1500 demo_db0 = Ok (demo_outcome, demo_db1).
Proof. vm_compute. reflexivity. Qed.

Lemma presence_history_is_append_only_witness : tables_ok demo_db1 = true ∧ evidence_consistent demo_db1.
Proof.
  destruct (presence_history_is_append_only demo_db0 demo_db1 demo_tables0 demo_evidence
    (rtc_once _ _ (step_commit _ _ demo_documents 1500 demo_outcome demo_committed_signed))) as (Hok & Hev & _).
  exact (conj Hok Hev).
Defined.

End Delivery.
