(* ===== verification/JsonTree.v ===== *)
(** * JSON documents as trees

    What the administration boundary uses of [serde_json] beyond [JsonValue]: the
    members of an object, [null], equality of values, and the events its streaming
    deserializer yields.  The members of a [Map] have distinct keys. *)

From stdpp Require Import list strings sets.
From S2P Require Import Prelude Interfaces.

Class JsonTree (V : Type) `{JsonValue V} : Type := {
  as_object : V → option (list (string * V));
  is_null_value : V → bool;
  value_eqb : V → V → bool;
}.

(** [Map::get] *)
Fixpoint map_get {V} (key : string) (members : list (string * V)) : option V :=
  match members with
  | [] => None
  | (k, v) :: members => if String.eqb k key then Some v else map_get key members
  end.

Definition map_contains {V} (key : string) (members : list (string * V)) : bool :=
  is_some_and (λ _, true) (map_get key members).

Section tree.
Context {V : Type} `{!JsonValue V, !JsonTree V}.

(** [Value::get], [is_boolean], [is_object] *)
Definition get (v : V) (key : string) : option V := m ← as_object v; map_get key m.
Definition is_boolean (v : V) : bool := is_some_and (λ _, true) (as_bool v).
Definition is_object (v : V) : bool := is_some_and (λ _, true) (as_object v).

(** [v.get(key).and_then(Value::as_str)] and its siblings *)
Definition get_str (v : V) (key : string) : option string := x ← get v key; as_str x.
Definition get_u64 (v : V) (key : string) : option Z := x ← get v key; as_u64 x.
Definition get_bool (v : V) (key : string) : option bool := x ← get v key; as_bool x.
Definition get_array (v : V) (key : string) : option (list V) := x ← get v key; as_array x.
Definition get_object (v : V) (key : string) : option (list (string * V)) :=
  x ← get v key; as_object x.
End tree.

(** The value tree of [Interfaces]: members in order, equality of trees. *)
Fixpoint json_eqb (x y : json) : bool :=
  match x, y with
  | JNull, JNull => true
  | JNumber n, JNumber m => n =? m
  | JString s, JString t => String.eqb s t
  | JBool a, JBool b => eqb a b
  | JArray l, JArray k =>
      (fix items (l k : list json) : bool :=
         match l, k with
         | [], [] => true
         | x :: l, y :: k => json_eqb x y && items l k
         | _, _ => false
         end) l k
  | JObject m, JObject n =>
      (fix members (m n : list (string * json)) : bool :=
         match m, n with
         | [], [] => true
         | (a, x) :: m, (b, y) :: n => String.eqb a b && json_eqb x y && members m n
         | _, _ => false
         end) m n
  | _, _ => false
  end.

Definition json_tree : @JsonTree json json_value := {|
  as_object := λ v, match v with JObject m => Some m | _ => None end;
  is_null_value := λ v, match v with JNull => true | _ => false end;
  value_eqb := json_eqb;
|}.

Section map_lemmas.
Context {V : Type}.
Implicit Types (m : list (string * V)).

Lemma map_get_elem key m v : map_get key m = Some v → (key, v) ∈ m.
Proof.
  induction m as [|[k w] m IH]; simpl; [done|].
  destruct (String.eqb_spec k key) as [->|]; [intros [= ->]; by left|]. right; auto.
Qed.

Lemma map_get_None key m : map_get key m = None ↔ key ∉ m.*1.
Proof.
  induction m as [|[k w] m IH]; simpl; [set_solver|].
  destruct (String.eqb_spec k key) as [->|]; [set_solver|]. rewrite IH. set_solver.
Qed.

Lemma map_contains_true key m : map_contains key m = true ↔ key ∈ m.*1.
Proof.
  unfold map_contains. destruct (map_get key m) as [v|] eqn:E; simpl.
  - split; [|done]. intros _. apply map_get_elem in E. by apply (list_elem_of_fmap_2 fst) in E.
  - apply map_get_None in E. naive_solver.
Qed.

Lemma map_get_unique key m v : NoDup m.*1 → (key, v) ∈ m → map_get key m = Some v.
Proof.
  induction m as [|[k w] m IH]; simpl; [set_solver|].
  inversion 1 as [|? ? Hk Hm]; subst. intros [[= <- <-]|Hin]%elem_of_cons; [by rewrite String.eqb_refl|].
  destruct (String.eqb_spec k key) as [->|]; [|by apply IH].
  by apply (list_elem_of_fmap_2 fst) in Hin.
Qed.
End map_lemmas.
