(* ===== verification/Admin.v ===== *)
(** * The administration boundary: [src/src/admin_v1.rs], first part

    The closed route inventory, the models of the operator contract and the admission
    of request and response documents against them.  The contract is a JSON file of the
    repository that the program embeds and parses at run time, so it is an argument of
    the definitions; parsing JSON and URLs are interfaces. *)

From stdpp Require Import list strings.
From S2P Require Import Prelude Interfaces JsonTree JsonText.

Module Admin.

Definition RHI_ADMIN_RESPONSE_BODY_MAX_UTF8_BYTES : Z := 1048576.

(** ** Routes *)

Inductive RhiAdminMethod : Type := Get | Post.

#[export] Instance method_eq_dec : EqDecision RhiAdminMethod.
Proof. solve_decision. Defined.

Inductive RhiAdminRoute : Type :=
| Status | EffectiveConfig | IdentityStatus | IdentityPublic
| StateStatus | StateBackup | MetricsSnapshot | ReconciliationStatus
| ReconciliationJobs | ReconciliationRefresh | Sources | TradeProjection
| TradeReportCurrent | TradeReports | PublicationBacklog | PublicationTargets
| PublicationRetry | PresenceDesired | PresenceRender | PresenceRefresh.

#[export] Instance route_eq_dec : EqDecision RhiAdminRoute.
Proof. solve_decision. Defined.

Definition ALL : list RhiAdminRoute :=
  [Status; EffectiveConfig; IdentityStatus; IdentityPublic; StateStatus; StateBackup;
   MetricsSnapshot; ReconciliationStatus; ReconciliationJobs; ReconciliationRefresh;
   Sources; TradeProjection; TradeReportCurrent; TradeReports; PublicationBacklog;
   PublicationTargets; PublicationRetry; PresenceDesired; PresenceRender;
   PresenceRefresh].

Definition method (r : RhiAdminRoute) : RhiAdminMethod :=
  match r with
  | Status | EffectiveConfig | IdentityStatus | IdentityPublic | StateStatus
  | MetricsSnapshot | ReconciliationStatus | ReconciliationJobs | Sources | TradeProjection
  | TradeReportCurrent | TradeReports | PublicationBacklog | PublicationTargets
  | PresenceDesired => Get
  | StateBackup | ReconciliationRefresh | PublicationRetry | PresenceRender
  | PresenceRefresh => Post
  end.

Definition path (r : RhiAdminRoute) : string :=
  match r with
  | Status => "/v1/status"
  | EffectiveConfig => "/v1/config/effective"
  | IdentityStatus => "/v1/identity/status"
  | IdentityPublic => "/v1/identity/public"
  | StateStatus => "/v1/state/status"
  | StateBackup => "/v1/state/backup"
  | MetricsSnapshot => "/v1/metrics/snapshot"
  | ReconciliationStatus => "/v1/reconciliation/status"
  | ReconciliationJobs => "/v1/reconciliation/jobs"
  | ReconciliationRefresh => "/v1/reconciliation/refresh"
  | Sources => "/v1/sources"
  | TradeProjection => "/v1/trades/{trade_id}/projection"
  | TradeReportCurrent => "/v1/trades/{trade_id}/reports/current"
  | TradeReports => "/v1/trades/{trade_id}/reports"
  | PublicationBacklog => "/v1/publication/backlog"
  | PublicationTargets => "/v1/publication/targets"
  | PublicationRetry => "/v1/publication/retry"
  | PresenceDesired => "/v1/presence/desired"
  | PresenceRender => "/v1/presence/render"
  | PresenceRefresh => "/v1/presence/refresh"
  end.

Definition operation_id (r : RhiAdminRoute) : string :=
  match r with
  | Status => "radroots.rhi.status.get.v1"
  | EffectiveConfig => "radroots.rhi.config.effective.get.v1"
  | IdentityStatus => "radroots.rhi.identity.status.get.v1"
  | IdentityPublic => "radroots.rhi.identity.public.get.v1"
  | StateStatus => "radroots.rhi.state.status.get.v1"
  | StateBackup => "radroots.rhi.state.backup.create.v1"
  | MetricsSnapshot => "radroots.rhi.metrics.snapshot.get.v1"
  | ReconciliationStatus => "radroots.rhi.reconciliation.status.get.v1"
  | ReconciliationJobs => "radroots.rhi.reconciliation.jobs.list.v1"
  | ReconciliationRefresh => "radroots.rhi.reconciliation.refresh.v1"
  | Sources => "radroots.rhi.sources.list.v1"
  | TradeProjection => "radroots.rhi.trade.projection.get.v1"
  | TradeReportCurrent => "radroots.rhi.trade.report.current.get.v1"
  | TradeReports => "radroots.rhi.trade.reports.list.v1"
  | PublicationBacklog => "radroots.rhi.publication.backlog.list.v1"
  | PublicationTargets => "radroots.rhi.publication.targets.list.v1"
  | PublicationRetry => "radroots.rhi.publication.retry.v1"
  | PresenceDesired => "radroots.rhi.presence.desired.get.v1"
  | PresenceRender => "radroots.rhi.presence.render.v1"
  | PresenceRefresh => "radroots.rhi.presence.refresh.v1"
  end.

Definition request_model (r : RhiAdminRoute) : string :=
  match r with
  | Status | EffectiveConfig | StateStatus | MetricsSnapshot | ReconciliationStatus
  | TradeProjection | TradeReportCurrent | PresenceDesired => "empty"
  | IdentityStatus => "identity_status_query_v1"
  | IdentityPublic => "identity_public_query_v1"
  | StateBackup => "state_backup_request_v1"
  | ReconciliationJobs => "reconciliation_jobs_query_v1"
  | ReconciliationRefresh => "reconciliation_refresh_request_v1"
  | Sources => "sources_query_v1"
  | TradeReports => "reports_query_v1"
  | PublicationBacklog => "publication_backlog_query_v1"
  | PublicationTargets => "publication_targets_query_v1"
  | PublicationRetry => "publication_retry_request_v1"
  | PresenceRender => "presence_render_request_v1"
  | PresenceRefresh => "presence_refresh_request_v1"
  end.

Definition response_model (r : RhiAdminRoute) : string :=
  match r with
  | Status => "service_status_v1"
  | EffectiveConfig => "effective_config_v1"
  | IdentityStatus => "identity_status_v1"
  | IdentityPublic => "identity_public_v1"
  | StateStatus => "state_status_v1"
  | StateBackup => "state_backup_receipt_v1"
  | MetricsSnapshot => "metrics_snapshot_v1"
  | ReconciliationStatus => "reconciliation_status_v1"
  | ReconciliationJobs => "reconciliation_jobs_page_v1"
  | ReconciliationRefresh => "reconciliation_refresh_receipt_v1"
  | Sources => "sources_page_v1"
  | TradeProjection => "trade_projection_v1"
  | TradeReportCurrent => "report_detail_v1"
  | TradeReports => "reports_page_v1"
  | PublicationBacklog => "publication_backlog_page_v1"
  | PublicationTargets => "publication_targets_page_v1"
  | PublicationRetry => "publication_retry_receipt_v1"
  | PresenceDesired => "presence_desired_v1"
  | PresenceRender => "presence_render_receipt_v1"
  | PresenceRefresh => "presence_refresh_receipt_v1"
  end.
Definition is_mutation (r : RhiAdminRoute) : bool := bool_decide (method r = Post).

Definition parameter_binding (r : RhiAdminRoute) : option (string * string) :=
  match r with
  | TradeProjection | TradeReportCurrent | TradeReports => Some ("trade_id", "trade_id")
  | _ => None
  end.

(** ** Errors *)

Inductive RhiAdminDocumentErrorKind : Type :=
| TooLarge | Malformed | DuplicateField | NullForbidden | NonCanonical | InvalidModel.

Inductive RhiAdminHandlerErrorKind : Type :=
| InvalidCursor | OperationIdConflict | NotFound | Conflict | Unavailable | Internal.

(** ** Text *)

Definition is_ascii_digit (b : Z) : bool := between 48 57 b.
Definition is_ascii_lowercase (b : Z) : bool := between 97 122 b.
Definition is_ascii_uppercase (b : Z) : bool := between 65 90 b.
Definition is_ascii_alphanumeric (b : Z) : bool :=
  is_ascii_digit b || is_ascii_lowercase b || is_ascii_uppercase b.

Definition text_len (s : string) : Z := Z.of_nat (String.length s).

(** [char::is_control]: the general category Cc *)
Definition is_control (c : Z) : bool := between 0 31 c || between 127 159 c.

(** [str::chars] *)
Definition chars (s : string) : list Z := default [] (JsonText.from_utf8 (as_bytes s)).

(** [str::split] with a delimiter of one byte *)
Fixpoint split (c : Ascii.ascii) (s : string) : list string :=
  match s with
  | EmptyString => [EmptyString]
  | String x s =>
      if Ascii.eqb x c then EmptyString :: split c s
      else match split c s with
           | [] => [String x EmptyString]
           | item :: items => String x item :: items
           end
  end.

(** [str::strip_prefix] *)
Fixpoint strip_prefix (prefix s : string) : option string :=
  match prefix, s with
  | EmptyString, _ => Some s
  | String p prefix, String x s => if Ascii.eqb p x then strip_prefix prefix s else None
  | _, _ => None
  end.

(** [str::parse] on a text of ASCII digits *)
Definition parse_digits (maximum : Z) (s : string) : option Z :=
  match as_bytes s with
  | [] => None
  | digits => try_from maximum (fold_left (λ n b, n * 10 + (b - 48)) digits 0)
  end.

(** [a < b] on texts *)
Definition str_lt (a b : string) : bool := is_lt (bytes_cmp (as_bytes a) (as_bytes b)).

(** [windows(2).all(|pair| pair[0] < pair[1])] *)
Fixpoint ascending (l : list string) : bool :=
  match l with
  | a :: ((b :: _) as l) => str_lt a b && ascending l
  | _ => true
  end.

Definition bounded_id_byte (b : Z) : bool :=
  is_ascii_alphanumeric b || (b =? 46) || (b =? 95) || (b =? 58) || (b =? 45).

Definition bounded_id (value : string) : bool :=
  between 1 128 (text_len value)
  && is_some_and is_ascii_alphanumeric (head (as_bytes value))
  && forallb bounded_id_byte (as_bytes value).

Definition safe_code (value : string) : bool :=
  between 1 64 (text_len value)
  && is_some_and is_ascii_lowercase (head (as_bytes value))
  && forallb (λ b, is_ascii_lowercase b || is_ascii_digit b || (b =? 95)) (as_bytes value).

Definition stable_id (value : string) : bool :=
  between 1 64 (text_len value)
  && is_some_and is_ascii_lowercase (head (as_bytes value))
  && forallb (λ b, is_ascii_lowercase b || is_ascii_digit b || (b =? 95) || (b =? 45))
       (as_bytes value).

Definition lower_hex (value : string) (exact : Z) : bool :=
  (text_len value =? exact)
  && forallb (λ b, is_ascii_digit b || between 97 102 b) (as_bytes value).

Definition sextet (b : Z) : option Z :=
  if between 65 90 b then Some (b - 65)
  else if between 97 122 b then Some (b - 97 + 26)
  else if between 48 57 b then Some (b - 48 + 52)
  else if b =? 45 then Some 62
  else if b =? 95 then Some 63
  else None.

Definition canonical_base64url_no_padding (value : string) : bool :=
  let bytes := as_bytes value in
  let size := (length bytes mod 4)%nat in
  if (length bytes =? 0)%nat || (size =? 1)%nat then false
  else if existsb (λ b, negb (is_some_and (λ _, true) (sextet b))) bytes then false
  else
    match list.last bytes ≫= sextet with
    | None => false
    | Some last =>
        if (size =? 0)%nat then true
        else if (size =? 2)%nat then Z.land last 15 =? 0
        else if (size =? 3)%nat then Z.land last 3 =? 0
        else false
    end.

(** ** The contract *)

(** The value of a descriptor's [kind] *)
Inductive TypeKind : Type :=
| Literal | Boolean | Integer | Text | Enum | StringUnion | Array | CanonicalDelimitedSet | Map
| ClosedObject | TaggedUnion | Alias | Optional | CanonicalJsonObject.

Definition kind_of (code : string) : option TypeKind :=
  if String.eqb code "literal" then Some Literal
  else if String.eqb code "boolean" then Some Boolean
  else if String.eqb code "integer" then Some Integer
  else if String.eqb code "string" then Some Text
  else if String.eqb code "enum" then Some Enum
  else if String.eqb code "string_union" then Some StringUnion
  else if String.eqb code "array" then Some Array
  else if String.eqb code "canonical_delimited_set" then Some CanonicalDelimitedSet
  else if String.eqb code "map" then Some Map
  else if String.eqb code "closed_object" then Some ClosedObject
  else if String.eqb code "tagged_union" then Some TaggedUnion
  else if String.eqb code "alias" then Some Alias
  else if String.eqb code "optional" then Some Optional
  else if String.eqb code "canonical_json_object" then Some CanonicalJsonObject
  else None.

(** [url::Url::parse(..)] and [Url::scheme] *)
Class UrlLibrary : Type := url_scheme : string → option string.

Notation outcome := (result RhiAdminDocumentErrorKind unit).

(** [if !condition { return invalid_model(); }] *)
Definition require (condition : bool) : outcome := reject_if (negb condition) InvalidModel.

Definition invalid_model {A} : result RhiAdminDocumentErrorKind A := Err InvalidModel.

Fixpoint for_each {A} (f : A → outcome) (l : list A) : outcome :=
  match l with
  | [] => Ok tt
  | x :: l => f x ;? for_each f l
  end.

Section contract.
Context {V : Type} `{!JsonValue V, !JsonTree V, !JsonWriter V, UrlLibrary}.

(** What [serde_json::from_str(OPERATOR_CONTRACT).ok()] yields. *)
Context (contract : option V).

Definition operator_contract : result RhiAdminDocumentErrorKind V := ok_or contract InvalidModel.

Definition model_fields (model_name : string) : result RhiAdminDocumentErrorKind (list (string * V)) :=
  let? contract := operator_contract in
  ok_or (pointer contract (String.append "/admin/models/" (String.append model_name "/fields"))
           ≫= as_object) InvalidModel.

Definition type_descriptor (type_name : string) : result RhiAdminDocumentErrorKind V :=
  let? contract := operator_contract in
  ok_or (pointer contract (String.append "/admin/types/" type_name)) InvalidModel.

(** [routes.iter().zip(RhiAdminRoute::ALL)]'s test *)
Definition route_is_exact (p : V * RhiAdminRoute) : bool :=
  let '(wire, route) := p in
  bool_decide (get_str wire "method" = Some (match method route with Get => "GET" | Post => "POST" end))
  && bool_decide (get_str wire "path" = Some (path route))
  && bool_decide (get_str wire "operation_id" = Some (operation_id route))
  && bool_decide (get_str wire "request_model" = Some (request_model route))
  && bool_decide (get_str wire "response_model" = Some (response_model route))
  && bool_decide (get_bool wire "mutation" = Some (is_mutation route)).

Definition operator_route_inventory_is_exact : bool :=
  match operator_contract with
  | Err _ => false
  | Ok contract =>
      match get contract "admin" with
      | None => false
      | Some admin =>
          match get_array admin "routes", get_object admin "models" with
          | Some routes, Some models =>
              (length routes =? length ALL)%nat && (length models =? 33)%nat
              && bool_decide (pointer admin "/model_wire_contract/response_body_max_utf8_bytes" ≫= as_u64
                              = Some RHI_ADMIN_RESPONSE_BODY_MAX_UTF8_BYTES)
              && forallb route_is_exact (zip routes ALL)
          | _, _ => false
          end
      end
  end.

(** *** Values of the flat kinds.  [usize] is 64 bits wide, so [usize::try_from] of a
    [u64] succeeds. *)

Definition validate_integer (d v : V) : outcome :=
  let? number := ok_or (as_u64 v) InvalidModel in
  require (between (default 0 (get_u64 d "minimum")) (default U64_MAX (get_u64 d "maximum")) number).

Definition valid_pattern (pattern value : string) : bool :=
  if String.eqb pattern "^[A-Za-z0-9][A-Za-z0-9._:-]*$" then bounded_id value
  else if String.eqb pattern "^[a-z][a-z0-9_]*$" then safe_code value
  else if String.eqb pattern "^[a-z][a-z0-9_-]*$" then stable_id value
  else if String.eqb pattern "^[0-9a-f]{32}$" then lower_hex value 32
  else if String.eqb pattern "^[0-9a-f]{64}$" then lower_hex value 64
  else if String.eqb pattern "^[0-9a-f]{40}$" then lower_hex value 40
  else if String.eqb pattern "^/" then String.prefix "/" value
  else false.

Definition validate_string (d v : V) : outcome :=
  let? value := ok_or (as_str v) InvalidModel in
  let exact := get_u64 d "utf8_bytes" in
  let minimum := default 0 (get_u64 d "minimum_utf8_bytes") in
  let maximum := default U64_MAX (get_u64 d "maximum_utf8_bytes") in
  reject_if
    (is_some_and (λ exact, negb (text_len value =? exact)) exact
     || negb (between minimum maximum (text_len value))
     || existsb is_control (chars value)) InvalidModel ;?
  require (is_none_or (λ pattern, valid_pattern pattern value) (get_str d "pattern")) ;?
  reject_if
    (bool_decide (get_str d "encoding" = Some "canonical_base64url_no_padding")
     && negb (canonical_base64url_no_padding value)) InvalidModel ;?
  match get_array d "allowed_schemes" with
  | None => Ok tt
  | Some schemes =>
      let? scheme := ok_or (url_scheme value) InvalidModel in
      require (existsb (λ s, bool_decide (as_str s = Some scheme)) schemes)
  end.

Definition validate_string_union (d v : V) : outcome :=
  let? value := ok_or (as_str v) InvalidModel in
  if is_some_and (existsb (λ s, bool_decide (as_str s = Some value))) (get_array d "simple_values")
  then Ok tt
  else
    let? kind := ok_or (strip_prefix "sign_event:kind:" value) InvalidModel in
    reject_if
      (String.eqb kind ""
       || ((1 <? text_len kind) && String.prefix "0" kind)
       || negb (forallb is_ascii_digit (as_bytes kind))
       || negb (is_some_and (λ _, true) (parse_digits U32_MAX kind))
       || (default 0 (get_u64 d "maximum_utf8_bytes") <? text_len value)) InvalidModel.

Definition validate_canonical_object (d v : V) : outcome :=
  reject_if
    (negb (is_object v)
     || is_none_or (λ bytes, default 0 (get_u64 d "maximum_utf8_bytes") <? Z.of_nat (length bytes))
          (to_vec v)) InvalidModel.

(** *** Values of the nested kinds; [check] is [validate_type] one level down. *)

Fixpoint unique_items (seen : list bytes) (values : list V) : outcome :=
  match values with
  | [] => Ok tt
  | item :: values =>
      let? encoded := ok_or (to_vec item) InvalidModel in
      require (negb (bool_decide (encoded ∈ seen))) ;?
      unique_items (encoded :: seen) values
  end.

Section nested.
Context (check : string → V → outcome).

Definition validate_array (d v : V) : outcome :=
  let? values := ok_or (as_array v) InvalidModel in
  reject_if (default 0 (get_u64 d "maximum_items") <? Z.of_nat (length values)) InvalidModel ;?
  let? item_type := ok_or (get_str d "items") InvalidModel in
  for_each (check item_type) values ;?
  (if bool_decide (get_bool d "unique" = Some true) then unique_items [] values else Ok tt) ;?
  match get d "canonical_sort" with
  | None => Ok tt
  | Some _ =>
      let? rendered := collect (λ v, ok_or (as_str v) InvalidModel) values in
      require (ascending rendered)
  end.

Definition validate_delimited_set (d v : V) : outcome :=
  let? rendered := ok_or (as_str v) InvalidModel in
  reject_if (default 0 (get_u64 d "maximum_utf8_bytes") <? text_len rendered) InvalidModel ;?
  if String.eqb rendered "" then require (bool_decide (get_bool d "empty_allowed" = Some true))
  else
    let? delimiter :=
      match get_str d "delimiter" with
      | Some (String c EmptyString) => Ok c
      | _ => invalid_model
      end in
    let items := split delimiter rendered in
    reject_if
      ((length items =? 0)%nat
       || (default 0 (get_u64 d "maximum_items") <? Z.of_nat (length items))
       || existsb (λ item, String.eqb item "") items
       || negb (ascending items)) InvalidModel ;?
    let? item_type := ok_or (get_str d "items") InvalidModel in
    for_each (λ item, check item_type (json_string item)) items.

Definition validate_map (d v : V) : outcome :=
  let? values := ok_or (as_object v) InvalidModel in
  reject_if (default 0 (get_u64 d "maximum_entries") <? Z.of_nat (length values)) InvalidModel ;?
  let? key_type := ok_or (get_str d "key") InvalidModel in
  let? value_type := ok_or (get_str d "value") InvalidModel in
  for_each (λ '(key, value), check key_type (json_string key) ;? check value_type value) values.

Definition validate_closed_field (values : list (string * V)) (field : string * V) : outcome :=
  let? type_name := ok_or (as_str field.2) InvalidModel in
  match map_get field.1 values with
  | Some value => check type_name value
  | None =>
      let? descriptor := type_descriptor type_name in
      require (bool_decide (get_str descriptor "kind" = Some "optional"))
  end.

Definition validate_closed_object (d v : V) : outcome :=
  let? values := ok_or (as_object v) InvalidModel in
  let? fields := ok_or (get_object d "fields") InvalidModel in
  reject_if (existsb (λ key, negb (map_contains key fields)) values.*1) InvalidModel ;?
  for_each (validate_closed_field values) fields.

Definition variant_matches (discriminator : string) (selected : V) (variant : string) :
    result RhiAdminDocumentErrorKind bool :=
  let? descriptor := type_descriptor variant in
  let? fields := ok_or (get_object descriptor "fields") InvalidModel in
  let? discriminator_type := ok_or (map_get discriminator fields ≫= as_str) InvalidModel in
  let? d := type_descriptor discriminator_type in
  Ok (is_some_and (λ v, value_eqb v selected) (get d "value")).

Fixpoint matched_variant (discriminator : string) (selected : V) (matched : option string)
    (variants : list V) : result RhiAdminDocumentErrorKind (option string) :=
  match variants with
  | [] => Ok matched
  | variant :: variants =>
      let? variant := ok_or (as_str variant) InvalidModel in
      let? matches := variant_matches discriminator selected variant in
      if matches then
        match matched with
        | Some _ => invalid_model
        | None => matched_variant discriminator selected (Some variant) variants
        end
      else matched_variant discriminator selected matched variants
  end.

Definition validate_tagged_union (d v : V) : outcome :=
  let? object := ok_or (as_object v) InvalidModel in
  let? discriminator := ok_or (get_str d "discriminator") InvalidModel in
  let? selected := ok_or (map_get discriminator object) InvalidModel in
  let? variants := ok_or (get_array d "variants") InvalidModel in
  let? matched := matched_variant discriminator selected None variants in
  let? matched := ok_or matched InvalidModel in
  check matched v.

Definition validate_kind (kind : option TypeKind) (d v : V) : outcome :=
  match kind with
  | Some Literal => require (is_some_and (λ x, value_eqb x v) (get d "value"))
  | Some Boolean => require (is_boolean v)
  | Some Integer => validate_integer d v
  | Some Text => validate_string d v
  | Some Enum => require (is_some_and (existsb (λ x, value_eqb x v)) (get_array d "values"))
  | Some StringUnion => validate_string_union d v
  | Some Array => validate_array d v
  | Some CanonicalDelimitedSet => validate_delimited_set d v
  | Some Map => validate_map d v
  | Some ClosedObject => validate_closed_object d v
  | Some TaggedUnion => validate_tagged_union d v
  | Some Alias => let? target := ok_or (get_str d "target") InvalidModel in check target v
  | Some Optional => let? value := ok_or (get_str d "value") InvalidModel in check value v
  | Some CanonicalJsonObject => validate_canonical_object d v
  | None => invalid_model
  end.
End nested.

(** [depth > 24 || value.is_null()]; the recursion ends at depth 25, so [type_fuel]
    rounds are enough from depth 0 ([validate_type_rounds]). *)
Fixpoint validate_type (fuel : nat) (type_name : string) (v : V) (depth : nat) : outcome :=
  match fuel with
  | O => invalid_model
  | S fuel =>
      if (24 <? depth)%nat || is_null_value v then
        Err (if is_null_value v then NullForbidden else InvalidModel)
      else
        let? descriptor := type_descriptor type_name in
        validate_kind (λ name v, validate_type fuel name v (depth + 1))
          (get_str descriptor "kind" ≫= kind_of) descriptor v
  end.

Definition type_fuel : nat := 26.

Definition validate_field (object : list (string * V)) (field : string * V) : outcome :=
  let required := bool_decide (get_str field.2 "presence" = Some "required") in
  let? type_name := ok_or (get_str field.2 "type") InvalidModel in
  match map_get field.1 object with
  | Some value => validate_type type_fuel type_name value 0
  | None => if required then invalid_model else Ok tt
  end.

Definition validate_model (model_name : string) (v : V) : outcome :=
  let? object := ok_or (as_object v) InvalidModel in
  let? fields := model_fields model_name in
  for_each (λ key, require (map_contains key fields)) object.*1 ;?
  for_each (validate_field object) fields.
End contract.
End Admin.
