(* ===== verification/Base64Url.v ===== *)
(** * Reference base64url without padding (RFC 4648, section 5)

    The encoding that [canonical_base64url_no_padding] of [src/src/admin_v1.rs] is
    compared with, and an instance of the [base64] crate's [URL_SAFE_NO_PAD] engine for
    the cursors of [src/src/runtime_admin.rs]. *)

From Stdlib Require Import ZArith Lia.
From stdpp Require Import list strings.
From S2P Require Import Prelude Admin.

Module Base64Url.

Definition is_byte (b : Z) : Prop := 0 ≤ b < 256.
Definition is_sextet (n : Z) : Prop := 0 ≤ n < 64.

(** Three bytes are four sextets; the unused bits of a last group are zero. *)
Fixpoint pack (l : bytes) : list Z :=
  match l with
  | [] => []
  | [a] => [a / 4; a mod 4 * 16]
  | [a; b] => [a / 4; a mod 4 * 16 + b / 16; b mod 16 * 4]
  | a :: b :: c :: l => a / 4 :: a mod 4 * 16 + b / 16 :: b mod 16 * 4 + c / 64 :: c mod 64 :: pack l
  end.

Fixpoint unpack (l : list Z) : option bytes :=
  match l with
  | [] => Some []
  | [_] => None
  | [p; q] => if q mod 16 =? 0 then Some [p * 4 + q / 16] else None
  | [p; q; r] => if r mod 4 =? 0 then Some [p * 4 + q / 16; q mod 16 * 16 + r / 4] else None
  | p :: q :: r :: s :: l =>
      l ← unpack l; Some (p * 4 + q / 16 :: q mod 16 * 16 + r / 4 :: r mod 4 * 64 + s :: l)
  end.

Definition alphabet (n : Z) : Z :=
  if n <? 26 then 65 + n
  else if n <? 52 then 97 + (n - 26)
  else if n <? 62 then 48 + (n - 52)
  else if n =? 62 then 45 else 95.

Definition encode (l : bytes) : bytes := map alphabet (pack l).

Definition decode (l : bytes) : option bytes := mapM Admin.sextet l ≫= unpack.

(** ** The alphabet *)

(** Ranges that were not met, as arithmetic. *)
Ltac split_bool :=
  repeat match goal with
  | H : (_ && _) = false |- _ => apply andb_false_iff in H as [H|H]; to_prop
  end.

Lemma sextet_alphabet n : is_sextet n → Admin.sextet (alphabet n) = Some n.
Proof.
  unfold is_sextet, alphabet, Admin.sextet, between. intros Hn.
  repeat case_match; to_prop; simplify_eq; try (f_equal; lia); try lia; split_bool; lia.
Qed.

Lemma sextet_Some b n : Admin.sextet b = Some n → is_sextet n ∧ b = alphabet n.
Proof.
  unfold is_sextet, alphabet, Admin.sextet, between. intros Hs.
  repeat case_match; to_prop; simplify_eq; split; lia.
Qed.

Lemma mapM_sextet l vs :
  mapM Admin.sextet l = Some vs ↔ Forall is_sextet vs ∧ l = map alphabet vs.
Proof.
  rewrite mapM_Some. split.
  - induction 1 as [|b n l vs Hb _ [IH1 IH2]]; [done|]. apply sextet_Some in Hb as [? ->].
    split; [by constructor|]. simpl. by f_equal.
  - intros [Hvs ->]. induction Hvs as [|n vs Hn _ IH]; simpl; constructor; [|done].
    by apply sextet_alphabet.
Qed.

(** ** Packing *)

(** Induction in groups of [k] elements. *)
Lemma list_ind4 {A} (P : list A → Prop) :
  P [] → (∀ a, P [a]) → (∀ a b, P [a; b]) → (∀ a b c, P [a; b; c]) →
  (∀ a b c d l, P l → P (a :: b :: c :: d :: l)) → ∀ l, P l.
Proof.
  intros H0 H1 H2 H3 H4. fix IH 1. intros [|a [|b [|c [|d l]]]]; [done..|apply H4, IH].
Qed.

Lemma list_ind3 {A} (P : list A → Prop) :
  P [] → (∀ a, P [a]) → (∀ a b, P [a; b]) → (∀ a b c l, P l → P (a :: b :: c :: l)) → ∀ l, P l.
Proof. intros H0 H1 H2 H3. fix IH 1. intros [|a [|b [|c l]]]; [done..|apply H3, IH]. Qed.

Ltac arith := unfold is_sextet, is_byte in *; Z.div_mod_to_equations; lia.

Lemma pack_sextets l : Forall is_byte l → Forall is_sextet (pack l).
Proof.
  induction l as [|a|a b|a b c l IH] using list_ind3; simpl; intros Hl;
    decompose_Forall; repeat constructor; auto; arith.
Qed.

Lemma unpack_pack l : Forall is_byte l → unpack (pack l) = Some l.
Proof.
  induction l as [|a|a b|a b c l IH] using list_ind3; intros Hl; decompose_Forall; [done|..].
  - simpl. destruct (Z.eqb_spec (a mod 4 * 16 mod 16) 0); [|exfalso; arith]. do 2 f_equal. arith.
  - simpl. destruct (Z.eqb_spec (b mod 16 * 4 mod 4) 0); [|exfalso; arith].
    do 2 f_equal; [|f_equal]; arith.
  - cbn [pack unpack]. rewrite IH by done. simpl. do 2 f_equal; [|f_equal; [|f_equal]]; arith.
Qed.

Lemma unpack_Some vs l :
  Forall is_sextet vs → unpack vs = Some l → Forall is_byte l ∧ pack l = vs.
Proof.
  revert l; induction vs as [|a|a b|a b c|p q r s vs IH] using list_ind4; intros l Hvs Hl;
    simpl in Hl; decompose_Forall; [by simplify_eq|..].
  - case_match; simplify_eq; to_prop. split; [repeat constructor; arith|].
    simpl. f_equal; [|f_equal]; arith.
  - case_match; simplify_eq; to_prop. split; [repeat constructor; arith|].
    simpl. f_equal; [|f_equal; [|f_equal]]; arith.
  - apply bind_Some in Hl as (x & Hx & [= <-]).
    destruct (IH x) as [Hb <-]; [done..|]. split; [repeat constructor; auto; arith|].
    simpl. f_equal; [|f_equal; [|f_equal; [|f_equal]]]; arith.
Qed.

(** ** The codec *)

Lemma decode_encode l : Forall is_byte l → decode (encode l) = Some l.
Proof.
  intros Hl. unfold decode, encode.
  rewrite (proj2 (mapM_sextet _ (pack l))); [|split; [by apply pack_sextets|done]].
  by apply unpack_pack.
Qed.

Lemma decode_Some l k : decode l = Some k ↔ Forall is_byte k ∧ l = encode k.
Proof.
  unfold decode. split.
  - intros (vs & Hk & Hvs)%bind_Some. apply mapM_sextet in Hk as [Hvs' ->].
    destruct (unpack_Some vs k) as [Hb Hp]; [done..|]. unfold encode. by rewrite Hp.
  - intros [Hk ->]. by apply decode_encode.
Qed.
End Base64Url.
