(* ===== verification/AdminRequest.v ===== *)
(** * The administration boundary: [src/src/admin_v1.rs], second part

    Request documents admitted from a query or a mutation envelope, response documents
    admitted only in canonical form, and the dispatch between the shared host and the
    domain handler.  Percent decoding indexes its input, so a panic is a value here. *)

From Stdlib Require Import Ascii.
From stdpp Require Import list strings.
From S2P Require Import Prelude Interfaces JsonTree JsonText Admin.

Module AdminRequest.
Import Admin.

(** ** Code that may panic: [None] is a panic *)

Definition bind_result {E A B} (c : option (result E A)) (k : A → option (result E B)) :
    option (result E B) :=
  match c with
  | None => None
  | Some (Err e) => Some (Err e)
  | Some (Ok a) => k a
  end.

Notation "'let!' x ':=' c 'in' k" := (bind_result c (λ x, k))
  (at level 10, x pattern, k at level 200).

Definition lift {E A} (c : result E A) : option (result E A) := Some c.

(** ** Percent encoding *)

Definition hex_nibble (b : Z) : option Z :=
  if between 48 57 b then Some (b - 48)
  else if between 97 102 b then Some (b - 97 + 10)
  else if between 65 70 b then Some (b - 65 + 10)
  else None.

Definition is_ascii_hexdigit (b : Z) : bool := is_some_and (λ _, true) (hex_nibble b).

(** The loop from [index] on; [bytes[index + 1]] and [bytes[index + 2]] panic when
    they are out of range. *)
Fixpoint decode_from (l decoded : bytes) : option (result RhiAdminDocumentErrorKind bytes) :=
  match l with
  | [] => Some (Ok decoded)
  | b :: l =>
      if b =? 37 then
        match l with
        | [] => None
        | h :: l =>
            match hex_nibble h with
            | None => Some invalid_model
            | Some high =>
                match l with
                | [] => None
                | h :: l =>
                    match hex_nibble h with
                    | None => Some invalid_model
                    | Some low => decode_from l (decoded ++ [Z.lor (Z.shiftl high 4) low])
                    end
                end
            end
        end
      else if b =? 43 then decode_from l (decoded ++ [32])
      else decode_from l (decoded ++ [b])
  end.

(** [String::from_utf8] *)
Fixpoint text_of (l : bytes) : string :=
  match l with
  | [] => EmptyString
  | b :: l => String (Ascii.ascii_of_N (Z.to_N b)) (text_of l)
  end.

Definition string_from_utf8 (l : bytes) : result RhiAdminDocumentErrorKind string :=
  match JsonText.from_utf8 l with Some _ => Ok (text_of l) | None => invalid_model end.

Definition percent_decode (value : string) : option (result RhiAdminDocumentErrorKind string) :=
  let! decoded := decode_from (as_bytes value) [] in
  lift (string_from_utf8 decoded).

Fixpoint valid_from (l : bytes) : bool :=
  match l with
  | [] => true
  | b :: l =>
      if b =? 37 then
        match l with
        | high :: low :: l => is_ascii_hexdigit high && is_ascii_hexdigit low && valid_from l
        | _ => false
        end
      else valid_from l
  end.

Definition valid_percent_encoding (value : string) : bool := valid_from (as_bytes value).

(** [str::split_once] with a delimiter of one byte *)
Fixpoint split_once (c : Ascii.ascii) (s : string) : option (string * string) :=
  match s with
  | EmptyString => None
  | String x s =>
      if Ascii.eqb x c then Some (EmptyString, s)
      else '(key, value) ← split_once c s; Some (String x key, value)
  end.

(** ** Documents *)

Record RhiAdminRequestDocument : Type := MkRequest {
  rq_route : RhiAdminRoute;
  rq_operation_id : option string;
  rq_correlation_id : string;
  rq_parameter : option (string * string);
  rq_model_bytes : bytes;
}.

(** [RhiAdminRequestDocument::parameter] *)
Definition parameter (r : RhiAdminRequestDocument) (name : string) : option string :=
  snd <$> filter_opt (λ p, String.eqb p.1 name) (rq_parameter r).

Record RhiAdminResponseDocument (V : Type) : Type := MkResponse {
  rs_route : RhiAdminRoute;
  rs_canonical_bytes : bytes;
  rs_value : V;
}.
Arguments MkResponse {V} _ _ _.
Arguments rs_route {V} _.
Arguments rs_canonical_bytes {V} _.
Arguments rs_value {V} _.

(** ** Strict JSON *)

Definition DUPLICATE_MARKER : string := "rhi_admin_duplicate_field".
Definition NULL_MARKER : string := "rhi_admin_null_forbidden".

(** What [serde_json]'s deserializer offers a visitor, in order; an ending [Some text]
    of an array or object, and [RawError], are errors by their rendered text. *)
Inductive raw (V : Type) : Type :=
| RawNull
| RawBool (b : bool)
| RawNumber (n : V)
| RawNotFinite
| RawString (s : string)
| RawSeq (items : list (raw V)) (ending : option string)
| RawMap (entries : list (string * raw V)) (ending : option string)
| RawError (rendered : string).
Arguments RawNull {V}.
Arguments RawBool {V} _.
Arguments RawNumber {V} _.
Arguments RawNotFinite {V}.
Arguments RawString {V} _.
Arguments RawSeq {V} _ _.
Arguments RawMap {V} _ _.
Arguments RawError {V} _.

Class StrictReader (V : Type) : Type := {
  (** [Deserializer::from_slice] *)
  raw_value : bytes → raw V;
  (** [Deserializer::end] succeeds *)
  raw_end : bytes → bool;
}.

Section documents.
Context {V : Type} `{!JsonValue V, !JsonTree V, !JsonWriter V, !StrictReader V, UrlLibrary}.
Context (contract : option V).

Definition ended {A} (ending : option string) (a : A) : result string A :=
  match ending with None => Ok a | Some rendered => Err rendered end.

(** [StrictValueVisitor] *)
Fixpoint strict_value (r : raw V) : result string V :=
  match r with
  | RawNull => Err NULL_MARKER
  | RawBool b => Ok (json_bool b)
  | RawNumber n => Ok n
  | RawNotFinite => Err "invalid JSON number"
  | RawString s => Ok (json_string s)
  | RawSeq items ending =>
      let? values :=
        (fix visit_seq (items : list (raw V)) : result string (list V) :=
           match items with
           | [] => ended ending []
           | r :: items =>
               let? value := strict_value r in
               let? values := visit_seq items in
               Ok (value :: values)
           end) items in
      Ok (json_array values)
  | RawMap entries ending =>
      let? values :=
        (fix visit_map (values : list (string * V)) (entries : list (string * raw V)) :
             result string (list (string * V)) :=
           match entries with
           | [] => ended ending values
           | (key, r) :: entries =>
               reject_if (map_contains key values) DUPLICATE_MARKER ;?
               let? value := strict_value r in
               visit_map (values ++ [(key, value)]) entries
           end) [] entries in
      Ok (json_object values)
  | RawError rendered => Err rendered
  end.

Fixpoint contains (needle text : string) : bool :=
  String.prefix needle text
  || match text with EmptyString => false | String _ text => contains needle text end.

Definition classify (message : string) : RhiAdminDocumentErrorKind :=
  if contains DUPLICATE_MARKER message then DuplicateField
  else if contains NULL_MARKER message then NullForbidden
  else Malformed.

Definition strict_json (l : bytes) : result RhiAdminDocumentErrorKind V :=
  let? value := map_err classify (strict_value (raw_value l)) in
  reject_if (negb (raw_end l)) Malformed ;?
  Ok value.

(** ** Responses *)

Definition from_canonical_bytes (route : RhiAdminRoute) (l : bytes) :
    result RhiAdminDocumentErrorKind (RhiAdminResponseDocument V) :=
  reject_if (length l =? 0)%nat Malformed ;?
  reject_if (RHI_ADMIN_RESPONSE_BODY_MAX_UTF8_BYTES <? Z.of_nat (length l)) TooLarge ;?
  let? value := strict_json l in
  validate_model contract (response_model route) value ;?
  let? canonical := ok_or (to_vec value) Malformed in
  reject_if (negb (bool_decide (canonical = l))) NonCanonical ;?
  Ok (MkResponse route canonical value).

Definition admit_admin_response_value (route : RhiAdminRoute) (value : V) :
    result RhiAdminDocumentErrorKind bytes :=
  let? l := ok_or (to_vec value) Malformed in
  let? document := from_canonical_bytes route l in
  Ok (rs_canonical_bytes document).

(** ** Queries *)

Definition canonical_integer (value : string) : bool :=
  String.eqb value "0"
  || (is_some_and is_ascii_digit (head (as_bytes value))
      && negb (String.prefix "0" value)
      && forallb is_ascii_digit (as_bytes value)).

Definition query_scalar (type_name value : string) : result RhiAdminDocumentErrorKind V :=
  let? descriptor := type_descriptor contract type_name in
  match get_str descriptor "kind" with
  | Some kind =>
      if String.eqb kind "integer" then
        reject_if (negb (canonical_integer value)) InvalidModel ;?
        let? n := ok_or (parse_digits U64_MAX value) InvalidModel in
        Ok (json_u64 n)
      else if String.eqb kind "boolean" then
        if String.eqb value "true" then Ok (json_bool true)
        else if String.eqb value "false" then Ok (json_bool false)
        else invalid_model
      else Ok (json_string value)
  | None => Ok (json_string value)
  end.

(** One round of the loop over [query.split('&')] *)
Definition query_item (fields : list (string * V)) (output : list (string * V)) (item : string) :
    option (result RhiAdminDocumentErrorKind (list (string * V))) :=
  let! (raw_key, raw_value) := lift (ok_or (split_once "="%char item) InvalidModel) in
  let! _ :=
    lift (reject_if (String.eqb raw_key "" || negb (valid_percent_encoding raw_key)
                     || negb (valid_percent_encoding raw_value)) InvalidModel) in
  let! key := percent_decode raw_key in
  let! value := percent_decode raw_value in
  let! _ := lift (reject_if (map_contains key output) DuplicateField) in
  let! descriptor := lift (ok_or (map_get key fields) InvalidModel) in
  let! type_name := lift (ok_or (get_str descriptor "type") InvalidModel) in
  let! scalar := lift (query_scalar type_name value) in
  lift (Ok (output ++ [(key, scalar)])).

Fixpoint query_items (fields output : list (string * V)) (items : list string) :
    option (result RhiAdminDocumentErrorKind (list (string * V))) :=
  match items with
  | [] => Some (Ok output)
  | item :: items => let! output := query_item fields output item in query_items fields output items
  end.

Definition query_model (route : RhiAdminRoute) (query : option string) :
    option (result RhiAdminDocumentErrorKind V) :=
  match query with
  | None => Some (Ok (json_object []))
  | Some query =>
      let! _ := lift (reject_if (String.eqb query "") InvalidModel) in
      let! fields := lift (model_fields contract (request_model route)) in
      let! output := query_items fields [] (split "&"%char query) in
      lift (Ok (json_object output))
  end.

(** ** Requests and their dispatch *)

(** [AdminRequest] of the shared host: its query, decoded path parameters,
    correlation id and mutation envelope, and the encoding of a success. *)
Record AdminRequest (O : Type) : Type := MkAdminRequest {
  ar_query : option string;
  ar_parameter : string → option string;
  ar_correlation_id : string;
  ar_mutation : option (string * V);
  ar_success : V → option O;
}.
Arguments ar_query {O} _.
Arguments ar_parameter {O} _ _.
Arguments ar_correlation_id {O} _.
Arguments ar_mutation {O} _.
Arguments ar_success {O} _ _.

Definition request_model_value {O} (route : RhiAdminRoute) (request : AdminRequest O) :
    option (result RhiAdminDocumentErrorKind (option string * V)) :=
  match method route with
  | Get => let! value := query_model route (ar_query request) in lift (Ok (None, value))
  | Post =>
      lift (let? (operation_id, value) := ok_or (ar_mutation request) Malformed in
            Ok (Some operation_id, value))
  end.

Definition request_parameter {O} (route : RhiAdminRoute) (request : AdminRequest O) :
    result RhiAdminDocumentErrorKind (option (string * string)) :=
  match parameter_binding route with
  | None => Ok None
  | Some (name, type_name) =>
      let? value := ok_or (ar_parameter request name) InvalidModel in
      validate_type contract type_fuel type_name (json_string value) 0 ;?
      Ok (Some (name, value))
  end.

Definition request_document {O} (route : RhiAdminRoute) (request : AdminRequest O) :
    option (result RhiAdminDocumentErrorKind RhiAdminRequestDocument) :=
  let! (operation_id, value) := request_model_value route request in
  lift
    (validate_model contract (request_model route) value ;?
     let? model_bytes := ok_or (to_vec value) Malformed in
     let? parameter := request_parameter route request in
     Ok (MkRequest route operation_id (ar_correlation_id request) parameter model_bytes)).

Inductive AdminRouteFailureStatus : Type :=
| BadRequest | StatusConflict | StatusNotFound | StatusUnavailable | StatusInternal.

Inductive AdminRouteOutcome (O : Type) : Type :=
| OutcomeSuccess (o : O)
| OutcomeFailure (status : AdminRouteFailureStatus) (code message : string).
Arguments OutcomeSuccess {O} _.
Arguments OutcomeFailure {O} _ _ _.

(** The fixed codes and messages satisfy the host's syntax, so [expect] does not panic. *)
Definition failure {O} (kind : RhiAdminHandlerErrorKind) (invalid_request : bool) : AdminRouteOutcome O :=
  if invalid_request then
    OutcomeFailure BadRequest "invalid_request" "admin request does not match the route model"
  else
    match kind with
    | InvalidCursor =>
        OutcomeFailure BadRequest "invalid_cursor" "admin pagination cursor is invalid"
    | OperationIdConflict =>
        OutcomeFailure StatusConflict "operation_id_conflict"
          "admin operation identity conflicts with retained state"
    | NotFound => OutcomeFailure StatusNotFound "not_found" "admin resource was not found"
    | Conflict =>
        OutcomeFailure StatusConflict "operation_conflict"
          "admin operation conflicts with current state"
    | Unavailable =>
        OutcomeFailure StatusUnavailable "service_unavailable"
          "admin operation is temporarily unavailable"
    | Internal => OutcomeFailure StatusInternal "internal_error" "admin operation failed internally"
    end.

(** [handle] is the injected handler, over the world it changes. *)
Definition dispatch_route {O W} (route : RhiAdminRoute)
    (handle : RhiAdminRequestDocument → W → result RhiAdminHandlerErrorKind (RhiAdminResponseDocument V) * W)
    (request : AdminRequest O) (w : W) : option (AdminRouteOutcome O * W) :=
  match request_document route request with
  | None => None
  | Some (Err _) => Some (failure Conflict true, w)
  | Some (Ok document) =>
      let '(answer, w) := handle document w in
      Some
        (match answer with
         | Ok response =>
             if bool_decide (rs_route response = route) then
               match ar_success request (rs_value response) with
               | Some o => OutcomeSuccess o
               | None => failure Internal false
               end
             else failure Internal false
         | Err kind => failure kind false
         end, w)
  end.
End documents.

Arguments OutcomeSuccess {O} _.
Arguments OutcomeFailure {O} _ _ _.
Arguments AdminRequest : clear implicits.
Arguments MkAdminRequest {V O} _ _ _ _ _.
Arguments ar_query {V O} _.
Arguments ar_parameter {V O} _ _.
Arguments ar_correlation_id {V O} _.
Arguments ar_mutation {V O} _.
Arguments ar_success {V O} _ _.
End AdminRequest.
