(* ===== verification/AdminSafety.v ===== *)
(** * Correctness of document admission

    What a value must be to pass the validator of [Admin], stated without its order of
    checks; the depth bound of the validation; and the canonical base64url texts. *)

From Stdlib Require Import ZArith Lia.
From stdpp Require Import list strings sets.
From S2P Require Import Prelude Interfaces JsonTree JsonText Admin Base64Url.

Module AdminSafety.
Import Admin.

(** ** Small computations *)

Lemma outcome_unit (c : outcome) u : c = Ok u → c = Ok tt.
Proof. by destruct u. Qed.

Lemma require_Ok b : require b = Ok tt ↔ b = true.
Proof. unfold require. rewrite reject_if_Ok. by rewrite negb_false_iff. Qed.

Lemma seq_Ok (c k : outcome) : (c ;? k) = Ok tt ↔ c = Ok tt ∧ k = Ok tt.
Proof. destruct c as [[]|]; simpl; naive_solver. Qed.

Lemma reject_Ok b : reject_if b InvalidModel = Ok tt ↔ b = false.
Proof. apply reject_if_Ok. Qed.

Lemma for_each_Ok {A} (f : A → outcome) l : for_each f l = Ok tt ↔ Forall (λ x, f x = Ok tt) l.
Proof.
  induction l as [|x l IH]; simpl; [by split; [constructor|]|].
  rewrite seq_Ok, IH, Forall_cons_iff. done.
Qed.

Lemma bind_outcome {A} (c : result RhiAdminDocumentErrorKind A) (k : A → outcome) :
  and_then c k = Ok tt ↔ ∃ a, c = Ok a ∧ k a = Ok tt.
Proof. apply and_then_Ok. Qed.

Lemma existsb_false {A} (p : A → bool) l : existsb p l = false ↔ Forall (λ x, p x = false) l.
Proof.
  induction l as [|x l IH]; simpl; [by split; [constructor|]|].
  by rewrite orb_false_iff, IH, Forall_cons_iff.
Qed.

(** ** Canonical base64url *)

(** The checks on the sextets of a text. *)
Definition canonical_sextets (vs : list Z) : bool :=
  match (length vs mod 4)%nat with
  | 0%nat => true
  | 2%nat => is_some_and (λ n, Z.land n 15 =? 0) (list.last vs)
  | 3%nat => is_some_and (λ n, Z.land n 3 =? 0) (list.last vs)
  | _ => false
  end.

Lemma canonical_sextets_group p q r s vs :
  canonical_sextets (p :: q :: r :: s :: vs) = canonical_sextets vs.
Proof.
  unfold canonical_sextets. simpl length.
  replace (S (S (S (S (length vs))))) with (length vs + 1 * 4)%nat by lia.
  rewrite Nat.Div0.mod_add. by destruct vs.
Qed.

Lemma unpack_is_Some vs :
  Forall Base64Url.is_sextet vs → is_Some (Base64Url.unpack vs) ↔ canonical_sextets vs = true.
Proof.
  induction vs as [|a|a b|a b c|p q r s vs IH] using Base64Url.list_ind4; intros Hvs.
  - by split; [|eexists].
  - by split; [intros [??]|].
  - unfold canonical_sextets. simpl. change 15 with (Z.ones 4). rewrite Z.land_ones by lia.
    change (2 ^ 4) with 16. destruct (b mod 16 =? 0); split; naive_solver.
  - unfold canonical_sextets. simpl. change 3 with (Z.ones 2). rewrite Z.land_ones by lia.
    change (2 ^ 2) with 4. destruct (c mod 4 =? 0); split; naive_solver.
  - rewrite canonical_sextets_group. simpl.
    rewrite <- IH by (decompose_Forall; done).
    destruct (Base64Url.unpack vs); simpl; split; intros [? ?]; naive_solver.
Qed.

#[local] Arguments Nat.modulo : simpl never.

Lemma canonical_text s :
  canonical_base64url_no_padding s = true ↔
  ∃ vs, vs ≠ [] ∧ Forall Base64Url.is_sextet vs ∧ as_bytes s = map Base64Url.alphabet vs ∧
    canonical_sextets vs = true.
Proof.
  unfold canonical_base64url_no_padding. generalize (as_bytes s) as l. intros l. split.
  - intros Hc. case_match eqn:Hsize; [done|]. to_prop. case_match eqn:Hall; [done|].
    apply existsb_false in Hall.
    assert (∃ vs, mapM sextet l = Some vs) as [vs Hvs].
    { apply mapM_is_Some. eapply Forall_impl; [|exact Hall]. intros b Hb. cbv beta in *.
      unfold compose. destruct (sextet b); [by eexists|done]. }
    pose proof Hvs as Hmap. apply Base64Url.mapM_sextet in Hmap as [Hs ->].
    assert (length (map Base64Url.alphabet vs) = length vs) as Hlen by apply length_map.
    exists vs. split_and!; [|done..|].
    + intros ->. done.
    + unfold canonical_sextets. rewrite <- Hlen.
      destruct (list.last vs) as [n|] eqn:Hlast; [|by apply last_None in Hlast as ->].
      assert (list.last (map Base64Url.alphabet vs) ≫= sextet = Some n) as Hn.
      { apply last_Some in Hlast as [vs' ->]. rewrite map_app. simpl. rewrite last_snoc. simpl.
        apply Base64Url.sextet_alphabet. decompose_Forall. done. }
      rewrite Hn in Hc. simpl.
      destruct (length (map Base64Url.alphabet vs) mod 4)%nat as [|[|[|[|?]]]]; done.
  - intros (vs & Hne & Hs & -> & Hc). unfold canonical_sextets in Hc. rewrite length_map.
    destruct vs as [|v vs] using rev_ind; [done|]. clear IHvs.
    rewrite last_snoc in Hc. rewrite map_app. simpl. rewrite last_snoc. simpl.
    assert (sextet (Base64Url.alphabet v) = Some v) as -> by
      (apply Base64Url.sextet_alphabet; by decompose_Forall).
    assert (existsb (λ b, negb (is_some_and (λ _, true) (sextet b)))
              (map Base64Url.alphabet vs ++ [Base64Url.alphabet v]) = false) as Hall.
    { apply existsb_false. change [Base64Url.alphabet v] with (map Base64Url.alphabet [v]).
      rewrite <- map_app.
      apply Forall_map. eapply Forall_impl; [|exact Hs]. intros n Hn. simpl.
      by rewrite Base64Url.sextet_alphabet. }
    rewrite Hall. rewrite length_app in *. simpl in *.
    replace (length vs + 1 =? 0)%nat with false by (symmetry; apply Nat.eqb_neq; lia).
    destruct ((length vs + 1) mod 4)%nat as [|[|[|[|?]]]]; simpl in *; done.
Qed.

Lemma canonical_base64url_iff (s : string) :
  canonical_base64url_no_padding s = true ↔
  ∃ l, l ≠ [] ∧ Forall Base64Url.is_byte l ∧ as_bytes s = Base64Url.encode l.
Proof.
  rewrite canonical_text. split.
  - intros (vs & Hne & Hs & Htext & Hc). apply unpack_is_Some in Hc as [l Hl]; [|done].
    destruct (Base64Url.unpack_Some vs l) as [Hb Hp]; [done..|]. exists l.
    split_and!; [|done|]; [|unfold Base64Url.encode; by rewrite Hp].
    intros ->. by subst vs.
  - intros (l & Hne & Hb & Htext). exists (Base64Url.pack l).
    pose proof (Base64Url.pack_sextets l Hb) as Hs. split_and!; [|done|done|].
    + destruct l as [|a [|b [|c l]]]; done.
    + apply unpack_is_Some; [done|]. by rewrite Base64Url.unpack_pack.
Qed.

(** The validator's test for canonical base64url is exact: it accepts a text exactly
    when the text is the unpadded base64url encoding of a non-empty byte string, so two
    accepted texts that decode to the same bytes are equal. *)
Theorem base64url_test_is_exact (s : string) :
  canonical_base64url_no_padding s = true ↔
  ∃ l, l ≠ [] ∧ Forall Base64Url.is_byte l ∧ as_bytes s = Base64Url.encode l.
Proof. apply canonical_base64url_iff. Qed.

(** ** What it is to have a type of the contract *)

Section types.
Context {V : Type} `{!JsonValue V, !JsonTree V, !JsonWriter V, UrlLibrary}.
Context (contract : option V).

Definition at_most (d : V) (limit : string) (n : Z) : Prop := n ≤ default 0 (get_u64 d limit).

Record text_of_type (d : V) (value : string) : Prop := {
  tt_exact : ∀ n, get_u64 d "utf8_bytes" = Some n → text_len value = n;
  tt_minimum : default 0 (get_u64 d "minimum_utf8_bytes") ≤ text_len value;
  tt_maximum : text_len value ≤ default U64_MAX (get_u64 d "maximum_utf8_bytes");
  tt_no_control : Forall (λ c, is_control c = false) (chars value);
  tt_pattern : ∀ pattern, get_str d "pattern" = Some pattern → valid_pattern pattern value = true;
  tt_encoding : get_str d "encoding" = Some "canonical_base64url_no_padding" →
    ∃ l, l ≠ [] ∧ Forall Base64Url.is_byte l ∧ as_bytes value = Base64Url.encode l;
  tt_scheme : ∀ schemes, get_array d "allowed_schemes" = Some schemes →
    ∃ scheme s, url_scheme value = Some scheme ∧ s ∈ schemes ∧ as_str s = Some scheme;
}.

(** The number after [sign_event:kind:], a [u32] in canonical decimal *)
Definition kind_number (kind : string) : Prop :=
  kind ≠ EmptyString ∧ (text_len kind = 1 ∨ String.prefix "0" kind = false) ∧
  Forall (λ b, is_ascii_digit b = true) (as_bytes kind) ∧ is_Some (parse_digits U32_MAX kind).

Section kinds.
Context (P : string → V → Prop).

(** [v] has the kind that the descriptor [d] describes when [P] gives the types of its parts. *)
Definition of_kind (kind : TypeKind) (d v : V) : Prop :=
  match kind with
  | Literal => ∃ x, get d "value" = Some x ∧ value_eqb x v = true
  | Boolean => is_Some (as_bool v)
  | Integer => ∃ n, as_u64 v = Some n ∧
      default 0 (get_u64 d "minimum") ≤ n ≤ default U64_MAX (get_u64 d "maximum")
  | Text => ∃ value, as_str v = Some value ∧ text_of_type d value
  | Enum => ∃ values x, get_array d "values" = Some values ∧ x ∈ values ∧ value_eqb x v = true
  | StringUnion => ∃ value, as_str v = Some value ∧
      ((∃ values x, get_array d "simple_values" = Some values ∧ x ∈ values ∧ as_str x = Some value) ∨
       (∃ kind, strip_prefix "sign_event:kind:" value = Some kind ∧ kind_number kind ∧
          at_most d "maximum_utf8_bytes" (text_len value)))
  | Array => ∃ values item, as_array v = Some values ∧ get_str d "items" = Some item ∧
      at_most d "maximum_items" (Z.of_nat (length values)) ∧ Forall (P item) values ∧
      (get_bool d "unique" = Some true →
         ∃ encoded, Forall2 (λ v l, to_vec v = Some l) values encoded ∧ NoDup encoded) ∧
      (is_Some (get d "canonical_sort") →
         ∃ texts, Forall2 (λ v s, as_str v = Some s) values texts ∧ ascending texts = true)
  | CanonicalDelimitedSet => ∃ value, as_str v = Some value ∧
      at_most d "maximum_utf8_bytes" (text_len value) ∧
      if String.eqb value "" then get_bool d "empty_allowed" = Some true
      else ∃ c item, get_str d "delimiter" = Some (String c EmptyString) ∧
        get_str d "items" = Some item ∧ EmptyString ∉ split c value ∧ ascending (split c value) = true ∧
        at_most d "maximum_items" (Z.of_nat (length (split c value))) ∧
        Forall (λ s, P item (json_string s)) (split c value)
  | Map => ∃ values key value, as_object v = Some values ∧ get_str d "key" = Some key ∧
      get_str d "value" = Some value ∧ at_most d "maximum_entries" (Z.of_nat (length values)) ∧
      Forall (λ p, P key (json_string p.1) ∧ P value p.2) values
  | ClosedObject => ∃ values fields, as_object v = Some values ∧ get_object d "fields" = Some fields ∧
      (∀ key, key ∈ values.*1 → key ∈ fields.*1) ∧
      Forall (λ field, ∃ type_name, as_str field.2 = Some type_name ∧
        match map_get field.1 values with
        | Some value => P type_name value
        | None => ∃ t, type_descriptor contract type_name = Ok t ∧ get_str t "kind" = Some "optional"
        end) fields
  | TaggedUnion => ∃ object discriminator selected variants variant, as_object v = Some object ∧
      get_str d "discriminator" = Some discriminator ∧ map_get discriminator object = Some selected ∧
      get_array d "variants" = Some variants ∧
      matched_variant contract discriminator selected None variants = Ok (Some variant) ∧ P variant v
  | Alias => ∃ target, get_str d "target" = Some target ∧ P target v
  | Optional => ∃ value, get_str d "value" = Some value ∧ P value v
  | CanonicalJsonObject => is_Some (as_object v) ∧
      ∃ l, to_vec v = Some l ∧ at_most d "maximum_utf8_bytes" (Z.of_nat (length l))
  end.
End kinds.

(** A value has a type of the contract within [n] levels of nesting: it is not [null]
    and it is of the kind of the type's descriptor. *)
Fixpoint has_type (n : nat) (type_name : string) (v : V) : Prop :=
  match n with
  | O => False
  | S n =>
      is_null_value v = false ∧
      ∃ d kind, type_descriptor contract type_name = Ok d ∧
        get_str d "kind" ≫= kind_of = Some kind ∧ of_kind (has_type n) kind d v
  end.

(** A value is of a model: exactly the declared fields, each of its declared type, and
    every required one present. *)
Definition of_model (model_name : string) (v : V) : Prop :=
  ∃ object fields, as_object v = Some object ∧ model_fields contract model_name = Ok fields ∧
    (∀ key, key ∈ object.*1 → key ∈ fields.*1) ∧
    Forall (λ field, ∃ type_name, get_str field.2 "type" = Some type_name ∧
      match map_get field.1 object with
      | Some value => has_type 25 type_name value
      | None => get_str field.2 "presence" ≠ Some "required"
      end) fields.

(** ** The validator decides the types *)

Ltac steps :=
  repeat first [rewrite seq_Ok | rewrite require_Ok | rewrite reject_Ok | rewrite for_each_Ok].

(** A successful first step of a chain, with its value. *)
Lemma first_step {A} (o : option A) (k : A → outcome) :
  and_then (ok_or o InvalidModel) k = Ok tt ↔ ∃ a, o = Some a ∧ k a = Ok tt.
Proof. destruct o; simpl; naive_solver. Qed.

Lemma limit_Ok d limit n : (default 0 (get_u64 d limit) <? n) = false ↔ at_most d limit n.
Proof. apply Z.ltb_ge. Qed.

Lemma existsb_elem {A} (p : A → bool) l : existsb p l = true ↔ ∃ x, x ∈ l ∧ p x = true.
Proof. rewrite existsb_exists. by setoid_rewrite list_elem_of_In. Qed.

Lemma some_existsb {A} (p : A → bool) (o : option (list A)) :
  is_some_and (existsb p) o = true ↔ ∃ l x, o = Some l ∧ x ∈ l ∧ p x = true.
Proof.
  destruct o as [l|]; simpl; [|naive_solver]. rewrite existsb_elem. naive_solver.
Qed.

Lemma not_or_impl P Q `{Decision P} : ¬ P ∨ Q ↔ (P → Q).
Proof. destruct (decide P); naive_solver. Qed.

Lemma validate_integer_Ok d v : validate_integer d v = Ok tt ↔ of_kind (λ _ _, False) Integer d v.
Proof.
  unfold validate_integer. rewrite first_step. simpl. unfold between.
  setoid_rewrite require_Ok. by setoid_rewrite andb_true_iff; setoid_rewrite Z.leb_le.
Qed.

Lemma validate_string_Ok d v : validate_string d v = Ok tt ↔ of_kind (λ _ _, False) Text d v.
Proof.
  unfold validate_string. rewrite first_step. simpl. apply exist_proper; intros value.
  apply and_iff_compat_l. steps. rewrite !orb_false_iff, negb_false_iff, existsb_false.
  unfold between. rewrite andb_true_iff, !Z.leb_le, andb_false_iff, bool_decide_eq_false, negb_false_iff.
  rewrite canonical_base64url_iff.
  assert (is_some_and (λ exact, negb (text_len value =? exact)) (get_u64 d "utf8_bytes") = false ↔
    ∀ n, get_u64 d "utf8_bytes" = Some n → text_len value = n) as ->.
  { destruct (get_u64 d "utf8_bytes"); simpl; [|naive_solver].
    rewrite negb_false_iff, Z.eqb_eq. naive_solver. }
  assert (is_none_or (λ pattern, valid_pattern pattern value) (get_str d "pattern") = true ↔
    ∀ pattern, get_str d "pattern" = Some pattern → valid_pattern pattern value = true) as ->.
  { destruct (get_str d "pattern"); simpl; naive_solver. }
  assert (match get_array d "allowed_schemes" with
    | Some schemes => let? scheme := ok_or (url_scheme value) InvalidModel in
        require (existsb (λ s, bool_decide (as_str s = Some scheme)) schemes)
    | None => Ok tt end = Ok tt ↔
    ∀ schemes, get_array d "allowed_schemes" = Some schemes →
      ∃ scheme s, url_scheme value = Some scheme ∧ s ∈ schemes ∧ as_str s = Some scheme) as ->.
  { destruct (get_array d "allowed_schemes") as [schemes|]; [|naive_solver].
    rewrite first_step. setoid_rewrite require_Ok. setoid_rewrite existsb_elem.
    setoid_rewrite bool_decide_eq_true. naive_solver. }
  rewrite not_or_impl by apply _.
  split; [intros ([[? [? ?]] ?] & ? & ? & ?); by constructor|by intros []].
Qed.
Lemma is_some_true {A} (o : option A) : is_some_and (λ _, true) o = true ↔ is_Some o.
Proof. destruct o; simpl; split; naive_solver. Qed.

Lemma validate_string_union_Ok d v :
  validate_string_union d v = Ok tt ↔ of_kind (λ _ _, False) StringUnion d v.
Proof.
  unfold validate_string_union. rewrite first_step. simpl. apply exist_proper; intros value.
  apply and_iff_compat_l.
  assert (is_some_and (existsb (λ s, bool_decide (as_str s = Some value))) (get_array d "simple_values") = true ↔
    ∃ values x, get_array d "simple_values" = Some values ∧ x ∈ values ∧ as_str x = Some value) as Hsimple.
  { rewrite some_existsb. by setoid_rewrite bool_decide_eq_true. }
  rewrite <- Hsimple. destruct (is_some_and _ (get_array d "simple_values")).
  { split; [by left|done]. }
  rewrite first_step. setoid_rewrite reject_Ok. unfold kind_number, at_most.
  setoid_rewrite orb_false_iff. setoid_rewrite orb_false_iff. setoid_rewrite orb_false_iff.
  setoid_rewrite orb_false_iff. setoid_rewrite andb_false_iff. setoid_rewrite negb_false_iff.
  setoid_rewrite is_some_true. setoid_rewrite Z.ltb_ge. setoid_rewrite String.eqb_neq.
  setoid_rewrite forallb_forall. setoid_rewrite <- List.Forall_forall.
  split; [intros (kind & ? & [[[[? Hone] ?] ?] ?]); right; exists kind|intros [?|(kind & ? & (? & Hone & ? & ?) & ?)]; [done|]; exists kind].
  - split_and!; try done. destruct Hone as [Hone|Hone]; [|by right]. left.
    unfold text_len in *. destruct kind; [done|]. simpl in *. lia.
  - split_and!; try done. destruct Hone as [Hone|Hone]; [left; lia|by right].
Qed.

Lemma validate_canonical_object_Ok d v :
  validate_canonical_object d v = Ok tt ↔ of_kind (λ _ _, False) CanonicalJsonObject d v.
Proof.
  unfold validate_canonical_object. rewrite reject_Ok, orb_false_iff, negb_false_iff. simpl.
  unfold is_object. rewrite is_some_true. apply and_iff_compat_l. unfold at_most.
  destruct (to_vec v) as [l|]; simpl; [|naive_solver]. rewrite Z.ltb_ge. naive_solver.
Qed.

(** *** Nested kinds *)

Section nested.
Context (check : string → V → outcome) (P : string → V → Prop).
Context (check_P : ∀ name v, check name v = Ok tt ↔ P name v).

Lemma for_each_P name l : for_each (check name) l = Ok tt ↔ Forall (P name) l.
Proof. rewrite for_each_Ok. by setoid_rewrite check_P. Qed.

Lemma unique_items_Ok seen values :
  unique_items seen values = Ok tt ↔
  ∃ encoded, Forall2 (λ v l, to_vec v = Some l) values encoded ∧ NoDup encoded ∧
    Forall (λ l, l ∉ seen) encoded.
Proof.
  revert seen; induction values as [|v values IH]; intros seen; simpl.
  { split; [intros _; exists []; split_and!; constructor|done]. }
  rewrite first_step. setoid_rewrite seq_Ok. setoid_rewrite require_Ok.
  setoid_rewrite negb_true_iff. setoid_rewrite bool_decide_eq_false. setoid_rewrite IH. split.
  - intros (l & Hl & Hseen & encoded & Henc & Hnd & Hfresh). exists (l :: encoded). split_and!.
    + by constructor.
    + constructor; [|done]. intros Hin. rewrite list.Forall_forall in Hfresh.
      apply (Hfresh l Hin). by left.
    + constructor; [done|]. eapply Forall_impl; [|exact Hfresh]. set_solver.
  - intros (encoded & Henc & Hnd & Hfresh). inversion Henc as [|? l ? encoded' Hl Henc']; subst.
    inversion Hnd; inversion Hfresh; subst. exists l. split_and!; [done..|]. exists encoded'.
    split_and!; [done..|]. rewrite list.Forall_forall in *. set_solver.
Qed.

Lemma collect_texts values texts :
  collect (λ v : V, ok_or (as_str v) InvalidModel) values = Ok texts ↔
  Forall2 (λ v s, as_str v = Some s) values texts.
Proof.
  rewrite collect_Ok. split; intros Hall; (eapply list.Forall2_impl; [exact Hall|]); intros w t;
    apply ok_or_Ok.
Qed.

Lemma validate_array_Ok d v : validate_array check d v = Ok tt ↔ of_kind P Array d v.
Proof.
  unfold validate_array. rewrite first_step. simpl. apply exist_proper; intros values.
  setoid_rewrite seq_Ok. setoid_rewrite first_step. rewrite reject_Ok, limit_Ok.
  setoid_rewrite seq_Ok. setoid_rewrite seq_Ok. setoid_rewrite for_each_P.
  assert ((if bool_decide (get_bool d "unique" = Some true) then unique_items [] values else Ok tt) = Ok tt ↔
    (get_bool d "unique" = Some true →
      ∃ encoded, Forall2 (λ v l, to_vec v = Some l) values encoded ∧ NoDup encoded)) as Hunique.
  { case_bool_decide; [|naive_solver]. rewrite unique_items_Ok. split.
    - intros (encoded & ? & ? & _) _. by exists encoded.
    - intros Hu. destruct Hu as (encoded & ? & ?); [done|]. exists encoded. split_and!; [done..|].
      apply Forall_true. set_solver. }
  assert (match get d "canonical_sort" with
    | Some _ => let? rendered := collect (λ v, ok_or (as_str v) InvalidModel) values in
        require (ascending rendered)
    | None => Ok tt end = Ok tt ↔
    (is_Some (get d "canonical_sort") →
      ∃ texts, Forall2 (λ v s, as_str v = Some s) values texts ∧ ascending texts = true)) as Hsort.
  { destruct (get d "canonical_sort") as [x|]; [|split; [by intros _ []|done]].
    rewrite bind_outcome. setoid_rewrite collect_texts. setoid_rewrite require_Ok.
    split; [by eauto|]. intros Hs. apply Hs. by eexists. }
  setoid_rewrite Hunique. setoid_rewrite Hsort. clear. naive_solver.
Qed.

Lemma validate_delimited_set_Ok d v :
  validate_delimited_set check d v = Ok tt ↔ of_kind P CanonicalDelimitedSet d v.
Proof.
  unfold validate_delimited_set. rewrite first_step. simpl. apply exist_proper; intros value.
  setoid_rewrite seq_Ok. rewrite reject_Ok, limit_Ok. do 2 apply and_iff_compat_l.
  destruct (String.eqb_spec value ""); [by rewrite require_Ok, bool_decide_eq_true|].
  rewrite bind_outcome. setoid_rewrite seq_Ok. setoid_rewrite first_step.
  setoid_rewrite for_each_Ok. setoid_rewrite check_P. setoid_rewrite reject_Ok.
  setoid_rewrite orb_false_iff. setoid_rewrite orb_false_iff. setoid_rewrite orb_false_iff.
  setoid_rewrite limit_Ok. setoid_rewrite negb_false_iff. setoid_rewrite existsb_false.
  setoid_rewrite Nat.eqb_neq.
  assert (∀ l : list string, Forall (λ item, String.eqb item "" = false) l ↔ EmptyString ∉ l) as Hempty.
  { intros l. rewrite list.Forall_forall. setoid_rewrite String.eqb_neq. set_solver. }
  setoid_rewrite Hempty.
  assert (∀ c s, length (split c s) ≠ 0%nat) as Hsplit.
  { intros c s. induction s; simpl; [done|]. case_match; [done|]. by case_match. }
  destruct (get_str d "delimiter") as [[|c [|]]|]; simpl; [naive_solver| |naive_solver|naive_solver].
  split.
  - intros (c' & [= <-] & [[[_ ?] ?] ?] & item & ? & ?). exists c, item. by split_and!.
  - intros (c' & item & [= <-] & ? & ? & ? & ? & ?). exists c. split_and!; try done.
    by exists item.
Qed.

Lemma validate_map_Ok d v : validate_map check d v = Ok tt ↔ of_kind P Map d v.
Proof.
  unfold validate_map. rewrite first_step. simpl. apply exist_proper; intros values.
  setoid_rewrite seq_Ok. setoid_rewrite first_step. setoid_rewrite first_step.
  setoid_rewrite for_each_Ok. rewrite reject_Ok, limit_Ok.
  assert (∀ key value, Forall (λ p : string * V,
      (let '(k, v) := p in check key (json_string k) ;? check value v) = Ok tt) values ↔
    Forall (λ p, P key (json_string p.1) ∧ P value p.2) values) as Hmap.
  { intros key value. rewrite !list.Forall_forall. apply forall_proper; intros [k w].
    by rewrite seq_Ok, !check_P. }
  setoid_rewrite Hmap. naive_solver.
Qed.

Lemma validate_closed_object_Ok d v :
  validate_closed_object contract check d v = Ok tt ↔ of_kind P ClosedObject d v.
Proof.
  unfold validate_closed_object. rewrite first_step. simpl. apply exist_proper; intros values.
  rewrite first_step. setoid_rewrite seq_Ok. setoid_rewrite reject_Ok.
  setoid_rewrite existsb_false. setoid_rewrite negb_false_iff. setoid_rewrite map_contains_true.
  setoid_rewrite for_each_Ok.
  assert (∀ field, validate_closed_field contract check values field = Ok tt ↔
    ∃ type_name, as_str field.2 = Some type_name ∧
      match map_get field.1 values with
      | Some value => P type_name value
      | None => ∃ t, type_descriptor contract type_name = Ok t ∧ get_str t "kind" = Some "optional"
      end) as Hfield.
  { intros field. unfold validate_closed_field. rewrite first_step.
    apply exist_proper; intros type_name. apply and_iff_compat_l.
    destruct (map_get field.1 values); [apply check_P|]. rewrite bind_outcome.
    setoid_rewrite require_Ok. by setoid_rewrite bool_decide_eq_true. }
  setoid_rewrite Hfield. setoid_rewrite list.Forall_forall. naive_solver.
Qed.

Lemma validate_tagged_union_Ok d v :
  validate_tagged_union contract check d v = Ok tt ↔ of_kind P TaggedUnion d v.
Proof.
  unfold validate_tagged_union. setoid_rewrite first_step. setoid_rewrite first_step.
  setoid_rewrite first_step. setoid_rewrite first_step. setoid_rewrite bind_outcome.
  setoid_rewrite first_step. setoid_rewrite check_P. simpl. naive_solver.
Qed.

Lemma validate_kind_Ok kind d v :
  validate_kind contract check kind d v = Ok tt ↔
  ∃ k, kind = Some k ∧ of_kind P k d v.
Proof.
  destruct kind as [k|]; simpl; [|naive_solver].
  transitivity (of_kind P k d v); [|naive_solver]. destruct k; simpl.
  - rewrite require_Ok. destruct (get d "value"); naive_solver.
  - rewrite require_Ok. apply is_some_true.
  - apply validate_integer_Ok.
  - apply validate_string_Ok.
  - rewrite require_Ok. apply some_existsb.
  - apply validate_string_union_Ok.
  - apply validate_array_Ok.
  - apply validate_delimited_set_Ok.
  - apply validate_map_Ok.
  - apply validate_closed_object_Ok.
  - apply validate_tagged_union_Ok.
  - rewrite first_step. by setoid_rewrite check_P.
  - rewrite first_step. by setoid_rewrite check_P.
  - apply validate_canonical_object_Ok.
Qed.
End nested.

(** From depth [depth], validation decides the types of [25 - depth] levels. *)
Lemma validate_type_Ok fuel depth name v :
  (26 ≤ fuel + depth)%nat →
  validate_type contract fuel name v depth = Ok tt ↔ has_type (25 - depth) name v.
Proof.
  revert depth name v; induction fuel as [|fuel IH]; intros depth name v Hfuel; simpl.
  { replace (25 - depth)%nat with 0%nat by lia. done. }
  destruct (Nat.ltb_spec 24 depth); simpl.
  { replace (25 - depth)%nat with 0%nat by lia. simpl. by case_match. }
  replace (25 - depth)%nat with (S (25 - (depth + 1)))%nat by lia. simpl.
  destruct (is_null_value v); [naive_solver|]. rewrite bind_outcome.
  setoid_rewrite (λ kind d v, validate_kind_Ok _ (has_type (25 - (depth + 1)))
    (λ name v, IH (depth + 1)%nat name v ltac:(lia)) kind d v).
  naive_solver.
Qed.

Lemma validate_model_Ok name v : validate_model contract name v = Ok tt ↔ of_model name v.
Proof.
  unfold validate_model, of_model. rewrite first_step. setoid_rewrite bind_outcome.
  apply exist_proper; intros object. setoid_rewrite seq_Ok. setoid_rewrite for_each_Ok.
  setoid_rewrite require_Ok. setoid_rewrite map_contains_true.
  assert (∀ field, validate_field contract object field = Ok tt ↔
    ∃ type_name, get_str field.2 "type" = Some type_name ∧
      match map_get field.1 object with
      | Some value => has_type 25 type_name value
      | None => get_str field.2 "presence" ≠ Some "required"
      end) as Hfield.
  { intros field. unfold validate_field. rewrite first_step.
    apply exist_proper; intros type_name. apply and_iff_compat_l.
    destruct (map_get field.1 object); [by apply validate_type_Ok|].
    case_bool_decide; naive_solver. }
  setoid_rewrite Hfield. setoid_rewrite list.Forall_forall. naive_solver.
Qed.

(** *** The recursion ends by itself *)

Section rounds.
Context (check check' : string → V → outcome).
Context (same : ∀ name v, check name v = check' name v).

Lemma for_each_ext {A} (f g : A → outcome) l : (∀ x, f x = g x) → for_each f l = for_each g l.
Proof. intros Hfg. induction l as [|x l IH]; simpl; [done|]. by rewrite Hfg, IH. Qed.

Lemma and_then_ext {E A B} (c : result E A) (k k' : A → result E B) :
  (∀ a, k a = k' a) → and_then c k = and_then c k'.
Proof. destruct c; simpl; auto. Qed.

Lemma validate_kind_ext kind d v :
  validate_kind contract check kind d v = validate_kind contract check' kind d v.
Proof.
  destruct kind as [[]|]; simpl; try done;
    unfold validate_array, validate_delimited_set, validate_map, validate_closed_object,
      validate_tagged_union;
    repeat first
      [ done | apply same | apply and_then_ext; intros ?
      | apply for_each_ext; intros ? | case_match
      | progress (f_equal; []) ].
  by rewrite !same.
Qed.
End rounds.

(** Once the rounds reach depth 25 more of them change nothing, so [validate_type] always
    ends by itself within [type_fuel] rounds. *)
Lemma validate_type_rounds fuel fuel' depth name v :
  (depth ≤ 25)%nat → (26 ≤ fuel + depth)%nat → (26 ≤ fuel' + depth)%nat →
  validate_type contract fuel name v depth = validate_type contract fuel' name v depth.
Proof.
  revert fuel' depth name v; induction fuel as [|fuel IH]; intros [|fuel'] depth name v Hd H1 H2;
    [lia..|]. simpl. destruct (Nat.ltb_spec 24 depth); simpl; [done|].
  destruct (is_null_value v); [done|]. apply and_then_ext; intros d.
  apply validate_kind_ext. intros name' v'. apply IH; lia.
Qed.
End types.
End AdminSafety.
