(* ===== verification/AdminRequestSafety.v ===== *)
(** * Correctness of request admission

    The boundary of [AdminRequest] never panics and runs the handler only on admitted
    requests; percent-encoded queries decode to the object they encode; and response
    documents are exactly the canonical texts of their model. *)

From Stdlib Require Import ZArith Lia Ascii.
From stdpp Require Import list strings sets.
From S2P Require Import Prelude Interfaces JsonTree JsonText Admin Base64Url AdminRequest AdminSafety.

Module AdminRequestSafety.
Import Admin AdminRequest AdminSafety.

(** ** Bytes and texts *)

Lemma byte_of_ascii c : 0 ≤ Z.of_N (N_of_ascii c) < 256.
Proof. pose proof (N_ascii_bounded c). lia. Qed.

Lemma as_bytes_range s : Forall Base64Url.is_byte (as_bytes s).
Proof. induction s as [|c s IH]; simpl; constructor; [apply byte_of_ascii|done]. Qed.

Lemma text_of_as_bytes s : text_of (as_bytes s) = s.
Proof.
  induction s as [|c s IH]; simpl; [done|]. by rewrite IH, N2Z.id, ascii_N_embedding.
Qed.

Lemma as_bytes_text_of l : Forall Base64Url.is_byte l → as_bytes (text_of l) = l.
Proof.
  induction 1 as [|b l Hb _ IH]; simpl; [done|]. unfold Base64Url.is_byte in Hb.
  rewrite N_ascii_embedding by lia. rewrite IH. f_equal. lia.
Qed.

(** ** The reference encoder of queries *)

Definition unreserved (b : Z) : bool :=
  is_ascii_alphanumeric b || (b =? 45) || (b =? 46) || (b =? 95) || (b =? 126).

Definition hex_digit (n : Z) : Z := if n <? 10 then 48 + n else 55 + n.

Definition encode_byte (b : Z) : bytes :=
  if unreserved b then [b] else [37; hex_digit (b / 16); hex_digit (b mod 16)].

Definition percent_encode (s : string) : string := text_of (concat (map encode_byte (as_bytes s))).

Definition query_field (p : string * string) : string :=
  String.append (percent_encode p.1) (String "=" (percent_encode p.2)).

Fixpoint query_text (fields : list (string * string)) : string :=
  match fields with
  | [] => EmptyString
  | [p] => query_field p
  | p :: fields => String.append (query_field p) (String "&" (query_text fields))
  end.

(** The value of a Rust [String] *)
Definition is_text (s : string) : Prop := is_Some (JsonText.from_utf8 (as_bytes s)).

Lemma hex_digit_nibble n : 0 ≤ n < 16 → hex_nibble (hex_digit n) = Some n.
Proof.
  unfold hex_digit, hex_nibble, between. intros Hn.
  destruct (Z.ltb_spec n 10); repeat case_match; to_prop; try lia; f_equal; lia.
Qed.

(** What [encode_byte] may contain *)
Definition query_byte (b : Z) : Prop :=
  Base64Url.is_byte b ∧ b ≠ 38 ∧ b ≠ 61 ∧ b ≠ 43.

Lemma encode_byte_bytes b : Base64Url.is_byte b → Forall query_byte (encode_byte b).
Proof.
  unfold Base64Url.is_byte, encode_byte, query_byte. intros Hb. destruct (unreserved b) eqn:Hu.
  - constructor; [|done]. unfold unreserved, is_ascii_alphanumeric, is_ascii_digit,
      is_ascii_lowercase, is_ascii_uppercase, between in Hu.
    split_and!; [by apply Hb|..]; intros ->; done.
  - unfold hex_digit. assert (0 ≤ b / 16 < 16) by (Z.div_mod_to_equations; lia).
    pose proof (Z.mod_pos_bound b 16). unfold Base64Url.is_byte.
    repeat constructor; try case_match; to_prop; lia.
Qed.

Lemma encoded_bytes l : Forall Base64Url.is_byte l → Forall query_byte (concat (map encode_byte l)).
Proof.
  induction 1 as [|b l Hb _ IH]; simpl; [done|]. apply Forall_app. split; [|done].
  by apply encode_byte_bytes.
Qed.

(** Checked on every byte *)
Lemma nibbles b : Base64Url.is_byte b → Z.lor (Z.shiftl (b / 16) 4) (b mod 16) = b.
Proof.
  intros Hb. unfold Base64Url.is_byte in Hb.
  assert (forallb (λ n, Z.lor (Z.shiftl (Z.of_nat n / 16) 4) (Z.of_nat n mod 16) =? Z.of_nat n)
            (seq 0 256) = true) as Hall by (vm_compute; reflexivity).
  rewrite forallb_forall in Hall. specialize (Hall (Z.to_nat b)).
  rewrite Z2Nat.id in Hall by lia. apply Z.eqb_eq, Hall, in_seq. lia.
Qed.

Lemma decode_encoded l k decoded :
  Forall Base64Url.is_byte l →
  decode_from (concat (map encode_byte l) ++ k) decoded = decode_from k (decoded ++ l) ∧
  valid_from (concat (map encode_byte l) ++ k) = valid_from k.
Proof.
  intros Hl. revert decoded. induction Hl as [|b l Hb Hl IH]; intros decoded; simpl.
  { by rewrite app_nil_r. }
  rewrite <- app_assoc. specialize (IH (decoded ++ [b])). rewrite <- app_assoc in IH. simpl in IH.
  unfold Base64Url.is_byte in Hb. unfold encode_byte at 1 3. destruct (unreserved b) eqn:Hu; simpl.
  - assert (b ≠ 37 ∧ b ≠ 43) as [H37 H43] by (split; intros ->; done).
    apply Z.eqb_neq in H37 as ->, H43 as ->. done.
  - assert (0 ≤ b / 16 < 16) by (Z.div_mod_to_equations; lia).
    pose proof (Z.mod_pos_bound b 16). unfold is_ascii_hexdigit.
    rewrite !hex_digit_nibble by lia. simpl.
    assert (Z.lor (Z.shiftl (b / 16) 4) (b mod 16) = b) as ->; [|done].
    by apply nibbles.
Qed.
Lemma percent_roundtrip s :
  is_text s → percent_decode (percent_encode s) = Some (Ok s) ∧
  valid_percent_encoding (percent_encode s) = true.
Proof.
  intros [chars Hs]. unfold percent_decode, valid_percent_encoding, percent_encode.
  pose proof (encoded_bytes _ (as_bytes_range s)) as Hb.
  rewrite as_bytes_text_of by (eapply Forall_impl; [|exact Hb]; by intros b []).
  destruct (decode_encoded (as_bytes s) [] [] (as_bytes_range s)) as [Hd Hv].
  rewrite app_nil_r in Hd, Hv. rewrite Hd, Hv. simpl. split; [|done].
  unfold string_from_utf8. by rewrite Hs, text_of_as_bytes.
Qed.

(** ** Splitting *)

Definition lacks (c : ascii) (s : string) : Prop := Z.of_N (N_of_ascii c) ∉ as_bytes s.

Lemma lacks_cons c x s : lacks c (String x s) ↔ x ≠ c ∧ lacks c s.
Proof.
  unfold lacks. simpl. rewrite not_elem_of_cons. split; intros [Hx Hs]; (split; [|done]).
  - by intros ->.
  - intros Heq. apply Hx. apply (f_equal Z.to_N) in Heq. rewrite !N2Z.id in Heq.
    apply (f_equal ascii_of_N) in Heq. by rewrite !ascii_N_embedding in Heq.
Qed.

Lemma eqb_other (x c : ascii) : x ≠ c → Ascii.eqb x c = false.
Proof. by apply Ascii.eqb_neq. Qed.

Lemma split_lacks c s : lacks c s → split c s = [s].
Proof.
  induction s as [|x s IH]; simpl; [done|]. intros [Hx Hs]%lacks_cons.
  by rewrite eqb_other, IH by done.
Qed.

Lemma split_append c s t : lacks c s → split c (String.append s (String c t)) = s :: split c t.
Proof.
  induction s as [|x s IH]; simpl; [by rewrite Ascii.eqb_refl|].
  intros [Hx Hs]%lacks_cons. by rewrite eqb_other, IH by done.
Qed.

Lemma split_once_append c s t : lacks c s → split_once c (String.append s (String c t)) = Some (s, t).
Proof.
  induction s as [|x s IH]; simpl; [by rewrite Ascii.eqb_refl|].
  intros [Hx Hs]%lacks_cons. by rewrite eqb_other, IH by done.
Qed.

Lemma lacks_append c s t : lacks c s → lacks c t → lacks c (String.append s t).
Proof.
  induction s as [|x s IH]; [done|]. change (String.append (String x s) t) with (String x (String.append s t)).
  rewrite !lacks_cons. intros [? ?] ?. split; auto.
Qed.

Lemma encode_lacks c s :
  c = "&"%char ∨ c = "="%char → lacks c (percent_encode s).
Proof.
  intros Hc. unfold lacks, percent_encode.
  pose proof (encoded_bytes _ (as_bytes_range s)) as Hb.
  rewrite as_bytes_text_of by (eapply Forall_impl; [|exact Hb]; by intros b []).
  intros Hin. apply (elem_of_Forall _ _ _ Hb) in Hin. unfold query_byte in Hin.
  destruct Hc as [-> | ->]; simpl in Hin; lia.
Qed.

Lemma query_field_lacks p : lacks "&" (query_field p).
Proof.
  unfold query_field. apply lacks_append; [by apply encode_lacks; left|].
  apply lacks_cons. split; [done|]. by apply encode_lacks; left.
Qed.

Lemma split_query_text fields :
  fields ≠ [] → split "&"%char (query_text fields) = map query_field fields.
Proof.
  induction fields as [|p [|q fields] IH]; intros Hne; [done|..].
  - apply split_lacks, query_field_lacks.
  - change (query_text (p :: q :: fields))
      with (String.append (query_field p) (String "&" (query_text (q :: fields)))).
    rewrite split_append by apply query_field_lacks. simpl map. f_equal. by apply IH.
Qed.

Lemma query_text_nonempty fields : fields ≠ [] → query_text fields ≠ EmptyString.
Proof.
  intros Hne Heq. apply split_query_text in Hne as Hs. rewrite Heq in Hs.
  destruct fields as [|p [|q fields]]; try done. unfold query_field in Hs. simpl in Hs.
  injection Hs as Hs. by destruct (percent_encode p.1).
Qed.

Lemma percent_encode_nonempty s : s ≠ EmptyString → percent_encode s ≠ EmptyString.
Proof.
  destruct s as [|c s]; [done|]. intros _. unfold percent_encode. simpl.
  unfold encode_byte at 1. by case_match.
Qed.

(** ** Decoding never panics *)

Lemma hexdigit_nibble b : is_ascii_hexdigit b = true → ∃ n, hex_nibble b = Some n.
Proof. unfold is_ascii_hexdigit. destruct (hex_nibble b); naive_solver. Qed.

Lemma valid_decodes l decoded : valid_from l = true → ∃ out, decode_from l decoded = Some (Ok out).
Proof.
  revert decoded. induction l as [l IH] using (well_founded_induction
    (Wf_nat.well_founded_ltof _ (@length Z))).
  unfold Wf_nat.ltof in IH. intros decoded. destruct l as [|b l]; simpl; [by eexists|].
  destruct (b =? 37).
  - destruct l as [|high [|low l]]; [done..|]. intros Hv. to_prop.
    destruct (hexdigit_nibble high) as [h ->]; [done|].
    destruct (hexdigit_nibble low) as [k ->]; [done|]. apply IH; [simpl; lia|done].
  - intros Hv. destruct (b =? 43); (apply IH; [simpl; lia|done]).
Qed.

Lemma percent_decode_total s : valid_percent_encoding s = true → ∃ r, percent_decode s = Some r.
Proof.
  unfold valid_percent_encoding, percent_decode. intros Hv.
  destruct (valid_decodes _ [] Hv) as [out ->]. by eexists.
Qed.
#[local] Arguments validate_type : simpl never.
#[local] Arguments has_type : simpl never.

Section documents.
Context {V : Type} `{!JsonValue V, !JsonTree V, !JsonWriter V, !StrictReader V, UrlLibrary}.
Context (contract : option V).

(** ** Queries *)

Lemma query_items_total fields output items : ∃ r, query_items contract fields output items = Some r.
Proof.
  revert output. induction items as [|item items IH]; intros output; simpl; [by eexists|].
  assert (∃ r, query_item contract fields output item = Some r) as [[output'|e] Hr];
    [|rewrite Hr; apply IH|rewrite Hr; by eexists].
  unfold query_item, lift. destruct (split_once _ item) as [[key value]|]; simpl; [|by eexists].
  destruct (String.eqb key "" || _ || _) eqn:Hvalid; simpl; [by eexists|]. to_prop.
  destruct (percent_decode_total key) as [[k|e] ->]; [done|simpl|by eexists].
  destruct (percent_decode_total value) as [[v|e] ->]; [done|simpl|by eexists].
  repeat (case_match; simpl; try by eexists).
  all: repeat match goal with |- context [bind_result (Some ?c) _] => destruct c; simpl end; by eexists.
Qed.

Lemma query_model_total route query : ∃ r, query_model contract route query = Some r.
Proof.
  unfold query_model, lift. destruct query as [query|]; [|by eexists].
  destruct (String.eqb query ""); simpl; [by eexists|].
  destruct (model_fields contract (request_model route)) as [fields|]; simpl; [|by eexists].
  destruct (query_items_total fields [] (split "&"%char query)) as [[output|e] ->]; simpl; by eexists.
Qed.

(** A field of a query with its value: declared by the model, and a scalar of its type *)
Definition field_denotes (fields : list (string * V)) (p : string * string) (v : V) : Prop :=
  is_text p.1 ∧ is_text p.2 ∧ p.1 ≠ EmptyString ∧
  ∃ descriptor type_name, map_get p.1 fields = Some descriptor ∧
    get_str descriptor "type" = Some type_name ∧ query_scalar contract type_name p.2 = Ok v.

Lemma query_item_field fields output p v :
  field_denotes fields p v → p.1 ∉ output.*1 →
  query_item contract fields output (query_field p) = Some (Ok (output ++ [(p.1, v)])).
Proof.
  intros (Hk & Hv & Hne & descriptor & type_name & Hget & Htype & Hscalar) Hnew.
  unfold query_item, query_field. rewrite split_once_append by (by apply encode_lacks; right).
  destruct (percent_roundtrip _ Hk) as [Hkd Hkv]. destruct (percent_roundtrip _ Hv) as [Hvd Hvv].
  simpl. rewrite Hkv, Hvv. simpl.
  apply percent_encode_nonempty, String.eqb_neq in Hne. rewrite Hne. simpl.
  rewrite Hkd, Hvd. simpl.
  assert (map_contains p.1 output = false) as ->.
  { apply not_true_is_false. by rewrite map_contains_true. }
  simpl. by rewrite Hget; simpl; rewrite Htype; simpl; rewrite Hscalar.
Qed.

Lemma query_items_fields fields ps vs output :
  Forall2 (field_denotes fields) ps vs → NoDup (output.*1 ++ ps.*1) →
  query_items contract fields output (map query_field ps) = Some (Ok (output ++ zip ps.*1 vs)).
Proof.
  intros Hall. revert output. induction Hall as [|p v ps vs Hp Hall IH]; intros output Hnd; simpl.
  { by rewrite app_nil_r. }
  rewrite (query_item_field _ _ _ v); [|done|].
  - simpl. rewrite IH; [by rewrite <- app_assoc|]. rewrite fmap_app, <- app_assoc. done.
  - intros Hin. simpl in Hnd. apply list.NoDup_app in Hnd as (_ & Hd & _). apply (Hd _ Hin). by left.
Qed.

(** C33. A query denotes the object it encodes: for every non-empty list of fields with
    distinct names which the route's request model declares, each with a text that is a
    scalar of the declared type, the query that percent-encodes them in order is decoded,
    without panicking, to exactly the object with these values. *)
Theorem query_roundtrip route fields ps vs :
  model_fields contract (request_model route) = Ok fields →
  ps ≠ [] → NoDup ps.*1 → Forall2 (field_denotes fields) ps vs →
  query_model contract route (Some (query_text ps)) = Some (Ok (json_object (zip ps.*1 vs))).
Proof.
  intros Hfields Hne Hnd Hall. unfold query_model, lift.
  apply query_text_nonempty in Hne as Htext. apply String.eqb_neq in Htext. rewrite Htext. simpl.
  rewrite Hfields. simpl. rewrite split_query_text by done.
  by rewrite (query_items_fields fields ps vs []).
Qed.

(** ** Requests *)

(** What the handler may see of a request on a route *)
Record document_admitted {O} (route : RhiAdminRoute) (request : AdminRequest V O)
    (document : RhiAdminRequestDocument) : Prop := {
  da_route : rq_route document = route;
  da_correlation : rq_correlation_id document = ar_correlation_id request;
  da_value : ∃ value,
    match method route with
    | Get => rq_operation_id document = None ∧ query_model contract route (ar_query request) = Some (Ok value)
    | Post => ∃ i, rq_operation_id document = Some i ∧ ar_mutation request = Some (i, value)
    end ∧ of_model contract (request_model route) value ∧ to_vec value = Some (rq_model_bytes document);
  da_parameter :
    match parameter_binding route with
    | None => rq_parameter document = None
    | Some (name, type_name) => ∃ value, ar_parameter request name = Some value ∧
        has_type contract 25 type_name (json_string value) ∧ rq_parameter document = Some (name, value)
    end;
}.

Lemma request_document_total {O} route (request : AdminRequest V O) :
  ∃ r, request_document contract route request = Some r.
Proof.
  unfold request_document, request_model_value, lift. destruct (method route).
  - destruct (query_model_total route (ar_query request)) as [[value|e] ->]; simpl; by eexists.
  - destruct (ar_mutation request) as [[i value]|]; simpl; by eexists.
Qed.

Lemma request_parameter_Ok {O} route (request : AdminRequest V O) parameter :
  request_parameter contract route request = Ok parameter ↔
  match parameter_binding route with
  | None => parameter = None
  | Some (name, type_name) => ∃ value, ar_parameter request name = Some value ∧
      has_type contract 25 type_name (json_string value) ∧ parameter = Some (name, value)
  end.
Proof.
  unfold request_parameter. destruct (parameter_binding route) as [[name type_name]|];
    [|split; [by intros [= <-]|by intros ->]].
  destruct (ar_parameter request name) as [value|]; simpl; [|split; [done|by intros (? & ? & _)]].
  destruct (validate_type contract type_fuel type_name (json_string value) 0) as [[]|e] eqn:Hv; simpl.
  - apply validate_type_Ok in Hv; [|done]. split; [intros [= <-]; by exists value|].
    by intros (value' & [= <-] & _ & ->).
  - split; [done|]. intros (value' & [= <-] & Ht & _).
    apply (validate_type_Ok contract type_fuel 0) in Ht; [|done]. by rewrite Ht in Hv.
Qed.

Lemma request_document_Ok {O} route (request : AdminRequest V O) document :
  request_document contract route request = Some (Ok document) ↔
  document_admitted route request document.
Proof.
  unfold request_document, request_model_value, lift. split.
  - intros Hd.
    assert (∃ i value, (match method route with
        | Get => i = None ∧ query_model contract route (ar_query request) = Some (Ok value)
        | Post => ∃ j, i = Some j ∧ ar_mutation request = Some (j, value) end) ∧
      (validate_model contract (request_model route) value ;?
       let? model_bytes := ok_or (to_vec value) Malformed in
       let? parameter := request_parameter contract route request in
       Ok (MkRequest route i (ar_correlation_id request) parameter model_bytes)) = Ok document)
      as (i & value & Hvalue & Hd').
    { destruct (method route).
      - destruct (query_model contract route (ar_query request)) as [[value|e]|]; simplify_eq/=. eauto 6.
      - destruct (ar_mutation request) as [[i value]|]; simplify_eq/=. eauto 8. }
    clear Hd. apply and_then_Ok in Hd' as ([] & Hm & Hd). inv_ok.
    apply validate_model_Ok in Hm. apply request_parameter_Ok in H1.
    constructor; simpl; [done..| |done]. exists value. split_and!; [|done|done].
    by destruct (method route).
  - intros [Hroute Hcorr (value & Hvalue & Hm & Hbytes) Hparam].
    apply validate_model_Ok in Hm.
    assert (request_parameter contract route request = Ok (rq_parameter document)) as Hp
      by by apply request_parameter_Ok.
    destruct document as [r i c p l]; simpl in *; subst r c.
    destruct (method route).
    + destruct Hvalue as [-> ->]. simpl. by rewrite Hm; simpl; rewrite Hbytes; simpl; rewrite Hp.
    + destruct Hvalue as (j & -> & ->). simpl. by rewrite Hm; simpl; rewrite Hbytes; simpl; rewrite Hp.
Qed.

(** C29. Dispatch is total and admits exactly: whatever bytes a client sends, dispatching
    never panics; the handler runs only on a document whose value is of the route's request
    model, with the canonical bytes of that value and a path parameter of its declared type,
    and its answer reaches the client only when it is for the same route; any other request
    is answered as a bad request and leaves the world alone. *)
Theorem dispatch_admits_exactly {O W} route handle (request : AdminRequest V O) (w : W) :
  (∃ document answer w',
     document_admitted route request document ∧ handle document w = (answer, w') ∧
     dispatch_route contract route handle request w =
       Some (match answer with
             | Ok response =>
                 default (failure Internal false)
                   (o ← ar_success request (rs_value response);
                    if decide (rs_route response = route) then Some (OutcomeSuccess o) else None)
             | Err kind => failure kind false
             end, w')) ∨
  ((∀ document, ¬ document_admitted route request document) ∧
   dispatch_route contract route handle request w =
     Some (OutcomeFailure BadRequest "invalid_request" "admin request does not match the route model", w)).
Proof.
  unfold dispatch_route. destruct (request_document_total route request) as [[document|e] Hr]; rewrite Hr.
  - left. apply request_document_Ok in Hr. destruct (handle document w) as [answer w'] eqn:Hh.
    exists document, answer, w'. split_and!; [done..|]. destruct answer as [response|kind]; [|done].
    destruct (ar_success request (rs_value response)); simpl; [|by case_bool_decide].
    case_bool_decide; [by rewrite decide_True|by rewrite decide_False].
  - right. split; [|done]. intros document Hd. apply request_document_Ok in Hd. congruence.
Qed.

(** ** Responses *)

(** What a text that the deserializer reads denotes: a value without [null]; the fields of an
    object are pairwise different; nothing was cut off by an error. *)
Inductive denotes : raw V → V → Prop :=
| denotes_bool b : denotes (RawBool b) (json_bool b)
| denotes_number n : denotes (RawNumber n) n
| denotes_string s : denotes (RawString s) (json_string s)
| denotes_array items values : Forall2 denotes items values → denotes (RawSeq items None) (json_array values)
| denotes_object (entries : list (string * raw V)) values :
    NoDup entries.*1 → entries.*1 = values.*1 →
    Forall2 denotes entries.*2 values.*2 → denotes (RawMap entries None) (json_object values).

Definition denoted (r : raw V) : Prop := ∀ v, strict_value r = Ok v ↔ denotes r v.

(** The loops of the visitor over the elements of an array and the fields of an object *)
Lemma strict_items items ending v :
  Forall denoted items →
  strict_value (RawSeq items ending) = Ok v ↔
    ending = None ∧ ∃ values, Forall2 denotes items values ∧ v = json_array values.
Proof.
  intros Hall. simpl.
  match goal with |- context [and_then ?c _] => enough (∀ values, c = Ok values ↔ ending = None ∧ Forall2 denotes items values) as Hloop end.
  { split.
    - intros Hv. bind Hv as values Hvalues. injection Hv as <-. apply Hloop in Hvalues as [? ?]. eauto.
    - intros (He & values & Hvalues & ->). by rewrite (proj2 (Hloop values)). }
  induction Hall as [|r items Hr _ IH]; intros values.
  - unfold ended. destruct ending; [naive_solver|]. split; [intros [= <-]; by split|].
    by intros [_ ->%Forall2_nil_inv_l].
  - split.
    + intros Hv. bind Hv as value Hvalue. bind Hv as rest Hrest. injection Hv as <-.
      apply IH in Hrest as [? ?]. apply Hr in Hvalue. split; [done|by constructor].
    + intros [He (value & rest & Hvalue & Hrest & ->)%Forall2_cons_inv_l].
      rewrite (proj2 (Hr value) Hvalue). simpl. by rewrite (proj2 (IH rest)).
Qed.

Lemma strict_fields entries ending v :
  Forall denoted entries.*2 →
  strict_value (RawMap entries ending) = Ok v ↔
    ending = None ∧ ∃ values, NoDup entries.*1 ∧ entries.*1 = values.*1 ∧
      Forall2 denotes entries.*2 values.*2 ∧ v = json_object values.
Proof.
  intros Hall. simpl.
  match goal with |- context [and_then (?f [] entries) _] =>
    enough (∀ before values, f before entries = Ok values ↔ ending = None ∧ ∃ new, values = before ++ new ∧
      NoDup entries.*1 ∧ (∀ k, k ∈ entries.*1 → k ∉ before.*1) ∧ entries.*1 = new.*1 ∧
      Forall2 denotes entries.*2 new.*2) as Hloop end.
  { split.
    - intros Hv. bind Hv as values Hvalues. injection Hv as <-.
      apply Hloop in Hvalues as (? & new & -> & ? & _ & ? & ?). eauto 10.
    - intros (He & values & Hnd & Hk & Hvalues & ->). rewrite (proj2 (Hloop [] values)); [done|].
      split; [done|]. exists values. split_and!; try done. intros k _. apply not_elem_of_nil. }
  induction entries as [|[key r] entries IH]; intros before values.
  - unfold ended. destruct ending; [naive_solver|]. split.
    + intros [= <-]. split; [done|]. exists []. rewrite app_nil_r. split_and!; try done; [constructor|].
      intros k Hk. by apply not_elem_of_nil in Hk.
    + intros (_ & new & -> & _ & _ & Hk & _). destruct new; [|done]. by rewrite app_nil_r.
  - inversion_clear Hall as [|? ? Hr Hrest]. specialize (IH Hrest). csimpl. split.
    + intros Hv. bind Hv as u Hu. apply reject_if_Ok, not_true_iff_false in Hu; rewrite map_contains_true in Hu. bind Hv as value Hvalue.
      apply IH in Hv as (He & new & -> & Hnd & Hout & Hk & Hvs). apply Hr in Hvalue.
      split; [done|]. exists ((key, value) :: new). rewrite <- app_assoc. split_and!; [done| | |csimpl; by rewrite Hk|by constructor].
      * constructor; [|done]. intros Hin. apply (Hout _ Hin). rewrite fmap_app, elem_of_app. right. by left.
      * intros k [->|Hin]%elem_of_cons; [done|]. intros Hb. apply (Hout _ Hin). rewrite fmap_app, elem_of_app. by left.
    + intros (He & [|[key' value] new] & -> & Hnd & Hout & Hk & Hvs); [done|]. csimpl in *. injection Hk as <- Hk.
      inversion_clear Hnd as [|? ? Hnin Hnd']. inversion_clear Hvs as [|? ? ? ? Hvalue Hvs'].
      rewrite (proj1 (not_true_iff_false _)) by (rewrite map_contains_true; apply Hout; by left). simpl.
      rewrite (proj2 (Hr value) Hvalue). simpl. apply IH. split; [done|]. exists new.
      rewrite <- app_assoc. split_and!; try done. intros k Hin. rewrite fmap_app, elem_of_app. simpl.
      intros [Hb| ->%list_elem_of_singleton]; [|done]. by apply (Hout k); [right|].
Qed.

(** The strict reader yields exactly what a text denotes. *)
Lemma strict_value_denotes : ∀ r, denoted r.
Proof.
  fix strict 1. intros r v. destruct r as [|b|n| |s|items ending|entries ending|e].
  - split; [done|by inversion 1].
  - split; [intros [= <-]; constructor|by inversion 1].
  - split; [intros [= <-]; constructor|by inversion 1].
  - split; [done|by inversion 1].
  - split; [intros [= <-]; constructor|by inversion 1].
  - assert (Forall denoted items) as Hall.
    { revert items. fix strict_list 1. intros [|r items]; constructor; [apply strict|apply strict_list]. }
    rewrite strict_items by exact Hall. split.
    + intros (-> & values & Hvalues & ->). by constructor.
    + inversion 1. eauto.
  - assert (Forall denoted entries.*2) as Hall.
    { revert entries. fix strict_list 1. intros [|[key r] entries]; constructor; [apply strict|apply strict_list]. }
    rewrite strict_fields by exact Hall. split.
    + intros (-> & values & Hnd & Hk & Hvs & ->). by constructor.
    + inversion 1. eauto 10.
  - split; [done|by inversion 1].
Qed.

Lemma strict_json_Ok l value : strict_json l = Ok value ↔ raw_end l = true ∧ denotes (raw_value l) value.
Proof.
  unfold strict_json. pose proof (strict_value_denotes (raw_value l)) as Hs. unfold denoted in Hs. rewrite <- Hs. clear Hs. split.
  - intros Hv. bind Hv as v1 Hv1. bind Hv as u Hu. injection Hv as <-. apply map_err_Ok in Hv1.
    by apply reject_if_Ok, negb_false_iff in Hu.
  - intros [Hend ->]. simpl. by rewrite Hend.
Qed.

(** C30. Response documents are typed and canonical: bytes are admitted for a route exactly
    when they are non-empty, within the response limit, and the deserializer reads them to
    their end as a value without [null] and without a repeated field in any object, at any
    depth; that value is of the route's response model (exactly the declared fields, each of
    its declared type, nested at most 25 levels); and the bytes are its canonical text. *)
Theorem response_documents_are_typed route l document :
  from_canonical_bytes contract route l = Ok document ↔
  ∃ value, l ≠ [] ∧ Z.of_nat (length l) ≤ RHI_ADMIN_RESPONSE_BODY_MAX_UTF8_BYTES ∧
    raw_end l = true ∧ denotes (raw_value l) value ∧
    of_model contract (response_model route) value ∧
    to_vec value = Some l ∧ document = MkResponse route l value.
Proof.
  unfold from_canonical_bytes. split.
  - intros Hd. bind Hd as [] Hempty. bind Hd as [] Hmax. bind Hd as value Hjson.
    bind Hd as [] Hm. bind Hd as canonical Hvec. bind Hd as [] Hcanonical.
    apply reject_if_Ok in Hempty, Hmax, Hcanonical. to_prop. apply ok_or_Ok in Hvec.
    apply validate_model_Ok in Hm. subst canonical. injection Hd as <-. apply strict_json_Ok in Hjson as [Hend Hden].
    exists value. split_and!; try done. by intros ->.
  - intros (value & Hne & Hmax & Hend & Hden & Hm & Hvec & ->).
    destruct l as [|b l]; [done|]. simpl (length _ =? 0)%nat. cbn [reject_if and_then].
    rewrite (proj2 (Z.ltb_ge _ _)) by exact Hmax. cbn [reject_if and_then].
    rewrite (proj2 (strict_json_Ok _ _) (conj Hend Hden)). cbn [and_then].
    apply validate_model_Ok in Hm. rewrite Hm. simpl. rewrite Hvec. simpl.
    by rewrite bool_decide_true.
Qed.
End documents.

(** ** A concrete contract *)

Definition demo_contract : json :=
  JObject [("admin", JObject
    [("models", JObject
       [("sources_query_v1", JObject
          [("fields", JObject
             [("completion", JObject [("type", JString "source_completion"); ("presence", JString "optional")]);
              ("limit", JObject [("type", JString "page_limit"); ("presence", JString "required")]);
              ("required", JObject [("type", JString "bool"); ("presence", JString "optional")])])])]);
     ("types", JObject
       [("bool", JObject [("kind", JString "boolean")]);
        ("page_limit", JObject [("kind", JString "integer"); ("minimum", JNumber 1); ("maximum", JNumber 200)]);
        ("source_completion", JObject [("kind", JString "enum"); ("values", JArray [JString "complete"])])])])].

#[local] Existing Instance json_value.
#[local] Existing Instance json_tree.
#[local] Existing Instance json_writer.
#[local] Instance no_urls : UrlLibrary := λ _, None.

Definition demo_query_fields : list (string * string) :=
  [("limit", "10"); ("required", "true"); ("completion", "complete")].

Definition demo_query_values : list json := [JNumber 10; JBool true; JString "complete"].

Lemma query_roundtrip_witness :
  query_text demo_query_fields = "limit=10&required=true&completion=complete" ∧
  query_model (Some demo_contract) Sources (Some (query_text demo_query_fields)) =
    Some (Ok (json_object (zip demo_query_fields.*1 demo_query_values))).
Proof.
  split; [vm_compute; reflexivity|].
  eapply (query_roundtrip (Some demo_contract) Sources).
  - vm_compute. reflexivity.
  - discriminate.
  - apply (bool_decide_unpack _). vm_compute. exact I.
  - repeat constructor; try discriminate; try (vm_compute; eexists; reflexivity);
      (eexists; eexists; split; [vm_compute; reflexivity|split; vm_compute; reflexivity]).
Defined.
End AdminRequestSafety.
