(* ===== verification/AdminJournal.v ===== *)
(** * The admin operation journal: [src/src/state_admin.rs]

    Durable idempotency of operator mutations: the table [rhi_admin_operations] of
    [src/src/state_catalog.rs], the identity of a request, admission with pruning, and the
    completion of an operation in its own transaction or together with its effect. *)

From stdpp Require Import list strings.
From S2P Require Import Prelude Sql Interfaces JsonTree Admin AdminRequest PublicationState.

Module Journal.
Import Admin AdminRequest.

Definition RHI_ADMIN_OPERATION_ID_MAX_BYTES : Z := 128.
Definition RHI_ADMIN_OPERATION_RESPONSE_MODEL_MAX_BYTES : Z := 8192.
Definition RHI_ADMIN_OPERATION_COMPLETED_LIMIT : Z := 4096.
Definition RHI_ADMIN_OPERATION_PREPARED_LIMIT : Z := 128.
Definition RHI_ADMIN_OPERATION_DEFAULT_RETENTION_MS : Z := 604800000.
Definition REQUEST_DIGEST_DOMAIN : bytes := as_bytes "radroots.rhi.admin_operation_request.v1" ++ [0].
Definition PRUNE_LIMIT : nat := 4096.

Inductive RhiAdminOperationErrorKind : Type :=
| InvalidMode | InvalidInput | OperationConflict | OperationOutcomeUnknown | ResourceExhausted
| Binding | Transaction | CommitOutcomeUnknown.

Inductive AdminJournalOperationError : Type :=
| OpInvalidInput | OpConflict | OpOutcomeUnknown | OpResourceExhausted | OpBinding | OpStorage.

(** ** [rhi_admin_operations] *)

Record operation_row : Type := OperationRow {
  op_operation_id : string;
  op_route : string;
  op_request_sha256 : bytes;
  op_state : string;
  op_response_model : option bytes;
  op_response_sha256 : option bytes;
  op_prepared_at_unix_ms : Z;
  op_completed_at_unix_ms : option Z;
  op_expires_at_unix_ms : option Z;
}.

#[export] Instance operation_row_eq_dec : EqDecision operation_row.
Proof. solve_decision. Defined.

(** The three [CHECK]s of [operation_id] *)
Definition operation_id_check (s : string) : bool :=
  between 1 128 (text_len s)
  && is_some_and is_ascii_alphanumeric (head (as_bytes s))
  && forallb bounded_id_byte (as_bytes s).

Definition is_prepared (r : operation_row) : bool := String.eqb (op_state r) "prepared".
Definition is_completed (r : operation_row) : bool := String.eqb (op_state r) "completed".

Definition operation_shape (r : operation_row) : bool :=
  (is_prepared r && is_null (op_response_model r) && is_null (op_response_sha256 r)
   && is_null (op_completed_at_unix_ms r) && is_null (op_expires_at_unix_ms r))
  || (is_completed r && negb (is_null (op_response_model r)) && negb (is_null (op_response_sha256 r))
      && negb (is_null (op_completed_at_unix_ms r)) && negb (is_null (op_expires_at_unix_ms r))).

Definition operation_check (r : operation_row) : bool :=
  operation_id_check (op_operation_id r)
  && between 1 128 (text_len (op_route r))
  && PubState.blob_of 32 (op_request_sha256 r)
  && PubState.one_of ["prepared"; "completed"] (op_state r)
  && is_none_or (λ b, between 1 8192 (Z.of_nat (length b))) (op_response_model r)
  && is_none_or (PubState.blob_of 32) (op_response_sha256 r)
  && between 0 I64_MAX (op_prepared_at_unix_ms r)
  && is_none_or (between (op_prepared_at_unix_ms r) I64_MAX) (op_completed_at_unix_ms r)
  && is_none_or (λ e, check_passes (sql_and ((λ c, c <=? e) <$> op_completed_at_unix_ms r)
                                      (Some (e <=? I64_MAX)))) (op_expires_at_unix_ms r)
  && operation_shape r.

(** [rhi_admin_operations_guard_update] *)
Definition operation_guard (old new : operation_row) : bool :=
  is_prepared old && is_completed new
  && String.eqb (op_operation_id new) (op_operation_id old)
  && String.eqb (op_route new) (op_route old)
  && bytes_eqb (op_request_sha256 new) (op_request_sha256 old)
  && (op_prepared_at_unix_ms new =? op_prepared_at_unix_ms old)
  && negb (is_null (op_response_model new)) && negb (is_null (op_response_sha256 new))
  && negb (is_null (op_completed_at_unix_ms new)) && negb (is_null (op_expires_at_unix_ms new)).

#[export] Instance operation_table : Table operation_row := {|
  row_check := operation_check;
  row_guard := operation_guard;
  row_conflict := λ r o, String.eqb (op_operation_id r) (op_operation_id o);
|}.

(** ** Identities *)

(** [AdminOperationIdBinding::new] *)
Definition operation_id_binding_new (value : string) : result RhiAdminOperationErrorKind string :=
  reject_if
    (negb (negb (length (as_bytes value) =? 0)%nat
           && (text_len value <=? RHI_ADMIN_OPERATION_ID_MAX_BYTES)
           && is_some_and is_ascii_alphanumeric (head (as_bytes value))
           && forallb bounded_id_byte (as_bytes value))) InvalidInput ;?
  Ok value.

(** [RhiAdminOperationTimeUnixMs::new] *)
Definition operation_time_new (value : Z) : result RhiAdminOperationErrorKind Z :=
  ok_or (try_from I64_MAX value) InvalidInput.

Record RhiAdminOperationJournalPolicy : Type := MkPolicy { completed_retention_ms : Z }.

Definition seven_days : RhiAdminOperationJournalPolicy := MkPolicy RHI_ADMIN_OPERATION_DEFAULT_RETENTION_MS.

Record AdminRequestBinding : Type := MkBinding {
  b_operation_id : string;
  b_route : RhiAdminRoute;
  b_request_sha256 : bytes;
}.

Record PreparedBinding : Type := MkPrepared {
  p_operation_id : string;
  p_route : RhiAdminRoute;
  p_request_sha256 : bytes;
  p_prepared_at : Z;
}.

Inductive StoredOperation : Type :=
| StoredPrepared (route : RhiAdminRoute) (request_sha256 : bytes) (prepared_at : Z)
| StoredCompleted (route : RhiAdminRoute) (request_sha256 : bytes) (response response_sha256 : bytes)
    (prepared_at completed_at expires_at : Z).

Inductive RhiAdminOperationCompletion : Type := Completed | ExactReplay.

(** [RhiPreparedAdminOperation] has the fields of [PreparedBinding]. *)
Inductive RhiAdminOperationAdmission (V : Type) : Type :=
| AdmissionPrepared (prepared : PreparedBinding)
| AdmissionReplay (response : RhiAdminResponseDocument V).
Arguments AdmissionPrepared {V} _.
Arguments AdmissionReplay {V} _.

Definition parse_route (value : string) : option RhiAdminRoute :=
  List.find (λ r, is_mutation r && String.eqb (operation_id r) value) ALL.

(** ** Statements *)

Definition expired (now : Z) (r : operation_row) : bool :=
  is_completed r && col_le (op_expires_at_unix_ms r) now.

(** [ORDER BY expires_at_unix_ms, operation_id]; a completed row has an expiry. *)
Definition prune_order : operation_row → operation_row → comparison :=
  cmp_then (cmp_on (λ r, default (-1) (op_expires_at_unix_ms r)) Z.compare)
    (cmp_on (λ r, as_bytes (op_operation_id r)) bytes_cmp).

Definition PRUNE_EXPIRED_SQL (now : Z) (limit : nat) (rows : list operation_row) : list operation_row :=
  let pruned := map op_operation_id (take limit (sort_by prune_order (List.filter (expired now) rows))) in
  List.filter (λ r, negb (existsb (String.eqb (op_operation_id r)) pruned)) rows.

Definition has_id (i : string) (r : operation_row) : bool := String.eqb (op_operation_id r) i.

Definition READ_OPERATION_SQL (i : string) (rows : list operation_row) : list operation_row :=
  take 2 (List.filter (has_id i) rows).

Definition READ_COUNTS_SQL (rows : list operation_row) : Z * Z :=
  (Z.of_nat (length (List.filter is_completed rows)), Z.of_nat (length (List.filter is_prepared rows))).

Definition INSERT_PREPARED_SQL (i route : string) (request : bytes) (prepared_at : Z) : operation_row :=
  OperationRow i route request "prepared" None None prepared_at None None.

Definition completed_with (response sha : bytes) (completed_at expires_at : Z) (r : operation_row) :
    operation_row :=
  OperationRow (op_operation_id r) (op_route r) (op_request_sha256 r) "completed" (Some response) (Some sha)
    (op_prepared_at_unix_ms r) (Some completed_at) (Some expires_at).

Definition COMPLETE_OPERATION_SQL (response sha : bytes) (completed_at expires_at : Z) (i : string)
    (rows : list operation_row) :=
  update_rows (λ r, has_id i r && is_prepared r) (completed_with response sha completed_at expires_at) rows.

(** ** Decoding *)

Definition binding_error {A} : result AdminJournalOperationError A := Err OpBinding.

(** [exact_digest] on [CASE WHEN length(..) = 32 THEN .. ELSE NULL END] *)
Definition exact_digest (column : option bytes) : result AdminJournalOperationError bytes :=
  let? value := ok_or (filter_opt (PubState.blob_of 32) column) OpBinding in
  ok_or (filter_opt (PubState.blob_of 32) (Some value)) OpBinding.

Definition time (column : option Z) : result AdminJournalOperationError Z :=
  let? value := ok_or column OpBinding in
  let? value := ok_or (try_from U64_MAX value) OpBinding in
  map_err (λ _, OpBinding) (operation_time_new value).

Definition require_null {A} (column : option A) : result AdminJournalOperationError unit :=
  reject_if (negb (is_null column)) OpBinding.

(** [typeof(column)] is the declared type of a [STRICT] column that is not [NULL]. *)
Definition require_type {A} (column : option A) : result AdminJournalOperationError unit :=
  reject_if (is_null column) OpBinding.

Definition decode_operation (r : operation_row) : result AdminJournalOperationError StoredOperation :=
  let? route := ok_or (filter_opt (λ s, between 1 128 (text_len s)) (Some (op_route r)) ≫= parse_route) OpBinding in
  let? request_sha256 := exact_digest (Some (op_request_sha256 r)) in
  let? state := ok_or (filter_opt (λ s, text_len s <=? 16) (Some (op_state r))) OpBinding in
  let? prepared_at := time (Some (op_prepared_at_unix_ms r)) in
  if String.eqb state "prepared" then
    require_null (op_response_model r) ;?
    require_null (op_response_sha256 r) ;?
    require_null (op_completed_at_unix_ms r) ;?
    require_null (op_expires_at_unix_ms r) ;?
    Ok (StoredPrepared route request_sha256 prepared_at)
  else if String.eqb state "completed" then
    require_type (op_response_model r) ;?
    require_type (op_response_sha256 r) ;?
    require_type (op_completed_at_unix_ms r) ;?
    require_type (op_expires_at_unix_ms r) ;?
    let? response :=
      ok_or (filter_opt (λ b, between 1 8192 (Z.of_nat (length b))) (op_response_model r)) OpBinding in
    let? response_sha256 := exact_digest (op_response_sha256 r) in
    let? completed_at := time (op_completed_at_unix_ms r) in
    let? expires_at := time (op_expires_at_unix_ms r) in
    Ok (StoredCompleted route request_sha256 response response_sha256 prepared_at completed_at expires_at)
  else binding_error.

Definition read_operation (i : string) (rows : list operation_row) :
    result AdminJournalOperationError (option StoredOperation) :=
  match READ_OPERATION_SQL i rows with
  | [] => Ok None
  | [r] => let? o := decode_operation r in Ok (Some o)
  | _ => binding_error
  end.

Definition read_counts (rows : list operation_row) : result AdminJournalOperationError (Z * Z) :=
  let '(completed, prepared) := READ_COUNTS_SQL rows in
  let? completed := ok_or (try_from U64_MAX completed) OpBinding in
  let? prepared := ok_or (try_from U64_MAX prepared) OpBinding in
  Ok (completed, prepared).

Definition require_one (rows_affected : Z) : result AdminJournalOperationError unit :=
  reject_if (negb (rows_affected =? 1)) OpStorage.

(** ** Operations on the journal *)

Section journal.
Context {V : Type} `{Sha256, !JsonValue V, !JsonTree V, !JsonWriter V, !StrictReader V, UrlLibrary}.
Context (contract : option V).

Definition request_digest (request : RhiAdminRequestDocument) : bytes :=
  sha256 (REQUEST_DIGEST_DOMAIN ++ framed (as_bytes (operation_id (rq_route request))) ++ [0]
          ++ framed (rq_model_bytes request)).

Definition from_document (request : RhiAdminRequestDocument) :
    result RhiAdminOperationErrorKind AdminRequestBinding :=
  reject_if (negb (is_mutation (rq_route request))) InvalidInput ;?
  let? i := ok_or (rq_operation_id request) InvalidInput in
  let? i := operation_id_binding_new i in
  Ok (MkBinding i (rq_route request) (request_digest request)).

Definition same_request (b : AdminRequestBinding) (route : RhiAdminRoute) (request_sha256 : bytes) : bool :=
  bool_decide (route = b_route b) && bytes_eqb request_sha256 (b_request_sha256 b).

Definition prune_expired (now : Z) (rows : list operation_row) : list operation_row :=
  PRUNE_EXPIRED_SQL now PRUNE_LIMIT rows.

Definition prepare_operation (b : AdminRequestBinding) (observed_at : Z) (rows : list operation_row) :
    result AdminJournalOperationError (RhiAdminOperationAdmission V * list operation_row) :=
  let rows := prune_expired observed_at rows in
  let? existing := read_operation (b_operation_id b) rows in
  match existing with
  | Some (StoredPrepared route request _) =>
      if same_request b route request then Err OpOutcomeUnknown else Err OpConflict
  | Some (StoredCompleted route request response response_sha256 _ _ _) =>
      if same_request b route request then
        reject_if (negb (bytes_eqb (sha256 response) response_sha256)) OpBinding ;?
        let? document := map_err (λ _, OpBinding) (from_canonical_bytes contract route response) in
        Ok (AdmissionReplay document, rows)
      else Err OpConflict
  | None =>
      let? (completed, prepared) := read_counts rows in
      let? reserved := ok_or (u64_checked_add completed prepared) OpBinding in
      reject_if ((RHI_ADMIN_OPERATION_COMPLETED_LIMIT <=? reserved)
                 || (RHI_ADMIN_OPERATION_PREPARED_LIMIT <=? prepared)) OpResourceExhausted ;?
      let? rows :=
        map_err (λ _, OpStorage)
          (insert_row (λ _, true)
             (INSERT_PREPARED_SQL (b_operation_id b) (operation_id (b_route b)) (b_request_sha256 b)
                observed_at) rows) in
      let? inserted := read_operation (b_operation_id b) rows in
      match inserted with
      | Some (StoredPrepared route request prepared_at) =>
          reject_if (negb (same_request b route request && (prepared_at =? observed_at))) OpBinding ;?
          Ok (AdmissionPrepared (MkPrepared (b_operation_id b) route request prepared_at), rows)
      | _ => binding_error
      end
  end.

Definition same_prepared (p : PreparedBinding) (route : RhiAdminRoute) (request_sha256 : bytes) : bool :=
  bool_decide (route = p_route p) && bytes_eqb request_sha256 (p_request_sha256 p).

Definition complete_operation (p : PreparedBinding) (response : bytes) (completed_at expires_at : Z)
    (rows : list operation_row) :
    result AdminJournalOperationError (RhiAdminOperationCompletion * list operation_row) :=
  let response_sha256 := sha256 response in
  let? existing := read_operation (p_operation_id p) rows in
  match existing with
  | Some (StoredCompleted route request existing_response existing_sha256 _ _ _) =>
      if same_prepared p route request && bytes_eqb existing_response response
         && bytes_eqb existing_sha256 response_sha256
      then Ok (ExactReplay, rows)
      else Err OpConflict
  | Some (StoredPrepared route request prepared_at) =>
      if same_prepared p route request && (prepared_at =? p_prepared_at p) then
        let? (completed, _) := read_counts rows in
        reject_if (RHI_ADMIN_OPERATION_COMPLETED_LIMIT <=? completed) OpResourceExhausted ;?
        let? expires_value := ok_or (try_from I64_MAX expires_at) OpInvalidInput in
        let? (rows, affected) :=
          map_err (λ _, OpStorage)
            (COMPLETE_OPERATION_SQL response response_sha256 completed_at expires_value
               (p_operation_id p) rows) in
        require_one affected ;?
        let? stored := read_operation (p_operation_id p) rows in
        match stored with
        | Some (StoredCompleted route request actual_response actual_sha256 prepared_at actual_completed_at
                  actual_expires_at) =>
            reject_if
              (negb (same_prepared p route request && bytes_eqb actual_response response
                     && bytes_eqb actual_sha256 response_sha256 && (prepared_at =? p_prepared_at p)
                     && (actual_completed_at =? completed_at) && (actual_expires_at =? expires_at)))
              OpBinding ;?
            Ok (Completed, rows)
        | _ => binding_error
        end
      else Err OpConflict
  | None => binding_error
  end.

(** ** The repository *)

(** The journal beside the tables an operation works on *)
Record admin_db (D : Type) : Type := AdminDb {
  ad_operations : list operation_row;
  ad_state : D;
}.
Arguments AdminDb {D} _ _.
Arguments ad_operations {D} _.
Arguments ad_state {D} _.

Definition map_transaction_error (e : tx_error AdminJournalOperationError) : RhiAdminOperationErrorKind :=
  if commit_outcome_unknown e then CommitOutcomeUnknown
  else
    match operation_error e with
    | Some OpInvalidInput => InvalidInput
    | Some OpConflict => OperationConflict
    | Some OpOutcomeUnknown => OperationOutcomeUnknown
    | Some OpResourceExhausted => ResourceExhausted
    | Some OpBinding => Binding
    | Some OpStorage | None => Transaction
    end.

(** [completed_at.checked_add(retention).filter(fits i64)] *)
Definition expiry (completed_at : Z) (policy : RhiAdminOperationJournalPolicy) :
    result RhiAdminOperationErrorKind Z :=
  ok_or (filter_opt (λ v, v <=? I64_MAX) (u64_checked_add completed_at (completed_retention_ms policy)))
    InvalidInput.

Definition response_fits (route : RhiAdminRoute) (response : RhiAdminResponseDocument V) : bool :=
  bool_decide (rs_route response = route)
  && negb (length (rs_canonical_bytes response) =? 0)%nat
  && (Z.of_nat (length (rs_canonical_bytes response)) <=? RHI_ADMIN_OPERATION_RESPONSE_MODEL_MAX_BYTES).

Section repository.
Context {D : Type} `{TransactionHost (admin_db D)}.

(** [host.mode() == ReadWriteExisting] *)
Context (writable : bool).

Definition run {A} (op : admin_db D → result AdminJournalOperationError (A * admin_db D)) (db : admin_db D) :
    result RhiAdminOperationErrorKind A * admin_db D :=
  let '(r, db) := transaction op db in (map_err map_transaction_error r, db).

(** The transaction of [execute_database_admin_operation]; the operation works on the
    tables beside the journal. *)
Definition execute_op (b : AdminRequestBinding) (completed_at expires_at : Z)
    (operation : D → result AdminJournalOperationError (RhiAdminResponseDocument V * D)) (db : admin_db D) :
    result AdminJournalOperationError (RhiAdminResponseDocument V * admin_db D) :=
  let? (admission, rows) := prepare_operation b completed_at (ad_operations db) in
  match admission with
  | AdmissionReplay response => Ok (response, AdminDb rows (ad_state db))
  | AdmissionPrepared prepared =>
      let? (response, state) := operation (ad_state db) in
      reject_if (negb (response_fits (b_route b) response)) OpInvalidInput ;?
      let? (_, rows) := complete_operation prepared (rs_canonical_bytes response) completed_at expires_at rows in
      Ok (response, AdminDb rows state)
  end.

Definition execute_database_admin_operation (request : RhiAdminRequestDocument) (completed_at : Z)
    (policy : RhiAdminOperationJournalPolicy)
    (operation : D → result AdminJournalOperationError (RhiAdminResponseDocument V * D)) (db : admin_db D) :
    result RhiAdminOperationErrorKind (RhiAdminResponseDocument V) * admin_db D :=
  if negb writable then (Err InvalidMode, db)
  else
    match (let? b := from_document request in
           let? expires_at := expiry completed_at policy in Ok (b, expires_at)) with
    | Err e => (Err e, db)
    | Ok (b, expires_at) => run (execute_op b completed_at expires_at operation) db
    end.

Definition prepare_op (b : AdminRequestBinding) (observed_at : Z) (db : admin_db D) :
    result AdminJournalOperationError (RhiAdminOperationAdmission V * admin_db D) :=
  let? (admission, rows) := prepare_operation b observed_at (ad_operations db) in
  Ok (admission, AdminDb rows (ad_state db)).

Definition prepare_admin_operation (request : RhiAdminRequestDocument) (observed_at : Z) (db : admin_db D) :
    result RhiAdminOperationErrorKind (RhiAdminOperationAdmission V) * admin_db D :=
  if negb writable then (Err InvalidMode, db)
  else
    match from_document request with
    | Err e => (Err e, db)
    | Ok b => run (prepare_op b observed_at) db
    end.

Definition complete_op (p : PreparedBinding) (response : bytes) (completed_at expires_at : Z) (db : admin_db D) :
    result AdminJournalOperationError (RhiAdminOperationCompletion * admin_db D) :=
  let? (completion, rows) := complete_operation p response completed_at expires_at (ad_operations db) in
  Ok (completion, AdminDb rows (ad_state db)).

Definition complete_admin_operation (p : PreparedBinding) (response : RhiAdminResponseDocument V)
    (completed_at : Z) (policy : RhiAdminOperationJournalPolicy) (db : admin_db D) :
    result RhiAdminOperationErrorKind RhiAdminOperationCompletion * admin_db D :=
  if negb writable then (Err InvalidMode, db)
  else if negb (response_fits (p_route p) response) || (completed_at <? p_prepared_at p)
  then (Err InvalidInput, db)
  else
    match expiry completed_at policy with
    | Err e => (Err e, db)
    | Ok expires_at =>
        run (complete_op p (rs_canonical_bytes response) completed_at expires_at) db
    end.
End repository.
End journal.

Arguments AdminDb {D} _ _.
Arguments ad_operations {D} _.
Arguments ad_state {D} _.
End Journal.
