(* ===== verification/AdminJournalSafety.v ===== *)
(** * Correctness of the admin operation journal

    The journal of [AdminJournal] stays well formed and bounded under every history; an
    operation and its receipt commit together; a repeated request is answered from its
    receipt and never run again; and an identity is never reused for another request. *)

From Stdlib Require Import ZArith Lia.
From stdpp Require Import list strings relations.
From S2P Require Import Prelude Sql Interfaces JsonTree Admin AdminRequest PublicationState AdminJournal.

Module JournalSafety.
Import Admin AdminRequest Journal.

(** ** Rows *)

Lemma operation_conflict_sym (r o : operation_row) : row_conflict r o = row_conflict o r.
Proof. simpl. by rewrite String.eqb_sym. Qed.

Lemma parse_route_mutation route : is_mutation route = true → parse_route (operation_id route) = Some route.
Proof. by destruct route. Qed.

Lemma operation_id_length route : between 1 128 (text_len (operation_id route)) = true.
Proof. by destruct route. Qed.

Section journal.
Context {V : Type} `{Sha256, !Sha256Laws, !JsonValue V, !JsonTree V, !JsonWriter V, !StrictReader V, UrlLibrary}.
Context (contract : option V).

(** A response document is only built from its canonical bytes. *)
Definition document_valid (d : RhiAdminResponseDocument V) : Prop :=
  from_canonical_bytes contract (rs_route d) (rs_canonical_bytes d) = Ok d.

Lemma from_canonical_bytes_valid route l d :
  from_canonical_bytes contract route l = Ok d →
  document_valid d ∧ rs_route d = route ∧ rs_canonical_bytes d = l.
Proof.
  intros Hd. assert (rs_route d = route ∧ rs_canonical_bytes d = l) as [Hr Hl].
  { unfold from_canonical_bytes in Hd. inv_ok. to_prop. done. }
  unfold document_valid. by rewrite Hr, Hl.
Qed.

(** What the journal wrote: a known route, and with a response its digest. *)
Definition row_sound (r : operation_row) : Prop :=
  ∃ route, is_mutation route = true ∧ op_route r = operation_id route ∧
    ∀ response, op_response_model r = Some response →
      op_response_sha256 r = Some (sha256 response) ∧
      ∃ d, from_canonical_bytes contract route response = Ok d.

Record journal_inv (rows : list operation_row) : Prop := {
  ji_rows : rows_ok rows = true;
  ji_sound : Forall row_sound rows;
  ji_total : Z.of_nat (length rows) ≤ RHI_ADMIN_OPERATION_COMPLETED_LIMIT;
  ji_prepared : Z.of_nat (length (List.filter is_prepared rows)) ≤ RHI_ADMIN_OPERATION_PREPARED_LIMIT;
}.

Definition find_operation (i : string) (rows : list operation_row) : option operation_row :=
  List.find (has_id i) rows.

(** ** Decoding stored rows *)

Lemma try_from_intro m v : 0 ≤ v ≤ m → try_from m v = Some v.
Proof. intros ?. by apply try_from_Some. Qed.

Lemma i64_u64 v : v ≤ I64_MAX → v ≤ U64_MAX.
Proof. unfold I64_MAX, U64_MAX. lia. Qed.

Lemma time_Some t : 0 ≤ t ≤ I64_MAX → time (Some t) = Ok t.
Proof.
  intros Ht. pose proof (i64_u64 t). unfold time, operation_time_new. simpl.
  rewrite try_from_intro by lia. simpl. by rewrite try_from_intro by lia.
Qed.

Lemma exact_digest_Some l : PubState.blob_of 32 l = true → exact_digest (Some l) = Ok l.
Proof. intros Hl. unfold exact_digest. simpl. by rewrite Hl; simpl; rewrite Hl. Qed.

(** What the columns of a checked row are. *)
Inductive row_view (r : operation_row) : Prop :=
| view_prepared :
    is_prepared r = true → is_completed r = false → op_response_model r = None →
    op_response_sha256 r = None → op_completed_at_unix_ms r = None → op_expires_at_unix_ms r = None →
    row_view r
| view_completed response sha completed_at expires_at :
    is_prepared r = false → is_completed r = true → op_response_model r = Some response →
    op_response_sha256 r = Some sha → op_completed_at_unix_ms r = Some completed_at →
    op_expires_at_unix_ms r = Some expires_at →
    between 1 8192 (Z.of_nat (length response)) = true → PubState.blob_of 32 sha = true →
    0 ≤ completed_at ≤ I64_MAX → 0 ≤ expires_at ≤ I64_MAX → row_view r.

Lemma row_check_view r :
  row_check r = true →
  row_view r ∧ PubState.blob_of 32 (op_request_sha256 r) = true ∧ 0 ≤ op_prepared_at_unix_ms r ≤ I64_MAX ∧
  between 1 128 (text_len (op_route r)) = true.
Proof.
  destruct r as [i route req st resp sha prep comp exp]. simpl. unfold operation_check. simpl.
  intros Hc. unfold between in *. to_prop.
  split; [|by split_and!; try lia; (rewrite andb_true_iff, !Z.leb_le; lia) || done].
  unfold operation_shape, is_prepared, is_completed in *. simpl in *.
  match goal with H : (_ || _) = true |- _ => apply orb_true_iff in H as [H|H] end; to_prop.
  - destruct resp, sha, comp, exp; try done. apply view_prepared; simpl; try done.
    match goal with H : String.eqb st "prepared" = true |- _ => apply String.eqb_eq in H as -> end. done.
  - destruct resp as [resp|], sha as [sha|], comp as [comp|], exp as [exp|]; try done. simpl in *. to_prop.
    match goal with H : String.eqb st "completed" = true |- _ => apply String.eqb_eq in H as -> end.
    assert (comp ≤ exp ∧ exp ≤ I64_MAX) as [? ?].
    { unfold check_passes, sql_and in *.
      destruct (Z.leb_spec comp exp), (Z.leb_spec exp I64_MAX); try done; simpl in *;
        match goal with H : negb (bool_decide _) = true |- _ => by vm_compute in H end. }
    eapply view_completed; simpl; try done; try lia.
    unfold between. rewrite andb_true_iff, !Z.leb_le. lia.
Qed.

Lemma decode_prepared r :
  row_check r = true → row_sound r → is_prepared r = true →
  ∃ route, is_mutation route = true ∧ op_route r = operation_id route ∧
    decode_operation r = Ok (StoredPrepared route (op_request_sha256 r) (op_prepared_at_unix_ms r)).
Proof.
  intros Hc (route & Hm & Hroute & _) Hp. exists route. split_and!; [done..|].
  destruct (row_check_view r Hc) as ([|] & Hreq & Hprep & _); [|congruence].
  unfold decode_operation. rewrite Hroute. simpl. rewrite operation_id_length. simpl.
  rewrite parse_route_mutation by done. simpl. rewrite exact_digest_Some by done. simpl.
  unfold is_prepared in Hp. apply String.eqb_eq in Hp. rewrite Hp. simpl.
  rewrite time_Some by done. simpl.
  by rewrite H4, H5, H6, H7.
Qed.

Lemma decode_completed r :
  row_check r = true → row_sound r → is_completed r = true →
  ∃ route response d completed_at expires_at, is_mutation route = true ∧ op_route r = operation_id route ∧
    op_response_model r = Some response ∧ op_expires_at_unix_ms r = Some expires_at ∧
    op_completed_at_unix_ms r = Some completed_at ∧
    from_canonical_bytes contract route response = Ok d ∧
    decode_operation r =
      Ok (StoredCompleted route (op_request_sha256 r) response (sha256 response) (op_prepared_at_unix_ms r)
            completed_at expires_at).
Proof.
  intros Hc (route & Hm & Hroute & Hresp) Hp.
  destruct (row_check_view r Hc) as ([|response sha completed_at expires_at ? ? Hmodel Hsha Hca Hea Hlen Hblob Hcr Her]
    & Hreq & Hprep & _); [congruence|].
  destruct (Hresp _ Hmodel) as [Hsha' [d Hd]]. rewrite Hsha in Hsha'. injection Hsha' as ->.
  exists route, response, d, completed_at, expires_at. split_and!; [done..|].
  unfold decode_operation. rewrite Hroute. simpl. rewrite operation_id_length. simpl.
  rewrite parse_route_mutation by done. simpl. rewrite exact_digest_Some by done. simpl.
  unfold is_completed in Hp. apply String.eqb_eq in Hp. rewrite Hp. simpl.
  rewrite time_Some by done. simpl. rewrite Hmodel, Hsha, Hca, Hea. simpl. rewrite Hlen. simpl.
  rewrite exact_digest_Some by done. simpl. by rewrite !time_Some.
Qed.

(** ** Reading *)

Lemma has_id_conflict i r o : has_id i r = true → has_id i o = true → row_conflict r o = true.
Proof.
  unfold has_id. simpl. rewrite !String.eqb_eq. by intros -> ->.
Qed.

Lemma read_operation_find i rows :
  rows_ok rows = true →
  read_operation i rows =
    match find_operation i rows with
    | None => Ok None
    | Some r => let? o := decode_operation r in Ok (Some o)
    end.
Proof.
  intros Hok. unfold read_operation, READ_OPERATION_SQL, find_operation.
  destruct (filter_unique (has_id i) rows Hok (has_id_conflict i)) as [Hf|(r & Hr & Hp & Hf)]; rewrite Hf.
  - destruct (List.find (has_id i) rows) as [r|] eqn:Hfind; [|done]. exfalso.
    apply find_some in Hfind as Hin. rewrite <- filter_In, Hf in Hin. done.
  - simpl. destruct (List.find (has_id i) rows) as [o|] eqn:Hfind.
    + apply find_some in Hfind as Hin. rewrite <- filter_In, Hf in Hin. by destruct Hin as [->|[]].
    + apply list_elem_of_In in Hr. by rewrite (find_none _ _ Hfind _ Hr) in Hp.
Qed.

Lemma find_operation_elem i rows r :
  find_operation i rows = Some r → r ∈ rows ∧ op_operation_id r = i.
Proof.
  intros [Hin Hi]%find_some. split; [by apply list_elem_of_In|]. by apply String.eqb_eq.
Qed.

Lemma state_partition rows :
  Forall (λ r, row_check r = true) rows →
  (length (List.filter is_completed rows) + length (List.filter is_prepared rows) = length rows)%nat.
Proof.
  induction 1 as [|r rows Hr _ IH]; simpl; [done|].
  destruct (row_check_view r Hr) as ([-> ->|? ? ? ? -> ->] & _); simpl; lia.
Qed.

Lemma rows_checked rows : rows_ok rows = true → Forall (λ r, row_check r = true) rows.
Proof. intros Hok. apply list.Forall_forall. intros r Hr. by apply (rows_ok_check rows). Qed.

Lemma read_counts_Ok rows :
  journal_inv rows →
  read_counts rows = Ok (Z.of_nat (length rows) - Z.of_nat (length (List.filter is_prepared rows)),
                         Z.of_nat (length (List.filter is_prepared rows))) ∧
  0 ≤ Z.of_nat (length rows) - Z.of_nat (length (List.filter is_prepared rows)).
Proof.
  intros [Hok _ Htotal _]. pose proof (state_partition rows (rows_checked rows Hok)) as Hp.
  unfold read_counts, READ_COUNTS_SQL. unfold RHI_ADMIN_OPERATION_COMPLETED_LIMIT in Htotal.
  split; [|lia]. rewrite try_from_intro by (unfold U64_MAX; lia). simpl. rewrite try_from_intro by (unfold U64_MAX; lia). simpl. do 2 f_equal. lia.
Qed.

(** ** Pruning *)

Lemma filter_rows_ok p (rows : list operation_row) :
  rows_ok rows = true → rows_ok (List.filter p rows) = true.
Proof.
  induction rows as [|r rows IH]; simpl; [done|]. intros Hok. to_prop.
  destruct (p r); simpl; [|by apply IH]. rewrite IH by done. rewrite andb_true_r.
  unfold row_admissible in *. to_prop. apply andb_true_iff. split; [done|].
  rewrite forallb_forall in *. intros o Ho. apply filter_In in Ho as [Ho _]. auto.
Qed.

Lemma filter_length_le {A} (p : A → bool) l : (length (List.filter p l) ≤ length l)%nat.
Proof. induction l as [|x l IH]; simpl; [lia|]. destruct (p x); simpl; lia. Qed.

Lemma filter_filter_length {A} (p q : A → bool) l :
  (length (List.filter p (List.filter q l)) ≤ length (List.filter p l))%nat.
Proof.
  induction l as [|x l IH]; simpl; [lia|]. destruct (q x); simpl; destruct (p x); simpl; lia.
Qed.

Lemma filter_inv p rows : journal_inv rows → journal_inv (List.filter p rows).
Proof.
  intros [Hok Hsound Htotal Hprep]. split.
  - by apply filter_rows_ok.
  - apply list.Forall_forall. intros r Hr. apply list_elem_of_In, filter_In in Hr as [Hr _].
    apply list_elem_of_In in Hr. by apply (elem_of_Forall _ _ _ Hsound).
  - pose proof (filter_length_le p rows). lia.
  - pose proof (filter_filter_length is_prepared p rows). lia.
Qed.

(** A table within its limits has no more expired rows than one statement prunes. *)
Lemma prune_all now rows :
  journal_inv rows → prune_expired now rows = List.filter (λ r, negb (expired now r)) rows.
Proof.
  intros [Hok _ Htotal _]. unfold prune_expired, PRUNE_EXPIRED_SQL.
  rewrite take_ge.
  - apply filter_ext_in. intros r Hr. f_equal. apply eq_true_iff_eq.
    rewrite existsb_exists. split.
    + intros (i & Hi & Heq). apply in_map_iff in Hi as (o & <- & Ho).
      apply list_elem_of_In in Ho. rewrite sort_by_perm in Ho.
      apply list_elem_of_In, filter_In in Ho as [Ho Hexp].
      assert (r = o) as ->; [|done].
      apply (rows_ok_unique rows r o operation_conflict_sym Hok); by apply list_elem_of_In || done.
    + intros Hexp. exists (op_operation_id r). rewrite String.eqb_refl. split; [|done].
      apply in_map, list_elem_of_In. rewrite sort_by_perm. apply list_elem_of_In, filter_In. done.
  - rewrite sort_by_perm. pose proof (filter_length_le (expired now) rows).
    unfold RHI_ADMIN_OPERATION_COMPLETED_LIMIT, PRUNE_LIMIT in *. lia.
Qed.

Definition kept (now : Z) (rows : list operation_row) : list operation_row :=
  List.filter (λ r, negb (expired now r)) rows.

(** ** Admission *)

(** What [from_document] establishes of a binding. *)
Record binding_ok (b : AdminRequestBinding) : Prop := {
  bo_id : operation_id_check (b_operation_id b) = true;
  bo_route : is_mutation (b_route b) = true;
  bo_digest : PubState.blob_of 32 (b_request_sha256 b) = true;
}.

Lemma from_document_ok request b :
  from_document request = Ok b →
  binding_ok b ∧ rq_operation_id request = Some (b_operation_id b) ∧ b_route b = rq_route request ∧
  b_request_sha256 b = request_digest request.
Proof.
  unfold from_document. intros Hb. bind Hb as [] Hm. bind Hb as i Hi. bind Hb as j Hj. injection Hb as <-.
  apply reject_if_Ok in Hm. to_prop. apply ok_or_Ok in Hi.
  unfold operation_id_binding_new in Hj. bind Hj as [] Hv. injection Hj as <-.
  apply reject_if_Ok in Hv. to_prop. simpl. split_and!; try done. split; simpl; [|done|].
  - unfold operation_id_check, between. rewrite !andb_true_iff, !Z.leb_le.
    unfold text_len in *. rewrite length_as_bytes in *.
    unfold RHI_ADMIN_OPERATION_ID_MAX_BYTES in *. apply Nat.eqb_neq in H2.
    split_and!; [lia|lia|done|done].
  - apply Nat.eqb_eq, sha256_length.
Qed.

Definition prepared_row (b : AdminRequestBinding) (now : Z) : operation_row :=
  INSERT_PREPARED_SQL (b_operation_id b) (operation_id (b_route b)) (b_request_sha256 b) now.

Lemma prepared_row_check b now : binding_ok b → 0 ≤ now ≤ I64_MAX → row_check (prepared_row b now) = true.
Proof.
  intros [Hi Hm Hd] Hnow. simpl. unfold operation_check, prepared_row, INSERT_PREPARED_SQL. simpl.
  rewrite Hi, operation_id_length, Hd. unfold between. simpl.
  rewrite !andb_true_r. apply andb_true_iff. rewrite !Z.leb_le. lia.
Qed.

Lemma prepared_row_sound b now : binding_ok b → row_sound (prepared_row b now).
Proof. intros [_ Hm _]. by exists (b_route b). Qed.

Definition same_row (b : AdminRequestBinding) (r : operation_row) : bool :=
  String.eqb (op_route r) (operation_id (b_route b)) && bytes_eqb (op_request_sha256 r) (b_request_sha256 b).

Lemma operation_id_inj r o : operation_id r = operation_id o → r = o.
Proof. by destruct r, o. Qed.

Lemma same_request_row b r route :
  op_route r = operation_id route → same_request b route (op_request_sha256 r) = same_row b r.
Proof.
  unfold same_request, same_row. intros ->. f_equal. apply eq_true_iff_eq.
  rewrite bool_decide_eq_true, String.eqb_eq. split; [by intros ->|apply operation_id_inj].
Qed.

Definition journal_full (rows : list operation_row) : bool :=
  (RHI_ADMIN_OPERATION_COMPLETED_LIMIT <=? Z.of_nat (length rows))
  || (RHI_ADMIN_OPERATION_PREPARED_LIMIT <=? Z.of_nat (length (List.filter is_prepared rows))).

Lemma filter_app_length {A} (p : A → bool) l k :
  length (List.filter p (l ++ k)) = (length (List.filter p l) + length (List.filter p k))%nat.
Proof. by rewrite List.filter_app, length_app. Qed.

Lemma find_operation_app i rows row :
  find_operation i rows = None → op_operation_id row = i → find_operation i (rows ++ [row]) = Some row.
Proof.
  unfold find_operation. intros Hfind Hid. induction rows as [|x rows IH]; simpl in *.
  - unfold has_id. by rewrite Hid, String.eqb_refl.
  - destruct (has_id i x); [done|]. by apply IH.
Qed.

(** Inserting the row of a new request in a journal that is not full. *)
Lemma insert_prepared b now rows :
  journal_inv rows → binding_ok b → 0 ≤ now ≤ I64_MAX →
  find_operation (b_operation_id b) rows = None → journal_full rows = false →
  row_admissible rows (prepared_row b now) = true ∧ journal_inv (rows ++ [prepared_row b now]).
Proof.
  intros [Hok Hsound Htotal Hprep] Hb Hnow Hfind Hfull.
  pose proof (prepared_row_check b now Hb Hnow) as Hcheck.
  assert (row_admissible rows (prepared_row b now) = true) as Hadm.
  { unfold row_admissible. rewrite Hcheck. simpl. apply forallb_forall. intros o Ho.
    pose proof (find_none _ _ Hfind _ Ho) as Hno. unfold has_id in Hno. by rewrite String.eqb_sym, Hno. }
  split; [done|]. unfold journal_full in Hfull. apply orb_false_iff in Hfull as [Ht Hp].
  apply Z.leb_gt in Ht, Hp. split.
  - rewrite (rows_ok_middle operation_conflict_sym). by rewrite app_nil_r, Hadm, Hok.
  - apply Forall_app. split; [done|]. constructor; [by apply prepared_row_sound|done].
  - rewrite length_app. simpl. lia.
  - rewrite filter_app_length. simpl. lia.
Qed.

(** Every outcome of an admission. *)
Lemma prepare_cases b now rows :
  journal_inv rows → binding_ok b → 0 ≤ now ≤ I64_MAX →
  let rows' := kept now rows in
  match find_operation (b_operation_id b) rows' with
  | None =>
      if journal_full rows' then prepare_operation contract b now rows = Err OpResourceExhausted
      else
        prepare_operation contract b now rows =
          Ok (AdmissionPrepared (MkPrepared (b_operation_id b) (b_route b) (b_request_sha256 b) now),
              rows' ++ [prepared_row b now]) ∧
        journal_inv (rows' ++ [prepared_row b now]) ∧
        find_operation (b_operation_id b) (rows' ++ [prepared_row b now]) = Some (prepared_row b now)
  | Some r =>
      if same_row b r then
        if is_prepared r then prepare_operation contract b now rows = Err OpOutcomeUnknown
        else ∃ d, prepare_operation contract b now rows = Ok (AdmissionReplay d, rows') ∧
          document_valid d ∧ rs_route d = b_route b ∧ op_response_model r = Some (rs_canonical_bytes d)
      else prepare_operation contract b now rows = Err OpConflict
  end.
Proof.
  intros Hinv Hb Hnow rows'. pose proof (filter_inv (λ r, negb (expired now r)) rows Hinv) as Hinv'.
  fold (kept now rows) in Hinv'. fold rows' in Hinv'. pose proof Hinv' as [Hok Hsound Htotal Hprep].
  unfold prepare_operation. rewrite prune_all by done. fold (kept now rows). fold rows'.
  rewrite read_operation_find by done.
  destruct (find_operation (b_operation_id b) rows') as [r|] eqn:Hfind.
  - apply find_operation_elem in Hfind as [Hr Hid].
    pose proof (rows_ok_check rows' r Hok Hr) as Hc. pose proof (elem_of_Forall _ _ _ Hsound Hr) as Hs.
    destruct (is_prepared r) eqn:Hstate.
    + destruct (decode_prepared r Hc Hs Hstate) as (route & _ & Hroute & Hd). rewrite Hd. simpl.
      rewrite (same_request_row b r) by done. by destruct (same_row b r).
    + assert (is_completed r = true) as Hcomp.
      { by destruct (row_check_view r Hc) as ([|] & _); congruence. }
      destruct (decode_completed r Hc Hs Hcomp) as
        (route & response & d & ca & ea & Hm & Hroute & Hresp & _ & _ & Hdoc & Hd). rewrite Hd. simpl.
      rewrite (same_request_row b r) by done. destruct (same_row b r) eqn:Hsame; [|done].
      rewrite bytes_eqb_refl. simpl. rewrite Hdoc. simpl.
      apply from_canonical_bytes_valid in Hdoc as (Hv & Hdr & Hdl). exists d. split_and!; [done..| |by rewrite Hdl].
      rewrite Hdr. unfold same_row in Hsame. to_prop. apply operation_id_inj.
      rewrite <- Hroute. by apply String.eqb_eq.
  - cbn [and_then]. destruct (read_counts_Ok rows' Hinv') as [-> Hge]. cbn [and_then].
    set (prepared := Z.of_nat (length (List.filter is_prepared rows'))) in *.
    set (total := Z.of_nat (length rows')) in *.
    assert (u64_checked_add (total - prepared) prepared = Some total) as ->.
    { unfold u64_checked_add. replace (total - prepared + prepared) with total by lia.
      rewrite (proj2 (Z.leb_le _ _)); [done|]. unfold RHI_ADMIN_OPERATION_COMPLETED_LIMIT, U64_MAX in *. lia. }
    cbn [and_then ok_or]. change ((RHI_ADMIN_OPERATION_COMPLETED_LIMIT <=? total)
                   || (RHI_ADMIN_OPERATION_PREPARED_LIMIT <=? prepared)) with (journal_full rows').
    destruct (journal_full rows') eqn:Hfull; cbn [reject_if and_then]; [done|].
    destruct (insert_prepared b now rows') as [Hadm Hinv'']; [done..|].
    pose proof (ji_rows _ Hinv'') as Hok'.
    pose proof (find_operation_app _ _ (prepared_row b now) Hfind eq_refl) as Hfind'.
    unfold insert_row. fold (prepared_row b now). rewrite Hadm. simpl.
    rewrite read_operation_find, Hfind' by done.
    destruct (decode_prepared (prepared_row b now)) as (route & Hm & Hroute & Hd);
      [by apply prepared_row_check|by apply prepared_row_sound|done|]. rewrite Hd. simpl.
    apply operation_id_inj in Hroute as <-. unfold same_request.
    by rewrite bool_decide_true, bytes_eqb_refl, Z.eqb_refl by done.
Qed.

(** ** Completion *)

Definition binding_of (p : PreparedBinding) : AdminRequestBinding :=
  MkBinding (p_operation_id p) (p_route p) (p_request_sha256 p).

Definition completes (i : string) (r : operation_row) : bool := has_id i r && is_prepared r.

Definition completed_rows (p : PreparedBinding) (response : bytes) (completed_at expires_at : Z)
    (rows : list operation_row) : list operation_row :=
  map (apply_where (completes (p_operation_id p)) (completed_with response (sha256 response) completed_at expires_at))
    rows.

(** What a completion is called with. *)
Record completion_ok (p : PreparedBinding) (response : bytes) (completed_at expires_at : Z) : Prop := {
  co_route : is_mutation (p_route p) = true;
  co_response : ∃ d, from_canonical_bytes contract (p_route p) response = Ok d;
  co_length : between 1 8192 (Z.of_nat (length response)) = true;
  co_times : 0 ≤ p_prepared_at p ≤ completed_at ∧ completed_at ≤ expires_at ≤ I64_MAX;
}.

Lemma completed_row_check response completed_at expires_at r :
  row_check r = true → is_prepared r = true → between 1 8192 (Z.of_nat (length response)) = true →
  op_prepared_at_unix_ms r ≤ completed_at ≤ expires_at → expires_at ≤ I64_MAX →
  row_check (completed_with response (sha256 response) completed_at expires_at r) = true ∧
  row_guard r (completed_with response (sha256 response) completed_at expires_at r) = true.
Proof.
  intros Hc Hp Hlen Ht He.
  destruct (row_check_view r Hc) as (_ & Hreq & Hprep & Hroute).
  simpl in Hc. unfold operation_check in Hc. to_prop.
  assert (PubState.blob_of 32 (sha256 response) = true) as Hsha by apply Nat.eqb_eq, sha256_length.
  simpl. unfold operation_check, operation_guard, completed_with. simpl.
  split; [|by rewrite Hp, !String.eqb_refl, bytes_eqb_refl, Z.eqb_refl].
  rewrite H2, Hroute, Hreq, Hlen, Hsha. unfold between. simpl.
  rewrite !(proj2 (Z.leb_le _ _)) by lia. simpl.
  reflexivity.
Qed.

Lemma completed_rows_update p response completed_at expires_at rows r :
  journal_inv rows → completion_ok p response completed_at expires_at →
  find_operation (p_operation_id p) rows = Some r → is_prepared r = true →
  op_prepared_at_unix_ms r = p_prepared_at p → op_route r = operation_id (p_route p) →
  COMPLETE_OPERATION_SQL response (sha256 response) completed_at expires_at (p_operation_id p) rows =
    Ok (completed_rows p response completed_at expires_at rows, 1) ∧
  journal_inv (completed_rows p response completed_at expires_at rows) ∧
  find_operation (p_operation_id p) (completed_rows p response completed_at expires_at rows) =
    Some (completed_with response (sha256 response) completed_at expires_at r).
Proof.
  intros [Hok Hsound Htotal Hprep] [Hm Hresp Hlen [Ht1 Ht2]] Hfind Hp Hpa Hroute.
  apply find_operation_elem in Hfind as Hin. destruct Hin as [Hin Hid].
  assert (∀ o, o ∈ rows → completes (p_operation_id p) o = true → o = r) as Honly.
  { intros o Ho Hc. unfold completes in Hc. to_prop.
    apply (rows_ok_unique rows o r operation_conflict_sym Hok); [done..|].
    apply (has_id_conflict (p_operation_id p)); [done|]. unfold has_id. by rewrite Hid, String.eqb_refl. }
  assert (completes (p_operation_id p) r = true) as Hcr.
  { unfold completes, has_id. by rewrite Hid, String.eqb_refl, Hp. }
  pose proof (rows_ok_check rows r Hok Hin) as Hcheck.
  destruct (completed_row_check response completed_at expires_at r Hcheck Hp Hlen) as [Hnew Hguard]; [lia|lia|].
  assert (List.filter (completes (p_operation_id p)) rows = [r]) as Hfilter.
  { destruct (filter_unique (completes (p_operation_id p)) rows Hok) as [Hf|(o & Ho & Hpo & Hf)].
    - intros x y Hx Hy. unfold completes in *. to_prop. by apply (has_id_conflict (p_operation_id p)).
    - assert (In r (List.filter (completes (p_operation_id p)) rows)) as Hr
        by (apply filter_In; split; [by apply list_elem_of_In|done]). by rewrite Hf in Hr.
    - rewrite Hf. by rewrite (Honly o). }
  assert (COMPLETE_OPERATION_SQL response (sha256 response) completed_at expires_at (p_operation_id p) rows =
    Ok (completed_rows p response completed_at expires_at rows, 1)) as Hup.
  { unfold COMPLETE_OPERATION_SQL.
    change (λ r, has_id (p_operation_id p) r && is_prepared r) with (completes (p_operation_id p)).
    rewrite (update_rows_intro operation_conflict_sym); [by rewrite Hfilter|done| |].
    - intros o Ho Hco. by rewrite (Honly o Ho Hco).
    - by intros x o _. }
  split_and!; [done|split|].
  - by apply (update_rows_ok operation_conflict_sym _ _ _ _ _ Hok Hup).
  - apply Forall_map, list.Forall_forall. intros o Ho. pose proof (elem_of_Forall _ _ _ Hsound Ho) as Hs.
    unfold apply_where. destruct (completes (p_operation_id p) o) eqn:Hco; [|done].
    rewrite (Honly o Ho Hco). exists (p_route p). split_and!; [done..|]. simpl.
    by intros l [= <-].
  - unfold completed_rows. by rewrite length_map.
  - unfold completed_rows. etransitivity; [|exact Hprep]. apply inj_le. clear.
    induction rows as [|x rows IH]; simpl; [lia|]. unfold apply_where at 1.
    destruct (completes (p_operation_id p) x) eqn:Hx; simpl.
    + destruct (is_prepared x); simpl; lia.
    + destruct (is_prepared x); simpl; lia.
  - unfold find_operation, completed_rows.
    rewrite (find_map_where (has_id (p_operation_id p))); [|by intros x Hx].
    unfold find_operation in Hfind. rewrite Hfind. simpl. unfold apply_where. by rewrite Hcr.
Qed.

Lemma same_prepared_row p r route :
  op_route r = operation_id route → same_prepared p route (op_request_sha256 r) = same_row (binding_of p) r.
Proof. apply (same_request_row (binding_of p)). Qed.

Lemma same_row_route b r : same_row b r = true → op_route r = operation_id (b_route b).
Proof. unfold same_row. intros Hs. to_prop. by apply String.eqb_eq. Qed.

(** A prepared row leaves room for one more completed row. *)
Lemma room_for_completion rows r :
  journal_inv rows → r ∈ rows → is_prepared r = true →
  Z.of_nat (length rows) - Z.of_nat (length (List.filter is_prepared rows)) < RHI_ADMIN_OPERATION_COMPLETED_LIMIT.
Proof.
  intros [_ _ Htotal _] Hr Hp.
  assert (In r (List.filter is_prepared rows)) as Hin
    by (apply filter_In; split; [by apply list_elem_of_In|done]).
  destruct (List.filter is_prepared rows); [done|]. simpl. lia.
Qed.

(** Every outcome of a completion. *)
Lemma complete_cases p response completed_at expires_at rows :
  journal_inv rows → completion_ok p response completed_at expires_at →
  match find_operation (p_operation_id p) rows with
  | None => complete_operation p response completed_at expires_at rows = Err OpBinding
  | Some r =>
      if is_prepared r then
        if same_row (binding_of p) r && (op_prepared_at_unix_ms r =? p_prepared_at p) then
          complete_operation p response completed_at expires_at rows =
            Ok (Completed, completed_rows p response completed_at expires_at rows)
        else complete_operation p response completed_at expires_at rows = Err OpConflict
      else if same_row (binding_of p) r && bool_decide (op_response_model r = Some response) then
        complete_operation p response completed_at expires_at rows = Ok (ExactReplay, rows)
      else complete_operation p response completed_at expires_at rows = Err OpConflict
  end.
Proof.
  intros Hinv Hp. pose proof Hinv as [Hok Hsound _ _]. unfold complete_operation.
  rewrite read_operation_find by done.
  destruct (find_operation (p_operation_id p) rows) as [r|] eqn:Hfind; [|done].
  apply find_operation_elem in Hfind as Hin. destruct Hin as [Hr Hid].
  pose proof (rows_ok_check rows r Hok Hr) as Hc. pose proof (elem_of_Forall _ _ _ Hsound Hr) as Hs.
  destruct (is_prepared r) eqn:Hstate.
  - destruct (decode_prepared r Hc Hs Hstate) as (route & _ & Hroute & Hd). rewrite Hd. simpl.
    rewrite (same_prepared_row p r) by done.
    destruct (same_row (binding_of p) r && (op_prepared_at_unix_ms r =? p_prepared_at p)) eqn:Hsame; [|done].
    apply andb_true_iff in Hsame as [Hsame Hpa]. apply Z.eqb_eq in Hpa.
    destruct (read_counts_Ok rows Hinv) as [-> _]. simpl.
    rewrite (proj2 (Z.leb_gt _ _)) by (by apply (room_for_completion rows r)). simpl.
    pose proof Hp as [_ _ _ Ht]. rewrite try_from_intro by lia. simpl.
    destruct (completed_rows_update p response completed_at expires_at rows r) as (Hup & Hinv' & Hfind');
      [done..|by apply (same_row_route (binding_of p))|]. rewrite Hup. simpl.
    rewrite read_operation_find, Hfind' by apply Hinv'. 
    apply find_operation_elem in Hfind' as [Hr' _].
    destruct (decode_completed (completed_with response (sha256 response) completed_at expires_at r))
      as (route' & response' & d & ca & ea & Hm' & Hroute' & Hresp' & Hea & Hca & _ & Hd');
      [by apply (rows_ok_check _ _ (ji_rows _ Hinv'))|by apply (elem_of_Forall _ _ _ (ji_sound _ Hinv'))|done|].
    rewrite Hd'. simpl in *. injection Hresp' as <-. injection Hea as <-. injection Hca as <-.
    rewrite Hpa, !bytes_eqb_refl, !Z.eqb_refl, !andb_true_r.
    rewrite (same_prepared_row p r) by done. by rewrite Hsame.
  - assert (is_completed r = true) as Hcomp.
    { by destruct (row_check_view r Hc) as ([|] & _); congruence. }
    destruct (decode_completed r Hc Hs Hcomp) as
      (route & stored & d & ca & ea & Hm & Hroute & Hstored & _ & _ & _ & Hd). rewrite Hd. simpl.
    rewrite (same_prepared_row p r) by done. destruct (same_row (binding_of p) r); [|done]. simpl.
    rewrite Hstored. case_bool_decide as Heq.
    + injection Heq as ->. by rewrite !bytes_eqb_refl.
    + assert (bytes_eqb stored response = false) as ->; [|done].
      apply not_true_iff_false. rewrite bytes_eqb_true. by intros ->.
Qed.

(** ** Execution *)

Context {D : Type}.

(** The closure a mutation runs returns documents built from canonical bytes. *)
Definition sealed (operation : D → result AdminJournalOperationError (RhiAdminResponseDocument V * D)) : Prop :=
  ∀ s d s', operation s = Ok (d, s') → document_valid d.

(** The receipt of an operation *)
Definition receipt (b : AdminRequestBinding) (completed_at expires_at : Z) (d : RhiAdminResponseDocument V) :
    operation_row :=
  completed_with (rs_canonical_bytes d) (sha256 (rs_canonical_bytes d)) completed_at expires_at
    (prepared_row b completed_at).

Lemma response_fits_completion route d i request prepared_at completed_at expires_at :
  response_fits route d = true → document_valid d → is_mutation route = true →
  0 ≤ prepared_at ≤ completed_at → completed_at ≤ expires_at ≤ I64_MAX →
  completion_ok (MkPrepared i route request prepared_at) (rs_canonical_bytes d) completed_at expires_at.
Proof.
  unfold response_fits. intros Hfit Hd Hm Ht He. apply andb_true_iff in Hfit as [[Hr Hne]%andb_true_iff Hlen].
  apply bool_decide_eq_true in Hr. apply negb_true_iff, Nat.eqb_neq in Hne. apply Z.leb_le in Hlen.
  split; simpl; try done.
  - exists d. unfold document_valid in Hd. by rewrite Hr in Hd.
  - unfold between, RHI_ADMIN_OPERATION_RESPONSE_MODEL_MAX_BYTES in *.
    rewrite andb_true_iff, !Z.leb_le. lia.
Qed.

Lemma completed_rows_last b now expires_at d rows :
  find_operation (b_operation_id b) rows = None →
  completed_rows (MkPrepared (b_operation_id b) (b_route b) (b_request_sha256 b) now) (rs_canonical_bytes d)
    now expires_at (rows ++ [prepared_row b now]) = rows ++ [receipt b now expires_at d].
Proof.
  intros Hfind. unfold completed_rows. rewrite map_app. simpl. f_equal.
  - rewrite <- (map_id rows) at 2. apply map_ext_in. intros r Hr. unfold apply_where, completes.
    by rewrite (find_none _ _ Hfind _ Hr).
  - unfold apply_where, completes, has_id. simpl. by rewrite String.eqb_refl.
Qed.

(** Every outcome of [execute_database_admin_operation]'s transaction. *)
Lemma execute_cases b now expires_at operation (db : admin_db D) :
  journal_inv (ad_operations db) → binding_ok b → 0 ≤ now ≤ I64_MAX → now ≤ expires_at ≤ I64_MAX →
  sealed operation →
  let rows := kept now (ad_operations db) in
  match find_operation (b_operation_id b) rows with
  | Some r =>
      if same_row b r then
        if is_prepared r then execute_op contract b now expires_at operation db = Err OpOutcomeUnknown
        else ∃ d, execute_op contract b now expires_at operation db = Ok (d, AdminDb rows (ad_state db)) ∧
          document_valid d ∧ rs_route d = b_route b ∧ op_response_model r = Some (rs_canonical_bytes d)
      else execute_op contract b now expires_at operation db = Err OpConflict
  | None =>
      if journal_full rows then execute_op contract b now expires_at operation db = Err OpResourceExhausted
      else
        match operation (ad_state db) with
        | Err e => execute_op contract b now expires_at operation db = Err e
        | Ok (d, s) =>
            if response_fits (b_route b) d then
              execute_op contract b now expires_at operation db =
                Ok (d, AdminDb (rows ++ [receipt b now expires_at d]) s) ∧
              journal_inv (rows ++ [receipt b now expires_at d])
            else execute_op contract b now expires_at operation db = Err OpInvalidInput
        end
  end.
Proof.
  intros Hinv Hb Hnow He Hop rows. pose proof (prepare_cases b now _ Hinv Hb Hnow) as Hcases.
  cbv zeta in Hcases. fold rows in Hcases. unfold execute_op.
  destruct (find_operation (b_operation_id b) rows) as [r|] eqn:Hfind.
  - destruct (same_row b r); [|by rewrite Hcases]. destruct (is_prepared r); [by rewrite Hcases|].
    destruct Hcases as (d & -> & ? & ? & ?). by exists d.
  - destruct (journal_full rows) eqn:Hfull; [by rewrite Hcases|].
    destruct Hcases as (-> & Hinv' & Hfind'). simpl.
    destruct (operation (ad_state db)) as [[d s]|e] eqn:Hrun; [|done]. simpl.
    destruct (response_fits (b_route b) d) eqn:Hfits; simpl; [|done].
    set (p := MkPrepared (b_operation_id b) (b_route b) (b_request_sha256 b) now).
    assert (completion_ok p (rs_canonical_bytes d) now expires_at) as Hok.
    { apply response_fits_completion; [done|by apply (Hop _ _ _ Hrun)|apply Hb|lia..]. }
    pose proof (complete_cases p _ now expires_at _ Hinv' Hok) as Hcomplete.
    assert (same_row (binding_of p) (prepared_row b now) = true) as Hsame.
    { unfold same_row. simpl. by rewrite String.eqb_refl, bytes_eqb_refl. }
    destruct (completed_rows_update p (rs_canonical_bytes d) now expires_at _ (prepared_row b now) Hinv' Hok Hfind')
      as (_ & Hinv'' & _); [done..|].
    change (p_operation_id p) with (b_operation_id b) in Hcomplete. rewrite Hfind' in Hcomplete.
    change (is_prepared (prepared_row b now)) with true in Hcomplete. cbv iota in Hcomplete.
    rewrite Hsame in Hcomplete. simpl in Hcomplete. rewrite Z.eqb_refl in Hcomplete.
    unfold p in *. rewrite completed_rows_last in Hcomplete, Hinv'' by done. by rewrite Hcomplete.
Qed.

(** ** Histories *)

Context `{!TransactionHost (admin_db D), !TransactionLaws (admin_db D)}.
Context (writable : bool).
Implicit Types (db : admin_db D).

(** One call of the repository, at an observed time before [limit], or another change of
    the tables beside the journal. *)
Inductive journal_step (limit : Z) : admin_db D → admin_db D → Prop :=
| step_prepare request observed_at r db db' :
    0 ≤ observed_at ≤ I64_MAX → observed_at < limit →
    prepare_admin_operation contract writable request observed_at db = (r, db') →
    journal_step limit db db'
| step_complete p response completed_at policy r db db' :
    is_mutation (p_route p) = true → 0 ≤ p_prepared_at p → 0 ≤ completed_retention_ms policy →
    document_valid response →
    complete_admin_operation writable p response completed_at policy db = (r, db') →
    journal_step limit db db'
| step_execute request completed_at policy operation r db db' :
    0 ≤ completed_at ≤ I64_MAX → completed_at < limit → 0 ≤ completed_retention_ms policy →
    sealed operation →
    execute_database_admin_operation contract writable request completed_at policy operation db = (r, db') →
    journal_step limit db db'
| step_other rows s s' : journal_step limit (AdminDb rows s) (AdminDb rows s').

Definition journal_steps (limit : Z) : admin_db D → admin_db D → Prop := rtc (journal_step limit).

(** *** The host *)

Definition operation_error_kind (e : AdminJournalOperationError) : RhiAdminOperationErrorKind :=
  map_transaction_error (TxError false (Some e)).

Lemma journal_run_effect {A} (op : admin_db D → result AdminJournalOperationError (A * admin_db D)) db r db' :
  run op db = (r, db') → db' = db ∨ ∃ a, op db = Ok (a, db').
Proof.
  unfold run. intros Hrun. destruct (transaction op db) as [[a|e] db1] eqn:Htx; simplify_eq.
  - right. exists a. by apply tx_committed.
  - destruct (commit_outcome_unknown e) eqn:Hu.
    + destruct (tx_unknown _ _ _ _ Htx Hu) as (a & db2 & Hop & [-> | ->]); [by left|right; by exists a].
    + left. by destruct (tx_rolled_back _ _ _ _ Htx Hu).
Qed.

Lemma journal_run_Ok {A} (op : admin_db D → result AdminJournalOperationError (A * admin_db D)) db a db' :
  run op db = (Ok a, db') → op db = Ok (a, db').
Proof.
  unfold run. intros Hrun. destruct (transaction op db) as [[a'|e] db1] eqn:Htx; simplify_eq/=.
  by apply tx_committed.
Qed.

(** A reported error is the operation's, and then nothing changed, or the host's. *)
Lemma journal_run_Err {A} (op : admin_db D → result AdminJournalOperationError (A * admin_db D)) db e db' :
  run op db = (Err e, db') →
  e = CommitOutcomeUnknown ∨ (db' = db ∧ (e = Transaction ∨ ∃ oe, op db = Err oe ∧ e = operation_error_kind oe)).
Proof.
  unfold run. intros Hrun. destruct (transaction op db) as [[a|te] db1] eqn:Htx; simplify_eq/=.
  unfold map_transaction_error. destruct (commit_outcome_unknown te) eqn:Hu; [by left|right].
  destruct (tx_rolled_back _ _ _ _ Htx Hu) as [-> Hoe]. split; [done|].
  destruct (operation_error te) as [oe|]; [|by left]. right. exists oe. split; [by apply Hoe|done].
Qed.

(** *** Every step keeps the invariant and the receipts that have not expired *)

Definition holds_receipt (rows : list operation_row) (r : operation_row) (expires_at : Z) : Prop :=
  r ∈ rows ∧ is_completed r = true ∧ op_expires_at_unix_ms r = Some expires_at.

Definition preserves (limit : Z) (rows rows' : list operation_row) : Prop :=
  journal_inv rows → journal_inv rows' ∧
    ∀ r expires_at, limit ≤ expires_at → holds_receipt rows r expires_at → r ∈ rows'.

Lemma kept_receipt now limit rows r expires_at :
  now < limit → limit ≤ expires_at → holds_receipt rows r expires_at → r ∈ kept now rows.
Proof.
  intros Hnow Hlimit (Hr & Hc & He). apply list_elem_of_In, filter_In. split; [by apply list_elem_of_In|].
  unfold expired. rewrite Hc, He. simpl. apply negb_true_iff, Z.leb_gt. lia.
Qed.

Lemma kept_inv now rows : journal_inv rows → journal_inv (kept now rows).
Proof. apply filter_inv. Qed.

Lemma prepare_preserves b now limit rows a rows' :
  binding_ok b → 0 ≤ now ≤ I64_MAX → now < limit →
  prepare_operation contract b now rows = Ok (a, rows') → preserves limit rows rows'.
Proof.
  intros Hb Hnow Hlimit Hprep Hinv. pose proof (prepare_cases b now rows Hinv Hb Hnow) as Hcases.
  cbv zeta in Hcases. rewrite Hprep in Hcases.
  destruct (find_operation (b_operation_id b) (kept now rows)) as [r|].
  - destruct (same_row b r); [|done]. destruct (is_prepared r); [done|].
    destruct Hcases as (d & Heq & _). injection Heq as -> ->. split; [by apply kept_inv|].
    intros o e He Ho. by apply (kept_receipt now limit rows o e).
  - destruct (journal_full (kept now rows)); [done|].
    destruct Hcases as (Heq & Hinv' & _). injection Heq as -> ->. split; [done|].
    intros o e He Ho. apply elem_of_app. left. by apply (kept_receipt now limit rows o e).
Qed.

Lemma complete_preserves p response completed_at expires_at limit rows c rows' :
  completion_ok p response completed_at expires_at →
  complete_operation p response completed_at expires_at rows = Ok (c, rows') → preserves limit rows rows'.
Proof.
  intros Hp Hcomplete Hinv. pose proof (complete_cases p _ _ _ rows Hinv Hp) as Hcases.
  rewrite Hcomplete in Hcases.
  destruct (find_operation (p_operation_id p) rows) as [r|] eqn:Hfind; [|done].
  destruct (is_prepared r) eqn:Hstate.
  - destruct (same_row (binding_of p) r && (op_prepared_at_unix_ms r =? p_prepared_at p)) eqn:Hsame; [|done].
    injection Hcases as -> ->. apply andb_true_iff in Hsame as [Hsame Hpa]. apply Z.eqb_eq in Hpa.
    destruct (completed_rows_update p response completed_at expires_at rows r) as (_ & Hinv' & _);
      [done..|by apply (same_row_route (binding_of p))|]. split; [done|].
    intros o e _ (Ho & Hc & _). unfold completed_rows. apply list_elem_of_fmap. exists o. split; [|done].
    unfold apply_where, completes.
    pose proof (rows_ok_check rows o (ji_rows _ Hinv) Ho) as Hcheck.
    destruct (row_check_view o Hcheck) as ([? Hno|? ? ? ? -> _] & _); [congruence|].
    by rewrite andb_false_r.
  - destruct (same_row (binding_of p) r && bool_decide _); [|done]. injection Hcases as -> ->. split; [done|].
    by intros o e _ [].
Qed.

Lemma execute_preserves b now expires_at operation limit db d db' :
  binding_ok b → 0 ≤ now ≤ I64_MAX → now < limit → now ≤ expires_at ≤ I64_MAX → sealed operation →
  execute_op contract b now expires_at operation db = Ok (d, db') →
  preserves limit (ad_operations db) (ad_operations db').
Proof.
  intros Hb Hnow Hlimit He Hop Hex Hinv.
  pose proof (execute_cases b now expires_at operation db Hinv Hb Hnow He Hop) as Hcases.
  cbv zeta in Hcases. rewrite Hex in Hcases.
  destruct (find_operation (b_operation_id b) (kept now (ad_operations db))) as [r|].
  - destruct (same_row b r); [|done]. destruct (is_prepared r); [done|].
    destruct Hcases as (d' & Heq & _). injection Heq as -> ->. split; [by apply kept_inv|].
    intros o e Hoe Ho. by apply (kept_receipt now limit _ o e).
  - destruct (journal_full _); [done|]. destruct (operation (ad_state db)) as [[d' s]|e']; [|done].
    destruct (response_fits (b_route b) d'); [|done].
    destruct Hcases as (Heq & Hinv'). injection Heq as -> ->. split; [done|].
    intros o e Hoe Ho. simpl. apply elem_of_app. left. by apply (kept_receipt now limit _ o e).
Qed.

Lemma expiry_Ok completed_at policy e :
  expiry completed_at policy = Ok e → 0 ≤ completed_retention_ms policy → 0 ≤ completed_at →
  e = completed_at + completed_retention_ms policy ∧ completed_at ≤ e ≤ I64_MAX.
Proof.
  unfold expiry. intros He Hr Hc. apply ok_or_Ok, filter_opt_Some in He as [He Hle].
  apply u64_checked_add_Some in He as [-> _]. apply Z.leb_le in Hle. lia.
Qed.

Lemma step_preserves limit db db' :
  journal_step limit db db' → preserves limit (ad_operations db) (ad_operations db').
Proof.
  assert (∀ rows, preserves limit rows rows) as Hrefl by (intros rows Hinv; split; [done|by intros o e _ []]).
  intros [request now r db1 db2 Hnow Hlimit Hcall|p response now policy r db1 db2 Hm Hpa Hret Hd Hcall|
          request now policy operation r db1 db2 Hnow Hlimit Hret Hop Hcall|rows s s']; [..|apply Hrefl].
  - unfold prepare_admin_operation in Hcall. destruct writable; simplify_eq/=; [|apply Hrefl].
    destruct (from_document request) as [b|e] eqn:Hb; simplify_eq/=; [|apply Hrefl].
    apply from_document_ok in Hb as [Hb _].
    destruct (journal_run_effect _ _ _ _ Hcall) as [->|[a Hop]]; [apply Hrefl|].
    unfold prepare_op in Hop. bind Hop as [a' rows'] Hp. injection Hop as <- <-.
    by apply (prepare_preserves b now limit _ a').
  - unfold complete_admin_operation in Hcall. destruct writable; simplify_eq/=; [|apply Hrefl].
    destruct (response_fits (p_route p) response) eqn:Hfits; simplify_eq/=; [|apply Hrefl].
    destruct (now <? p_prepared_at p) eqn:Hlt; simplify_eq/=; [apply Hrefl|]. apply Z.ltb_ge in Hlt.
    destruct (expiry now policy) as [e|e] eqn:He; simplify_eq/=; [|apply Hrefl].
    apply expiry_Ok in He as [_ He]; [|done|lia].
    destruct (journal_run_effect _ _ _ _ Hcall) as [->|[a Hop]]; [apply Hrefl|].
    unfold complete_op in Hop. bind Hop as [c rows'] Hp. injection Hop as <- <-.
    eapply (complete_preserves p); [|exact Hp]. destruct p as [i route request pa].
    by apply response_fits_completion.
  - unfold execute_database_admin_operation in Hcall. destruct writable; simplify_eq/=; [|apply Hrefl].
    destruct (from_document request) as [b|e] eqn:Hb; simplify_eq/=; [|apply Hrefl].
    apply from_document_ok in Hb as [Hb _].
    destruct (expiry now policy) as [e|e] eqn:He; simplify_eq/=; [|apply Hrefl].
    apply expiry_Ok in He as [_ He]; [|done|lia].
    destruct (journal_run_effect _ _ _ _ Hcall) as [->|[a Hex]]; [apply Hrefl|].
    by apply (execute_preserves b now e operation limit _ a).
Qed.

Lemma steps_preserve limit db db' :
  journal_steps limit db db' → preserves limit (ad_operations db) (ad_operations db').
Proof.
  induction 1 as [db|db1 db2 db3 Hstep _ IH]; intros Hinv; [split; [done|by intros o e _ []]|].
  destruct (step_preserves limit db1 db2 Hstep Hinv) as [Hinv2 Hkeep]. destruct (IH Hinv2) as [Hinv3 Hkeep3].
  split; [done|]. intros o e He Ho. apply (Hkeep3 o e He). destruct Ho as (? & ? & ?).
  split; [by apply (Hkeep o e)|done].
Qed.

(** ** What the journal guarantees *)

(** C21. The journal stays well formed and bounded, and keeps its promises: over any host,
    after any history of admissions, completions and executions (whatever fails, and with the
    tables beside it changing freely), no identity is held twice, at most 128 operations are
    unresolved and at most 4096 are retained, every retained row decodes to a mutation route
    whose receipt carries its digest and is an admitted response document, and no receipt is
    lost before it expires. *)
Theorem journal_is_bounded_and_sound limit db db' :
  journal_steps limit db db' → journal_inv (ad_operations db) →
  (NoDup (map op_operation_id (ad_operations db')) ∧ rows_ok (ad_operations db') = true) ∧
  Z.of_nat (length (List.filter is_prepared (ad_operations db'))) ≤ 128 ∧
  Z.of_nat (length (ad_operations db')) ≤ 4096 ∧
  Forall row_sound (ad_operations db') ∧ Forall (λ r, is_ok (decode_operation r)) (ad_operations db') ∧
  (∀ r expires_at, limit ≤ expires_at → holds_receipt (ad_operations db) r expires_at → r ∈ ad_operations db').
Proof.
  intros Hsteps Hinv. destruct (steps_preserve limit db db' Hsteps Hinv) as [[Hok Hsound Htotal Hprep] Hkeep].
  split_and!; try done.
  - clear -Hok. induction (ad_operations db') as [|r rows IH]; simpl in *; [constructor|].
    unfold row_admissible in Hok. to_prop. constructor; [|by apply IH].
    match goal with H : forallb _ rows = true |- _ => rewrite forallb_forall in H; rename H into Hfree end.
    intros (o & Ho & Hin)%list_elem_of_fmap. apply list_elem_of_In in Hin. specialize (Hfree o Hin).
    simpl in Hfree. by rewrite Ho, String.eqb_refl in Hfree.
  - apply list.Forall_forall. intros r Hr. pose proof (rows_ok_check _ _ Hok Hr) as Hc.
    pose proof (elem_of_Forall _ _ _ Hsound Hr) as Hs. destruct (is_prepared r) eqn:Hp.
    + destruct (decode_prepared r Hc Hs Hp) as (route & _ & _ & ->). by eexists.
    + assert (is_completed r = true) as Hcomp by (by destruct (row_check_view r Hc) as ([|] & _); congruence).
      destruct (decode_completed r Hc Hs Hcomp) as (? & ? & ? & ? & ? & _ & _ & _ & _ & _ & _ & ->). by eexists.
Qed.

(** Every outcome of an execution over a host *)
Lemma execution_outcomes request now policy operation db r db' b expires_at :
  journal_inv (ad_operations db) → from_document request = Ok b → 0 ≤ now ≤ I64_MAX →
  0 ≤ completed_retention_ms policy → expiry now policy = Ok expires_at → sealed operation →
  execute_database_admin_operation contract true request now policy operation db = (r, db') →
  let rows := kept now (ad_operations db) in
  (db' = db ∧ ∃ e, r = Err e) ∨
  (∃ d row, (r = Ok d ∨ r = Err CommitOutcomeUnknown) ∧ db' = AdminDb rows (ad_state db) ∧
     row ∈ rows ∧ op_operation_id row = b_operation_id b ∧ same_row b row = true ∧
     op_response_model row = Some (rs_canonical_bytes d) ∧ rs_route d = b_route b ∧ document_valid d) ∨
  (∃ d s, (r = Ok d ∨ r = Err CommitOutcomeUnknown) ∧ operation (ad_state db) = Ok (d, s) ∧
     Forall (λ row, op_operation_id row ≠ b_operation_id b) rows ∧
     db' = AdminDb (rows ++ [receipt b now expires_at d]) s ∧ rs_route d = b_route b).
Proof.
  intros Hinv Hb Hnow Hret Hexp Hop Hcall rows. apply from_document_ok in Hb as Hbok. destruct Hbok as [Hbok _].
  unfold execute_database_admin_operation in Hcall. simpl in Hcall. rewrite Hb in Hcall. simpl in Hcall.
  rewrite Hexp in Hcall. simpl in Hcall. apply expiry_Ok in Hexp as [_ He]; [|done|lia].
  pose proof (execute_cases b now expires_at operation db Hinv Hbok Hnow He Hop) as Hcases.
  cbv zeta in Hcases. fold rows in Hcases.
  destruct (execute_op contract b now expires_at operation db) as [[d db1]|e] eqn:Hex.
  - assert ((db' = db ∧ ∃ e, r = Err e) ∨ (db' = db1 ∧ (r = Ok d ∨ r = Err CommitOutcomeUnknown))) as [?|[-> Hr]];
      [|by left|right].
    { destruct r as [d'|e]; [apply journal_run_Ok in Hcall; rewrite Hex in Hcall; injection Hcall as -> ->; by auto|].
      destruct (journal_run_effect _ _ _ _ Hcall) as [->|[a Ha]]; [left; by eauto|].
      rewrite Hex in Ha. injection Ha as <- ->.
      destruct (journal_run_Err _ _ _ _ Hcall) as [->|[-> _]]; [by auto|left; by eauto]. }
    destruct (find_operation (b_operation_id b) rows) as [row|] eqn:Hfind.
    + destruct (same_row b row) eqn:Hsame; [|done]. destruct (is_prepared row); [done|].
      destruct Hcases as (d' & Heq & ? & ? & ?). injection Heq as -> ->. left.
      apply find_operation_elem in Hfind as [? ?]. by exists d', row.
    + destruct (journal_full rows); [done|]. destruct (operation (ad_state db)) as [[d' s]|]; [|done].
      destruct (response_fits (b_route b) d') eqn:Hfits; [|done]. destruct Hcases as [Heq _].
      injection Heq as -> ->. right. exists d', s. split_and!; try done.
      * apply list.Forall_forall. intros row Hrow Hid. apply list_elem_of_In in Hrow.
        pose proof (find_none _ _ Hfind _ Hrow) as Hno. unfold has_id in Hno.
        by rewrite Hid, String.eqb_refl in Hno.
      * unfold response_fits in Hfits. by to_prop.
  - left. destruct (journal_run_effect _ _ _ _ Hcall) as [->|[a Ha]]; [|congruence]. split; [done|].
    destruct r as [d|e']; [apply journal_run_Ok in Hcall; congruence|by eexists].
Qed.

(** C13. A mutation and its receipt are one atomic step: over any host that keeps the laws of
    a transaction, an execution either changes nothing and reports an error; or replays the
    retained answer of the same request without running anything; or, for a new identity, runs
    the operation on the tables and stores exactly its receipt next to its effect. Only a
    commit whose outcome the host lost reports an error after an effect. *)
Theorem admin_operation_is_atomic request now policy operation db r db' b expires_at :
  journal_inv (ad_operations db) → from_document request = Ok b → 0 ≤ now ≤ I64_MAX →
  0 ≤ completed_retention_ms policy → expiry now policy = Ok expires_at → sealed operation →
  execute_database_admin_operation contract true request now policy operation db = (r, db') →
  let rows := kept now (ad_operations db) in
  (db' = db ∧ ∃ e, r = Err e) ∨
  (∃ d row, (r = Ok d ∨ r = Err CommitOutcomeUnknown) ∧ db' = AdminDb rows (ad_state db) ∧
     row ∈ rows ∧ op_operation_id row = b_operation_id b ∧ same_row b row = true ∧
     op_response_model row = Some (rs_canonical_bytes d) ∧ rs_route d = b_route b ∧ document_valid d) ∨
  (∃ d s, (r = Ok d ∨ r = Err CommitOutcomeUnknown) ∧ operation (ad_state db) = Ok (d, s) ∧
     Forall (λ row, op_operation_id row ≠ b_operation_id b) rows ∧
     db' = AdminDb (rows ++ [receipt b now expires_at d]) s ∧ rs_route d = b_route b).
Proof. apply execution_outcomes. Qed.

(** The journal is full of unresolved operations: no other operation is admitted, and the
    pruning that precedes admission keeps them all. *)
Lemma full_journal_refuses b now expires_at operation db :
  journal_inv (ad_operations db) → binding_ok b → 0 ≤ now ≤ I64_MAX → now ≤ expires_at ≤ I64_MAX →
  sealed operation → find_operation (b_operation_id b) (kept now (ad_operations db)) = None →
  RHI_ADMIN_OPERATION_PREPARED_LIMIT ≤ Z.of_nat (length (List.filter is_prepared (ad_operations db))) →
  execute_op contract b now expires_at operation db = Err OpResourceExhausted.
Proof.
  intros Hinv Hb Hnow He Hop Hfind Hmany. pose proof (execute_cases b now expires_at operation db Hinv Hb Hnow He Hop) as Hcases.
  cbv zeta in Hcases. rewrite Hfind in Hcases.
  assert (List.filter is_prepared (kept now (ad_operations db)) = List.filter is_prepared (ad_operations db)) as Heq.
  { unfold kept. generalize (ad_operations db). intros rows. induction rows as [|r rows IH]; [done|]. simpl.
    destruct (is_prepared r) eqn:Hp.
    - assert (expired now r = false) as ->; [|simpl; by rewrite Hp, IH].
      unfold expired, is_prepared, is_completed in *. apply String.eqb_eq in Hp. by rewrite Hp.
    - destruct (negb (expired now r)); simpl; by rewrite ?Hp. }
  assert (journal_full (kept now (ad_operations db)) = true) as Hfull.
  { unfold journal_full. rewrite Heq. apply orb_true_iff. right. by apply Z.leb_le. }
  by rewrite Hfull in Hcases.
Qed.

(** *** Retries *)

(** The transaction refuses: nothing changes. *)
Lemma run_refused {A} (op : admin_db D → result AdminJournalOperationError (A * admin_db D)) db oe r db' :
  op db = Err oe → run op db = (r, db') →
  db' = db ∧ (r = Err Transaction ∨ r = Err (operation_error_kind oe)).
Proof.
  intros Hop Hrun. destruct (journal_run_effect _ _ _ _ Hrun) as [->|[a Ha]]; [|congruence]. split; [done|].
  destruct r as [a|e]; [apply journal_run_Ok in Hrun; congruence|].
  unfold run in Hrun. destruct (transaction op db) as [[a|te] db1] eqn:Htx; simplify_eq/=.
  unfold map_transaction_error. destruct (commit_outcome_unknown te) eqn:Hu.
  - destruct (tx_unknown _ _ _ _ Htx Hu) as (a & db2 & Hop' & _). congruence.
  - destruct (tx_rolled_back _ _ _ _ Htx Hu) as [_ Hoe].
    destruct (operation_error te) as [oe'|] eqn:He; [|by left]. right.
    rewrite (Hoe oe' eq_refl) in Hop. by injection Hop as ->.
Qed.

Lemma find_unique i rows r :
  rows_ok rows = true → r ∈ rows → op_operation_id r = i → find_operation i rows = Some r.
Proof.
  intros Hok Hr Hi. induction Hr as [r rows|r o rows Hr IH]; simpl in *; unfold row_admissible in Hok; to_prop.
  - unfold find_operation, has_id. simpl. by rewrite Hi, String.eqb_refl.
  - match goal with H : forallb _ rows = true |- _ => rewrite forallb_forall in H; rename H into Hfree end.
    unfold find_operation, has_id. simpl. apply list_elem_of_In in Hr as Hin. specialize (Hfree r Hin).
    simpl in Hfree. rewrite <- Hi. destruct (String.eqb _ _) eqn:He; [done|]. subst i. by apply IH.
Qed.

(** A receipt is found again by any later execution before its expiry. *)
Lemma receipt_found b now expires_at d rows0 s db2 t2 :
  journal_inv (rows0 ++ [receipt b now expires_at d]) →
  journal_steps expires_at (AdminDb (rows0 ++ [receipt b now expires_at d]) s) db2 → t2 < expires_at →
  journal_inv (ad_operations db2) ∧
  find_operation (b_operation_id b) (kept t2 (ad_operations db2)) = Some (receipt b now expires_at d).
Proof.
  intros Hinv Hsteps Ht2. destruct (steps_preserve _ _ _ Hsteps Hinv) as [Hinv2 Hkeep]. split; [done|].
  apply find_unique; [apply kept_inv, Hinv2| |done].
  apply (kept_receipt t2 expires_at _ _ expires_at); [done|done|]. split; [|done].
  apply (Hkeep _ expires_at); [done|]. split; [|done]. apply elem_of_app. right. by apply list_elem_of_singleton.
Qed.

(** What a first execution did, whatever it reported *)
Lemma first_execution request now policy operation db r db' b expires_at :
  journal_inv (ad_operations db) → from_document request = Ok b → 0 ≤ now ≤ I64_MAX →
  0 ≤ completed_retention_ms policy → expiry now policy = Ok expires_at → sealed operation →
  find_operation (b_operation_id b) (kept now (ad_operations db)) = None →
  execute_database_admin_operation contract true request now policy operation db = (r, db') →
  db' = db ∨
  ∃ d s, (r = Ok d ∨ r = Err CommitOutcomeUnknown) ∧ document_valid d ∧ rs_route d = b_route b ∧
    operation (ad_state db) = Ok (d, s) ∧
    db' = AdminDb (kept now (ad_operations db) ++ [receipt b now expires_at d]) s ∧
    journal_inv (kept now (ad_operations db) ++ [receipt b now expires_at d]).
Proof.
  intros Hinv Hb Hnow Hret Hexp Hop Hfind Hcall. apply from_document_ok in Hb as Hbok. destruct Hbok as [Hbok _].
  unfold execute_database_admin_operation in Hcall. simpl in Hcall. rewrite Hb in Hcall. simpl in Hcall.
  rewrite Hexp in Hcall. simpl in Hcall. apply expiry_Ok in Hexp as [_ He]; [|done|lia].
  pose proof (execute_cases b now expires_at operation db Hinv Hbok Hnow He Hop) as Hcases.
  cbv zeta in Hcases. rewrite Hfind in Hcases.
  destruct (journal_run_effect _ _ _ _ Hcall) as [->|[d Ha]]; [by left|].
  assert (db' = db ∨ r = Ok d ∨ r = Err CommitOutcomeUnknown) as [->|Hr]; [|by left|right].
  { destruct r as [d'|e]; [apply journal_run_Ok in Hcall; rewrite Ha in Hcall; injection Hcall as ->; by auto|].
    destruct (journal_run_Err _ _ _ _ Hcall) as [->|[-> _]]; by auto. }
  rewrite Ha in Hcases. destruct (journal_full _); [done|].
  destruct (operation (ad_state db)) as [[d' s]|] eqn:Hrun; [|done].
  destruct (response_fits (b_route b) d') eqn:Hfits; [|done]. destruct Hcases as [Heq Hinv'].
  injection Heq as -> ->. exists d', s. unfold response_fits in Hfits. to_prop.
  split_and!; try done. by apply (Hop _ _ _ Hrun).
Qed.

(** Unresolved operations are never forgotten: pruning removes completed operations
    only, so once 128 operations were admitted and not completed (a mutation that fails after
    its admission leaves one), every mutation under a new identity is refused as resource
    exhausted, at any time and whatever it is, and the database stays as it is. *)
Theorem unresolved_operations_block_mutations request now policy operation db r db' b expires_at :
  journal_inv (ad_operations db) → from_document request = Ok b → 0 ≤ now ≤ I64_MAX →
  0 ≤ completed_retention_ms policy → expiry now policy = Ok expires_at → sealed operation →
  find_operation (b_operation_id b) (kept now (ad_operations db)) = None →
  128 ≤ Z.of_nat (length (List.filter is_prepared (ad_operations db))) →
  execute_database_admin_operation contract true request now policy operation db = (r, db') →
  db' = db ∧ (r = Err ResourceExhausted ∨ r = Err Transaction).
Proof.
  intros Hinv Hb Hnow Hret Hexp Hop Hfind Hmany Hcall. apply from_document_ok in Hb as Hbok. destruct Hbok as [Hbok _].
  unfold execute_database_admin_operation in Hcall. simpl in Hcall. rewrite Hb in Hcall. simpl in Hcall.
  rewrite Hexp in Hcall. simpl in Hcall. apply expiry_Ok in Hexp as [_ He]; [|done|lia].
  eapply run_refused in Hcall as [-> Hr]; [|by apply full_journal_refuses].
  split; [done|]. by destruct Hr as [-> | ->]; auto.
Qed.

(** C12. An operator request takes effect at most once: when an execution for a fresh identity
    changed the database, whatever it reported, then after any later history every retry of
    the request before its receipt expires, with whatever operation, leaves the tables alone
    and answers the document of the first execution (or a failure of the host). *)
Theorem admin_operation_runs_once request now policy operation db r db1 b expires_at :
  journal_inv (ad_operations db) → from_document request = Ok b → 0 ≤ now ≤ I64_MAX →
  0 ≤ completed_retention_ms policy → expiry now policy = Ok expires_at → sealed operation →
  find_operation (b_operation_id b) (kept now (ad_operations db)) = None →
  execute_database_admin_operation contract true request now policy operation db = (r, db1) → db1 ≠ db →
  ∃ d, (r = Ok d ∨ r = Err CommitOutcomeUnknown) ∧
    operation (ad_state db) = Ok (d, ad_state db1) ∧
    ∀ now2 policy2 operation2 expires2 db2 r2 db3,
      journal_steps expires_at db1 db2 → 0 ≤ now2 < expires_at →
      0 ≤ completed_retention_ms policy2 → expiry now2 policy2 = Ok expires2 → sealed operation2 →
      execute_database_admin_operation contract true request now2 policy2 operation2 db2 = (r2, db3) →
      ad_state db3 = ad_state db2 ∧ (r2 = Ok d ∨ r2 = Err CommitOutcomeUnknown ∨ r2 = Err Transaction).
Proof.
  intros Hinv Hb Hnow Hret Hexp Hop Hfind Hcall Hchanged. apply from_document_ok in Hb as Hbok. destruct Hbok as [Hbok _].
  destruct (first_execution _ _ _ _ _ _ _ _ _ Hinv Hb Hnow Hret Hexp Hop Hfind Hcall)
    as [?|(d & s & Hr & Hd & Hroute & Hrun & -> & Hinv1)]; [done|].
  exists d. split_and!; [done..|]. intros now2 policy2 operation2 expires2 db2 r2 db3 Hsteps Hnow2 Hret2 Hexp2 Hop2 Hcall2.
  destruct (receipt_found _ _ _ _ _ _ _ now2 Hinv1 Hsteps) as [Hinv2 Hfound]; [lia|].
  apply expiry_Ok in Hexp as [_ He]; [|done|lia].
  unfold execute_database_admin_operation in Hcall2. simpl in Hcall2. rewrite Hb in Hcall2. simpl in Hcall2.
  rewrite Hexp2 in Hcall2. simpl in Hcall2. apply expiry_Ok in Hexp2 as [_ He2]; [|done|lia].
  pose proof (execute_cases b now2 expires2 operation2 db2 Hinv2 Hbok) as Hcases.
  cbv zeta in Hcases. rewrite Hfound in Hcases.
  replace (same_row b (receipt b now expires_at d)) with true in Hcases
    by (symmetry; unfold same_row; simpl; by rewrite String.eqb_refl, bytes_eqb_refl).
  change (is_prepared (receipt b now expires_at d)) with false in Hcases. cbv iota in Hcases.
  destruct Hcases as (d2 & Hex2 & Hd2 & Hroute2 & Hmodel); [lia|done|done|].
  injection Hmodel as Hbytes.
  assert (d2 = d) as ->.
  { unfold document_valid in Hd, Hd2. rewrite Hroute2, <- Hbytes, <- Hroute in Hd2. congruence. }
  split.
  - destruct (journal_run_effect _ _ _ _ Hcall2) as [->|[a Ha]]; [done|]. rewrite Hex2 in Ha. by injection Ha as _ <-.
  - destruct r2 as [d2|e]; [apply journal_run_Ok in Hcall2; rewrite Hex2 in Hcall2; injection Hcall2 as -> _; by left|].
    destruct (journal_run_Err _ _ _ _ Hcall2) as [->|[_ [->|(oe & Hoe & _)]]]; [by auto..|congruence].
Qed.

(** C20. An identity is never reused: while the receipt of a request is retained, another
    mutation under the same identity (another route, or other model bytes) is refused as a
    conflict and changes nothing, unless the two requests exhibit a SHA-256 collision. *)
Theorem reused_operation_id_is_refused request request' now policy operation db r db1 b b' expires_at
    now2 policy2 operation2 expires2 db2 r2 db3 :
  journal_inv (ad_operations db) → from_document request = Ok b → 0 ≤ now ≤ I64_MAX →
  0 ≤ completed_retention_ms policy → expiry now policy = Ok expires_at → sealed operation →
  find_operation (b_operation_id b) (kept now (ad_operations db)) = None →
  execute_database_admin_operation contract true request now policy operation db = (r, db1) → db1 ≠ db →
  journal_steps expires_at db1 db2 → 0 ≤ now2 < expires_at →
  from_document request' = Ok b' → rq_operation_id request' = rq_operation_id request →
  (rq_route request', rq_model_bytes request') ≠ (rq_route request, rq_model_bytes request) →
  Z.of_nat (length (rq_model_bytes request)) ≤ U64_MAX →
  Z.of_nat (length (rq_model_bytes request')) ≤ U64_MAX →
  0 ≤ completed_retention_ms policy2 → expiry now2 policy2 = Ok expires2 → sealed operation2 →
  execute_database_admin_operation contract true request' now2 policy2 operation2 db2 = (r2, db3) →
  (db3 = db2 ∧ (r2 = Err OperationConflict ∨ r2 = Err Transaction)) ∨ sha256_collision.
Proof.
  intros Hinv Hb Hnow Hret Hexp Hop Hfind Hcall Hchanged Hsteps Hnow2 Hb' Hid Hother Hlen Hlen' Hret2 Hexp2 Hop2 Hcall2.
  apply from_document_ok in Hb as Hbok. destruct Hbok as (Hbok & Hi & Hroute & Hdigest).
  apply from_document_ok in Hb' as Hbok'. destruct Hbok' as (Hbok' & Hi' & Hroute' & Hdigest').
  destruct (first_execution _ _ _ _ _ _ _ _ _ Hinv Hb Hnow Hret Hexp Hop Hfind Hcall)
    as [?|(d & s & _ & _ & _ & _ & -> & Hinv1)]; [done|].
  destruct (receipt_found _ _ _ _ _ _ _ now2 Hinv1 Hsteps) as [Hinv2 Hfound]; [lia|].
  apply expiry_Ok in Hexp as [_ He]; [|done|lia].
  unfold execute_database_admin_operation in Hcall2. simpl in Hcall2. rewrite Hb' in Hcall2. simpl in Hcall2.
  rewrite Hexp2 in Hcall2. simpl in Hcall2. apply expiry_Ok in Hexp2 as [_ He2]; [|done|lia].
  assert (b_operation_id b' = b_operation_id b) as Heq by congruence.
  pose proof (execute_cases b' now2 expires2 operation2 db2 Hinv2 Hbok') as Hcases.
  cbv zeta in Hcases. rewrite Heq, Hfound in Hcases.
  destruct (same_row b' (receipt b now expires_at d)) eqn:Hsame.
  - right. apply andb_true_iff in Hsame as [Hr Hs]. apply String.eqb_eq in Hr. apply bytes_eqb_true in Hs.
    apply (operation_id_inj (b_route b)) in Hr. simpl in Hs.
    rewrite Hdigest, Hdigest' in Hs. unfold request_digest in Hs. apply sha256_inj_or_collision in Hs as [Hs|]; [|done].
    exfalso. apply Hother. rewrite <- Hroute, <- Hroute', Hr in *.
    apply app_inv_head in Hs. apply framed_app_inj in Hs as [_ Hs]; [|by destruct (b_route b')..].
    apply app_inv_head in Hs. rewrite <- (app_nil_r (framed (rq_model_bytes request))) in Hs.
    rewrite <- (app_nil_r (framed (rq_model_bytes request'))) in Hs.
    apply framed_app_inj in Hs as [-> _]; done.
  - left. eapply run_refused in Hcall2 as [-> Hr]; [|apply Hcases; [lia|done|done]].
    split; [done|]. by destruct Hr as [-> | ->]; auto.
Qed.
End journal.

(** ** A concrete journal *)

#[local] Existing Instance checksum.
#[local] Existing Instance checksum_laws.
#[local] Existing Instance json_value.
#[local] Existing Instance json_tree.
#[local] Existing Instance json_writer.
#[local] Existing Instance reliable_host.
#[local] Existing Instance reliable_host_laws.
#[local] Instance demo_urls : UrlLibrary := λ _, None.

Definition demo_value : json := JObject [("retried_targets", JNumber 3)].

(** A reader that knows one text *)
#[local] Instance demo_reader : StrictReader json := {|
  raw_value := λ l,
    if bool_decide (l = write_json demo_value)
    then RawMap [("retried_targets", RawNumber (JNumber 3))] None else RawError "unknown text";
  raw_end := λ _, true;
|}.

Definition demo_contract : option json := Some (JObject [("admin", JObject
  [("models", JObject
     [("publication_retry_receipt_v1", JObject
        [("fields", JObject
           [("retried_targets", JObject [("type", JString "counter"); ("presence", JString "required")])])])]);
   ("types", JObject
     [("counter", JObject [("kind", JString "integer"); ("minimum", JNumber 0); ("maximum", JNumber 16)])])])]).

Definition demo_document : RhiAdminResponseDocument json :=
  MkResponse PublicationRetry (write_json demo_value) demo_value.

Definition demo_request (model : string) : RhiAdminRequestDocument :=
  MkRequest PublicationRetry (Some "retry-1") "correlation-1" None (as_bytes model).

Definition demo_binding (model : string) : AdminRequestBinding :=
  match from_document (demo_request model) with
  | Ok b => b
  | Err _ => MkBinding "" PublicationRetry []
  end.

(** An operation on a counter *)
Definition demo_operation (n : Z) : result AdminJournalOperationError (RhiAdminResponseDocument json * Z) :=
  Ok (demo_document, n + 1).

Lemma demo_sealed : sealed demo_contract demo_operation.
Proof. intros n d n' [= <- _]. vm_compute. reflexivity. Qed.

Definition demo_before : admin_db Z := AdminDb [] 0.

Definition demo_after : admin_db Z :=
  AdminDb [receipt (demo_binding "{}") 1000 604801000 demo_document] 1.

(** The tables went on to change beside the journal. *)
Definition demo_later : admin_db Z := AdminDb (ad_operations demo_after) 7.

Lemma demo_journal_inv : journal_inv demo_contract [].
Proof. split; [done|constructor|vm_compute; discriminate..]. Qed.

Lemma demo_journal_steps : journal_steps demo_contract true 604801000 demo_after demo_later.
Proof. apply rtc_once. unfold demo_later, demo_after. apply step_other. Qed.

Lemma journal_is_bounded_and_sound_witness :
  Z.of_nat (length (ad_operations demo_later)) ≤ 4096 ∧
  Forall (row_sound demo_contract) (ad_operations demo_later).
Proof.
  assert (journal_steps demo_contract true 604801000 demo_before demo_later) as Hsteps.
  { apply rtc_l with demo_after; [|apply demo_journal_steps].
    apply (step_execute _ _ _ (demo_request "{}") 1000 seven_days demo_operation (Ok demo_document));
      [vm_compute; split; discriminate|done|vm_compute; discriminate|apply demo_sealed|].
    vm_compute. reflexivity. }
  destruct (journal_is_bounded_and_sound demo_contract true _ _ _ Hsteps demo_journal_inv) as (_ & _ & Htotal & Hsound & _).
  split; assumption.
Defined.

Lemma admin_operation_is_atomic_witness :
  execute_database_admin_operation demo_contract true (demo_request "{}") 1000 seven_days demo_operation
    demo_before = (Ok demo_document, demo_after) ∧
  (demo_after = demo_before ∨
   (∃ d : RhiAdminResponseDocument json, demo_after = AdminDb [] 0 ∧ rs_route d = PublicationRetry) ∨
   ∃ d n, demo_operation 0 = Ok (d, n) ∧
     demo_after = AdminDb [receipt (demo_binding "{}") 1000 604801000 d] n).
Proof.
  split; [vm_compute; reflexivity|].
  destruct (admin_operation_is_atomic demo_contract (demo_request "{}") 1000 seven_days demo_operation demo_before
    (Ok demo_document) demo_after (demo_binding "{}") 604801000 demo_journal_inv)
    as [[H _]|[(d & _ & _ & H & _ & _ & _ & _ & Hr & _)|(d & n & _ & H1 & _ & H2 & _)]].
  - vm_compute. reflexivity.
  - vm_compute. split; discriminate.
  - vm_compute. discriminate.
  - vm_compute. reflexivity.
  - apply demo_sealed.
  - vm_compute. reflexivity.
  - left. exact H.
  - right. left. exists d. split; [exact H|exact Hr].
  - right. right. exists d, n. split; [exact H1|exact H2].
Defined.

Lemma admin_operation_runs_once_witness :
  execute_database_admin_operation demo_contract true (demo_request "{}") 2000 seven_days demo_operation
    demo_later = (Ok demo_document, demo_later) ∧
  ∃ d : RhiAdminResponseDocument json, ad_state demo_later = ad_state demo_later ∧
    (Ok (E:=RhiAdminOperationErrorKind) demo_document = Ok d ∨
     Ok demo_document = Err CommitOutcomeUnknown ∨ Ok demo_document = Err Transaction).
Proof.
  split; [vm_compute; reflexivity|].
  destruct (admin_operation_runs_once demo_contract true (demo_request "{}") 1000 seven_days demo_operation demo_before
    (Ok demo_document) demo_after (demo_binding "{}") 604801000 demo_journal_inv) as (d & _ & _ & H).
  - vm_compute. reflexivity.
  - vm_compute. split; discriminate.
  - vm_compute. discriminate.
  - vm_compute. reflexivity.
  - apply demo_sealed.
  - vm_compute. reflexivity.
  - vm_compute. reflexivity.
  - discriminate.
  - exists d. eapply (H 2000 seven_days demo_operation 604802000 demo_later _ demo_later demo_journal_steps).
    + vm_compute. split; [discriminate|reflexivity].
    + vm_compute. discriminate.
    + vm_compute. reflexivity.
    + apply demo_sealed.
    + vm_compute. reflexivity.
Defined.

(** 128 operations that were admitted and never completed *)
Definition demo_unresolved : admin_db Z :=
  AdminDb
    (map (λ k, prepared_row
                 (MkBinding (String (Ascii.ascii_of_nat (97 + k / 16)) (String (Ascii.ascii_of_nat (97 + k mod 16)) ""))
                    StateBackup (repeat 1 32)) 1000) (seq 0 128)) 0.

Lemma unresolved_operations_block_mutations_witness :
  execute_database_admin_operation demo_contract true (demo_request "{}") 9000000000000 seven_days demo_operation
    demo_unresolved = (Err ResourceExhausted, demo_unresolved) ∧
  demo_unresolved = demo_unresolved ∧
  (Err (A:=RhiAdminResponseDocument json) ResourceExhausted = Err ResourceExhausted ∨
   Err (A:=RhiAdminResponseDocument json) ResourceExhausted = Err Transaction).
Proof.
  split; [vm_compute; reflexivity|].
  apply (unresolved_operations_block_mutations demo_contract (demo_request "{}") 9000000000000 seven_days demo_operation
    demo_unresolved _ demo_unresolved (demo_binding "{}") 9000604800000).
  - split; [vm_compute; reflexivity| |vm_compute; discriminate..].
    apply Forall_map, list.Forall_forall. intros k _. exists StateBackup. split; [reflexivity|].
    split; [reflexivity|discriminate].
  - vm_compute. reflexivity.
  - vm_compute. split; discriminate.
  - vm_compute. discriminate.
  - vm_compute. reflexivity.
  - apply demo_sealed.
  - vm_compute. reflexivity.
  - vm_compute. discriminate.
  - vm_compute. reflexivity.
Defined.

Lemma reused_operation_id_is_refused_witness :
  execute_database_admin_operation demo_contract true (demo_request "{ }") 2000 seven_days demo_operation
    demo_later = (Err OperationConflict, demo_later) ∧
  ((demo_later = demo_later ∧
    (Err (A:=RhiAdminResponseDocument json) OperationConflict = Err OperationConflict ∨
     Err (A:=RhiAdminResponseDocument json) OperationConflict = Err Transaction)) ∨ sha256_collision).
Proof.
  split; [vm_compute; reflexivity|].
  apply (reused_operation_id_is_refused demo_contract true (demo_request "{}") (demo_request "{ }") 1000 seven_days
    demo_operation demo_before (Ok demo_document) demo_after (demo_binding "{}") (demo_binding "{ }") 604801000
    2000 seven_days demo_operation 604802000 demo_later _ demo_later demo_journal_inv).
  all: first [apply demo_sealed|apply demo_journal_steps|discriminate|vm_compute; reflexivity|vm_compute; discriminate
             |vm_compute; split; first [discriminate|reflexivity]].
Defined.
End JournalSafety.
