(* ===== verification/AdminCursor.v ===== *)
(** * Page cursors of the administration handler: [src/src/runtime_admin.rs]

    The text forms the handler reads and writes (hexadecimal digests, page limits) and the
    authenticated cursor that carries the position of a listing between requests. *)

From stdpp Require Import list strings.
From S2P Require Import Prelude Sql Interfaces JsonTree Admin AdminRequest.

(** [hmac::Hmac<Sha256>] and [base64]'s [URL_SAFE_NO_PAD] engine *)
Class HmacSha256 : Type := hmac_sha256 : bytes → bytes → bytes.

Class UrlBase64 : Type := {
  base64_encode : bytes → string;
  base64_decode : string → option bytes;
}.

Definition is_octet (b : Z) : Prop := 0 ≤ b ≤ 255.

(** A tag has 32 bytes.  The engine is canonical: it decodes what it encodes, and no other
    text (no padding, no other trailing bits). *)
Class HmacLaws `{HmacSha256} : Prop :=
  hmac_bytes key text : length (hmac_sha256 key text) = 32%nat ∧ Forall is_octet (hmac_sha256 key text).

Class UrlBase64Laws `{UrlBase64} : Prop :=
  base64_canonical text l : base64_decode text = Some l ↔ Forall is_octet l ∧ text = base64_encode l.

Module Cursor.
Import Admin AdminRequest.

Notation handler := (result RhiAdminHandlerErrorKind).

Definition internal {A} : handler A := Err Internal.

(** ** Text *)

Definition hex_digit (n : Z) : Ascii.ascii := Ascii.ascii_of_N (Z.to_N (if n <? 10 then 48 + n else 87 + n)).

(** [write!(encoded, "{byte:02x}")] for each byte *)
Fixpoint lower_hex (l : bytes) : string :=
  match l with
  | [] => EmptyString
  | b :: l => String (hex_digit (b / 16)) (String (hex_digit (b mod 16)) (lower_hex l))
  end.

Definition hex_nibble (b : Z) : option Z :=
  if between 48 57 b then Some (b - 48)
  else if between 97 102 b then Some (b - 97 + 10)
  else None.

(** [as_chunks::<2>()] of a text of 64 bytes *)
Fixpoint digest_pairs (text : bytes) : handler bytes :=
  match text with
  | a :: b :: text =>
      let? high := ok_or (hex_nibble a) Internal in
      let? low := ok_or (hex_nibble b) Internal in
      let? rest := digest_pairs text in
      Ok (Z.lor (Z.shiftl high 4) low :: rest)
  | _ => Ok []
  end.

Definition parse_digest (value : string) : handler bytes :=
  reject_if
    (negb (length (as_bytes value) =? 64)%nat
     || existsb (λ b, negb (is_ascii_hexdigit b) || is_ascii_uppercase b) (as_bytes value)) Internal ;?
  digest_pairs (as_bytes value).

Section cursor.
Context {V : Type} `{Sha256, HmacSha256, UrlBase64, !JsonValue V, !JsonTree V, !JsonWriter V}.

Definition required_u64 (v : V) (path : string) : handler Z :=
  ok_or (pointer v path ≫= as_u64) Internal.

Definition page_limit (model : V) : handler Z :=
  ok_or (filter_opt (between 1 200) (n ← pointer model "/limit" ≫= as_u64; try_from U16_MAX n)) Internal.

(** [Map::remove] *)
Definition without (key : string) (members : list (string * V)) : list (string * V) :=
  List.filter (λ m, negb (String.eqb m.1 key)) members.

Definition query_digest (model : V) : handler bytes :=
  let? members := ok_or (as_object model) Internal in
  let? l := ok_or (to_vec (json_object (without "cursor" members))) Internal in
  Ok (sha256 l).

(** ** The cursor *)

Definition CURSOR_DOMAIN : bytes := as_bytes "radroots.rhi.admin_cursor.v1" ++ [0].

(** [cursor_authenticator(key, payload)] has absorbed this text. *)
Definition cursor_authenticator (payload : bytes) : bytes :=
  CURSOR_DOMAIN ++ to_be_bytes 8 (Z.of_nat (length payload)) ++ payload.

Definition cursor_tag (key payload : bytes) : bytes := hmac_sha256 key (cursor_authenticator payload).

Definition route_code (r : RhiAdminRoute) : Z :=
  match r with
  | Status => 0
  | EffectiveConfig => 1
  | IdentityStatus => 2
  | IdentityPublic => 3
  | StateStatus => 4
  | StateBackup => 5
  | MetricsSnapshot => 6
  | ReconciliationStatus => 7
  | ReconciliationJobs => 8
  | ReconciliationRefresh => 9
  | Sources => 10
  | TradeProjection => 11
  | TradeReportCurrent => 12
  | TradeReports => 13
  | PublicationBacklog => 14
  | PublicationTargets => 15
  | PublicationRetry => 16
  | PresenceDesired => 17
  | PresenceRender => 18
  | PresenceRefresh => 19
  end.

Definition encode_runtime_cursor (key : bytes) (route : RhiAdminRoute) (snapshot offset : Z)
    (query_digest : bytes) : string :=
  let payload :=
    [1; route_code route] ++ to_be_bytes 8 snapshot ++ to_be_bytes 4 offset ++ query_digest in
  base64_encode (payload ++ cursor_tag key payload).

(** [bytes[first..last]] *)
Definition slice (first last : nat) (l : bytes) : bytes := take (last - first) (drop first l).

Definition decode_runtime_cursor (key : bytes) (route : RhiAdminRoute) (encoded : string)
    (query_digest : bytes) : handler (Z * Z) :=
  let? l := ok_or (base64_decode encoded) InvalidCursor in
  reject_if
    (negb (length l =? 78)%nat
     || negb (bytes_eqb (slice 0 1 l) [1])
     || negb (bytes_eqb (slice 1 2 l) [route_code route])
     || negb (bytes_eqb (slice 14 46 l) query_digest)) InvalidCursor ;?
  reject_if (negb (bytes_eqb (cursor_tag key (take 46 l)) (drop 46 l))) InvalidCursor ;?
  Ok (of_be_bytes 0 (slice 2 10 l), of_be_bytes 0 (slice 10 14 l)).

(** [cursor_or_new(&model, route, query_digest, self.now_millis()?)]; the clock is read
    whether or not the model has a cursor. *)
Definition cursor_or_new (key : bytes) (model : V) (route : RhiAdminRoute) (query_digest : bytes)
    (now_millis : handler Z) : handler (Z * Z) :=
  let? new_snapshot := now_millis in
  match pointer model "/cursor" ≫= as_str with
  | Some cursor => decode_runtime_cursor key route cursor query_digest
  | None => Ok (new_snapshot, 0)
  end.
End cursor.
End Cursor.
