(* ===== verification/AdminCursorSafety.v ===== *)
(** * Correctness of the page cursors

    A cursor is accepted exactly when it was issued under the same key for the same route and
    filters, and then gives back its position. *)

From Stdlib Require Import ZArith Lia.
From stdpp Require Import list strings.
From S2P Require Import Prelude Sql Interfaces JsonTree Admin Base64Url AdminRequest AdminRequestSafety AdminCursor.

Module CursorSafety.
Import Admin AdminRequest Cursor.

(** ** Big-endian integers *)

Lemma of_be_bytes_acc acc l :
  of_be_bytes acc l = acc * 2 ^ (8 * Z.of_nat (length l)) + of_be_bytes 0 l.
Proof.
  revert acc; induction l as [|b l IH]; intros acc; [simpl; lia|].
  cbn [of_be_bytes length]. rewrite (IH (acc * 256 + b)), (IH (0 * 256 + b)).
  replace (8 * Z.of_nat (S (length l))) with (8 + 8 * Z.of_nat (length l)) by lia.
  rewrite Z.pow_add_r by lia. change (2 ^ 8) with 256. ring.
Qed.

Lemma be_value_range l : Forall is_octet l → 0 ≤ of_be_bytes 0 l < 2 ^ (8 * Z.of_nat (length l)).
Proof.
  induction 1 as [|b l Hb _ IH]; [simpl; lia|]. cbn [of_be_bytes length]. rewrite of_be_bytes_acc.
  replace (8 * Z.of_nat (S (length l))) with (8 + 8 * Z.of_nat (length l)) by lia.
  rewrite Z.pow_add_r by lia. change (2 ^ 8) with 256. unfold is_octet in Hb. nia.
Qed.

Lemma to_be_bytes_low n x y : to_be_bytes n (x * 2 ^ (8 * Z.of_nat n) + y) = to_be_bytes n y.
Proof.
  revert x y; induction n as [|n IH]; intros x y; [done|]. rewrite !to_be_bytes_S.
  replace (8 * Z.of_nat (S n)) with (8 + 8 * Z.of_nat n) by lia.
  rewrite Z.pow_add_r, Z.mul_assoc by lia. f_equal; [|apply IH].
  rewrite !Z.shiftr_div_pow2, Z.div_add_l by (try apply Z.pow_nonzero; lia).
  change (2 ^ 8) with 256. rewrite Z.add_comm. apply Z_mod_plus_full.
Qed.

Lemma to_be_bytes_of_be_bytes l : Forall is_octet l → to_be_bytes (length l) (of_be_bytes 0 l) = l.
Proof.
  induction 1 as [|b l Hb Hl IH]; [done|]. cbn [of_be_bytes length].
  rewrite to_be_bytes_S, of_be_bytes_acc, to_be_bytes_low, IH. f_equal.
  pose proof (be_value_range l Hl). rewrite Z.shiftr_div_pow2 by lia.
  rewrite Z.div_add_l, Z.div_small by lia. rewrite Z.mod_small; unfold is_octet in Hb; lia.
Qed.

Lemma of_be_bytes_to n x : 0 ≤ x < 2 ^ (8 * Z.of_nat n) → of_be_bytes 0 (to_be_bytes n x) = x.
Proof. intros Hx. rewrite of_be_bytes_to_be_bytes, Z.mod_small by lia. lia. Qed.

Lemma to_be_bytes_octets n x : Forall is_octet (to_be_bytes n x).
Proof.
  induction n as [|n IH]; [constructor|]. rewrite to_be_bytes_S. constructor; [|done].
  unfold is_octet. pose proof (Z.mod_pos_bound (Z.shiftr x (8 * Z.of_nat n)) 256). lia.
Qed.

(** ** Slices *)

Lemma slice_app (a b c : bytes) first last :
  first = length a → last = (length a + length b)%nat → slice first last (a ++ b ++ c) = b.
Proof.
  intros -> ->. unfold slice. rewrite drop_app_length.
  replace (length a + length b - length a)%nat with (length b) by lia. apply take_app_length.
Qed.

Lemma slices first last (l : bytes) :
  (first ≤ last)%nat → slice first last l ++ drop last l = drop first l.
Proof.
  intros Hle. unfold slice. replace last with (first + (last - first))%nat at 2 by lia.
  rewrite <- drop_drop. apply take_drop.
Qed.

Section cursor.
Context `{HmacSha256, !HmacLaws, UrlBase64, !UrlBase64Laws}.

(** The authenticated part of a cursor *)
Definition cursor_payload (route : RhiAdminRoute) (snapshot offset : Z) (query : bytes) : bytes :=
  [1; route_code route] ++ to_be_bytes 8 snapshot ++ to_be_bytes 4 offset ++ query.

Definition query_bytes (query : bytes) : Prop := length query = 32%nat ∧ Forall is_octet query.

Lemma route_code_inj r o : route_code r = route_code o → r = o.
Proof. by destruct r, o. Qed.

Lemma payload_length route snapshot offset query :
  query_bytes query → length (cursor_payload route snapshot offset query) = 46%nat.
Proof. intros [Hq _]. unfold cursor_payload. rewrite !length_app, !length_to_be_bytes, Hq. done. Qed.

Lemma payload_octets route snapshot offset query :
  query_bytes query → Forall is_octet (cursor_payload route snapshot offset query).
Proof.
  intros [_ Hq]. unfold cursor_payload. rewrite !Forall_app. repeat split; try apply to_be_bytes_octets; [|done].
  repeat constructor; unfold is_octet; destruct route; simpl; lia.
Qed.

Lemma cursor_octets key route snapshot offset query :
  query_bytes query →
  Forall is_octet (cursor_payload route snapshot offset query
                   ++ cursor_tag key (cursor_payload route snapshot offset query)).
Proof. intros Hq. apply Forall_app. split; [by apply payload_octets|apply hmac_bytes]. Qed.

(** What the decoder reads from a cursor's bytes. *)
Lemma payload_slices route snapshot offset query tag :
  query_bytes query → let l := cursor_payload route snapshot offset query ++ tag in
  slice 0 1 l = [1] ∧ slice 1 2 l = [route_code route] ∧ slice 2 10 l = to_be_bytes 8 snapshot ∧
  slice 10 14 l = to_be_bytes 4 offset ∧ slice 14 46 l = query ∧
  take 46 l = cursor_payload route snapshot offset query ∧ drop 46 l = tag.
Proof.
  intros Hq l. pose proof (payload_length route snapshot offset query Hq) as Hlen. destruct Hq as [Hq _].
  unfold l. split_and!; [done|done|..].
  - unfold cursor_payload. rewrite <- !app_assoc. apply slice_app; by rewrite ?length_to_be_bytes.
  - unfold cursor_payload. rewrite <- !app_assoc, (app_assoc [_; _]).
    apply slice_app; by rewrite ?length_app, ?length_to_be_bytes.
  - unfold cursor_payload. rewrite <- !app_assoc, (app_assoc (to_be_bytes 8 _)), (app_assoc [_; _]).
    apply slice_app; by rewrite ?length_app, ?length_to_be_bytes, ?Hq.
  - by rewrite <- Hlen, take_app_length.
  - by rewrite <- Hlen, drop_app_length.
Qed.

(** Bytes with the slices the decoder checks *)
Lemma slices_payload l route query :
  length l = 78%nat → Forall is_octet l → slice 0 1 l = [1] → slice 1 2 l = [route_code route] →
  slice 14 46 l = query →
  take 46 l = cursor_payload route (of_be_bytes 0 (slice 2 10 l)) (of_be_bytes 0 (slice 10 14 l)) query.
Proof.
  intros Hlen Hl Hver Hroute Hquery. unfold cursor_payload.
  assert (∀ first last, (first ≤ last ≤ 78)%nat →
    to_be_bytes (last - first) (of_be_bytes 0 (slice first last l)) = slice first last l) as Hbe.
  { intros first last Hle. replace (last - first)%nat with (length (slice first last l)).
    - apply to_be_bytes_of_be_bytes. by apply Forall_take, Forall_drop.
    - unfold slice. rewrite length_take, length_drop. lia. }
  pose proof (Hbe 2%nat 10%nat ltac:(lia)) as Hs. pose proof (Hbe 10%nat 14%nat ltac:(lia)) as Ho.
  cbn [Nat.sub] in Hs, Ho. rewrite Hs, Ho, <- Hquery.
  change [1; route_code route] with ([1] ++ [route_code route]). rewrite <- Hver, <- Hroute, <- !app_assoc.
  apply (app_inv_tail (drop 46 l)). rewrite take_drop, <- !app_assoc, !slices by lia. done.
Qed.

Lemma decode_encode_cursor key key' route route' snapshot offset query query' :
  query_bytes query → 0 ≤ snapshot ≤ U64_MAX → 0 ≤ offset ≤ U32_MAX →
  decode_runtime_cursor key' route' (encode_runtime_cursor key route snapshot offset query) query' =
    if bytes_eqb [route_code route] [route_code route'] && bytes_eqb query query'
       && bytes_eqb (cursor_tag key' (cursor_payload route snapshot offset query))
            (cursor_tag key (cursor_payload route snapshot offset query))
    then Ok (snapshot, offset) else Err InvalidCursor.
Proof.
  intros Hq Hs Ho. unfold decode_runtime_cursor, encode_runtime_cursor.
  fold (cursor_payload route snapshot offset query). set (p := cursor_payload route snapshot offset query).
  assert (base64_decode (base64_encode (p ++ cursor_tag key p)) = Some (p ++ cursor_tag key p)) as ->.
  { apply base64_canonical. split; [by apply cursor_octets|done]. }
  cbn [ok_or and_then]. destruct (hmac_bytes key (cursor_authenticator p)) as [Ht _].
  rewrite length_app. unfold p at 1. rewrite payload_length by done. unfold cursor_tag at 1. rewrite Ht.
  pose proof (payload_slices route snapshot offset query (cursor_tag key p) Hq) as Hp. cbv zeta in Hp. fold p in Hp.
  destruct Hp as (-> & -> & -> & -> & -> & -> & ->). rewrite !of_be_bytes_to by (unfold_max; simpl; lia). rewrite bytes_eqb_refl. simpl negb. cbn [orb].
  destruct (bytes_eqb [route_code route] [route_code route']); [|done]. simpl.
  destruct (bytes_eqb query query'); [|done]. simpl. by destruct (bytes_eqb _ _).
Qed.

(** C32. Page cursors are exact: under a key, for a route and the digest of its filters, a
    text is accepted if and only if it is the cursor issued for the position it is read as,
    and positions are in range; so every issued cursor gives its position back, and no other
    text is a cursor. *)
Theorem page_cursor_is_exact key route query text snapshot offset :
  query_bytes query →
  decode_runtime_cursor key route text query = Ok (snapshot, offset) ↔
  0 ≤ snapshot ≤ U64_MAX ∧ 0 ≤ offset ≤ U32_MAX ∧
  text = encode_runtime_cursor key route snapshot offset query.
Proof.
  intros Hq. split.
  - unfold decode_runtime_cursor. intros Hd. bind Hd as l Hl. bind Hd as [] Hc. bind Hd as [] Ht.
    apply ok_or_Ok, base64_canonical in Hl as [Hl ->].
    apply reject_if_Ok in Hc, Ht. apply negb_false_iff, bytes_eqb_true in Ht.
    rewrite !orb_false_iff, !negb_false_iff, !bytes_eqb_true, Nat.eqb_eq in Hc.
    destruct Hc as (((Hlen & Hver) & Hroute) & Hquery). injection Hd as <- <-.
    assert (∀ first last, (first ≤ last ≤ 78)%nat → length (slice first last l) = (last - first)%nat ∧
      Forall is_octet (slice first last l)) as Hsl.
    { intros first last Hle. unfold slice. rewrite length_take, length_drop.
      split; [lia|by apply Forall_take, Forall_drop]. }
    destruct (Hsl 2%nat 10%nat) as [Hls Hos]; [lia|]. destruct (Hsl 10%nat 14%nat) as [Hlo Hoo]; [lia|].
    pose proof (be_value_range _ Hos) as Hs. pose proof (be_value_range _ Hoo) as Ho.
    rewrite Hls in Hs. rewrite Hlo in Ho. simpl in Hs, Ho. split_and!; try (unfold_max; lia).
    unfold encode_runtime_cursor.
    pose proof (slices_payload l route query Hlen Hl Hver Hroute Hquery) as Hp. unfold cursor_payload in Hp.
    cbv zeta. rewrite <- Hp, Ht. by rewrite take_drop.
  - intros (Hs & Ho & ->). rewrite decode_encode_cursor by done. by rewrite !bytes_eqb_refl.
Qed.

(** Page cursors are bound: a cursor issued under a key for a route and filters is
    accepted for another key, route or filters only if route and filters are the same and
    the two keys give the same authentication tag for its position; otherwise it is refused
    as an invalid cursor. *)
Theorem page_cursor_is_bound key key' route route' snapshot offset query query' :
  query_bytes query → 0 ≤ snapshot ≤ U64_MAX → 0 ≤ offset ≤ U32_MAX →
  let text := encode_runtime_cursor key route snapshot offset query in
  let payload := cursor_payload route snapshot offset query in
  (decode_runtime_cursor key' route' text query' = Ok (snapshot, offset) ∧
   route' = route ∧ query' = query ∧ cursor_tag key' payload = cursor_tag key payload) ∨
  (decode_runtime_cursor key' route' text query' = Err InvalidCursor ∧
   (route' ≠ route ∨ query' ≠ query ∨ cursor_tag key' payload ≠ cursor_tag key payload)).
Proof.
  intros Hq Hs Ho text payload. unfold text. rewrite decode_encode_cursor by done. fold payload.
  destruct (bytes_eqb [_] [_]) eqn:Hr; simpl.
  - apply bytes_eqb_true in Hr. injection Hr as Hr%route_code_inj.
    destruct (bytes_eqb query query') eqn:Hqq; simpl.
    + apply bytes_eqb_true in Hqq. destruct (bytes_eqb _ _) eqn:Ht.
      * apply bytes_eqb_true in Ht. by left.
      * right. split; [done|]. right. right. intros Heq. by rewrite Heq, bytes_eqb_refl in Ht.
    + right. split; [done|]. right. left. intros ->. by rewrite bytes_eqb_refl in Hqq.
  - right. split; [done|]. left. intros ->. by rewrite bytes_eqb_refl in Hr.
Qed.
End cursor.

(** ** Concrete libraries *)

Definition demo_hmac : HmacSha256 := λ key text, @sha256 checksum (key ++ text).

Lemma demo_hmac_laws : @HmacLaws demo_hmac.
Proof. intros key text. split; [apply checksum_laws|apply to_be_bytes_octets]. Qed.

Definition demo_base64 : UrlBase64 := {|
  base64_encode := λ l, text_of (Base64Url.encode l);
  base64_decode := λ s, Base64Url.decode (as_bytes s);
|}.

Lemma octets_bytes l : Forall Base64Url.is_byte l ↔ Forall is_octet l.
Proof. rewrite !list.Forall_forall. unfold Base64Url.is_byte, is_octet. split; intros H b Hb; specialize (H b Hb); lia. Qed.

Lemma encode_bytes l : Forall Base64Url.is_byte l → Forall Base64Url.is_byte (Base64Url.encode l).
Proof.
  intros Hl. unfold Base64Url.encode. apply Forall_map. eapply Forall_impl; [|by apply Base64Url.pack_sextets].
  intros n Hn. unfold Base64Url.is_sextet in Hn. unfold Base64Url.is_byte, Base64Url.alphabet.
  repeat case_match; to_prop; lia.
Qed.

Lemma demo_base64_laws : @UrlBase64Laws demo_base64.
Proof.
  intros text l. simpl. rewrite Base64Url.decode_Some, octets_bytes. split; intros [Hb Ht]; (split; [done|]).
  - by rewrite <- Ht, AdminRequestSafety.text_of_as_bytes.
  - rewrite Ht. by apply AdminRequestSafety.as_bytes_text_of, encode_bytes, octets_bytes.
Qed.

#[local] Existing Instance demo_hmac.
#[local] Existing Instance demo_hmac_laws.
#[local] Existing Instance demo_base64.
#[local] Existing Instance demo_base64_laws.

Definition demo_key : bytes := repeat 17 32.
Definition demo_query : bytes := repeat 34 32.

Lemma page_cursor_is_exact_witness :
  query_bytes demo_query ∧
  (decode_runtime_cursor demo_key ReconciliationJobs
     (encode_runtime_cursor demo_key ReconciliationJobs U64_MAX U32_MAX demo_query) demo_query
   = Ok (U64_MAX, U32_MAX) ↔
   0 ≤ U64_MAX ≤ U64_MAX ∧ 0 ≤ U32_MAX ≤ U32_MAX ∧
   encode_runtime_cursor demo_key ReconciliationJobs U64_MAX U32_MAX demo_query =
     encode_runtime_cursor demo_key ReconciliationJobs U64_MAX U32_MAX demo_query).
Proof.
  assert (query_bytes demo_query) as Hq.
  { split; [reflexivity|]. repeat constructor; unfold is_octet; lia. }
  split; [exact Hq|]. apply page_cursor_is_exact. exact Hq.
Defined.

Lemma page_cursor_is_bound_witness :
  decode_runtime_cursor demo_key Sources
    (encode_runtime_cursor demo_key ReconciliationJobs 1700000000000 50 demo_query) demo_query = Err InvalidCursor ∧
  (Sources = ReconciliationJobs ∨ Sources ≠ ReconciliationJobs ∨ demo_query ≠ demo_query ∨
   cursor_tag demo_key (cursor_payload ReconciliationJobs 1700000000000 50 demo_query) ≠
     cursor_tag demo_key (cursor_payload ReconciliationJobs 1700000000000 50 demo_query)).
Proof.
  split; [vm_compute; reflexivity|].
  destruct (page_cursor_is_bound demo_key demo_key ReconciliationJobs Sources 1700000000000 50 demo_query demo_query)
    as [(_ & H & _)|(_ & H)].
  - split; [reflexivity|]. repeat constructor; unfold is_octet; lia.
  - vm_compute. split; discriminate.
  - vm_compute. split; discriminate.
  - left. exact H.
  - right. exact H.
Defined.
End CursorSafety.
