(* ===== verification/AdminPages.v ===== *)
(** * Listings of the administration handler: [src/src/runtime_admin.rs]

    The pages of reconciliation jobs, publication workflows and publication targets: their
    filters, statements and summaries, and the paging they share. *)

From stdpp Require Import list strings.
From S2P Require Import Prelude Sql Interfaces JsonTree Admin AdminRequest AdminCursor.
From S2P Require Import ReconciliationJob PublicationState.

(** [serde_json::from_slice] *)
Class JsonReader (V : Type) : Type := from_slice : bytes → option V.

(** [TradeId::parse] *)
Class TradeIds : Type := parse_trade : string → option bytes.

Module Pages.
Import Admin AdminRequest Cursor.

(** A page: its items, the time its listing is fixed at, and the cursor of the next one *)
Record Page (V : Type) : Type := MkPage {
  page_items : list V;
  page_snapshot : Z;
  page_next : option string;
}.
Arguments MkPage {V} _ _ _.
Arguments page_items {V} _.
Arguments page_snapshot {V} _.
Arguments page_next {V} _.

(** What a listing request asks for *)
Record PageQuery (Q : Type) : Type := MkPageQuery {
  q_limit : Z;
  q_filters : Q;
  q_digest : bytes;
  q_snapshot : Z;
  q_offset : Z;
}.
Arguments MkPageQuery {Q} _ _ _ _ _.
Arguments q_limit {Q} _.
Arguments q_filters {Q} _.
Arguments q_digest {Q} _.
Arguments q_snapshot {Q} _.
Arguments q_offset {Q} _.

(** [try_get::<i64>] and [u64::try_from] *)
Definition row_u64 (v : Z) : handler Z := ok_or (try_from U64_MAX v) Internal.

Definition optional_nonnegative_i64 (v : option Z) : handler (option Z) :=
  match v with None => Ok None | Some v => let? v := row_u64 v in Ok (Some v) end.

(** [exact_blob::<N>] on a column and its length *)
Definition exact_blob (n : nat) (column : bytes) : handler bytes :=
  reject_if (negb (length column =? n)%nat) Internal ;?
  ok_or (filter_opt (PubState.blob_of n) (Some (take (S n) column))) Internal.

(** [? IS NULL OR ..] *)
Definition unset_or {A} (f : A → bool) (filter : option A) : bool := is_none_or f filter.

(** [LIMIT ? OFFSET ?] *)
Definition limit_offset {A} (limit offset : Z) (l : list A) : list A :=
  take (Z.to_nat limit) (drop (Z.to_nat offset) l).

(** [DESC] *)
Definition descending {A} (cmp : A → A → comparison) : A → A → comparison := λ x y, cmp y x.

(** ** Reconciliation jobs *)

Definition job_in_state (filter : string) (r : Job.job_row) : bool :=
  let state := Job.col_state r in
  (String.eqb filter "pending" && String.eqb state "ready" && (Job.col_attempt_count r =? 0))
  || (String.eqb filter "retry_scheduled" && String.eqb state "ready" && (0 <? Job.col_attempt_count r))
  || (String.eqb filter "leased" && String.eqb state "leased")
  || (String.eqb filter "completed" && String.eqb state "completed")
  || (String.eqb filter "failed" && PubState.one_of ["exhausted"; "superseded"] state).

Definition job_listed (filters : option string * option bytes) (snapshot : Z) (r : Job.job_row) : bool :=
  (Job.col_updated_at_unix_ms r <=? snapshot)
  && unset_or (λ state, job_in_state state r) filters.1
  && unset_or (bytes_eqb (Job.col_trade_id r)) filters.2.

Definition job_order : Job.job_row → Job.job_row → comparison :=
  cmp_then (descending (cmp_on Job.col_updated_at_unix_ms Z.compare))
    (descending (cmp_on Job.col_job_id bytes_cmp)).

Definition READ_JOBS_SQL (filters : option string * option bytes) (snapshot : Z) (db : Job.job_db) :
    list Job.job_row :=
  sort_by job_order (List.filter (job_listed filters snapshot) (Job.jobs db)).

(** ** Publication workflows *)

Record backlog_row : Type := BacklogRow {
  bl_outbox : PubState.outbox_row;
  bl_statement_sha256 : bytes;
  bl_attempt_count : Z;
  bl_public_state : string;
}.

(** The [CASE] of PUBLICATION_BACKLOG_SQL *)
Definition public_state (o : PubState.outbox_row) (targets : list PubState.target_row) : string :=
  let some_target state := existsb (λ t, String.eqb (PubState.tg_state t) state) targets in
  let state := PubState.ob_state o in
  if String.eqb state "pending" then "pending"
  else if String.eqb state "leased" then "submitted"
  else if String.eqb state "complete" then "accepted"
  else if some_target "auth_required" then "auth_required"
  else if some_target "rate_limited" then "rate_limited"
  else if some_target "rejected" then "rejected"
  else if some_target "failed" then "failed"
  else "unknown".

Definition targets_of (i : bytes) (db : PubState.publication_db) : list PubState.target_row :=
  List.filter (λ t, bytes_eqb (PubState.tg_outbox_id t) i) (PubState.targets db).

(** The group of an outbox: it is joined with its event and at least one target. *)
Definition backlog_group (db : PubState.publication_db) (o : PubState.outbox_row) : list backlog_row :=
  let targets := targets_of (PubState.ob_outbox_id o) db in
  match List.find (λ e, bytes_eqb (PubState.ev_event_id e) (PubState.ob_event_id o)) (PubState.events db), targets with
  | Some e, _ :: _ =>
      [BacklogRow o (PubState.ev_statement_sha256 e)
         (fold_left (λ count t, Z.max count (PubState.tg_attempt_count t)) targets 0) (public_state o targets)]
  | _, _ => []
  end.

Definition backlog_order : backlog_row → backlog_row → comparison :=
  cmp_then (descending (cmp_on (λ r, PubState.ob_updated_at_unix_ms (bl_outbox r)) Z.compare))
    (descending (cmp_on (λ r, PubState.ob_outbox_id (bl_outbox r)) bytes_cmp)).

Definition PUBLICATION_BACKLOG_SQL (state : option string) (snapshot : Z) (db : PubState.publication_db) :
    list backlog_row :=
  sort_by backlog_order
    (List.filter (λ r, unset_or (String.eqb (bl_public_state r)) state)
       (concat (map (backlog_group db)
          (List.filter (λ o, PubState.ob_updated_at_unix_ms o <=? snapshot) (PubState.outboxes db))))).

(** ** Publication targets *)

(** [(SELECT MAX(attempt.finished_at_unix_ms) ..)] *)
Definition last_attempt (db : PubState.publication_db) (t : PubState.target_row) : option Z :=
  fold_left
    (λ last a, Some (Z.max (default (PubState.at_finished_at_unix_ms a) last) (PubState.at_finished_at_unix_ms a)))
    (List.filter (λ a, bytes_eqb (PubState.at_outbox_id a) (PubState.tg_outbox_id t)
                       && (PubState.at_target_ordinal a =? PubState.tg_target_ordinal t))
       (PubState.attempts db)) None.

Definition target_order : PubState.target_row → PubState.target_row → comparison :=
  cmp_then (descending (cmp_on PubState.tg_updated_at_unix_ms Z.compare))
    (cmp_then (descending (cmp_on PubState.tg_outbox_id bytes_cmp))
       (cmp_on PubState.tg_target_ordinal Z.compare)).

Definition PUBLICATION_TARGETS_SQL (filters : option bytes * option string) (snapshot : Z)
    (db : PubState.publication_db) : list (PubState.target_row * option Z) :=
  map (λ t, (t, last_attempt db t))
    (sort_by target_order
       (List.filter (λ t, (PubState.tg_updated_at_unix_ms t <=? snapshot)
                          && unset_or (bytes_eqb (PubState.tg_outbox_id t)) filters.1
                          && unset_or (String.eqb (PubState.tg_state t)) filters.2)
          (PubState.targets db))).

Section pages.
Context {V : Type} `{Sha256, HmacSha256, UrlBase64, TradeIds}.
Context `{!JsonValue V, !JsonTree V, !JsonWriter V, !JsonReader V, !StrictReader V, UrlLibrary}.
Context (contract : option V) (cursor_key : bytes).

Definition request_model (request : RhiAdminRequestDocument) : handler V :=
  ok_or (from_slice (rq_model_bytes request)) Internal.

Definition parse_trade_id (value : string) : handler bytes := ok_or (parse_trade value) Internal.

Definition response (route : RhiAdminRoute) (value : V) : handler (RhiAdminResponseDocument V) :=
  let? l := ok_or (to_vec value) Internal in
  map_err (λ _, Internal) (from_canonical_bytes contract route l).

(** ** Filters *)

Definition string_filter (model : V) (path : string) : option string := pointer model path ≫= as_str.

(** [.map(parse).transpose()?] *)
Definition parsed_filter {A} (parse : string → handler A) (model : V) (path : string) : handler (option A) :=
  match string_filter model path with None => Ok None | Some s => let? a := parse s in Ok (Some a) end.

Definition job_filters (model : V) : handler (option string * option bytes) :=
  let? trade := parsed_filter parse_trade_id model "/trade_id" in
  Ok (string_filter model "/state", trade).

Definition backlog_filters (model : V) : handler (option string) := Ok (string_filter model "/state").

Definition target_filters (model : V) : handler (option bytes * option string) :=
  let? workflow := parsed_filter parse_digest model "/workflow_id" in
  Ok (workflow, string_filter model "/state").

(** ** Summaries *)

Definition job_summary (r : Job.job_row) : handler V :=
  let? job_id := exact_blob 32 (Job.col_job_id r) in
  let? trade_id := exact_blob 16 (Job.col_trade_id r) in
  let? attempt_count := row_u64 (Job.col_attempt_count r) in
  let? state :=
    if String.eqb (Job.col_state r) "ready" then Ok (if attempt_count =? 0 then "pending" else "retry_scheduled")
    else if String.eqb (Job.col_state r) "leased" then Ok "leased"
    else if String.eqb (Job.col_state r) "completed" then Ok "completed"
    else if PubState.one_of ["exhausted"; "superseded"] (Job.col_state r) then Ok "failed"
    else internal in
  let? generation := row_u64 (Job.col_input_generation r) in
  let? created := row_u64 (Job.col_created_at_unix_ms r) in
  let? expires := optional_nonnegative_i64 (Job.col_lease_expires_unix_ms r) in
  Ok (json_object
        ([("attempt_count", json_u64 attempt_count);
          ("dirty_generation", json_u64 generation);
          ("job_id", json_string (lower_hex job_id));
          ("reason_codes", json_array []);
          ("scheduled_at_utc", json_u64 (created / 1000));
          ("state", json_string state);
          ("trade_id", json_string (lower_hex trade_id))]
         ++ from_option (λ v, [("lease_expires_at_utc", json_u64 (v / 1000))]) [] expires)).

Definition reason_codes (code state : string) : V :=
  json_array (if PubState.one_of ["failed"; "unknown"] state then [json_string code] else []).

Definition publication_summary (r : backlog_row) : handler V :=
  let o := bl_outbox r in
  let state := bl_public_state r in
  reject_if (negb (PubState.one_of PubState.target_states state)) Internal ;?
  let? attempt_count := row_u64 (bl_attempt_count r) in
  let? event_id := exact_blob 32 (PubState.ob_event_id o) in
  let? event_sha256 := exact_blob 32 (PubState.ob_event_sha256 o) in
  let? statement := exact_blob 32 (bl_statement_sha256 r) in
  let? workflow := exact_blob 32 (PubState.ob_outbox_id o) in
  let? next := optional_nonnegative_i64 (PubState.ob_next_attempt_unix_ms o) in
  Ok (json_object
        ([("attempt_count", json_u64 attempt_count);
          ("event_id", json_string (lower_hex event_id));
          ("exact_bytes_digest", json_string (lower_hex event_sha256));
          ("reason_codes", reason_codes "publication_blocked" state);
          ("report_id", json_string (lower_hex statement));
          ("state", json_string state);
          ("workflow_id", json_string (lower_hex workflow))]
         ++ from_option (λ v, [("next_attempt_at_utc", json_u64 (v / 1000))]) [] next)).

Definition publication_target_summary (r : PubState.target_row * option Z) : handler V :=
  let '(t, last) := r in
  reject_if
    (negb (between 1 64 (Z.of_nat (String.length (PubState.tg_relay_id t))))
     || negb (PubState.one_of PubState.target_states (PubState.tg_state t))) Internal ;?
  let? attempt_count := row_u64 (PubState.tg_attempt_count t) in
  let? workflow := exact_blob 32 (PubState.tg_outbox_id t) in
  let? last := optional_nonnegative_i64 last in
  Ok (json_object
        ([("attempt_count", json_u64 attempt_count);
          ("reason_codes", reason_codes "publication_target_failed" (PubState.tg_state t));
          ("state", json_string (PubState.tg_state t));
          ("target_id", json_string (PubState.tg_relay_id t));
          ("workflow_id", json_string (lower_hex workflow))]
         ++ from_option (λ v, [("last_attempt_at_utc", json_u64 (v / 1000))]) [] last)).

(** ** Paging *)

Section listing.
Context {Q row D : Type} (filters : V → handler Q) (select : Q → Z → D → list row).
Context (summary : row → handler V) (route : RhiAdminRoute).

(** What a listing takes from its request, in the order of its checks. *)
Definition page_query (now_millis : handler Z) (model : V) : handler (PageQuery Q) :=
  let? limit := page_limit model in
  let? q := filters model in
  let? digest := query_digest model in
  let? (snapshot, offset) := cursor_or_new cursor_key model route digest now_millis in
  Ok (MkPageQuery limit q digest snapshot offset).

(** The statement is asked for one row more than the page shows. *)
Definition page_rows (q : PageQuery Q) (db : D) : handler (list row) :=
  let? snapshot := ok_or (try_from I64_MAX (q_snapshot q)) Internal in
  Ok (limit_offset (q_limit q + 1) (q_offset q) (select (q_filters q) snapshot db)).

Definition page_of_rows (q : PageQuery Q) (rows : list row) : handler (Page V) :=
  let has_more := q_limit q <? Z.of_nat (length rows) in
  let? items := collect summary (take (Z.to_nat (q_limit q)) rows) in
  let? next :=
    if has_more then
      let? offset := ok_or (u32_checked_add (q_offset q) (q_limit q)) Internal in
      Ok (Some (encode_runtime_cursor cursor_key route (q_snapshot q) offset (q_digest q)))
    else Ok None in
  Ok (MkPage items (q_snapshot q) next).

Definition page_value (p : Page V) : V :=
  json_object
    ([("items", json_array (page_items p)); ("snapshot_generation", json_u64 (page_snapshot p))]
     ++ from_option (λ c, [("next_cursor", json_string c)]) [] (page_next p)).

Definition listing `{TransactionHost D} (now_millis : handler Z) (request : RhiAdminRequestDocument) (db : D) :
    handler (RhiAdminResponseDocument V) * D :=
  match (let? model := request_model request in page_query now_millis model) with
  | Err e => (Err e, db)
  | Ok q =>
      let '(rows, db) := transaction (λ db, let? rows := page_rows q db in Ok (rows, db)) db in
      (let? rows := map_err (λ _, Internal) rows in
       let? p := page_of_rows q rows in
       response route (page_value p), db)
  end.
End listing.

Definition reconciliation_jobs `{TransactionHost Job.job_db} :=
  listing job_filters READ_JOBS_SQL job_summary ReconciliationJobs.

Definition publication_backlog `{TransactionHost PubState.publication_db} :=
  listing backlog_filters PUBLICATION_BACKLOG_SQL publication_summary PublicationBacklog.

Definition publication_targets `{TransactionHost PubState.publication_db} :=
  listing target_filters PUBLICATION_TARGETS_SQL publication_target_summary PublicationTargets.
End pages.
End Pages.
