(* ===== verification/AdminCommands.v ===== *)
(** * Mutations of the administration handler: [src/src/runtime_admin.rs]

    Publication retry and presence refresh, which change their tables and write their
    receipt in one transaction; reconciliation refresh, which is admitted, scheduled and
    completed in three; and the presence state an operator is shown. *)

From stdpp Require Import list strings.
From S2P Require Import Prelude Sql Interfaces JsonTree Admin AdminRequest AdminCursor AdminPages AdminJournal.
From S2P Require Import ReconciliationJob PublicationState PresenceState.

Module Commands.
Import Admin AdminRequest Cursor Pages Journal.

Definition map_journal_error (e : RhiAdminOperationErrorKind) : RhiAdminHandlerErrorKind :=
  match e with
  | OperationConflict => OperationIdConflict
  | ResourceExhausted => Unavailable
  | OperationOutcomeUnknown | CommitOutcomeUnknown => Unavailable
  | InvalidMode | InvalidInput | Binding | Transaction => Internal
  end.

Definition required_operation_id (request : RhiAdminRequestDocument) : handler string :=
  ok_or (rq_operation_id request) Internal.

Definition operation_time (value : Z) : handler Z := map_err (λ _, Internal) (operation_time_new value).

(** [operation_row_u64], [operation_exact_blob::<32>] and [operation_presence_kind] *)
Definition operation_row_u64 (v : Z) : result AdminJournalOperationError Z := ok_or (try_from U64_MAX v) OpBinding.

Definition operation_exact_blob (column : bytes) : result AdminJournalOperationError bytes :=
  reject_if (negb (length column =? 32)%nat) OpBinding ;?
  ok_or (filter_opt (PubState.blob_of 32) (Some (take 33 column))) OpBinding.

Definition known_presence_kind (kind : string) : bool := PubState.one_of ["service_profile"; "application_handler"] kind.

Definition operation_presence_kind (kind : string) : result AdminJournalOperationError string :=
  reject_if (negb (known_presence_kind kind)) OpBinding ;? Ok kind.

Definition presence_kind (kind : string) : handler string :=
  reject_if (negb (known_presence_kind kind)) Internal ;? Ok kind.

Definition bound_i64 (v : Z) : result AdminJournalOperationError Z := ok_or (try_from I64_MAX v) OpInvalidInput.

Definition storage {A} (r : result sql_error A) : result AdminJournalOperationError A := map_err (λ _, OpStorage) r.

#[local] Existing Instances PubState.outbox_table PubState.target_table PresenceState.outbox_table.

(** ** Statements *)

(** The columns the retry of an outbox sets; its bytes and its bounds stay. *)
Definition retried_outbox (now : Z) (r : PubState.outbox_row) : PubState.outbox_row :=
  PubState.OutboxRow (PubState.ob_outbox_id r) (PubState.ob_event_id r) (PubState.ob_event_sha256 r)
    (PubState.ob_authority_sha256 r) (PubState.ob_target_set_sha256 r) (PubState.ob_target_count r)
    (PubState.ob_required_target_count r) (PubState.ob_max_attempts r) (PubState.ob_initial_backoff_ms r)
    (PubState.ob_maximum_backoff_ms r) (PubState.ob_attempt_deadline_ms r) "pending" (PubState.ob_revision r + 1)
    (Some now) (PubState.ob_lease_owner r) (PubState.ob_lease_expires_unix_ms r) (PubState.ob_created_at_unix_ms r) now.

Definition retried_target (now : Z) (t : PubState.target_row) : PubState.target_row :=
  PubState.TargetRow (PubState.tg_outbox_id t) (PubState.tg_target_ordinal t) (PubState.tg_relay_id t)
    (PubState.tg_required t) "pending" (PubState.tg_revision t + 1) (PubState.tg_attempt_count t) (Some now)
    (PubState.tg_last_attempt_id t) now.

Definition retries_target (workflow : bytes) (t : PubState.target_row) : bool :=
  bytes_eqb (PubState.tg_outbox_id t) workflow && negb (String.eqb (PubState.tg_state t) "accepted").

Definition retries_outbox (workflow : bytes) (expected : Z) (o : PubState.outbox_row) : bool :=
  bytes_eqb (PubState.ob_outbox_id o) workflow && String.eqb (PubState.ob_state o) "blocked"
  && (PubState.ob_revision o =? expected).

Definition refreshed_outbox (now : Z) (r : PresenceState.outbox_row) : PresenceState.outbox_row :=
  PresenceState.OutboxRow (PresenceState.po_outbox_id r) (PresenceState.po_desired_generation r)
    (PresenceState.po_document_kind r) (PresenceState.po_desired_sha256 r) (PresenceState.po_target_set_sha256 r)
    (PresenceState.po_event_id r) (PresenceState.po_event_sha256 r) (PresenceState.po_exact_signed_event_bytes r)
    (PresenceState.po_authored_at_unix_s r) (PresenceState.po_service_public_key r) (PresenceState.po_target_count r)
    (PresenceState.po_required_target_count r) (PresenceState.po_max_attempts r)
    (PresenceState.po_initial_backoff_ms r) (PresenceState.po_maximum_backoff_ms r)
    (PresenceState.po_attempt_deadline_ms r) "pending" (PresenceState.po_revision r + 1) (Some now)
    (PresenceState.po_lease_owner r) (PresenceState.po_lease_expires_unix_ms r)
    (PresenceState.po_created_at_unix_ms r) now.

Definition in_generation (generation : Z) (r : PresenceState.outbox_row) : bool :=
  PresenceState.po_desired_generation r =? generation.

Definition refreshes (generation : Z) (r : PresenceState.outbox_row) : bool :=
  in_generation generation r && String.eqb (PresenceState.po_state r) "blocked".

(** [ORDER BY document_kind LIMIT 3] *)
Definition READ_GENERATION_SQL (generation : Z) (rows : list PresenceState.outbox_row) :
    list PresenceState.outbox_row :=
  take 3 (sort_by (cmp_on (λ r, as_bytes (PresenceState.po_document_kind r)) bytes_cmp)
            (List.filter (in_generation generation) rows)).

Section commands.
Context {V : Type} `{Sha256, HmacSha256, UrlBase64, TradeIds}.
Context `{!JsonValue V, !JsonTree V, !JsonWriter V, !JsonReader V, !StrictReader V, UrlLibrary}.
Context (contract : option V) (writable : bool).

(** ** Publication retry *)

Definition publication_retry_op (workflow : bytes) (expected now : Z) (operation_id : string)
    (expected_target_count : Z) (db : PubState.publication_db) :
    result AdminJournalOperationError (RhiAdminResponseDocument V * PubState.publication_db) :=
  match take 2 (List.filter (λ o, bytes_eqb (PubState.ob_outbox_id o) workflow) (PubState.outboxes db)) with
  | [] => Err OpConflict
  | [row] =>
      let? revision := operation_row_u64 (PubState.ob_revision row) in
      let? target_count := operation_row_u64 (PubState.ob_target_count row) in
      let? event_sha256 := operation_exact_blob (PubState.ob_event_sha256 row) in
      reject_if
        (negb (String.eqb (PubState.ob_state row) "blocked") || negb (revision =? expected)
         || negb (target_count =? expected_target_count)) OpConflict ;?
      let? now := bound_i64 now in
      let? (targets, _) := storage (update_rows (retries_target workflow) (retried_target now) (PubState.targets db)) in
      let? expected_value := bound_i64 expected in
      let? (outboxes, changed) :=
        storage (update_rows (retries_outbox workflow expected_value) (retried_outbox now) (PubState.outboxes db)) in
      reject_if (negb (changed =? 1)) OpConflict ;?
      let? generation := ok_or (u64_checked_add expected 1) OpInvalidInput in
      let? document :=
        map_err (λ _, OpBinding)
          (response contract PublicationRetry
             (json_object
                [("exact_bytes_digest", json_string (lower_hex event_sha256));
                 ("generation", json_u64 generation);
                 ("operation_id", json_string operation_id);
                 ("target_count", json_u64 target_count);
                 ("workflow_id", json_string (lower_hex workflow))])) in
      Ok (document, PubState.with_targets (PubState.with_outboxes db outboxes) targets)
  | _ => Err OpBinding
  end.

(** [self.publication.targets().len()] is [expected_target_count]. *)
Definition publication_retry `{TransactionHost (admin_db PubState.publication_db)} (expected_target_count : Z)
    (now_millis : handler Z) (request : RhiAdminRequestDocument) (db : admin_db PubState.publication_db) :
    handler (RhiAdminResponseDocument V) * admin_db PubState.publication_db :=
  match (let? model := request_model request in
         let? text := ok_or (string_filter model "/workflow_id") Internal in
         let? workflow := parse_digest text in
         let? expected := required_u64 model "/expected_generation" in
         let? now := now_millis in
         let? operation_id := required_operation_id request in
         let? time := operation_time now in
         Ok (workflow, expected, now, operation_id, time)) with
  | Err e => (Err e, db)
  | Ok (workflow, expected, now, operation_id, time) =>
      let '(r, db) :=
        execute_database_admin_operation contract writable request time seven_days
          (publication_retry_op workflow expected now operation_id expected_target_count) db in
      (map_err map_journal_error r, db)
  end.

(** ** Presence refresh *)

(** The digests of the documents, by their kind *)
Fixpoint document_digests (digests : list (string * V)) (rows : list PresenceState.outbox_row) :
    result AdminJournalOperationError (list (string * V)) :=
  match rows with
  | [] => Ok digests
  | row :: rows =>
      let? kind := operation_presence_kind (PresenceState.po_document_kind row) in
      let? digest := operation_exact_blob (PresenceState.po_event_sha256 row) in
      reject_if (map_contains kind digests) OpBinding ;?
      document_digests (digests ++ [(kind, json_string (lower_hex digest))]) rows
  end.

Definition presence_refresh_op (expected now : Z) (operation_id : string) (db : PresenceState.presence_db) :
    result AdminJournalOperationError (RhiAdminResponseDocument V * PresenceState.presence_db) :=
  match take 2 (List.filter (λ d, PresenceState.ds_singleton d =? 1) (PresenceState.pr_desired db)) with
  | [desired] =>
      let? generation := operation_row_u64 (PresenceState.ds_generation desired) in
      let? enabled := operation_row_u64 (PresenceState.ds_enabled desired) in
      let? target_count := operation_row_u64 (PresenceState.ds_target_count desired) in
      reject_if (negb (generation =? expected) || negb (enabled =? 1)) OpConflict ;?
      let? expected_value := bound_i64 expected in
      let rows := READ_GENERATION_SQL expected_value (PresenceState.pr_outboxes db) in
      reject_if ((length rows =? 0)%nat || (2 <? length rows)%nat) OpConflict ;?
      let? digests := document_digests [] rows in
      let? now := bound_i64 now in
      let? (outboxes, changed) :=
        storage (update_rows (refreshes expected_value) (refreshed_outbox now) (PresenceState.pr_outboxes db)) in
      reject_if ((changed =? 0) || (Z.of_nat (length rows) <? changed)) OpConflict ;?
      let? document :=
        map_err (λ _, OpBinding)
          (response contract PresenceRefresh
             (json_object
                [("document_digests", json_object digests);
                 ("generation", json_u64 expected);
                 ("operation_id", json_string operation_id);
                 ("state", json_string "pending");
                 ("target_count", json_u64 target_count)])) in
      Ok (document, PresenceState.with_outboxes db outboxes)
  | _ => Err OpBinding
  end.

Definition presence_refresh `{TransactionHost (admin_db PresenceState.presence_db)} (now_millis : handler Z)
    (request : RhiAdminRequestDocument) (db : admin_db PresenceState.presence_db) :
    handler (RhiAdminResponseDocument V) * admin_db PresenceState.presence_db :=
  match (let? model := request_model request in
         let? expected := required_u64 model "/expected_generation" in
         let? operation_id := required_operation_id request in
         let? now := now_millis in
         let? time := operation_time now in
         Ok (expected, operation_id, now, time)) with
  | Err e => (Err e, db)
  | Ok (expected, operation_id, now, time) =>
      let '(r, db) :=
        execute_database_admin_operation contract writable request time seven_days
          (presence_refresh_op expected now operation_id) db in
      (map_err map_journal_error r, db)
  end.

(** ** Presence state *)

Fixpoint presence_rows (digests : list (string * V)) (rows : list PresenceState.outbox_row) :
    handler (list (string * V) * list string) :=
  match rows with
  | [] => Ok (digests, [])
  | row :: rows =>
      let? kind := presence_kind (PresenceState.po_document_kind row) in
      let? digest := exact_blob 32 (PresenceState.po_event_sha256 row) in
      reject_if (map_contains kind digests) Internal ;?
      let? (digests, states) := presence_rows (digests ++ [(kind, json_string (lower_hex digest))]) rows in
      Ok (digests, PresenceState.po_state row :: states)
  end.

Definition shown_state (states : list string) : string :=
  if (length states =? 0)%nat then "dirty"
  else if PubState.one_of states "leased" then "submitted"
  else if PubState.one_of states "pending" then "pending"
  else if PubState.one_of states "blocked" then "failed"
  else if forallb (String.eqb "complete") states then "accepted"
  else if forallb (String.eqb "superseded") states then "dirty"
  else "unknown".

Definition presence_state `{TransactionHost PresenceState.presence_db} (generation : Z)
    (db : PresenceState.presence_db) : handler (string * list (string * V)) * PresenceState.presence_db :=
  let op db :=
    let? value := ok_or (try_from I64_MAX generation) Internal in
    let rows := READ_GENERATION_SQL value (PresenceState.pr_outboxes db) in
    reject_if (2 <? length rows)%nat Internal ;?
    let? (digests, states) := presence_rows [] rows in
    Ok ((shown_state states, digests), db) in
  let '(r, db) := transaction op db in (map_err (λ _, Internal) r, db).

(** ** Reconciliation refresh *)

Section refresh.
Context `{TransactionHost (admin_db Job.job_db), !TransactionHost Job.job_db}.
Context (mode : Job.RhiStateHostMode) (configuration : V).

(** Every failure of the transaction, a missing row included, becomes [Internal]. *)
Definition read_dirty_generation (trade : bytes) (db : Job.job_db) : handler Z * Job.job_db :=
  let op (db : Job.job_db) : handler (Z * Job.job_db) :=
    match take 2 (List.filter (λ r, bytes_eqb (Job.dirty_trade_id r) trade) (Job.dirty_generations db)) with
    | [] => Err NotFound
    | [row] => let? generation := row_u64 (Job.dirty_generation row) in Ok (generation, db)
    | _ => Err Internal
    end in
  let '(r, db) := transaction op db in (map_err (λ _, Internal) r, db).

Definition map_schedule_error (e : Job.RhiReconciliationJobErrorKind) : RhiAdminHandlerErrorKind :=
  match e with
  | Job.DirtyGenerationConflict => Conflict
  | Job.QueueFull => Unavailable
  | _ => Internal
  end.

(** From the admission of the operation on; [completed_millis] is the second reading of the clock. *)
Definition refresh_prepared (trade : bytes) (now : Z) (completed_millis : handler Z)
    (request : RhiAdminRequestDocument) (prepared : PreparedBinding) (db : admin_db Job.job_db) :
    handler (RhiAdminResponseDocument V) * admin_db Job.job_db :=
  match map_err (λ _, Internal) (Job.policy_from_configuration configuration) with
  | Err e => (Err e, db)
  | Ok policy =>
      match map_err (λ _, Internal) (Job.unix_milliseconds_new now) with
      | Err e => (Err e, db)
      | Ok now =>
          let '(outcome, jobs) := Job.schedule_trade mode trade policy now (ad_state db) in
          let db := AdminDb (ad_operations db) jobs in
          match (let? outcome := map_err map_schedule_error outcome in
                 let job := Job.outcome_job outcome in
                 let? completed := completed_millis in
                 let? operation_id := required_operation_id request in
                 let? document :=
                   response contract ReconciliationRefresh
                     (json_object
                        [("dirty_generation", json_u64 (Job.input_generation job));
                         ("job_id", json_string (lower_hex (Job.id job)));
                         ("operation_id", json_string operation_id);
                         ("trade_id", json_string (lower_hex (Job.trade_id job)))]) in
                 let? time := operation_time completed in
                 Ok (document, time)) with
          | Err e => (Err e, db)
          | Ok (document, time) =>
              let '(r, db) := complete_admin_operation writable prepared document time seven_days db in
              (let? _ := map_err map_journal_error r in Ok document, db)
          end
      end
  end.

Definition reconciliation_refresh (now_millis completed_millis : handler Z) (request : RhiAdminRequestDocument)
    (db : admin_db Job.job_db) : handler (RhiAdminResponseDocument V) * admin_db Job.job_db :=
  match (let? model := request_model request in
         let? text := ok_or (string_filter model "/trade_id") Internal in
         let? trade := parse_trade_id text in
         let? expected := required_u64 model "/expected_dirty_generation" in
         Ok (trade, expected)) with
  | Err e => (Err e, db)
  | Ok (trade, expected) =>
      let '(actual, jobs) := read_dirty_generation trade (ad_state db) in
      let db := AdminDb (ad_operations db) jobs in
      match (let? actual := actual in
             reject_if (negb (actual =? expected)) Conflict ;?
             let? now := now_millis in
             let? time := operation_time now in
             Ok (now, time)) with
      | Err e => (Err e, db)
      | Ok (now, time) =>
          let '(admission, db) := prepare_admin_operation contract writable request time db in
          match map_err map_journal_error admission with
          | Err e => (Err e, db)
          | Ok (AdmissionReplay document) => (Ok document, db)
          | Ok (AdmissionPrepared prepared) => refresh_prepared trade now completed_millis request prepared db
          end
      end
  end.
End refresh.
End commands.
End Commands.
