(* ===== verification/AdminCommandsSafety.v ===== *)
(** * Correctness of the administration handler's mutations

    A publication retry reopens exactly the workflow it names, with its bytes, its target set
    and its attempts as they were, together with its receipt; and what the retries do not
    achieve. *)

From Stdlib Require Import ZArith Lia.
From stdpp Require Import list strings.
From S2P Require Import Prelude.
From S2P Require Import Sql.
From S2P Require Import Interfaces.
From S2P Require Import JsonTree.
From S2P Require Import Admin.
From S2P Require Import Base64Url.
From S2P Require Import AdminRequest.
From S2P Require Import AdminRequestSafety.
From S2P Require Import AdminCursor.
From S2P Require Import AdminPages.
From S2P Require Import AdminJournal.
From S2P Require Import AdminJournalSafety.
From S2P Require Import AdminCommands.
From S2P Require Import ReconciliationJob.
From S2P Require Import Publication.
From S2P Require Import PublicationState.
From S2P Require Import PublicationExecution.
From S2P Require Import PublicationViews.
From S2P Require Import PublicationRefine.
From S2P Require Import PresenceState.
From S2P Require Import PresenceRecords.
From S2P Require Import PresenceDelivery.

Module CommandsSafety.
Import Admin AdminRequest Cursor Pages Journal JournalSafety Commands.

#[local] Existing Instances PubState.outbox_table PubState.target_table PresenceState.outbox_table.

Section commands.
Context {V : Type} `{Sha256, !Sha256Laws, HmacSha256, UrlBase64, TradeIds}.
Context `{!JsonValue V, !JsonTree V, !JsonWriter V, !JsonReader V, !StrictReader V, UrlLibrary}.
Context (contract : option V).

Lemma response_valid route value d :
  response contract route value = Ok d →
  document_valid contract d ∧ rs_route d = route ∧ to_vec value = Some (rs_canonical_bytes d).
Proof.
  unfold response. intros Hd. bind Hd as l Hl. apply ok_or_Ok in Hl. apply map_err_Ok in Hd.
  apply from_canonical_bytes_valid in Hd as (? & ? & ->). done.
Qed.

(** ** What a request asks for *)

Lemma nibble_digit b n : hex_nibble b = Some n → 0 ≤ n < 16 ∧ Z.of_N (Ascii.N_of_ascii (hex_digit n)) = b.
Proof.
  unfold hex_nibble. destruct (between 48 57 b) eqn:Hd; [|destruct (between 97 102 b) eqn:Hx; [|done]];
    rewrite ?between_true in *; intros [= <-]; (split; [lia|]); unfold hex_digit;
    destruct (Z.ltb_spec (b - 48) 10); try lia; try destruct (Z.ltb_spec (b - 97 + 10) 10); try lia;
    rewrite Ascii.N_ascii_embedding; lia.
Qed.

Lemma joined_div high low : 0 ≤ low < 16 → (high * 16 + low) / 16 = high.
Proof. intros Hl. Z.div_mod_to_equations. lia. Qed.

Lemma joined_mod high low : 0 ≤ low < 16 → (high * 16 + low) mod 16 = low.
Proof. intros Hl. Z.div_mod_to_equations. lia. Qed.

Lemma digest_pairs_text l w n : length l = (2 * n)%nat → digest_pairs l = Ok w → length w = n ∧ l = as_bytes (lower_hex w).
Proof.
  revert l w. induction n as [|n IH]; intros [|a [|b l]] w Hlen Hd; simpl in Hlen; try lia; [by injection Hd as <-|].
  simpl in Hd. bind Hd as high Hh. bind Hd as low Hl. bind Hd as rest Hr. injection Hd as <-.
  apply ok_or_Ok, nibble_digit in Hh as [Hh Ha]. apply ok_or_Ok, nibble_digit in Hl as [Hl Hb].
  apply IH in Hr as [Hn Hrest]; [|lia]. assert (Z.lor (Z.shiftl high 4) low = high * 16 + low) as ->.
  { rewrite <- (AdminRequestSafety.nibbles (high * 16 + low)) by (unfold Base64Url.is_byte; lia).
    by rewrite (joined_div high low), (joined_mod high low). }
  cbn [length lower_hex as_bytes]. split; [lia|].
  rewrite joined_div, joined_mod by done. by rewrite Ha, Hb, Hrest.
Qed.

(** A digest is named by its 64 lowercase digits, and by no other text. *)
Lemma parse_digest_text text w : parse_digest text = Ok w → length w = 32%nat ∧ text = lower_hex w.
Proof.
  unfold parse_digest. intros Hp. bind Hp as u Hu. apply reject_if_Ok, orb_false_iff in Hu as [Hu _].
  apply negb_false_iff, Nat.eqb_eq in Hu. apply (digest_pairs_text _ _ 32) in Hp as [Hw Ht]; [|done].
  split; [done|]. by apply as_bytes_inj.
Qed.

(** A field of the request's model *)
Definition names (request : RhiAdminRequestDocument) (path text : string) : Prop :=
  ∃ model, from_slice (rq_model_bytes request) = Some model ∧ pointer model path ≫= as_str = Some text.

Definition counts (request : RhiAdminRequestDocument) (path : string) (n : Z) : Prop :=
  ∃ model, from_slice (rq_model_bytes request) = Some model ∧ pointer model path ≫= as_u64 = Some n.

(** ** Publication retry *)

(** What a retry writes: the outbox is due now, at its next revision; so is every target of it
    that is not accepted, with the attempts it has made; no other column and no other row changes. *)
Definition due_outbox (now : Z) (o : PubState.outbox_row) : PubState.outbox_row := {|
  PubState.ob_outbox_id := PubState.ob_outbox_id o;
  PubState.ob_event_id := PubState.ob_event_id o;
  PubState.ob_event_sha256 := PubState.ob_event_sha256 o;
  PubState.ob_authority_sha256 := PubState.ob_authority_sha256 o;
  PubState.ob_target_set_sha256 := PubState.ob_target_set_sha256 o;
  PubState.ob_target_count := PubState.ob_target_count o;
  PubState.ob_required_target_count := PubState.ob_required_target_count o;
  PubState.ob_max_attempts := PubState.ob_max_attempts o;
  PubState.ob_initial_backoff_ms := PubState.ob_initial_backoff_ms o;
  PubState.ob_maximum_backoff_ms := PubState.ob_maximum_backoff_ms o;
  PubState.ob_attempt_deadline_ms := PubState.ob_attempt_deadline_ms o;
  PubState.ob_state := "pending";
  PubState.ob_revision := PubState.ob_revision o + 1;
  PubState.ob_next_attempt_unix_ms := Some now;
  PubState.ob_lease_owner := PubState.ob_lease_owner o;
  PubState.ob_lease_expires_unix_ms := PubState.ob_lease_expires_unix_ms o;
  PubState.ob_created_at_unix_ms := PubState.ob_created_at_unix_ms o;
  PubState.ob_updated_at_unix_ms := now;
|}.

Definition due_target (now : Z) (t : PubState.target_row) : PubState.target_row := {|
  PubState.tg_outbox_id := PubState.tg_outbox_id t;
  PubState.tg_target_ordinal := PubState.tg_target_ordinal t;
  PubState.tg_relay_id := PubState.tg_relay_id t;
  PubState.tg_required := PubState.tg_required t;
  PubState.tg_state := "pending";
  PubState.tg_revision := PubState.tg_revision t + 1;
  PubState.tg_attempt_count := PubState.tg_attempt_count t;
  PubState.tg_next_attempt_unix_ms := Some now;
  PubState.tg_last_attempt_id := PubState.tg_last_attempt_id t;
  PubState.tg_updated_at_unix_ms := now;
|}.

Definition unaccepted (workflow : bytes) (t : PubState.target_row) : Prop :=
  PubState.tg_outbox_id t = workflow ∧ PubState.tg_state t ≠ "accepted".

Lemma retries_target_unaccepted workflow t : retries_target workflow t = true ↔ unaccepted workflow t.
Proof. unfold retries_target, unaccepted. by rewrite andb_true_iff, negb_true_iff, bytes_eqb_true, String.eqb_neq. Qed.

(** The receipt of a retry *)
Definition retry_receipt (workflow : bytes) (expected : Z) (operation_id : string) (o : PubState.outbox_row) : V :=
  json_object
    [("exact_bytes_digest", json_string (lower_hex (PubState.ob_event_sha256 o)));
     ("generation", json_u64 (expected + 1));
     ("operation_id", json_string operation_id);
     ("target_count", json_u64 (PubState.ob_target_count o));
     ("workflow_id", json_string (lower_hex workflow))].

Record retry_effect (workflow : bytes) (expected now : Z) (operation_id : string) (count : Z)
    (db : PubState.publication_db) (d : RhiAdminResponseDocument V) (db' : PubState.publication_db) : Prop := {
  re_outbox : ∃ o, List.filter (λ o, bytes_eqb (PubState.ob_outbox_id o) workflow) (PubState.outboxes db) = [o] ∧
    PubState.ob_state o = "blocked" ∧ PubState.ob_revision o = expected ∧ PubState.ob_target_count o = count ∧
    to_vec (retry_receipt workflow expected operation_id o) = Some (rs_canonical_bytes d);
  re_outboxes : rewrites (λ o, PubState.ob_outbox_id o = workflow) (due_outbox now)
                  (PubState.outboxes db) (PubState.outboxes db');
  re_targets : rewrites (unaccepted workflow) (due_target now) (PubState.targets db) (PubState.targets db');
  re_frame : PubState.events db' = PubState.events db ∧ PubState.attempts db' = PubState.attempts db;
  re_rows : PubState.tables_ok db = true → PubState.tables_ok db' = true;
}.

Lemma operation_exact_blob_Ok column b : operation_exact_blob column = Ok b → b = column.
Proof.
  unfold operation_exact_blob. intros Hb. bind Hb as u Hlen. apply reject_if_Ok, negb_false_iff, Nat.eqb_eq in Hlen.
  apply ok_or_Ok, filter_opt_Some in Hb as [[= <-] _]. apply take_ge. lia.
Qed.

Lemma update_affected {row} `{Table row} p f (rows rows' : list row) n :
  update_rows p f rows = Ok (rows', n) → rows' = map (apply_where p f) rows ∧ n = Z.of_nat (length (List.filter p rows)).
Proof. intros Hup. by apply update_rows_Ok in Hup as (-> & -> & _). Qed.

Lemma publication_retry_op_Ok workflow expected now operation_id count db d db' :
  publication_retry_op contract workflow expected now operation_id count db = Ok (d, db') →
  document_valid contract d ∧ rs_route d = PublicationRetry ∧
  retry_effect workflow expected now operation_id count db d db'.
Proof.
  unfold publication_retry_op. intros Hop.
  destruct (List.filter _ _) as [|o [|o' l]] eqn:Hrows; simpl in Hop; [done| |done].
  bind Hop as revision Hrev. bind Hop as tcount Hcount. bind Hop as sha Hsha. bind Hop as [] Hguard.
  bind Hop as now' Hnow. bind Hop as [targets nt] Htargets. bind Hop as expected' Hexp.
  bind Hop as [outboxes changed] Houtboxes. bind Hop as [] Hone. bind Hop as generation Hgen.
  bind Hop as document Hdoc. injection Hop as <- <-.
  apply ok_or_Ok, try_from_Some in Hrev as [-> _], Hcount as [-> _], Hnow as [-> _], Hexp as [-> _].
  apply ok_or_Ok in Hgen. apply u64_checked_add_Some in Hgen as [-> _].
  apply reject_if_Ok in Hguard. rewrite !orb_false_iff, !negb_false_iff, !Z.eqb_eq, String.eqb_eq in Hguard.
  destruct Hguard as [[Hstate Hrevision] Htc].
  apply operation_exact_blob_Ok in Hsha as ->.
  apply map_err_Ok in Hdoc, Htargets, Houtboxes. apply response_valid in Hdoc as (Hvalid & Hroute & Hvec).
  split; [done|]. split; [done|].
  pose proof (update_affected _ _ _ _ _ Htargets) as [-> _].
  pose proof (update_affected _ _ _ _ _ Houtboxes) as [-> _].
  split.
  - by exists o.
  - apply apply_rewrites. intros r Hr. unfold retries_outbox. rewrite !andb_true_iff, bytes_eqb_true. split; [tauto|].
    intros Hid. assert (In r (List.filter (λ o, bytes_eqb (PubState.ob_outbox_id o) workflow) (PubState.outboxes db)))
      as Hin by (apply filter_In; rewrite bytes_eqb_true, <- list_elem_of_In; done).
    rewrite Hrows in Hin. destruct Hin as [<-|[]]. by rewrite String.eqb_eq, Z.eqb_eq.
  - apply apply_rewrites. intros t _. apply retries_target_unaccepted.
  - done.
  - unfold PubState.tables_ok. simpl. intros Hok. to_prop.
    rewrite (update_rows_ok PubState.outbox_conflict_sym _ _ _ _ _ ltac:(done) Houtboxes).
    rewrite (update_rows_ok PubState.target_conflict_sym _ _ _ _ _ ltac:(done) Htargets).
    match goal with H : rows_ok (PubState.events db) = true |- _ => rewrite H end.
    by match goal with H : rows_ok (PubState.attempts db) = true |- _ => rewrite H end.
Qed.

(** An execution that did anything had a binding and an expiry. *)
Lemma execution_started {D} `{TransactionHost (admin_db D)} request now policy operation (db db' : admin_db D) r :
  execute_database_admin_operation contract true request now policy operation db = (r, db') →
  (db' = db ∧ ∃ e, r = Err e) ∨
  ∃ b expires_at, from_document request = Ok b ∧ expiry now policy = Ok expires_at.
Proof.
  unfold execute_database_admin_operation. simpl. intros Hcall.
  destruct (from_document request) as [b|e]; simpl in Hcall; [|left; injection Hcall as <- <-; by eauto].
  destruct (expiry now policy) as [expires_at|e]; simpl in Hcall; [|left; injection Hcall as <- <-; by eauto].
  right. by exists b, expires_at.
Qed.

(** The answer of a mutation: its document, or that its outcome is not known *)
Definition answered (r : handler (RhiAdminResponseDocument V)) (d : RhiAdminResponseDocument V) : Prop :=
  r = Ok d ∨ r = Err Unavailable.

Lemma answered_map (r : result RhiAdminOperationErrorKind (RhiAdminResponseDocument V)) d :
  r = Ok d ∨ r = Err CommitOutcomeUnknown → answered (map_err map_journal_error r) d.
Proof. by intros [-> | ->]; [left|right]. Qed.

(** What a mutation in one transaction did: nothing; a replay; or its operation, with its receipt. *)
Definition mutated {D} (request : RhiAdminRequestDocument) (effect : string → D → RhiAdminResponseDocument V → D → Prop)
    (now : handler Z) (db : admin_db D) (r : handler (RhiAdminResponseDocument V)) (db' : admin_db D) : Prop :=
  (db' = db ∧ ∃ e, r = Err e) ∨
  (∃ d row, answered r d ∧ ad_state db' = ad_state db ∧ row ∈ ad_operations db' ∧
     op_response_model row = Some (rs_canonical_bytes d) ∧ rs_route d = rq_route request ∧
     rq_operation_id request = Some (op_operation_id row)) ∨
  (∃ d observed_at b expires_at, answered r d ∧ now = Ok observed_at ∧ from_document request = Ok b ∧
     Forall (λ row, op_operation_id row ≠ b_operation_id b) (kept observed_at (ad_operations db)) ∧
     ad_operations db' = kept observed_at (ad_operations db) ++ [receipt b observed_at expires_at d] ∧
     effect (b_operation_id b) (ad_state db) d (ad_state db')).

Lemma mutation_outcomes {D} `{!TransactionHost (admin_db D), !TransactionLaws (admin_db D)} effect request now
    operation operation_id (db db' : admin_db D) r :
  journal_inv contract (ad_operations db) → 0 ≤ now ≤ I64_MAX → rq_operation_id request = Some operation_id →
  (∀ s d s', operation s = Ok (d, s') → document_valid contract d ∧ effect operation_id s d s') →
  execute_database_admin_operation contract true request now seven_days operation db = (r, db') →
  mutated request effect (Ok now) db (map_err map_journal_error r) db'.
Proof.
  intros Hinv Hnow Hid Heffect Hexec.
  destruct (execution_started _ _ _ _ _ _ _ Hexec) as [[-> [e ->]]|(b & expires_at & Hb & Hexp)]; [left; by eauto|].
  pose proof (from_document_ok _ _ Hb) as (_ & Hbid & Hroute & _).
  assert (operation_id = b_operation_id b) as -> by congruence.
  apply (execution_outcomes contract request now seven_days _ db r db' b expires_at) in Hexec;
    [|done|done|done|vm_compute; discriminate|done|intros s d s' Hop; by apply (Heffect s d s')]. cbv zeta in Hexec.
  destruct Hexec as [[-> [e ->]]|[(d & row & Hr & -> & Hrow & Hrid & _ & Hmodel' & Hd & _)|
    (d & s & Hr & Hop & Hfresh & -> & Hd)]].
  - left. by eauto.
  - right. left. exists d, row. split_and!; [by apply answered_map|done|done|done|congruence|congruence].
  - right. right. exists d, now, b, expires_at. split_and!; try done; [by apply answered_map|].
    by apply (Heffect _ _ _ Hop).
Qed.

(** C22. A publication retry is one atomic, idempotent reset: it either changes nothing and
    fails; or repeats the retained answer and leaves the publication alone; or, for a new
    identity, finds the workflow that the request names blocked, at the revision that the
    request expects and with the configured number of targets; makes it and its unaccepted
    targets pending and due now, each at its next revision; changes no other column (the
    digest of the bytes, the bounds, the attempts made) and no other row; and stores the
    receipt with it. *)
Theorem publication_retry_is_atomic `{!TransactionHost (admin_db PubState.publication_db)}
    `{!TransactionLaws (admin_db PubState.publication_db)} count now_millis request db r db' :
  journal_inv contract (ad_operations db) →
  publication_retry contract true count now_millis request db = (r, db') →
  mutated request
    (λ i s d s', ∃ workflow expected now,
       names request "/workflow_id" (lower_hex workflow) ∧ counts request "/expected_generation" expected ∧
       now_millis = Ok now ∧ retry_effect workflow expected now i count s d s')
    now_millis db r db'.
Proof.
  intros Hinv. unfold publication_retry. intros Hcall.
  match type of Hcall with match ?c with _ => _ end = _ =>
    destruct c as [[[[[workflow expected] now] operation_id] time]|e] eqn:Hargs end;
    [|left; injection Hcall as <- <-; by eauto].
  bind Hargs as model Hmodel. bind Hargs as text Htext. bind Hargs as wf Hwf. bind Hargs as ex Hex.
  bind Hargs as nw Hnow. bind Hargs as oid Hoid. bind Hargs as tm Htime. injection Hargs as -> -> -> -> ->.
  apply map_err_Ok, ok_or_Ok, try_from_Some in Htime as [-> Hrange]. apply ok_or_Ok in Hoid.
  destruct (execute_database_admin_operation _ _ _ _ _ _ _) as [r0 db0] eqn:Hexec. injection Hcall as <- <-.
  rewrite Hnow. eapply mutation_outcomes; [done|done|done| |done].
  intros s d s' (? & _ & Heffect)%publication_retry_op_Ok. split; [done|]. exists workflow, expected, now.
  apply parse_digest_text in Hwf as [_ ->]. apply ok_or_Ok in Hmodel, Htext, Hex.
  split_and!; [by exists model|by exists model|done|done].
Qed.

(** ** Presence refresh *)

(** What a refresh writes: a blocked outbox of the generation is due now, at its next revision. *)
Definition due_presence (now : Z) (o : PresenceState.outbox_row) : PresenceState.outbox_row := {|
  PresenceState.po_outbox_id := PresenceState.po_outbox_id o;
  PresenceState.po_desired_generation := PresenceState.po_desired_generation o;
  PresenceState.po_document_kind := PresenceState.po_document_kind o;
  PresenceState.po_desired_sha256 := PresenceState.po_desired_sha256 o;
  PresenceState.po_target_set_sha256 := PresenceState.po_target_set_sha256 o;
  PresenceState.po_event_id := PresenceState.po_event_id o;
  PresenceState.po_event_sha256 := PresenceState.po_event_sha256 o;
  PresenceState.po_exact_signed_event_bytes := PresenceState.po_exact_signed_event_bytes o;
  PresenceState.po_authored_at_unix_s := PresenceState.po_authored_at_unix_s o;
  PresenceState.po_service_public_key := PresenceState.po_service_public_key o;
  PresenceState.po_target_count := PresenceState.po_target_count o;
  PresenceState.po_required_target_count := PresenceState.po_required_target_count o;
  PresenceState.po_max_attempts := PresenceState.po_max_attempts o;
  PresenceState.po_initial_backoff_ms := PresenceState.po_initial_backoff_ms o;
  PresenceState.po_maximum_backoff_ms := PresenceState.po_maximum_backoff_ms o;
  PresenceState.po_attempt_deadline_ms := PresenceState.po_attempt_deadline_ms o;
  PresenceState.po_state := "pending";
  PresenceState.po_revision := PresenceState.po_revision o + 1;
  PresenceState.po_next_attempt_unix_ms := Some now;
  PresenceState.po_lease_owner := PresenceState.po_lease_owner o;
  PresenceState.po_lease_expires_unix_ms := PresenceState.po_lease_expires_unix_ms o;
  PresenceState.po_created_at_unix_ms := PresenceState.po_created_at_unix_ms o;
  PresenceState.po_updated_at_unix_ms := now;
|}.

Definition blocked_in (generation : Z) (o : PresenceState.outbox_row) : Prop :=
  PresenceState.po_desired_generation o = generation ∧ PresenceState.po_state o = "blocked".

Lemma refreshes_blocked generation o : refreshes generation o = true ↔ blocked_in generation o.
Proof. unfold refreshes, in_generation, blocked_in. by rewrite andb_true_iff, Z.eqb_eq, String.eqb_eq. Qed.

(** The receipt names each document of the generation with the digest of its bytes. *)
Definition refresh_receipt (expected : Z) (operation_id : string) (s : PresenceState.desired_row)
    (rows : list PresenceState.outbox_row) : V :=
  json_object
    [("document_digests", json_object (map (λ o, (PresenceState.po_document_kind o,
        json_string (lower_hex (PresenceState.po_event_sha256 o)))) rows));
     ("generation", json_u64 expected);
     ("operation_id", json_string operation_id);
     ("state", json_string "pending");
     ("target_count", json_u64 (PresenceState.ds_target_count s))].

Record refresh_effect (expected now : Z) (operation_id : string) (db : PresenceState.presence_db)
    (d : RhiAdminResponseDocument V) (db' : PresenceState.presence_db) : Prop := {
  rf_desired : ∃ s rows, List.filter (λ s, PresenceState.ds_singleton s =? 1) (PresenceState.pr_desired db) = [s] ∧
    PresenceState.ds_generation s = expected ∧ PresenceState.ds_enabled s = 1 ∧
    rows ≡ₚ List.filter (λ o, PresenceState.po_desired_generation o =? expected) (PresenceState.pr_outboxes db) ∧
    to_vec (refresh_receipt expected operation_id s rows) = Some (rs_canonical_bytes d);
  rf_outboxes : rewrites (blocked_in expected) (due_presence now)
                  (PresenceState.pr_outboxes db) (PresenceState.pr_outboxes db');
  rf_some : ∃ o, o ∈ PresenceState.pr_outboxes db ∧ blocked_in expected o;
  rf_frame : PresenceState.pr_bindings db' = PresenceState.pr_bindings db ∧
    PresenceState.pr_desired db' = PresenceState.pr_desired db ∧
    PresenceState.pr_targets db' = PresenceState.pr_targets db ∧
    PresenceState.pr_attempts db' = PresenceState.pr_attempts db;
  rf_rows : PresenceState.tables_ok db = true → PresenceState.tables_ok db' = true;
}.

Lemma document_digests_Ok rows digests r :
  document_digests digests rows = Ok r →
  r = digests ++ map (λ o, (PresenceState.po_document_kind o,
        json_string (lower_hex (PresenceState.po_event_sha256 o)))) rows.
Proof.
  revert digests. induction rows as [|o rows IH]; intros digests Hd; simpl in Hd; [injection Hd as <-; by rewrite app_nil_r|].
  bind Hd as kind Hkind. bind Hd as digest Hdigest. bind Hd as u Hu. apply IH in Hd as ->.
  unfold operation_presence_kind in Hkind. bind Hkind as u1 Hu1. injection Hkind as <-.
  apply operation_exact_blob_Ok in Hdigest as ->. simpl. by rewrite <- app_assoc.
Qed.

Lemma presence_refresh_op_Ok expected now operation_id db d db' :
  presence_refresh_op contract expected now operation_id db = Ok (d, db') →
  document_valid contract d ∧ refresh_effect expected now operation_id db d db'.
Proof.
  unfold presence_refresh_op. intros Hop.
  destruct (List.filter _ (PresenceState.pr_desired db)) as [|s [|s' l]] eqn:Hrows; simpl in Hop; [done| |done].
  bind Hop as generation Hgen. bind Hop as enabled Hen. bind Hop as tcount Hcount. bind Hop as [] Hguard.
  bind Hop as expected' Hexp. bind Hop as [] Hlen. bind Hop as digests Hdig. bind Hop as now' Hnow.
  bind Hop as [outboxes changed] Houtboxes. bind Hop as [] Hsome. bind Hop as document Hdoc. injection Hop as <- <-.
  apply ok_or_Ok, try_from_Some in Hgen as [-> _], Hen as [-> _], Hnow as [-> _], Hexp as [-> _].
  apply reject_if_Ok in Hguard, Hsome. rewrite orb_false_iff, !negb_false_iff, !Z.eqb_eq in Hguard.
  apply orb_false_iff in Hsome as [Hsome _]. apply Z.eqb_neq in Hsome.
  apply map_err_Ok in Hdoc, Houtboxes. apply response_valid in Hdoc as (Hvalid & _ & Hvec). split; [done|].
  pose proof (update_affected _ _ _ _ _ Houtboxes) as [-> ->]. destruct Hguard. apply document_digests_Ok in Hdig as ->.
  apply reject_if_Ok, orb_false_iff in Hlen as [_ Hlen]. apply Nat.ltb_ge in Hlen. unfold READ_GENERATION_SQL in *.
  apply ok_or_Ok, try_from_Some in Hcount as [-> _].
  rewrite take_short in Hvec by lia. split.
  - eexists s, _. split_and!; [done|done|done|apply sort_by_perm|exact Hvec].
  - apply apply_rewrites. intros o _. apply refreshes_blocked.
  - destruct (List.filter (refreshes expected) _) as [|o l] eqn:Hf; [simpl in Hsome; lia|].
    exists o. rewrite <- refreshes_blocked, list_elem_of_In. apply filter_In. rewrite Hf. by left.
  - done.
  - unfold PresenceState.tables_ok. simpl. intros Hok. to_prop.
    rewrite (update_rows_ok PresenceState.presence_outbox_conflict_sym _ _ _ _ _ ltac:(done) Houtboxes).
    repeat match goal with H : rows_ok ?l = true |- context [rows_ok ?l] => rewrite H end. done.
Qed.

(** C23. A presence refresh is one atomic, idempotent reopening: it either changes nothing and
    fails; or repeats the retained answer and leaves the presence alone; or, for a new
    identity, finds presence enabled at the generation that the request expects, makes the
    blocked outboxes of that generation (at least one) pending and due now, each at its next
    revision, and changes no other column and no other row: no signed byte, no bound, no
    target, no attempt; and it answers with the digests of all documents of the generation. *)
Theorem presence_refresh_is_atomic `{!TransactionHost (admin_db PresenceState.presence_db)}
    `{!TransactionLaws (admin_db PresenceState.presence_db)} now_millis request db r db' :
  journal_inv contract (ad_operations db) →
  presence_refresh contract true now_millis request db = (r, db') →
  mutated request (λ i s d s', ∃ expected now, counts request "/expected_generation" expected ∧
      now_millis = Ok now ∧ refresh_effect expected now i s d s')
    now_millis db r db'.
Proof.
  intros Hinv. unfold presence_refresh. intros Hcall.
  match type of Hcall with match ?c with _ => _ end = _ =>
    destruct c as [[[[expected operation_id] now] time]|e] eqn:Hargs end;
    [|left; injection Hcall as <- <-; by eauto].
  bind Hargs as model Hmodel. bind Hargs as ex Hex. bind Hargs as oid Hoid. bind Hargs as nw Hnow.
  bind Hargs as tm Htime. injection Hargs as -> -> -> ->.
  apply map_err_Ok, ok_or_Ok, try_from_Some in Htime as [-> Hrange]. apply ok_or_Ok in Hoid.
  destruct (execute_database_admin_operation _ _ _ _ _ _ _) as [r0 db0] eqn:Hexec. injection Hcall as <- <-.
  rewrite Hnow. eapply mutation_outcomes; [done|done|done| |done].
  intros s d s' [? Heffect]%presence_refresh_op_Ok. split; [done|]. exists expected, now.
  apply ok_or_Ok in Hmodel, Hex. split_and!; [by exists model|done|done].
Qed.

(** ** What the mutations do not achieve *)

(** Every target of the workflow is accepted or has used up its attempts. *)
Definition exhausted (workflow : bytes) (maximum : Z) (targets : list PubState.target_row) : Prop :=
  Forall (λ t, PubState.tg_outbox_id t = workflow →
    PubState.tg_state t = "accepted" ∨ maximum ≤ PubState.tg_attempt_count t) targets.

Lemma exhausted_retried workflow maximum now targets targets' :
  exhausted workflow maximum targets → rewrites (unaccepted workflow) (due_target now) targets targets' →
  exhausted workflow maximum targets'.
Proof.
  intros Hall Hrows. apply list.Forall_forall. intros t' Ht'.
  destruct (rewrites_before _ _ _ _ Hrows _ Ht') as (t & Ht & Hdue & Hsame).
  pose proof (elem_of_Forall _ _ _ Hall Ht) as Hx. simpl in Hx.
  destruct (decide (PubState.tg_outbox_id t = workflow)) as [Hid|Hid]; [|rewrite Hsame by (by intros []); naive_solver].
  destruct (decide (PubState.tg_state t = "accepted")) as [Hs|Hs]; [rewrite Hsame by (by intros []); naive_solver|].
  rewrite Hdue by done. intros _. right. simpl. by destruct (Hx Hid).
Qed.

Lemma exhausted_never_prepared l started maximum (db : PubState.publication_db) r :
  exhausted (Execution.id (Execution.lease_outbox l)) maximum (PubState.targets db) →
  Execution.max_attempts (Execution.lease_outbox l) = maximum →
  Execution.prepare_next l started db ≠ Ok r.
Proof.
  intros Hall Hmax Hp. unfold Execution.prepare_next in Hp. bind Hp as [] Hlease. bind Hp as ts Hts.
  bind Hp as [] Hvalid. bind Hp as t Hdue. clear Hp. apply ok_or_Ok, find_some in Hdue as [Hin Hdue].
  apply list_elem_of_In in Hin. destruct (Refine.read_targets_rows _ _ _ _ Hts Hin) as (row & Hrow & Hid & Hview & _).
  unfold exhausted in Hall. rewrite list.Forall_forall in Hall.
  destruct (Hall row Hrow Hid) as [Hstate|Hcount]; unfold Execution.target_is_due in Hdue.
  - rewrite (Views.tv_state _ _ Hview) in Hstate. by destruct (Execution.t_state t).
  - rewrite (Views.tv_count _ _ Hview), <- Hmax in Hcount.
    by rewrite (proj2 (Z.ltb_ge _ _) Hcount), andb_false_r in Hdue.
Qed.

(** A retry cannot help a workflow whose targets have used up their attempts: it reports
    success and makes the workflow claimable at once, but the attempts of the targets stay,
    so whatever lease is then taken on it, at any later time, no attempt is ever prepared. *)
Theorem retry_cannot_help_exhausted_workflow workflow expected now operation_id count maximum db d db' :
  publication_retry_op contract workflow expected now operation_id count db = Ok (d, db') →
  exhausted workflow maximum (PubState.targets db) →
  (∃ o, o ∈ PubState.outboxes db' ∧ PubState.ob_outbox_id o = workflow ∧ Execution.claimable now o = true) ∧
  ∀ l started db'' r, PubState.targets db'' = PubState.targets db' →
    Execution.id (Execution.lease_outbox l) = workflow →
    Execution.max_attempts (Execution.lease_outbox l) = maximum →
    Execution.prepare_next l started db'' ≠ Ok r.
Proof.
  intros (_ & _ & [(o & Ho & Hstate & Hrev & _) Houtboxes Htgts _ _])%publication_retry_op_Ok Hall. split.
  - assert (In o (List.filter (λ o, bytes_eqb (PubState.ob_outbox_id o) workflow) (PubState.outboxes db)))
      as [Hin Hid%bytes_eqb_true]%filter_In by (rewrite Ho; by left).
    apply list_elem_of_In in Hin. destruct (rewrites_after _ _ _ _ Houtboxes _ Hin) as (o' & Hin' & Hdue & _).
    exists o'. rewrite (Hdue Hid) in *. split_and!; [done|done|].
    unfold Execution.claimable, col_le. simpl. by apply Z.leb_refl.
  - intros l started db'' r Htargets Hid Hmax. eapply exhausted_never_prepared; [|exact Hmax].
    rewrite Htargets, Hid. by eapply exhausted_retried.
Qed.

(** A refresh reopens an outbox and leaves its targets: one that was rejected is never due. *)
Lemma refreshed_rejected_target_is_never_due expected now operation_id db d db' t t' maximum time :
  refresh_effect expected now operation_id db d db' → t ∈ PresenceState.pr_targets db →
  PresenceState.pt_state t = "rejected" → PresenceRecords.decode_target t = Ok t' →
  t ∈ PresenceState.pr_targets db' ∧ PresenceDelivery.target_is_due t' maximum time = false.
Proof.
  intros Hrf Ht Hstate Hdec. destruct (rf_frame _ _ _ _ _ _ Hrf) as (_ & _ & -> & _). split; [done|]. unfold PresenceRecords.decode_target in Hdec. rewrite Hstate in Hdec.
  bind Hdec as ordinal Hord. bind Hdec as relay Hrelay. bind Hdec as req Hreq. simpl in Hdec.
  bind Hdec as rev Hrev. bind Hdec as count Hcount. bind Hdec as next Hnext. bind Hdec as last Hlast.
  bind Hdec as updated Hupdated. bind Hdec as [] Hshape. injection Hdec as <-. done.
Qed.

Section refresh.
Context `{TransactionHost (admin_db Job.job_db), !TransactionHost Job.job_db, !TransactionLaws Job.job_db}.
Context (mode : Job.RhiStateHostMode) (configuration : V) (writable : bool).

(** A trade without a dirty generation is reported as an internal error: the code's
    [NotFound] does not leave the transaction. *)
Lemma dirty_generation_is_never_not_found trade (db : Job.job_db) :
  (read_dirty_generation trade db).1 ≠ Err NotFound.
Proof. unfold read_dirty_generation. by destruct (transaction _ db) as [[a|e] db']. Qed.

(** The generation is compared before the journal is read: a completed refresh is not
    replayed once its trade moved on. *)
Lemma refresh_replay_needs_its_generation now completed request db model text trade expected actual :
  request_model request = Ok model → string_filter model "/trade_id" = Some text →
  parse_trade_id text = Ok trade → required_u64 model "/expected_dirty_generation" = Ok expected →
  read_dirty_generation trade (ad_state db) = (Ok actual, ad_state db) → actual ≠ expected →
  reconciliation_refresh contract writable mode configuration now completed request db = (Err Conflict, db).
Proof.
  intros Hm Ht Htrade He Hd Hne. unfold reconciliation_refresh. rewrite Hm. simpl. rewrite Ht. simpl.
  rewrite Htrade. simpl. rewrite He. simpl. rewrite Hd. simpl. rewrite (proj2 (Z.eqb_neq _ _)) by done. simpl.
  by destruct db.
Qed.
End refresh.
End commands.

(** ** Concrete mutations *)

#[local] Existing Instance checksum.
#[local] Existing Instance checksum_laws.
#[local] Existing Instance json_value.
#[local] Existing Instance json_tree.
#[local] Existing Instance json_writer.
#[local] Existing Instance reliable_host.
#[local] Existing Instance reliable_host_laws.
#[local] Instance no_urls : UrlLibrary := λ _, None.

(** What a reader yields for a text, by the value it holds *)
Fixpoint raw_of (v : json) : raw json :=
  match v with
  | JNull => RawNull
  | JNumber n => RawNumber (JNumber n)
  | JString s => RawString s
  | JBool b => RawBool b
  | JArray l => RawSeq (map raw_of l) None
  | JObject members => RawMap (map (λ m, (m.1, raw_of m.2)) members) None
  end.

(** Readers that know one text each *)
Definition reads (known : json) : StrictReader json := {|
  raw_value := λ l, if bool_decide (l = write_json known) then raw_of known else RawError "unknown text";
  raw_end := λ _, true;
|}.

Definition reads_model (known : json) : JsonReader json :=
  λ l, if bool_decide (l = write_json known) then Some known else None.

Definition required (type : string) : json := JObject [("type", JString type); ("presence", JString "required")].

Definition demo_contract : option json := Some (JObject [("admin", JObject
  [("models", JObject
     [("publication_retry_receipt_v1", JObject [("fields", JObject
         [("exact_bytes_digest", required "text"); ("generation", required "number");
          ("operation_id", required "text"); ("target_count", required "number"); ("workflow_id", required "text")])]);
      ("presence_refresh_receipt_v1", JObject [("fields", JObject
         [("document_digests", required "digests"); ("generation", required "number");
          ("operation_id", required "text"); ("state", required "text"); ("target_count", required "number")])])]);
   ("types", JObject
     [("number", JObject [("kind", JString "integer")]); ("text", JObject [("kind", JString "string")]);
      ("digests", JObject [("kind", JString "map"); ("maximum_entries", JNumber 2); ("key", JString "text");
         ("value", JString "text")])])])]).

(** A workflow blocked by a rejected target *)
Definition demo_workflow : bytes := repeat 9 32.

Definition demo_outbox : PubState.outbox_row :=
  PubState.OutboxRow demo_workflow (repeat 1 32) (repeat 2 32) (repeat 3 32) (repeat 4 32) 2 1 3 250 30000 15000
    "blocked" 5 None None None 1000 2000.

Definition demo_target (ordinal : Z) (relay state : string) : PubState.target_row :=
  PubState.TargetRow demo_workflow ordinal relay 1 state 4 1 None (Some (repeat 5 32)) 2000.

Definition demo_publication : admin_db PubState.publication_db :=
  AdminDb [] (PubState.PublicationDb [] [demo_outbox]
                [demo_target 0 "relay-a" "rejected"; demo_target 1 "relay-b" "accepted"] []).

Definition retry_model : json :=
  JObject [("expected_generation", JNumber 5); ("workflow_id", JString (lower_hex demo_workflow))].

Definition retry_request : RhiAdminRequestDocument :=
  MkRequest PublicationRetry (Some "retry-1") "correlation-1" None (write_json retry_model).

Definition retry_value : json := retry_receipt demo_workflow 5 "retry-1" demo_outbox.

Section retry.
#[local] Instance retry_reader : StrictReader json := reads retry_value.
#[local] Instance retry_models : JsonReader json := reads_model retry_model.

Definition retry_document : RhiAdminResponseDocument json :=
  MkResponse PublicationRetry (write_json retry_value) retry_value.

(** The rejected target is pending again, the accepted one is not touched. *)
Definition retried_publication : admin_db PubState.publication_db :=
  AdminDb
    [receipt (match from_document retry_request with Ok b => b | Err _ => MkBinding "" PublicationRetry [] end)
       3000 604803000 retry_document]
    (PubState.PublicationDb [] [due_outbox 3000 demo_outbox]
       [due_target 3000 (demo_target 0 "relay-a" "rejected"); demo_target 1 "relay-b" "accepted"] []).

Lemma publication_retry_is_atomic_witness :
  publication_retry demo_contract true 2 (Ok 3000) retry_request demo_publication =
    (Ok retry_document, retried_publication) ∧
  mutated retry_request
    (λ i s d s', ∃ workflow expected now,
       names retry_request "/workflow_id" (lower_hex workflow) ∧ counts retry_request "/expected_generation" expected ∧
       Ok (E:=RhiAdminHandlerErrorKind) 3000 = Ok now ∧ retry_effect workflow expected now i 2 s d s')
    (Ok 3000) demo_publication (Ok retry_document) retried_publication.
Proof.
  split; [vm_compute; reflexivity|].
  apply (publication_retry_is_atomic demo_contract).
  - split; [reflexivity|constructor|vm_compute; discriminate..].
  - vm_compute. reflexivity.
Defined.
End retry.

(** The same workflow, blocked by a target that failed its three attempts *)
Definition exhausted_publication : PubState.publication_db :=
  PubState.PublicationDb [] [demo_outbox]
    [PubState.TargetRow demo_workflow 0 "relay-a" 1 "failed" 6 3 None (Some (repeat 5 32)) 2000;
     demo_target 1 "relay-b" "accepted"] [].

Section exhausted.
#[local] Instance exhausted_reader : StrictReader json := reads retry_value.

Definition retried_exhausted : PubState.publication_db :=
  PubState.PublicationDb [] [due_outbox 3000 demo_outbox]
    [due_target 3000 (PubState.TargetRow demo_workflow 0 "relay-a" 1 "failed" 6 3 None (Some (repeat 5 32)) 2000);
     demo_target 1 "relay-b" "accepted"] [].

Lemma retry_cannot_help_exhausted_workflow_witness :
  publication_retry_op demo_contract demo_workflow 5 3000 "retry-1" 2 exhausted_publication =
    Ok (retry_document, retried_exhausted) ∧
  ((∃ o, o ∈ PubState.outboxes retried_exhausted ∧ PubState.ob_outbox_id o = demo_workflow ∧
      Execution.claimable 3000 o = true) ∧
   ∀ l started db'' r, PubState.targets db'' = PubState.targets retried_exhausted →
     Execution.id (Execution.lease_outbox l) = demo_workflow →
     Execution.max_attempts (Execution.lease_outbox l) = 3 → Execution.prepare_next l started db'' ≠ Ok r).
Proof.
  split; [vm_compute; reflexivity|].
  apply (retry_cannot_help_exhausted_workflow demo_contract demo_workflow 5 3000 "retry-1" 2 3
    exhausted_publication retry_document).
  - vm_compute. reflexivity.
  - constructor; [right; vm_compute; discriminate|]. constructor; [left; reflexivity|constructor].
Defined.
End exhausted.

(** Presence blocked by the relays of one document *)
Definition demo_desired : PresenceState.desired_row :=
  PresenceState.DesiredRow 1 3 1 1 1 (repeat 4 32) 2 1 16 (repeat 6 32).

Definition demo_document (kind state : string) (n : Z) : PresenceState.outbox_row :=
  PresenceState.OutboxRow (repeat n 32) 3 kind (repeat 6 32) (repeat 4 32) (repeat (n + 1) 32) (repeat (n + 2) 32)
    (as_bytes "signed event") 1 "0000000000000000000000000000000000000000000000000000000000000001" 2 1 100 250 30000
    15000 state 5 None None None 1000 2000.

Definition demo_presence : admin_db PresenceState.presence_db :=
  AdminDb [] (PresenceState.PresenceDb [] [demo_desired]
                [demo_document "service_profile" "complete" 10; demo_document "application_handler" "blocked" 20] [] []).

Definition refresh_model : json := JObject [("expected_generation", JNumber 3)].

Definition refresh_request : RhiAdminRequestDocument :=
  MkRequest PresenceRefresh (Some "refresh-1") "correlation-2" None (write_json refresh_model).

Definition refresh_value : json :=
  JObject [("document_digests", JObject [("application_handler", JString (lower_hex (repeat 22 32)));
                                         ("service_profile", JString (lower_hex (repeat 12 32)))]);
           ("generation", JNumber 3); ("operation_id", JString "refresh-1"); ("state", JString "pending");
           ("target_count", JNumber 2)].

Section refreshed.
#[local] Instance refresh_reader : StrictReader json := reads refresh_value.
#[local] Instance refresh_models : JsonReader json := reads_model refresh_model.

Definition refresh_document : RhiAdminResponseDocument json :=
  MkResponse PresenceRefresh (write_json refresh_value) refresh_value.

Definition refreshed_presence : admin_db PresenceState.presence_db :=
  AdminDb
    [receipt (match from_document refresh_request with Ok b => b | Err _ => MkBinding "" PresenceRefresh [] end)
       3000 604803000 refresh_document]
    (PresenceState.PresenceDb [] [demo_desired]
       [demo_document "service_profile" "complete" 10;
        due_presence 3000 (demo_document "application_handler" "blocked" 20)] [] []).

Lemma presence_refresh_is_atomic_witness :
  presence_refresh demo_contract true (Ok 3000) refresh_request demo_presence =
    (Ok refresh_document, refreshed_presence) ∧
  mutated refresh_request
    (λ i s d s', ∃ expected now, counts refresh_request "/expected_generation" expected ∧
       Ok (E:=RhiAdminHandlerErrorKind) 3000 = Ok now ∧ refresh_effect expected now i s d s')
    (Ok 3000) demo_presence (Ok refresh_document) refreshed_presence.
Proof.
  split; [vm_compute; reflexivity|].
  apply (presence_refresh_is_atomic demo_contract).
  - split; [reflexivity|constructor|vm_compute; discriminate..].
  - vm_compute. reflexivity.
Defined.
End refreshed.
End CommandsSafety.
